(* ===== verification/_CoqProject ===== *)
-Q . S2P
Prelude.v
RtDef.v
RtList.v
KService.v
Object.v
Scheduler.v
Timer.v
Thread.v
Kernel.v
Tick.v
Ipc.v
Life.v
Sem.v
Mutex.v
Event.v
Mailbox.v
MsgQueue.v
Ext.v
Completion.v
DataQueue.v
RingBuffer.v
MemPool.v
ByteMem.v
KString.v
Printf.v
FinshDef.v
FinshVm.v
FinshSym.v
FinshExpr.v
FinshCompiler.v
FinshTree.v
FinshCode.v
FinshHeap.v
FinshToken.v
FinshParser.v
FinshLex.v
FinshParse.v
FinshLine.v
FinshRun.v
Mem.v
Dynamic.v
Blocks.v
HeapRep.v
Heap.v
DynamicSpec.v
Idle.v
HeapSystem.v
System.v
Shell.v
ShellEdit.v
ShellSession.v
Msh.v
MshSpec.v
MshExec.v
MshComplete.v
MshSession.v
ShellAuth.v
Device.v
