(* ===== verification/Prelude.v ===== *)
(** * RT-Thread 4.0.0 kernel: verification library

    The repository is an application for the STM32 boards on top of the RT-Thread 4.0.0 kernel
    (src/rt-thread-4.0.0). This library models the kernel: the scheduler, timers, threads and the five
    inter-process communication (IPC) objects of src/*.c and include/*.h, as executable functions on
    one state, and proves them correct against an invariant of that state. Paths below are relative
    to src/rt-thread-4.0.0.

    ** Configuration

    That of bsp/stm32f10x/rtconfig.h: one CPU (no [RT_USING_SMP]), 32 priorities, one skip-list level,
    no soft timers, no signals, [RT_USING_OVERFLOW_CHECK], no [RT_USING_CPU_FFS], context checks on,
    100 ticks per second. Hook pointers are [RT_NULL].

    ** State and execution

    - [RtDef.kernel] is the state: the file-scope variables of src/scheduler.c, src/timer.c, src/clock.c,
      src/irq.c and src/object.c, and the threads, timers and IPC objects as finite maps from their
      addresses to records with the fields of include/rtdef.h.
    - An object's address is the constructor that embeds its header in its container ([RtDef.obj_id]), so
      the casts of the code are the identity; [OThreadTimer t] is the timer inside of the thread [t].
    - The rings of [tlist] nodes (the ready table, the defunct list, the waiting lists) are lists of threads
      per head ([RtDef.qid]); [RtList] proves that the pointer code of include/rtservice.h implements them.
    - Routines are in a state and error monad ([Prelude.stM]). [None] is a failed [RT_ASSERT] (whose
      handler never returns) or a load through a pointer to nothing. [Prelude.wp m Q s] says that [m] runs to
      completion from [s] with [Q]: every theorem in this form is also a proof of termination and of
      the absence of failing assertions and of wild accesses.
    - Integers are [Z] with the truncation of their width written out ([u8], [u16], [u32], [s16], [s32]).
    - [rt_hw_interrupt_disable]/[enable] have no counterpart: a routine is a sequence of steps that no interrupt
      splits. Where the code opens its critical section in the middle (message queues), the steps are
      separate definitions and their invariant has room for the transfers of others.
    - A call that blocks is cut at its [rt_schedule()]: the function gives [Block f] with the live
      variables [f], and [..._resume] is the code behind the call, run when the thread has the CPU again.
      The context switch itself is the change of [rt_current_thread].
    - That holds for the kernel's own files; the functions of src/mem.c, which interrupts may split anywhere, and those that call them are programs of
      single accesses ([Mem.prog]). [Mem.runs_to] is such a program when nobody interrupts it, [HeapSystem.csteps] the interleaving of several. Elsewhere (the
      files above the kernel) the result of [rt_malloc] is an argument.
    - Loops run on fuel where they are not structural: [rt_timer_check] (one more than the number of due
      timers is enough, C17 and C19), [rt_ipc_list_resume_all] (the length of the list), [rt_mq_control] (the number
      of slots, [MsgQueue.rt_mq_control_reset]), [rt_list_len] (the length), the walks of [rt_malloc] over the blocks
      (each has 12 bytes, so the size of the heap over 12 is enough, [Heap.rt_malloc_first_fit]). Running out of fuel is [None], so a [wp] excludes it.

    ** Files

    - [Prelude]: machine integers, the monad, its weakest preconditions and their automation, lists.
    - [RtDef]: constants, objects and state (include/rtdef.h). [RtList]: the pointer lists of
      include/rtservice.h and their refinement (C28).
    - [KService]: [__rt_ffs] (src/kservice.c). [Object]: src/object.c and include/rtdebug.h.
    - [Scheduler]: src/scheduler.c, its invariant [sched_inv] (every thread is in exactly the list its
      state asks for, the group bitmap mirrors the ready lists, one thread runs, stacks are intact), C15 and C16.
    - [Timer]: src/timer.c, the invariant [timer_inv] of the sorted list across the wrap-around of the tick, and the
      specification of [rt_timer_check] by a relation of its own (C17, C18). Timeout functions are a type class; for the
      first theorem they may stop timers and do nothing else to them.
    - [Thread]: src/thread.c, src/irq.c, src/clock.c and the initial stack of libcpu/arm/cortex-m3/cpuport.c.
    - [Kernel]: the invariant [kinv] of the whole kernel (the two above, the typing of objects, and that a
      thread's timer is active only while it is suspended), a decision procedure for it, and the thread
      operations against it. [Tick]: the clock interrupt (C19), against the class of user timeout functions
      that keep the invariant.
    - [Ipc]: the waiting lists of src/ipc.c and what it is to block, to be woken and to be reset.
    - [Life]: the life cycle of threads: sleep, start, exit ([Life.rt_thread_exit_spec]), detach ([Life.rt_thread_detach_spec]) and delete.
    - [Sem] (C20, [Sem.rt_sem_release_spec]), [Mutex] (C21, C22, with priority inheritance), [Event] (C23), [Mailbox] (C24, C25,
      a bounded queue), [MsgQueue] (C26, C27, a bounded queue of messages over a pool of linked slots):
      the operations of src/ipc.c, the invariant of each object and its functional specification on
      every branch, errors included.

    - [System]: threads that make these calls (semaphores, mutexes, sleep, yield) in any order, go on with a call they
      waited in, and are interrupted, as a step function with reachability: no reachable state is stuck
      (C1), mutexes exclude each other's holders (C2), bounded waits end (C3).
    - [Mem]: the heap of src/mem.c, on a state that adds the headers in memory, the bytes of the blocks and the file-scope
      variables of that file to the kernel; the functions as programs of single accesses, and their runs without interference. [Blocks]: the heap as a list of blocks, with first fit and coalescing as functions on
      it. [HeapRep]: the headers represent such a list, and the critical sections of [Mem] compute those functions.
      [Heap]: the functions of src/mem.c when nobody else is in the heap (C6 to C9), and four defects of the code.
      [HeapSystem]: [rt_malloc] and [rt_free] called by any number of threads that lose the CPU anywhere between two accesses, as a step relation with
      what everything else may do to the kernel in between ([HeapSystem.others]: keep it sound and leave [heap_sem] alone). Only [heap_sem] keeps the threads apart; the runs
      are those of a heap with atomic operations (C4), and no call is ever stuck (C5). The calls are made by the running thread.
    - [Dynamic]: the functions that create kernel objects in the heap and delete them, on top of [rt_malloc] and [rt_free]; an object in the heap is numbered by its
      address. [DynamicSpec]: allocation and deletion on the heap, and that a semaphore that is created and deleted leaves nothing behind (C30). [Idle]: the reaper of src/idle.c, which gives the stacks and control blocks of ended threads back with [rt_free] (C29).
    - [MemPool]: src/mempool.c, on a state that adds the pools, the words in front of their blocks and [__rt_errno] to the kernel
      (C10, C11); [MemPool.rt_mp_alloc_timeout_breaks_free] shows a defect of the code.
    - [ByteMem]: the memory services of src/kservice.c on a byte-addressed memory, little-endian (C14). [KString]: its string services
      ([KString.rt_strstr_spec]). [Printf]: formatted output into a buffer, and the text that a format stands for as its specification
      (C12, C13). Strings that are printed and the format are lists outside of the memory; the widths and precisions are unbounded
      (their signed overflow is undefined in C). Lemmas at the end of [KString] and [Printf] show defects.
    - [RingBuffer]: the byte ring buffer of components/drivers (C31), a bounded queue of bytes over two
      positions with mirror bits; [None] is an access outside of the buffer. [RingBuffer.rt_ringbuffer_put_force_spec] shows a defect of the code.

    - [Ext]: the kernel extended by the state of a component above it, and what it is to wait on such a component's list. [Completion] and
      [DataQueue]: completions and data queues of components/drivers/src (C32, a bounded queue of items);
      [DataQueue.data_queue_overwrites_after_wrap] and [Completion.late_done_is_lost] show defects of the code.

    - [Device]: src/device.c on the kernel and a state of the devices, with the objects in it and the calls of the drivers so far. The drivers are a type class: their
      results may depend on all that has happened. The calls follow each other, as the code has no lock; a driver sees them in an order
      that it can rely on (C40). [Device.rt_device_destroy_never] and [Device.close_failure_locks] show defects.

    - The finsh shell of components/finsh, as a verified compiler. [FinshDef]: its data (finsh.h, finsh_node.h) and finsh_error.c on a state of its own
      ([FinshDef.finsh]); the memory that its programs work on is that of [ByteMem]. [FinshVm]: the virtual machine (finsh_vm.c, finsh_ops.c), which
      stops by itself (C37), and runs of its code as steps from stack to stack. [FinshSym]: finsh_var.c and the symbols of finsh_vm.c.
      [FinshExpr]: the expressions of the shell, their types, their values and their code, which computes the value. [FinshCompiler]: finsh_compiler.c.
      [FinshTree]: what its pointer code computes on trees of nodes. [FinshCode]: the trees of expressions, their types (C36), and the
      correctness of compiler and machine together ([FinshCode.finsh_compiler_vm_correct]). [char] is unsigned, as on ARM; [long] arithmetic wraps at 32 bits; a
      division by 0, one that overflows and a shift by 32 or more are [None]; the functions that the shell calls are a type class over the memory.
      [FinshHeap]: finsh_heap.c and finsh_node.c. [FinshToken]: finsh_token.c. [FinshParser]: finsh_parser.c; its functions call each other with fuel, and twice
      the length of the line and 3 is enough. [FinshLex]: the lexical grammar, and that the tokenizer reads it. [FinshParse]: the expressions as tokens,
      and that the recursive descent makes their trees in the table of nodes. [FinshLine]: declarations and lines (C35). [FinshRun]:
      finsh_init.c and finsh_run_line of shell.c, and the shell as an interpreter of its language (C33): sessions of lines against the
      values and the symbols that the lines stand for; examples at its end show defects of the code.

    - The shell around it. [Shell]: the thread of components/finsh/shell.c with its keys, its history and what it prints, on a state of its own
      ([Shell.finsh_shell]); a character comes in for every round of its loop. [ShellEdit]: an editor of a line with a history and a terminal that shows it, and
      that every key keeps the two in step. [ShellSession]: lines, and the calls that they are; lemmas at its end show defects. [Msh]: components/finsh/msh.c on
      the same state. [MshSpec]: the words of a line, as a function on its text, and that the pointer code of [msh_split] finds them; every loop over the line
      has its length and 1 as fuel, which is enough. [MshExec]: the execution of a line (C38). [MshComplete]: the tab key (C39).
      [MshSession]: the thread with the execution of its lines (C34), for all commands that end with a row of their own. [ShellAuth]:
      the password of the shell ([ShellAuth.login_is_password]), and defects of it. The theorems are about printable lines of at most 79 characters,
      one less for finsh; the functions of the commands and the completion of paths are arguments.

    ** Not modelled

    src/memheap.c and src/slab.c (alternatives to src/mem.c), [rt_mp_create] and [rt_mp_delete] (a pool in the heap),
    src/signal.c and src/cpu.c (off in the configuration), the console device of src/kservice.c,
    src/components.c (linker tables and hooks of the board). Of components/finsh: cmd.c, symbol.c, msh_cmd.c and msh_file.c, which print lists of the kernel and work on
    files, the device of the shell, and modules and processes of msh.c (off in the configuration). The rest of components/, bsp/ and the application: drivers, network
    and file systems. [System] has threads that use semaphores, mutexes and sleep; the other objects have theorems of their own and no interleaving. *)

From stdpp Require Export base option list gmap strings sets fin_maps.
From Stdlib Require Export ZArith Lia Sorted.

#[global] Open Scope Z_scope.

(** ** Machine integers *)

Declare Scope rt_scope.
Delimit Scope rt_scope with rt.
#[global] Open Scope rt_scope.

Notation "a '.&' b" := (Z.land a b) (at level 40, left associativity) : rt_scope.
Notation "a '.|' b" := (Z.lor a b) (at level 50, left associativity) : rt_scope.
Notation "a '.&~' b" := (Z.land a (Z.lnot b)) (at level 40, left associativity) : rt_scope.

(** A C unsigned integer of [w] bits is the [Z] in [0 .. 2^w); every assignment
    to a location of that width goes through [uwrap w]. *)
Definition uwrap (w x : Z) : Z := x mod 2 ^ w.
(** A C signed integer of [w] bits (two's complement truncation). *)
Definition swrap (w x : Z) : Z := (x + 2 ^ (w - 1)) mod 2 ^ w - 2 ^ (w - 1).

Abbreviation u8 := (uwrap 8).
Abbreviation u16 := (uwrap 16).
Abbreviation u32 := (uwrap 32).
Abbreviation s16 := (swrap 16).
Abbreviation s32 := (swrap 32).

Lemma uwrap_bound w x : 0 <= w -> 0 <= uwrap w x < 2 ^ w.
Proof. intros. apply Z.mod_pos_bound. lia. Qed.

Lemma uwrap_small w x : 0 <= x < 2 ^ w -> uwrap w x = x.
Proof. apply Z.mod_small. Qed.

Lemma u16_small x : 0 <= x < 65536 -> u16 x = x.
Proof. apply (uwrap_small 16). Qed.

Lemma u32_small x : 0 <= x < 4294967296 -> u32 x = x.
Proof. apply (uwrap_small 32). Qed.

Lemma uwrap_land w x : 0 <= w -> uwrap w x = Z.land x (Z.ones w).
Proof. intros. symmetry. by apply Z.land_ones. Qed.

Lemma swrap_small w x :
  1 <= w -> - 2 ^ (w - 1) <= x < 2 ^ (w - 1) -> swrap w x = x.
Proof.
  intros Hw Hx. unfold swrap.
  assert (2 ^ w = 2 * 2 ^ (w - 1)) as E.
  { rewrite <- Z.pow_succ_r by lia. f_equal. lia. }
  rewrite Z.mod_small; lia.
Qed.

(** [lia] extended with the case analysis on the wrap-around of 16 and 32 bit values. *)
Ltac wrap_lia :=
  unfold uwrap, swrap in *; change (2 ^ 8) with 256 in *; change (2 ^ 16) with 65536 in *;
  change (2 ^ 32) with 4294967296 in *; change (2 ^ (32 - 1)) with 2147483648 in *;
  change (2 ^ (16 - 1)) with 32768 in *; Z.to_euclidean_division_equations; lia.

(** ** A state and error monad

    A kernel routine of type [stM S A] runs on a state; [None] is the end of the
    run in [rt_assert_handler] (a failed [RT_ASSERT] loops there forever) or an
    access through a pointer that designates nothing. *)

Definition stM (S A : Type) : Type := S -> option (A * S).

#[global] Instance stM_ret {S} : MRet (stM S) := fun A a s => Some (a, s).
#[global] Instance stM_bind {S} : MBind (stM S) := fun A B f m s =>
  match m s with Some (a, s') => f a s' | None => None end.

Definition rt_panic {S A} : stM S A := fun _ => None.
Definition gets {S A} (f : S -> A) : stM S A := fun s => Some (f s, s).
Definition getso {S A} (f : S -> option A) : stM S A := fun s =>
  match f s with Some a => Some (a, s) | None => None end.
Definition modify {S} (f : S -> S) : stM S unit := fun s => Some (tt, f s).
(** [RT_ASSERT(EX)] of include/rtdebug.h. *)
Definition RT_ASSERT {S} (b : bool) : stM S unit := fun s => if b then Some (tt, s) else None.
Definition when {S} (b : bool) (m : stM S unit) : stM S unit := if b then m else mret tt.

(** [wp m Q s]: [m] runs to completion from [s] (no assertion fails, no wild access) and its
    result satisfies [Q]. *)
Definition wp {S A} (m : stM S A) (Q : A -> S -> Prop) (s : S) : Prop :=
  match m s with Some (a, s') => Q a s' | None => False end.

Section wp.
Context {S : Type}.

Lemma wp_mono {A} (m : stM S A) (Q R : A -> S -> Prop) s :
  wp m Q s -> (forall a s', Q a s' -> R a s') -> wp m R s.
Proof. unfold wp. destruct (m s) as [[??]|]; naive_solver. Qed.

Lemma wp_ret {A} (a : A) Q s : wp (S:=S) (mret a) Q s <-> Q a s.
Proof. done. Qed.

Lemma wp_bind {A B} (m : stM S A) (f : A -> stM S B) Q s :
  wp (m ≫= f) Q s <-> wp m (fun a s' => wp (f a) Q s') s.
Proof. unfold wp, mbind, stM_bind. by destruct (m s) as [[??]|]. Qed.

Lemma wp_gets {A} (f : S -> A) Q s : wp (gets f) Q s <-> Q (f s) s.
Proof. done. Qed.

Lemma wp_getso {A} (f : S -> option A) Q s : wp (getso f) Q s <-> exists a, f s = Some a /\ Q a s.
Proof. unfold wp, getso. destruct (f s); naive_solver. Qed.

Lemma wp_modify (f : S -> S) Q s : wp (modify f) Q s <-> Q tt (f s).
Proof. done. Qed.

Lemma wp_assert b Q (s : S) : wp (RT_ASSERT b) Q s <-> b = true /\ Q tt s.
Proof. unfold wp, RT_ASSERT. destruct b; naive_solver. Qed.

Lemma wp_when b m Q (s : S) : wp (when b m) Q s <-> (b = true /\ wp m Q s \/ b = false /\ Q tt s).
Proof. unfold when. destruct b; rewrite ?wp_ret; naive_solver. Qed.

Lemma wp_when_assert b c Q (s : S) : (b = true -> c = true) -> Q tt s -> wp (when b (RT_ASSERT c)) Q s.
Proof. rewrite wp_when, wp_assert. destruct b; naive_solver. Qed.

(** A run that is known to return. *)
Lemma wp_run {A} (m : stM S A) Q s : wp m Q s <-> exists a s', m s = Some (a, s') /\ Q a s'.
Proof. unfold wp. destruct (m s) as [[??]|]; naive_solver. Qed.

Lemma wp_eq {A} (m : stM S A) Q s a s' : m s = Some (a, s') -> wp m Q s <-> Q a s'.
Proof. unfold wp. by intros ->. Qed.
End wp.

Create HintDb wp.
#[global] Hint Rewrite @wp_ret @wp_bind @wp_gets @wp_modify @wp_assert : wp.

(** ** Lists and options *)

(** What [rt_list_remove] does to the list a node is linked in. *)
Definition list_del {A} `{EqDecision A} (x : A) (l : list A) : list A := filter (.≠ x) l.

Section list_del.
Context {A : Type} `{EqDecision A}.
Implicit Types (l : list A) (x y : A).

Lemma elem_of_list_del x y l : y ∈ list_del x l <-> y ≠ x /\ y ∈ l.
Proof. unfold list_del. by rewrite list_elem_of_filter. Qed.

Lemma NoDup_list_del x l : NoDup l -> NoDup (list_del x l).
Proof. apply NoDup_filter. Qed.

Lemma list_del_notin x l : x ∉ l -> list_del x l = l.
Proof.
  intros Hx. induction l as [|y l IH]; [done|].
  unfold list_del in *. rewrite filter_cons_True by set_solver. rewrite IH; set_solver.
Qed.

Lemma list_del_app x l1 l2 : list_del x (l1 ++ l2) = list_del x l1 ++ list_del x l2.
Proof. apply filter_app. Qed.

Lemma list_del_head x l : x ∉ l -> list_del x (x :: l) = l.
Proof.
  intros Hx. unfold list_del. rewrite filter_cons_False by (intros []; done).
  by apply (list_del_notin x l).
Qed.

Lemma list_del_mid x l1 l2 : NoDup (l1 ++ x :: l2) -> list_del x (l1 ++ x :: l2) = l1 ++ l2.
Proof.
  intros (H1 & Hd & H2)%NoDup_app. apply NoDup_cons in H2 as [Hx2 _].
  rewrite list_del_app, list_del_head, list_del_notin; [done| |done].
  intros Hin. eapply Hd; [done|]. by left.
Qed.

Lemma list_del_length_le x l : (length (list_del x l) <= length l)%nat.
Proof. apply length_filter. Qed.
End list_del.

Lemma filter_ext_in {A} (P Q : A -> Prop) `{!forall x, Decision (P x)} `{!forall x, Decision (Q x)} (l : list A) :
  (forall x, x ∈ l -> P x <-> Q x) -> filter P l = filter Q l.
Proof.
  induction l as [|x l IH]; intros HPQ; [done|]. rewrite !filter_cons.
  rewrite IH by (intros; apply HPQ; by right). pose proof (HPQ x ltac:(by left)).
  case_decide; case_decide; tauto.
Qed.

Lemma filter_all {A} (P : A -> Prop) `{!forall x, Decision (P x)} (l : list A) : (forall x, x ∈ l -> P x) -> filter P l = l.
Proof.
  induction l as [|x l IH]; intros HP; [done|]. rewrite filter_cons_True by (apply HP; by left).
  f_equal. apply IH. intros. apply HP. by right.
Qed.

#[export] Hint Resolve NoDup_list_del : core.

Lemma forallb_map_to_list {K V} `{Countable K} (f : K * V -> bool) (m : gmap K V) :
  forallb f (map_to_list m) = true -> forall k v, m !! k = Some v -> f (k, v) = true.
Proof.
  intros Hf k v Hkv. rewrite forallb_forall in Hf. apply Hf, list_elem_of_In.
  by apply elem_of_map_to_list.
Qed.

(** Splits every [if] on a comparison of integers and every [decide] of the goal. *)
Ltac case_if :=
  match goal with
  | |- context [if (?a =? ?b) then _ else _] => destruct (Z.eqb_spec a b)
  | |- context [if (?a <? ?b) then _ else _] => destruct (Z.ltb_spec a b)
  | |- context [if (?a <=? ?b) then _ else _] => destruct (Z.leb_spec a b)
  | |- context [if (?a >? ?b) then _ else _] => rewrite (Z.gtb_ltb a b)
  | |- context [if (?a >=? ?b) then _ else _] => rewrite (Z.geb_leb a b)
  | |- context [if negb ?b then _ else _] => destruct b eqn:?; simpl
  | |- context [if bool_decide ?P then _ else _] => case_bool_decide
  | |- context [if decide ?P then _ else _] => case_decide
  end.

Ltac wp_norm := autorewrite with wp.
