(* ===== verification/RtDef.v ===== *)
(** The kernel's constants, objects and global state (include/rtdef.h, the file-scope variables of
    src/scheduler.c, src/timer.c, src/clock.c, src/irq.c and src/object.c).

    The configuration is the one of bsp/stm32f10x/rtconfig.h: one CPU, 32 priorities, a
    [RT_TIMER_SKIP_LIST_LEVEL] of 1, no soft timers, no signals; hook pointers are [RT_NULL]. *)

From S2P Require Import Prelude.

(** ** Constants of include/rtdef.h *)

Abbreviation RT_EOK := 0.
Abbreviation RT_ERROR := 1.
Abbreviation RT_ETIMEOUT := 2.
Abbreviation RT_EFULL := 3.
Abbreviation RT_EEMPTY := 4.
Abbreviation RT_ENOMEM := 5.
Abbreviation RT_EINTR := 9.

Abbreviation RT_THREAD_INIT := 0.
Abbreviation RT_THREAD_READY := 1.
Abbreviation RT_THREAD_SUSPEND := 2.
Abbreviation RT_THREAD_RUNNING := 3.
Abbreviation RT_THREAD_CLOSE := 4.
Abbreviation RT_THREAD_STAT_MASK := 15.
Abbreviation RT_THREAD_PRIORITY_MAX := 32.

Abbreviation RT_THREAD_CTRL_STARTUP := 0.
Abbreviation RT_THREAD_CTRL_CLOSE := 1.
Abbreviation RT_THREAD_CTRL_CHANGE_PRIORITY := 2.

Abbreviation RT_TIMER_FLAG_ACTIVATED := 1.
Abbreviation RT_TIMER_FLAG_ONE_SHOT := 0.
Abbreviation RT_TIMER_FLAG_PERIODIC := 2.
Abbreviation RT_TIMER_CTRL_SET_TIME := 0.
Abbreviation RT_TIMER_CTRL_GET_TIME := 1.
Abbreviation RT_TIMER_CTRL_SET_ONESHOT := 2.
Abbreviation RT_TIMER_CTRL_SET_PERIODIC := 3.
Abbreviation RT_TIMER_SKIP_LIST_MASK := 3.
Abbreviation RT_TICK_MAX := 4294967295.
Abbreviation RT_TICK_PER_SECOND := 100.

Abbreviation RT_IPC_FLAG_FIFO := 0.
Abbreviation RT_IPC_FLAG_PRIO := 1.
Abbreviation RT_IPC_CMD_RESET := 1.
Abbreviation RT_WAITING_FOREVER := (-1).
Abbreviation RT_EVENT_FLAG_AND := 1.
Abbreviation RT_EVENT_FLAG_OR := 2.
Abbreviation RT_EVENT_FLAG_CLEAR := 4.

Abbreviation RT_NAME_MAX := 8%nat.
Abbreviation RT_ALIGN_SIZE := 4.

Abbreviation RT_Object_Class_Thread := 1.
Abbreviation RT_Object_Class_Semaphore := 2.
Abbreviation RT_Object_Class_Mutex := 3.
Abbreviation RT_Object_Class_Event := 4.
Abbreviation RT_Object_Class_MailBox := 5.
Abbreviation RT_Object_Class_MessageQueue := 6.
Abbreviation RT_Object_Class_MemPool := 8.
Abbreviation RT_Object_Class_Device := 9.
Abbreviation RT_Object_Class_Timer := 10.
Abbreviation RT_Object_Class_Unknown := 12.
Abbreviation RT_Object_Class_Static := 128.

(** [RT_ALIGN] and [RT_ALIGN_DOWN] on 32-bit operands. *)
Definition RT_ALIGN (size align : Z) : Z := u32 (size + align - 1) .&~ (align - 1).
Definition RT_ALIGN_DOWN (size align : Z) : Z := size .&~ (align - 1).

(** ** Addresses

    An object's address is the constructor that embeds it in its container, so that casts between
    [rt_object_t] and the derived types are the identity, as in the code. *)
Inductive obj_id :=
| OThread (t : nat)
| OThreadTimer (t : nat)
| OTimer (n : nat)
| OSem (n : nat)
| OMutex (n : nat)
| OEvent (n : nat)
| OMailBox (n : nat)
| OMsgQueue (n : nat)
| OMemPool (n : nat).

(** The heads of the rings a thread's [tlist] can be linked in: [rt_thread_priority_table[prio]],
    [rt_thread_defunct], [suspend_thread] of an IPC object, [suspend_sender_thread] of a mailbox, and those of
    components/drivers: [suspended_list] of a completion, the two lists of a data queue. *)
Inductive ring_id :=
| RCompletion (n : nat)
| RPush (n : nat)
| RPop (n : nat).
Inductive qid :=
| QReady (prio : Z)
| QDefunct
| QSuspend (o : obj_id)
| QSender (o : obj_id)
| QDriver (r : ring_id).

(** A timer's [timeout_func] with its [parameter]. *)
Inductive callback :=
| CbThreadTimeout (t : nat)
| CbUser (n : nat).

#[export] Instance obj_id_eq_dec : EqDecision obj_id.
Proof. solve_decision. Defined.
#[export] Instance ring_id_eq_dec : EqDecision ring_id.
Proof. solve_decision. Defined.
#[export] Instance qid_eq_dec : EqDecision qid.
Proof. solve_decision. Defined.
#[export] Instance callback_eq_dec : EqDecision callback.
Proof. solve_decision. Defined.

Definition obj_id_encode (o : obj_id) : nat * nat :=
  match o with
  | OThread t => (0, t) | OThreadTimer t => (1, t) | OTimer n => (2, n) | OSem n => (3, n)
  | OMutex n => (4, n) | OEvent n => (5, n) | OMailBox n => (6, n) | OMsgQueue n => (7, n)
  | OMemPool n => (8, n)
  end%nat.
Definition obj_id_decode (p : nat * nat) : option obj_id :=
  let '(k, n) := p in
  match k with
  | 0 => Some (OThread n) | 1 => Some (OThreadTimer n) | 2 => Some (OTimer n) | 3 => Some (OSem n)
  | 4 => Some (OMutex n) | 5 => Some (OEvent n) | 6 => Some (OMailBox n) | 7 => Some (OMsgQueue n)
  | 8 => Some (OMemPool n) | _ => None
  end%nat.
#[export] Instance obj_id_countable : Countable obj_id.
Proof. refine (inj_countable obj_id_encode obj_id_decode _). by intros []. Defined.

Definition ring_id_encode (r : ring_id) : nat + (nat + nat) :=
  match r with RCompletion n => inl n | RPush n => inr (inl n) | RPop n => inr (inr n) end.
Definition ring_id_decode (x : nat + (nat + nat)) : ring_id :=
  match x with inl n => RCompletion n | inr (inl n) => RPush n | inr (inr n) => RPop n end.
#[export] Instance ring_id_countable : Countable ring_id.
Proof. refine (inj_countable' ring_id_encode ring_id_decode _). by intros []. Defined.

Definition qid_encode (q : qid) : Z + (unit + (obj_id + (obj_id + ring_id))) :=
  match q with
  | QReady p => inl p | QDefunct => inr (inl tt)
  | QSuspend o => inr (inr (inl o)) | QSender o => inr (inr (inr (inl o))) | QDriver r => inr (inr (inr (inr r)))
  end.
Definition qid_decode (x : Z + (unit + (obj_id + (obj_id + ring_id)))) : qid :=
  match x with
  | inl p => QReady p | inr (inl _) => QDefunct
  | inr (inr (inl o)) => QSuspend o | inr (inr (inr (inl o))) => QSender o | inr (inr (inr (inr r))) => QDriver r
  end.
#[export] Instance qid_countable : Countable qid.
Proof. refine (inj_countable' qid_encode qid_decode _). by intros []. Defined.

(** ** Kernel objects *)

(** [struct rt_thread], less the fields it shares with [struct rt_object] (the object header of
    [OThread t]), its two list nodes (positions in [rt_object_container] and in [queues]) and the
    embedded timer (the timer [OThreadTimer t]). [th_stack_guard] is the byte at [stack_addr]. *)
Record thread := mkThread {
  th_sp : Z;
  th_entry : Z;
  th_parameter : Z;
  th_stack_addr : Z;
  th_stack_size : Z;
  th_stack_guard : Z;
  th_error : Z;
  th_stat : Z;
  th_current_priority : Z;
  th_init_priority : Z;
  th_number_mask : Z;
  th_event_set : Z;
  th_event_info : Z;
  th_init_tick : Z;
  th_remaining_tick : Z;
  th_cleanup : Z;
  th_user_data : Z }.
Definition set_th_sp (v : Z) (r : thread) : thread :=
  mkThread v (th_entry r) (th_parameter r) (th_stack_addr r) (th_stack_size r) (th_stack_guard r)
    (th_error r) (th_stat r) (th_current_priority r) (th_init_priority r) (th_number_mask r)
    (th_event_set r) (th_event_info r) (th_init_tick r) (th_remaining_tick r) (th_cleanup r)
    (th_user_data r).
Definition set_th_error (v : Z) (r : thread) : thread :=
  mkThread (th_sp r) (th_entry r) (th_parameter r) (th_stack_addr r) (th_stack_size r)
    (th_stack_guard r) v (th_stat r) (th_current_priority r) (th_init_priority r)
    (th_number_mask r) (th_event_set r) (th_event_info r) (th_init_tick r) (th_remaining_tick r)
    (th_cleanup r) (th_user_data r).
Definition set_th_stat (v : Z) (r : thread) : thread :=
  mkThread (th_sp r) (th_entry r) (th_parameter r) (th_stack_addr r) (th_stack_size r)
    (th_stack_guard r) (th_error r) v (th_current_priority r) (th_init_priority r)
    (th_number_mask r) (th_event_set r) (th_event_info r) (th_init_tick r) (th_remaining_tick r)
    (th_cleanup r) (th_user_data r).
Definition set_th_current_priority (v : Z) (r : thread) : thread :=
  mkThread (th_sp r) (th_entry r) (th_parameter r) (th_stack_addr r) (th_stack_size r)
    (th_stack_guard r) (th_error r) (th_stat r) v (th_init_priority r) (th_number_mask r)
    (th_event_set r) (th_event_info r) (th_init_tick r) (th_remaining_tick r) (th_cleanup r)
    (th_user_data r).
Definition set_th_number_mask (v : Z) (r : thread) : thread :=
  mkThread (th_sp r) (th_entry r) (th_parameter r) (th_stack_addr r) (th_stack_size r)
    (th_stack_guard r) (th_error r) (th_stat r) (th_current_priority r) (th_init_priority r) v
    (th_event_set r) (th_event_info r) (th_init_tick r) (th_remaining_tick r) (th_cleanup r)
    (th_user_data r).
Definition set_th_event_set (v : Z) (r : thread) : thread :=
  mkThread (th_sp r) (th_entry r) (th_parameter r) (th_stack_addr r) (th_stack_size r)
    (th_stack_guard r) (th_error r) (th_stat r) (th_current_priority r) (th_init_priority r)
    (th_number_mask r) v (th_event_info r) (th_init_tick r) (th_remaining_tick r) (th_cleanup r)
    (th_user_data r).
Definition set_th_event_info (v : Z) (r : thread) : thread :=
  mkThread (th_sp r) (th_entry r) (th_parameter r) (th_stack_addr r) (th_stack_size r)
    (th_stack_guard r) (th_error r) (th_stat r) (th_current_priority r) (th_init_priority r)
    (th_number_mask r) (th_event_set r) v (th_init_tick r) (th_remaining_tick r) (th_cleanup r)
    (th_user_data r).
Definition set_th_remaining_tick (v : Z) (r : thread) : thread :=
  mkThread (th_sp r) (th_entry r) (th_parameter r) (th_stack_addr r) (th_stack_size r)
    (th_stack_guard r) (th_error r) (th_stat r) (th_current_priority r) (th_init_priority r)
    (th_number_mask r) (th_event_set r) (th_event_info r) (th_init_tick r) v (th_cleanup r)
    (th_user_data r).
Definition set_th_cleanup (v : Z) (r : thread) : thread :=
  mkThread (th_sp r) (th_entry r) (th_parameter r) (th_stack_addr r) (th_stack_size r)
    (th_stack_guard r) (th_error r) (th_stat r) (th_current_priority r) (th_init_priority r)
    (th_number_mask r) (th_event_set r) (th_event_info r) (th_init_tick r) (th_remaining_tick r) v
    (th_user_data r).

(** [struct rt_object]. *)
Record rt_object := mkObject {
  obj_name : string;
  obj_type : Z;
  obj_flag : Z }.
Definition set_obj_type (v : Z) (r : rt_object) : rt_object :=
  mkObject (obj_name r) v (obj_flag r).
Definition set_obj_flag (v : Z) (r : rt_object) : rt_object :=
  mkObject (obj_name r) (obj_type r) v.

(** [struct rt_timer] without its object header; [row[0]] is the position in [rt_timer_list]. *)
Record rt_timer := mkTimer {
  tm_timeout_func : callback;
  tm_init_tick : Z;
  tm_timeout_tick : Z }.
Definition set_tm_init_tick (v : Z) (r : rt_timer) : rt_timer :=
  mkTimer (tm_timeout_func r) v (tm_timeout_tick r).
Definition set_tm_timeout_tick (v : Z) (r : rt_timer) : rt_timer :=
  mkTimer (tm_timeout_func r) (tm_init_tick r) v.

(** [struct rt_semaphore]. *)
Record rt_semaphore := mkSem {
  sem_value : Z }.
Definition set_sem_value (v : Z) (r : rt_semaphore) : rt_semaphore :=
  mkSem v.

(** [struct rt_mutex]. *)
Record rt_mutex := mkMutex {
  mx_value : Z;
  mx_original_priority : Z;
  mx_hold : Z;
  mx_owner : option nat }.
Definition set_mx_value (v : Z) (r : rt_mutex) : rt_mutex :=
  mkMutex v (mx_original_priority r) (mx_hold r) (mx_owner r).
Definition set_mx_original_priority (v : Z) (r : rt_mutex) : rt_mutex :=
  mkMutex (mx_value r) v (mx_hold r) (mx_owner r).
Definition set_mx_hold (v : Z) (r : rt_mutex) : rt_mutex :=
  mkMutex (mx_value r) (mx_original_priority r) v (mx_owner r).
Definition set_mx_owner (v : option nat) (r : rt_mutex) : rt_mutex :=
  mkMutex (mx_value r) (mx_original_priority r) (mx_hold r) v.

(** [struct rt_event]. *)
Record rt_event := mkEvent {
  ev_set : Z }.
Definition set_ev_set (v : Z) (r : rt_event) : rt_event :=
  mkEvent v.

(** [struct rt_mailbox]; [mb_msg_pool] is the content of the message buffer, [mb_pool_addr] its address. *)
Record rt_mailbox := mkMailbox {
  mb_msg_pool : list Z;
  mb_size : Z;
  mb_entry : Z;
  mb_in_offset : Z;
  mb_out_offset : Z;
  mb_pool_addr : Z }.
Definition set_mb_msg_pool (v : list Z) (r : rt_mailbox) : rt_mailbox :=
  mkMailbox v (mb_size r) (mb_entry r) (mb_in_offset r) (mb_out_offset r) (mb_pool_addr r).
Definition set_mb_entry (v : Z) (r : rt_mailbox) : rt_mailbox :=
  mkMailbox (mb_msg_pool r) (mb_size r) v (mb_in_offset r) (mb_out_offset r) (mb_pool_addr r).
Definition set_mb_in_offset (v : Z) (r : rt_mailbox) : rt_mailbox :=
  mkMailbox (mb_msg_pool r) (mb_size r) (mb_entry r) v (mb_out_offset r) (mb_pool_addr r).
Definition set_mb_out_offset (v : Z) (r : rt_mailbox) : rt_mailbox :=
  mkMailbox (mb_msg_pool r) (mb_size r) (mb_entry r) (mb_in_offset r) v (mb_pool_addr r).

(** [struct rt_messagequeue]. A pointer into [msg_pool] is the index of the slot it designates
    ([None] is [RT_NULL]); [mq_next] and [mq_data] are the [next] word and the bytes behind it of
    each slot. *)
Record rt_messagequeue := mkMq {
  mq_msg_size : Z;
  mq_max_msgs : Z;
  mq_entry : Z;
  mq_msg_queue_head : option nat;
  mq_msg_queue_tail : option nat;
  mq_msg_queue_free : option nat;
  mq_next : gmap nat (option nat);
  mq_data : gmap nat (list Z);
  mq_pool_addr : Z }.
Definition set_mq_entry (v : Z) (r : rt_messagequeue) : rt_messagequeue :=
  mkMq (mq_msg_size r) (mq_max_msgs r) v (mq_msg_queue_head r) (mq_msg_queue_tail r)
    (mq_msg_queue_free r) (mq_next r) (mq_data r) (mq_pool_addr r).
Definition set_mq_msg_queue_head (v : option nat) (r : rt_messagequeue) : rt_messagequeue :=
  mkMq (mq_msg_size r) (mq_max_msgs r) (mq_entry r) v (mq_msg_queue_tail r) (mq_msg_queue_free r)
    (mq_next r) (mq_data r) (mq_pool_addr r).
Definition set_mq_msg_queue_tail (v : option nat) (r : rt_messagequeue) : rt_messagequeue :=
  mkMq (mq_msg_size r) (mq_max_msgs r) (mq_entry r) (mq_msg_queue_head r) v (mq_msg_queue_free r)
    (mq_next r) (mq_data r) (mq_pool_addr r).
Definition set_mq_msg_queue_free (v : option nat) (r : rt_messagequeue) : rt_messagequeue :=
  mkMq (mq_msg_size r) (mq_max_msgs r) (mq_entry r) (mq_msg_queue_head r) (mq_msg_queue_tail r) v
    (mq_next r) (mq_data r) (mq_pool_addr r).
Definition set_mq_next (v : gmap nat (option nat)) (r : rt_messagequeue) : rt_messagequeue :=
  mkMq (mq_msg_size r) (mq_max_msgs r) (mq_entry r) (mq_msg_queue_head r) (mq_msg_queue_tail r)
    (mq_msg_queue_free r) v (mq_data r) (mq_pool_addr r).
Definition set_mq_data (v : gmap nat (list Z)) (r : rt_messagequeue) : rt_messagequeue :=
  mkMq (mq_msg_size r) (mq_max_msgs r) (mq_entry r) (mq_msg_queue_head r) (mq_msg_queue_tail r)
    (mq_msg_queue_free r) (mq_next r) v (mq_pool_addr r).

(** ** The global state *)

(** The kernel's global state. [queues] holds every ring a [tlist] node can be linked in. *)
Record kernel := mkKernel {
  threads : gmap nat thread;
  objects : gmap obj_id rt_object;
  rt_object_container : gmap Z (list obj_id);
  queues : gmap qid (list nat);
  rt_thread_ready_priority_group : Z;
  rt_current_thread : option nat;
  rt_current_priority : Z;
  rt_scheduler_lock_nest : Z;
  rt_interrupt_nest : Z;
  rt_tick : Z;
  timers : gmap obj_id rt_timer;
  rt_timer_list : list obj_id;
  random_nr : Z;
  sems : gmap nat rt_semaphore;
  mutexes : gmap nat rt_mutex;
  events : gmap nat rt_event;
  mailboxes : gmap nat rt_mailbox;
  msgqueues : gmap nat rt_messagequeue }.
Definition set_threads (v : gmap nat thread) (r : kernel) : kernel :=
  mkKernel v (objects r) (rt_object_container r) (queues r) (rt_thread_ready_priority_group r)
    (rt_current_thread r) (rt_current_priority r) (rt_scheduler_lock_nest r) (rt_interrupt_nest r)
    (rt_tick r) (timers r) (rt_timer_list r) (random_nr r) (sems r) (mutexes r) (events r)
    (mailboxes r) (msgqueues r).
Definition set_objects (v : gmap obj_id rt_object) (r : kernel) : kernel :=
  mkKernel (threads r) v (rt_object_container r) (queues r) (rt_thread_ready_priority_group r)
    (rt_current_thread r) (rt_current_priority r) (rt_scheduler_lock_nest r) (rt_interrupt_nest r)
    (rt_tick r) (timers r) (rt_timer_list r) (random_nr r) (sems r) (mutexes r) (events r)
    (mailboxes r) (msgqueues r).
Definition set_rt_object_container (v : gmap Z (list obj_id)) (r : kernel) : kernel :=
  mkKernel (threads r) (objects r) v (queues r) (rt_thread_ready_priority_group r)
    (rt_current_thread r) (rt_current_priority r) (rt_scheduler_lock_nest r) (rt_interrupt_nest r)
    (rt_tick r) (timers r) (rt_timer_list r) (random_nr r) (sems r) (mutexes r) (events r)
    (mailboxes r) (msgqueues r).
Definition set_queues (v : gmap qid (list nat)) (r : kernel) : kernel :=
  mkKernel (threads r) (objects r) (rt_object_container r) v (rt_thread_ready_priority_group r)
    (rt_current_thread r) (rt_current_priority r) (rt_scheduler_lock_nest r) (rt_interrupt_nest r)
    (rt_tick r) (timers r) (rt_timer_list r) (random_nr r) (sems r) (mutexes r) (events r)
    (mailboxes r) (msgqueues r).
Definition set_rt_thread_ready_priority_group (v : Z) (r : kernel) : kernel :=
  mkKernel (threads r) (objects r) (rt_object_container r) (queues r) v (rt_current_thread r)
    (rt_current_priority r) (rt_scheduler_lock_nest r) (rt_interrupt_nest r) (rt_tick r)
    (timers r) (rt_timer_list r) (random_nr r) (sems r) (mutexes r) (events r) (mailboxes r)
    (msgqueues r).
Definition set_rt_current_thread (v : option nat) (r : kernel) : kernel :=
  mkKernel (threads r) (objects r) (rt_object_container r) (queues r)
    (rt_thread_ready_priority_group r) v (rt_current_priority r) (rt_scheduler_lock_nest r)
    (rt_interrupt_nest r) (rt_tick r) (timers r) (rt_timer_list r) (random_nr r) (sems r)
    (mutexes r) (events r) (mailboxes r) (msgqueues r).
Definition set_rt_current_priority (v : Z) (r : kernel) : kernel :=
  mkKernel (threads r) (objects r) (rt_object_container r) (queues r)
    (rt_thread_ready_priority_group r) (rt_current_thread r) v (rt_scheduler_lock_nest r)
    (rt_interrupt_nest r) (rt_tick r) (timers r) (rt_timer_list r) (random_nr r) (sems r)
    (mutexes r) (events r) (mailboxes r) (msgqueues r).
Definition set_rt_scheduler_lock_nest (v : Z) (r : kernel) : kernel :=
  mkKernel (threads r) (objects r) (rt_object_container r) (queues r)
    (rt_thread_ready_priority_group r) (rt_current_thread r) (rt_current_priority r) v
    (rt_interrupt_nest r) (rt_tick r) (timers r) (rt_timer_list r) (random_nr r) (sems r)
    (mutexes r) (events r) (mailboxes r) (msgqueues r).
Definition set_rt_interrupt_nest (v : Z) (r : kernel) : kernel :=
  mkKernel (threads r) (objects r) (rt_object_container r) (queues r)
    (rt_thread_ready_priority_group r) (rt_current_thread r) (rt_current_priority r)
    (rt_scheduler_lock_nest r) v (rt_tick r) (timers r) (rt_timer_list r) (random_nr r) (sems r)
    (mutexes r) (events r) (mailboxes r) (msgqueues r).
Definition set_rt_tick (v : Z) (r : kernel) : kernel :=
  mkKernel (threads r) (objects r) (rt_object_container r) (queues r)
    (rt_thread_ready_priority_group r) (rt_current_thread r) (rt_current_priority r)
    (rt_scheduler_lock_nest r) (rt_interrupt_nest r) v (timers r) (rt_timer_list r) (random_nr r)
    (sems r) (mutexes r) (events r) (mailboxes r) (msgqueues r).
Definition set_timers (v : gmap obj_id rt_timer) (r : kernel) : kernel :=
  mkKernel (threads r) (objects r) (rt_object_container r) (queues r)
    (rt_thread_ready_priority_group r) (rt_current_thread r) (rt_current_priority r)
    (rt_scheduler_lock_nest r) (rt_interrupt_nest r) (rt_tick r) v (rt_timer_list r) (random_nr r)
    (sems r) (mutexes r) (events r) (mailboxes r) (msgqueues r).
Definition set_rt_timer_list (v : list obj_id) (r : kernel) : kernel :=
  mkKernel (threads r) (objects r) (rt_object_container r) (queues r)
    (rt_thread_ready_priority_group r) (rt_current_thread r) (rt_current_priority r)
    (rt_scheduler_lock_nest r) (rt_interrupt_nest r) (rt_tick r) (timers r) v (random_nr r)
    (sems r) (mutexes r) (events r) (mailboxes r) (msgqueues r).
Definition set_random_nr (v : Z) (r : kernel) : kernel :=
  mkKernel (threads r) (objects r) (rt_object_container r) (queues r)
    (rt_thread_ready_priority_group r) (rt_current_thread r) (rt_current_priority r)
    (rt_scheduler_lock_nest r) (rt_interrupt_nest r) (rt_tick r) (timers r) (rt_timer_list r) v
    (sems r) (mutexes r) (events r) (mailboxes r) (msgqueues r).
Definition set_sems (v : gmap nat rt_semaphore) (r : kernel) : kernel :=
  mkKernel (threads r) (objects r) (rt_object_container r) (queues r)
    (rt_thread_ready_priority_group r) (rt_current_thread r) (rt_current_priority r)
    (rt_scheduler_lock_nest r) (rt_interrupt_nest r) (rt_tick r) (timers r) (rt_timer_list r)
    (random_nr r) v (mutexes r) (events r) (mailboxes r) (msgqueues r).
Definition set_mutexes (v : gmap nat rt_mutex) (r : kernel) : kernel :=
  mkKernel (threads r) (objects r) (rt_object_container r) (queues r)
    (rt_thread_ready_priority_group r) (rt_current_thread r) (rt_current_priority r)
    (rt_scheduler_lock_nest r) (rt_interrupt_nest r) (rt_tick r) (timers r) (rt_timer_list r)
    (random_nr r) (sems r) v (events r) (mailboxes r) (msgqueues r).
Definition set_events (v : gmap nat rt_event) (r : kernel) : kernel :=
  mkKernel (threads r) (objects r) (rt_object_container r) (queues r)
    (rt_thread_ready_priority_group r) (rt_current_thread r) (rt_current_priority r)
    (rt_scheduler_lock_nest r) (rt_interrupt_nest r) (rt_tick r) (timers r) (rt_timer_list r)
    (random_nr r) (sems r) (mutexes r) v (mailboxes r) (msgqueues r).
Definition set_mailboxes (v : gmap nat rt_mailbox) (r : kernel) : kernel :=
  mkKernel (threads r) (objects r) (rt_object_container r) (queues r)
    (rt_thread_ready_priority_group r) (rt_current_thread r) (rt_current_priority r)
    (rt_scheduler_lock_nest r) (rt_interrupt_nest r) (rt_tick r) (timers r) (rt_timer_list r)
    (random_nr r) (sems r) (mutexes r) (events r) v (msgqueues r).
Definition set_msgqueues (v : gmap nat rt_messagequeue) (r : kernel) : kernel :=
  mkKernel (threads r) (objects r) (rt_object_container r) (queues r)
    (rt_thread_ready_priority_group r) (rt_current_thread r) (rt_current_priority r)
    (rt_scheduler_lock_nest r) (rt_interrupt_nest r) (rt_tick r) (timers r) (rt_timer_list r)
    (random_nr r) (sems r) (mutexes r) (events r) (mailboxes r) v.

(** ** Access to the state *)

Abbreviation M := (stM kernel).

Definition get_thread (t : nat) : M thread := getso (fun s => threads s !! t).
Definition put_thread (t : nat) (th : thread) : M unit :=
  modify (fun s => set_threads (<[t := th]> (threads s)) s).
Definition upd_thread (t : nat) (f : thread -> thread) : M unit :=
  th ← get_thread t; put_thread t (f th).

Definition get_object (o : obj_id) : M rt_object := getso (fun s => objects s !! o).
Definition upd_object (o : obj_id) (f : rt_object -> rt_object) : M unit :=
  x ← get_object o; modify (fun s => set_objects (<[o := f x]> (objects s)) s).

Definition get_timer (o : obj_id) : M rt_timer := getso (fun s => timers s !! o).
Definition upd_timer (o : obj_id) (f : rt_timer -> rt_timer) : M unit :=
  x ← get_timer o; modify (fun s => set_timers (<[o := f x]> (timers s)) s).

(** The list of the threads linked behind a head, first to last. *)
Definition qlist (qs : gmap qid (list nat)) (q : qid) : list nat := default [] (qs !! q).
Abbreviation qget s q := (qlist (queues s) q).

(** The operations of include/rtservice.h on a [tlist] node ([RtList.v] proves that the pointer
    code has these effects on the rings). *)
Definition q_remove (t : nat) (qs : gmap qid (list nat)) : gmap qid (list nat) := list_del t <$> qs.
Definition q_push_back (q : qid) (t : nat) (qs : gmap qid (list nat)) : gmap qid (list nat) :=
  <[q := qlist qs q ++ [t]]> qs.
Definition q_push_front (q : qid) (t : nat) (qs : gmap qid (list nat)) : gmap qid (list nat) :=
  <[q := t :: qlist qs q]> qs.

Definition tlist_remove (t : nat) : M unit :=
  modify (fun s => set_queues (q_remove t (queues s)) s).
Definition tlist_insert_before (q : qid) (t : nat) : M unit :=
  modify (fun s => set_queues (q_push_back q t (queues s)) s).
Definition tlist_insert_after (q : qid) (t : nat) : M unit :=
  modify (fun s => set_queues (q_push_front q t (queues s)) s).
Definition tlist_isempty (q : qid) : M bool := gets (fun s => bool_decide (qget s q = [])).
(** [rt_list_entry(list->next, struct rt_thread, tlist)]: with an empty list the result points
    outside of any thread. *)
Definition tlist_first (q : qid) : M nat := getso (fun s => head (qget s q)).

Lemma qlist_remove t qs q : qlist (q_remove t qs) q = list_del t (qlist qs q).
Proof. unfold qlist, q_remove. rewrite lookup_fmap. by destruct (qs !! q). Qed.

Lemma qlist_push_back q t qs q' :
  qlist (q_push_back q t qs) q' = if decide (q = q') then qlist qs q ++ [t] else qlist qs q'.
Proof.
  unfold qlist, q_push_back. case_decide; [subst; by rewrite lookup_insert_eq|].
  by rewrite lookup_insert_ne.
Qed.

Lemma qlist_push_front q t qs q' :
  qlist (q_push_front q t qs) q' = if decide (q = q') then t :: qlist qs q else qlist qs q'.
Proof.
  unfold qlist, q_push_front. case_decide; [subst; by rewrite lookup_insert_eq|].
  by rewrite lookup_insert_ne.
Qed.

Lemma qlist_insert q l qs q' :
  qlist (<[q := l]> qs) q' = if decide (q = q') then l else qlist qs q'.
Proof.
  unfold qlist. case_decide; [subst; by rewrite lookup_insert_eq|]. by rewrite lookup_insert_ne.
Qed.

Section wp_access.
Implicit Types (s : kernel).

Lemma wp_get_thread t Q s : wp (get_thread t) Q s <-> exists th, threads s !! t = Some th /\ Q th s.
Proof. exact (wp_getso _ _ _). Qed.
Lemma wp_put_thread t th Q s :
  wp (put_thread t th) Q s <-> Q tt (set_threads (<[t := th]> (threads s)) s).
Proof. done. Qed.
Lemma wp_upd_thread t f Q s :
  wp (upd_thread t f) Q s <->
  exists th, threads s !! t = Some th /\ Q tt (set_threads (<[t := f th]> (threads s)) s).
Proof. unfold upd_thread. by rewrite wp_bind, wp_get_thread. Qed.
Lemma wp_get_object o Q s : wp (get_object o) Q s <-> exists x, objects s !! o = Some x /\ Q x s.
Proof. exact (wp_getso _ _ _). Qed.
Lemma wp_upd_object o f Q s :
  wp (upd_object o f) Q s <->
  exists x, objects s !! o = Some x /\ Q tt (set_objects (<[o := f x]> (objects s)) s).
Proof. unfold upd_object. by rewrite wp_bind, wp_get_object. Qed.
Lemma wp_get_timer o Q s : wp (get_timer o) Q s <-> exists x, timers s !! o = Some x /\ Q x s.
Proof. exact (wp_getso _ _ _). Qed.
Lemma wp_upd_timer o f Q s :
  wp (upd_timer o f) Q s <->
  exists x, timers s !! o = Some x /\ Q tt (set_timers (<[o := f x]> (timers s)) s).
Proof. unfold upd_timer. by rewrite wp_bind, wp_get_timer. Qed.
Lemma wp_tlist_remove t Q s :
  wp (tlist_remove t) Q s <-> Q tt (set_queues (q_remove t (queues s)) s).
Proof. done. Qed.
Lemma wp_tlist_insert_before q t Q s :
  wp (tlist_insert_before q t) Q s <-> Q tt (set_queues (q_push_back q t (queues s)) s).
Proof. done. Qed.
Lemma wp_tlist_insert_after q t Q s :
  wp (tlist_insert_after q t) Q s <-> Q tt (set_queues (q_push_front q t (queues s)) s).
Proof. done. Qed.
Lemma wp_tlist_isempty q Q s :
  wp (tlist_isempty q) Q s <-> Q (bool_decide (qget s q = [])) s.
Proof. done. Qed.
Lemma wp_tlist_first q Q s :
  wp (tlist_first q) Q s <-> exists t l, qget s q = t :: l /\ Q t s.
Proof.
  unfold tlist_first. rewrite wp_getso. destruct (qget s q) as [|t l]; simpl.
  - split; [by intros (?&?&?)|by intros (?&?&?&?)].
  - split; [intros (?&[= ->]&?)|intros (?&?&[= -> ->]&?)]; eauto.
Qed.
End wp_access.

#[global] Hint Rewrite wp_get_thread wp_put_thread wp_upd_thread wp_get_object wp_upd_object
  wp_get_timer wp_upd_timer wp_tlist_remove wp_tlist_insert_before wp_tlist_insert_after
  wp_tlist_isempty wp_tlist_first : wp.

(** ** Alignment *)

Lemma align_4 x : RT_ALIGN_DOWN x RT_ALIGN_SIZE = x / 4 * 4.
Proof.
  unfold RT_ALIGN_DOWN. change (RT_ALIGN_SIZE - 1) with (Z.ones 2). rewrite <- Z.ldiff_land, Z.ldiff_ones_r by lia.
  rewrite Z.shiftl_mul_pow2, Z.shiftr_div_pow2 by lia. done.
Qed.

Lemma align_spec size : 0 <= size <= 2 ^ 32 - 4 ->
  (4 | RT_ALIGN size RT_ALIGN_SIZE) /\ size <= RT_ALIGN size RT_ALIGN_SIZE < size + 4.
Proof.
  intros Hs. change (RT_ALIGN size RT_ALIGN_SIZE) with (RT_ALIGN_DOWN (u32 (size + 4 - 1)) RT_ALIGN_SIZE).
  rewrite align_4, u32_small by lia. split; [by eexists|]. Z.to_euclidean_division_equations. lia.
Qed.

Lemma align_divide size : (4 | RT_ALIGN size RT_ALIGN_SIZE) /\ 0 <= RT_ALIGN size RT_ALIGN_SIZE.
Proof.
  change (RT_ALIGN size RT_ALIGN_SIZE) with (RT_ALIGN_DOWN (u32 (size + 4 - 1)) RT_ALIGN_SIZE).
  rewrite align_4. split; [by eexists|]. pose proof (uwrap_bound 32 (size + 4 - 1)). Z.to_euclidean_division_equations. lia.
Qed.
