(* ===== verification/RtList.v ===== *)
(** The intrusive lists of include/rtservice.h as pointer code, and the proof that the doubly linked
    rings implement the lists of threads that the kernel's model works with. *)

From S2P Require Import Prelude RtDef.

(** ** Memory *)

(** The [next] and [prev] fields of the nodes at the addresses [A]. *)
Record list_heap (A : Type) `{Countable A} := mkHeap { h_next : gmap A A; h_prev : gmap A A }.
Arguments mkHeap {A _ _} _ _.
Arguments h_next {A _ _} _.
Arguments h_prev {A _ _} _.

Section ring.
Context {A : Type} `{Countable A}.
Implicit Types (h : list_heap A) (a b l n : A) (xs : list A).

(** Loads and stores; one through an address without a node is a fault. *)
Definition ld_next (a : A) : stM (list_heap A) A := getso (fun h => h_next h !! a).
Definition ld_prev (a : A) : stM (list_heap A) A := getso (fun h => h_prev h !! a).
Definition st_next (a v : A) : stM (list_heap A) unit :=
  ld_next a;; modify (fun h => mkHeap (<[a := v]> (h_next h)) (h_prev h)).
Definition st_prev (a v : A) : stM (list_heap A) unit :=
  ld_prev a;; modify (fun h => mkHeap (h_next h) (<[a := v]> (h_prev h))).

(** The node comes into being. *)
Definition rt_list_init (l : A) : stM (list_heap A) unit :=
  modify (fun h => mkHeap (<[l := l]> (h_next h)) (<[l := l]> (h_prev h))).

Definition rt_list_insert_after (l n : A) : stM (list_heap A) unit :=
  x ← ld_next l; st_prev x n;;
  x ← ld_next l; st_next n x;;
  st_next l n;;
  st_prev n l.

Definition rt_list_insert_before (l n : A) : stM (list_heap A) unit :=
  x ← ld_prev l; st_next x n;;
  x ← ld_prev l; st_prev n x;;
  st_prev l n;;
  st_next n l.

Definition rt_list_remove (n : A) : stM (list_heap A) unit :=
  x ← ld_next n; p ← ld_prev n; st_prev x p;;
  p ← ld_prev n; x ← ld_next n; st_next p x;;
  st_prev n n;;
  st_next n n.

Definition rt_list_isempty (l : A) : stM (list_heap A) bool :=
  x ← ld_next l; mret (bool_decide (x = l)).

(** [fuel] bounds the nodes visited. *)
Fixpoint list_len_loop (fuel : nat) (l p : A) (len : Z) : stM (list_heap A) Z :=
  match fuel with
  | O => rt_panic
  | S fuel =>
      x ← ld_next p;
      if bool_decide (x = l) then mret len else list_len_loop fuel l x (u32 (len + 1))
  end.
Definition rt_list_len (fuel : nat) (l : A) : stM (list_heap A) Z := list_len_loop fuel l l 0.

(** ** Rings *)

Definition link h a b : Prop := h_next h !! a = Some b /\ h_prev h !! b = Some a.

(** A path of links from [a] over [xs] to [b]. *)
Fixpoint links h a xs b : Prop :=
  match xs with
  | [] => link h a b
  | x :: xs => link h a x /\ links h x xs b
  end.

(** The ring of the node [l] and, behind it, the nodes [xs]. *)
Definition ring h l xs : Prop := NoDup (l :: xs) /\ links h l xs l.

Lemma links_app h a xs y ys b : links h a (xs ++ y :: ys) b <-> links h a xs y /\ links h y ys b.
Proof. revert a. induction xs as [|x xs IH]; intros a; simpl; [done|]. rewrite IH. tauto. Qed.

(** The list seen from another of its nodes. *)
Lemma ring_rotate h l xs n ys : ring h l (xs ++ n :: ys) <-> ring h n (ys ++ l :: xs).
Proof.
  unfold ring. rewrite !links_app. assert (l :: xs ++ n :: ys ≡ₚ n :: ys ++ l :: xs) as ->; [|tauto].
  rewrite !app_comm_cons. apply Permutation_app_comm.
Qed.

(** The memory outside of a set of nodes is the same. *)
Definition same_outside (P : A -> Prop) h h' : Prop :=
  forall a, ~ P a -> h_next h' !! a = h_next h !! a /\ h_prev h' !! a = h_prev h !! a.

Lemma links_frame h h' a xs b :
  (forall x, x ∈ a :: xs -> h_next h' !! x = h_next h !! x) ->
  (forall x, x ∈ xs ++ [b] -> h_prev h' !! x = h_prev h !! x) -> links h a xs b -> links h' a xs b.
Proof.
  revert a. induction xs as [|x xs IH]; intros a Hn Hp; simpl; unfold link.
  - rewrite Hn, Hp by (by left). done.
  - rewrite Hn, (Hp x) by (by left). intros [? ?]. split; [done|].
    apply IH; [intros; apply Hn; by right|intros; apply Hp; by right|done].
Qed.

Lemma ring_outside P h h' l xs :
  same_outside P h h' -> (forall x, x ∈ l :: xs -> ~ P x) -> ring h l xs -> ring h' l xs.
Proof.
  intros Ho Hx [Hnd Hl]. split; [done|]. eapply links_frame; [..|exact Hl].
  - intros x Hin. by apply Ho, Hx.
  - intros x Hin. apply Ho, Hx. apply elem_of_app in Hin as [|?%list_elem_of_singleton]; [by right|subst; by left].
Qed.

(** A ring with the field updates of an insertion between [l] and its successor. *)
Definition inserted_after (l y n : A) h : list_heap A :=
  mkHeap (<[l := n]> (<[n := y]> (h_next h))) (<[n := l]> (<[y := n]> (h_prev h))).

Lemma ring_insert h l xs n :
  ring h l xs -> n ∉ l :: xs -> ring (inserted_after l (default l (head xs)) n h) l (n :: xs).
Proof.
  intros [Hnd Hl] Hn. apply NoDup_cons in Hnd as [Hlx Hnd]. split.
  { constructor; [set_solver|]. constructor; [set_solver|done]. }
  destruct xs as [|y ys]; simpl in *; unfold link in *; simpl in *.
  - rewrite !lookup_insert_eq. rewrite (lookup_insert_ne _ l n), (lookup_insert_ne _ n l) by set_solver.
    by rewrite !lookup_insert_eq.
  - destruct Hl as [_ Hl]. apply NoDup_cons in Hnd as [Hy Hnd].
    rewrite !lookup_insert_eq. rewrite (lookup_insert_ne _ l n), (lookup_insert_ne _ n y) by set_solver.
    rewrite !lookup_insert_eq. split_and!; try done.
    eapply links_frame; [..|exact Hl]; intros x Hx; simpl.
    + rewrite !lookup_insert_ne by set_solver. done.
    + apply elem_of_app in Hx as [Hx|Hx%list_elem_of_singleton]; rewrite !lookup_insert_ne by set_solver; done.
Qed.

(** The field updates of a removal of [n] between [p] and [y]. *)
Definition removed (p n y : A) h : list_heap A :=
  mkHeap (<[n := n]> (<[p := y]> (h_next h))) (<[n := n]> (<[y := p]> (h_prev h))).

Lemma ring_self h n : h_next h !! n = Some n -> h_prev h !! n = Some n -> ring h n [].
Proof. split; [constructor; [set_solver|constructor]|done]. Qed.

Lemma ring_remove h n z zs :
  ring h n (z :: zs) ->
  let p := default z (last zs) in
  link h n z /\ link h p n /\ ring (removed p n z h) z zs /\ ring (removed p n z h) n [].
Proof.
  intros [Hnd [Hnz Hl]] p. apply NoDup_cons in Hnd as [Hn Hnd].
  assert (ring (removed p n z h) n []) as Hself by (apply ring_self; simpl; by rewrite lookup_insert_eq).
  split; [done|]. destruct zs as [|w zs _] using rev_ind.
  - simpl in *. split_and!; try done. split; [constructor; [set_solver|constructor]|].
    split; simpl; rewrite lookup_insert_ne by set_solver; by rewrite lookup_insert_eq.
  - subst p. rewrite last_snoc in *. simpl in *. apply links_app in Hl as [Hl1 Hl2]. split_and!; try done.
    split; [done|]. apply links_app. apply NoDup_cons in Hnd as [Hz Hnd].
    apply NoDup_app in Hnd as (Hnd1 & Hnd2 & _). assert (w ∉ zs) as Hw by (intros Hw; apply (Hnd2 w Hw); by left).
    split.
    + eapply links_frame; [..|exact Hl1]; intros x Hx; simpl; rewrite !lookup_insert_ne; set_solver.
    + split; simpl; rewrite lookup_insert_ne by set_solver; by rewrite lookup_insert_eq.
Qed.

Lemma wp_ld_next a Q h : wp (ld_next a) Q h <-> exists x, h_next h !! a = Some x /\ Q x h.
Proof. exact (wp_getso (fun h => h_next h !! a) Q h). Qed.

Lemma wp_ld_prev a Q h : wp (ld_prev a) Q h <-> exists x, h_prev h !! a = Some x /\ Q x h.
Proof. exact (wp_getso (fun h => h_prev h !! a) Q h). Qed.

Lemma wp_st_next a v Q h :
  wp (st_next a v) Q h <-> is_Some (h_next h !! a) /\ Q tt (mkHeap (<[a := v]> (h_next h)) (h_prev h)).
Proof. unfold st_next. rewrite wp_bind, wp_ld_next. unfold is_Some. setoid_rewrite wp_modify. naive_solver. Qed.

Lemma wp_st_prev a v Q h :
  wp (st_prev a v) Q h <-> is_Some (h_prev h !! a) /\ Q tt (mkHeap (h_next h) (<[a := v]> (h_prev h))).
Proof. unfold st_prev. rewrite wp_bind, wp_ld_prev. unfold is_Some. setoid_rewrite wp_modify. naive_solver. Qed.

(** The first link of a ring. *)
Lemma ring_first h l xs : ring h l xs -> link h l (default l (head xs)).
Proof. intros [_ Hl]. destruct xs; [done|apply Hl]. Qed.

Lemma ring_last h l xs : ring h l xs -> link h (default l (last xs)) l.
Proof.
  intros [_ Hl]. destruct xs as [|w xs _] using rev_ind; [done|].
  rewrite last_snoc. apply links_app in Hl as [_ Hl]. exact Hl.
Qed.

Definition is_node h n : Prop := is_Some (h_next h !! n) /\ is_Some (h_prev h !! n).

(** [rt_list_insert_after] in closed form. *)
Lemma wp_list_insert_after l xs n Q h :
  ring h l xs -> is_node h n -> n ∉ l :: xs -> Q tt (inserted_after l (default l (head xs)) n h) ->
  wp (rt_list_insert_after l n) Q h.
Proof.
  intros Hr [Hn1 Hn2] Hn HQ. destruct (ring_first _ _ _ Hr) as [Hnx Hpv]. unfold rt_list_insert_after.
  rewrite wp_bind, wp_ld_next. eexists. split; [exact Hnx|]. set (y := default l (head xs)) in *.
  rewrite wp_bind, wp_st_prev. split; [eauto|]. rewrite wp_bind, wp_ld_next. exists y. split; [done|].
  rewrite wp_bind, wp_st_next. split; [done|]. rewrite wp_bind, wp_st_next. simpl.
  split; [rewrite lookup_insert_ne by set_solver; eauto|]. rewrite wp_st_prev. simpl. split; [|exact HQ].
  destruct (decide (y = n)) as [->|]; [rewrite lookup_insert_eq; eauto|by rewrite lookup_insert_ne].
Qed.

(** [rt_list_insert_before] inserts behind the last node of the ring. *)
Lemma wp_list_insert_before l xs n Q h :
  ring h l xs -> is_node h n -> n ∉ l :: xs -> Q tt (inserted_after (default l (last xs)) l n h) ->
  wp (rt_list_insert_before l n) Q h.
Proof.
  intros Hr [Hn1 Hn2] Hn HQ. destruct (ring_last _ _ _ Hr) as [Hnx Hpv]. unfold rt_list_insert_before.
  rewrite wp_bind, wp_ld_prev. eexists. split; [exact Hpv|]. set (y := default l (last xs)) in *.
  assert (y ≠ n) as Hyn.
  { intros <-. apply Hn. unfold y. destruct (last xs) eqn:E; [|by left]. right. apply last_Some in E as [? ->]. set_solver. }
  rewrite wp_bind, wp_st_next. split; [eauto|]. rewrite wp_bind, wp_ld_prev. exists y. split; [done|].
  rewrite wp_bind, wp_st_prev. split; [done|]. rewrite wp_bind, wp_st_prev. simpl.
  split; [rewrite lookup_insert_ne by set_solver; eauto|]. rewrite wp_st_next. simpl.
  split; [rewrite lookup_insert_ne by done; done|].
  unfold inserted_after in HQ. rewrite (insert_insert_ne _ y n), (insert_insert_ne _ n l) in HQ by set_solver. exact HQ.
Qed.

(** [rt_list_remove] on a node of a ring. *)
Lemma wp_list_remove n z zs Q h :
  ring h n (z :: zs) -> Q tt (removed (default z (last zs)) n z h) -> wp (rt_list_remove n) Q h.
Proof.
  intros Hr HQ. pose proof (ring_remove _ _ _ _ Hr) as ([H1 H2] & [H3 H4] & _). unfold rt_list_remove.
  set (p := default z (last zs)) in *.
  assert (z ≠ n) as Hzn by (destruct Hr as [Hnd _]; apply NoDup_cons in Hnd as [Hnd _]; set_solver).
  rewrite wp_bind, wp_ld_next. exists z. split; [done|]. rewrite wp_bind, wp_ld_prev. exists p. split; [done|].
  rewrite wp_bind, wp_st_prev. split; [eauto|]. rewrite wp_bind, wp_ld_prev. exists p. simpl.
  split; [by rewrite lookup_insert_ne|]. rewrite wp_bind, wp_ld_next. exists z. split; [done|].
  rewrite wp_bind, wp_st_next. split; [eauto|]. rewrite wp_bind, wp_st_prev. simpl.
  split; [rewrite lookup_insert_ne by done; eauto|]. rewrite wp_st_next. simpl. split; [|exact HQ].
  destruct (decide (p = n)) as [->|]; [rewrite lookup_insert_eq; eauto|rewrite lookup_insert_ne by done; eauto].
Qed.

(** On a node that is in no other node's ring, [rt_list_remove] does nothing. *)
Lemma wp_list_remove_self n Q h : ring h n [] -> Q tt h -> wp (rt_list_remove n) Q h.
Proof.
  intros [_ [H1 H2]] HQ. unfold rt_list_remove.
  rewrite wp_bind, wp_ld_next. exists n. split; [done|]. rewrite wp_bind, wp_ld_prev.
  exists n. split; [done|]. rewrite wp_bind, wp_st_prev. split; [eauto|]. rewrite (insert_id _ _ _ H2).
  rewrite wp_bind, wp_ld_prev. exists n. split; [done|]. rewrite wp_bind, wp_ld_next. exists n. split; [done|].
  rewrite wp_bind, wp_st_next. split; [eauto|]. simpl. rewrite (insert_id _ _ _ H1).
  rewrite wp_bind, wp_st_prev. split; [eauto|]. simpl. rewrite (insert_id _ _ _ H2).
  rewrite wp_st_next. split; [eauto|]. simpl. rewrite (insert_id _ _ _ H1). by destruct h.
Qed.

Lemma same_outside_inserted a b n h : same_outside (fun x => x ∈ [a; b; n]) h (inserted_after a b n h).
Proof. intros x Hx. simpl. by rewrite !lookup_insert_ne by set_solver. Qed.

Lemma same_outside_removed a b n h : same_outside (fun x => x ∈ [a; b; n]) h (removed a n b h).
Proof. intros x Hx. simpl. by rewrite !lookup_insert_ne by set_solver. Qed.

Lemma ring_insert_back h l xs n :
  ring h l xs -> n ∉ l :: xs -> ring (inserted_after (default l (last xs)) l n h) l (xs ++ [n]).
Proof.
  intros Hr Hn. destruct xs as [|y xs _] using rev_ind; [by apply (ring_insert _ _ [])|].
  rewrite last_snoc. apply (ring_rotate h l xs y []) in Hr.
  rewrite <- app_assoc. simpl. apply (ring_rotate _ l xs y [n]).
  apply (ring_insert h y (l :: xs)); [exact Hr|set_solver].
Qed.

Lemma last_in l xs : default l (last xs) ∈ l :: xs.
Proof. destruct (last xs) as [x|] eqn:E; [|by left]. apply last_Some in E as [? ->]. simpl. set_solver. Qed.

(** [rt_list_len] visits every node once. *)
Lemma wp_list_len_loop fuel h l p xs len :
  links h p xs l -> l ∉ xs -> (length xs < fuel)%nat -> 0 <= len -> len + Z.of_nat (length xs) < 4294967296 ->
  wp (list_len_loop fuel l p len) (fun r h' => r = len + Z.of_nat (length xs) /\ h' = h) h.
Proof.
  revert p xs len. induction fuel as [|fuel IH]; intros p xs len Hl Hn Hf H0 Hlen; [lia|]. simpl.
  rewrite wp_bind, wp_ld_next. destruct xs as [|x xs]; simpl in *.
  - destruct Hl as [Hl _]. exists l. split; [done|]. rewrite bool_decide_eq_true_2, wp_ret by done. split; [lia|done].
  - destruct Hl as [[Hx _] Hl]. exists x. split; [done|]. rewrite bool_decide_eq_false_2 by set_solver.
    rewrite uwrap_small by lia. eapply wp_mono; [apply (IH x xs); [done|set_solver|lia..]|].
    intros r h' [-> ->]. split; [lia|done].
Qed.
End ring.

(** ** The lists of threads *)

(** The list nodes of the kernel that hold threads: the heads of the queues and the [tlist] of each thread. *)
Inductive tnode :=
| AHead (q : qid)
| ANode (t : nat).

#[export] Instance tnode_eq_dec : EqDecision tnode.
Proof. solve_decision. Defined.
#[export] Instance tnode_countable : Countable tnode.
Proof.
  refine (inj_countable' (fun a => match a with AHead q => inl q | ANode t => inr t end)
    (fun x => match x with inl q => AHead q | inr t => ANode t end) _). by intros [].
Defined.

Section queues.
(** The queues and threads that exist. *)
Context (live : qid -> Prop) (node : nat -> Prop).
Implicit Types (h : list_heap tnode) (qs : gmap qid (list nat)).

(** The memory [h] holds the queues [qs]: each is the ring behind its head, and a thread that is in no
    queue has a [tlist] linked to itself. *)
Record queues_rep h qs : Prop := {
  qr_ring : forall q, live q -> ring h (AHead q) (ANode <$> qlist qs q);
  qr_idle : forall t, node t -> (forall q, t ∉ qlist qs q) -> ring h (ANode t) [];
  qr_uniq : forall q q' t, t ∈ qlist qs q -> t ∈ qlist qs q' -> q = q';
  qr_live : forall q t, t ∈ qlist qs q -> live q /\ node t;
}.

Lemma anode_in (t : nat) (l : list nat) : ANode t ∈ (ANode <$> l) <-> t ∈ l.
Proof. rewrite list_elem_of_fmap. split; [by intros (? & [= ->] & ?)|eauto]. Qed.

Lemma ahead_in (q : qid) (l : list nat) : AHead q ∉ (ANode <$> l).
Proof. rewrite list_elem_of_fmap. by intros (? & ? & ?). Qed.

(** Queues other than [q] do not meet the nodes of [q]. *)
Lemma queues_disjoint h qs q q' a :
  queues_rep h qs -> q' ≠ q -> a ∈ AHead q :: (ANode <$> qlist qs q) -> a ∉ AHead q' :: (ANode <$> qlist qs q').
Proof.
  intros Hr Hne Ha Ha'. apply elem_of_cons in Ha as [->|Ha], Ha' as [E|Ha'].
  - congruence.
  - by apply ahead_in in Ha'.
  - subst. by apply ahead_in in Ha.
  - apply list_elem_of_fmap in Ha as (t & -> & Ht). apply anode_in in Ha'. apply Hne. by eapply (qr_uniq h qs Hr).
Qed.

(** A thread joins the queue [q], whose new list is [l']. *)
Lemma queues_rep_join h h' qs q t l' a b :
  queues_rep h qs -> live q -> node t -> (forall q, t ∉ qlist qs q) -> l' ≡ₚ t :: qlist qs q ->
  same_outside (fun x => x ∈ [a; b; ANode t]) h h' ->
  a ∈ AHead q :: (ANode <$> qlist qs q) -> b ∈ AHead q :: (ANode <$> qlist qs q) ->
  ring h' (AHead q) (ANode <$> l') -> queues_rep h' (<[q := l']> qs).
Proof.
  intros Hr Hq Ht Hno Hp Ho Ha Hb Hring. split.
  - intros q' Hq'. rewrite qlist_insert. case_decide as E; [by subst|].
    eapply ring_outside; [exact Ho| |by apply (qr_ring h qs Hr)]. intros x Hx Hin.
    rewrite !elem_of_cons, elem_of_nil in Hin.
    destruct Hin as [->|[->|[->|[]]]].
    1: exact (queues_disjoint h qs q q' _ Hr (not_eq_sym E) Ha Hx).
    1: exact (queues_disjoint h qs q q' _ Hr (not_eq_sym E) Hb Hx).
    apply elem_of_cons in Hx as [|Hx%anode_in]; [done|]. by apply (Hno q').
  - intros u Hu Hun. eapply ring_outside; [exact Ho| |apply (qr_idle h qs Hr); [done|]].
    + intros x ->%list_elem_of_singleton. specialize (Hun q). rewrite qlist_insert, decide_True, Hp in Hun by done.
      intros Hin. assert (ANode u ∈ AHead q :: (ANode <$> qlist qs q) \/ u = t) as [Hin'| ->] by set_solver; [|set_solver].
      apply elem_of_cons in Hin' as [|Hin'%anode_in]; [done|set_solver].
    + intros q'. specialize (Hun q'). rewrite qlist_insert in Hun. case_decide; [subst; rewrite Hp in Hun; set_solver|done].
  - intros q1 q2 u. rewrite !qlist_insert. assert (forall q', u ∈ qlist qs q' -> u ∈ l' -> q = q') as Hsame.
    { intros q' Hu Hul. rewrite Hp in Hul. apply elem_of_cons in Hul as [->|Hul]; [by apply Hno in Hu|by eapply (qr_uniq h qs Hr)]. }
    repeat case_decide; subst; try done; intros H1 H2; [by apply Hsame|symmetry; by apply Hsame|by eapply (qr_uniq h qs Hr)].
  - intros q' u. rewrite qlist_insert. case_decide; [subst; rewrite Hp|by apply (qr_live h qs Hr)].
    intros [->|Hu]%elem_of_cons; [done|by apply (qr_live h qs Hr)].
Qed.

Lemma queue_nodup h qs q : queues_rep h qs -> live q -> NoDup (qlist qs q).
Proof.
  intros Hr Hq. destruct (qr_ring h qs Hr q Hq) as [Hnd _]. apply NoDup_cons in Hnd as [_ Hnd].
  by apply NoDup_fmap_1 in Hnd.
Qed.

Lemma idle_node h qs t : queues_rep h qs -> node t -> (forall q, t ∉ qlist qs q) -> is_node h (ANode t).
Proof. intros Hr Ht Hno. destruct (qr_idle h qs Hr t Ht Hno) as [_ [H1 H2]]. by split; eexists. Qed.

(** The ring behind [q] around the thread [t]. *)
Lemma queue_split qs q (t : nat) : t ∈ qlist qs q -> exists l1 l2, qlist qs q = l1 ++ t :: l2.
Proof. apply list_elem_of_split. Qed.

Lemma list_del_split (t : nat) l1 l2 : NoDup (l1 ++ t :: l2) -> list_del t (l1 ++ t :: l2) = l1 ++ l2.
Proof.
  intros Hnd. apply NoDup_app in Hnd as (_ & H1 & H2). apply NoDup_cons in H2 as [H2 _].
  rewrite list_del_app, list_del_head by done. rewrite list_del_notin; [done|].
  intros Hin. apply (H1 t Hin). by left.
Qed.

(** A thread leaves its queue. *)
Lemma queues_rep_leave h h' qs q t a b :
  queues_rep h qs -> t ∈ qlist qs q -> same_outside (fun x => x ∈ [a; b; ANode t]) h h' ->
  a ∈ AHead q :: (ANode <$> qlist qs q) -> b ∈ AHead q :: (ANode <$> qlist qs q) ->
  ring h' (AHead q) (ANode <$> list_del t (qlist qs q)) -> ring h' (ANode t) [] -> queues_rep h' (q_remove t qs).
Proof.
  intros Hr Hin Ho Ha Hb Hring Hself.
  assert (ANode t ∈ AHead q :: (ANode <$> qlist qs q)) as Hat by (right; by apply anode_in).
  split.
  - intros q' Hq'. rewrite qlist_remove. destruct (decide (q' = q)) as [->|E]; [done|].
    rewrite list_del_notin by (intros Hin'; apply E; by eapply (qr_uniq h qs Hr)).
    eapply ring_outside; [exact Ho| |by apply (qr_ring h qs Hr)]. intros x Hx Hx'.
    rewrite !elem_of_cons, elem_of_nil in Hx'. destruct Hx' as [->|[->|[->|[]]]].
    + exact (queues_disjoint h qs q q' _ Hr E Ha Hx).
    + exact (queues_disjoint h qs q q' _ Hr E Hb Hx).
    + exact (queues_disjoint h qs q q' _ Hr E Hat Hx).
  - intros u Hu Hun. destruct (decide (u = t)) as [->|Hne]; [done|].
    assert (forall q', u ∉ qlist qs q') as Huno.
    { intros q' Hin'. apply (Hun q'). rewrite qlist_remove. by apply elem_of_list_del. }
    eapply ring_outside; [exact Ho| |by apply (qr_idle h qs Hr)]. intros x ->%list_elem_of_singleton Hx.
    rewrite !elem_of_cons, elem_of_nil in Hx. destruct Hx as [<-|[<-|[[= ->]|[]]]]; [| |done].
    + apply elem_of_cons in Ha as [|Ha%anode_in]; [done|]. by apply Huno in Ha.
    + apply elem_of_cons in Hb as [|Hb%anode_in]; [done|]. by apply Huno in Hb.
  - intros q1 q2 u. rewrite !qlist_remove, !elem_of_list_del. intros [_ H1] [_ H2]. by eapply (qr_uniq h qs Hr).
  - intros q' u. rewrite qlist_remove, elem_of_list_del. intros [_ Hu]. by apply (qr_live h qs Hr).
Qed.

(** [rt_list_insert_before(&queue, &thread->tlist)], on a thread that is in no queue, appends the
    thread to the queue: the pointer updates turn a memory that holds the queues [qs] into one that holds
    [q_push_back q t qs], and no other queue is disturbed. *)
Theorem rt_list_insert_before_refines h qs q t :
  queues_rep h qs -> live q -> node t -> (forall q', t ∉ qlist qs q') ->
  wp (rt_list_insert_before (AHead q) (ANode t)) (fun _ h' => queues_rep h' (q_push_back q t qs)) h.
Proof.
  intros Hr Hq Ht Hno. pose proof (qr_ring h qs Hr q Hq) as Hring.
  assert (ANode t ∉ AHead q :: (ANode <$> qlist qs q)) as Hnt
    by (intros [|Hin%anode_in]%elem_of_cons; [done|by apply Hno in Hin]).
  eapply wp_list_insert_before; [done|by eapply idle_node|done|].
  eapply queues_rep_join; [done..| |apply same_outside_inserted|apply last_in|by left|].
  - symmetry. apply Permutation_cons_append.
  - rewrite fmap_app. by apply ring_insert_back.
Qed.

(** [rt_list_insert_after(&queue, &thread->tlist)] makes such a thread the first of the queue. *)
Theorem rt_list_insert_after_refines h qs q t :
  queues_rep h qs -> live q -> node t -> (forall q', t ∉ qlist qs q') ->
  wp (rt_list_insert_after (AHead q) (ANode t)) (fun _ h' => queues_rep h' (q_push_front q t qs)) h.
Proof.
  intros Hr Hq Ht Hno. pose proof (qr_ring h qs Hr q Hq) as Hring.
  assert (ANode t ∉ AHead q :: (ANode <$> qlist qs q)) as Hnt
    by (intros [|Hin%anode_in]%elem_of_cons; [done|by apply Hno in Hin]).
  eapply wp_list_insert_after; [done|by eapply idle_node|done|].
  eapply (queues_rep_join h _ qs q t); [done..|apply same_outside_inserted|by left| |by apply ring_insert].
  destruct (ANode <$> qlist qs q); [by left|right; by left].
Qed.

(** C28: [rt_list_remove(&thread->tlist)] takes the thread out of the queue it is in and leaves its node
    linked to itself, and does nothing to a thread that is in no queue: so a second removal, which the code
    relies on, is harmless. *)
Theorem rt_list_remove_refines h qs t :
  queues_rep h qs -> node t ->
  (forall q, t ∈ qlist qs q -> wp (rt_list_remove (ANode t)) (fun _ h' => queues_rep h' (q_remove t qs)) h) /\
  ((forall q, t ∉ qlist qs q) -> wp (rt_list_remove (ANode t)) (fun _ h' => h' = h) h).
Proof.
  intros Hr Ht. split; [|intros Hno; by eapply wp_list_remove_self; [by apply (qr_idle h qs Hr)|]].
  intros q Hin. destruct (qr_live h qs Hr q t Hin) as [Hq _]. pose proof (qr_ring h qs Hr q Hq) as Hring.
  pose proof (queue_nodup h qs q Hr Hq) as Hnd. pose proof (queue_split qs q t Hin) as (l1 & l2 & El).
  rewrite El, fmap_app, fmap_cons in Hring. apply ring_rotate in Hring.
  assert (exists z zs, (ANode <$> l2) ++ AHead q :: (ANode <$> l1) = z :: zs /\
    forall h', ring h' z zs -> ring h' (AHead q) ((ANode <$> l1) ++ (ANode <$> l2))) as (z & zs & Ez & Hback).
  { destruct l2 as [|u l2]; simpl; eexists _, _; (split; [reflexivity|]); intros h'.
    - by rewrite app_nil_r.
    - intros Hz. by apply ring_rotate in Hz. }
  rewrite Ez in Hring. eapply wp_list_remove; [exact Hring|].
  destruct (ring_remove _ _ _ _ Hring) as (_ & _ & H1 & H2).
  assert (forall x, x ∈ z :: zs -> x ∈ AHead q :: (ANode <$> qlist qs q)) as Hsub
    by (intros x; rewrite <- Ez, El, fmap_app, fmap_cons; set_solver).
  eapply queues_rep_leave; [done|exact Hin|apply same_outside_removed|apply Hsub, last_in|apply Hsub; by left| |exact H2].
  rewrite El in Hnd |- *. rewrite list_del_split, fmap_app by done. by apply Hback.
Qed.

(** [rt_list_len] ends after one step per thread and counts the threads of a queue, and
    [rt_list_isempty] is the test for the empty list. *)
Theorem rt_list_len_spec fuel h qs q :
  queues_rep h qs -> live q -> (length (qlist qs q) < fuel)%nat -> Z.of_nat (length (qlist qs q)) < 4294967296 ->
  wp (rt_list_len fuel (AHead q)) (fun r h' => r = Z.of_nat (length (qlist qs q)) /\ h' = h) h /\
  wp (rt_list_isempty (AHead q)) (fun b h' => b = bool_decide (qlist qs q = []) /\ h' = h) h.
Proof.
  intros Hr Hq Hf Hl. pose proof (qr_ring h qs Hr q Hq) as [Hnd Hlk]. split.
  - unfold rt_list_len. eapply wp_mono; [apply (wp_list_len_loop fuel h _ _ (ANode <$> qlist qs q)); try done|].
    + apply ahead_in.
    + by rewrite length_fmap.
    + by rewrite length_fmap.
    + intros r h' [-> ->]. by rewrite length_fmap.
  - unfold rt_list_isempty. rewrite wp_bind, wp_ld_next. destruct (qlist qs q) as [|t l]; simpl in Hlk.
    + exists (AHead q). split; [apply Hlk|]. by rewrite wp_ret, !bool_decide_eq_true_2.
    + exists (ANode t). split; [apply Hlk|]. by rewrite wp_ret, !bool_decide_eq_false_2.
Qed.
End queues.

(** ** Examples *)

(** The queue of the priority 5 holds the threads 1 and 2, that of 7 none; 3 is in no queue. *)
Definition demo_live (q : qid) : Prop := q = QReady 5 \/ q = QReady 7.
Definition demo_node (t : nat) : Prop := t = 1%nat \/ t = 2%nat \/ t = 3%nat.
Definition demo_qs : gmap qid (list nat) := {[ QReady 5 := [1; 2]%nat ]}.
Definition demo_heap : list_heap tnode :=
  mkHeap (list_to_map [(AHead (QReady 5), ANode 1); (ANode 1, ANode 2); (ANode 2, AHead (QReady 5));
                       (AHead (QReady 7), AHead (QReady 7)); (ANode 3, ANode 3)])
         (list_to_map [(AHead (QReady 5), ANode 2); (ANode 1, AHead (QReady 5)); (ANode 2, ANode 1);
                       (AHead (QReady 7), AHead (QReady 7)); (ANode 3, ANode 3)]).

Lemma demo_qs_spec q t : t ∈ qlist demo_qs q -> q = QReady 5 /\ (t = 1%nat \/ t = 2%nat).
Proof.
  unfold qlist, demo_qs. destruct (decide (q = QReady 5)) as [->|Hne].
  - simplify_map_eq. set_solver.
  - simplify_map_eq. set_solver.
Qed.

Lemma demo_rep : queues_rep demo_live demo_node demo_heap demo_qs.
Proof.
  split.
  - intros q [->| ->]; (split; [by apply (bool_decide_unpack _); vm_compute|]); vm_compute; auto.
  - intros t [->|[->| ->]] Hno.
    + exfalso. apply (Hno (QReady 5)). vm_compute. by left.
    + exfalso. apply (Hno (QReady 5)). vm_compute. right. by left.
    + apply ring_self; reflexivity.
  - intros q q' t [-> _]%demo_qs_spec [-> _]%demo_qs_spec. done.
  - intros q t [-> H]%demo_qs_spec. unfold demo_live, demo_node. naive_solver.
Qed.

Lemma demo_idle q : 3%nat ∉ qlist demo_qs q.
Proof. by intros [_ [|]]%demo_qs_spec. Qed.

Lemma rt_list_insert_before_refines_witness :
  wp (rt_list_insert_before (AHead (QReady 5)) (ANode 3))
    (fun _ h' => queues_rep demo_live demo_node h' (q_push_back (QReady 5) 3 demo_qs)) demo_heap.
Proof.
  apply rt_list_insert_before_refines; [apply demo_rep|by left|by right; right|apply demo_idle].
Defined.

Lemma rt_list_insert_after_refines_witness :
  wp (rt_list_insert_after (AHead (QReady 7)) (ANode 3))
    (fun _ h' => queues_rep demo_live demo_node h' (q_push_front (QReady 7) 3 demo_qs)) demo_heap.
Proof.
  apply rt_list_insert_after_refines; [apply demo_rep|by right|by right; right|apply demo_idle].
Defined.

Lemma rt_list_remove_refines_witness :
  wp (rt_list_remove (ANode 1)) (fun _ h' => queues_rep demo_live demo_node h' (q_remove 1 demo_qs)) demo_heap /\
  wp (rt_list_remove (ANode 3)) (fun _ h' => h' = demo_heap) demo_heap.
Proof.
  split.
  - eapply (rt_list_remove_refines demo_live demo_node); [apply demo_rep|by left|].
    apply (bool_decide_unpack (1%nat ∈ qlist demo_qs (QReady 5))). vm_compute. exact I.
  - apply (rt_list_remove_refines demo_live demo_node demo_heap demo_qs); [apply demo_rep|by right; right|apply demo_idle].
Defined.

Lemma rt_list_len_spec_witness :
  wp (rt_list_len 3 (AHead (QReady 5))) (fun r h' => r = 2 /\ h' = demo_heap) demo_heap /\
  wp (rt_list_isempty (AHead (QReady 5))) (fun b h' => b = false /\ h' = demo_heap) demo_heap.
Proof. apply (rt_list_len_spec demo_live demo_node 3 demo_heap demo_qs (QReady 5)); [apply demo_rep|by left|vm_compute; lia|vm_compute; done]. Defined.
