(* ===== verification/KService.v ===== *)
(** The bit-search service of src/kservice.c: [__rt_ffs] with its table of lowest bits, which the
    scheduler uses to find the highest ready priority. *)

From S2P Require Import Prelude RtDef.

(** [__lowest_bit_bitmap]. *)
Definition __lowest_bit_bitmap : list Z :=
  [ (* 00 *) 0; 0; 1; 0; 2; 0; 1; 0; 3; 0; 1; 0; 2; 0; 1; 0;
    (* 10 *) 4; 0; 1; 0; 2; 0; 1; 0; 3; 0; 1; 0; 2; 0; 1; 0;
    (* 20 *) 5; 0; 1; 0; 2; 0; 1; 0; 3; 0; 1; 0; 2; 0; 1; 0;
    (* 30 *) 4; 0; 1; 0; 2; 0; 1; 0; 3; 0; 1; 0; 2; 0; 1; 0;
    (* 40 *) 6; 0; 1; 0; 2; 0; 1; 0; 3; 0; 1; 0; 2; 0; 1; 0;
    (* 50 *) 4; 0; 1; 0; 2; 0; 1; 0; 3; 0; 1; 0; 2; 0; 1; 0;
    (* 60 *) 5; 0; 1; 0; 2; 0; 1; 0; 3; 0; 1; 0; 2; 0; 1; 0;
    (* 70 *) 4; 0; 1; 0; 2; 0; 1; 0; 3; 0; 1; 0; 2; 0; 1; 0;
    (* 80 *) 7; 0; 1; 0; 2; 0; 1; 0; 3; 0; 1; 0; 2; 0; 1; 0;
    (* 90 *) 4; 0; 1; 0; 2; 0; 1; 0; 3; 0; 1; 0; 2; 0; 1; 0;
    (* A0 *) 5; 0; 1; 0; 2; 0; 1; 0; 3; 0; 1; 0; 2; 0; 1; 0;
    (* B0 *) 4; 0; 1; 0; 2; 0; 1; 0; 3; 0; 1; 0; 2; 0; 1; 0;
    (* C0 *) 6; 0; 1; 0; 2; 0; 1; 0; 3; 0; 1; 0; 2; 0; 1; 0;
    (* D0 *) 4; 0; 1; 0; 2; 0; 1; 0; 3; 0; 1; 0; 2; 0; 1; 0;
    (* E0 *) 5; 0; 1; 0; 2; 0; 1; 0; 3; 0; 1; 0; 2; 0; 1; 0;
    (* F0 *) 4; 0; 1; 0; 2; 0; 1; 0; 3; 0; 1; 0; 2; 0; 1; 0 ].

Definition lowest_bit (b : Z) : Z := nth (Z.to_nat b) __lowest_bit_bitmap 0.

(** [__rt_ffs], on the 32-bit pattern of its argument. *)
Definition __rt_ffs (value : Z) : Z :=
  if value =? 0 then 0 else
  if negb (value .& 255 =? 0) then lowest_bit (value .& 255) + 1 else
  if negb (value .& 65280 =? 0) then lowest_bit (Z.shiftr (value .& 65280) 8) + 9 else
  if negb (value .& 16711680 =? 0) then lowest_bit (Z.shiftr (value .& 16711680) 16) + 17 else
  lowest_bit (Z.shiftr (value .& 4278190080) 24) + 25.

(** [p] is the index of the lowest bit of [v]. *)
Definition is_lowest_bit (v p : Z) : Prop :=
  0 <= p /\ Z.testbit v p = true /\ forall i, 0 <= i < p -> Z.testbit v i = false.

Lemma is_lowest_bit_unique v p q : is_lowest_bit v p -> is_lowest_bit v q -> p = q.
Proof.
  intros (? & Hp & Lp) (? & Hq & Lq).
  destruct (Z.lt_trichotomy p q) as [Hl|[?|Hl]]; [|done|].
  - rewrite Lq in Hp by lia. done.
  - rewrite Lp in Hq by lia. done.
Qed.

(** Byte [k] of a word. *)
Definition byte_of (k v : Z) : Z := Z.shiftr v (8 * k) .& 255.

Lemma byte_of_bound k v : 0 <= byte_of k v < 256.
Proof. unfold byte_of. change 255 with (Z.ones 8). rewrite Z.land_ones by lia. by apply Z.mod_pos_bound. Qed.

Lemma byte_of_testbit k v i :
  0 <= k -> 0 <= i < 8 -> Z.testbit (byte_of k v) i = Z.testbit v (i + 8 * k).
Proof.
  intros. unfold byte_of. change 255 with (Z.ones 8).
  rewrite Z.land_spec, Z.shiftr_spec, Z.ones_spec_low by lia. by rewrite andb_true_r.
Qed.

(** The table, checked entry by entry. *)
Definition lowest_bit_ok (b : Z) : bool :=
  let p := lowest_bit b in
  (0 <=? p) && (p <? 8) && Z.testbit b p &&
  forallb (fun i => negb (Z.testbit b (Z.of_nat i))) (List.seq 0 (Z.to_nat p)).

Lemma lowest_bit_table : forallb (fun n => lowest_bit_ok (Z.of_nat n)) (List.seq 1 255) = true.
Proof. vm_compute. reflexivity. Qed.

Lemma lowest_bit_spec b : 0 < b < 256 -> is_lowest_bit b (lowest_bit b) /\ lowest_bit b < 8.
Proof.
  intros Hb. pose proof lowest_bit_table as T. rewrite forallb_forall in T.
  specialize (T (Z.to_nat b)). rewrite in_seq, Z2Nat.id in T by lia.
  specialize (T ltac:(lia)). unfold lowest_bit_ok in T.
  repeat rewrite andb_true_iff in T. destruct T as [[[T1 T2] T3] T4].
  rewrite forallb_forall in T4.
  split; [|lia]. split_and!; [lia|done|]. intros i Hi.
  specialize (T4 (Z.to_nat i)). rewrite in_seq, Z2Nat.id in T4 by lia.
  specialize (T4 ltac:(lia)). by apply negb_true_iff.
Qed.

Lemma byte_of_zero_bits k v :
  0 <= k -> byte_of k v = 0 -> forall i, 8 * k <= i < 8 * k + 8 -> Z.testbit v i = false.
Proof.
  intros Hk H0 i Hi. replace i with (i - 8 * k + 8 * k) by lia.
  rewrite <- byte_of_testbit, H0 by lia. apply Z.bits_0.
Qed.

Lemma lowest_bit_byte k v :
  0 <= k -> byte_of k v <> 0 -> (forall i, 0 <= i < 8 * k -> Z.testbit v i = false) ->
  is_lowest_bit v (lowest_bit (byte_of k v) + 8 * k) /\ lowest_bit (byte_of k v) + 8 * k < 8 * k + 8.
Proof.
  intros Hk Hb Hlow. pose proof (byte_of_bound k v).
  destruct (lowest_bit_spec (byte_of k v)) as [(H1 & H2 & H3) H4]; [lia|].
  split; [|lia]. split_and!; [lia| |].
  - by rewrite <- byte_of_testbit by lia.
  - intros i Hi. destruct (Z_lt_le_dec i (8 * k)); [apply Hlow; lia|].
    replace i with (i - 8 * k + 8 * k) by lia. rewrite <- byte_of_testbit by lia. apply H3. lia.
Qed.

Lemma mask_byte k v m :
  0 <= k -> Z.shiftr m (8 * k) = 255 -> Z.shiftr (v .& m) (8 * k) = byte_of k v.
Proof. intros ? Hm. by rewrite Z.shiftr_land, Hm. Qed.

Lemma mask_byte_zero k v m : 0 <= k -> m = Z.shiftl 255 (8 * k) -> v .& m = 0 <-> byte_of k v = 0.
Proof.
  intros Hk ->. assert (Z.shiftr (Z.shiftl 255 (8 * k)) (8 * k) = 255) as E.
  { rewrite Z.shiftr_shiftl_l by lia. by rewrite Z.sub_diag. }
  split; intros H0.
  - rewrite <- (mask_byte k v _ Hk E), H0. apply Z.shiftr_0_l.
  - assert (v .& Z.shiftl 255 (8 * k) = Z.shiftl (byte_of k v) (8 * k)) as ->.
    2: { rewrite H0. apply Z.shiftl_0_l. }
    apply Z.bits_inj'. intros n Hn. rewrite Z.land_spec, Z.shiftl_spec, Z.shiftl_spec by lia.
    destruct (Z_lt_le_dec n (8 * k)); [rewrite (Z.testbit_neg_r 255), (Z.testbit_neg_r (byte_of k v)) by lia; apply andb_false_r|].
    unfold byte_of. rewrite Z.land_spec, Z.shiftr_spec by lia. do 2 f_equal. lia.
Qed.

(** [__rt_ffs] is the index of the lowest bit, counted from 1. *)
Lemma __rt_ffs_spec v :
  0 < v < 2 ^ 32 -> is_lowest_bit v (__rt_ffs v - 1) /\ __rt_ffs v - 1 < 32.
Proof.
  intros Hv. unfold __rt_ffs.
  destruct (Z.eqb_spec v 0); [lia|].
  change (Z.shiftr (v .& 65280) 8) with (Z.shiftr (v .& 65280) (8 * 1)).
  change (Z.shiftr (v .& 16711680) 16) with (Z.shiftr (v .& 16711680) (8 * 2)).
  change (Z.shiftr (v .& 4278190080) 24) with (Z.shiftr (v .& 4278190080) (8 * 3)).
  rewrite !mask_byte by (reflexivity || lia).
  replace (v .& 255) with (byte_of 0 v) by (unfold byte_of; by rewrite Z.mul_0_r, Z.shiftr_0_r).
  destruct (Z.eqb_spec (byte_of 0 v) 0) as [B0|B0]; simpl.
  2: { destruct (lowest_bit_byte 0 v) as [??]; [lia|done|lia|].
       replace (_ + 1 - 1) with (lowest_bit (byte_of 0 v) + 8 * 0) by lia. split; [done|lia]. }
  pose proof (byte_of_zero_bits 0 v ltac:(lia) B0) as L0.
  destruct (Z.eqb_spec (v .& 65280) 0) as [B1|B1]; simpl;
    rewrite (mask_byte_zero 1) in B1 by (reflexivity || lia).
  2: { destruct (lowest_bit_byte 1 v) as [??]; [lia|done|intros; apply L0; lia|].
       replace (_ + 9 - 1) with (lowest_bit (byte_of 1 v) + 8 * 1) by lia. split; [done|lia]. }
  pose proof (byte_of_zero_bits 1 v ltac:(lia) B1) as L1.
  destruct (Z.eqb_spec (v .& 16711680) 0) as [B2|B2]; simpl;
    rewrite (mask_byte_zero 2) in B2 by (reflexivity || lia).
  2: { destruct (lowest_bit_byte 2 v) as [??]; [lia|done| |].
       { intros. destruct (Z_lt_le_dec i 8); [apply L0|apply L1]; lia. }
       replace (_ + 17 - 1) with (lowest_bit (byte_of 2 v) + 8 * 2) by lia. split; [done|lia]. }
  pose proof (byte_of_zero_bits 2 v ltac:(lia) B2) as L2.
  assert (forall i, 0 <= i < 8 * 3 -> Z.testbit v i = false) as L.
  { intros. destruct (Z_lt_le_dec i 8); [apply L0; lia|].
    destruct (Z_lt_le_dec i 16); [apply L1|apply L2]; lia. }
  destruct (lowest_bit_byte 3 v) as [??]; [lia| |done|].
  - intros B3. pose proof (byte_of_zero_bits 3 v ltac:(lia) B3) as L3.
    enough (v = 0) by lia. apply Z.bits_inj'. intros i Hi. rewrite Z.bits_0.
    destruct (Z_lt_le_dec i 24); [apply L; lia|].
    destruct (Z_lt_le_dec i 32); [apply L3; lia|].
    apply Z.bits_above_log2; [lia|]. apply Z.log2_lt_pow2; [lia|].
    apply Z.lt_le_trans with (2 ^ 32); [lia|]. apply Z.pow_le_mono_r; lia.
  - replace (_ + 25 - 1) with (lowest_bit (byte_of 3 v) + 8 * 3) by lia. split; [done|lia].
Qed.

(** The masks see only the low 32 bits of the argument. *)
Lemma __rt_ffs_u32 v : u32 v <> 0 -> __rt_ffs v = __rt_ffs (u32 v).
Proof.
  intros Hu. unfold __rt_ffs. rewrite (proj2 (Z.eqb_neq _ 0) Hu).
  destruct (Z.eqb_spec v 0) as [->|_]; [by rewrite uwrap_small in Hu|].
  rewrite !uwrap_land, <- !Z.land_assoc by lia.
  change (Z.ones 32 .& 255) with 255. change (Z.ones 32 .& 65280) with 65280.
  change (Z.ones 32 .& 16711680) with 16711680. by change (Z.ones 32 .& 4278190080) with 4278190080.
Qed.

(** [__rt_ffs] on the whole range of its argument, signed or unsigned: 0 for 0, and otherwise one more
    than the index of the lowest bit that is set, which is at most 32. *)
Theorem rt_ffs_lowest_bit v :
  - 2147483648 <= v < 4294967296 ->
  (v = 0 -> __rt_ffs v = 0) /\ (v <> 0 -> is_lowest_bit v (__rt_ffs v - 1) /\ 1 <= __rt_ffs v <= 32).
Proof.
  intros Hv. split; [by intros ->|]. intros Hne.
  assert (0 < u32 v < 2 ^ 32) as Hu.
  { pose proof (uwrap_bound 32 v ltac:(lia)). split; [|lia].
    destruct (Z.eq_dec (u32 v) 0) as [E|]; [|lia]. unfold uwrap in E. change (2 ^ 32) with 4294967296 in *.
    apply Z.mod_divide in E as [k Hk]; [|lia]. nia. }
  rewrite __rt_ffs_u32 by lia. destruct (__rt_ffs_spec (u32 v) Hu) as [(H0 & H1 & H2) H3].
  assert (forall i, 0 <= i < 32 -> Z.testbit (u32 v) i = Z.testbit v i) as Eb.
  { intros i Hi. by rewrite uwrap_land, Z.land_spec, Z.ones_spec_low, andb_true_r by lia. }
  split; [|lia]. split_and!; [done|by rewrite <- Eb by lia|]. intros i Hi. rewrite <- Eb by lia. by apply H2.
Qed.

Lemma rt_ffs_lowest_bit_witness :
  is_lowest_bit (-65536) (__rt_ffs (-65536) - 1) /\ 1 <= __rt_ffs (-65536) <= 32.
Proof. apply (rt_ffs_lowest_bit (-65536)); lia. Defined.
