(* ===== verification/Object.v ===== *)
(** Kernel object management (src/object.c) and the context checks of include/rtdebug.h. *)

From S2P Require Import Prelude RtDef.

(** ** Context checks *)

(** [RT_DEBUG_NOT_IN_INTERRUPT]. *)
Definition RT_DEBUG_NOT_IN_INTERRUPT : M unit :=
  n ← gets rt_interrupt_nest; RT_ASSERT (n =? 0).

(** [RT_DEBUG_IN_THREAD_CONTEXT]. *)
Definition RT_DEBUG_IN_THREAD_CONTEXT : M unit :=
  c ← gets rt_current_thread; RT_ASSERT (bool_decide (c ≠ None));; RT_DEBUG_NOT_IN_INTERRUPT.

(** [rt_thread_self] of src/thread.c; [RT_NULL] before the scheduler is started. *)
Definition rt_thread_self : M (option nat) := gets rt_current_thread.
(** [rt_thread_self()] where the result is used as a thread. *)
Definition self : M nat := getso rt_current_thread.

(** ** The object container *)

(** [rt_object_get_information], with [RT_ASSERT(information != RT_NULL)] of its callers: the
    list of the objects of a class. *)
Definition rt_object_get_information (type : Z) : M (list obj_id) :=
  getso (fun s => rt_object_container s !! type).

(** [rt_strncpy(object->name, name, RT_NAME_MAX)] *)
Definition object_name (name : string) : string := String.substring 0 RT_NAME_MAX name.

(** [object->flag] of memory that holds an object or is fresh (zero). *)
Definition old_flag (o : obj_id) (s : kernel) : Z :=
  match objects s !! o with Some x => obj_flag x | None => 0 end.

Definition object_link (o : obj_id) (type : Z) (l : list obj_id) : M unit :=
  modify (fun s => set_rt_object_container (<[type := o :: l]> (rt_object_container s)) s).

(** [rt_list_remove(&(object->list))]. *)
Definition object_unlink (o : obj_id) : M unit :=
  modify (fun s => set_rt_object_container (list_del o <$> rt_object_container s) s).

Definition rt_object_init (o : obj_id) (type : Z) (name : string) : M unit :=
  l ← rt_object_get_information type;
  modify (fun s =>
    set_objects (<[o := mkObject (object_name name) (type .| RT_Object_Class_Static) (old_flag o s)]>
                   (objects s)) s);;
  object_link o type l.

Definition rt_object_detach (o : obj_id) : M unit :=
  upd_object o (set_obj_type 0);;
  object_unlink o.

Definition rt_object_is_systemobject (o : obj_id) : M bool :=
  x ← get_object o; mret (negb (obj_type x .& RT_Object_Class_Static =? 0)).

Definition rt_object_get_type (o : obj_id) : M Z :=
  x ← get_object o; mret (obj_type x .&~ RT_Object_Class_Static).

(** [RT_ASSERT(rt_object_get_type(o) == type)]. *)
Definition assert_type (o : obj_id) (type : Z) : M unit :=
  ty ← rt_object_get_type o; RT_ASSERT (ty =? type).

Lemma wp_assert_type o type Q s :
  wp (assert_type o type) Q s <->
  exists x, objects s !! o = Some x /\ obj_type x .&~ RT_Object_Class_Static = type /\ Q tt s.
Proof.
  unfold assert_type, rt_object_get_type. wp_norm. split.
  - intros (x & Hx & Hq). autorewrite with wp in Hq. destruct Hq as [Ht Hq].
    exists x. split_and!; [done|lia|done].
  - intros (x & Hx & Ht & Hq). exists x. split; [done|]. wp_norm. split; [lia|done].
Qed.

Lemma wp_not_in_interrupt Q s :
  wp RT_DEBUG_NOT_IN_INTERRUPT Q s <-> rt_interrupt_nest s = 0 /\ Q tt s.
Proof. unfold RT_DEBUG_NOT_IN_INTERRUPT. wp_norm. by rewrite Z.eqb_eq. Qed.

Lemma wp_in_thread_context Q s :
  wp RT_DEBUG_IN_THREAD_CONTEXT Q s <->
  rt_current_thread s ≠ None /\ rt_interrupt_nest s = 0 /\ Q tt s.
Proof.
  unfold RT_DEBUG_IN_THREAD_CONTEXT. wp_norm.
  by rewrite bool_decide_eq_true, wp_not_in_interrupt.
Qed.

Lemma wp_self Q s : wp self Q s <-> exists t, rt_current_thread s = Some t /\ Q t s.
Proof. exact (wp_getso _ _ _). Qed.

Lemma wp_thread_self Q s : wp rt_thread_self Q s <-> Q (rt_current_thread s) s.
Proof. done. Qed.

Lemma wp_object_unlink o Q s :
  wp (object_unlink o) Q s <->
  Q tt (set_rt_object_container (list_del o <$> rt_object_container s) s).
Proof. done. Qed.

#[global] Hint Rewrite wp_assert_type wp_not_in_interrupt wp_in_thread_context wp_self
  wp_thread_self wp_object_unlink : wp.
