(* ===== verification/Scheduler.v ===== *)
(** The priority scheduler (src/scheduler.c, single CPU).

    [rt_thread_priority_table] is the family of lists [QReady p] of [queues], with the bitmap
    [rt_thread_ready_priority_group] beside it. *)

From S2P Require Import Prelude RtDef KService Object.

(** ** The operations *)

(** [_rt_scheduler_stack_check]: on an overflow it stops with the interrupts disabled
    ([while (level)], [level] being the non-zero mask of a caller that has disabled them already). *)
Definition _rt_scheduler_stack_check (t : nat) : M unit :=
  th ← get_thread t;
  if negb (th_stack_guard th =? 35)
     || (th_sp th <=? th_stack_addr th)
     || (th_sp th >? u32 (th_stack_addr th + th_stack_size th))
  then rt_panic else mret tt.

(** [rt_system_scheduler_init]. *)
Definition rt_system_scheduler_init : M unit :=
  modify (set_rt_scheduler_lock_nest 0);;
  modify (fun s => set_queues
    (foldr (fun p qs => <[QReady p := []]> qs) (queues s) (seqZ 0 RT_THREAD_PRIORITY_MAX)) s);;
  modify (set_rt_thread_ready_priority_group 0);;
  modify (fun s => set_queues (<[QDefunct := []]> (queues s)) s).

Definition _get_highest_priority_thread : M (nat * Z) :=
  g ← gets rt_thread_ready_priority_group;
  let highest_ready_priority := __rt_ffs g - 1 in
  t ← tlist_first (QReady highest_ready_priority);
  mret (t, highest_ready_priority).

Definition stat_set (st : Z) (th : thread) : thread :=
  set_th_stat (st .| (th_stat th .&~ RT_THREAD_STAT_MASK)) th.

Definition rt_schedule_insert_thread (t : nat) : M unit :=
  th ← get_thread t;
  cur ← gets rt_current_thread;
  if bool_decide (cur = Some t) then
    (* it's current thread, it should be RUNNING thread *)
    put_thread t (stat_set RT_THREAD_RUNNING th)
  else
    put_thread t (stat_set RT_THREAD_READY th);;
    tlist_insert_before (QReady (th_current_priority th)) t;;
    modify (fun s => set_rt_thread_ready_priority_group
                       (rt_thread_ready_priority_group s .| th_number_mask th) s).

Definition rt_schedule_remove_thread (t : nat) : M unit :=
  th ← get_thread t;
  tlist_remove t;;
  e ← tlist_isempty (QReady (th_current_priority th));
  when e (modify (fun s => set_rt_thread_ready_priority_group
                             (rt_thread_ready_priority_group s .&~ th_number_mask th) s)).

(** [rt_system_scheduler_start], up to [rt_hw_context_switch_to]. *)
Definition rt_system_scheduler_start : M unit :=
  '(to_thread, _) ← _get_highest_priority_thread;
  modify (set_rt_current_thread (Some to_thread));;
  rt_schedule_remove_thread to_thread;;
  upd_thread to_thread (set_th_stat RT_THREAD_RUNNING).

(** [rt_schedule]; the context switch resumes the code of the new [rt_current_thread] (at once, or
    when the outermost interrupt returns). *)
Definition rt_schedule : M unit :=
  nest ← gets rt_scheduler_lock_nest;
  if nest =? 0 then
    g ← gets rt_thread_ready_priority_group;
    if negb (g =? 0) then
      '(highest, highest_ready_priority) ← _get_highest_priority_thread;
      cur ← self;
      cth ← get_thread cur;
      let running := th_stat cth .& RT_THREAD_STAT_MASK =? RT_THREAD_RUNNING in
      let stay := running && (th_current_priority cth <? highest_ready_priority) in
      let need_insert_from_thread := running && negb stay in
      let to_thread := if stay then cur else highest in
      if negb (to_thread =? cur)%nat then
        modify (set_rt_current_priority (u8 highest_ready_priority));;
        modify (set_rt_current_thread (Some to_thread));;
        when need_insert_from_thread (rt_schedule_insert_thread cur);;
        rt_schedule_remove_thread to_thread;;
        upd_thread to_thread (stat_set RT_THREAD_RUNNING);;
        _rt_scheduler_stack_check to_thread
      else
        rt_schedule_remove_thread cur;;
        upd_thread cur (stat_set RT_THREAD_RUNNING)
    else mret tt
  else mret tt.

Definition rt_enter_critical : M unit :=
  modify (fun s => set_rt_scheduler_lock_nest (s16 (rt_scheduler_lock_nest s + 1)) s).

Definition rt_exit_critical : M unit :=
  modify (fun s => set_rt_scheduler_lock_nest (s16 (rt_scheduler_lock_nest s - 1)) s);;
  nest ← gets rt_scheduler_lock_nest;
  if nest <=? 0 then
    modify (set_rt_scheduler_lock_nest 0);;
    rt_schedule
  else mret tt.

Definition rt_critical_level : M Z := gets rt_scheduler_lock_nest.

(** The priority bit of a thread ([number_mask] once it has been started). *)
Definition prio_mask (prio : Z) : Z := u32 (Z.shiftl 1 prio).

(** ** The invariant of the ready queues *)

(** A thread linked behind [q] is in the state that belongs there. *)
Definition loc_ok (th : thread) (q : qid) : Prop :=
  match q with
  | QReady p => th_stat th = RT_THREAD_READY /\ th_current_priority th = p
  | QDefunct => th_stat th = RT_THREAD_CLOSE
  | QSuspend _ | QSender _ | QDriver _ => th_stat th = RT_THREAD_SUSPEND
  end.

Definition prio_ok (p : Z) : Prop := 0 <= p < RT_THREAD_PRIORITY_MAX.

Definition stack_ok (th : thread) : Prop :=
  th_stack_guard th = 35 /\
  th_stack_addr th < th_sp th <= u32 (th_stack_addr th + th_stack_size th).

Record thread_ok (th : thread) : Prop := {
  to_stat : RT_THREAD_INIT <= th_stat th <= RT_THREAD_CLOSE;
  to_prio : prio_ok (th_current_priority th) /\ prio_ok (th_init_priority th);
  (* [number_mask] is set when the thread is started *)
  to_mask : th_number_mask th = prio_mask (th_current_priority th) \/
            th_number_mask th = 0 /\ (th_stat th = RT_THREAD_INIT \/ th_stat th = RT_THREAD_CLOSE);
  to_stack : th_stat th ≠ RT_THREAD_CLOSE -> stack_ok th;
}.

(** [X] is the thread being moved, if any: it is in no ring and its state is not looked at. *)
Record queue_ok (X : option nat) (ths : gmap nat thread) (qs : gmap qid (list nat)) (g : Z) : Prop := {
  qo_nodup : forall q, NoDup (qlist qs q);
  qo_uniq : forall q1 q2 t, t ∈ qlist qs q1 -> t ∈ qlist qs q2 -> q1 = q2;
  qo_loc : forall q t, t ∈ qlist qs q -> Some t ≠ X /\ exists th, ths !! t = Some th /\ loc_ok th q;
  qo_ready : forall t th, Some t ≠ X -> ths !! t = Some th -> th_stat th = RT_THREAD_READY ->
             t ∈ qlist qs (QReady (th_current_priority th));
  qo_range : 0 <= g < 2 ^ 32;
  qo_group : forall p, prio_ok p -> Z.testbit g p = true <-> qlist qs (QReady p) ≠ [];
}.

(** The running thread is [rt_current_thread] and is in no ready queue. *)
Record current_ok (ths : gmap nat thread) (cur : option nat) : Prop := {
  co_running : forall t th, ths !! t = Some th -> th_stat th = RT_THREAD_RUNNING -> cur = Some t;
  co_current : forall t, cur = Some t -> exists th, ths !! t = Some th /\
               th_stat th ≠ RT_THREAD_READY /\ th_stat th ≠ RT_THREAD_INIT;
}.

Definition threads_ok (ths : gmap nat thread) : Prop := map_Forall (fun _ th => thread_ok th) ths.

Record sched_inv (s : kernel) : Prop := {
  si_queue : queue_ok None (threads s) (queues s) (rt_thread_ready_priority_group s);
  si_current : current_ok (threads s) (rt_current_thread s);
  si_threads : threads_ok (threads s);
}.

(** ** Bits of the ready group *)

Lemma prio_mask_pow p : prio_ok p -> prio_mask p = 2 ^ p.
Proof.
  intros [??]. unfold prio_mask. rewrite Z.shiftl_1_l. apply uwrap_small.
  split; [lia|]. apply Z.pow_lt_mono_r; lia.
Qed.

Lemma prio_mask_testbit p i : prio_ok p -> 0 <= i -> Z.testbit (prio_mask p) i = bool_decide (i = p).
Proof.
  intros Hp Hi. rewrite prio_mask_pow by done. destruct Hp. case_bool_decide.
  - subst. by apply Z.pow2_bits_true.
  - apply Z.pow2_bits_false. lia.
Qed.

Lemma word_bound_bits v : 0 <= v -> v < 2 ^ 32 <-> forall i, 32 <= i -> Z.testbit v i = false.
Proof.
  intros Hv. split.
  - intros Hlt i Hi. destruct (Z.eq_dec v 0) as [->|]; [apply Z.bits_0|].
    apply Z.bits_above_log2; [done|]. apply Z.log2_lt_pow2; [lia|].
    apply Z.lt_le_trans with (2 ^ 32); [done|]. apply Z.pow_le_mono_r; lia.
  - intros Hb. destruct (Z.eq_dec v 0) as [->|]; [lia|].
    apply Z.log2_lt_pow2; [lia|]. destruct (Z_lt_le_dec (Z.log2 v) 32) as [|Hge]; [done|].
    specialize (Hb _ Hge). rewrite Z.bit_log2 in Hb by lia. done.
Qed.

Lemma group_set_range g p : prio_ok p -> 0 <= g < 2 ^ 32 -> 0 <= g .| prio_mask p < 2 ^ 32.
Proof.
  intros Hp [H0 H1]. assert (0 <= prio_mask p) by (rewrite prio_mask_pow by done; destruct Hp; lia).
  split; [by apply Z.lor_nonneg|]. apply word_bound_bits; [by apply Z.lor_nonneg|].
  intros i Hi. rewrite Z.lor_spec, prio_mask_testbit by (done || lia).
  rewrite (proj1 (word_bound_bits g H0) H1 i Hi). simpl.
  apply bool_decide_eq_false. destruct Hp. lia.
Qed.

Lemma group_clear_range g m : 0 <= g < 2 ^ 32 -> 0 <= g .&~ m < 2 ^ 32.
Proof.
  intros [H0 H1]. assert (0 <= g .&~ m) by (apply Z.land_nonneg; by left).
  split; [done|]. apply word_bound_bits; [done|]. intros i Hi.
  by rewrite Z.land_spec, (proj1 (word_bound_bits g H0) H1 i Hi).
Qed.

Lemma group_set_testbit g p i :
  prio_ok p -> prio_ok i -> Z.testbit (g .| prio_mask p) i = Z.testbit g i || bool_decide (i = p).
Proof. intros Hp [??]. rewrite Z.lor_spec, prio_mask_testbit by (done || lia). done. Qed.

Lemma group_clear_testbit g p i :
  prio_ok p -> prio_ok i ->
  Z.testbit (g .&~ prio_mask p) i = Z.testbit g i && negb (bool_decide (i = p)).
Proof.
  intros Hp [??]. rewrite Z.land_spec, Z.lnot_spec, prio_mask_testbit by (done || lia). done.
Qed.

(** ** Moving one thread between rings *)

Section queue_ok.
Context {ths : gmap nat thread} {qs : gmap qid (list nat)} {g : Z}.
Implicit Types (t : nat) (th : thread) (q : qid).

Lemma queue_ok_ready_prio X t th p :
  queue_ok X ths qs g -> ths !! t = Some th -> t ∈ qlist qs (QReady p) ->
  th_stat th = RT_THREAD_READY /\ th_current_priority th = p.
Proof. intros H Ht Hin. apply (qo_loc _ _ _ _ H) in Hin as (_ & th' & ? & ?). by simplify_eq. Qed.

(** A thread whose state has no ring is in none. *)
Lemma queue_ok_nowhere X t th q :
  queue_ok X ths qs g -> ths !! t = Some th ->
  th_stat th = RT_THREAD_INIT \/ th_stat th = RT_THREAD_RUNNING -> t ∉ qlist qs q.
Proof.
  intros H Ht Hst Hin. apply (qo_loc _ _ _ _ H) in Hin as (_ & th' & ? & Hl). simplify_eq.
  destruct q; simpl in Hl; lia.
Qed.

Lemma queue_ok_group_nonzero X :
  queue_ok X ths qs g -> g ≠ 0 -> prio_ok (__rt_ffs g - 1) /\ qlist qs (QReady (__rt_ffs g - 1)) ≠ [].
Proof.
  intros H Hg. destruct (qo_range _ _ _ _ H) as [??].
  destruct (__rt_ffs_spec g) as [(?&Hb&_)?]; [lia|].
  assert (prio_ok (__rt_ffs g - 1)) as Hp by (split; lia).
  split; [done|]. by apply (qo_group _ _ _ _ H).
Qed.

(** [rt_schedule_remove_thread] takes a thread out of its ring and keeps the bitmap exact. *)
Lemma queue_detach t th :
  queue_ok None ths qs g -> ths !! t = Some th -> thread_ok th ->
  queue_ok (Some t) ths (q_remove t qs)
    (if bool_decide (qlist (q_remove t qs) (QReady (th_current_priority th)) = [])
     then g .&~ th_number_mask th else g).
Proof.
  intros H Ht Hok. pose proof (qo_range _ _ _ _ H) as Hr.
  assert (forall i, i ≠ th_current_priority th -> qlist (q_remove t qs) (QReady i) = qlist qs (QReady i)) as Hother.
  { intros i Hi. rewrite qlist_remove. apply list_del_notin. intros Hin.
    by apply (queue_ok_ready_prio None t th i) in Hin as []. }
  split.
  - intros q. rewrite qlist_remove. apply NoDup_list_del, (qo_nodup _ _ _ _ H).
  - intros q1 q2 u. rewrite !qlist_remove, !elem_of_list_del. intros [_ ?] [_ ?].
    by eapply (qo_uniq _ _ _ _ H).
  - intros q u. rewrite qlist_remove, elem_of_list_del. intros [Hu Hin].
    split; [congruence|]. by apply (qo_loc _ _ _ _ H) in Hin as [_ ?].
  - intros u uh Hu Hl Hst. rewrite qlist_remove, elem_of_list_del. split; [congruence|].
    by apply (qo_ready _ _ _ _ H).
  - case_bool_decide; [by apply group_clear_range|done].
  - intros i Hi. destruct (to_mask _ Hok) as [Hm|[Hm Hst]]; rewrite Hm.
    + case_bool_decide as He.
      * rewrite group_clear_testbit, andb_true_iff, (qo_group _ _ _ _ H), negb_true_iff by
          (done || apply to_prio, Hok).
        rewrite bool_decide_eq_false. destruct (decide (i = th_current_priority th)) as [->|Hne].
        -- rewrite He. naive_solver.
        -- rewrite Hother by done. naive_solver.
      * rewrite (qo_group _ _ _ _ H) by done.
        destruct (decide (i = th_current_priority th)) as [->|Hne]; [|by rewrite Hother].
        split; [done|]. intros _ E. apply He. by rewrite qlist_remove, E.
    + replace (if bool_decide _ then _ else _) with g
        by (rewrite Z.lnot_0, Z.land_m1_r; by case_bool_decide).
      rewrite (qo_group _ _ _ _ H) by done. rewrite qlist_remove, list_del_notin; [done|].
      intros Hin. apply (queue_ok_ready_prio None t th i) in Hin as []; [lia|done|done].
Qed.

(** [rt_list_remove] alone, for a thread that is not READY. *)
Lemma queue_detach_suspended t th :
  queue_ok None ths qs g -> ths !! t = Some th -> th_stat th ≠ RT_THREAD_READY ->
  queue_ok (Some t) ths (q_remove t qs) g.
Proof.
  intros H Ht Hst. split.
  - intros q. rewrite qlist_remove. apply NoDup_list_del, (qo_nodup _ _ _ _ H).
  - intros q1 q2 u. rewrite !qlist_remove, !elem_of_list_del. intros [_ ?] [_ ?].
    by eapply (qo_uniq _ _ _ _ H).
  - intros q u. rewrite qlist_remove, elem_of_list_del. intros [Hu Hin].
    split; [congruence|]. by apply (qo_loc _ _ _ _ H) in Hin as [_ ?].
  - intros u uh Hu Hl Hs. rewrite qlist_remove, elem_of_list_del. split; [congruence|].
    by apply (qo_ready _ _ _ _ H).
  - apply H.
  - intros i Hi. rewrite (qo_group _ _ _ _ H) by done. rewrite qlist_remove, list_del_notin; [done|].
    intros Hin. by apply (queue_ok_ready_prio None t th i) in Hin as [].
Qed.

(** A thread in no ring and not READY may be exempted as it is. *)
Lemma queue_exempt t th :
  queue_ok None ths qs g -> ths !! t = Some th ->
  (forall q, t ∉ qlist qs q) -> queue_ok (Some t) ths qs g.
Proof.
  intros H Ht Hq. split; try apply H.
  - intros q u Hin. split; [|by apply (qo_loc _ _ _ _ H) in Hin as [_ ?]].
    intros [= ->]. by apply (Hq q).
  - intros u uh _. by apply (qo_ready _ _ _ _ H).
Qed.

(** A change of a thread that keeps its state and priority. *)
Lemma queue_update X t th th' :
  queue_ok X ths qs g -> ths !! t = Some th -> th_stat th' = th_stat th ->
  th_current_priority th' = th_current_priority th -> queue_ok X (<[t := th']> ths) qs g.
Proof.
  intros H Ht Hs Hp. split; try apply H.
  - intros q u Hin. apply (qo_loc _ _ _ _ H) in Hin as (HX & uh & Hu & Hl). split; [done|].
    destruct (decide (t = u)) as [->|Hne].
    + rewrite lookup_insert_eq. exists th'. simplify_eq. split; [done|].
      destruct q; simpl in *; rewrite ?Hs, ?Hp; done.
    + rewrite lookup_insert_ne by done. eauto.
  - intros u uh HX. destruct (decide (t = u)) as [->|Hne].
    + rewrite lookup_insert_eq. intros [= <-]. rewrite Hs, Hp. by apply (qo_ready _ _ _ _ H).
    + rewrite lookup_insert_ne by done. by apply (qo_ready _ _ _ _ H).
Qed.

(** Any change of the exempted thread. *)
Lemma queue_update_exempt t th' :
  queue_ok (Some t) ths qs g -> queue_ok (Some t) (<[t := th']> ths) qs g.
Proof.
  intros H. split; try apply H.
  - intros q u Hin. apply (qo_loc _ _ _ _ H) in Hin as (HX & uh & Hu & Hl). split; [done|].
    rewrite lookup_insert_ne by congruence. eauto.
  - intros u uh HX. rewrite lookup_insert_ne by congruence. by apply (qo_ready _ _ _ _ H).
Qed.

(** The exempted thread comes back without a ring. *)
Lemma queue_place_none t th :
  queue_ok (Some t) ths qs g -> ths !! t = Some th -> th_stat th ≠ RT_THREAD_READY ->
  queue_ok None ths qs g.
Proof.
  intros H Ht Hst. split; try apply H.
  - intros q u Hin. by apply (qo_loc _ _ _ _ H) in Hin as [_ ?].
  - intros u uh _ Hu Hs. apply (qo_ready _ _ _ _ H); congruence.
Qed.

(** The exempted thread comes back somewhere in the ring [q]. *)
Lemma queue_place t th q l g' :
  queue_ok (Some t) ths qs g -> ths !! t = Some th -> loc_ok th q -> l ≡ₚ t :: qlist qs q ->
  (th_stat th = RT_THREAD_READY -> q = QReady (th_current_priority th)) ->
  0 <= g' < 2 ^ 32 ->
  (forall p, prio_ok p -> Z.testbit g' p = true <-> Z.testbit g p = true \/ q = QReady p) ->
  queue_ok None ths (<[q := l]> qs) g'.
Proof.
  intros H Ht Hloc Hl Hrdy Hr Hg.
  assert (forall q', t ∉ qlist qs q') as Hnot.
  { intros q' Hin. apply (qo_loc _ _ _ _ H) in Hin as [Hc _]. done. }
  assert (forall q' u, u ∈ qlist (<[q := l]> qs) q' <-> u ∈ qlist qs q' \/ q' = q /\ u = t) as Hmem.
  { intros q' u. rewrite qlist_insert. case_decide as E; [subst|].
    - rewrite Hl, elem_of_cons. naive_solver.
    - naive_solver. }
  split; [| | | |done|].
  - intros q'. rewrite qlist_insert. case_decide; [subst|apply H].
    rewrite Hl, NoDup_cons. split; [apply Hnot|apply H].
  - intros q1 q2 u [H1|[-> ->]]%Hmem [H2|[-> ?]]%Hmem.
    + by eapply (qo_uniq _ _ _ _ H).
    + subst. by destruct (Hnot q1).
    + by destruct (Hnot q2).
    + done.
  - intros q' u [Hin|[-> ->]]%Hmem; [|by eauto].
    by apply (qo_loc _ _ _ _ H) in Hin as [_ ?].
  - intros u uh _ Hu Hs. apply Hmem. destruct (decide (u = t)) as [->|Hne].
    + right. simplify_eq. split; [|done]. symmetry. by apply Hrdy.
    + left. apply (qo_ready _ _ _ _ H); congruence.
  - intros p Hp. rewrite Hg, (qo_group _ _ _ _ H) by done. rewrite qlist_insert. case_decide as E.
    + subst q. split; [|by right]. intros _ ->. by apply Permutation_nil_cons in Hl.
    + naive_solver.
Qed.

Lemma queue_place_wait t th q l :
  queue_ok (Some t) ths qs g -> ths !! t = Some th -> loc_ok th q -> (forall p, q ≠ QReady p) ->
  l ≡ₚ t :: qlist qs q -> queue_ok None ths (<[q := l]> qs) g.
Proof.
  intros H Ht Hloc Hq Hl. eapply queue_place; eauto using qo_range.
  - intros Hs. exfalso. destruct q; simpl in Hloc; try lia. by apply (Hq prio).
  - naive_solver.
Qed.

Lemma queue_place_ready t th :
  queue_ok (Some t) ths qs g -> ths !! t = Some th -> thread_ok th -> th_stat th = RT_THREAD_READY ->
  queue_ok None ths (q_push_back (QReady (th_current_priority th)) t qs) (g .| th_number_mask th).
Proof.
  intros H Ht Hok Hst. destruct (to_mask _ Hok) as [Hm|[? ?]]; [|lia].
  pose proof (proj1 (to_prio _ Hok)) as Hp. rewrite Hm. eapply queue_place; eauto.
  - done.
  - symmetry. apply Permutation_cons_append.
  - apply group_set_range; [done|apply H].
  - intros p Hp'. rewrite group_set_testbit, orb_true_iff, bool_decide_eq_true by done. naive_solver.
Qed.
End queue_ok.

(** ** What a routine of this file may change *)

(** All of the state but the threads' states, the rings and the scheduler's own variables. *)
Record sched_frame (s s' : kernel) : Prop := {
  sf_objects : objects s' = objects s;
  sf_container : rt_object_container s' = rt_object_container s;
  sf_lock : rt_scheduler_lock_nest s' = rt_scheduler_lock_nest s;
  sf_nest : rt_interrupt_nest s' = rt_interrupt_nest s;
  sf_tick : rt_tick s' = rt_tick s;
  sf_timers : timers s' = timers s;
  sf_timer_list : rt_timer_list s' = rt_timer_list s;
  sf_random : random_nr s' = random_nr s;
  sf_sems : sems s' = sems s;
  sf_mutexes : mutexes s' = mutexes s;
  sf_events : events s' = events s;
  sf_mailboxes : mailboxes s' = mailboxes s;
  sf_msgqueues : msgqueues s' = msgqueues s;
}.

#[export] Instance sched_frame_preorder : PreOrder sched_frame.
Proof.
  split; [by intros s; split|]. intros s1 s2 s3 [] []. split; congruence.
Qed.

(** Scheduling moves threads between READY and RUNNING only; the waiting rings are untouched. *)
Record resched (s s' : kernel) : Prop := {
  rs_frame : sched_frame s s';
  rs_thread : forall t, threads s' !! t = threads s !! t \/
    exists th st, threads s !! t = Some th /\ threads s' !! t = Some (set_th_stat st th) /\
    (th_stat th = RT_THREAD_READY \/ th_stat th = RT_THREAD_RUNNING) /\
    (st = RT_THREAD_READY \/ st = RT_THREAD_RUNNING);
  rs_waits : forall q, (forall p, q ≠ QReady p) -> qget s' q = qget s q;
}.

Lemma set_th_stat_twice a b th : set_th_stat a (set_th_stat b th) = set_th_stat a th.
Proof. done. Qed.

#[export] Instance resched_preorder : PreOrder resched.
Proof.
  split.
  - intros s. split; [reflexivity|by left|done].
  - intros s1 s2 s3 [F1 T1 W1] [F2 T2 W2]. split.
    + by etrans.
    + intros t. destruct (T2 t) as [E2|(th&st&H2&E2&Ho&Hn)]; rewrite E2; [apply T1|].
      right. destruct (T1 t) as [E1|(th1&st1&H1&E1&Ho1&Hn1)].
      * exists th, st. rewrite <- E1. done.
      * simplify_eq. exists th1, st. done.
    + intros q Hq. rewrite W2, W1; done.
Qed.

Lemma resched_stable s s' t th :
  resched s s' -> threads s !! t = Some th ->
  th_stat th ≠ RT_THREAD_READY -> th_stat th ≠ RT_THREAD_RUNNING -> threads s' !! t = Some th.
Proof. intros H Ht ??. destruct (rs_thread _ _ H t) as [->|(?&?&?&?&[]&?)]; naive_solver. Qed.

(** ** Specifications *)

Lemma stat_set_ok st th :
  RT_THREAD_INIT <= th_stat th <= RT_THREAD_CLOSE -> stat_set st th = set_th_stat st th.
Proof.
  intros H. unfold stat_set.
  assert (th_stat th .&~ RT_THREAD_STAT_MASK = 0) as ->; [|by rewrite Z.lor_0_r].
  assert (th_stat th = 0 \/ th_stat th = 1 \/ th_stat th = 2 \/ th_stat th = 3 \/ th_stat th = 4) as E by lia.
  by destruct E as [->|[->|[->|[->| ->]]]].
Qed.

Lemma stat_mask x : RT_THREAD_INIT <= x <= RT_THREAD_CLOSE -> x .& RT_THREAD_STAT_MASK = x.
Proof.
  intros H. assert (x = 0 \/ x = 1 \/ x = 2 \/ x = 3 \/ x = 4) as E by lia.
  by destruct E as [->|[->|[->|[->| ->]]]].
Qed.

Lemma thread_ok_lookup ths t th : threads_ok ths -> ths !! t = Some th -> thread_ok th.
Proof. intros H ?. by apply (H t). Qed.

Lemma threads_ok_insert ths t th : threads_ok ths -> thread_ok th -> threads_ok (<[t := th]> ths).
Proof. intros. by apply map_Forall_insert_2. Qed.

(** [thread_ok] after a change of state. *)
Lemma thread_ok_set_stat st th :
  thread_ok th -> RT_THREAD_INIT <= st <= RT_THREAD_CLOSE ->
  (st = RT_THREAD_CLOSE \/ th_stat th ≠ RT_THREAD_INIT /\ th_stat th ≠ RT_THREAD_CLOSE) ->
  thread_ok (set_th_stat st th).
Proof.
  intros [? ? Hm Hs] ? Hc. split; simpl; [done|done| |].
  - destruct Hm as [?|[? ?]]; [by left|]. right. split; [done|]. naive_solver.
  - intros ?. apply Hs. naive_solver.
Qed.

Lemma wp_insert_other t th Q s :
  threads s !! t = Some th -> thread_ok th -> rt_current_thread s ≠ Some t ->
  Q tt (set_rt_thread_ready_priority_group (rt_thread_ready_priority_group s .| th_number_mask th)
         (set_queues (q_push_back (QReady (th_current_priority th)) t (queues s))
           (set_threads (<[t := set_th_stat RT_THREAD_READY th]> (threads s)) s))) ->
  wp (rt_schedule_insert_thread t) Q s.
Proof.
  intros Ht Hok Hc HQ. unfold rt_schedule_insert_thread. wp_norm. exists th. split; [done|].
  wp_norm. rewrite bool_decide_eq_false_2 by done. rewrite stat_set_ok by apply Hok. by wp_norm.
Qed.

Lemma wp_insert_current t th Q s :
  threads s !! t = Some th -> thread_ok th -> rt_current_thread s = Some t ->
  Q tt (set_threads (<[t := set_th_stat RT_THREAD_RUNNING th]> (threads s)) s) ->
  wp (rt_schedule_insert_thread t) Q s.
Proof.
  intros Ht Hok Hc HQ. unfold rt_schedule_insert_thread. wp_norm. exists th. split; [done|].
  wp_norm. rewrite bool_decide_eq_true_2 by done. rewrite stat_set_ok by apply Hok. by wp_norm.
Qed.

Lemma set_group_id s : set_rt_thread_ready_priority_group (rt_thread_ready_priority_group s) s = s.
Proof. by destruct s. Qed.

Lemma wp_remove_thread t th Q s :
  threads s !! t = Some th ->
  Q tt (set_rt_thread_ready_priority_group
         (if bool_decide (qlist (q_remove t (queues s)) (QReady (th_current_priority th)) = [])
          then rt_thread_ready_priority_group s .&~ th_number_mask th
          else rt_thread_ready_priority_group s)
         (set_queues (q_remove t (queues s)) s)) ->
  wp (rt_schedule_remove_thread t) Q s.
Proof.
  intros Ht HQ. unfold rt_schedule_remove_thread. wp_norm. exists th. split; [done|].
  wp_norm. rewrite wp_when. simpl. case_bool_decide; [left|right]; (split; [done|]); [done|].
  by rewrite <- (set_group_id (set_queues _ _)).
Qed.

Lemma wp_stack_check t th Q s :
  threads s !! t = Some th -> stack_ok th -> Q tt s -> wp (_rt_scheduler_stack_check t) Q s.
Proof.
  intros Ht [Hg Hs] HQ. unfold _rt_scheduler_stack_check. wp_norm. exists th. split; [done|].
  replace (_ || _) with false; [by wp_norm|]. symmetry. rewrite Hg. simpl.
  apply orb_false_iff. split; [lia|]. rewrite Z.gtb_ltb. lia.
Qed.

Lemma wp_highest Q s :
  queue_ok None (threads s) (queues s) (rt_thread_ready_priority_group s) ->
  rt_thread_ready_priority_group s ≠ 0 ->
  (forall t l p th, qget s (QReady p) = t :: l -> threads s !! t = Some th ->
     th_stat th = RT_THREAD_READY -> th_current_priority th = p ->
     (forall u uh, threads s !! u = Some uh -> th_stat uh = RT_THREAD_READY ->
        prio_ok (th_current_priority uh) -> p <= th_current_priority uh) ->
     Q (t, p) s) ->
  wp _get_highest_priority_thread Q s.
Proof.
  intros H Hg HQ. unfold _get_highest_priority_thread. wp_norm.
  destruct (queue_ok_group_nonzero _ H Hg) as [Hp Hne].
  destruct (qget s _) as [|t l] eqn:E; [done|]. exists t, l. split; [done|]. wp_norm.
  destruct (qo_loc _ _ _ _ H (QReady (__rt_ffs (rt_thread_ready_priority_group s) - 1)) t)
    as (_ & th & Ht & Hs & Hpr); [rewrite E; by left|].
  apply (HQ _ _ _ _ E Ht Hs Hpr). intros u uh Hu Hus Hup.
  destruct (qo_range _ _ _ _ H). destruct (__rt_ffs_spec (rt_thread_ready_priority_group s))
    as [(_ & _ & Hlow) _]; [lia|].
  apply Z.nlt_ge. intros Hlt. specialize (Hlow (th_current_priority uh)).
  assert (Z.testbit (rt_thread_ready_priority_group s) (th_current_priority uh) = true) as Hb.
  { apply (qo_group _ _ _ _ H); [done|]. intros E'.
    apply (qo_ready _ _ _ _ H) in Hu; [|done..]. rewrite E' in Hu. by apply elem_of_nil in Hu. }
  destruct Hup. rewrite Hlow in Hb; [done|lia].
Qed.

(** The thread scheduled in leaves its ready queue and becomes RUNNING. *)
Lemma wp_dispatch t th s Q :
  queue_ok None (threads s) (queues s) (rt_thread_ready_priority_group s) ->
  threads_ok (threads s) -> threads s !! t = Some th ->
  th_stat th = RT_THREAD_READY \/ th_stat th = RT_THREAD_RUNNING ->
  (forall s', queue_ok None (threads s') (queues s') (rt_thread_ready_priority_group s') ->
     threads s' = <[t := set_th_stat RT_THREAD_RUNNING th]> (threads s) ->
     queues s' = q_remove t (queues s) ->
     rt_current_thread s' = rt_current_thread s -> resched s s' -> Q tt s') ->
  wp (rt_schedule_remove_thread t)
     (fun _ s1 => wp (upd_thread t (stat_set RT_THREAD_RUNNING)) Q s1) s.
Proof.
  intros H Hok Ht Hst HQ. pose proof (thread_ok_lookup _ _ _ Hok Ht) as Hth.
  apply (wp_remove_thread t th); [done|]. wp_norm. exists th. split; [done|].
  rewrite stat_set_ok by apply Hth. apply HQ; simpl; [|done|done|done|].
  - eapply queue_place_none; [|by apply lookup_insert_eq|done].
    by apply queue_update_exempt, queue_detach.
  - split; [by split| |]; simpl.
    + intros u. destruct (decide (t = u)) as [<-|Hne]; [|left; by rewrite lookup_insert_ne].
      right. exists th, RT_THREAD_RUNNING. rewrite lookup_insert_eq. naive_solver.
    + intros q Hq. rewrite qlist_remove. apply list_del_notin. intros Hin.
      apply (qo_loc _ _ _ _ H) in Hin as (_ & th' & ? & Hl). simplify_eq.
      destruct q; simpl in Hl; try lia. by apply (Hq prio).
Qed.

Lemma wp_dispatch_checked t th s Q :
  queue_ok None (threads s) (queues s) (rt_thread_ready_priority_group s) ->
  threads_ok (threads s) -> threads s !! t = Some th -> th_stat th = RT_THREAD_READY ->
  (forall s', queue_ok None (threads s') (queues s') (rt_thread_ready_priority_group s') ->
     threads s' = <[t := set_th_stat RT_THREAD_RUNNING th]> (threads s) ->
     queues s' = q_remove t (queues s) ->
     rt_current_thread s' = rt_current_thread s -> resched s s' -> Q tt s') ->
  wp (rt_schedule_remove_thread t;; upd_thread t (stat_set RT_THREAD_RUNNING);;
      _rt_scheduler_stack_check t) Q s.
Proof.
  intros H Hok Ht Hst HQ. rewrite wp_bind.
  eapply (wp_mono _ (fun _ s1 => wp (upd_thread t (stat_set RT_THREAD_RUNNING))
    (fun _ => wp (_rt_scheduler_stack_check t) Q) s1)); [|intros [] s'; by rewrite wp_bind].
  apply (wp_dispatch t th); [done..|by left|]. intros s3 Hq3 Hth3 Hqs3 Hc3 Hrs3.
  eapply wp_stack_check; [rewrite Hth3; apply lookup_insert_eq| |by apply HQ].
  apply (to_stack _ (thread_ok_lookup _ _ _ Hok Ht)). lia.
Qed.

(** Some thread can run: a READY one, or the current one. *)
Definition runnable (s : kernel) : Prop :=
  exists t th, threads s !! t = Some th /\
    (th_stat th = RT_THREAD_READY \/ th_stat th = RT_THREAD_RUNNING).

(** The running thread has the highest priority (the smallest number) of all that could run. *)
Definition highest_running (s : kernel) : Prop :=
  exists t th, rt_current_thread s = Some t /\ threads s !! t = Some th /\
    th_stat th = RT_THREAD_RUNNING /\
    forall u uh, threads s !! u = Some uh -> th_stat uh = RT_THREAD_READY ->
      th_current_priority th <= th_current_priority uh.

Lemma sched_inv_no_ready s u uh :
  sched_inv s -> rt_thread_ready_priority_group s = 0 -> threads s !! u = Some uh ->
  th_stat uh ≠ RT_THREAD_READY.
Proof.
  intros [H _ Hok] Hg Hu Hs. pose proof (thread_ok_lookup _ _ _ Hok Hu) as Huh.
  pose proof (qo_ready _ _ _ _ H u uh ltac:(done) Hu Hs) as Hin.
  assert (Z.testbit (rt_thread_ready_priority_group s) (th_current_priority uh) = true) as Hb.
  { apply (qo_group _ _ _ _ H); [apply Huh|]. intros E. rewrite E in Hin. by apply elem_of_nil in Hin. }
  by rewrite Hg, Z.bits_0 in Hb.
Qed.

(** [rt_schedule] keeps the scheduler's invariant, changes nothing but who runs, and, with the
    scheduler unlocked, leaves the most urgent runnable thread running. *)
Definition schedule_post (s s' : kernel) : Prop :=
  sched_inv s' /\ resched s s' /\ is_Some (rt_current_thread s') /\
  (rt_scheduler_lock_nest s = 0 -> runnable s -> highest_running s').

Section schedule_cases.
Context (s : kernel) (c : nat) (cth : thread).
Hypotheses (Hinv : sched_inv s) (Hc : rt_current_thread s = Some c) (Hcth : threads s !! c = Some cth).

Let Hq := si_queue _ Hinv.
Let Hok := si_threads _ Hinv.
Let Hcur := si_current _ Hinv.

(** The current thread keeps the CPU. *)
Lemma schedule_stay p :
  th_stat cth = RT_THREAD_RUNNING -> th_current_priority cth < p ->
  (forall u uh, threads s !! u = Some uh -> th_stat uh = RT_THREAD_READY ->
     prio_ok (th_current_priority uh) -> p <= th_current_priority uh) ->
  wp (rt_schedule_remove_thread c;; upd_thread c (stat_set RT_THREAD_RUNNING))
     (fun _ => schedule_post s) s.
Proof.
  intros Hrun Hlt Hmin. rewrite wp_bind. apply (wp_dispatch c cth); [done..|by right|].
  intros s' Hq' Hth' _ Hcur' Hrs. rewrite Hc in Hcur'. split_and!; [|done|by rewrite Hcur'|].
  - split; [done| |].
    + rewrite Hth', Hcur'. split.
      * intros t th. destruct (decide (c = t)) as [->|]; [done|]. rewrite lookup_insert_ne by done.
        rewrite <- Hc. apply (co_running _ _ Hcur).
      * intros t [= <-]. rewrite lookup_insert_eq. eexists. split; [done|]. simpl. lia.
    + rewrite Hth'. apply threads_ok_insert; [done|].
      apply thread_ok_set_stat; [by eapply thread_ok_lookup|lia|lia].
  - intros _ _. exists c. eexists. rewrite Hth', lookup_insert_eq. split_and!; [done..|].
    intros u uh. destruct (decide (c = u)) as [->|]; [rewrite lookup_insert_eq; by intros [= <-]|].
    rewrite lookup_insert_ne by done. intros Hu Hs. simpl.
    assert (p <= th_current_priority uh); [|lia]. apply (Hmin u); [done..|].
    apply (to_prio _ (thread_ok_lookup _ _ _ Hok Hu)).
Qed.

(** The queues after a preempted thread has been put back (or not), before the dispatch. *)
Lemma schedule_switch t p th l (need : bool) :
  qget s (QReady p) = t :: l -> threads s !! t = Some th -> th_stat th = RT_THREAD_READY ->
  th_current_priority th = p ->
  (forall u uh, threads s !! u = Some uh -> th_stat uh = RT_THREAD_READY ->
     prio_ok (th_current_priority uh) -> p <= th_current_priority uh) ->
  (if need then th_stat cth = RT_THREAD_RUNNING /\ p <= th_current_priority cth
   else th_stat cth ≠ RT_THREAD_RUNNING) -> t ≠ c ->
  wp (modify (set_rt_current_priority (u8 p));;
      modify (set_rt_current_thread (Some t));;
      when need (rt_schedule_insert_thread c);;
      rt_schedule_remove_thread t;;
      upd_thread t (stat_set RT_THREAD_RUNNING);;
      _rt_scheduler_stack_check t)
     (fun _ s' => schedule_post s s' /\ rt_current_thread s' = Some t /\
        queues s' = q_remove t (if need then q_push_back (QReady (th_current_priority cth)) c (queues s)
                                else queues s)) s.
Proof.
  intros Hl Ht Hst Hp Hmin Hneed Hne.
  pose proof (thread_ok_lookup _ _ _ Hok Hcth) as Hcok.
  pose proof (thread_ok_lookup _ _ _ Hok Ht) as Htok.
  set (s1 := set_rt_current_thread (Some t) (set_rt_current_priority (u8 p) s)).
  assert (wp (when need (rt_schedule_insert_thread c)) (fun _ s2 =>
    queue_ok None (threads s2) (queues s2) (rt_thread_ready_priority_group s2) /\
    rt_current_thread s2 = Some t /\ resched s s2 /\
    queues s2 = (if need then q_push_back (QReady (th_current_priority cth)) c (queues s) else queues s) /\
    threads s2 = if need then <[c := set_th_stat RT_THREAD_READY cth]> (threads s) else threads s) s1) as W.
  { rewrite wp_when. destruct need; [left|right]; (split; [done|]).
    2: { split_and!; [exact Hq|done| |done|done]. split; [by split|by left|done]. }
    destruct Hneed as [Hrun Hge]. apply (wp_insert_other c cth); [done..|simpl; congruence|].
    split_and!; [|done| |done|done]; simpl.
    - change (th_current_priority cth) with (th_current_priority (set_th_stat RT_THREAD_READY cth)).
      change (th_number_mask cth) with (th_number_mask (set_th_stat RT_THREAD_READY cth)).
      apply queue_place_ready; [|by apply lookup_insert_eq|apply thread_ok_set_stat; [done|lia..]|done].
      apply queue_update_exempt. eapply queue_exempt; [done..|]. intros q.
      eapply queue_ok_nowhere; [done..|by right].
    - split; [by split| |].
      + intros u. destruct (decide (c = u)) as [<-|]; simpl; [|left; by rewrite lookup_insert_ne].
        right. exists cth, RT_THREAD_READY. rewrite lookup_insert_eq. naive_solver.
      + intros q Hnr. simpl. rewrite qlist_push_back, decide_False; [done|]. by intros <-; apply (Hnr (th_current_priority cth)). }
  do 2 rewrite wp_bind, wp_modify. rewrite wp_bind. eapply wp_mono; [exact W|]. clear W.
  intros [] s2 (Hq2 & Hc2 & Hrs2 & Hqs2 & Hth2).
  assert (threads_ok (threads s2)) as Hok2.
  { rewrite Hth2. destruct need; [|done]. apply threads_ok_insert; [done|].
    apply thread_ok_set_stat; [done|lia|]. right. lia. }
  assert (threads s2 !! t = Some th) as Ht2.
  { rewrite Hth2. destruct need; [by rewrite lookup_insert_ne|done]. }
  apply (wp_dispatch_checked t th); [done..|]. intros s3 Hq3 Hth3 Hqs3 Hc3 Hrs3.
  assert (forall u uh, threads s3 !! u = Some uh -> u = t \/
    (threads s !! u = Some uh /\ u ≠ t /\ (u = c -> need = false)) \/
    (u = c /\ need = true /\ uh = set_th_stat RT_THREAD_READY cth)) as Hcases.
  { intros u uh. rewrite Hth3. destruct (decide (t = u)) as [->|]; [by left|].
    rewrite lookup_insert_ne, Hth2 by done. destruct need; [|naive_solver].
    destruct (decide (c = u)) as [->|]; [rewrite lookup_insert_eq; naive_solver|].
    rewrite lookup_insert_ne by done. naive_solver. }
  split; [|by rewrite Hc3, Hqs3, Hqs2].
  split_and!; [|by etrans|by rewrite Hc3, Hc2|].
  - split; [done| |].
    + rewrite Hc3, Hc2. split.
      * intros u uh Hu Hs. destruct (Hcases u uh Hu) as [->|[(Hu' & Hut & Huc)|(-> & -> & ->)]]; [done| |done].
        pose proof (co_running _ _ Hcur u uh Hu' Hs) as E. rewrite Hc in E. simplify_eq.
        rewrite Huc in Hneed; done.
      * intros u [= <-]. rewrite Hth3, lookup_insert_eq. eexists. split; [done|]. simpl. lia.
    + rewrite Hth3. apply threads_ok_insert; [done|]. apply thread_ok_set_stat; [done|lia|lia].
  - intros _ _. exists t, (set_th_stat RT_THREAD_RUNNING th).
    rewrite Hc3, Hth3, lookup_insert_eq. split_and!; [done..|].
    rewrite <- Hth3. intros u uh Hu Hs. simpl. rewrite Hp.
    destruct (Hcases u uh Hu) as [->|[(Hu' & _)|(-> & -> & ->)]]; [| |simpl; by destruct Hneed].
    + rewrite Hth3, lookup_insert_eq in Hu. by injection Hu as <-.
    + apply (Hmin u); [done..|]. apply (to_prio _ (thread_ok_lookup _ _ _ Hok Hu')).
Qed.
End schedule_cases.

Lemma runnable_no_ready s :
  sched_inv s -> rt_thread_ready_priority_group s = 0 -> runnable s -> highest_running s.
Proof.
  intros H Hg (t & th & Ht & Hs). pose proof (sched_inv_no_ready _ _ _ H Hg Ht) as Hn.
  destruct Hs as [|Hs]; [done|]. exists t, th.
  split_and!; [by eapply (co_running _ _ (si_current _ H))|done..|].
  intros u uh Hu Hus. by apply (sched_inv_no_ready _ _ _ H Hg) in Hu.
Qed.

Lemma schedule_post_refl s :
  sched_inv s -> is_Some (rt_current_thread s) ->
  (rt_scheduler_lock_nest s = 0 -> runnable s -> highest_running s) -> schedule_post s s.
Proof. intros. split_and!; [done|reflexivity|done..]. Qed.

Lemma wp_rt_schedule c s :
  sched_inv s -> rt_current_thread s = Some c -> wp rt_schedule (fun _ => schedule_post s) s.
Proof.
  intros Hinv Hc. destruct (co_current _ _ (si_current _ Hinv) c Hc) as (cth & Hcth & Hnr & _).
  pose proof (thread_ok_lookup _ _ _ (si_threads _ Hinv) Hcth) as Hcok.
  assert (is_Some (rt_current_thread s)) as Hsome by (rewrite Hc; eauto).
  unfold rt_schedule. rewrite wp_bind, wp_gets.
  destruct (Z.eqb_spec (rt_scheduler_lock_nest s) 0) as [Hl|Hl].
  2: { rewrite wp_ret. by apply schedule_post_refl. }
  rewrite wp_bind, wp_gets. destruct (Z.eqb_spec (rt_thread_ready_priority_group s) 0) as [Hg|Hg]; simpl.
  { rewrite wp_ret. apply schedule_post_refl; [done..|]. intros _. by apply runnable_no_ready. }
  rewrite wp_bind. apply wp_highest; [apply Hinv|done|]. intros t l p th Hq Ht Hs Hp Hmin.
  rewrite wp_bind, wp_self. exists c. split; [done|].
  rewrite wp_bind, wp_get_thread. exists cth. split; [done|].
  rewrite stat_mask by apply Hcok.
  assert (t ≠ c) as Htc by (intros ->; simplify_eq; congruence).
  destruct (Z.eqb_spec (th_stat cth) RT_THREAD_RUNNING) as [Hr|Hr]; simpl.
  - destruct (Z.ltb_spec (th_current_priority cth) p) as [Hlt|Hge]; simpl.
    + rewrite Nat.eqb_refl. simpl. by apply (schedule_stay s c cth Hinv Hc Hcth p).
    + rewrite (proj2 (Nat.eqb_neq t c)) by done. simpl.
      eapply wp_mono; [by apply (schedule_switch s c cth Hinv Hc Hcth t p th l true)|by intros ? ? []].
  - rewrite (proj2 (Nat.eqb_neq t c)) by done. simpl.
    eapply wp_mono; [by apply (schedule_switch s c cth Hinv Hc Hcth t p th l false)|by intros ? ? []].
Qed.

(** Nothing but the scheduler's choice depends on the lock. *)
Lemma sched_inv_set_lock v s : sched_inv s -> sched_inv (set_rt_scheduler_lock_nest v s).
Proof. by intros []. Qed.

(** ** The invariant as a check *)

(** A decidable form of [sched_inv], to evaluate it on concrete states. *)
Definition loc_okb (th : thread) (q : qid) : bool :=
  match q with
  | QReady p => (th_stat th =? RT_THREAD_READY) && (th_current_priority th =? p)
  | QDefunct => th_stat th =? RT_THREAD_CLOSE
  | QSuspend _ | QSender _ | QDriver _ => th_stat th =? RT_THREAD_SUSPEND
  end.

Definition prio_okb (p : Z) : bool := (0 <=? p) && (p <? RT_THREAD_PRIORITY_MAX).

Definition thread_okb (th : thread) : bool :=
  (RT_THREAD_INIT <=? th_stat th) && (th_stat th <=? RT_THREAD_CLOSE) &&
  prio_okb (th_current_priority th) && prio_okb (th_init_priority th) &&
  ((th_number_mask th =? prio_mask (th_current_priority th)) ||
   (th_number_mask th =? 0) && ((th_stat th =? RT_THREAD_INIT) || (th_stat th =? RT_THREAD_CLOSE))) &&
  ((th_stat th =? RT_THREAD_CLOSE) ||
   (th_stack_guard th =? 35) && (th_stack_addr th <? th_sp th) &&
   (th_sp th <=? u32 (th_stack_addr th + th_stack_size th))).

Definition queue_okb (ths : gmap nat thread) (qs : gmap qid (list nat)) (g : Z) : bool :=
  bool_decide (NoDup ((map_to_list qs).*2 ≫= id)) &&
  forallb (fun ql : qid * list nat => forallb (fun t =>
    match ths !! t with Some th => loc_okb th (fst ql) | None => false end) (snd ql)) (map_to_list qs) &&
  forallb (fun tt : nat * thread => negb (th_stat (snd tt) =? RT_THREAD_READY) ||
    bool_decide (fst tt ∈ qlist qs (QReady (th_current_priority (snd tt))))) (map_to_list ths) &&
  (0 <=? g) && (g <? 2 ^ 32) &&
  forallb (fun p => eqb (Z.testbit g p) (negb (bool_decide (qlist qs (QReady p) = [])))) (seqZ 0 32).

Definition current_okb (ths : gmap nat thread) (cur : option nat) : bool :=
  forallb (fun tt : nat * thread => negb (th_stat (snd tt) =? RT_THREAD_RUNNING) ||
    bool_decide (cur = Some (fst tt))) (map_to_list ths) &&
  match cur with
  | None => true
  | Some t => match ths !! t with
              | Some th => negb (th_stat th =? RT_THREAD_READY) && negb (th_stat th =? RT_THREAD_INIT)
              | None => false
              end
  end.

Definition sched_invb (s : kernel) : bool :=
  queue_okb (threads s) (queues s) (rt_thread_ready_priority_group s) &&
  current_okb (threads s) (rt_current_thread s) &&
  forallb (fun tt : nat * thread => thread_okb (snd tt)) (map_to_list (threads s)).

Lemma thread_okb_sound th : thread_okb th = true -> thread_ok th.
Proof.
  unfold thread_okb, prio_okb. intros H. split; [lia|unfold prio_ok; lia|lia|].
  intros ?. unfold stack_ok. lia.
Qed.

Lemma qlist_elem_lookup qs q t : t ∈ qlist qs q -> exists l, qs !! q = Some l /\ t ∈ l.
Proof. unfold qlist. destruct (qs !! q) as [l|]; simpl; [eauto|]. by intros ?%elem_of_nil. Qed.

(** Lists that are duplicate-free as a whole are disjoint. *)
Lemma NoDup_concat_keys {K} `{Countable K} (kls : list (K * list nat)) k1 k2 l1 l2 t :
  NoDup kls.*1 -> NoDup (kls.*2 ≫= id) -> (k1, l1) ∈ kls -> (k2, l2) ∈ kls -> t ∈ l1 -> t ∈ l2 ->
  k1 = k2.
Proof.
  assert (forall k l t (kls : list (K * list nat)), (k, l) ∈ kls -> t ∈ l -> t ∈ (kls.*2 ≫= id)) as Hin.
  { intros k l u ks Hk Hl. apply list_elem_of_bind. exists l. split; [done|].
    apply list_elem_of_fmap. by exists (k, l). }
  induction kls as [|[k l] kls IH]; [by intros _ _ ?%elem_of_nil|]. simpl.
  rewrite !NoDup_cons, NoDup_app. intros [_ Hk] (_ & Hd & Hr) [E1|H1]%elem_of_cons [E2|H2]%elem_of_cons Ht1 Ht2;
    simplify_eq; [done| | |by eapply IH].
  - exfalso. eapply Hd; [exact Ht1|]. by eapply Hin.
  - exfalso. eapply Hd; [exact Ht2|]. by eapply Hin.
Qed.

Lemma NoDup_concat_elem {K} (kls : list (K * list nat)) k l :
  NoDup (kls.*2 ≫= id) -> (k, l) ∈ kls -> NoDup l.
Proof.
  induction kls as [|[k' l'] kls IH]; [by intros _ ?%elem_of_nil|]. simpl.
  rewrite NoDup_app. intros (? & _ & ?) [E|?]%elem_of_cons; simplify_eq; auto.
Qed.

Lemma queue_okb_sound ths qs g : queue_okb ths qs g = true -> queue_ok None ths qs g.
Proof.
  unfold queue_okb. rewrite !andb_true_iff, bool_decide_eq_true. intros (((((Hnd & Hloc) & Hrdy) & H0) & H1) & Hg).
  split.
  - intros q. unfold qlist. destruct (qs !! q) as [l|] eqn:E; [|constructor].
    eapply NoDup_concat_elem; [exact Hnd|]. by apply elem_of_map_to_list.
  - intros q1 q2 t (l1 & E1 & Ht1)%qlist_elem_lookup (l2 & E2 & Ht2)%qlist_elem_lookup.
    eapply (NoDup_concat_keys (map_to_list qs)); [apply NoDup_fst_map_to_list|exact Hnd|..];
      [by apply elem_of_map_to_list..|exact Ht1|exact Ht2].
  - intros q t (l & E & Ht)%qlist_elem_lookup. split; [done|].
    apply (forallb_map_to_list _ _ Hloc) in E. simpl in E. rewrite forallb_forall in E.
    specialize (E t ltac:(by apply list_elem_of_In)). destruct (ths !! t) as [th|]; [|done].
    exists th. split; [done|]. destruct q; simpl in *; lia.
  - intros t th _ Ht Hs. apply (forallb_map_to_list _ _ Hrdy) in Ht. simpl in Ht.
    rewrite Hs in Ht. simpl in Ht. by apply bool_decide_eq_true in Ht.
  - lia.
  - intros p Hp. rewrite forallb_forall in Hg.
    specialize (Hg p ltac:(apply list_elem_of_In, elem_of_seqZ; destruct Hp; lia)).
    apply eqb_prop in Hg. rewrite Hg, negb_true_iff, bool_decide_eq_false. done.
Qed.

Lemma current_okb_sound ths cur : current_okb ths cur = true -> current_ok ths cur.
Proof.
  unfold current_okb. rewrite andb_true_iff. intros [Hr Hc]. split.
  - intros t th Ht Hs. apply (forallb_map_to_list _ _ Hr) in Ht. simpl in Ht. rewrite Hs in Ht.
    by apply bool_decide_eq_true in Ht.
  - intros t ->. destruct (ths !! t) as [th|]; [|done]. exists th. split; [done|lia].
Qed.

Lemma sched_invb_sound s : sched_invb s = true -> sched_inv s.
Proof.
  unfold sched_invb. rewrite !andb_true_iff. intros [[Hq Hc] Ht]. split.
  - by apply queue_okb_sound.
  - by apply current_okb_sound.
  - intros t th Hl. by apply thread_okb_sound, (forallb_map_to_list _ _ Ht (t, th).1 (t, th).2).
Qed.

(** A state with three threads: 0 runs, 1 and 2 wait for the CPU at the priority of 0, and 3 at a
    less urgent one. *)
Definition demo_thread (t : nat) (stat prio : Z) : thread :=
  let base := 536870912 + 1024 * Z.of_nat t in
  mkThread (base + 900) 0 0 base 1024 35 0 stat prio prio (prio_mask prio) 0 0 5 5 0 0.

Definition empty_kernel : kernel :=
  mkKernel ∅ ∅ ∅ ∅ 0 None 0 0 0 0 ∅ [] 0 ∅ ∅ ∅ ∅ ∅.

Definition demo_ready : kernel :=
  set_threads {[ 0%nat := demo_thread 0 RT_THREAD_RUNNING 4; 1%nat := demo_thread 1 RT_THREAD_READY 4;
                 2%nat := demo_thread 2 RT_THREAD_READY 4; 3%nat := demo_thread 3 RT_THREAD_READY 9 ]}
    (set_queues {[ QReady 4 := [1; 2]%nat; QReady 9 := [3]%nat ]}
      (set_rt_thread_ready_priority_group 528 (set_rt_current_thread (Some 0%nat) empty_kernel))).

(** The same before the scheduler is started. *)
Definition demo_boot : kernel :=
  set_threads {[ 1%nat := demo_thread 1 RT_THREAD_READY 4; 3%nat := demo_thread 3 RT_THREAD_READY 9 ]}
    (set_queues {[ QReady 4 := [1]%nat; QReady 9 := [3]%nat ]}
      (set_rt_thread_ready_priority_group 528 empty_kernel)).

Lemma demo_boot_inv : sched_inv demo_boot.
Proof. apply sched_invb_sound. vm_compute. reflexivity. Qed.

Lemma demo_ready_inv : sched_inv demo_ready.
Proof. apply sched_invb_sound. vm_compute. reflexivity. Qed.

(** ** Properties *)

(** C15: From a state of the scheduler's invariant, [rt_schedule] runs to completion (the ready list
    it reads is never empty and the stack check passes), keeps the invariant, changes only the
    states and rings of READY and RUNNING threads, and, when the scheduler is not locked and some
    thread can run, leaves running a thread of the highest priority among all that can. *)
Theorem rt_schedule_highest c s :
  sched_inv s -> rt_current_thread s = Some c ->
  wp rt_schedule (fun _ s' => sched_inv s' /\ resched s s' /\ is_Some (rt_current_thread s') /\
    (rt_scheduler_lock_nest s = 0 -> runnable s -> highest_running s')) s.
Proof. apply wp_rt_schedule. Qed.

Lemma rt_schedule_highest_witness :
  wp rt_schedule (fun _ s' => sched_inv s' /\ resched demo_ready s' /\ is_Some (rt_current_thread s') /\
    (rt_scheduler_lock_nest demo_ready = 0 -> runnable demo_ready -> highest_running s')) demo_ready.
Proof. apply (rt_schedule_highest 0%nat); [apply demo_ready_inv|reflexivity]. Defined.

(** C16: Round robin: when the running thread [c] is at the most urgent ready priority [p], a
    [rt_schedule] (a yield, or the end of a time slice) gives the CPU to the first thread of that
    priority's ready list and puts [c] behind all the others. *)
Theorem rt_schedule_round_robin c cth t l s :
  sched_inv s -> rt_current_thread s = Some c -> threads s !! c = Some cth ->
  th_stat cth = RT_THREAD_RUNNING -> rt_scheduler_lock_nest s = 0 ->
  qget s (QReady (th_current_priority cth)) = t :: l ->
  (forall u uh, threads s !! u = Some uh -> th_stat uh = RT_THREAD_READY ->
     th_current_priority cth <= th_current_priority uh) ->
  wp rt_schedule (fun _ s' => sched_inv s' /\ rt_current_thread s' = Some t /\
     qget s' (QReady (th_current_priority cth)) = l ++ [c]) s.
Proof.
  intros Hinv Hc Hcth Hr Hlock Hq Hmin. remember (th_current_priority cth) as p eqn:Ep.
  destruct (qo_loc _ _ _ _ (si_queue _ Hinv) (QReady p) t) as (_ & th & Ht & Hs & Hp); [rewrite Hq; by left|].
  pose proof (thread_ok_lookup _ _ _ (si_threads _ Hinv) Hcth) as Hcok.
  assert (t ≠ c) as Htc by (intros ->; simplify_eq; congruence).
  assert (c ∉ t :: l) as Hcl by (rewrite <- Hq; eapply queue_ok_nowhere; [apply Hinv|done|by right]).
  assert (rt_thread_ready_priority_group s ≠ 0) as Hg.
  { intros Hg. by apply (sched_inv_no_ready _ _ _ Hinv Hg) in Ht. }
  unfold rt_schedule. rewrite wp_bind, wp_gets, Hlock. simpl. rewrite wp_bind, wp_gets.
  rewrite (proj2 (Z.eqb_neq _ 0) Hg). simpl. rewrite wp_bind. apply wp_highest; [apply Hinv|done|].
  intros t' l' p' th' Hq' Ht' Hs' Hp' Hmin'.
  assert (p' = p) as Epp; [|rewrite Epp in *; clear Epp p'].
  { apply Z.le_antisymm; [|rewrite <- Hp'; by apply (Hmin t')].
    rewrite <- Hp. apply (Hmin' t); [done..|]. apply (to_prio _ (thread_ok_lookup _ _ _ (si_threads _ Hinv) Ht)). }
  rewrite Hq in Hq'. injection Hq' as <- <-.
  rewrite wp_bind, wp_self. exists c. split; [done|].
  rewrite wp_bind, wp_get_thread. exists cth. split; [done|].
  rewrite stat_mask by apply Hcok. rewrite Hr, <- Ep, Z.ltb_irrefl. simpl.
  rewrite (proj2 (Nat.eqb_neq t c)) by done. simpl.
  eapply wp_mono; [apply (schedule_switch s c cth Hinv Hc Hcth t _ th l true); try done; lia|].
  intros [] s' ((Hs'' & _) & Hcur & Hqs). split_and!; [done..|].
  rewrite Hqs, <- Ep, qlist_remove, qlist_push_back, decide_True, Hq by done.
  simpl. apply list_del_head. pose proof (qo_nodup _ _ _ _ (si_queue _ Hinv) (QReady p)) as Hnd.
  rewrite Hq in Hnd. apply NoDup_cons in Hnd as [Hnd _].
  rewrite elem_of_app, list_elem_of_singleton. by intros [|].
Qed.

Lemma rt_schedule_round_robin_witness :
  wp rt_schedule (fun _ s' => sched_inv s' /\ rt_current_thread s' = Some 1%nat /\
    qget s' (QReady 4) = [2; 0]%nat) demo_ready.
Proof.
  apply (rt_schedule_round_robin 0%nat (demo_thread 0 RT_THREAD_RUNNING 4) 1%nat [2%nat] demo_ready);
    [apply demo_ready_inv|reflexivity..|].
  intros u uh Hu _. simpl.
  assert (forallb (fun tt : nat * thread => 4 <=? th_current_priority (snd tt))
            (map_to_list (threads demo_ready)) = true) as E by (vm_compute; reflexivity).
  apply (forallb_map_to_list _ _ E) in Hu. simpl in Hu. lia.
Defined.

(** [rt_system_scheduler_start], from a state where threads have been made ready and none runs
    yet, starts the most urgent of them. *)
Theorem rt_system_scheduler_start_highest s :
  sched_inv s -> rt_current_thread s = None -> rt_thread_ready_priority_group s ≠ 0 ->
  wp rt_system_scheduler_start (fun _ s' => sched_inv s' /\ highest_running s') s.
Proof.
  intros [Hq Hcur Hok] Hc Hg. unfold rt_system_scheduler_start. rewrite wp_bind.
  apply wp_highest; [done..|]. intros t l p th Ht Hth Hs Hp Hmin. rewrite wp_bind, wp_modify.
  pose proof (thread_ok_lookup _ _ _ Hok Hth) as Htok.
  assert (forall s1, wp (upd_thread t (set_th_stat RT_THREAD_RUNNING)) (fun _ s' => sched_inv s' /\ highest_running s') s1
     <-> exists th1, threads s1 !! t = Some th1 /\
         (fun s' => sched_inv s' /\ highest_running s') (set_threads (<[t := set_th_stat RT_THREAD_RUNNING th1]> (threads s1)) s1)) as E by (intros; apply wp_upd_thread).
  rewrite wp_bind. apply (wp_remove_thread t th); [done|]. apply E. exists th. split; [done|]. clear E. simpl.
  split.
  - split; simpl; [| |apply threads_ok_insert; [done|apply thread_ok_set_stat; [done|lia|lia]]].
    + eapply queue_place_none; [|by apply lookup_insert_eq|done]. by apply queue_update_exempt, queue_detach.
    + split; [|intros u [= <-]; rewrite lookup_insert_eq; eexists; split; [done|simpl; lia]].
      intros u uh. destruct (decide (t = u)) as [->|]; [done|]. rewrite lookup_insert_ne by done.
      intros Hu Hr. pose proof (co_running _ _ Hcur u uh Hu Hr) as Hcc. by rewrite Hc in Hcc.
  - exists t, (set_th_stat RT_THREAD_RUNNING th). simpl. rewrite lookup_insert_eq. split_and!; [done..|].
    intros u uh. destruct (decide (t = u)) as [->|]; [rewrite lookup_insert_eq; by intros [= <-]|].
    rewrite lookup_insert_ne by done. intros Hu Hus. rewrite Hp. apply (Hmin u); [done..|].
    apply (to_prio _ (thread_ok_lookup _ _ _ Hok Hu)).
Qed.

Lemma rt_system_scheduler_start_highest_witness :
  wp rt_system_scheduler_start (fun _ s' => sched_inv s' /\ highest_running s') demo_boot.
Proof. apply rt_system_scheduler_start_highest; [apply demo_boot_inv|reflexivity|discriminate]. Defined.

(** Critical sections nest: as long as the nest counter stays in the positive range of its 16
    bits, only the [rt_exit_critical] that matches the outermost [rt_enter_critical] reschedules, and
    then the most urgent thread runs; an inner one only decrements the counter. *)
Theorem rt_exit_critical_outermost c s n :
  sched_inv s -> rt_current_thread s = Some c -> rt_scheduler_lock_nest s = n -> 0 < n < 32768 ->
  wp rt_exit_critical (fun _ s' => rt_scheduler_lock_nest s' = n - 1 /\ sched_inv s' /\
    (n = 1 -> runnable s -> highest_running s') /\
    (n ≠ 1 -> s' = set_rt_scheduler_lock_nest (n - 1) s)) s.
Proof.
  intros Hinv Hc Hn Hb. unfold rt_exit_critical. rewrite wp_bind, wp_modify, Hn.
  replace (s16 (n - 1)) with (n - 1) by (symmetry; apply swrap_small; lia).
  rewrite wp_bind, wp_gets. simpl. destruct (Z.leb_spec (n - 1) 0).
  - rewrite wp_bind, wp_modify. change (set_rt_scheduler_lock_nest 0 (set_rt_scheduler_lock_nest (n - 1) s))
      with (set_rt_scheduler_lock_nest 0 s).
    eapply wp_mono; [apply (wp_rt_schedule c); [by apply sched_inv_set_lock|done]|].
    intros [] s' (Hi & Hrs & _ & Hh). split_and!; [|done| |lia].
    + rewrite (sf_lock _ _ (rs_frame _ _ Hrs)). simpl. lia.
    + intros _ Hr. by apply Hh.
  - rewrite wp_ret. split_and!; [done|by apply sched_inv_set_lock|lia|done].
Qed.

Lemma rt_exit_critical_outermost_witness :
  wp rt_exit_critical (fun _ s' => rt_scheduler_lock_nest s' = 1 - 1 /\ sched_inv s' /\
    (1 = 1 -> runnable (set_rt_scheduler_lock_nest 1 demo_ready) -> highest_running s') /\
    (1 ≠ 1 -> s' = set_rt_scheduler_lock_nest (1 - 1) (set_rt_scheduler_lock_nest 1 demo_ready)))
    (set_rt_scheduler_lock_nest 1 demo_ready).
Proof.
  apply (rt_exit_critical_outermost 0%nat); [apply sched_inv_set_lock, demo_ready_inv|reflexivity|reflexivity|lia].
Defined.
