(* ===== verification/Timer.v ===== *)
(** Timers (src/timer.c with one skip-list level and no soft timers), and the tick of src/clock.c.

    [rt_timer_list] is the list behind [rt_timer_list[0]]; [RT_TIMER_SKIP_LIST_LEVEL] is 1, so the
    loop that links the upper levels has no iteration. *)

From S2P Require Import Prelude RtDef Object.

(** ** The operations *)

Definition rt_tick_get : M Z := gets rt_tick.
Definition rt_tick_set (tick : Z) : M unit := modify (set_rt_tick tick).

(** [rt_tick_from_millisecond] on [int]; [None] where [RT_TICK_PER_SECOND * ms + 999] overflows. *)
Definition rt_tick_from_millisecond (ms : Z) : option Z :=
  if ms <? 0 then Some RT_WAITING_FOREVER
  else let n := RT_TICK_PER_SECOND * ms + 999 in
       if n <? 2 ^ 31 then Some (n / 1000) else None.

Definition clear_activated (x : rt_object) : rt_object :=
  set_obj_flag (obj_flag x .&~ RT_TIMER_FLAG_ACTIVATED) x.
Definition set_activated (x : rt_object) : rt_object :=
  set_obj_flag (obj_flag x .| RT_TIMER_FLAG_ACTIVATED) x.
Definition activated (x : rt_object) : bool := negb (obj_flag x .& RT_TIMER_FLAG_ACTIVATED =? 0).
Definition periodic (x : rt_object) : bool := negb (obj_flag x .& RT_TIMER_FLAG_PERIODIC =? 0).

(** [rt_list_init(&(timer->row[0]))] overwrites the node of the timer: the caller's timer is in no
    list. *)
Definition _rt_timer_init (o : obj_id) (timeout : callback) (time flag : Z) : M unit :=
  upd_object o (set_obj_flag flag);;
  upd_object o clear_activated;;
  modify (fun s => set_timers (<[o := mkTimer timeout time 0]> (timers s)) s).

Definition rt_timer_list_next_timeout : M Z :=
  l ← gets rt_timer_list;
  match l with
  | [] => mret RT_TICK_MAX
  | t :: _ => tm ← get_timer t; mret (tm_timeout_tick tm)
  end.

Definition _rt_timer_remove (o : obj_id) : M unit :=
  modify (fun s => set_rt_timer_list (list_del o (rt_timer_list s)) s).

Definition rt_timer_init (o : obj_id) (name : string) (timeout : callback) (time flag : Z) : M unit :=
  rt_object_init o RT_Object_Class_Timer name;;
  _rt_timer_init o timeout time flag.

Definition rt_timer_detach (o : obj_id) : M Z :=
  assert_type o RT_Object_Class_Timer;;
  b ← rt_object_is_systemobject o;
  RT_ASSERT b;;
  _rt_timer_remove o;;
  rt_object_detach o;;
  mret RT_EOK.

(** The walk of [rt_timer_start] along [row_head] with the insertion behind the node it stops at. *)
Fixpoint timer_insert (ts : gmap obj_id rt_timer) (o : obj_id) (timeout_tick : Z) (l : list obj_id)
    : option (list obj_id) :=
  match l with
  | [] => Some [o]
  | p :: l' =>
      t ← ts !! p;
      let d := u32 (tm_timeout_tick t - timeout_tick) in
      if d =? 0 then cons p <$> timer_insert ts o timeout_tick l'
      else if d <? RT_TICK_MAX / 2 then Some (o :: l)
      else cons p <$> timer_insert ts o timeout_tick l'
  end.

Definition rt_timer_start (o : obj_id) : M Z :=
  assert_type o RT_Object_Class_Timer;;
  (* stop timer firstly *)
  _rt_timer_remove o;;
  upd_object o clear_activated;;
  tm ← get_timer o;
  RT_ASSERT (tm_init_tick tm <? RT_TICK_MAX / 2);;
  now ← rt_tick_get;
  upd_timer o (set_tm_timeout_tick (u32 (now + tm_init_tick tm)));;
  l ← getso (fun s => timer_insert (timers s) o (u32 (now + tm_init_tick tm)) (rt_timer_list s));
  modify (fun s => set_random_nr (u32 (random_nr s + 1)) s);;
  modify (set_rt_timer_list l);;
  upd_object o set_activated;;
  mret RT_EOK.

Definition rt_timer_stop (o : obj_id) : M Z :=
  assert_type o RT_Object_Class_Timer;;
  x ← get_object o;
  if negb (activated x) then mret (- RT_ERROR)
  else
    _rt_timer_remove o;;
    upd_object o clear_activated;;
    mret RT_EOK.

(** [arg] is the value of [*(rt_tick_t * )arg], which the result gives after the call. *)
Definition rt_timer_control (o : obj_id) (cmd arg : Z) : M (Z * Z) :=
  assert_type o RT_Object_Class_Timer;;
  if cmd =? RT_TIMER_CTRL_GET_TIME then
    tm ← get_timer o; mret (RT_EOK, tm_init_tick tm)
  else if cmd =? RT_TIMER_CTRL_SET_TIME then
    upd_timer o (set_tm_init_tick arg);; mret (RT_EOK, arg)
  else if cmd =? RT_TIMER_CTRL_SET_ONESHOT then
    upd_object o (fun x => set_obj_flag (obj_flag x .&~ RT_TIMER_FLAG_PERIODIC) x);;
    mret (RT_EOK, arg)
  else if cmd =? RT_TIMER_CTRL_SET_PERIODIC then
    upd_object o (fun x => set_obj_flag (obj_flag x .| RT_TIMER_FLAG_PERIODIC) x);;
    mret (RT_EOK, arg)
  else mret (RT_EOK, arg).

Definition rt_timer_next_timeout_tick : M Z := rt_timer_list_next_timeout.

Definition rt_system_timer_init : M unit := modify (set_rt_timer_list []).

(** What a timer promises to call: [t->timeout_func(t->parameter)]. *)
Class TimeoutCalls := timeout_func : callback -> M unit.

Section rt_timer_check.
Context `{TimeoutCalls}.

(** The body of the loop of [rt_timer_check] for a timer that is due. *)
Definition timer_fire (o : obj_id) : M unit :=
  _rt_timer_remove o;;
  tm ← get_timer o;
  timeout_func (tm_timeout_func tm);;
  x ← get_object o;
  if periodic x && activated x then
    upd_object o clear_activated;;
    rt_timer_start o;;
    mret tt
  else upd_object o clear_activated.

(** [fuel] bounds the number of timers that fire. *)
Fixpoint timer_check_loop (fuel : nat) (current_tick : Z) : M unit :=
  match fuel with
  | O => rt_panic
  | S fuel =>
      l ← gets rt_timer_list;
      match l with
      | [] => mret tt
      | o :: _ =>
          t ← get_timer o;
          if u32 (current_tick - tm_timeout_tick t) <? RT_TICK_MAX / 2 then
            timer_fire o;;
            current_tick ← rt_tick_get;
            timer_check_loop fuel current_tick
          else mret tt
      end
  end.

Definition rt_timer_check (fuel : nat) : M unit :=
  current_tick ← rt_tick_get; timer_check_loop fuel current_tick.
End rt_timer_check.

(** ** The invariant of the timer list *)

Abbreviation TIMER_MAX := 2147483647.

(** [RT_TICK_MAX / 2] *)
Lemma timer_max : RT_TICK_MAX / 2 = TIMER_MAX.
Proof. reflexivity. Qed.

Definition timer_typed (x : rt_object) : Prop :=
  obj_type x .&~ RT_Object_Class_Static = RT_Object_Class_Timer.

(** The ticks from [now] to the timeout, negative once it is past. *)
Definition tdelta (now : Z) (tm : rt_timer) : Z := s32 (tm_timeout_tick tm - now).
Definition tdelta_at (ts : gmap obj_id rt_timer) (now : Z) (o : obj_id) : Z :=
  match ts !! o with Some tm => tdelta now tm | None => 0 end.

(** The list holds the activated timers, sorted by timeout; [lo] bounds how late a timer is and [X]
    is a timer whose timeout function is being called. *)
Record timers_ok (lo now : Z) (ts : gmap obj_id rt_timer) (objs : gmap obj_id rt_object)
    (l : list obj_id) (X : option obj_id) : Prop := {
  tk_nodup : NoDup l;
  tk_elem : forall o, o ∈ l -> Some o ≠ X /\ exists tm x, ts !! o = Some tm /\ objs !! o = Some x /\
    timer_typed x /\ activated x = true /\ lo <= tdelta now tm < TIMER_MAX;
  tk_act : forall o x, Some o ≠ X -> objs !! o = Some x -> timer_typed x -> activated x = true -> o ∈ l;
  tk_sorted : StronglySorted (fun a b => tdelta_at ts now a <= tdelta_at ts now b) l;
  tk_periodic : forall o x tm, objs !! o = Some x -> timer_typed x -> periodic x = true ->
    activated x = true -> ts !! o = Some tm -> 0 < tm_init_tick tm < TIMER_MAX;
}.

Definition timer_inv (lo : Z) (X : option obj_id) (s : kernel) : Prop :=
  timers_ok lo (rt_tick s) (timers s) (objects s) (rt_timer_list s) X.

(** ** Wrap-around of the tick *)

Lemma swrap_eqm w x : exists k, swrap w x = x + k * 2 ^ w.
Proof.
  unfold swrap. exists (- ((x + 2 ^ (w - 1)) / 2 ^ w)).
  pose proof (Z.mod_eq (x + 2 ^ (w - 1)) (2 ^ w)).
  destruct (Z.eq_dec (2 ^ w) 0) as [E|]; [rewrite E, Zmod_0_r; lia|lia].
Qed.

Lemma uwrap_eqm w x : exists k, uwrap w x = x + k * 2 ^ w.
Proof.
  unfold uwrap. exists (- (x / 2 ^ w)). pose proof (Z.mod_eq x (2 ^ w)).
  destruct (Z.eq_dec (2 ^ w) 0) as [E|]; [rewrite E, Zmod_0_r; lia|lia].
Qed.

Lemma uwrap_add_mult w x k : 0 <= w -> uwrap w (x + k * 2 ^ w) = uwrap w x.
Proof. intros. unfold uwrap. by rewrite Z_mod_plus_full. Qed.

Lemma swrap_add_mult w x k : 0 <= w -> swrap w (x + k * 2 ^ w) = swrap w x.
Proof.
  intros. unfold swrap. replace (x + k * 2 ^ w + 2 ^ (w - 1)) with (x + 2 ^ (w - 1) + k * 2 ^ w) by lia.
  by rewrite Z_mod_plus_full.
Qed.

Lemma u32_neg x : - 4294967296 <= x < 0 -> u32 x = x + 4294967296.
Proof.
  intros. rewrite <- (uwrap_add_mult 32 x 1) by lia. apply (uwrap_small 32).
  change (2 ^ 32) with 4294967296. lia.
Qed.

Lemma s32_small x : - 2147483648 <= x < 2147483648 -> s32 x = x.
Proof. apply (swrap_small 32). lia. Qed.

Lemma tick_compare now init tp :
  u32 (tp - u32 (now + init)) = u32 (s32 (tp - now) - init).
Proof.
  destruct (uwrap_eqm 32 (now + init)) as [k ->]. destruct (swrap_eqm 32 (tp - now)) as [j ->].
  rewrite <- (uwrap_add_mult 32 _ (k + j)) by lia. f_equal. lia.
Qed.

Lemma tick_late now tp : u32 (now - tp) = u32 (- s32 (tp - now)).
Proof.
  destruct (swrap_eqm 32 (tp - now)) as [j ->].
  rewrite <- (uwrap_add_mult 32 _ (- j)) by lia. f_equal. lia.
Qed.

Lemma tdelta_set now init tm : 0 <= init < TIMER_MAX ->
  tdelta now (set_tm_timeout_tick (u32 (now + init)) tm) = init.
Proof.
  intros. unfold tdelta. simpl. destruct (uwrap_eqm 32 (now + init)) as [k ->].
  replace (now + init + k * 2 ^ 32 - now) with (init + k * 2 ^ 32) by lia.
  rewrite swrap_add_mult by lia. apply s32_small. lia.
Qed.

Lemma tdelta_tick now tm : -1 < tdelta now tm < TIMER_MAX -> tdelta (u32 (now + 1)) tm = tdelta now tm - 1.
Proof.
  unfold tdelta. destruct (uwrap_eqm 32 (now + 1)) as [k ->].
  destruct (swrap_eqm 32 (tm_timeout_tick tm - now)) as [j E]. intros Hb.
  rewrite <- (s32_small (s32 (tm_timeout_tick tm - now) - 1)) by lia. rewrite E.
  rewrite <- (swrap_add_mult 32 _ (k + j)) by lia. f_equal. lia.
Qed.

(** [rt_timer_check]'s comparison tells the timers that are due. *)
Lemma tick_due now tm :
  -1 <= tdelta now tm < TIMER_MAX ->
  (u32 (now - tm_timeout_tick tm) <? RT_TICK_MAX / 2) = (tdelta now tm <=? 0).
Proof.
  intros Hb. rewrite tick_late. fold (tdelta now tm). rewrite timer_max.
  destruct (Z.leb_spec (tdelta now tm) 0).
  - rewrite u32_small by lia. lia.
  - rewrite u32_neg by lia. lia.
Qed.

(** ** The insertion *)

Lemma timer_insert_spec ts o now init l :
  (forall p, p ∈ l -> exists tm, ts !! p = Some tm /\ -1 <= tdelta now tm < TIMER_MAX) ->
  0 <= init < TIMER_MAX ->
  StronglySorted (fun a b => tdelta_at ts now a <= tdelta_at ts now b) l ->
  exists l1 l2, l = l1 ++ l2 /\ timer_insert ts o (u32 (now + init)) l = Some (l1 ++ o :: l2) /\
    (forall p, p ∈ l1 -> tdelta_at ts now p <= init) /\ (forall p, p ∈ l2 -> init < tdelta_at ts now p).
Proof.
  intros Hts Hi. induction l as [|p l IH]; intros Hs.
  - exists [], []. split_and!; [done..| |]; intros p Hp; by apply elem_of_nil in Hp.
  - apply StronglySorted_inv in Hs as [Hs Hall].
    destruct (Hts p) as (tm & Htm & Hb); [by left|].
    destruct IH as (l1 & l2 & -> & E & H1 & H2); [intros; apply Hts; by right|done|].
    assert (tdelta_at ts now p = tdelta now tm) as Ep by (unfold tdelta_at; by rewrite Htm).
    simpl. rewrite Htm. simpl. rewrite tick_compare, timer_max. fold (tdelta now tm).
    assert (tdelta now tm <= init -> exists l1' l2', p :: l1 ++ l2 = l1' ++ l2' /\
      cons p <$> timer_insert ts o (u32 (now + init)) (l1 ++ l2) = Some (l1' ++ o :: l2') /\
      (forall p, p ∈ l1' -> tdelta_at ts now p <= init) /\
      (forall p, p ∈ l2' -> init < tdelta_at ts now p)) as Hle.
    { intros. exists (p :: l1), l2. rewrite E. split_and!; [done..| |done].
      intros q [->|]%elem_of_cons; [lia|auto]. }
    destruct (Z.eqb_spec (u32 (tdelta now tm - init)) 0) as [E0|E0].
    { apply Hle. destruct (Z_lt_le_dec (tdelta now tm) init); [lia|]. rewrite u32_small in E0; lia. }
    destruct (Z.ltb_spec (u32 (tdelta now tm - init)) TIMER_MAX) as [El|El].
    + exists [], (p :: l1 ++ l2). split_and!; [done..| |].
      { intros q Hq. by apply elem_of_nil in Hq. }
      assert (init < tdelta now tm) as Hlt.
      { destruct (Z_lt_le_dec init (tdelta now tm)); [done|].
        destruct (Z.eq_dec (tdelta now tm) init) as [Ee|]; [by rewrite Ee, Z.sub_diag in E0|].
        rewrite u32_neg in El; lia. }
      intros q [->|Hq]%elem_of_cons; [lia|].
      rewrite Forall_forall in Hall. specialize (Hall q Hq). simpl in Hall. lia.
    + apply Hle. destruct (Z_lt_le_dec init (tdelta now tm)); [|lia]. rewrite u32_small in El; lia.
Qed.

(** ** How the steps keep the invariant *)

Lemma flag_clear f : Z.testbit (f .&~ RT_TIMER_FLAG_ACTIVATED) 0 = false.
Proof. rewrite Z.land_spec, Z.lnot_spec by lia. apply andb_false_r. Qed.

Lemma activated_bit x : activated x = Z.testbit (obj_flag x) 0.
Proof.
  unfold activated. destruct (Z.testbit (obj_flag x) 0) eqn:E.
  - apply negb_true_iff, Z.eqb_neq. intros E'. apply (f_equal (fun v => Z.testbit v 0)) in E'.
    by rewrite Z.land_spec, E in E'.
  - apply negb_false_iff, Z.eqb_eq. apply Z.bits_inj'. intros n Hn. rewrite Z.land_spec, Z.bits_0.
    destruct (Z.eq_dec n 0) as [->|]; [by rewrite E|].
    rewrite (Z.bits_above_log2 1 n) by (simpl; lia). apply andb_false_r.
Qed.

Lemma activated_clear x : activated (clear_activated x) = false.
Proof. rewrite activated_bit. apply flag_clear. Qed.

Lemma activated_set x : activated (set_activated x) = true.
Proof. rewrite activated_bit. unfold set_activated, set_obj_flag. cbn [obj_flag]. by rewrite Z.lor_spec, orb_true_r. Qed.

Lemma clear_activated_id x : activated x = false -> clear_activated x = x.
Proof.
  rewrite activated_bit. intros E. destruct x as [n ty f]. unfold clear_activated, set_obj_flag. cbn [obj_flag obj_name obj_type] in *.
  f_equal. apply Z.bits_inj'. intros i Hi. rewrite Z.land_spec, Z.lnot_spec by lia.
  destruct (Z.eq_dec i 0) as [->|]; [by rewrite E|].
  rewrite (Z.bits_above_log2 1 i) by (simpl; lia). apply andb_true_r.
Qed.

Lemma periodic_flag x f : (forall i, i = 1 -> Z.testbit f i = Z.testbit (obj_flag x) i) ->
  periodic (set_obj_flag f x) = periodic x.
Proof.
  intros H. unfold periodic. simpl. do 2 f_equal. apply Z.bits_inj'. intros i Hi. rewrite !Z.land_spec.
  destruct (Z.eq_dec i 1) as [->|]; [by rewrite H|].
  assert (Z.testbit RT_TIMER_FLAG_PERIODIC i = false) as ->; [|by rewrite !andb_false_r].
  destruct (Z.eq_dec i 0) as [->|]; [done|]. apply Z.bits_above_log2; simpl; lia.
Qed.

Lemma periodic_clear x : periodic (clear_activated x) = periodic x.
Proof. apply periodic_flag. intros ? ->. by rewrite Z.land_spec, andb_true_r. Qed.

Lemma periodic_set x : periodic (set_activated x) = periodic x.
Proof. apply periodic_flag. intros ? ->. by rewrite Z.lor_spec, orb_false_r. Qed.

Lemma timer_typed_flag f x : timer_typed (set_obj_flag f x) <-> timer_typed x.
Proof. done. Qed.

Lemma sorted_sublist {A} (R : A -> A -> Prop) (l1 l2 : list A) :
  l1 `sublist_of` l2 -> StronglySorted R l2 -> StronglySorted R l1.
Proof.
  induction 1 as [|x l1 l2 Hl IH|x l1 l2 Hl IH]; intros Hs; [constructor| |].
  - apply StronglySorted_inv in Hs as [Hs Ha]. constructor; [auto|].
    rewrite Forall_forall in *. intros y Hy. apply Ha. by eapply elem_of_sublist.
  - apply StronglySorted_inv in Hs as [Hs _]. auto.
Qed.

Lemma sorted_ext {A} (R R' : A -> A -> Prop) (l : list A) :
  (forall a b, a ∈ l -> b ∈ l -> R a b -> R' a b) -> StronglySorted R l -> StronglySorted R' l.
Proof.
  induction l as [|x l IH]; intros HR Hs; [constructor|].
  apply StronglySorted_inv in Hs as [Hs Ha]. constructor.
  - apply IH; [|done]. intros a b ??. apply HR; by right.
  - rewrite Forall_forall in *. intros y Hy. apply HR; [by left|by right|by apply Ha].
Qed.

Lemma sorted_insert {A} (R : A -> A -> Prop) (l1 l2 : list A) x :
  StronglySorted R (l1 ++ l2) -> (forall a, a ∈ l1 -> R a x) -> (forall b, b ∈ l2 -> R x b) ->
  StronglySorted R (l1 ++ x :: l2).
Proof.
  induction l1 as [|y l1 IH]; simpl; intros Hs H1 H2.
  - constructor; [done|]. by rewrite Forall_forall.
  - apply StronglySorted_inv in Hs as [Hs Ha]. constructor.
    + apply IH; [done| |done]. intros. apply H1. by right.
    + rewrite Forall_app in *. destruct Ha. split; [done|]. constructor; [apply H1; by left|done].
Qed.

Section timers_ok.
Context {now : Z} {ts : gmap obj_id rt_timer} {objs : gmap obj_id rt_object} {l : list obj_id}.
Implicit Types (o : obj_id) (x : rt_object).

Lemma timers_weaken lo lo' X : lo' <= lo -> timers_ok lo now ts objs l X -> timers_ok lo' now ts objs l X.
Proof.
  intros Hlo [H1 H2 H3 H4 H5]. split; try done. intros o Ho.
  destruct (H2 o Ho) as (?&tm&x&?&?&?&?&?). split; [done|]. exists tm, x. split_and!; [done..|lia|lia].
Qed.

(** A timer leaves the list and is no longer activated: [rt_timer_stop], the end of a timeout. *)
Lemma timers_stop lo X o x :
  timers_ok lo now ts objs l X -> objs !! o = Some x ->
  timers_ok lo now ts (<[o := clear_activated x]> objs) (list_del o l)
    (if decide (X = Some o) then None else X).
Proof.
  intros H Hx. split.
  - apply NoDup_list_del, H.
  - intros p [Hne Hp]%elem_of_list_del.
    destruct (tk_elem _ _ _ _ _ _ H p Hp) as (HpX & tm & y & ?). split; [by case_decide|]. exists tm, y. by rewrite lookup_insert_ne.
  - intros p y HpX. destruct (decide (p = o)) as [->|Hne].
    + rewrite lookup_insert_eq. intros [= <-] _. by rewrite activated_clear.
    + rewrite lookup_insert_ne by done. intros Hp Ht Ha. apply elem_of_list_del. split; [done|].
      eapply (tk_act _ _ _ _ _ _ H); [|done..]. case_decide; congruence.
  - eapply sorted_sublist; [|apply H]. apply sublist_filter.
  - intros p y tm. destruct (decide (p = o)) as [->|Hne].
    + rewrite lookup_insert_eq. intros [= <-] _ _. by rewrite activated_clear.
    + rewrite lookup_insert_ne by done. apply H.
Qed.

(** A timer's object is closed (detached or deleted): whatever replaces it is no timer. *)
Lemma timers_close lo o (objs' : gmap obj_id rt_object) :
  timers_ok lo now ts objs l None ->
  (forall p, p ≠ o -> objs' !! p = objs !! p) ->
  (forall x, objs' !! o = Some x -> timer_typed x -> activated x = false) ->
  timers_ok lo now ts objs' (list_del o l) None.
Proof.
  intros H Hne Ho. split.
  - apply NoDup_list_del, H.
  - intros p [Hp Hin]%elem_of_list_del. split; [done|].
    destruct (tk_elem _ _ _ _ _ _ H p Hin) as (_ & tm & y & ?). exists tm, y. by rewrite Hne.
  - intros p y _ Hy Ht Ha. destruct (decide (p = o)) as [->|].
    + by rewrite (Ho y) in Ha.
    + rewrite Hne in Hy by done. apply elem_of_list_del. split; [done|]. by eapply (tk_act _ _ _ _ _ _ H).
  - eapply sorted_sublist; [|apply H]. apply sublist_filter.
  - intros p y tm Hy Ht Hper Ha. destruct (decide (p = o)) as [->|].
    + by rewrite (Ho y) in Ha.
    + rewrite Hne in Hy by done. by eapply (tk_periodic _ _ _ _ _ _ H).
Qed.

(** Changes of objects that are no timers. *)
Lemma timers_objects lo X (objs' : gmap obj_id rt_object) :
  timers_ok lo now ts objs l X ->
  (forall o x, objs !! o = Some x -> timer_typed x -> objs' !! o = Some x) ->
  (forall o x, objs' !! o = Some x -> timer_typed x -> objs !! o = Some x) ->
  timers_ok lo now ts objs' l X.
Proof.
  intros H H1 H2. split; try apply H.
  - intros o Ho. destruct (tk_elem _ _ _ _ _ _ H o Ho) as (? & tm & x & ? & ? & ? & ?).
    split; [done|]. exists tm, x. split_and!; naive_solver.
  - intros o x ? Hx Ht. apply (tk_act _ _ _ _ _ _ H); auto.
  - intros o x tm Hx Ht. apply (tk_periodic _ _ _ _ _ _ H); auto.
Qed.

(** A change of a timer that is not activated. *)
Lemma timers_update lo X o tm :
  timers_ok lo now ts objs l X -> (forall x, objs !! o = Some x -> timer_typed x -> activated x = false) ->
  timers_ok lo now (<[o := tm]> ts) objs l X.
Proof.
  intros H Ha. assert (o ∉ l) as Hl.
  { intros Hin. destruct (tk_elem _ _ _ _ _ _ H o Hin) as (? & tm' & x & ? & Hx & Ht & Hact & _).
    rewrite (Ha x) in Hact; done. }
  split; try apply H.
  - intros p Hp. destruct (tk_elem _ _ _ _ _ _ H p Hp) as (? & tm' & x & ?). split; [done|].
    exists tm', x. rewrite lookup_insert_ne by (intros ->; done). done.
  - eapply sorted_ext; [|apply H]. intros a b Hia Hib. unfold tdelta_at.
    by rewrite !lookup_insert_ne by (intros ->; done).
  - intros p x tm' Hp Ht Hper Hact. destruct (decide (o = p)) as [->|].
    + by rewrite (Ha x) in Hact.
    + rewrite lookup_insert_ne by done. by eapply (tk_periodic _ _ _ _ _ _ H).
Qed.

(** [rt_timer_start] of a timer that is not activated. *)
Lemma timers_start lo o tm x l1 l2 init :
  timers_ok lo now ts objs l None -> lo <= 0 -> o ∉ l ->
  objs !! o = Some x -> timer_typed x ->
  0 <= init < TIMER_MAX -> init = tm_init_tick tm -> (periodic x = true -> 0 < init) ->
  l = l1 ++ l2 -> (forall p, p ∈ l1 -> tdelta_at ts now p <= init) ->
  (forall p, p ∈ l2 -> init <= tdelta_at ts now p) ->
  timers_ok lo now (<[o := set_tm_timeout_tick (u32 (now + init)) tm]> ts)
    (<[o := set_activated x]> objs) (l1 ++ o :: l2) None.
Proof.
  intros H Hlo Ho Hx Ht Hi Ei Hp El H1 H2.
  assert (forall p, p ∈ l1 ++ o :: l2 <-> p = o \/ p ∈ l) as Hmem by (intros; rewrite El; set_solver).
  assert (forall p, p ∈ l -> p ≠ o) as Hne by (intros p Hpl ->; done).
  assert (tdelta_at (<[o := set_tm_timeout_tick (u32 (now + init)) tm]> ts) now o = init) as Eo.
  { unfold tdelta_at. rewrite lookup_insert_eq. by apply tdelta_set. }
  assert (forall p, p ∈ l -> tdelta_at (<[o := set_tm_timeout_tick (u32 (now + init)) tm]> ts) now p
            = tdelta_at ts now p) as En.
  { intros p Hpl. unfold tdelta_at. by rewrite lookup_insert_ne by (intros ->; done). }
  split.
  - rewrite <- Permutation_middle, <- El. constructor; [done|apply H].
  - intros p [->|Hpl]%Hmem; (split; [done|]).
    + eexists _, _. rewrite !lookup_insert_eq. split_and!; [done..|apply activated_set| |].
      * rewrite tdelta_set by done. lia.
      * rewrite tdelta_set by done. lia.
    + destruct (tk_elem _ _ _ _ _ _ H p Hpl) as (_ & tm' & y & ?). exists tm', y.
      by rewrite !lookup_insert_ne by (intros ->; done).
  - intros p y _ Hy Hty Ha. apply Hmem. destruct (decide (p = o)) as [->|]; [by left|right].
    rewrite lookup_insert_ne in Hy by done. by eapply (tk_act _ _ _ _ _ _ H).
  - apply sorted_insert.
    + eapply sorted_ext; [|rewrite <- El; apply H]. rewrite <- El. intros a b ??. by rewrite !En.
    + intros a Ha. rewrite Eo, En by (rewrite El; set_solver). auto.
    + intros b Hb. rewrite Eo, En by (rewrite El; set_solver). auto.
  - intros p y tm' Hy Hty Hper Ha. destruct (decide (p = o)) as [->|].
    + rewrite lookup_insert_eq in Hy. rewrite lookup_insert_eq. injection Hy as <-. intros [= <-]. simpl.
      rewrite periodic_set in Hper. specialize (Hp Hper). lia.
    + rewrite lookup_insert_ne in Hy by done. rewrite lookup_insert_ne by done.
      by eapply (tk_periodic _ _ _ _ _ _ H).
Qed.

(** The timeout function of the first timer is about to be called. *)
Lemma timers_pop lo o l' :
  timers_ok lo now ts objs l None -> l = o :: l' -> timers_ok lo now ts objs l' (Some o).
Proof.
  intros H ->. pose proof (tk_nodup _ _ _ _ _ _ H) as [Hnd ?]%NoDup_cons. split; [done| | | |apply H].
  - intros p Hp. split; [congruence|]. by apply (tk_elem _ _ _ _ _ _ H); right.
  - intros p x Hne Hx Ht Ha. assert (p ∈ o :: l') as [->|]%elem_of_cons; [by eapply (tk_act _ _ _ _ _ _ H)|done|done].
  - by pose proof (tk_sorted _ _ _ _ _ _ H) as [? _]%StronglySorted_inv.
Qed.

(** One tick passes. *)
Lemma timers_tick : timers_ok 0 now ts objs l None -> timers_ok (-1) (u32 (now + 1)) ts objs l None.
Proof.
  intros H. assert (forall o, o ∈ l -> tdelta_at ts (u32 (now + 1)) o = tdelta_at ts now o - 1) as E.
  { intros o Ho. destruct (tk_elem _ _ _ _ _ _ H o Ho) as (_ & tm & x & Htm & _ & _ & _ & ?).
    unfold tdelta_at. rewrite Htm. apply tdelta_tick. lia. }
  split; try apply H.
  - intros o Ho. destruct (tk_elem _ _ _ _ _ _ H o Ho) as (? & tm & x & Htm & ? & ? & ? & ?).
    split; [done|]. exists tm, x. rewrite tdelta_tick by lia. split_and!; [done..|lia|lia].
  - eapply sorted_ext; [|apply H]. intros a b Ha Hb. rewrite !E by done. lia.
Qed.

(** Once no timer is due, none is late. *)
Lemma timers_none_due :
  timers_ok (-1) now ts objs l None -> (forall o l', l = o :: l' -> 0 < tdelta_at ts now o) ->
  timers_ok 1 now ts objs l None.
Proof.
  intros H Hd. split; try apply H. intros o Ho.
  destruct (tk_elem _ _ _ _ _ _ H o Ho) as (? & tm & x & Htm & ? & ? & ? & ?).
  split; [done|]. exists tm, x. split_and!; [done..| |lia].
  assert (0 < tdelta_at ts now o) as Hp; [|unfold tdelta_at in Hp; rewrite Htm in Hp; lia].
  pose proof (tk_sorted _ _ _ _ _ _ H) as Hs. destruct l as [|p l']; [by apply elem_of_nil in Ho|].
  specialize (Hd p l' eq_refl). apply StronglySorted_inv in Hs as [_ Ha].
  apply elem_of_cons in Ho as [->|Ho]; [done|]. rewrite Forall_forall in Ha. specialize (Ha o Ho). simpl in Ha. lia.
Qed.
End timers_ok.

(** ** Specifications of the operations *)

Definition timer_stopped (o : obj_id) (x : rt_object) (s : kernel) : kernel :=
  set_objects (<[o := clear_activated x]> (objects s)) (set_rt_timer_list (list_del o (rt_timer_list s)) s).

Definition timer_started (o : obj_id) (x : rt_object) (tm : rt_timer) (l : list obj_id) (s : kernel)
    : kernel :=
  set_objects (<[o := set_activated (clear_activated x)]> (objects s))
    (set_rt_timer_list l (set_random_nr (u32 (random_nr s + 1))
      (set_timers (<[o := set_tm_timeout_tick (u32 (rt_tick s + tm_init_tick tm)) tm]> (timers s)) s))).

Lemma timer_stopped_inv lo X o x s :
  timer_inv lo X s -> objects s !! o = Some x ->
  timer_inv lo (if decide (X = Some o) then None else X) (timer_stopped o x s).
Proof. intros. by eapply timers_stop. Qed.

Lemma timer_not_activated_notin lo X o x s :
  timer_inv lo X s -> objects s !! o = Some x -> activated x = false -> o ∉ rt_timer_list s.
Proof.
  intros H Hx Ha Hin. destruct (tk_elem _ _ _ _ _ _ H o Hin) as (_ & tm & y & _ & Hy & _ & Hact & _).
  simplify_eq. congruence.
Qed.

Lemma timer_stopped_id lo X o x s :
  timer_inv lo X s -> objects s !! o = Some x -> activated x = false -> timer_stopped o x s = s.
Proof.
  intros H Hx Ha. unfold timer_stopped. rewrite clear_activated_id, insert_id by done.
  rewrite list_del_notin by (by eapply timer_not_activated_notin). by destruct s.
Qed.

Lemma wp_timer_remove o Q s :
  wp (_rt_timer_remove o) Q s <-> Q tt (set_rt_timer_list (list_del o (rt_timer_list s)) s).
Proof. done. Qed.

Lemma wp_tick_get Q s : wp rt_tick_get Q s <-> Q (rt_tick s) s.
Proof. done. Qed.

#[global] Hint Rewrite wp_timer_remove wp_tick_get : wp.

Lemma wp_timer_stop lo X o x Q s :
  timer_inv lo X s -> objects s !! o = Some x -> timer_typed x ->
  Q (if activated x then RT_EOK else - RT_ERROR) (timer_stopped o x s) -> wp (rt_timer_stop o) Q s.
Proof.
  intros H Hx Ht HQ. unfold rt_timer_stop. wp_norm. exists x. split_and!; [done..|]. wp_norm.
  exists x. split; [done|]. destruct (activated x) eqn:Ha; simpl; wp_norm.
  - exists x. split; [done|]. by wp_norm.
  - by erewrite timer_stopped_id in HQ.
Qed.

Lemma wp_timer_start lo o x tm Q s :
  timer_inv lo None s -> -1 <= lo <= 0 -> objects s !! o = Some x -> timer_typed x ->
  timers s !! o = Some tm -> 0 <= tm_init_tick tm < TIMER_MAX ->
  (periodic x = true -> 0 < tm_init_tick tm) ->
  (forall l1 l2, list_del o (rt_timer_list s) = l1 ++ l2 ->
     (forall p, p ∈ l1 -> tdelta_at (timers s) (rt_tick s) p <= tm_init_tick tm) ->
     (forall p, p ∈ l2 -> tm_init_tick tm < tdelta_at (timers s) (rt_tick s) p) ->
     timer_inv lo None (timer_started o x tm (l1 ++ o :: l2) s) ->
     Q RT_EOK (timer_started o x tm (l1 ++ o :: l2) s)) ->
  wp (rt_timer_start o) Q s.
Proof.
  intros H Hlo Hx Ht Htm Hi Hper HQ. unfold rt_timer_start. wp_norm. exists x. split_and!; [done..|].
  wp_norm. exists x. split; [done|]. wp_norm. exists tm. split; [done|].
  wp_norm. rewrite timer_max. split; [lia|]. exists tm. split; [done|]. wp_norm. simpl.
  rewrite wp_getso. simpl.
  set (tm' := set_tm_timeout_tick (u32 (rt_tick s + tm_init_tick tm)) tm).
  pose proof (timers_stop lo None o x H Hx) as H1.
  assert (o ∉ list_del o (rt_timer_list s)) as Hnot by (rewrite elem_of_list_del; naive_solver).
  pose proof (timers_update lo None o tm' H1) as H2.
  destruct (timer_insert_spec (<[o := tm']> (timers s)) o (rt_tick s) (tm_init_tick tm)
              (list_del o (rt_timer_list s))) as (l1 & l2 & El & E & Hl1 & Hl2).
  - intros p Hp. destruct (tk_elem _ _ _ _ _ _ H1 p Hp) as (_ & tmp & y & Hy & _ & _ & _ & ?).
    exists tmp. rewrite lookup_insert_ne by (intros ->; done). split; [done|lia].
  - done.
  - apply H2. intros y. rewrite lookup_insert_eq. intros [= <-] _. apply activated_clear.
  - exists (l1 ++ o :: l2). split; [done|]. wp_norm. exists (clear_activated x).
    split; [simpl; by rewrite lookup_insert_eq|]. simpl. rewrite insert_insert_eq.
    assert (forall p, p ∈ l1 ++ l2 -> tdelta_at (<[o := tm']> (timers s)) (rt_tick s) p = tdelta_at (timers s) (rt_tick s) p) as En.
    { intros p Hp. unfold tdelta_at. rewrite lookup_insert_ne; [done|]. intros ->. by rewrite <- El in Hp. }
    apply HQ; [done| | |].
    + intros p Hp. rewrite <- En by set_solver. auto.
    + intros p Hp. rewrite <- En by set_solver. auto.
    + unfold timer_inv, timer_started. simpl.
      rewrite <- (insert_insert_eq (objects s) o (set_activated (clear_activated x)) (clear_activated x)).
      eapply (timers_start lo o tm (clear_activated x)); [exact H1|lia|done|by rewrite lookup_insert_eq|done|done|done| |done| |].
      * rewrite periodic_clear. auto.
      * intros p Hp. rewrite <- En by set_solver. auto.
      * intros p Hp. rewrite <- En by set_solver. apply Z.lt_le_incl. auto.
Qed.

(** Setting the time of a timer that is not activated. *)
Lemma wp_timer_set_time o x tm v Q s :
  objects s !! o = Some x -> timer_typed x -> timers s !! o = Some tm ->
  Q (RT_EOK, v) (set_timers (<[o := set_tm_init_tick v tm]> (timers s)) s) ->
  wp (rt_timer_control o RT_TIMER_CTRL_SET_TIME v) Q s.
Proof.
  intros Hx Ht Htm HQ. unfold rt_timer_control. wp_norm. exists x. split_and!; [done..|].
  simpl. wp_norm. exists tm. split; [done|]. by wp_norm.
Qed.

(** ** [rt_timer_check] *)

(** What a timeout function leaves alone. *)
Record timer_frame (s s' : kernel) : Prop := {
  tf_timers : timers s' = timers s;
  tf_list : rt_timer_list s' = rt_timer_list s;
  tf_tick : rt_tick s' = rt_tick s;
  tf_objects : objects s' = objects s;
}.

#[export] Instance timer_frame_preorder : PreOrder timer_frame.
Proof. split; [by intros s; split|]. intros s1 s2 s3 [] []. split; congruence. Qed.

Lemma timer_frame_inv lo X s s' : timer_frame s s' -> timer_inv lo X s -> timer_inv lo X s'.
Proof. unfold timer_inv. intros [-> -> -> ->]. done. Qed.

(** The timers that are due, in their order. *)
Definition due (s : kernel) : list obj_id :=
  filter (fun o => tdelta_at (timers s) (rt_tick s) o <= 0) (rt_timer_list s).

Lemma due_cons lo s o l :
  timer_inv lo None s -> rt_timer_list s = o :: l -> 0 < tdelta_at (timers s) (rt_tick s) o -> due s = [].
Proof.
  intros H El Hd. unfold due. rewrite El. pose proof (tk_sorted _ _ _ _ _ _ H) as Hs. rewrite El in Hs.
  apply StronglySorted_inv in Hs as [_ Ha]. rewrite Forall_forall in Ha.
  assert (forall p, p ∈ o :: l -> ~ tdelta_at (timers s) (rt_tick s) p <= 0) as Hn.
  { intros p [->|Hp]%elem_of_cons; [lia|]. specialize (Ha p Hp). simpl in Ha. lia. }
  clear - Hn. induction (o :: l) as [|q ql IH]; [done|]. rewrite filter_cons_False.
  - apply IH. intros. apply Hn. by right.
  - apply Hn. by left.
Qed.

(** The state after the timeout function of the timer [o] with object [x] has returned in [s']. *)
Inductive fired (o : obj_id) (x : rt_object) (tm : rt_timer) (s' : kernel) : kernel -> Prop :=
| fired_once : periodic x = false -> fired o x tm s' (set_objects (<[o := clear_activated x]> (objects s')) s')
| fired_again l1 l2 :
    periodic x = true -> rt_timer_list s' = l1 ++ l2 ->
    fired o x tm s' (timer_started o (clear_activated x) tm (l1 ++ o :: l2)
      (set_objects (<[o := clear_activated x]> (objects s')) s')).

Section check_spec.
Context `{TimeoutCalls}.

(** The timeout function keeps the invariant of the list and the timer that is firing. *)
Lemma wp_timer_fire o l tm x Q s :
  timer_inv (-1) None s -> rt_timer_list s = o :: l -> timers s !! o = Some tm -> objects s !! o = Some x ->
  (timer_inv (-1) (Some o) (set_rt_timer_list l s) ->
   wp (timeout_func (tm_timeout_func tm))
    (fun _ s' => timer_inv (-1) (Some o) s' /\ timers s' !! o = Some tm /\ objects s' !! o = Some x /\
       forall s1, fired o x tm s' s1 -> timer_inv (-1) None s1 -> due s1 = due s' -> Q tt s1)
    (set_rt_timer_list l s)) ->
  wp (timer_fire o) Q s.
Proof.
  intros Hinv El Htm Hx Hcall. unfold timer_fire. wp_norm. rewrite El.
  pose proof (tk_nodup _ _ _ _ _ _ Hinv) as Hnd. rewrite El in Hnd. apply NoDup_cons in Hnd as [Hnot Hnd].
  rewrite list_del_head by done. exists tm. split; [done|]. wp_norm. eapply wp_mono.
  { apply Hcall. exact (timers_pop (-1) o l Hinv El). }
  intros [] s' (Hinv' & Htm' & Hx' & HQ). wp_norm.
  destruct (tk_elem _ _ _ _ _ _ Hinv o) as (_ & tm' & x' & E1 & E2 & Hty & Hact & Hb); [rewrite El; by left|].
  rewrite Htm in E1. rewrite Hx in E2. injection E1 as <-. injection E2 as <-.
  exists x. split; [done|]. rewrite Hact, andb_true_r.
  assert (o ∉ rt_timer_list s') as Hnot'.
  { intros Hin. by destruct (tk_elem _ _ _ _ _ _ Hinv' o Hin) as [? _]. }
  assert (timer_inv (-1) None (set_objects (<[o := clear_activated x]> (objects s')) s')) as Hinv1.
  { pose proof (timers_stop (-1) (Some o) o x Hinv' Hx') as Hs.
    rewrite decide_True, list_del_notin in Hs by done. exact Hs. }
  destruct (periodic x) eqn:Hp.
  - wp_norm. exists x. split; [done|]. wp_norm.
    pose proof (tk_periodic _ _ _ _ _ _ Hinv o x tm Hx Hty Hp Hact Htm) as Hi.
    eapply wp_timer_start; [exact Hinv1|lia|simpl; by rewrite lookup_insert_eq|done|done|lia|lia|].
    simpl. rewrite (list_del_notin o (rt_timer_list s')) by done. intros l1 l2 El' Hl1 Hl2 Hinv2. wp_norm.
    apply HQ; [by constructor|done|].
    unfold due. simpl. rewrite El', !filter_app, filter_cons_False.
    + assert (forall p, p ∈ l1 ++ l2 -> tdelta_at (<[o := set_tm_timeout_tick (u32 (rt_tick s' + tm_init_tick tm)) tm]> (timers s')) (rt_tick s') p = tdelta_at (timers s') (rt_tick s') p) as En.
      { intros p Hp'. unfold tdelta_at. rewrite lookup_insert_ne; [done|]. intros ->. by rewrite <- El' in Hp'. }
      rewrite <- !filter_app. apply filter_ext_in. intros p Hp'. by rewrite En.
    + unfold tdelta_at. rewrite lookup_insert_eq, tdelta_set by lia. lia.
  - wp_norm. exists x. split; [done|]. apply HQ; [by constructor|done|done].
Qed.
End check_spec.

(** ** The invariant as a check *)

Definition timer_typedb (x : rt_object) : bool :=
  obj_type x .&~ RT_Object_Class_Static =? RT_Object_Class_Timer.

Fixpoint sortedb (f : obj_id -> Z) (l : list obj_id) : bool :=
  match l with
  | [] => true
  | a :: l => forallb (fun b => f a <=? f b) l && sortedb f l
  end.

Definition timer_invb (lo : Z) (s : kernel) : bool :=
  bool_decide (NoDup (rt_timer_list s)) &&
  forallb (fun o => match timers s !! o, objects s !! o with
                    | Some tm, Some x => timer_typedb x && activated x &&
                        (lo <=? tdelta (rt_tick s) tm) && (tdelta (rt_tick s) tm <? TIMER_MAX)
                    | _, _ => false
                    end) (rt_timer_list s) &&
  forallb (fun ox : obj_id * rt_object => negb (timer_typedb ox.2 && activated ox.2) ||
    (bool_decide (ox.1 ∈ rt_timer_list s) &&
     match timers s !! ox.1 with
     | Some tm => negb (periodic ox.2) || (0 <? tm_init_tick tm) && (tm_init_tick tm <? TIMER_MAX)
     | None => true
     end)) (map_to_list (objects s)) &&
  sortedb (tdelta_at (timers s) (rt_tick s)) (rt_timer_list s).

Lemma sortedb_sound f l : sortedb f l = true -> StronglySorted (fun a b => f a <= f b) l.
Proof.
  induction l as [|a l IH]; simpl; [constructor|]. rewrite andb_true_iff, forallb_forall. intros [Ha Hs].
  constructor; [auto|]. rewrite Forall_forall. intros b Hb. specialize (Ha b (proj1 (list_elem_of_In _ _) Hb)). lia.
Qed.

Lemma timer_invb_sound lo s : timer_invb lo s = true -> timer_inv lo None s.
Proof.
  unfold timer_invb. rewrite !andb_true_iff, bool_decide_eq_true. intros (((Hnd & Hel) & Hob) & Hso).
  rewrite forallb_forall in Hel.
  assert (forall o x, objects s !! o = Some x -> timer_typed x -> activated x = true ->
    o ∈ rt_timer_list s /\ forall tm, timers s !! o = Some tm -> periodic x = true ->
      0 < tm_init_tick tm < TIMER_MAX) as Hact.
  { intros o x Hx Ht Ha. apply (forallb_map_to_list _ _ Hob) in Hx. simpl in Hx.
    unfold timer_typedb in Hx. rewrite Ht, Ha in Hx. simpl in Hx.
    apply andb_true_iff in Hx as [Hx1 Hx2]. apply bool_decide_eq_true in Hx1. split; [done|].
    intros tm Htm Hp. rewrite Htm, Hp in Hx2. simpl in Hx2. lia. }
  split; [done| | |by apply sortedb_sound|].
  - intros o Ho. split; [done|]. specialize (Hel o (proj1 (list_elem_of_In _ _) Ho)).
    destruct (timers s !! o) as [tm|]; [|done]. destruct (objects s !! o) as [x|]; [|done].
    exists tm, x. unfold timer_typed, timer_typedb in *. rewrite !andb_true_iff, Z.eqb_eq in Hel. destruct Hel as (((Ht & Ha) & Hl) & Hh). split_and!; [done..| |]; lia.
  - intros o x _ Hx Ht Ha. by apply (Hact o x).
  - intros o x tm Hx Ht Hp Ha Htm. by apply (Hact o x).
Qed.

(** A state one tick after the timers 0 (one shot) and 1 (periodic) were due, across the wrap-around
    of the tick, with the timer 2 to come and the timer 3 not started. *)
Definition demo_timer (t flag : Z) : rt_object := mkObject "t" RT_Object_Class_Timer flag.
Definition demo_timers : kernel :=
  mkKernel ∅ {[ OTimer 0 := demo_timer 0 1; OTimer 1 := demo_timer 1 3; OTimer 2 := demo_timer 2 1;
                OTimer 3 := demo_timer 3 0 ]}
    ∅ ∅ 0 None 0 0 0 0
    {[ OTimer 0 := mkTimer (CbUser 0) 5 4294967295; OTimer 1 := mkTimer (CbUser 1) 6 0;
       OTimer 2 := mkTimer (CbUser 2) 9 7; OTimer 3 := mkTimer (CbUser 3) 2147483646 0 ]}
    [OTimer 0; OTimer 1; OTimer 2] 0 ∅ ∅ ∅ ∅ ∅.

(** What the clients of [rt_timer_check] promise: what a timeout function does to the timers is to stop some of
    them, itself or others, as [rt_timer_stop] does, and so also [rt_thread_resume] of a thread that waits. *)
Definition stops (K : list obj_id) (s s' : kernel) : Prop :=
  timers s' = timers s /\ rt_tick s' = rt_tick s /\
  rt_timer_list s' = filter (fun o => o ∉ K) (rt_timer_list s) /\
  forall o, objects s' !! o = if decide (o ∈ K) then clear_activated <$> objects s !! o else objects s !! o.

Class TimeoutStops `{TimeoutCalls} :=
  timeout_stops : forall cb s a s', timeout_func cb s = Some (a, s') -> exists K, stops K s s'.

(** What becomes of the timer [o] when its function has returned in [s]: a periodic timer that is still
    active runs again for its period, behind the timers that expire no later; any other one is inactive. *)
Inductive settled (o : obj_id) (s : kernel) : kernel -> Prop :=
| settled_idle x :
    objects s !! o = Some x -> periodic x && activated x = false ->
    settled o s (set_objects (<[o := clear_activated x]> (objects s)) s)
| settled_again x tm l1 l2 :
    objects s !! o = Some x -> periodic x && activated x = true -> timers s !! o = Some tm ->
    rt_timer_list s = l1 ++ l2 ->
    (forall p, p ∈ l1 -> tdelta_at (timers s) (rt_tick s) p <= tm_init_tick tm) ->
    (forall p, p ∈ l2 -> tm_init_tick tm < tdelta_at (timers s) (rt_tick s) p) ->
    settled o s (set_rt_timer_list (l1 ++ o :: l2) (set_random_nr (u32 (random_nr s + 1))
      (set_timers (<[o := set_tm_timeout_tick (u32 (rt_tick s + tm_init_tick tm)) tm]> (timers s)) s))).

(** The timers of a list expire one after the other: each leaves the list, its function is called
    and the timer settles, unless the function of an earlier one has stopped it. *)
Inductive expire `{TimeoutCalls} : list obj_id -> kernel -> kernel -> Prop :=
| expire_nil s : expire [] s s
| expire_stopped o os s s' : o ∉ rt_timer_list s -> expire os s s' -> expire (o :: os) s s'
| expire_call o os tm s s1 s2 s' :
    o ∈ rt_timer_list s -> timers s !! o = Some tm ->
    timeout_func (tm_timeout_func tm) (set_rt_timer_list (list_del o (rt_timer_list s)) s) = Some (tt, s1) ->
    settled o s1 s2 -> expire os s2 s' -> expire (o :: os) s s'.

Lemma split_at_unique {A} (f : A -> Z) c (l1 l2 l1' l2' : list A) :
  l1 ++ l2 = l1' ++ l2' -> (forall p, p ∈ l1 -> f p <= c) -> (forall p, p ∈ l2 -> c < f p) ->
  (forall p, p ∈ l1' -> f p <= c) -> (forall p, p ∈ l2' -> c < f p) -> l1 = l1' /\ l2 = l2'.
Proof.
  revert l1'. induction l1 as [|a l1 IH]; intros [|b l1'] E H1 H2 H3 H4; simpl in *; subst.
  - done.
  - specialize (H2 b ltac:(by left)). specialize (H3 b ltac:(by left)). lia.
  - specialize (H1 a ltac:(by left)). specialize (H4 a ltac:(by left)). lia.
  - injection E as -> E. destruct (IH l1' E) as [-> ->]; [|done..| |done|done]; intros p Hp; [apply H1|apply H3]; by right.
Qed.

Lemma settled_det o s a b : settled o s a -> settled o s b -> a = b.
Proof.
  intros [x Hx Hp|x tm l1 l2 Hx Hp Htm El H1 H2] [y Hy Hq|y tm' l1' l2' Hy Hq Htm' El' H1' H2']; simplify_eq; try congruence.
  rewrite El in El'. destruct (split_at_unique _ _ _ _ _ _ El' H1 H2 H1' H2') as [-> ->]. done.
Qed.

(** Some timers are stopped while the timer [o] is firing. *)
Lemma stops_inv K lo o s s' : timer_inv lo (Some o) s -> stops K s s' -> timer_inv lo (Some o) s'.
Proof.
  intros H (Ets & Eti & El & Eo). unfold timer_inv. rewrite Ets, Eti, El.
  assert (forall p x, objects s' !! p = Some x -> activated x = true -> p ∉ K /\ objects s !! p = Some x) as Hback.
  { intros p x. rewrite Eo. case_decide; [|done]. destruct (objects s !! p); simpl; [|done]. intros [= <-]. by rewrite activated_clear. }
  split.
  - apply NoDup_filter, H.
  - intros p [HK Hp]%list_elem_of_filter. destruct (tk_elem _ _ _ _ _ _ H p Hp) as (? & tm & x & ? & ? & ?).
    split; [done|]. exists tm, x. rewrite Eo, decide_False by done. done.
  - intros p x Hne Hx Ht Ha. destruct (Hback p x Hx Ha) as [HK Hx']. apply list_elem_of_filter. split; [done|].
    by eapply (tk_act _ _ _ _ _ _ H).
  - eapply sorted_sublist; [apply sublist_filter|apply H].
  - intros p x tm Hx Ht Hp Ha. destruct (Hback p x Hx Ha). by eapply (tk_periodic _ _ _ _ _ _ H).
Qed.

Lemma set_clear_activated x : activated x = true -> set_activated (clear_activated x) = x.
Proof.
  rewrite activated_bit. intros E. destruct x as [n ty f]. unfold set_activated, clear_activated, set_obj_flag. cbn [obj_flag obj_name obj_type] in *.
  f_equal. apply Z.bits_inj'. intros i Hi. rewrite Z.lor_spec, Z.land_spec, Z.lnot_spec by lia.
  destruct (Z.eq_dec i 0) as [->|]; [by rewrite E|].
  rewrite (Z.bits_above_log2 1 i) by (simpl; lia). by rewrite andb_true_r, orb_false_r.
Qed.

Section check_refines.
Context `{TimeoutStops}.

(** The first timer fires, and its function returns in [s1]. *)
Lemma wp_timer_fire_settled o l tm s s1 Q :
  timer_inv (-1) None s -> rt_timer_list s = o :: l -> timers s !! o = Some tm ->
  timeout_func (tm_timeout_func tm) (set_rt_timer_list l s) = Some (tt, s1) ->
  (forall s2, settled o s1 s2 -> timer_inv (-1) None s2 -> due s2 = due s1 -> (forall p, p ≠ o -> p ∈ rt_timer_list s2 <-> p ∈ rt_timer_list s1) ->
     Q tt s2) -> wp (timer_fire o) Q s.
Proof.
  intros Hinv El Htm Es1 HQ. destruct (tk_elem _ _ _ _ _ _ Hinv o) as (_ & tm' & x0 & E1 & Hx0 & Hty & Hact0 & Hb); [rewrite El; by left|].
  rewrite Htm in E1. injection E1 as <-.
  pose proof (tk_nodup _ _ _ _ _ _ Hinv) as Hnd. rewrite El in Hnd. apply NoDup_cons in Hnd as [Hnot Hnd].
  destruct (timeout_stops _ _ _ _ Es1) as [K HK].
  assert (timer_inv (-1) (Some o) s1) as Hinv1 by (eapply (stops_inv K (-1) o (set_rt_timer_list l s)); [exact (timers_pop (-1) o l Hinv El)|exact HK]).
  destruct HK as (Ets & Eti & Els & Eo). simpl in Ets, Eti, Els, Eo.
  assert (exists x, objects s1 !! o = Some x /\ timer_typed x /\ periodic x = periodic x0) as (x & Hx & Hxt & Hxp).
  { rewrite Eo, Hx0. case_decide; simpl; eexists; split_and!; try done. apply periodic_clear. }
  unfold timer_fire. wp_norm. rewrite El, list_del_head by done. exists tm. split; [done|]. wp_norm.
  rewrite (wp_eq _ _ _ _ _ Es1). wp_norm. exists x. split; [done|].
  assert (o ∉ rt_timer_list s1) as Hnot1 by (rewrite Els, list_elem_of_filter; tauto).
  assert (timer_inv (-1) None (set_objects (<[o := clear_activated x]> (objects s1)) s1)) as Hinv2.
  { pose proof (timers_stop (-1) (Some o) o x Hinv1 Hx) as Hs. rewrite decide_True, list_del_notin in Hs by done. exact Hs. }
  destruct (periodic x && activated x) eqn:Hpa.
  - apply andb_true_iff in Hpa as [Hp Ha]. wp_norm. exists x. split; [done|]. wp_norm.
    pose proof (tk_periodic _ _ _ _ _ _ Hinv o x0 tm Hx0 Hty ltac:(congruence) Hact0 Htm) as Hi.
    assert (timers s1 !! o = Some tm) as Htm1 by (by rewrite Ets).
    eapply wp_timer_start; [exact Hinv2|lia|simpl; by rewrite lookup_insert_eq|done|exact Htm1|lia|lia|].
    simpl. rewrite (list_del_notin o (rt_timer_list s1)) by done. intros l1 l2 El' Hl1 Hl2 Hinv3. wp_norm.
    assert (timer_started o (clear_activated x) tm (l1 ++ o :: l2) (set_objects (<[o := clear_activated x]> (objects s1)) s1) =
      set_rt_timer_list (l1 ++ o :: l2) (set_random_nr (u32 (random_nr s1 + 1))
      (set_timers (<[o := set_tm_timeout_tick (u32 (rt_tick s1 + tm_init_tick tm)) tm]> (timers s1)) s1))) as Est.
    { unfold timer_started. simpl. rewrite (clear_activated_id (clear_activated x)) by apply activated_clear.
      rewrite set_clear_activated, insert_insert_eq, insert_id by done. by destruct s1. }
    rewrite Est in Hinv3 |- *. apply HQ; [econstructor; [done|by rewrite Hp, Ha|done..]|done| |].
    + unfold due. simpl. rewrite El', !filter_app, filter_cons_False.
      * rewrite <- !filter_app. apply filter_ext_in. intros p Hp'. unfold tdelta_at. rewrite lookup_insert_ne; [done|]. intros ->. by rewrite <- El' in Hp'.
      * unfold tdelta_at. rewrite lookup_insert_eq, tdelta_set by lia. lia.
    + simpl. rewrite El'. intros p Hp'. set_solver.
  - wp_norm. exists x. split; [done|]. apply HQ; [by econstructor|done|done|done].
Qed.

Lemma timer_check_step n s o l tm :
  rt_timer_list s = o :: l -> timers s !! o = Some tm -> -1 <= tdelta (rt_tick s) tm < TIMER_MAX ->
  timer_check_loop (S n) (rt_tick s) s =
    (if tdelta (rt_tick s) tm <=? 0
     then match timer_fire o s with
          | Some (_, s1) => timer_check_loop n (rt_tick s1) s1
          | None => None
          end
     else Some (tt, s)).
Proof.
  intros El Htm Hb. simpl. unfold mbind at 1, stM_bind at 1, gets at 1. rewrite El.
  unfold mbind at 1, stM_bind at 1, get_timer at 1, getso at 1. rewrite Htm, tick_due by lia.
  by destruct (Z.leb_spec (tdelta (rt_tick s) tm) 0).
Qed.

Lemma check_loop_idle n s : timer_inv (-1) None s -> due s = [] -> timer_check_loop (S n) (rt_tick s) s = Some (tt, s).
Proof.
  intros Hinv Hd. destruct (rt_timer_list s) as [|o l] eqn:El.
  - simpl. unfold mbind, stM_bind, gets. by rewrite El.
  - destruct (tk_elem _ _ _ _ _ _ Hinv o) as (_ & tm & x & Htm & Hx & Hty & Hact & Hb); [rewrite El; by left|].
    erewrite timer_check_step by done. destruct (Z.leb_spec (tdelta (rt_tick s) tm) 0) as [Hle|]; [|done].
    unfold due in Hd. rewrite El, filter_cons_True in Hd; [done|]. unfold tdelta_at. by rewrite Htm.
Qed.

(** The first due timer is the head of the list. *)
Lemma due_head s o os : timer_inv (-1) None s -> due s = o :: os ->
  exists l tm, rt_timer_list s = o :: l /\ o ∉ l /\ timers s !! o = Some tm /\ -1 <= tdelta (rt_tick s) tm <= 0 /\
    filter (fun p => tdelta_at (timers s) (rt_tick s) p <= 0) l = os.
Proof.
  intros Hinv Hd. destruct (rt_timer_list s) as [|p l] eqn:El; [by unfold due in Hd; rewrite El in Hd|].
  destruct (tk_elem _ _ _ _ _ _ Hinv p) as (_ & tm & x & Htm & Hx & Hty & Hact & Hb); [rewrite El; by left|].
  pose proof (tk_nodup _ _ _ _ _ _ Hinv) as Hnd. rewrite El in Hnd. apply NoDup_cons in Hnd as [Hnot _].
  destruct (Z_le_gt_dec (tdelta_at (timers s) (rt_tick s) p) 0) as [Hle|Hgt].
  - unfold due in Hd. rewrite El, filter_cons_True in Hd by done. injection Hd as -> Hd. exists l, tm.
    unfold tdelta_at in Hle. rewrite Htm in Hle. split_and!; [done..|lia|done|done].
  - rewrite (due_cons (-1) s p l) in Hd by (done || lia). done.
Qed.

(** The loop from a state in which the timers [os] that are still in the list are the due ones. *)
Lemma check_loop_expire os n s s' :
  timer_inv (-1) None s -> NoDup os -> due s = filter (fun o => o ∈ rt_timer_list s) os -> (length os <= n)%nat ->
  (timer_check_loop (S n) (rt_tick s) s = Some (tt, s') <-> expire os s s') /\
  (expire os s s' -> timer_inv (-1) None s' /\ due s' = []) /\
  ((forall cb k, is_Some (timeout_func cb k)) -> is_Some (timer_check_loop (S n) (rt_tick s) s)).
Proof.
  revert n s s'. induction os as [|o os IH]; intros n s s' Hinv Hnd Hd Hn.
  { rewrite check_loop_idle by done. split_and!; [| |eauto].
    - split; [intros [= <-]; constructor|by inversion 1].
    - intros He. inversion He; subst. done. }
  apply NoDup_cons in Hnd as [Ho Hnd]. destruct (decide (o ∈ rt_timer_list s)) as [Hin|Hout].
  2: { rewrite filter_cons_False in Hd by done. destruct (IH n s s' Hinv Hnd Hd ltac:(simpl in *; lia)) as (H1 & H2 & H3).
       assert (expire (o :: os) s s' <-> expire os s s') as E by (split; [by inversion 1|by constructor]).
       rewrite E. done. }
  rewrite filter_cons_True in Hd by done. destruct (due_head _ _ _ Hinv Hd) as (l & tm & El & Hol & Htm & Hb & Hos).
  destruct n as [|n]; [simpl in Hn; lia|]. erewrite timer_check_step by (done || lia). rewrite (proj2 (Z.leb_le _ _)) by lia.
  assert (list_del o (rt_timer_list s) = l) as Edel by (rewrite El; by apply list_del_head).
  destruct (timeout_func (tm_timeout_func tm) (set_rt_timer_list l s)) as [[[] s1]|] eqn:Es1.
  2: { assert (timer_fire o s = None) as ->.
       { unfold timer_fire, mbind, stM_bind, _rt_timer_remove, modify, get_timer, getso. simpl. by rewrite Htm, Edel, Es1. }
       assert (~ expire (o :: os) s s') as E.
       { intros He. inversion He as [| |? ? ? ? s1 s2 ? _ Htm' Es1' Hset' He']; subst; [done|]. congruence. }
       split_and!; [by split|done|]. intros Hall. destruct (Hall (tm_timeout_func tm) (set_rt_timer_list l s)) as [? E']. congruence. }
  destruct (timer_fire o s) as [[[] s2]|] eqn:Ef.
  2: { assert (wp (timer_fire o) (fun _ _ => True) s) as W by (by eapply wp_timer_fire_settled). unfold wp in W. by rewrite Ef in W. }
  assert (settled o s1 s2 /\ timer_inv (-1) None s2 /\ due s2 = due s1 /\ (forall p, p ≠ o -> p ∈ rt_timer_list s2 <-> p ∈ rt_timer_list s1))
    as (Hset & Hinv2 & Hd2 & Hl2).
  { assert (wp (timer_fire o) (fun _ s2 => settled o s1 s2 /\ timer_inv (-1) None s2 /\ due s2 = due s1 /\
      (forall p, p ≠ o -> p ∈ rt_timer_list s2 <-> p ∈ rt_timer_list s1)) s) as W by (by eapply wp_timer_fire_settled).
    by rewrite (wp_eq _ _ _ _ _ Ef) in W. }
  destruct (timeout_stops _ _ _ _ Es1) as (K & Ets & Eti & Els & _). simpl in Ets, Eti, Els.
  destruct (IH n s2 s' Hinv2 Hnd) as (H1 & H2 & H3); [|simpl in *; lia|].
  { assert (forall p, p ∈ os -> p ∈ rt_timer_list s2 <-> p ∈ l /\ p ∉ K) as Hos2.
    { intros p Hp. rewrite Hl2, Els, list_elem_of_filter by (by intros ->). tauto. }
    transitivity (filter (fun p => p ∉ K) (filter (fun p => p ∈ rt_timer_list s) os)).
    - rewrite Hd2, <- Hos. unfold due. rewrite Ets, Eti, Els, !list_filter_filter. apply filter_ext_in. tauto.
    - rewrite list_filter_filter. apply filter_ext_in. intros p Hp. rewrite Hos2, El, elem_of_cons by done.
      assert (p ≠ o) by (by intros ->). tauto. }
  assert (expire (o :: os) s s' <-> expire os s2 s') as E.
  { split.
    - intros He. inversion He as [| |? ? ? ? s1' s2' ? _ Htm' Es1' Hset' He']; subst; [done|].
      simplify_eq. by rewrite (settled_det _ _ _ _ Hset Hset').
    - intros He. econstructor; [rewrite El; by left|done|by rewrite Edel|done|done]. }
  rewrite E. split_and!; [done|done|done].
Qed.

(** C17: [rt_timer_check] fires what is due: from a state of the timer list's invariant in which no timer
    is more than one tick late, and for timeout functions that do no more to the timers than to stop some ([TimeoutStops]; one
    that starts or deletes a timer is not covered), the call ends in exactly the state in which every due timer, in list
    order and once, has been taken off the list, has had its function called, and has then been
    re-armed if it is periodic and still active and deactivated otherwise; a timer that the function of an
    earlier one has stopped is passed over. Afterwards the invariant holds and no timer is due. One iteration more
    than there are due timers is enough, and the call ends if the timeout functions do. *)
Theorem rt_timer_check_fires_due s :
  timer_inv (-1) None s ->
  (forall s', rt_timer_check (S (length (due s))) s = Some (tt, s') <-> expire (due s) s s') /\
  (forall s', expire (due s) s s' -> timer_inv (-1) None s' /\ due s' = []) /\
  ((forall cb k, is_Some (timeout_func cb k)) -> exists s', expire (due s) s s').
Proof.
  intros Hinv. assert (NoDup (due s)) as Hnd by (apply NoDup_filter, Hinv).
  assert (due s = filter (fun o => o ∈ rt_timer_list s) (due s)) as Hd.
  { symmetry. apply filter_all. intros o. unfold due. rewrite list_elem_of_filter. tauto. }
  pose proof (fun s' => check_loop_expire (due s) _ s s' Hinv Hnd Hd (Nat.le_refl _)) as Hc. split_and!.
  - intros s'. apply (Hc s').
  - intros s'. apply (Hc s').
  - intros Hall. destruct (Hc s) as (_ & _ & Hs). destruct (Hs Hall) as [[[] s'] Es]. exists s'. by apply (Hc s').
Qed.
End check_refines.

(** Timeout functions that stop their own timer. *)
Definition stop_self : TimeoutCalls := fun cb => match cb with CbUser n => rt_timer_stop (OTimer n);; mret tt | _ => mret tt end.

Lemma stops_none s : stops [] s s.
Proof. split_and!; [done|done| |done]. symmetry. apply filter_all. intros o _. apply not_elem_of_nil. Qed.

Lemma stop_self_stops : @TimeoutStops stop_self.
Proof.
  intros cb s [] s' E. destruct cb as [t|n]; [injection E as <-; exists []; apply stops_none|].
  assert (wp (@timeout_func stop_self (CbUser n)) (fun _ s2 => s2 = s') s) as W by (by rewrite (wp_eq _ _ _ _ _ E)).
  unfold timeout_func, stop_self, rt_timer_stop in W. autorewrite with wp in W. destruct W as (x & Hx & _ & W). autorewrite with wp in W.
  destruct W as (z & Hz & W). simplify_eq. destruct (negb (activated _)); autorewrite with wp in W.
  { subst. exists []. apply stops_none. }
  destruct W as (y & Hy & W). autorewrite with wp in W. simpl in *. simplify_eq. exists [OTimer n]. split_and!; simpl; [done|done| |].
  - apply filter_ext_in. intros p _. by rewrite list_elem_of_singleton.
  - intros o. case_decide as Ho; rewrite list_elem_of_singleton in Ho; [subst; by rewrite lookup_insert_eq, Hx|by rewrite lookup_insert_ne].
Qed.

(** The periodic timer 1 stops itself. *)
Lemma rt_timer_check_fires_due_witness :
  due demo_timers = [OTimer 0; OTimer 1] /\
  (forall s', @rt_timer_check stop_self (S (length (due demo_timers))) demo_timers = Some (tt, s') <->
     @expire stop_self (due demo_timers) demo_timers s') /\
  match @rt_timer_check stop_self 3 demo_timers with
  | Some (_, s') => rt_timer_list s' = [OTimer 2] /\ activated <$> objects s' !! OTimer 1 = Some false
  | None => False
  end.
Proof.
  split; [vm_compute; reflexivity|]. split; [|vm_compute; split; reflexivity].
  apply (@rt_timer_check_fires_due stop_self stop_self_stops). apply timer_invb_sound. vm_compute. reflexivity.
Defined.

(** C18: [rt_timer_start] links the timer behind every timer that expires no later and before every
    timer that expires later, across the wrap-around of the tick, so that the list stays sorted and
    timers with the same timeout keep the order of their starts; the timer is then activated and expires
    [init_tick] ticks from now. *)
Theorem rt_timer_start_sorted o x tm s :
  timer_inv 0 None s -> objects s !! o = Some x -> timer_typed x -> timers s !! o = Some tm ->
  0 <= tm_init_tick tm < TIMER_MAX -> (periodic x = true -> 0 < tm_init_tick tm) ->
  wp (rt_timer_start o) (fun r s' => r = RT_EOK /\ timer_inv 0 None s' /\
    tdelta_at (timers s') (rt_tick s') o = tm_init_tick tm /\
    exists l1 l2, rt_timer_list s' = l1 ++ o :: l2 /\ list_del o (rt_timer_list s) = l1 ++ l2 /\
      (forall p, p ∈ l1 -> tdelta_at (timers s) (rt_tick s) p <= tm_init_tick tm) /\
      (forall p, p ∈ l2 -> tm_init_tick tm < tdelta_at (timers s) (rt_tick s) p)) s.
Proof.
  intros Hinv Hx Ht Htm Hi Hp. eapply wp_timer_start; [done|lia|done..|].
  intros l1 l2 El H1 H2 Hinv'. split_and!; [done|done| |].
  - simpl. unfold tdelta_at. rewrite lookup_insert_eq. by apply tdelta_set.
  - by exists l1, l2.
Qed.

Definition demo_later : kernel :=
  mkKernel ∅ (objects demo_timers) ∅ ∅ 0 None 0 0 0 4294967295 (timers demo_timers)
    (rt_timer_list demo_timers) 0 ∅ ∅ ∅ ∅ ∅.

Lemma rt_timer_start_sorted_witness :
  timer_inv 0 None demo_later /\
  wp (rt_timer_start (OTimer 3)) (fun r s' => r = RT_EOK /\ timer_inv 0 None s' /\
    tdelta_at (timers s') (rt_tick s') (OTimer 3) = 2147483646 /\
    exists l1 l2, rt_timer_list s' = l1 ++ OTimer 3 :: l2 /\
      list_del (OTimer 3) (rt_timer_list demo_later) = l1 ++ l2 /\
      (forall p, p ∈ l1 -> tdelta_at (timers demo_later) (rt_tick demo_later) p <= 2147483646) /\
      (forall p, p ∈ l2 -> 2147483646 < tdelta_at (timers demo_later) (rt_tick demo_later) p)) demo_later.
Proof.
  assert (timer_inv 0 None demo_later) as H by (apply timer_invb_sound; vm_compute; reflexivity).
  split; [exact H|]. apply (rt_timer_start_sorted (OTimer 3) (demo_timer 3 0) (mkTimer (CbUser 3) 2147483646 0));
    [exact H|reflexivity|reflexivity|reflexivity|simpl; lia|simpl; lia].
Defined.

(** [rt_timer_stop] unlinks and deactivates an active timer and refuses one that is not active,
    leaving the state as it is. *)
Theorem rt_timer_stop_spec o x s :
  timer_inv 0 None s -> objects s !! o = Some x -> timer_typed x ->
  wp (rt_timer_stop o) (fun r s' => timer_inv 0 None s' /\ o ∉ rt_timer_list s' /\
    (r = RT_EOK /\ o ∈ rt_timer_list s /\ s' = timer_stopped o x s \/
     r = - RT_ERROR /\ o ∉ rt_timer_list s /\ s' = s)) s.
Proof.
  intros Hinv Hx Ht. eapply wp_timer_stop; [done..|].
  split; [by apply (timer_stopped_inv 0 None o x)|].
  split; [simpl; rewrite elem_of_list_del; naive_solver|].
  destruct (activated x) eqn:Ha; [left|right]; (split; [done|]).
  - split; [|done]. by eapply (tk_act _ _ _ _ _ _ Hinv).
  - split; [by eapply timer_not_activated_notin|by eapply timer_stopped_id].
Qed.

Lemma rt_timer_stop_spec_witness :
  wp (rt_timer_stop (OTimer 1)) (fun r s' => timer_inv 0 None s' /\ OTimer 1 ∉ rt_timer_list s' /\
    (r = RT_EOK /\ OTimer 1 ∈ rt_timer_list demo_later /\ s' = timer_stopped (OTimer 1) (demo_timer 1 3) demo_later \/
     r = - RT_ERROR /\ OTimer 1 ∉ rt_timer_list demo_later /\ s' = demo_later)) demo_later.
Proof.
  apply (rt_timer_stop_spec (OTimer 1) (demo_timer 1 3));
    [apply timer_invb_sound; vm_compute; reflexivity|reflexivity|reflexivity].
Defined.
