(* ===== verification/Thread.v ===== *)
(** Threads (src/thread.c), the stack of a new thread (libcpu/arm/cortex-m3/cpuport.c), the
    interrupt nest (src/irq.c), the tick (src/clock.c) and the idle thread's reaper (src/idle.c). *)

From S2P Require Import Prelude RtDef Object Scheduler Timer.

(** ** The stack of a new thread *)

(** [struct stack_frame]: r4-r11, then the exception frame r0-r3, r12, lr, pc, psr. *)
Definition stack_frame (tentry parameter texit : Z) : list Z :=
  replicate 8 3735928559 ++ [parameter; 0; 0; 0; 0; texit; tentry; 16777216].

(** The address [rt_hw_stack_init] returns; the frame is written there. *)
Definition rt_hw_stack_init (stack_addr : Z) : Z :=
  u32 (RT_ALIGN_DOWN (u32 (stack_addr + 4)) 8 - 64).

(** Byte [k] of the frame in memory (little endian). *)
Definition frame_byte (frame : list Z) (k : Z) : Z :=
  Z.shiftr (nth (Z.to_nat (k / 4)) frame 0) (8 * (k mod 4)) .& 255.

(** ** The operations *)

(** The outcome of a call that may block: [Ret] when it has returned, [Block k] when its last act was
    a [rt_schedule()] that the rest [k] of the code follows, once the calling thread runs again. *)
Inductive outcome (A K : Type) :=
| Ret (a : A)
| Block (k : K).
Arguments Ret {A K} a.
Arguments Block {A K} k.

Section thread.
(** The address of [rt_thread_exit]. *)
Context (rt_thread_exit_addr : Z).

(** [guard0] is the byte at [stack_start] before the call. [rt_list_init(&(thread->tlist))] is for a
    thread in no ring. *)
Definition _rt_thread_init (t : nat) (name : string) (entry parameter stack_start stack_size
    priority tick guard0 : Z) : M Z :=
  let sp := rt_hw_stack_init (u32 (stack_start + stack_size - 4)) in
  let frame := stack_frame entry parameter rt_thread_exit_addr in
  let guard := if (0 <=? stack_start - sp) && (stack_start - sp <? 64)
               then frame_byte frame (stack_start - sp)
               else if 0 <? stack_size then 35 else guard0 in
  RT_ASSERT (priority <? RT_THREAD_PRIORITY_MAX);;
  modify (fun s => set_threads (<[t :=
    mkThread sp entry parameter stack_start stack_size guard RT_EOK RT_THREAD_INIT priority
      priority 0
      (match threads s !! t with Some th => th_event_set th | None => 0 end)
      (match threads s !! t with Some th => th_event_info th | None => 0 end)
      tick tick 0 0]> (threads s)) s);;
  rt_timer_init (OThreadTimer t) (object_name name) (CbThreadTimeout t) 0 RT_TIMER_FLAG_ONE_SHOT;;
  mret RT_EOK.

Definition rt_thread_init (t : nat) (name : string) (entry parameter stack_start stack_size
    priority tick guard : Z) : M Z :=
  RT_ASSERT (negb (stack_start =? 0));;
  rt_object_init (OThread t) RT_Object_Class_Thread name;;
  _rt_thread_init t name entry parameter stack_start stack_size priority tick guard.

End thread.

Definition rt_thread_suspend (t : nat) : M Z :=
  assert_type (OThread t) RT_Object_Class_Thread;;
  th ← get_thread t;
  let stat := th_stat th .& RT_THREAD_STAT_MASK in
  if negb (stat =? RT_THREAD_READY) && negb (stat =? RT_THREAD_RUNNING) then mret (- RT_ERROR)
  else
    cur ← rt_thread_self;
    when (stat =? RT_THREAD_RUNNING) (RT_ASSERT (bool_decide (cur = Some t)));;
    rt_schedule_remove_thread t;;
    upd_thread t (stat_set RT_THREAD_SUSPEND);;
    rt_timer_stop (OThreadTimer t);;
    mret RT_EOK.

Definition rt_thread_resume (t : nat) : M Z :=
  assert_type (OThread t) RT_Object_Class_Thread;;
  th ← get_thread t;
  if negb (th_stat th .& RT_THREAD_STAT_MASK =? RT_THREAD_SUSPEND) then mret (- RT_ERROR)
  else
    tlist_remove t;;
    rt_timer_stop (OThreadTimer t);;
    rt_schedule_insert_thread t;;
    mret RT_EOK.

Definition rt_thread_startup (t : nat) : M Z :=
  th ← get_thread t;
  RT_ASSERT (th_stat th .& RT_THREAD_STAT_MASK =? RT_THREAD_INIT);;
  assert_type (OThread t) RT_Object_Class_Thread;;
  put_thread t (set_th_stat RT_THREAD_SUSPEND
    (set_th_number_mask (prio_mask (th_init_priority th))
      (set_th_current_priority (th_init_priority th) th)));;
  rt_thread_resume t;;
  cur ← rt_thread_self;
  when (bool_decide (cur ≠ None)) rt_schedule;;
  mret RT_EOK.

Definition rt_thread_exit : M unit :=
  t ← self;
  rt_schedule_remove_thread t;;
  upd_thread t (set_th_stat RT_THREAD_CLOSE);;
  rt_timer_detach (OThreadTimer t);;
  b ← rt_object_is_systemobject (OThread t);
  th ← get_thread t;
  (if b && (th_cleanup th =? 0) then rt_object_detach (OThread t)
   else tlist_insert_after QDefunct t);;
  rt_schedule.

Definition rt_thread_detach (t : nat) : M Z :=
  assert_type (OThread t) RT_Object_Class_Thread;;
  b ← rt_object_is_systemobject (OThread t);
  RT_ASSERT b;;
  th ← get_thread t;
  when (negb (th_stat th .& RT_THREAD_STAT_MASK =? RT_THREAD_INIT)) (rt_schedule_remove_thread t);;
  rt_timer_detach (OThreadTimer t);;
  upd_thread t (set_th_stat RT_THREAD_CLOSE);;
  rt_object_detach (OThread t);;
  when (negb (th_cleanup th =? 0)) (tlist_insert_after QDefunct t);;
  mret RT_EOK.

Definition rt_thread_delete (t : nat) : M Z :=
  assert_type (OThread t) RT_Object_Class_Thread;;
  b ← rt_object_is_systemobject (OThread t);
  RT_ASSERT (negb b);;
  th ← get_thread t;
  when (negb (th_stat th .& RT_THREAD_STAT_MASK =? RT_THREAD_INIT)) (rt_schedule_remove_thread t);;
  rt_timer_detach (OThreadTimer t);;
  upd_thread t (set_th_stat RT_THREAD_CLOSE);;
  tlist_insert_after QDefunct t;;
  mret RT_EOK.

Definition rt_thread_yield : M Z := rt_schedule;; mret RT_EOK.

(** [rt_thread_sleep] up to its [rt_schedule()]. *)
Definition rt_thread_sleep (tick : Z) : M unit :=
  t ← self;
  assert_type (OThread t) RT_Object_Class_Thread;;
  rt_thread_suspend t;;
  rt_timer_control (OThreadTimer t) RT_TIMER_CTRL_SET_TIME tick;;
  rt_timer_start (OThreadTimer t);;
  rt_schedule.

(** The rest of [rt_thread_sleep] for the thread [t]. *)
Definition rt_thread_sleep_resume (t : nat) : M Z :=
  th ← get_thread t;
  when (th_error th =? - RT_ETIMEOUT) (upd_thread t (set_th_error RT_EOK));;
  mret RT_EOK.

Definition rt_thread_delay (tick : Z) : M unit := rt_thread_sleep tick.

Definition rt_thread_mdelay (ms : Z) : M unit :=
  tick ← getso (fun _ => rt_tick_from_millisecond ms);
  rt_thread_sleep (u32 tick).

(** [1 << thread->current_priority]. *)
Definition set_priority (p : Z) (th : thread) : thread :=
  set_th_number_mask (prio_mask p) (set_th_current_priority p th).

(** [arg] is the byte at the argument's address. *)
Definition rt_thread_control (t : nat) (cmd arg : Z) : M Z :=
  assert_type (OThread t) RT_Object_Class_Thread;;
  if cmd =? RT_THREAD_CTRL_CHANGE_PRIORITY then
    th ← get_thread t;
    (if th_stat th .& RT_THREAD_STAT_MASK =? RT_THREAD_READY then
       rt_schedule_remove_thread t;;
       upd_thread t (set_priority arg);;
       rt_schedule_insert_thread t
     else upd_thread t (set_priority arg));;
    mret RT_EOK
  else if cmd =? RT_THREAD_CTRL_STARTUP then rt_thread_startup t
  else if cmd =? RT_THREAD_CTRL_CLOSE then rt_thread_delete t
  else mret RT_EOK.

Definition rt_thread_timeout (t : nat) : M unit :=
  th ← get_thread t;
  RT_ASSERT (th_stat th .& RT_THREAD_STAT_MASK =? RT_THREAD_SUSPEND);;
  assert_type (OThread t) RT_Object_Class_Thread;;
  upd_thread t (set_th_error (- RT_ETIMEOUT));;
  tlist_remove t;;
  rt_schedule_insert_thread t;;
  rt_schedule.

Definition rt_thread_find (name : string) : M (option obj_id) :=
  cur ← rt_thread_self;
  when (bool_decide (cur ≠ None)) rt_enter_critical;;
  l ← rt_object_get_information RT_Object_Class_Thread;
  objs ← gets objects;
  let found := find (fun o => match objs !! o with
                              | Some x => String.eqb (object_name (obj_name x)) (object_name name)
                              | None => false
                              end) l in
  cur ← rt_thread_self;
  when (bool_decide (cur ≠ None)) rt_exit_critical;;
  mret found.

(** ** Interrupts, the tick and the idle thread *)

Definition rt_interrupt_enter : M unit :=
  modify (fun s => set_rt_interrupt_nest (u8 (rt_interrupt_nest s + 1)) s).
Definition rt_interrupt_leave : M unit :=
  modify (fun s => set_rt_interrupt_nest (u8 (rt_interrupt_nest s - 1)) s).
Definition rt_interrupt_get_nest : M Z := gets rt_interrupt_nest.

(** The timeout functions of the system: [rt_thread_timeout] for the timers of threads, and the
    user's functions. *)
Class UserTimeouts := user_timeout : nat -> M unit.

#[export] Instance kernel_timeouts `{UserTimeouts} : TimeoutCalls := fun cb =>
  match cb with
  | CbThreadTimeout t => rt_thread_timeout t
  | CbUser n => user_timeout n
  end.

(** [fuel] bounds the timers that fire in the tick. *)
Definition rt_tick_increase `{UserTimeouts} (fuel : nat) : M unit :=
  modify (fun s => set_rt_tick (u32 (rt_tick s + 1)) s);;
  t ← self;
  th ← get_thread t;
  let remaining := u32 (th_remaining_tick th - 1) in
  put_thread t (set_th_remaining_tick remaining th);;
  when (remaining =? 0) (
    upd_thread t (fun th => set_th_remaining_tick (th_init_tick th) th);;
    rt_thread_yield;;
    mret tt);;
  rt_timer_check fuel.
