(* ===== verification/Kernel.v ===== *)
(** The invariant of the whole kernel (the scheduler's, the timer list's and the typing of objects)
    and the specifications of the thread operations (src/thread.c) against it. *)

From S2P Require Import Prelude RtDef Object Scheduler Timer Thread.

(** ** The invariant *)

Definition thread_typed (x : rt_object) : Prop :=
  obj_type x .&~ RT_Object_Class_Static = RT_Object_Class_Thread.

(** [rt_object_is_systemobject]. *)
Definition static_obj (x : rt_object) : bool := negb (obj_type x .& RT_Object_Class_Static =? 0).

(** The objects of a thread that is not closed: its header and its one-shot timer, which is a static
    object. *)
Definition thread_objects (objs : gmap obj_id rt_object) (ts : gmap obj_id rt_timer) (t : nat) : Prop :=
  (exists x, objs !! OThread t = Some x /\ thread_typed x) /\
  (exists tx, objs !! OThreadTimer t = Some tx /\ timer_typed tx /\ periodic tx = false /\ static_obj tx = true) /\
  (exists tm, ts !! OThreadTimer t = Some tm /\ tm_timeout_func tm = CbThreadTimeout t).

Record objs_ok (ths : gmap nat thread) (objs : gmap obj_id rt_object) (ts : gmap obj_id rt_timer) : Prop := {
  oo_thread : forall t th, ths !! t = Some th -> th_stat th ≠ RT_THREAD_CLOSE -> thread_objects objs ts t;
  oo_kind : forall o x, objs !! o = Some x -> timer_typed x ->
    (exists t, o = OThreadTimer t) \/ (exists n, o = OTimer n);
  oo_user : forall n tm, ts !! OTimer n = Some tm -> exists k, tm_timeout_func tm = CbUser k;
}.

(** The timer of a thread is active only while the thread is suspended. *)
Definition active_ok (ths : gmap nat thread) (l : list obj_id) : Prop :=
  forall t, OThreadTimer t ∈ l ->
    exists th, ths !! t = Some th /\ th_stat th = RT_THREAD_SUSPEND.

(** The invariant; [lo] and [X] are those of [timers_ok]. *)
Record kinv_at (lo : Z) (X : option obj_id) (s : kernel) : Prop := {
  ki_sched : sched_inv s;
  ki_timer : timer_inv lo X s;
  ki_objs : objs_ok (threads s) (objects s) (timers s);
  ki_active : active_ok (threads s) (rt_timer_list s);
}.
Abbreviation kinv := (kinv_at 0 None).

(** ** Frames *)

(** The invariant does not depend on the IPC objects, on the interrupt nest or on the lock. *)
Record same_kernel (s s' : kernel) : Prop := {
  sk_threads : threads s' = threads s;
  sk_queues : queues s' = queues s;
  sk_group : rt_thread_ready_priority_group s' = rt_thread_ready_priority_group s;
  sk_current : rt_current_thread s' = rt_current_thread s;
  sk_tick : rt_tick s' = rt_tick s;
  sk_timers : timers s' = timers s;
  sk_objects : objects s' = objects s;
  sk_list : rt_timer_list s' = rt_timer_list s;
}.

Lemma kinv_same lo X s s' : same_kernel s s' -> kinv_at lo X s -> kinv_at lo X s'.
Proof.
  intros [E1 E2 E3 E4 E5 E6 E7 E8] [[H1 H2 H3] H4 H5 H6].
  split; [split| | |]; unfold timer_inv; rewrite ?E1, ?E2, ?E3, ?E4, ?E5, ?E6, ?E7, ?E8; done.
Qed.

(** Preserved by rescheduling. *)
Lemma kinv_resched lo X s s' : kinv_at lo X s -> resched s s' -> sched_inv s' -> kinv_at lo X s'.
Proof.
  intros [H1 H2 H3 H4] Hr Hs. pose proof (rs_frame _ _ Hr) as Hf.
  assert (forall t th', threads s' !! t = Some th' -> exists th, threads s !! t = Some th /\
    (th_stat th' ≠ RT_THREAD_CLOSE -> th_stat th ≠ RT_THREAD_CLOSE)) as Hback.
  { intros t th' Ht. destruct (rs_thread _ _ Hr t) as [E|(th & st & E & E' & Ho & Hn)].
    - exists th'. by rewrite <- E.
    - exists th. split; [done|]. lia. }
  split; [done| | |].
  - unfold timer_inv. rewrite (sf_tick _ _ Hf), (sf_timers _ _ Hf), (sf_objects _ _ Hf), (sf_timer_list _ _ Hf). done.
  - rewrite (sf_timers _ _ Hf), (sf_objects _ _ Hf). split; [|apply H3..].
    intros t th' Ht Hc. destruct (Hback t th' Ht) as (th & Ht' & Hc'). apply (oo_thread _ _ _ H3 t th); auto.
  - rewrite (sf_timer_list _ _ Hf). intros t Hin. destruct (H4 t Hin) as (th & Ht & Hst).
    exists th. split; [|done]. eapply resched_stable; [done..| |]; lia.
Qed.

Lemma wp_schedule lo X c s Q :
  kinv_at lo X s -> rt_current_thread s = Some c ->
  (forall s', kinv_at lo X s' -> resched s s' -> is_Some (rt_current_thread s') ->
     (rt_scheduler_lock_nest s = 0 -> runnable s -> highest_running s') -> Q tt s') ->
  wp rt_schedule Q s.
Proof.
  intros Hk Hc HQ. eapply wp_mono; [apply (wp_rt_schedule c s); [apply Hk|done]|].
  intros [] s' (Hi & Hr & Hsome & Hh). apply HQ; [|done..]. by eapply kinv_resched.
Qed.

(** ** A change of one thread and its queues *)

Section update.
Context {lo : Z} {X : option obj_id} {s : kernel} {t : nat} {th : thread}.
Hypotheses (Hk : kinv_at lo X s) (Ht : threads s !! t = Some th).

Lemma kinv_thread_ok : thread_ok th.
Proof. eapply thread_ok_lookup; [apply Hk|done]. Qed.

Lemma kinv_thread_objects : th_stat th ≠ RT_THREAD_CLOSE -> thread_objects (objects s) (timers s) t.
Proof. by apply (oo_thread _ _ _ (ki_objs _ _ _ Hk)). Qed.

Lemma objs_ok_update th' :
  th_stat th ≠ RT_THREAD_CLOSE \/ th_stat th' = RT_THREAD_CLOSE ->
  objs_ok (<[t := th']> (threads s)) (objects s) (timers s).
Proof.
  intros Hst. pose proof (ki_objs _ _ _ Hk) as H. split; [|apply H..].
  intros u uh. destruct (decide (t = u)) as [->|].
  - rewrite lookup_insert_eq. intros [= <-] Hc. apply (oo_thread _ _ _ H u th); [done|naive_solver].
  - rewrite lookup_insert_ne by done. apply (oo_thread _ _ _ H).
Qed.

Lemma active_ok_update th' :
  th_stat th' = th_stat th \/ OThreadTimer t ∉ rt_timer_list s ->
  active_ok (<[t := th']> (threads s)) (rt_timer_list s).
Proof.
  intros Hst u Hu. destruct (ki_active _ _ _ Hk u Hu) as (uh & Huh & Hs).
  destruct (decide (t = u)) as [->|]; [|exists uh; by rewrite lookup_insert_ne].
  rewrite lookup_insert_eq. exists th'. split; [done|].
  destruct Hst as [E|?]; [|done]. rewrite E. naive_solver.
Qed.

Lemma thread_timer_idle :
  th_stat th ≠ RT_THREAD_SUSPEND -> OThreadTimer t ∉ rt_timer_list s.
Proof.
  intros Hs Hin. destruct (ki_active _ _ _ Hk t Hin) as (uh & Huh & Hst). naive_solver.
Qed.
End update.

(** A change that keeps what the invariant looks at (the error code, the event wish, ...). *)
Definition thread_same (th th' : thread) : Prop :=
  th_stat th' = th_stat th /\ th_current_priority th' = th_current_priority th /\
  th_init_priority th' = th_init_priority th /\ th_number_mask th' = th_number_mask th /\
  th_stack_guard th' = th_stack_guard th /\ th_stack_addr th' = th_stack_addr th /\
  th_sp th' = th_sp th /\ th_stack_size th' = th_stack_size th.

Lemma thread_same_ok th th' : thread_same th th' -> thread_ok th -> thread_ok th'.
Proof.
  intros (E1 & E2 & E3 & E4 & E5 & E6 & E7 & E8) [H1 H2 H3 H4].
  split; [by rewrite E1|by rewrite E2, E3|by rewrite E4, E2, E1|].
  rewrite E1. intros Hc. unfold stack_ok. rewrite E5, E6, E7, E8. exact (H4 Hc).
Qed.

Lemma current_ok_update ths cur t th th' :
  current_ok ths cur -> ths !! t = Some th -> th_stat th' = th_stat th -> current_ok (<[t := th']> ths) cur.
Proof.
  intros [H1 H2] Ht Hs. split.
  - intros u uh. destruct (decide (t = u)) as [->|]; [|rewrite lookup_insert_ne by done; apply H1].
    rewrite lookup_insert_eq. intros [= <-]. rewrite Hs. by apply H1.
  - intros u Hu. destruct (H2 u Hu) as (uh & Huh & ?). destruct (decide (t = u)) as [->|].
    + rewrite lookup_insert_eq. exists th'. simplify_eq. by rewrite Hs.
    + rewrite lookup_insert_ne by done. eauto.
Qed.

Lemma kinv_update_same lo X s t th th' :
  kinv_at lo X s -> threads s !! t = Some th -> thread_same th th' ->
  kinv_at lo X (set_threads (<[t := th']> (threads s)) s).
Proof.
  intros Hk Ht Hsame. pose proof (proj1 Hsame) as E1. pose proof (proj1 (proj2 Hsame)) as E2.
  pose proof (ki_sched _ _ _ Hk) as [Hq Hc Hok]. split; [split| | |]; simpl.
  - by eapply queue_update.
  - by eapply current_ok_update.
  - apply threads_ok_insert; [done|]. eapply thread_same_ok; [done|]. by eapply thread_ok_lookup.
  - apply Hk.
  - eapply objs_ok_update; [done..|]. destruct (decide (th_stat th = RT_THREAD_CLOSE)); [right; congruence|by left].
  - eapply active_ok_update; [done..|]. by left.
Qed.

(** ** Making a thread ready *)

(** [rt_schedule_insert_thread]. *)
Definition inserted (t : nat) (th : thread) (s : kernel) : kernel :=
  if bool_decide (rt_current_thread s = Some t) then
    set_threads (<[t := set_th_stat RT_THREAD_RUNNING th]> (threads s)) s
  else
    set_rt_thread_ready_priority_group (rt_thread_ready_priority_group s .| th_number_mask th)
      (set_queues (q_push_back (QReady (th_current_priority th)) t (queues s))
        (set_threads (<[t := set_th_stat RT_THREAD_READY th]> (threads s)) s)).

Definition unlinked (t : nat) (s : kernel) : kernel := set_queues (q_remove t (queues s)) s.

Lemma wp_insert t th Q s :
  threads s !! t = Some th -> thread_ok th -> Q tt (inserted t th s) ->
  wp (rt_schedule_insert_thread t) Q s.
Proof.
  intros Ht Hok HQ. unfold inserted in HQ. case_bool_decide.
  - by eapply wp_insert_current.
  - by eapply wp_insert_other.
Qed.

Lemma current_ok_replace ths cur t th th' :
  current_ok ths cur -> ths !! t = Some th ->
  (cur = Some t -> th_stat th' ≠ RT_THREAD_READY /\ th_stat th' ≠ RT_THREAD_INIT) ->
  (cur ≠ Some t -> th_stat th' ≠ RT_THREAD_RUNNING) -> current_ok (<[t := th']> ths) cur.
Proof.
  intros [H1 H2] Ht Hc Hn. split.
  - intros u uh. destruct (decide (t = u)) as [->|]; [|rewrite lookup_insert_ne by done; apply H1].
    rewrite lookup_insert_eq. intros [= <-] Hr. destruct (decide (cur = Some u)); [done|]. by destruct (Hn ltac:(done)).
  - intros u Hu. destruct (decide (t = u)) as [->|].
    + rewrite lookup_insert_eq. exists th'. auto.
    + rewrite lookup_insert_ne by done. by apply H2.
Qed.

(** A suspended thread whose timer is not active leaves its waiting list and is made ready. *)
Lemma kinv_make_ready lo X s t th :
  kinv_at lo X s -> threads s !! t = Some th -> th_stat th = RT_THREAD_SUSPEND ->
  OThreadTimer t ∉ rt_timer_list s -> kinv_at lo X (inserted t th (unlinked t s)).
Proof.
  intros Hk Ht Hst Hidle. pose proof (ki_sched _ _ _ Hk) as [Hq Hc Hok].
  pose proof (thread_ok_lookup _ _ _ Hok Ht) as Hth.
  assert (queue_ok (Some t) (threads s) (q_remove t (queues s)) (rt_thread_ready_priority_group s)) as Hq1
    by (eapply queue_detach_suspended; [done..|lia]).
  assert (forall st, st = RT_THREAD_RUNNING \/ st = RT_THREAD_READY ->
    objs_ok (<[t := set_th_stat st th]> (threads s)) (objects s) (timers s) /\
    active_ok (<[t := set_th_stat st th]> (threads s)) (rt_timer_list s) /\
    threads_ok (<[t := set_th_stat st th]> (threads s))) as Hu.
  { intros st Hs. split_and!.
    - eapply objs_ok_update; [done..|]. left. lia.
    - eapply active_ok_update; [done..|]. by right.
    - apply threads_ok_insert; [done|]. apply thread_ok_set_stat; [done|lia|lia]. }
  unfold inserted, unlinked. simpl. case_bool_decide as Hcur.
  - destruct (Hu RT_THREAD_RUNNING) as (Ho & Ha & Hto); [by left|].
    split; [split|apply Hk|done|done]; simpl; [|by eapply current_ok_replace; [| |simpl; lia|]|done].
    eapply queue_place_none; [by apply queue_update_exempt|by apply lookup_insert_eq|done].
  - destruct (Hu RT_THREAD_READY) as (Ho & Ha & Hto); [by right|].
    split; [split|apply Hk|done|done]; simpl; [|by eapply current_ok_replace|done].
    change (th_current_priority th) with (th_current_priority (set_th_stat RT_THREAD_READY th)).
    change (th_number_mask th) with (th_number_mask (set_th_stat RT_THREAD_READY th)).
    apply queue_place_ready; [by apply queue_update_exempt|by apply lookup_insert_eq| |done].
    apply thread_ok_set_stat; [done|lia|lia].
Qed.

Lemma objs_ok_flag ths objs ts o x f :
  objs_ok ths objs ts -> objs !! o = Some x -> periodic (set_obj_flag f x) = periodic x ->
  objs_ok ths (<[o := set_obj_flag f x]> objs) ts.
Proof.
  intros H Hx Hp. split; [|  |apply H].
  - intros t th Ht Hc. destruct (oo_thread _ _ _ H t th Ht Hc) as ((y & Hy & Hty) & (tx & Htx & ? & Hper & ?) & ?).
    split_and!; [| |done].
    + destruct (decide (o = OThread t)) as [->|]; [|exists y; by rewrite lookup_insert_ne].
      rewrite lookup_insert_eq. simplify_eq. by eexists.
    + destruct (decide (o = OThreadTimer t)) as [->|]; [|exists tx; by rewrite lookup_insert_ne].
      rewrite lookup_insert_eq. simplify_eq. eexists. split; [done|]. split; [done|]. split; [congruence|done].
  - intros p y. destruct (decide (o = p)) as [->|].
    + rewrite lookup_insert_eq. intros [= <-] Ht. by apply (oo_kind _ _ _ H p x).
    + rewrite lookup_insert_ne by done. apply (oo_kind _ _ _ H).
Qed.

Lemma kinv_timer_stopped lo X s o x :
  kinv_at lo X s -> objects s !! o = Some x ->
  kinv_at lo (if decide (X = Some o) then None else X) (timer_stopped o x s).
Proof.
  intros [H1 H2 H3 H4] Hx. split; [by destruct H1|by apply timer_stopped_inv| |].
  - simpl. apply objs_ok_flag; [done|done|]. exact (periodic_clear x).
  - simpl. intros t [_ Hin]%elem_of_list_del. by apply H4.
Qed.

(** ** [rt_thread_resume] and [rt_thread_timeout] *)

Definition resumed (t : nat) (th : thread) (tx : rt_object) (s : kernel) : kernel :=
  inserted t th (unlinked t (timer_stopped (OThreadTimer t) tx s)).

Lemma wp_thread_resume lo X t th s Q :
  kinv_at lo X s -> threads s !! t = Some th -> th_stat th = RT_THREAD_SUSPEND ->
  X ≠ Some (OThreadTimer t) ->
  (forall tx, objects s !! OThreadTimer t = Some tx -> kinv_at lo X (resumed t th tx s) ->
     Q RT_EOK (resumed t th tx s)) ->
  wp (rt_thread_resume t) Q s.
Proof.
  intros Hk Ht Hst HX HQ. pose proof (kinv_thread_ok Hk Ht) as Hth.
  destruct (kinv_thread_objects Hk Ht) as ((x & Hx & Htx) & (tx & Ex & Hty & Hp & Hstatic) & _); [lia|].
  unfold rt_thread_resume. wp_norm. exists x. split_and!; [done..|]. wp_norm. exists th. split; [done|].
  rewrite stat_mask, Hst by apply Hth. simpl. wp_norm.
  eapply (wp_timer_stop lo X); [exact (ki_timer _ _ _ Hk)|done|done|]. wp_norm.
  apply (wp_insert t th); [done|done|]. wp_norm. apply (HQ tx Ex).
  pose proof (kinv_timer_stopped lo X s (OThreadTimer t) tx Hk Ex) as Hk'. rewrite decide_False in Hk' by done.
  apply kinv_make_ready; [done..|]. simpl. rewrite elem_of_list_del. naive_solver.
Qed.

Definition timed_out (t : nat) (th : thread) (s : kernel) : kernel :=
  inserted t (set_th_error (- RT_ETIMEOUT) th) (unlinked t
    (set_threads (<[t := set_th_error (- RT_ETIMEOUT) th]> (threads s)) s)).

Lemma resched_timer_frame s s' : resched s s' -> timer_frame s s'.
Proof. intros [[] _ _]. by split. Qed.

Lemma inserted_timer_frame t th s : timer_frame s (inserted t th s).
Proof. unfold inserted. by case_bool_decide. Qed.

Lemma inserted_current t th s : rt_current_thread (inserted t th s) = rt_current_thread s.
Proof. unfold inserted. by case_bool_decide. Qed.

Lemma timed_out_runnable t th s :
  rt_scheduler_lock_nest (timed_out t th s) = rt_scheduler_lock_nest s /\ runnable (timed_out t th s).
Proof.
  unfold timed_out, inserted. case_bool_decide; (split; [done|]); eexists t, _; simpl; rewrite lookup_insert_eq;
    (split; [done|]); [by right|by left].
Qed.

Lemma wp_thread_timeout lo X t th c s Q :
  kinv_at lo X s -> threads s !! t = Some th -> th_stat th = RT_THREAD_SUSPEND ->
  OThreadTimer t ∉ rt_timer_list s -> rt_current_thread s = Some c ->
  (forall s', kinv_at lo X s' -> resched (timed_out t th s) s' -> timer_frame s s' ->
     is_Some (rt_current_thread s') -> (rt_scheduler_lock_nest s = 0 -> highest_running s') -> Q tt s') ->
  wp (rt_thread_timeout t) Q s.
Proof.
  intros Hk Ht Hst Hidle Hc HQ. pose proof (kinv_thread_ok Hk Ht) as Hth.
  destruct (kinv_thread_objects Hk Ht) as ((x & Hx & Htx) & _); [lia|].
  unfold rt_thread_timeout. wp_norm. exists th. split; [done|]. wp_norm.
  rewrite stat_mask, Hst by apply Hth. split; [done|]. exists x. split_and!; [done..|]. wp_norm.
  exists th. split; [done|]. wp_norm.
  set (th' := set_th_error (- RT_ETIMEOUT) th).
  assert (thread_same th th') as Hsame by done.
  pose proof (kinv_update_same lo X s t th th' Hk Ht Hsame) as Hk1.
  assert (kinv_at lo X (timed_out t th s)) as Hk2.
  { apply kinv_make_ready; [exact Hk1|simpl; by rewrite lookup_insert_eq|done|done]. }
  apply (wp_insert t th'); [simpl; by rewrite lookup_insert_eq|by eapply thread_same_ok|].
  eapply wp_schedule; [exact Hk2|unfold timed_out; by rewrite inserted_current|].
  intros s' Hk' Hr Hsome Hh. destruct (timed_out_runnable t th s) as [El Hrun].
  apply HQ; [done|done| |done|intros Hl; apply Hh; [exact (eq_trans El Hl)|exact Hrun]].
  etrans; [|by apply resched_timer_frame]. etrans; [|apply inserted_timer_frame]. done.
Qed.

(** ** [rt_thread_suspend] *)

Definition detached (t : nat) (th : thread) (s : kernel) : kernel :=
  set_rt_thread_ready_priority_group
    (if bool_decide (qlist (q_remove t (queues s)) (QReady (th_current_priority th)) = [])
     then rt_thread_ready_priority_group s .&~ th_number_mask th
     else rt_thread_ready_priority_group s) (unlinked t s).

Definition suspended (t : nat) (th : thread) (tx : rt_object) (s : kernel) : kernel :=
  timer_stopped (OThreadTimer t) tx
    (set_threads (<[t := set_th_stat RT_THREAD_SUSPEND th]> (threads s)) (detached t th s)).

(** A thread that leaves the ready queues (or was running) for a state [st] other than READY and
    RUNNING is in no ring until it is put in one. *)
Lemma kinv_detached lo X s t th th' :
  kinv_at lo X s -> threads s !! t = Some th ->
  (th_stat th = RT_THREAD_SUSPEND -> th_stat th' = RT_THREAD_SUSPEND \/ OThreadTimer t ∉ rt_timer_list s) ->
  thread_ok th' -> th_stat th' = RT_THREAD_SUSPEND \/ th_stat th' = RT_THREAD_CLOSE ->
  (th_stat th' = RT_THREAD_CLOSE \/ th_stat th ≠ RT_THREAD_CLOSE) ->
  kinv_at lo X (set_threads (<[t := th']> (threads s)) (detached t th s)) /\
  (forall q, t ∉ qget (detached t th s) q).
Proof.
  intros Hk Ht Htm Hth' Hst Hcl. pose proof (ki_sched _ _ _ Hk) as [Hq Hc Hok].
  pose proof (thread_ok_lookup _ _ _ Hok Ht) as Hth. split.
  - split; [split| | |]; simpl.
    + eapply queue_place_none; [|by apply lookup_insert_eq|lia].
      by apply queue_update_exempt, queue_detach.
    + eapply current_ok_replace; [done..| |]; lia.
    + by apply threads_ok_insert.
    + apply Hk.
    + eapply objs_ok_update; [done..|]. naive_solver.
    + eapply active_ok_update; [done..|].
      destruct (decide (OThreadTimer t ∈ rt_timer_list s)) as [Hin|]; [|by right]. left.
      destruct (ki_active _ _ _ Hk t Hin) as (th0 & ? & Hs). simplify_eq. rewrite Hs.
      by destruct (Htm Hs).
  - intros q. simpl. rewrite qlist_remove, elem_of_list_del. naive_solver.
Qed.

Lemma wp_thread_suspend lo X t th s Q :
  kinv_at lo X s -> threads s !! t = Some th ->
  th_stat th = RT_THREAD_READY \/ th_stat th = RT_THREAD_RUNNING -> X ≠ Some (OThreadTimer t) ->
  (forall tx, objects s !! OThreadTimer t = Some tx -> kinv_at lo X (suspended t th tx s) ->
     (forall q, t ∉ qget (suspended t th tx s) q) -> OThreadTimer t ∉ rt_timer_list (suspended t th tx s) ->
     Q RT_EOK (suspended t th tx s)) ->
  wp (rt_thread_suspend t) Q s.
Proof.
  intros Hk Ht Hst HX HQ. pose proof (kinv_thread_ok Hk Ht) as Hth.
  destruct (kinv_thread_objects Hk Ht) as ((x & Hx & Htx) & (tx & Ex & Hty & Hp & Hstatic) & _); [lia|].
  unfold rt_thread_suspend. wp_norm. exists x. split_and!; [done..|]. wp_norm. exists th. split; [done|].
  rewrite stat_mask by apply Hth.
  replace (negb (th_stat th =? RT_THREAD_READY) && negb (th_stat th =? RT_THREAD_RUNNING)) with false
    by (destruct Hst as [-> | ->]; done).
  wp_norm. apply wp_when_assert.
  { rewrite bool_decide_eq_true, Z.eqb_eq. by apply (co_running _ _ (si_current _ (ki_sched _ _ _ Hk))). }
  wp_norm. apply (wp_remove_thread t th); [done|]. fold (unlinked t s). fold (detached t th s).
  wp_norm. exists th. split; [done|]. wp_norm. rewrite stat_set_ok by apply Hth.
  destruct (kinv_detached lo X s t th (set_th_stat RT_THREAD_SUSPEND th) Hk Ht) as [Hk1 Hno];
    [lia|apply thread_ok_set_stat; [done|lia|lia]|by left|lia|].
  eapply (wp_timer_stop lo X); [exact (ki_timer _ _ _ Hk1)|done|done|]. wp_norm.
  pose proof (kinv_timer_stopped lo X _ (OThreadTimer t) tx Hk1 Ex) as Hk'. rewrite decide_False in Hk' by done.
  apply (HQ tx Ex Hk' Hno). simpl. rewrite elem_of_list_del. naive_solver.
Qed.

(** ** Starting the timer of a suspended thread *)

Lemma objs_ok_timer ths objs ts o tm tm' :
  objs_ok ths objs ts -> ts !! o = Some tm -> tm_timeout_func tm' = tm_timeout_func tm ->
  objs_ok ths objs (<[o := tm']> ts).
Proof.
  intros H Ho Hf. split; [|apply H|].
  - intros t th Ht Hc. destruct (oo_thread _ _ _ H t th Ht Hc) as (? & ? & (tm0 & Htm & ?)).
    split_and!; [done..|]. destruct (decide (o = OThreadTimer t)) as [->|]; [|exists tm0; by rewrite lookup_insert_ne].
    rewrite lookup_insert_eq. simplify_eq. eexists. split; [done|congruence].
  - intros n tm0. destruct (decide (o = OTimer n)) as [->|].
    + rewrite lookup_insert_eq. intros [= <-]. rewrite Hf. by apply (oo_user _ _ _ H n).
    + rewrite lookup_insert_ne by done. apply (oo_user _ _ _ H).
Qed.

(** Everything but the timers: [s'] differs from [s] in the timers, their list and their flags. *)
Record timer_change (s s' : kernel) : Prop := {
  tc_threads : threads s' = threads s;
  tc_queues : queues s' = queues s;
  tc_group : rt_thread_ready_priority_group s' = rt_thread_ready_priority_group s;
  tc_current : rt_current_thread s' = rt_current_thread s;
  tc_lock : rt_scheduler_lock_nest s' = rt_scheduler_lock_nest s;
  tc_nest : rt_interrupt_nest s' = rt_interrupt_nest s;
  tc_tick : rt_tick s' = rt_tick s;
  tc_objects : forall o, (forall t, o ≠ OThreadTimer t) -> objects s' !! o = objects s !! o;
  tc_sems : sems s' = sems s;
  tc_mutexes : mutexes s' = mutexes s;
  tc_events : events s' = events s;
  tc_mailboxes : mailboxes s' = mailboxes s;
  tc_msgqueues : msgqueues s' = msgqueues s;
}.

#[export] Instance timer_change_preorder : PreOrder timer_change.
Proof.
  split; [by intros s; split|]. intros s1 s2 s3 H12 H23. split; try (destruct H12, H23; congruence).
  intros o Ho. by rewrite (tc_objects _ _ H23), (tc_objects _ _ H12).
Qed.

(** The timer of [t] runs and expires in [time] ticks. *)
Definition timer_armed (t : nat) (time : Z) (s : kernel) : Prop :=
  OThreadTimer t ∈ rt_timer_list s /\ tdelta_at (timers s) (rt_tick s) (OThreadTimer t) = time.

Lemma wp_thread_timer_start lo t th time s Q :
  kinv_at lo None s -> -1 <= lo <= 0 -> threads s !! t = Some th -> th_stat th = RT_THREAD_SUSPEND ->
  OThreadTimer t ∉ rt_timer_list s -> 0 <= time < TIMER_MAX ->
  (forall s', kinv_at lo None s' -> timer_change s s' -> timer_armed t time s' -> Q RT_EOK s') ->
  wp (rt_timer_control (OThreadTimer t) RT_TIMER_CTRL_SET_TIME time)
     (fun _ => wp (rt_timer_start (OThreadTimer t)) Q) s.
Proof.
  intros Hk Hlo Ht Hst Hidle Hti HQ. pose proof (ki_timer _ _ _ Hk) as Hinv.
  destruct (kinv_thread_objects Hk Ht) as (_ & (tx & Ex & Hty & Hp & Hstatic) & (tm & Etm & Hf)); [lia|].
  eapply wp_timer_set_time; [done..|].
  set (s1 := set_timers (<[OThreadTimer t := set_tm_init_tick time tm]> (timers s)) s).
  assert (timer_inv lo None s1) as Hinv1.
  { apply timers_update; [done|]. intros x Hx Htx. destruct (activated x) eqn:Ha; [|done].
    by destruct Hidle; eapply (tk_act _ _ _ _ _ _ Hinv). }
  eapply (wp_timer_start lo); [exact Hinv1|done|exact Ex|done|simpl; by rewrite lookup_insert_eq|done|by rewrite Hp|].
  simpl. rewrite (list_del_notin (OThreadTimer t)) by done. intros l1 l2 El _ _ Hinv2.
  apply HQ.
  - split; [by destruct (ki_sched _ _ _ Hk)|exact Hinv2| |]; simpl.
    + eapply objs_ok_timer; [|by rewrite lookup_insert_eq|done].
      eapply objs_ok_timer; [|done|done]. apply (objs_ok_flag _ _ _ _ tx); [apply Hk|done|].
      unfold set_activated. rewrite <- (periodic_clear tx). exact (periodic_set (clear_activated tx)).
    + intros u Hu. destruct (decide (u = t)) as [->|]; [by eauto|]. apply (ki_active _ _ _ Hk).
      rewrite El. set_solver.
  - split; try done. intros o Ho. simpl. rewrite lookup_insert_ne; [done|]. intros <-. by apply (Ho t).
  - split; [simpl; set_solver|]. simpl. unfold tdelta_at. rewrite lookup_insert_eq. by apply tdelta_set.
Qed.

(** ** Frames of the operations on waiting lists *)

(** What no suspension, wake-up or rescheduling changes. *)
Record kframe (s s' : kernel) : Prop := {
  kf_tick : rt_tick s' = rt_tick s;
  kf_lock : rt_scheduler_lock_nest s' = rt_scheduler_lock_nest s;
  kf_nest : rt_interrupt_nest s' = rt_interrupt_nest s;
  kf_objects : forall o, (forall t, o ≠ OThreadTimer t) -> objects s' !! o = objects s !! o;
  kf_sems : sems s' = sems s;
  kf_mutexes : mutexes s' = mutexes s;
  kf_events : events s' = events s;
  kf_mailboxes : mailboxes s' = mailboxes s;
  kf_msgqueues : msgqueues s' = msgqueues s;
}.

#[export] Instance kframe_preorder : PreOrder kframe.
Proof.
  split; [by intros s; split|]. intros s1 s2 s3 H12 H23. split; try (destruct H12, H23; congruence).
  intros o Ho. by rewrite (kf_objects _ _ H23), (kf_objects _ _ H12).
Qed.

Lemma resched_kframe s s' : resched s s' -> kframe s s'.
Proof. intros [[] _ _]. split; try done. intros. congruence. Qed.

Lemma timer_change_kframe s s' : timer_change s s' -> kframe s s'.
Proof. intros []. by split. Qed.

Lemma suspended_kframe t th tx s : kframe s (suspended t th tx s).
Proof. split; try done. intros o Ho. simpl. rewrite lookup_insert_ne; [done|]. intros <-. by apply (Ho t). Qed.

Lemma resumed_kframe t th tx s : kframe s (resumed t th tx s).
Proof.
  unfold resumed, inserted. case_bool_decide; (split; try done);
    intros o Ho; simpl; rewrite lookup_insert_ne; try done; intros <-; by apply (Ho t).
Qed.

(** A thread that is at most switched between READY and RUNNING. *)
Definition shuffled (o o' : option thread) : Prop :=
  o' = o \/ exists th st, o = Some th /\ o' = Some (set_th_stat st th) /\
    (th_stat th = RT_THREAD_READY \/ th_stat th = RT_THREAD_RUNNING) /\
    (st = RT_THREAD_READY \/ st = RT_THREAD_RUNNING).

#[export] Instance shuffled_preorder : PreOrder shuffled.
Proof.
  split; [by left|]. intros o1 o2 o3 H12 [->|(th2 & st2 & -> & -> & Ho2 & Hn2)]; [done|].
  right. destruct H12 as [<-|(th1 & st1 & -> & [= ->] & Ho1 & Hn1)].
  - exists th2, st2. done.
  - exists th1, st2. done.
Qed.

Lemma shuffled_wait th o' : th_stat th = RT_THREAD_SUSPEND -> shuffled (Some th) o' -> o' = Some th.
Proof. intros Hs [->|(th0 & st & [= <-] & _ & [E|E] & _)]; [done|lia|lia]. Qed.

(** ** A thread that goes to sleep *)

(** What the rest of the system sees of [s'] when the running thread [t] has blocked in [s]: [t] waits,
    and the others may have been switched. *)
Record gone_waiting (t : nat) (th : thread) (s s' : kernel) : Prop := {
  gw_self : threads s' !! t = Some (set_th_stat RT_THREAD_SUSPEND th);
  gw_others : forall u, u ≠ t -> shuffled (threads s !! u) (threads s' !! u);
  gw_frame : kframe s s';
}.

(** [s1] is [s] with [t] suspended (and its waiting list updated), [s2] has its timer started, and [s3]
    is rescheduled. *)
Lemma gone_waiting_steps t th tx qs s s1 s2 s3 :
  s1 = set_queues qs (suspended t th tx s) -> timer_change s1 s2 -> resched s2 s3 -> gone_waiting t th s s3.
Proof.
  intros -> Hc Hr. split.
  - eapply resched_stable; [done| |simpl; lia|simpl; lia].
    rewrite (tc_threads _ _ Hc). simpl. by rewrite lookup_insert_eq.
  - intros u Hu. replace (threads s !! u) with (threads s2 !! u); [apply (rs_thread _ _ Hr)|].
    rewrite (tc_threads _ _ Hc). simpl. by rewrite lookup_insert_ne.
  - etrans; [|by apply resched_kframe]. etrans; [|by apply timer_change_kframe].
    destruct (suspended_kframe t th tx s). by split.
Qed.

(** ** A thread that is woken up *)

Record woken (t : nat) (th : thread) (s s' : kernel) : Prop := {
  wk_self : exists st, threads s' !! t = Some (set_th_stat st th) /\
    (st = RT_THREAD_READY \/ st = RT_THREAD_RUNNING);
  wk_others : forall u, u ≠ t -> shuffled (threads s !! u) (threads s' !! u);
  wk_queues : forall q, (forall p, q ≠ QReady p) -> qget s' q = list_del t (qget s q);
  wk_frame : kframe s s';
}.

Lemma woken_resumed t th tx s : woken t th s (resumed t th tx s).
Proof.
  split; [| | |apply resumed_kframe]; unfold resumed, inserted; case_bool_decide; simpl.
  - eexists. rewrite lookup_insert_eq. split; [done|by right].
  - eexists. rewrite lookup_insert_eq. split; [done|by left].
  - intros u Hu. by rewrite lookup_insert_ne.
  - intros u Hu. by rewrite lookup_insert_ne.
  - intros q Hq. by rewrite qlist_remove.
  - intros q Hq. rewrite qlist_push_back, decide_False by (intros <-; by eapply Hq). by rewrite qlist_remove.
Qed.

Lemma woken_resched t th s s1 s2 : woken t th s s1 -> resched s1 s2 -> woken t th s s2.
Proof.
  intros [(st & Hst & Hs) Ho Hq Hf] Hr. split.
  - destruct (rs_thread _ _ Hr t) as [E|(th0 & st' & E & E' & _ & ?)].
    + exists st. by rewrite E.
    + exists st'. rewrite E' . rewrite Hst in E. injection E as <-. done.
  - intros u Hu. etrans; [by apply Ho|apply (rs_thread _ _ Hr)].
  - intros q Hnr. rewrite (rs_waits _ _ Hr) by done. by apply Hq.
  - etrans; [done|by apply resched_kframe].
Qed.

(** The state after the schedule no longer runs the sleeping thread. *)
Lemma highest_not_suspended t th s :
  highest_running s -> threads s !! t = Some th -> th_stat th = RT_THREAD_SUSPEND ->
  rt_current_thread s ≠ Some t.
Proof. intros (u & uh & Hu & Huh & Hr & _) Ht Hs Hc. simplify_eq. lia. Qed.

(** ** [rt_thread_control] with [RT_THREAD_CTRL_CHANGE_PRIORITY] *)

(** A change of a thread that is not READY and keeps its state. *)
Lemma queue_update_unready X ths qs g t th th' :
  queue_ok X ths qs g -> ths !! t = Some th -> th_stat th' = th_stat th -> th_stat th ≠ RT_THREAD_READY ->
  queue_ok X (<[t := th']> ths) qs g.
Proof.
  intros H Ht Hs Hn. split; try apply H.
  - intros q u Hin. apply (qo_loc _ _ _ _ H) in Hin as (HX & uh & Hu & Hl). split; [done|].
    destruct (decide (t = u)) as [->|Hne]; [|rewrite lookup_insert_ne by done; eauto].
    rewrite lookup_insert_eq. exists th'. simplify_eq. split; [done|]. destruct q; simpl in *; [by destruct Hl|congruence..].
  - intros u uh HX. destruct (decide (t = u)) as [->|Hne].
    + rewrite lookup_insert_eq. intros [= <-]. by rewrite Hs.
    + rewrite lookup_insert_ne by done. by apply (qo_ready _ _ _ _ H).
Qed.

Lemma thread_ok_set_priority p th : thread_ok th -> prio_ok p -> thread_ok (set_priority p th).
Proof. intros [H1 [H2 H2'] H3 H4] Hp. split; [done|done|by left|done]. Qed.

(** The threads and the frames of a change of priority. *)
Record reprioritised (t : nat) (th : thread) (p : Z) (s s' : kernel) : Prop := {
  rp_threads : threads s' = <[t := set_priority p th]> (threads s);
  rp_queues : forall q, (forall p, q ≠ QReady p) -> qget s' q = qget s q;
  rp_current : rt_current_thread s' = rt_current_thread s;
  rp_list : rt_timer_list s' = rt_timer_list s;
  rp_frame : kframe s s';
}.

Lemma kinv_reprioritised lo X t th p s s' :
  kinv_at lo X s -> threads s !! t = Some th -> th_stat th ≠ RT_THREAD_CLOSE -> prio_ok p ->
  threads s' = <[t := set_priority p th]> (threads s) ->
  queue_ok None (threads s') (queues s') (rt_thread_ready_priority_group s') ->
  rt_current_thread s' = rt_current_thread s -> rt_timer_list s' = rt_timer_list s ->
  rt_tick s' = rt_tick s -> timers s' = timers s -> objects s' = objects s -> kinv_at lo X s'.
Proof.
  intros Hk Ht Hc Hp Eth Hq Ec El Et Etm Eo. pose proof (ki_sched _ _ _ Hk) as [_ Hcur Hok].
  split; [split| | |].
  - done.
  - rewrite Eth, Ec. by eapply current_ok_update.
  - rewrite Eth. apply threads_ok_insert; [done|]. apply thread_ok_set_priority; [|done].
    by eapply thread_ok_lookup.
  - unfold timer_inv. rewrite El, Et, Etm, Eo. apply Hk.
  - rewrite Eth, Etm, Eo. eapply objs_ok_update; [done..|]. by left.
  - rewrite Eth, El. eapply active_ok_update; [done..|]. by left.
Qed.

Lemma wp_change_priority lo X t th p s Q :
  kinv_at lo X s -> threads s !! t = Some th -> th_stat th ≠ RT_THREAD_CLOSE -> prio_ok p ->
  (forall s', kinv_at lo X s' -> reprioritised t th p s s' -> Q RT_EOK s') ->
  wp (rt_thread_control t RT_THREAD_CTRL_CHANGE_PRIORITY p) Q s.
Proof.
  intros Hk Ht Hcl Hp HQ. pose proof (kinv_thread_ok Hk Ht) as Hth.
  destruct (kinv_thread_objects Hk Ht Hcl) as ((x & Hx & Htx) & _).
  pose proof (ki_sched _ _ _ Hk) as [Hq Hcur Hok].
  unfold rt_thread_control. wp_norm. exists x. split_and!; [done..|]. simpl. wp_norm. exists th. split; [done|].
  rewrite stat_mask by apply Hth. wp_norm. destruct (Z.eqb_spec (th_stat th) RT_THREAD_READY) as [Hr|Hr].
  - wp_norm. apply (wp_remove_thread t th); [done|]. wp_norm. exists th. split; [done|]. wp_norm.
    assert (thread_ok (set_priority p th)) as Hth' by (by apply thread_ok_set_priority).
    assert (rt_current_thread s ≠ Some t) as Hnc.
    { intros Hc. destruct (co_current _ _ Hcur t Hc) as (th0 & ? & ? & _). by simplify_eq. }
    apply (wp_insert_other t (set_priority p th)); [simpl; apply lookup_insert_eq|done|done|]. wp_norm. simpl.
    assert (set_th_stat RT_THREAD_READY (set_priority p th) = set_priority p th) as Est.
    { rewrite <- Hr. by destruct th. }
    rewrite Est, insert_insert_eq. set (s' := set_rt_thread_ready_priority_group _ _). apply HQ.
    + eapply (kinv_reprioritised lo X t th p s); [done|done|done|done|done| |done..]. simpl.
      refine (queue_place_ready t (set_priority p th) _ _ _ _); [|apply lookup_insert_eq|done|done].
      by apply queue_update_exempt, queue_detach.
    + split; try done. intros q Hnr. simpl. rewrite qlist_push_back, decide_False by (intros <-; by eapply Hnr).
      rewrite qlist_remove. apply list_del_notin. intros Hin.
      destruct (qo_loc _ _ _ _ Hq q t Hin) as (_ & th0 & ? & Hl). simplify_eq.
      destruct q; simpl in Hl; try lia. by eapply Hnr.
  - wp_norm. exists th. split; [done|]. wp_norm. apply HQ.
    + eapply (kinv_reprioritised lo X t th p s); [done|done|done|done|done| |done..]. simpl.
      by eapply queue_update_unready.
    + by split.
Qed.


(** ** A decision procedure for the invariant *)

Definition thread_objectsb (objs : gmap obj_id rt_object) (ts : gmap obj_id rt_timer) (t : nat) : bool :=
  match objs !! OThread t, objs !! OThreadTimer t, ts !! OThreadTimer t with
  | Some x, Some tx, Some tm =>
      (obj_type x .&~ RT_Object_Class_Static =? RT_Object_Class_Thread) && timer_typedb tx &&
      negb (periodic tx) && static_obj tx && bool_decide (tm_timeout_func tm = CbThreadTimeout t)
  | _, _, _ => false
  end.

Definition is_timer_id (o : obj_id) : bool :=
  match o with OThreadTimer _ | OTimer _ => true | _ => false end.

Definition is_user_timer (ot : obj_id * rt_timer) : bool :=
  match ot.1, tm_timeout_func ot.2 with
  | OTimer _, CbUser _ => true
  | OTimer _, _ => false
  | _, _ => true
  end.

Definition objs_okb (s : kernel) : bool :=
  forallb (fun tth : nat * thread => (th_stat tth.2 =? RT_THREAD_CLOSE) ||
    thread_objectsb (objects s) (timers s) tth.1) (map_to_list (threads s)) &&
  forallb (fun ox : obj_id * rt_object => negb (timer_typedb ox.2) || is_timer_id ox.1)
    (map_to_list (objects s)) &&
  forallb is_user_timer (map_to_list (timers s)).

Definition activeb (s : kernel) : bool :=
  forallb (fun o => match o with
                    | OThreadTimer t => match threads s !! t with
                                        | Some th => th_stat th =? RT_THREAD_SUSPEND
                                        | None => false
                                        end
                    | _ => true
                    end) (rt_timer_list s).

Definition kinvb (s : kernel) : bool := sched_invb s && timer_invb 0 s && objs_okb s && activeb s.

Lemma thread_objectsb_sound objs ts t : thread_objectsb objs ts t = true -> thread_objects objs ts t.
Proof.
  unfold thread_objectsb, thread_objects, thread_typed, timer_typed, timer_typedb.
  destruct (objs !! OThread t) as [x|], (objs !! OThreadTimer t) as [tx|], (ts !! OThreadTimer t) as [tm|]; try done.
  rewrite !andb_true_iff, !Z.eqb_eq, negb_true_iff, bool_decide_eq_true. intros [[[[? ?] ?] ?] ?]. split_and!; eauto.
Qed.

Lemma objs_okb_sound s : objs_okb s = true -> objs_ok (threads s) (objects s) (timers s).
Proof.
  unfold objs_okb. rewrite !andb_true_iff. intros [[H1 H2] H3]. split.
  - intros t th Ht Hc. apply (forallb_map_to_list _ _ H1) in Ht. simpl in Ht.
    apply orb_true_iff in Ht as [Ht|Ht]; [lia|by apply thread_objectsb_sound].
  - intros o x Hx Hty. apply (forallb_map_to_list _ _ H2) in Hx. simpl in Hx.
    unfold timer_typed, timer_typedb in *. rewrite Hty in Hx. destruct o; simpl in Hx; try done; eauto.
  - intros n tm Htm. apply (forallb_map_to_list _ _ H3) in Htm. unfold is_user_timer in Htm. simpl in Htm.
    destruct (tm_timeout_func tm); [done|eauto..].
Qed.

Lemma kinvb_sound s : kinvb s = true -> kinv s.
Proof.
  unfold kinvb. rewrite !andb_true_iff. intros [[[H1 H2] H3] H4]. split.
  - by apply sched_invb_sound.
  - by apply timer_invb_sound.
  - by apply objs_okb_sound.
  - intros t Ht. unfold activeb in H4. rewrite forallb_forall in H4.
    specialize (H4 _ (proj1 (list_elem_of_In _ _) Ht)). simpl in H4.
    destruct (threads s !! t) as [th|]; [|done]. exists th. split; [done|lia].
Qed.

(** ** An example *)

Definition static_object (type flag : Z) : rt_object := mkObject "o" (type .| RT_Object_Class_Static) flag.

(** The thread 0 runs at the priority 10; 1 and 2 are ready at 15 and 31 (the idle thread); 3 waits for
    the semaphore 0 with its timer armed, 4 for the mutex 1, 5 on the event 0, 6 on the mailbox 0 and 7
    on the message queue 0. The tick is about to wrap, and the user timer 0, which is periodic, is due at
    the next tick. *)
Definition demo_kernel : kernel :=
  mkKernel
    (list_to_map [(0%nat, demo_thread 0 RT_THREAD_RUNNING 10); (1%nat, demo_thread 1 RT_THREAD_READY 15);
       (2%nat, demo_thread 2 RT_THREAD_READY 31); (3%nat, demo_thread 3 RT_THREAD_SUSPEND 8);
       (4%nat, demo_thread 4 RT_THREAD_SUSPEND 20);
       (5%nat, set_th_event_info 2 (set_th_event_set 1 (demo_thread 5 RT_THREAD_SUSPEND 12)));
       (6%nat, demo_thread 6 RT_THREAD_SUSPEND 13); (7%nat, demo_thread 7 RT_THREAD_SUSPEND 5)])
    (list_to_map (((fun t => (OThread t, static_object RT_Object_Class_Thread 0)) <$> seq 0 8) ++
       ((fun t => (OThreadTimer t, static_object RT_Object_Class_Timer (if (t =? 3)%nat then 1 else 0))) <$> seq 0 8) ++
       [(OTimer 0, static_object RT_Object_Class_Timer 3);
        (OSem 0, static_object RT_Object_Class_Semaphore 0); (OSem 1, static_object RT_Object_Class_Semaphore 1);
        (OMutex 0, static_object RT_Object_Class_Mutex 1); (OMutex 1, static_object RT_Object_Class_Mutex 1);
        (OEvent 0, static_object RT_Object_Class_Event 0);
        (OMailBox 0, static_object RT_Object_Class_MailBox 0); (OMailBox 1, static_object RT_Object_Class_MailBox 1);
        (OMsgQueue 0, static_object RT_Object_Class_MessageQueue 0);
        (OMsgQueue 1, static_object RT_Object_Class_MessageQueue 0)]))
    ∅
    (list_to_map [(QReady 15, [1%nat]); (QReady 31, [2%nat]); (QSuspend (OSem 0), [3%nat]);
       (QSuspend (OMutex 1), [4%nat]); (QSuspend (OEvent 0), [5%nat]); (QSuspend (OMailBox 0), [6%nat]);
       (QSuspend (OMsgQueue 0), [7%nat])])
    2147516416 (Some 0%nat) 10 0 0 4294967290
    (list_to_map ((OTimer 0, mkTimer (CbUser 0) 4 4294967291) ::
       ((fun t => (OThreadTimer t, mkTimer (CbThreadTimeout t) 5 4294967295)) <$> seq 0 8)))
    [OTimer 0; OThreadTimer 3] 0 ∅ ∅ ∅ ∅ ∅.

Lemma demo_kernel_inv : kinv demo_kernel.
Proof. apply kinvb_sound. vm_compute. reflexivity. Qed.
