(* ===== verification/Tick.v ===== *)
(** The clock interrupt: [rt_tick_increase] (src/clock.c), which ends the time slice of the running
    thread and runs the timers that are due, wakes up the threads whose wait is over. *)

From S2P Require Import Prelude RtDef Object Scheduler Timer Thread Kernel.

(** The part of the clock interrupt in front of the timers: the tick and the time slices. *)
Record tick_frame (s s' : kernel) : Prop := {
  kt_threads : forall t, threads s' !! t = threads s !! t \/
    exists th v, threads s !! t = Some th /\ threads s' !! t = Some (set_th_remaining_tick v th);
  kt_queues : queues s' = queues s;
  kt_current : rt_current_thread s' = rt_current_thread s;
  kt_lock : rt_scheduler_lock_nest s' = rt_scheduler_lock_nest s;
  kt_nest : rt_interrupt_nest s' = rt_interrupt_nest s;
  kt_objects : objects s' = objects s;
  kt_timers : timers s' = timers s;
  kt_timer_list : rt_timer_list s' = rt_timer_list s;
  kt_sems : sems s' = sems s;
  kt_mutexes : mutexes s' = mutexes s;
  kt_events : events s' = events s;
  kt_mailboxes : mailboxes s' = mailboxes s;
  kt_msgqueues : msgqueues s' = msgqueues s;
}.

(** A property of the kernel that the clock interrupt keeps, one obligation per step of it. [I (Some o)] is the
    property while the timer [o] has left the list and its function has yet to run, [I None] the property at
    all other times. *)
Class TickInv (I : option obj_id -> kernel -> Prop) := {
  ti_frame s s' : tick_frame s s' -> I None s -> I None s';
  ti_resched s s' : sched_inv s' -> resched s s' -> (rt_scheduler_lock_nest s = 0 -> runnable s -> highest_running s') ->
    I None s -> I None s';
  ti_pop s o l : rt_timer_list s = o :: l -> I None s -> I (Some o) (set_rt_timer_list l s);
  ti_timeout X t th s s' : kinv_at (-1) X s -> threads s !! t = Some th -> th_stat th = RT_THREAD_SUSPEND ->
    kinv_at (-1) X s' -> resched (timed_out t th s) s' -> timer_frame s s' ->
    (rt_scheduler_lock_nest s = 0 -> highest_running s') -> I (Some (OThreadTimer t)) s -> I None s';
  ti_fired o x tm s s1 : (exists t, o = OThreadTimer t) /\ periodic x = false \/ (exists n, o = OTimer n) ->
    fired o x tm s s1 -> I None s -> I None s1;
}.

#[export] Instance tick_inv_true : TickInv (fun _ _ => True).
Proof. by split. Qed.

(** Two such properties at once. *)
#[export] Instance tick_inv_and I J : TickInv I -> TickInv J -> TickInv (fun X s => I X s /\ J X s).
Proof.
  intros HI HJ. split.
  - intros s s' Hf [? ?]. split; by eapply (ti_frame s).
  - intros s s' Hs Hr Hh [? ?]. split; by eapply (ti_resched s).
  - intros s o l El [? ?]. split; by apply ti_pop.
  - intros X t th s s' Hk Ht Hst Hk' Hr Hf Hh [? ?]. split; by eapply (ti_timeout X t th s).
  - intros o x tm s s1 Ho Hf [? ?]. split; by eapply (ti_fired o x tm s).
Qed.

(** What the kernel asks of the user's timeout functions: they return, keep the kernel's invariant, the property
    [I] and the timer that is firing, and make no further timer due. *)
Class UserTimeoutsOk (I : option obj_id -> kernel -> Prop) `{UserTimeouts} := user_timeouts_ok : forall k n s c,
  kinv_at (-1) (Some (OTimer n)) s -> rt_current_thread s = Some c -> I (Some (OTimer n)) s ->
  wp (user_timeout k) (fun _ s' =>
    kinv_at (-1) (Some (OTimer n)) s' /\ I None s' /\
    timers s' !! OTimer n = timers s !! OTimer n /\ objects s' !! OTimer n = objects s !! OTimer n /\
    rt_tick s' = rt_tick s /\ is_Some (rt_current_thread s') /\
    (length (due s') <= length (due s))%nat) s.

(** The first timer is taken off the list. *)
Lemma kinv_pop s o l :
  kinv_at (-1) None s -> rt_timer_list s = o :: l -> kinv_at (-1) (Some o) (set_rt_timer_list l s).
Proof.
  intros [H1 H2 H3 H4] El. split; [by destruct H1|by apply (timers_pop (-1) o l H2)|done|].
  intros t Ht. apply H4. rewrite El. by right.
Qed.

Lemma due_pop s o l :
  rt_timer_list s = o :: l -> tdelta_at (timers s) (rt_tick s) o <= 0 ->
  due s = o :: due (set_rt_timer_list l s).
Proof. intros El Hd. unfold due. rewrite El. by apply filter_cons_True. Qed.

(** The timer is stopped or restarted after its timeout function has returned. *)
Lemma kinv_fired o x tm X s' s1 :
  kinv_at (-1) X s' -> objects s' !! o = Some x -> timers s' !! o = Some tm ->
  (periodic x = true -> forall t, o ≠ OThreadTimer t) ->
  fired o x tm s' s1 -> timer_inv (-1) None s1 -> kinv_at (-1) None s1.
Proof.
  intros [H1 H2 H3 H4] Hx Htm Hth Hf Hinv.
  pose proof (objs_ok_flag _ _ _ o x _ H3 Hx (periodic_clear x)) as Ho.
  destruct Hf as [Hp|l1 l2 Hp El]; (split; [by destruct H1|done| |]); simpl.
  - exact Ho.
  - done.
  - eapply objs_ok_timer; [|done|done].
    apply (objs_ok_flag _ _ _ o (clear_activated x)); [exact Ho|by rewrite lookup_insert_eq|].
    exact (eq_trans (periodic_set (clear_activated (clear_activated x))) (periodic_clear (clear_activated x))).
  - intros t Ht. apply H4. rewrite El. assert (OThreadTimer t ≠ o) by (intros <-; by eapply Hth). set_solver.
Qed.

Section tick.
Context (I : option obj_id -> kernel -> Prop) `{TickInv I} `{UserTimeoutsOk I}.

(** One timer fires. *)
Lemma wp_fire_kinv o l s :
  kinv_at (-1) None s -> I None s -> is_Some (rt_current_thread s) -> rt_timer_list s = o :: l ->
  tdelta_at (timers s) (rt_tick s) o <= 0 ->
  wp (timer_fire o) (fun _ s1 => kinv_at (-1) None s1 /\ I None s1 /\ is_Some (rt_current_thread s1) /\
    rt_tick s1 = rt_tick s /\ (length (due s1) < length (due s))%nat) s.
Proof.
  intros Hk HI [c Hc] El Hd. pose proof (kinv_pop s o l Hk El) as Hkp.
  pose proof (ti_pop s o l El HI) as HIp.
  destruct (tk_elem _ _ _ _ _ _ (ki_timer _ _ _ Hk) o) as (_ & tm & x & Htm & Hx & Hty & Hact & Hb);
    [rewrite El; by left|].
  rewrite (due_pop s o l El Hd). simpl.
  pose proof (oo_kind _ _ _ (ki_objs _ _ _ Hk) o x Hx Hty) as Hkind.
  assert (forall s', kinv_at (-1) (Some o) s' -> I None s' -> rt_tick s' = rt_tick s -> is_Some (rt_current_thread s') ->
    timers s' !! o = Some tm -> objects s' !! o = Some x ->
    (periodic x = true -> forall t, o ≠ OThreadTimer t) ->
    (length (due s') <= length (due (set_rt_timer_list l s)))%nat ->
    timer_inv (-1) (Some o) s' /\ timers s' !! o = Some tm /\ objects s' !! o = Some x /\
    forall s1, fired o x tm s' s1 -> timer_inv (-1) None s1 -> due s1 = due s' ->
      kinv_at (-1) None s1 /\ I None s1 /\ is_Some (rt_current_thread s1) /\ rt_tick s1 = rt_tick s /\
      (length (due s1) < S (length (due (set_rt_timer_list l s))))%nat) as Hafter.
  { intros s' Hk' HI' Et Hcur Htm' Hx' Hp Hdue. split_and!; [apply Hk'|done|done|].
    intros s1 Hf Hinv Ed. split_and!.
    - by eapply kinv_fired.
    - eapply ti_fired; [|exact Hf|done]. destruct Hkind as [[t ->]|?]; [left|by right].
      split; [by exists t|]. destruct (periodic x); [by destruct (Hp eq_refl t)|done].
    - by destruct Hf.
    - by destruct Hf.
    - rewrite Ed. lia. }
  eapply wp_timer_fire; [apply Hk|done|done|done|]. intros _.
  destruct Hkind as [[t ->]|[n ->]].
  - destruct (ki_active _ _ _ Hk t) as (th & Hth & Hst); [rewrite El; by left|].
    destruct (oo_thread _ _ _ (ki_objs _ _ _ Hk) t th Hth) as (_ & (tx & Etx & _ & Hper & _) & (tm' & Etm & Hfn)); [lia|].
    simplify_eq. rewrite Hfn. simpl. eapply (wp_thread_timeout _ _ t th c); [exact Hkp|done|done| |done|].
    + simpl. pose proof (tk_nodup _ _ _ _ _ _ (ki_timer _ _ _ Hk)) as Hnd. rewrite El in Hnd.
      by apply NoDup_cons in Hnd as [? _].
    + intros s' Hk' Hr Htf Hcur Hh. pose proof Htf as [Ets Els Eti Eob]. apply Hafter; [done| |done|done|by rewrite Ets|by rewrite Eob|by rewrite Hper|].
      { eapply (ti_timeout _ t th (set_rt_timer_list l s)); [exact Hkp|done..]. }
      unfold due. by rewrite Ets, Els, Eti.
  - destruct (oo_user _ _ _ (ki_objs _ _ _ Hk) n tm Htm) as [k Hfn]. rewrite Hfn. simpl.
    eapply wp_mono; [eapply (user_timeouts_ok k n _ c); [exact Hkp|done..]|].
    intros [] s' (Hk' & HI' & Etm & Eob & Eti & Hcur & Hdue).
    apply Hafter; [done|done|done|done|by rewrite Etm|by rewrite Eob|done|done].
Qed.

Lemma wp_check_kinv n s :
  kinv_at (-1) None s -> I None s -> is_Some (rt_current_thread s) -> (length (due s) <= n)%nat ->
  wp (timer_check_loop (S n) (rt_tick s)) (fun _ s' => kinv_at 1 None s' /\ I None s' /\
    is_Some (rt_current_thread s') /\ rt_tick s' = rt_tick s) s.
Proof.
  revert s. induction n as [|n IH]; intros s Hk HI Hc Hn.
  all: cbn [timer_check_loop]; rewrite wp_bind, wp_gets; destruct (rt_timer_list s) as [|o l] eqn:El.
  1, 3: rewrite wp_ret; split_and!; [destruct Hk; split; try done|done|done|done];
    apply timers_none_due; [done|by rewrite El].
  all: destruct (tk_elem _ _ _ _ _ _ (ki_timer _ _ _ Hk) o) as (_ & tm & x & Htm & Hx & Hty & Hact & Hb);
    [rewrite El; by left|].
  all: assert (tdelta_at (timers s) (rt_tick s) o = tdelta (rt_tick s) tm) as Eo by (unfold tdelta_at; by rewrite Htm).
  all: rewrite wp_bind, wp_get_timer; exists tm; (split; [done|]); rewrite tick_due by lia;
    destruct (Z.leb_spec (tdelta (rt_tick s) tm) 0) as [Hd|Hd].
  2, 4: rewrite wp_ret; split_and!; [destruct Hk; split; try done|done|done|done];
    apply timers_none_due; [done|]; intros p l'; rewrite El; intros [= <- <-]; lia.
  - rewrite (due_pop s o l) in Hn by (done || lia). simpl in Hn. lia.
  - rewrite wp_bind. eapply wp_mono; [eapply wp_fire_kinv; [done|done|done|done|lia]|].
    intros [] s1 (Hk1 & HI1 & Hc1 & Et & Hlt). rewrite wp_bind, wp_tick_get. rewrite <- Et. apply IH; [done|done|done|lia].
Qed.

Lemma due_same s s' :
  timers s' = timers s -> rt_timer_list s' = rt_timer_list s -> rt_tick s' = rt_tick s -> due s' = due s.
Proof. unfold due. by intros -> -> ->. Qed.
End tick.

(** The state of the next tick. *)
Definition ticked (s : kernel) : kernel := set_rt_tick (u32 (rt_tick s + 1)) s.

Lemma kinv_ticked s : kinv s -> kinv_at (-1) None (ticked s).
Proof. intros [H1 H2 H3 H4]. split; [by destruct H1|by apply timers_tick|done|done]. Qed.

Lemma kinv_weaken lo lo' X s : lo' <= lo -> kinv_at lo X s -> kinv_at lo' X s.
Proof. intros ? [H1 H2 H3 H4]. split; [done|by eapply timers_weaken|done|done]. Qed.

Lemma wp_tick_increase (I : option obj_id -> kernel -> Prop) `{TickInv I} `{UserTimeoutsOk I} c s :
  kinv s -> I None s -> rt_current_thread s = Some c ->
  wp (rt_tick_increase (S (length (due (ticked s))))) (fun _ s' => kinv s' /\ I None s' /\
    is_Some (rt_current_thread s') /\ rt_tick s' = u32 (rt_tick s + 1) /\
    forall o, o ∈ rt_timer_list s' -> 0 < tdelta_at (timers s') (rt_tick s') o) s.
Proof.
  intros Hk HI Hc. pose proof (kinv_ticked s Hk) as Hk1. unfold rt_tick_increase.
  rewrite wp_bind, wp_modify. fold (ticked s).
  destruct (co_current _ _ (si_current _ (ki_sched _ _ _ Hk)) c Hc) as (th & Ht & _).
  rewrite wp_bind, wp_self. exists c. split; [done|]. rewrite wp_bind, wp_get_thread. exists th. split; [done|].
  rewrite wp_bind, wp_put_thread.
  assert (forall v, let s2 := set_threads (<[c := set_th_remaining_tick v th]> (threads s)) (ticked s) in
    kinv_at (-1) None s2 /\ I None s2) as Hslice.
  { intros v. split; [by apply (kinv_update_same (-1) None (ticked s) c th)|].
    apply (ti_frame s); [|done]. split; try done. intros u. simpl. destruct (decide (u = c)) as [->|].
    - rewrite lookup_insert_eq. right. by exists th, v.
    - rewrite lookup_insert_ne by done. by left. }
  destruct (Hslice (u32 (th_remaining_tick th - 1))) as [Hk2 HI2].
  set (th1 := set_th_remaining_tick _ th) in *. set (s2 := set_threads _ (ticked s)) in *.
  assert (forall s3, kinv_at (-1) None s3 -> I None s3 -> timers s3 = timers s -> rt_timer_list s3 = rt_timer_list s ->
    rt_tick s3 = rt_tick (ticked s) -> is_Some (rt_current_thread s3) ->
    wp (rt_timer_check (S (length (due (ticked s))))) (fun _ s' => kinv s' /\ I None s' /\
    is_Some (rt_current_thread s') /\ rt_tick s' = u32 (rt_tick s + 1) /\
    forall o, o ∈ rt_timer_list s' -> 0 < tdelta_at (timers s') (rt_tick s') o) s3) as Hcheck.
  { intros s3 Hk3 HI3 E1 E2 E3 Hcur. unfold rt_timer_check. rewrite wp_bind, wp_tick_get.
    eapply wp_mono; [apply (wp_check_kinv I); [done|done|done|rewrite (due_same (ticked s)); [done|done|done|done]]|].
    intros [] s' (Hk' & HI' & Hcur' & Et). split_and!; [eapply kinv_weaken; [|done]; lia|done|done|by rewrite Et, E3|].
    intros o Ho. destruct (tk_elem _ _ _ _ _ _ (ki_timer _ _ _ Hk') o Ho) as (_ & tm & _ & Htm & _ & _ & _ & ?).
    unfold tdelta_at. rewrite Htm. lia. }
  rewrite wp_bind, wp_when. destruct (Z.eqb_spec (u32 (th_remaining_tick th - 1)) 0); [left|right]; (split; [done|]).
  - rewrite wp_bind, wp_upd_thread. exists th1. split; [simpl; by rewrite lookup_insert_eq|].
    destruct (Hslice (th_init_tick th1)) as [Hk3 HI3].
    replace (set_threads _ s2) with (set_threads (<[c := set_th_remaining_tick (th_init_tick th1) th]> (threads s)) (ticked s))
      by (unfold s2; simpl; by rewrite insert_insert_eq).
    unfold rt_thread_yield. rewrite wp_bind, wp_bind.
    eapply (wp_schedule (-1) None c); [exact Hk3|done|]. intros s4 Hk4 Hr Hcur Hh. rewrite !wp_ret.
    pose proof (rs_frame _ _ Hr) as Hf.
    apply Hcheck; [done| |by rewrite (sf_timers _ _ Hf)|by rewrite (sf_timer_list _ _ Hf)|by rewrite (sf_tick _ _ Hf)|done].
    eapply ti_resched; [apply Hk4|exact Hr|exact Hh|done].
  - apply Hcheck; [done|done|done|done|done|]. simpl. by rewrite Hc.
Qed.

(** C19: The clock interrupt is safe: from any state of the kernel's invariant with a running thread, and
    for any user timeout functions that keep their promise, [rt_tick_increase] runs to completion (no
    assertion fails: every thread whose timer expires is still suspended; the loop over the timers ends
    within one more iteration than there are timers due), advances the tick by one modulo 2^32, leaves
    every timer of the list in the future and keeps the invariant, and with it any property that survives the end
    of waits and rescheduling. *)
Theorem rt_tick_increase_safe (I : option obj_id -> kernel -> Prop) `{TickInv I} `{UserTimeoutsOk I} c s :
  kinv s -> I None s -> rt_current_thread s = Some c ->
  wp (rt_tick_increase (S (length (due (ticked s))))) (fun _ s' => kinv s' /\ I None s' /\
    is_Some (rt_current_thread s') /\ rt_tick s' = u32 (rt_tick s + 1) /\
    forall o, o ∈ rt_timer_list s' -> 0 < tdelta_at (timers s') (rt_tick s') o) s.
Proof. by apply wp_tick_increase. Qed.

(** Timeout functions that do nothing. *)
Definition idle_timeouts : UserTimeouts := fun _ => mret tt.

Lemma idle_timeouts_ok (I : option obj_id -> kernel -> Prop) :
  (forall n s, I (Some (OTimer n)) s -> I None s) -> @UserTimeoutsOk I idle_timeouts.
Proof. intros HI k n s c Hk Hc HIs. split_and!; [done|by eapply HI|done..| |lia]. by rewrite Hc. Qed.

Lemma rt_tick_increase_safe_witness :
  length (due (ticked demo_kernel)) = 1%nat /\
  wp (@rt_tick_increase idle_timeouts (S (length (due (ticked demo_kernel))))) (fun _ s' => kinv s' /\ True /\
    is_Some (rt_current_thread s') /\ rt_tick s' = u32 (rt_tick demo_kernel + 1) /\
    forall o, o ∈ rt_timer_list s' -> 0 < tdelta_at (timers s') (rt_tick s') o) demo_kernel.
Proof.
  split; [vm_compute; reflexivity|].
  apply (@rt_tick_increase_safe (fun _ _ => True) _ idle_timeouts (idle_timeouts_ok (fun _ _ => True) (fun _ _ H => H)) 0%nat);
    [apply demo_kernel_inv|exact I|reflexivity].
Defined.
