(* ===== verification/Ipc.v ===== *)
(** The waiting lists that the IPC objects share (the static functions at the top of src/ipc.c). *)

From S2P Require Import Prelude RtDef Object Scheduler Timer Thread Kernel.

(** ** The operations *)

(** [rt_ipc_object_init]. *)
Definition rt_ipc_object_init (q : qid) : M unit :=
  modify (fun s => set_queues (<[q := []]> (queues s)) s).

(** The walk over the list in the [RT_IPC_FLAG_PRIO] case with the insertion before the node it
    stops at: [n] of priority [prio] goes before the first thread it is more urgent than. *)
Fixpoint prio_insert (ths : gmap nat thread) (n : nat) (prio : Z) (l : list nat) : option (list nat) :=
  match l with
  | [] => Some [n]
  | t :: l' =>
      sthread ← ths !! t;
      if prio <? th_current_priority sthread then Some (n :: l)
      else cons t <$> prio_insert ths n prio l'
  end.

Definition rt_ipc_list_suspend (q : qid) (t : nat) (flag : Z) : M Z :=
  rt_thread_suspend t;;
  (if flag =? RT_IPC_FLAG_FIFO then tlist_insert_before q t
   else if flag =? RT_IPC_FLAG_PRIO then
     th ← get_thread t;
     l ← getso (fun s => prio_insert (threads s) t (th_current_priority th) (qget s q));
     modify (fun s => set_queues (<[q := l]> (queues s)) s)
   else mret tt);;
  mret RT_EOK.

Definition rt_ipc_list_resume (q : qid) : M Z :=
  t ← tlist_first q;
  rt_thread_resume t;;
  mret RT_EOK.

(** [fuel] is one more than the number of threads in the list. *)
Fixpoint resume_all_loop (fuel : nat) (q : qid) : M Z :=
  match fuel with
  | O => rt_panic
  | S fuel =>
      e ← tlist_isempty q;
      if e : bool then mret RT_EOK
      else
        t ← tlist_first q;
        upd_thread t (set_th_error (- RT_ERROR));;
        rt_thread_resume t;;
        resume_all_loop fuel q
  end.

Definition rt_ipc_list_resume_all (q : qid) : M Z :=
  n ← gets (fun s => length (qget s q));
  resume_all_loop (S n) q.

(** The start of a thread's timer that the blocking calls share: [rt_timer_control] with the waiting
    time, converted to [rt_tick_t], and [rt_timer_start]. *)
Definition start_thread_timer (t : nat) (time : Z) : M unit :=
  rt_timer_control (OThreadTimer t) RT_TIMER_CTRL_SET_TIME (u32 time);;
  rt_timer_start (OThreadTimer t);;
  mret tt.

(** How a thread waits on [q] for the object [o]: it is suspended, its timer is armed if the wait is
    bounded, and the scheduler is called; the tick read is the start of the wait. *)
Definition ipc_wait (q : qid) (o : obj_id) (t : nat) (timeout : Z) : M Z :=
  x ← get_object o;
  rt_ipc_list_suspend q t (obj_flag x);;
  now ← rt_tick_get;
  when (timeout >? 0) (start_thread_timer t timeout);;
  rt_schedule;;
  mret now.

(** ** Waiting lists *)

(** The rings in which suspended threads wait. *)
Definition wait_q (q : qid) : Prop := (exists o, q = QSuspend o) \/ (exists o, q = QSender o) \/ (exists r, q = QDriver r).

Lemma wait_q_not_ready q : wait_q q -> forall p, q ≠ QReady p.
Proof. intros [[o ->]|[[o ->]|[r ->]]] p; done. Qed.

Lemma wait_q_loc th q : wait_q q -> loc_ok th q <-> th_stat th = RT_THREAD_SUSPEND.
Proof. by intros [[o ->]|[[o ->]|[r ->]]]. Qed.

Lemma waiting_thread lo X s q t :
  kinv_at lo X s -> wait_q q -> t ∈ qget s q ->
  exists th, threads s !! t = Some th /\ th_stat th = RT_THREAD_SUSPEND.
Proof.
  intros Hk Hq Hin. destruct (qo_loc _ _ _ _ (si_queue _ (ki_sched _ _ _ Hk)) q t Hin) as (_ & th & Ht & Hl).
  exists th. split; [done|]. by apply (wait_q_loc th q).
Qed.

(** ** The object of a waiting list *)

Definition ipc_flag (flag : Z) : Prop := flag = RT_IPC_FLAG_FIFO \/ flag = RT_IPC_FLAG_PRIO.

Definition object_typed (o : obj_id) (ty : Z) (s : kernel) : Prop :=
  exists x, objects s !! o = Some x /\ obj_type x .&~ RT_Object_Class_Static = ty /\ ipc_flag (obj_flag x).

Definition ipc_obj_flag (o : obj_id) (s : kernel) : Z :=
  match objects s !! o with Some x => obj_flag x | None => 0 end.

Lemma wait_q_suspend o : wait_q (QSuspend o).
Proof. left. by eexists. Qed.
Lemma wait_q_sender o : wait_q (QSender o).
Proof. right. left. by eexists. Qed.
Lemma wait_q_driver r : wait_q (QDriver r).
Proof. right. right. by eexists. Qed.

Create HintDb ipc.
#[export] Hint Resolve wait_q_suspend wait_q_sender wait_q_driver : ipc.

Lemma object_typed_eq o ty s s' : objects s' !! o = objects s !! o -> object_typed o ty s -> object_typed o ty s'.
Proof. intros E (x & Hx & ?). exists x. by rewrite E. Qed.

Lemma object_typed_frame o ty s s' : (forall t, o ≠ OThreadTimer t) -> kframe s s' -> object_typed o ty s -> object_typed o ty s'.
Proof. intros Ho Hf (x & Hx & ?). exists x. by rewrite (kf_objects _ _ Hf). Qed.

Lemma woken_runnable t th s s' : woken t th s s' -> runnable s'.
Proof. intros [(st & E & ?) _ _ _]. exists t, (set_th_stat st th). done. Qed.

(** ** Initialisation *)

(** The objects that are neither threads nor timers. *)
Definition ipc_id (o : obj_id) : Prop :=
  match o with OThread _ | OThreadTimer _ | OTimer _ => False | _ => True end.

Lemma kinv_put_object lo X s o x :
  ipc_id o -> ~ timer_typed x -> kinv_at lo X s -> kinv_at lo X (set_objects (<[o := x]> (objects s)) s).
Proof.
  intros Hi Hx [Hs [H1 H2 H3 H4 H5] [G1 G2 G3] Ha].
  assert (forall y p, <[o := x]> (objects s) !! p = Some y -> timer_typed y -> objects s !! p = Some y) as Hback.
  { intros y p. destruct (decide (o = p)) as [->|]; [rewrite lookup_insert_eq; by intros [= <-]|by rewrite lookup_insert_ne]. }
  split; [by destruct Hs| | |done].
  - split; simpl; [done| | |done|]; eauto. intros p Hp. destruct (H2 p Hp) as (? & tm & y & ? & Hy & Hty & ?).
    split; [done|]. exists tm, y. destruct (G2 p y Hy Hty) as [[t ->]|[t ->]]; rewrite lookup_insert_ne by (by intros ->); done.
  - split; simpl; [|eauto|done]. intros u uh Hu Huc. unfold thread_objects.
    rewrite !lookup_insert_ne by (by intros ->). by eapply G1.
Qed.

Lemma queue_ok_ext X ths qs qs' g : (forall q, qlist qs' q = qlist qs q) -> queue_ok X ths qs g -> queue_ok X ths qs' g.
Proof.
  intros E [H1 H2 H3 H4 H5 H6]. split; [| | | |done|].
  - intros q. by rewrite E.
  - intros q1 q2 t. rewrite !E. apply H2.
  - intros q t. rewrite E. apply H3.
  - intros t th. rewrite E. apply H4.
  - intros p. rewrite E. apply H6.
Qed.

(** [rt_object_init] and [rt_ipc_object_init] of an object that nobody waits for. *)
Definition ipc_created (o : obj_id) (x : rt_object) (s s' : kernel) : Prop :=
  kinv s' /\ objects s' = <[o := x]> (objects s) /\ threads s' = threads s /\ qget s' (QSuspend o) = [] /\
  (forall q, q ≠ QSuspend o -> qget s' q = qget s q) /\ rt_current_thread s' = rt_current_thread s /\
  rt_interrupt_nest s' = rt_interrupt_nest s.

Lemma wp_ipc_create o class name s l Q :
  kinv s -> ipc_id o -> (class .| RT_Object_Class_Static) .&~ RT_Object_Class_Static ≠ RT_Object_Class_Timer ->
  rt_object_container s !! class = Some l -> qget s (QSuspend o) = [] ->
  (forall s', ipc_created o (mkObject (object_name name) (class .| RT_Object_Class_Static) (old_flag o s)) s s' -> Q tt s') ->
  wp (rt_object_init o class name) (fun _ s1 => wp (rt_ipc_object_init (QSuspend o)) Q s1) s.
Proof.
  intros Hk Hi Hcl Hc Hq HQ. unfold rt_object_init, rt_object_get_information, object_link, rt_ipc_object_init.
  wp_norm. rewrite wp_getso. exists l. split; [done|]. wp_norm. apply HQ. set (x := mkObject _ _ _).
  assert (forall q, qget (set_queues (<[QSuspend o := []]> (queues s)) s) q = qget s q) as Eq.
  { intros q. simpl. rewrite qlist_insert. case_decide; by subst. }
  split_and!; [|done|done|..|done|done].
  - destruct (kinv_put_object 0 None s o x Hi Hcl Hk) as [[Hqo Hcu Hok] H2 H3 H4].
    split; [split| | |]; try done. simpl. eapply queue_ok_ext; [|exact Hqo]. exact Eq.
  - simpl. by rewrite qlist_insert, decide_True.
  - intros q Hne. simpl. by rewrite qlist_insert, decide_False.
Qed.

(** ** The insertion *)

(** Where a waiter of priority [prio] goes: in front of the first one it is more urgent than. *)
Inductive prio_inserted (ths : gmap nat thread) (n : nat) (prio : Z) : list nat -> list nat -> Prop :=
| prio_here l1 l2 :
    (forall u uh, u ∈ l1 -> ths !! u = Some uh -> th_current_priority uh <= prio) ->
    (forall u uh l, l2 = u :: l -> ths !! u = Some uh -> prio < th_current_priority uh) ->
    prio_inserted ths n prio (l1 ++ l2) (l1 ++ n :: l2).

Lemma prio_insert_spec ths n prio l :
  (forall u, u ∈ l -> is_Some (ths !! u)) ->
  exists l', prio_insert ths n prio l = Some l' /\ prio_inserted ths n prio l l'.
Proof.
  induction l as [|u l IH]; intros Hl.
  - exists [n]. split; [done|]. apply (prio_here _ _ _ [] []); [intros ? ? []%elem_of_nil|done].
  - destruct (Hl u) as [uh Hu]; [by left|]. simpl. rewrite Hu. simpl.
    destruct (Z.ltb_spec prio (th_current_priority uh)) as [Hlt|Hge].
    + exists (n :: u :: l). split; [done|]. apply (prio_here _ _ _ [] (u :: l)).
      * intros ? ? []%elem_of_nil.
      * intros v vh l' [= <- <-] Hv. congruence.
    + destruct IH as (l' & E & Hi); [intros; apply Hl; by right|]. rewrite E.
      exists (u :: l'). split; [done|]. destruct Hi as [l1 l2 H1 H2].
      apply (prio_here _ _ _ (u :: l1) l2); [|done].
      intros v vh [->|Hv]%elem_of_cons Evh; [congruence|by eapply H1].
Qed.

Lemma prio_inserted_perm ths n prio l l' : prio_inserted ths n prio l l' -> l' ≡ₚ n :: l.
Proof. intros [l1 l2 _ _]. symmetry. apply Permutation_middle. Qed.

(** The list [l'] after a thread has joined the waiters [l]. *)
Definition joined (flag : Z) (ths : gmap nat thread) (t : nat) (prio : Z) (l l' : list nat) : Prop :=
  if flag =? RT_IPC_FLAG_FIFO then l' = l ++ [t] else prio_inserted ths t prio l l'.

Lemma joined_perm flag ths t prio l l' : joined flag ths t prio l l' -> l' ≡ₚ t :: l.
Proof.
  unfold joined. destruct (flag =? RT_IPC_FLAG_FIFO); [intros ->|apply prio_inserted_perm].
  symmetry. apply Permutation_cons_append.
Qed.

(** ** [rt_ipc_list_suspend] *)

Lemma kinv_wait lo X s t th q l' :
  kinv_at lo X s -> threads s !! t = Some th -> th_stat th = RT_THREAD_SUSPEND -> wait_q q ->
  (forall q, t ∉ qget s q) -> l' ≡ₚ t :: qget s q -> kinv_at lo X (set_queues (<[q := l']> (queues s)) s).
Proof.
  intros [[Hq Hc Hok] Ht' Ho Ha] Ht Hst Hw Hno Hp. split; [split| | |]; try done. simpl.
  eapply queue_place_wait; [|done|by apply wait_q_loc|by apply wait_q_not_ready|done].
  by eapply queue_exempt.
Qed.

Lemma suspended_threads t th tx s u : u ≠ t -> threads (suspended t th tx s) !! u = threads s !! u.
Proof. intros. simpl. by rewrite lookup_insert_ne. Qed.

Lemma suspended_qget t th tx s q :
  queue_ok None (threads s) (queues s) (rt_thread_ready_priority_group s) -> threads s !! t = Some th ->
  th_stat th = RT_THREAD_RUNNING -> qget (suspended t th tx s) q = qget s q.
Proof.
  intros Hq Ht Hs. simpl. rewrite qlist_remove. apply list_del_notin.
  eapply queue_ok_nowhere; [done..|by right].
Qed.

Lemma wp_ipc_list_suspend lo X q t th flag s Q :
  kinv_at lo X s -> threads s !! t = Some th -> th_stat th = RT_THREAD_RUNNING ->
  X ≠ Some (OThreadTimer t) -> wait_q q -> ipc_flag flag ->
  (forall tx l', objects s !! OThreadTimer t = Some tx ->
     joined flag (threads s) t (th_current_priority th) (qget s q) l' ->
     (let s1 := set_queues (<[q := l']> (queues (suspended t th tx s))) (suspended t th tx s) in
      kinv_at lo X s1 -> OThreadTimer t ∉ rt_timer_list s1 ->
      (forall q', qget s1 q' = if decide (q = q') then l' else qget s q') -> Q RT_EOK s1)) ->
  wp (rt_ipc_list_suspend q t flag) Q s.
Proof.
  intros Hk Ht Hst HX Hq Hf HQ. pose proof (si_queue _ (ki_sched _ _ _ Hk)) as Hqo.
  unfold rt_ipc_list_suspend. rewrite wp_bind.
  eapply wp_thread_suspend; [done|done|by right|done|]. intros tx Ex Hk1 Hno Hidle. rewrite wp_bind.
  assert (forall q', qget (suspended t th tx s) q' = qget s q') as Eq.
  { intros q'. by apply suspended_qget. }
  assert (forall l', joined flag (threads s) t (th_current_priority th) (qget s q) l' ->
    Q RT_EOK (set_queues (<[q := l']> (queues (suspended t th tx s))) (suspended t th tx s))) as Hfin.
  { intros l' Hj. apply (HQ tx l' Ex Hj); [|done|].
    - eapply kinv_wait; [done|simpl; apply lookup_insert_eq|done|done|done|].
      rewrite Eq. by eapply joined_perm.
    - intros q'. cbn [queues set_queues]. rewrite qlist_insert. case_decide; [done|]. apply Eq. }
  assert (forall l', joined flag (threads s) t (th_current_priority th) (qget s q) l' ->
    wp (mret RT_EOK) Q (set_queues (<[q := l']> (queues (suspended t th tx s))) (suspended t th tx s))) as Hfin'
    by (intros; rewrite wp_ret; auto).
  destruct Hf as [->| ->]; simpl.
  - rewrite wp_tlist_insert_before. unfold q_push_back. rewrite Eq. by apply Hfin'.
  - rewrite wp_bind, wp_get_thread. eexists. split; [simpl; apply lookup_insert_eq|].
    rewrite wp_bind, wp_getso. cbn [th_current_priority set_th_stat]. rewrite Eq.
    destruct (prio_insert_spec (threads (suspended t th tx s)) t (th_current_priority th) (qget s q)) as (l' & E & Hi).
    { intros u Hu. destruct (waiting_thread lo X s q u Hk Hq Hu) as (uh & Huh & Hs).
      rewrite suspended_threads by (intros ->; simplify_eq; lia). eauto. }
    exists l'. split; [exact E|]. rewrite wp_modify. apply Hfin'. unfold joined. simpl.
    assert (forall u, u ∈ qget s q -> threads (suspended t th tx s) !! u = threads s !! u) as Eu.
    { intros u Hu. apply suspended_threads. intros ->.
      destruct (waiting_thread lo X s q t Hk Hq Hu) as (uh & Huh & Hs). simplify_eq. lia. }
    clear - Hi Eu. destruct Hi as [l1 l2 H1 H2]. constructor.
    + intros u uh Hu Huh. eapply H1; [done|]. rewrite Eu by (apply elem_of_app; by left). done.
    + intros u uh l -> Huh. eapply H2; [done|]. rewrite Eu by set_solver. done.
Qed.

(** ** [rt_ipc_list_resume] *)

Lemma wp_ipc_list_resume lo X q t l s Q :
  kinv_at lo X s -> wait_q q -> qget s q = t :: l -> X ≠ Some (OThreadTimer t) ->
  (forall th s', threads s !! t = Some th -> th_stat th = RT_THREAD_SUSPEND ->
     kinv_at lo X s' -> woken t th s s' -> qget s' q = l ->
     rt_current_thread s' = rt_current_thread s -> timers s' = timers s -> Q RT_EOK s') ->
  wp (rt_ipc_list_resume q) Q s.
Proof.
  intros Hk Hw Hq HX HQ. destruct (waiting_thread lo X s q t Hk Hw) as (th & Ht & Hst); [rewrite Hq; by left|].
  unfold rt_ipc_list_resume. rewrite wp_bind, wp_tlist_first. exists t, l. split; [done|].
  rewrite wp_bind. eapply wp_thread_resume; [done..|]. intros tx Ex Hk'. rewrite wp_ret.
  pose proof (woken_resumed t th tx s) as Hwk. apply (HQ th); [done..| | |].
  - rewrite (wk_queues _ _ _ _ Hwk) by (by apply wait_q_not_ready). rewrite Hq. apply list_del_head.
    pose proof (qo_nodup _ _ _ _ (si_queue _ (ki_sched _ _ _ Hk)) q) as Hnd. rewrite Hq in Hnd. by apply NoDup_cons in Hnd as [? _].
  - unfold resumed. by rewrite inserted_current.
  - unfold resumed, inserted. by case_bool_decide.
Qed.

(** ** [rt_ipc_list_resume_all] *)

(** Every thread of [l] has been woken with [-RT_ERROR]; the others are as they were. *)
Record woken_all (q : qid) (s s' : kernel) : Prop := {
  wa_woken : forall t, t ∈ qget s q -> exists th st, threads s !! t = Some th /\
    threads s' !! t = Some (set_th_stat st (set_th_error (- RT_ERROR) th)) /\
    (st = RT_THREAD_READY \/ st = RT_THREAD_RUNNING);
  wa_others : forall u, u ∉ qget s q -> shuffled (threads s !! u) (threads s' !! u);
  wa_empty : qget s' q = [];
  wa_queues : forall q', (forall p, q' ≠ QReady p) -> q' ≠ q -> qget s' q' = qget s q';
  wa_frame : kframe s s';
}.

Lemma wp_resume_all_loop lo X q n s Q :
  kinv_at lo X s -> wait_q q -> (length (qget s q) <= n)%nat -> (forall t, X ≠ Some (OThreadTimer t)) ->
  (forall s', kinv_at lo X s' -> woken_all q s s' -> rt_current_thread s' = rt_current_thread s -> Q RT_EOK s') ->
  wp (resume_all_loop (S n) q) Q s.
Proof.
  revert s Q. induction n as [|n IH]; intros s Q Hk Hw Hn HX HQ.
  all: cbn [resume_all_loop]; rewrite wp_bind, wp_tlist_isempty; case_bool_decide as He.
  1, 3: rewrite wp_ret; apply HQ; [done| |done]; split; [rewrite He; by intros t ?%elem_of_nil| |done|done|];
    reflexivity.
  { destruct (qget s q); [done|simpl in Hn; lia]. }
  destruct (qget s q) as [|t l] eqn:Eq; [done|]. clear He. simpl in Hn.
  destruct (waiting_thread lo X s q t Hk Hw) as (th & Ht & Hst); [rewrite Eq; by left|].
  pose proof (qo_nodup _ _ _ _ (si_queue _ (ki_sched _ _ _ Hk)) q) as Hnd. rewrite Eq in Hnd.
  apply NoDup_cons in Hnd as [Hnot Hnd].
  rewrite wp_bind, wp_tlist_first. exists t, l. split; [done|].
  rewrite wp_bind, wp_upd_thread. exists th. split; [done|].
  set (th' := set_th_error (- RT_ERROR) th). set (s1 := set_threads (<[t := th']> (threads s)) s).
  pose proof (kinv_update_same lo X s t th th' Hk Ht ltac:(done)) as Hk1.
  rewrite wp_bind. eapply (wp_thread_resume lo X t th'); [exact Hk1|simpl; apply lookup_insert_eq|done|done|].
  intros tx Ex Hk2. pose proof (woken_resumed t th' tx s1) as Hwk. set (s2 := resumed t th' tx s1) in *.
  assert (qget s2 q = l) as Eq2.
  { rewrite (wk_queues _ _ _ _ Hwk) by (by apply wait_q_not_ready). simpl. rewrite Eq. by apply list_del_head. }
  assert (rt_current_thread s2 = rt_current_thread s) as Ec by (unfold s2, resumed; by rewrite inserted_current).
  apply IH; [done|done|rewrite Eq2; lia|done|]. intros s' Hk' Hwa Hc'. apply HQ; [done| |congruence].
  assert (forall u, u ≠ t -> threads s2 !! u = threads s !! u \/ shuffled (threads s !! u) (threads s2 !! u)) as Hu.
  { intros u Hne. right. etrans; [|by apply (wk_others _ _ _ _ Hwk)]. simpl. by rewrite lookup_insert_ne. }
  split.
  - rewrite Eq. intros u [->|Hul]%elem_of_cons.
    + destruct (wk_self _ _ _ _ Hwk) as (st & Est & Hs).
      destruct (wa_others _ _ _ Hwa t) as [E|(th0 & st' & E & E' & _ & ?)]; [by rewrite Eq2| |].
      * exists th, st. by rewrite E, Est.
      * exists th, st'. rewrite Est in E. injection E as <-. by rewrite E'.
    + destruct (wa_woken _ _ _ Hwa u) as (uh & st & E & E' & Hs); [by rewrite Eq2|].
      exists uh, st. split; [|done].
      destruct (waiting_thread lo X s q u Hk Hw) as (uh' & Hu' & Hs'); [rewrite Eq; by right|].
      assert (u ≠ t) as Hne by (intros ->; done).
      pose proof (wk_others _ _ _ _ Hwk u Hne) as Hsh. simpl in Hsh. rewrite lookup_insert_ne, Hu' in Hsh by done.
      apply (shuffled_wait uh') in Hsh; [|done]. congruence.
  - rewrite Eq. intros u Hul. assert (u ≠ t) as Hne by (intros ->; apply Hul; by left).
    etrans; [|apply (wa_others _ _ _ Hwa); rewrite Eq2; set_solver].
    destruct (Hu u Hne) as [->|]; [reflexivity|done].
  - apply Hwa.
  - intros q' Hnr Hne. rewrite (wa_queues _ _ _ Hwa) by done. rewrite (wk_queues _ _ _ _ Hwk) by done. simpl.
    apply list_del_notin. intros Hin. apply Hne.
    eapply (qo_uniq _ _ _ _ (si_queue _ (ki_sched _ _ _ Hk))); [exact Hin|]. rewrite Eq. by left.
  - etrans; [|apply Hwa]. destruct (wk_frame _ _ _ _ Hwk). by split.
Qed.

Lemma wp_ipc_list_resume_all lo X q s Q :
  kinv_at lo X s -> wait_q q -> (forall t, X ≠ Some (OThreadTimer t)) ->
  (forall s', kinv_at lo X s' -> woken_all q s s' -> rt_current_thread s' = rt_current_thread s -> Q RT_EOK s') ->
  wp (rt_ipc_list_resume_all q) Q s.
Proof.
  intros. unfold rt_ipc_list_resume_all. rewrite wp_bind, wp_gets. by eapply wp_resume_all_loop.
Qed.

Lemma woken_all_resched q s s1 s2 : wait_q q -> woken_all q s s1 -> resched s1 s2 -> woken_all q s s2.
Proof.
  intros Hw [Hwk Ho He Hq Hf] Hr. split.
  - intros t Ht. destruct (Hwk t Ht) as (th & st & E & E' & Hs). exists th.
    destruct (rs_thread _ _ Hr t) as [E2|(th0 & st' & E2 & E3 & _ & ?)].
    + exists st. by rewrite E2.
    + exists st'. rewrite E' in E2. injection E2 as <-. by rewrite E3.
  - intros u Hu. etrans; [by apply Ho|apply (rs_thread _ _ Hr)].
  - rewrite (rs_waits _ _ Hr); [done|by apply wait_q_not_ready].
  - intros q' Hnr Hne. rewrite (rs_waits _ _ Hr) by done. auto.
  - etrans; [done|by apply resched_kframe].
Qed.

(** ** Blocking *)

Lemma wp_start_wait lo t th time s Q :
  kinv_at lo None s -> -1 <= lo <= 0 -> threads s !! t = Some th -> th_stat th = RT_THREAD_SUSPEND ->
  OThreadTimer t ∉ rt_timer_list s -> time < TIMER_MAX ->
  (forall s', kinv_at lo None s' -> timer_change s s' ->
     (if time >? 0 then timer_armed t time s' else OThreadTimer t ∉ rt_timer_list s') -> Q tt s') ->
  wp (when (time >? 0) (start_thread_timer t time)) Q s.
Proof.
  intros Hk Hlo Ht Hst Hidle Hti HQ. rewrite wp_when. rewrite Z.gtb_ltb in *.
  destruct (Z.ltb_spec 0 time); [left|right]; (split; [done|]).
  - unfold start_thread_timer. rewrite u32_small by lia. rewrite wp_bind.
    eapply wp_mono; [eapply (wp_thread_timer_start lo t th time s (fun _ s' => Q tt s')); [done..|lia|]|].
    + intros s' Hk' Hc Ha. by apply HQ.
    + intros r s' Hw. rewrite wp_bind. eapply wp_mono; [exact Hw|]. intros. by rewrite wp_ret.
  - apply HQ; [done|reflexivity|done].
Qed.

(** Another thread is ready to take over. *)
Definition other_ready (t : nat) (s : kernel) : Prop :=
  exists u uh, u ≠ t /\ threads s !! u = Some uh /\ th_stat uh = RT_THREAD_READY.

(** The thread [t] waits on [q]: it has joined the list in the order of the object's flag, its timer is
    armed if the wait is bounded, and another thread runs. *)
Record blocked_on (q : qid) (flag time : Z) (t : nat) (th : thread) (s s' : kernel) : Prop := {
  bo_gone : gone_waiting t th s s';
  bo_joined : joined flag (threads s) t (th_current_priority th) (qget s q) (qget s' q);
  bo_queues : forall q', (forall p, q' ≠ QReady p) -> q' ≠ q -> qget s' q' = qget s q';
  bo_timer : if time >? 0 then timer_armed t time s' else OThreadTimer t ∉ rt_timer_list s';
  bo_runs : rt_scheduler_lock_nest s = 0 -> other_ready t s ->
    highest_running s' /\ rt_current_thread s' ≠ Some t;
}.

(** From the insertion in a waiting list on: the timer is started and another thread runs. *)
Lemma wp_wait lo q t th tx l' time s Q :
  let s1 := set_queues (<[q := l']> (queues (suspended t th tx s))) (suspended t th tx s) in
  kinv_at lo None s1 -> -1 <= lo <= 0 -> rt_current_thread s = Some t -> wait_q q -> time < TIMER_MAX ->
  OThreadTimer t ∉ rt_timer_list s1 -> (forall q', qget s1 q' = if decide (q = q') then l' else qget s q') ->
  (forall s', kinv_at lo None s' -> gone_waiting t th s s' -> qget s' q = l' ->
     (forall q', (forall p, q' ≠ QReady p) -> q' ≠ q -> qget s' q' = qget s q') ->
     (if time >? 0 then timer_armed t time s' else OThreadTimer t ∉ rt_timer_list s') ->
     (rt_scheduler_lock_nest s = 0 -> other_ready t s -> highest_running s' /\ rt_current_thread s' ≠ Some t) -> Q tt s') ->
  wp (when (time >? 0) (start_thread_timer t time)) (fun _ s2 => wp rt_schedule Q s2) s1.
Proof.
  intros s1 Hk1 Hlo Hc Hw Hti Hidle Hqs HQ.
  assert (threads s1 !! t = Some (set_th_stat RT_THREAD_SUSPEND th)) as Ht1 by (simpl; apply lookup_insert_eq).
  eapply (wp_start_wait lo); [done|done|exact Ht1|done|done|done|]. intros s2 Hk2 Hch Htm.
  eapply (wp_schedule lo None t); [done|by rewrite (tc_current _ _ Hch)|]. intros s3 Hk3 Hr Hcur Hh.
  pose proof (rs_frame _ _ Hr) as Hfr.
  assert (gone_waiting t th s s3) as Hg by (eapply gone_waiting_steps; done).
  assert (forall q', (forall p, q' ≠ QReady p) -> qget s3 q' = qget s1 q') as Eq.
  { intros q' Hq'. by rewrite (rs_waits _ _ Hr), (tc_queues _ _ Hch). }
  apply HQ; [done|done| | | |].
  - rewrite Eq, Hqs, decide_True by (done || by apply wait_q_not_ready). done.
  - intros q' Hnr Hne. by rewrite Eq, Hqs, decide_False.
  - unfold timer_armed in *. by rewrite (sf_timer_list _ _ Hfr), (sf_timers _ _ Hfr), (sf_tick _ _ Hfr).
  - intros Hl (u & uh & Hu & Huh & Hus).
    assert (highest_running s3) as Hhr.
    { apply Hh; [by rewrite (tc_lock _ _ Hch)|]. exists u, uh. split; [|by left].
      rewrite (tc_threads _ _ Hch). simpl. by rewrite lookup_insert_ne. }
    split; [done|]. eapply highest_not_suspended; [done|apply Hg|done].
Qed.

Lemma wp_block lo q t th flag time s Q :
  kinv_at lo None s -> -1 <= lo <= 0 -> rt_current_thread s = Some t -> threads s !! t = Some th ->
  th_stat th = RT_THREAD_RUNNING -> wait_q q -> ipc_flag flag -> time < TIMER_MAX ->
  (forall s', kinv_at lo None s' -> blocked_on q flag time t th s s' -> Q tt s') ->
  wp (rt_ipc_list_suspend q t flag) (fun _ s1 => rt_tick s1 = rt_tick s /\
    wp (when (time >? 0) (start_thread_timer t time)) (fun _ s2 => wp rt_schedule Q s2) s1) s.
Proof.
  intros Hk Hlo Hc Ht Hst Hw Hf Hti HQ.
  eapply wp_ipc_list_suspend; [done..|]. intros tx l' Ex Hj s1 Hk1 Hidle Hqs. split; [done|].
  eapply (wp_wait lo); [done..|]. intros s' Hk' Hg Eq Hqo Htm Hrun. apply HQ; [done|]. split; [done|by rewrite Eq|done..].
Qed.

Lemma wp_ipc_wait q o c t th timeout s (Q : Z -> kernel -> Prop) :
  kinv s -> rt_current_thread s = Some t -> threads s !! t = Some th -> th_stat th = RT_THREAD_RUNNING ->
  wait_q q -> object_typed o c s -> timeout < TIMER_MAX ->
  (forall s', kinv s' -> blocked_on q (ipc_obj_flag o s) timeout t th s s' -> Q (rt_tick s) s') ->
  wp (ipc_wait q o t timeout) Q s.
Proof.
  intros Hk Hc Ht Hst Hw (x & Hx & Hty & Hf) Hti HQ. unfold ipc_wait.
  rewrite wp_bind, wp_get_object. exists x. split; [done|]. rewrite wp_bind. eapply wp_mono.
  { eapply (wp_block 0 q t th (obj_flag x) timeout s (fun _ => Q (rt_tick s))); [done|lia|done..|].
    intros s' Hk' Hb. apply HQ; [done|]. unfold ipc_obj_flag. by rewrite Hx. }
  intros r s1 [Et Hw1]. unfold rt_tick_get. rewrite wp_bind, wp_gets, Et. rewrite wp_bind.
  eapply wp_mono; [exact Hw1|]. intros [] s2 Hw2. rewrite wp_bind.
  eapply wp_mono; [exact Hw2|]. intros [] s3 HQ'. by rewrite wp_ret.
Qed.

(** The wake-up after a transfer: the first thread waiting on [q], if any. *)
Definition wakes (q : qid) (s s' : kernel) : Prop :=
  match qget s q with
  | [] => s' = s
  | t :: l => qget s' q = l /\ (exists th, threads s !! t = Some th /\ woken t th s s') /\
      (rt_scheduler_lock_nest s = 0 -> highest_running s')
  end.

Lemma wp_wake q c s Q :
  kinv s -> rt_current_thread s = Some c -> wait_q q ->
  (forall s', kinv s' -> wakes q s s' -> kframe s s' -> Q tt s') ->
  wp (e ← tlist_isempty q; when (negb e) (rt_ipc_list_resume q;; rt_schedule)) Q s.
Proof.
  intros Hk Hc Hw HQ. rewrite wp_bind, wp_tlist_isempty, wp_when. unfold wakes in HQ.
  destruct (qget s q) as [|t l] eqn:Eq; [right|left].
  - rewrite bool_decide_eq_true_2 by done. split; [done|]. by apply HQ.
  - rewrite bool_decide_eq_false_2 by done. split; [done|]. rewrite wp_bind.
    eapply (wp_ipc_list_resume 0 None q t l); [done..|]. intros th s1 Ht Hst Hk1 Hwk Hq1 Hc1 _.
    eapply (wp_schedule 0 None c); [done|congruence|]. intros s2 Hk2 Hr _ Hh.
    pose proof (woken_resched _ _ _ _ _ Hwk Hr) as Hwk2. apply HQ; [done| |apply Hwk2].
    split_and!; [by rewrite (rs_waits _ _ Hr) by (by apply wait_q_not_ready)|by exists th|].
    intros Hl. apply Hh; [|by eapply woken_runnable]. by rewrite (kf_lock _ _ (wk_frame _ _ _ _ Hwk)).
Qed.
