(* ===== verification/Life.v ===== *)
(** The life cycle of threads against the invariant of the kernel: start, sleep, exit, detach and delete
    (src/thread.c). *)

From S2P Require Import Prelude RtDef Object Scheduler Timer Thread Kernel Ipc.

(** ** Sleep *)

(** What [rt_thread_sleep] has done when the thread [t] no longer runs. *)
Record asleep (t : nat) (th : thread) (tick : Z) (s s' : kernel) : Prop := {
  as_gone : gone_waiting t th s s';
  as_queues : forall q, (forall p, q ≠ QReady p) -> qget s' q = qget s q;
  as_nowhere : forall q, t ∉ qget s' q;
  as_timer : timer_armed t tick s';
  as_runs : rt_scheduler_lock_nest s = 0 -> other_ready t s ->
    highest_running s' /\ rt_current_thread s' ≠ Some t;
}.

Lemma not_ready_nowhere lo X t th s q :
  kinv_at lo X s -> threads s !! t = Some th -> th_stat th = RT_THREAD_SUSPEND ->
  (forall q', (forall p, q' ≠ QReady p) -> t ∉ qget s q') -> t ∉ qget s q.
Proof.
  intros Hk Ht Hst Hno Hin.
  destruct (qo_loc _ _ _ _ (si_queue _ (ki_sched _ _ _ Hk)) q t Hin) as (_ & th' & Ht' & Hl). simplify_eq.
  destruct q as [p| |o|o|r]; simpl in Hl; try lia; by refine (Hno _ _ Hin).
Qed.

Lemma wp_thread_sleep t th tick s :
  kinv s -> rt_current_thread s = Some t -> threads s !! t = Some th -> th_stat th = RT_THREAD_RUNNING ->
  0 <= tick < TIMER_MAX ->
  wp (rt_thread_sleep tick) (fun _ s' => kinv s' /\ asleep t th tick s s') s.
Proof.
  intros Hk Hc Ht Hst Hti. unfold rt_thread_sleep.
  destruct (kinv_thread_objects Hk Ht) as ((x & Hx & Htx) & _); [lia|].
  wp_norm. exists t. split; [done|]. wp_norm. exists x. split_and!; [done..|]. wp_norm.
  eapply wp_thread_suspend; [done|done|by right|done|]. intros tx Ex Hk1 Hno Hidle. set (s1 := suspended t th tx s) in *.
  assert (threads s1 !! t = Some (set_th_stat RT_THREAD_SUSPEND th)) as Ht1 by (simpl; apply lookup_insert_eq).
  wp_norm. eapply wp_mono.
  { eapply (wp_thread_timer_start 0 t _ tick s1 (fun _ s2 => wp rt_schedule (fun _ s' => kinv s' /\ asleep t th tick s s') s2));
      [done|lia|done|done|done|done|]. intros s2 Hk2 Hch Harm.
    eapply (wp_schedule 0 None t); [done|by rewrite (tc_current _ _ Hch)|]. intros s3 Hk3 Hr _ Hh. split; [done|].
    assert (gone_waiting t th s s3) as Hg by (eapply (gone_waiting_steps t th tx (queues s1)); done).
    assert (forall q, (forall p, q ≠ QReady p) -> qget s3 q = qget s1 q) as Eq
      by (intros q Hq; by rewrite (rs_waits _ _ Hr), (tc_queues _ _ Hch)).
    pose proof (rs_frame _ _ Hr) as Hfr. split.
    - done.
    - intros q Hq. rewrite Eq by done. apply suspended_qget; [apply (ki_sched _ _ _ Hk)|done|done].
    - intros q. eapply not_ready_nowhere; [exact Hk3|apply Hg|done|]. intros q' Hq'. rewrite Eq by done. apply Hno.
    - unfold timer_armed in *. by rewrite (sf_timer_list _ _ Hfr), (sf_timers _ _ Hfr), (sf_tick _ _ Hfr).
    - intros Hl (u & uh & Hu & Huh & Hus). assert (highest_running s3) as Hhr.
      { apply Hh; [by rewrite (tc_lock _ _ Hch)|]. exists u, uh. split; [|by left].
        rewrite (tc_threads _ _ Hch). simpl. by rewrite lookup_insert_ne. }
      split; [done|]. eapply highest_not_suspended; [done|apply Hg|done]. }
  intros r s2 Hw. wp_norm. eapply wp_mono; [exact Hw|]. intros r' s3 Hw'. exact Hw'.
Qed.

(** [rt_thread_sleep] by a running thread (and [rt_thread_delay], which is the same): the thread leaves
    the CPU, waits in no list with its timer armed for [tick] ticks, and the most urgent of the others
    runs; nothing else changes. *)
Theorem rt_thread_sleep_spec t th tick s :
  kinv s -> rt_current_thread s = Some t -> threads s !! t = Some th -> th_stat th = RT_THREAD_RUNNING ->
  0 <= tick < TIMER_MAX ->
  wp (rt_thread_sleep tick) (fun _ s' => kinv s' /\ asleep t th tick s s') s.
Proof. apply wp_thread_sleep. Qed.

Lemma rt_thread_sleep_spec_witness :
  wp (rt_thread_sleep 10) (fun _ s' => kinv s' /\ asleep 0 (demo_thread 0 RT_THREAD_RUNNING 10) 10 demo_kernel s') demo_kernel.
Proof. apply rt_thread_sleep_spec; [apply demo_kernel_inv|reflexivity..|lia]. Defined.

(** ** Start *)

(** A thread that has been initialised, as [rt_thread_startup] makes it ready. *)
Definition started (th : thread) : thread :=
  set_th_stat RT_THREAD_SUSPEND (set_priority (th_init_priority th) th).

Lemma kinv_started lo X t th s :
  kinv_at lo X s -> threads s !! t = Some th -> th_stat th = RT_THREAD_INIT ->
  kinv_at lo X (set_threads (<[t := started th]> (threads s)) s).
Proof.
  intros Hk Ht Hst. pose proof (ki_sched _ _ _ Hk) as [Hq Hc Hok].
  pose proof (kinv_thread_ok Hk Ht) as [H1 [H2 H3] H4 H5]. split; [split| | |]; simpl.
  - eapply queue_place_none; [|by apply lookup_insert_eq|simpl; lia]. apply queue_update_exempt.
    eapply queue_exempt; [done..|]. intros q. eapply queue_ok_nowhere; [done..|by left].
  - eapply current_ok_replace; [done..| |simpl; lia]. simpl. lia.
  - apply threads_ok_insert; [done|]. split; simpl; [lia|done|by left|]. intros _. apply H5. lia.
  - apply Hk.
  - eapply objs_ok_update; [done..|]. left. lia.
  - eapply active_ok_update; [done..|]. right. eapply thread_timer_idle; [done..|lia].
Qed.

(** [rt_thread_startup] of an initialised thread: it gets its initial priority and becomes ready; when the
    scheduler runs, the most urgent thread has the CPU at the end, which may be the new one; before the
    scheduler is started, the thread just joins the ready list. *)
Theorem rt_thread_startup_spec t th s :
  kinv s -> threads s !! t = Some th -> th_stat th = RT_THREAD_INIT ->
  wp (rt_thread_startup t) (fun r s' => r = RT_EOK /\ kinv s' /\
    woken t (started th) (set_threads (<[t := started th]> (threads s)) s) s' /\
    match rt_current_thread s with
    | Some _ => rt_scheduler_lock_nest s = 0 -> highest_running s'
    | None => rt_current_thread s' = None /\
        qget s' (QReady (th_init_priority th)) = qget s (QReady (th_init_priority th)) ++ [t]
    end) s.
Proof.
  intros Hk Ht Hst. destruct (kinv_thread_objects Hk Ht) as ((x & Hx & Htx) & _); [lia|].
  unfold rt_thread_startup. wp_norm. exists th. split; [done|]. wp_norm. rewrite Hst. split; [done|].
  exists x. split_and!; [done..|]. wp_norm. change (set_th_stat _ (set_th_number_mask _ _)) with (started th).
  pose proof (kinv_started 0 None t th s Hk Ht Hst) as Hk1. set (s1 := set_threads _ s) in *.
  eapply (wp_thread_resume 0 None t (started th)); [done|simpl; apply lookup_insert_eq|done|done|].
  intros tx Ex Hk2. pose proof (woken_resumed t (started th) tx s1) as Hwk.
  assert (rt_current_thread (resumed t (started th) tx s1) = rt_current_thread s) as Ec
    by (unfold resumed; by rewrite inserted_current).
  wp_norm. rewrite Ec, wp_when. destruct (rt_current_thread s) as [c|] eqn:Hc; [left|right]; (split; [done|]).
  - eapply (wp_schedule 0 None c); [done|done|]. intros s3 Hk3 Hr _ Hh. wp_norm. split_and!; [done|done|by eapply woken_resched|].
    intros Hl. apply Hh; [|by eapply woken_runnable]. by rewrite (kf_lock _ _ (wk_frame _ _ _ _ Hwk)).
  - wp_norm. split_and!; [done|done|done|done|].
    unfold resumed, inserted. simpl. rewrite Hc. simpl. rewrite qlist_push_back, decide_True by done.
    rewrite qlist_remove, list_del_notin; [done|]. eapply queue_ok_nowhere; [apply (ki_sched _ _ _ Hk)|done|by left].
Qed.

(** A thread that has been initialised, with its timer, and not started. *)
Definition demo_born : kernel :=
  set_threads (<[8%nat := demo_thread 8 RT_THREAD_INIT 4]> (threads demo_kernel))
    (set_objects (<[OThread 8 := static_object RT_Object_Class_Thread 0]>
        (<[OThreadTimer 8 := static_object RT_Object_Class_Timer 0]> (objects demo_kernel)))
      (set_timers (<[OThreadTimer 8 := mkTimer (CbThreadTimeout 8) 0 0]> (timers demo_kernel)) demo_kernel)).

Lemma demo_born_inv : kinv demo_born.
Proof. apply kinvb_sound. vm_compute. reflexivity. Qed.

Lemma rt_thread_startup_spec_witness :
  wp (rt_thread_startup 8) (fun r s' => r = RT_EOK /\ kinv s' /\
    woken 8 (started (demo_thread 8 RT_THREAD_INIT 4))
      (set_threads (<[8%nat := started (demo_thread 8 RT_THREAD_INIT 4)]> (threads demo_born)) demo_born) s' /\
    (rt_scheduler_lock_nest demo_born = 0 -> highest_running s')) demo_born.
Proof.
  apply (rt_thread_startup_spec 8 (demo_thread 8 RT_THREAD_INIT 4) demo_born); [apply demo_born_inv|reflexivity..].
Defined.

(** ** The end of a thread *)

Definition untyped (x : rt_object) : Prop := obj_type x = 0.

Lemma untyped_timer x : untyped x -> ~ timer_typed x.
Proof. unfold untyped, timer_typed. intros ->. done. Qed.

(** The header of a closed thread, or of its idle timer, is given back. *)
Lemma kinv_untype lo X s t o th x' :
  kinv_at lo X s -> threads s !! t = Some th -> th_stat th = RT_THREAD_CLOSE ->
  o = OThread t \/ o = OThreadTimer t -> o ∉ rt_timer_list s -> untyped x' ->
  kinv_at lo X (set_objects (<[o := x']> (objects s)) s).
Proof.
  intros [Hs Htm Ho Ha] Ht Hst Ho' Hno Hx'. pose proof (untyped_timer _ Hx') as Hnt.
  assert (forall y p, <[o := x']> (objects s) !! p = Some y -> timer_typed y -> objects s !! p = Some y) as Hback.
  { intros y p. destruct (decide (o = p)) as [->|]; [rewrite lookup_insert_eq; by intros [= <-]|by rewrite lookup_insert_ne]. }
  split; [by destruct Hs| | |done].
  - destruct Htm as [H1 H2 H3 H4 H5]. split; simpl; [done| | |done|]; eauto.
    intros p Hp. destruct (H2 p Hp) as (? & tm & y & ? & Hy & ?). split; [done|]. exists tm, y.
    rewrite lookup_insert_ne by congruence. done.
  - destruct Ho as [H1 H2 H3]. split; simpl; [|eauto|done]. intros u uh Hu Huc.
    assert (u ≠ t) as Hne by congruence. unfold thread_objects. rewrite !lookup_insert_ne by (destruct Ho' as [-> | ->]; congruence).
    by eapply H1.
Qed.

Lemma kinv_set_container lo X v s : kinv_at lo X s -> kinv_at lo X (set_rt_object_container v s).
Proof. by apply kinv_same. Qed.

(** [rt_object_detach] of a header. *)
Definition object_gone (o : obj_id) (x : rt_object) (s : kernel) : kernel :=
  set_rt_object_container (list_del o <$> rt_object_container s)
    (set_objects (<[o := set_obj_type 0 x]> (objects s)) s).

Lemma wp_object_detach o x s Q : objects s !! o = Some x -> Q tt (object_gone o x s) -> wp (rt_object_detach o) Q s.
Proof. intros Hx HQ. unfold rt_object_detach. wp_norm. exists x. split; [done|]. by wp_norm. Qed.

(** [rt_timer_detach] unlinks the timer and gives its header back. *)
Definition timer_gone (o : obj_id) (x : rt_object) (s : kernel) : kernel :=
  object_gone o x (set_rt_timer_list (list_del o (rt_timer_list s)) s).

Lemma wp_timer_detach o x s Q :
  objects s !! o = Some x -> timer_typed x -> static_obj x = true -> Q RT_EOK (timer_gone o x s) ->
  wp (rt_timer_detach o) Q s.
Proof.
  intros Hx Hty Hst HQ. unfold rt_timer_detach, rt_object_is_systemobject, _rt_timer_remove. wp_norm.
  exists x. split_and!; [done..|]. wp_norm. exists x. split; [done|]. wp_norm. split; [exact Hst|].
  eapply wp_object_detach; [done|]. by wp_norm.
Qed.

(** The thread [t] is closed and its timer is gone; [qs] and [g] are the queues without it. *)
Definition closed (t : nat) (th : thread) (tx : rt_object) (qs : gmap qid (list nat)) (g : Z) (s : kernel) : kernel :=
  timer_gone (OThreadTimer t) tx
    (set_threads (<[t := set_th_stat RT_THREAD_CLOSE th]> (threads s))
      (set_rt_thread_ready_priority_group g (set_queues qs s))).

Lemma kinv_closed lo X t th tx qs g s :
  kinv_at lo X s -> threads s !! t = Some th -> th_stat th ≠ RT_THREAD_CLOSE -> X ≠ Some (OThreadTimer t) ->
  objects s !! OThreadTimer t = Some tx -> queue_ok (Some t) (threads s) qs g ->
  kinv_at lo X (closed t th tx qs g s).
Proof.
  intros Hk Ht Hst HX Htx Hq. pose proof (kinv_timer_stopped lo X s _ tx Hk Htx) as Hk0. rewrite decide_False in Hk0 by done.
  set (s0 := timer_stopped _ _ s) in *. pose proof (kinv_thread_ok Hk Ht) as [H1 H2 H3 H4].
  assert (OThreadTimer t ∉ rt_timer_list s0) as Hidle by (simpl; rewrite elem_of_list_del; naive_solver).
  set (th' := set_th_stat RT_THREAD_CLOSE th).
  set (s1 := set_threads (<[t := th']> (threads s0)) (set_rt_thread_ready_priority_group g (set_queues qs s0))).
  assert (kinv_at lo X s1) as Hk1.
  { pose proof (ki_sched _ _ _ Hk0) as [_ Hc Hok]. split; [split| | |]; simpl.
    - eapply queue_place_none; [|by apply lookup_insert_eq|simpl; lia]. by apply queue_update_exempt.
    - eapply current_ok_replace; [done..| |]; simpl; lia.
    - apply threads_ok_insert; [done|]. split; simpl; [lia|done| |lia]. destruct H3 as [|[? _]]; [by left|right; auto].
    - apply (ki_timer _ _ _ Hk0).
    - apply (objs_ok_update Hk0 Ht). by right.
    - apply (active_ok_update Hk0 Ht). by right. }
  pose proof (kinv_untype lo X s1 t (OThreadTimer t) th' (set_obj_type 0 tx) Hk1 ltac:(simpl; apply lookup_insert_eq)
    eq_refl ltac:(by right) Hidle eq_refl) as Hk2.
  apply (kinv_set_container _ _ (list_del (OThreadTimer t) <$> rt_object_container s)) in Hk2.
  simpl in Hk2. unfold s1, s0, timer_stopped in Hk2. simpl in Hk2. rewrite insert_insert_eq in Hk2. exact Hk2.
Qed.

(** A closed thread joins the defunct list. *)
Lemma kinv_defunct lo X t th s :
  kinv_at lo X s -> threads s !! t = Some th -> th_stat th = RT_THREAD_CLOSE -> (forall q, t ∉ qget s q) ->
  kinv_at lo X (set_queues (q_push_front QDefunct t (queues s)) s).
Proof.
  intros [[Hq Hc Hok] Ht' Ho Ha] Ht Hst Hno. split; [split| | |]; try done. simpl. unfold q_push_front.
  eapply queue_place_wait; [|done|done|done|done]. by eapply queue_exempt.
Qed.

(** What is left of the thread [t] in [s'] when it has ended in [s]: it is closed, its timer is idle, it is in
    no list but, if [defunct], the defunct list, and the others may have been switched. *)
Record ended (t : nat) (th : thread) (defunct : bool) (s s' : kernel) : Prop := {
  en_self : threads s' !! t = Some (set_th_stat RT_THREAD_CLOSE th);
  en_others : forall u, u ≠ t -> shuffled (threads s !! u) (threads s' !! u);
  en_timer : OThreadTimer t ∉ rt_timer_list s';
  en_ready : forall p, t ∉ qget s' (QReady p);
  en_waits : forall q, (forall p, q ≠ QReady p) -> q ≠ QDefunct -> qget s' q = list_del t (qget s q);
  en_defunct : qget s' QDefunct = if defunct then t :: qget s QDefunct else qget s QDefunct;
}.

(** The two ways in which the thread leaves the queues. *)
Lemma leaves_queue lo X t th s :
  kinv_at lo X s -> threads s !! t = Some th ->
  queue_ok (Some t) (threads s) (q_remove t (queues s)) (rt_thread_ready_priority_group (detached t th s)).
Proof. intros Hk Ht. simpl. eapply queue_detach; [apply Hk|done|by eapply kinv_thread_ok]. Qed.

Lemma init_nowhere lo X t th s :
  kinv_at lo X s -> threads s !! t = Some th -> th_stat th = RT_THREAD_INIT -> q_remove t (queues s) = queues s.
Proof.
  intros Hk Ht Hst. apply map_eq. intros q. unfold q_remove. rewrite lookup_fmap.
  assert (t ∉ qget s q) as Hno by (eapply queue_ok_nowhere; [apply (ki_sched _ _ _ Hk)|done|by left]).
  unfold qlist in Hno. destruct (queues s !! q); simpl in *; [|done]. by rewrite list_del_notin.
Qed.

Lemma defunct_nowhere lo X t th s :
  kinv_at lo X s -> threads s !! t = Some th -> th_stat th ≠ RT_THREAD_CLOSE -> t ∉ qget s QDefunct.
Proof.
  intros Hk Ht Hst Hin. destruct (qo_loc _ _ _ _ (si_queue _ (ki_sched _ _ _ Hk)) _ _ Hin) as (_ & th' & ? & Hl).
  simplify_eq.
Qed.

(** The state when the thread has been taken out, before a last [rt_schedule()]. *)
Definition buried (t : nat) (defunct : bool) (s : kernel) : kernel :=
  if defunct then set_queues (q_push_front QDefunct t (queues s)) s else s.

Lemma closed_ended t th tx g defunct lo X s :
  kinv_at lo X s -> threads s !! t = Some th -> th_stat th ≠ RT_THREAD_CLOSE ->
  ended t th defunct s (buried t defunct (closed t th tx (q_remove t (queues s)) g s)).
Proof.
  intros Hk Ht Hst. pose proof (defunct_nowhere _ _ _ _ _ Hk Ht Hst) as Hnd.
  assert (forall q, q ≠ QDefunct -> qget (buried t defunct (closed t th tx (q_remove t (queues s)) g s)) q =
    list_del t (qget s q)) as Eq.
  { intros q Hq. unfold buried. destruct defunct; simpl; [|by rewrite qlist_remove].
    by rewrite qlist_push_front, decide_False, qlist_remove. }
  split.
  - unfold buried. destruct defunct; simpl; apply lookup_insert_eq.
  - intros u Hu. unfold buried. destruct defunct; simpl; rewrite lookup_insert_ne by done; reflexivity.
  - unfold buried. destruct defunct; simpl; rewrite elem_of_list_del; naive_solver.
  - intros p. rewrite Eq by done. rewrite elem_of_list_del. naive_solver.
  - intros q _. apply Eq.
  - unfold buried. destruct defunct; simpl; rewrite ?qlist_push_front, ?decide_True by done;
      by rewrite qlist_remove, list_del_notin.
Qed.

Lemma kinv_buried lo X t th tx qs g defunct s :
  kinv_at lo X (closed t th tx qs g s) -> (forall q, t ∉ qlist qs q) ->
  kinv_at lo X (buried t defunct (closed t th tx qs g s)).
Proof.
  intros Hk Hno. unfold buried. destruct defunct; [|done]. eapply kinv_defunct; [done|simpl; apply lookup_insert_eq|done|done].
Qed.

Lemma ended_object_gone t th d o x s s' : ended t th d s s' -> ended t th d s (object_gone o x s').
Proof. intros []. by split. Qed.

Lemma ended_resched t th d s s1 s2 :
  ended t th d s s1 -> resched s1 s2 -> sched_inv s2 -> ended t th d s s2.
Proof.
  intros [H1 H2 H3 H4 H5 H6] Hr Hs. pose proof (rs_frame _ _ Hr) as Hf.
  assert (threads s2 !! t = Some (set_th_stat RT_THREAD_CLOSE th)) as Hself by (eapply resched_stable; [done..|simpl; lia|simpl; lia]).
  split.
  - done.
  - intros u Hu. etrans; [by apply H2|apply (rs_thread _ _ Hr)].
  - by rewrite (sf_timer_list _ _ Hf).
  - intros p Hin. destruct (qo_loc _ _ _ _ (si_queue _ Hs) _ _ Hin) as (_ & th' & E & Hl & _).
    rewrite Hself in E. injection E as <-. simpl in Hl. lia.
  - intros q Hq Hq'. by rewrite (rs_waits _ _ Hr), H5.
  - by rewrite (rs_waits _ _ Hr), H6.
Qed.

(** The last [rt_schedule()] of a thread that has ended. *)
Lemma wp_last_schedule t th d y s s2 :
  kinv s2 -> ended t th d s s2 -> rt_current_thread s2 = Some t ->
  rt_scheduler_lock_nest s2 = rt_scheduler_lock_nest s -> (forall u, u ≠ t -> threads s2 !! u = threads s !! u) ->
  objects s2 !! OThread t = Some y ->
  wp rt_schedule (fun _ s' => kinv s' /\ ended t th d s s' /\ objects s' !! OThread t = Some y /\
    (rt_scheduler_lock_nest s = 0 -> other_ready t s -> highest_running s' /\ rt_current_thread s' ≠ Some t)) s2.
Proof.
  intros Hk2 He Hc2 Hl2 Hth2 Ho2. eapply (wp_schedule 0 None t); [done..|]. intros s3 Hk3 Hr _ Hh.
  assert (ended t th d s s3) as He3 by (eapply ended_resched; [done..|apply Hk3]).
  split_and!; [done|done|by rewrite (sf_objects _ _ (rs_frame _ _ Hr))|].
  intros Hl (u & uh & Hu & Huh & Hus). assert (highest_running s3) as Hhr.
  { apply Hh; [congruence|]. exists u, uh. rewrite Hth2 by done. split; [done|by left]. }
  split; [done|]. destruct Hhr as (v & vh & Hv & Hvh & Hr' & _). rewrite Hv. intros [= ->].
  rewrite (en_self _ _ _ _ _ He3) in Hvh. injection Hvh as <-. simpl in Hr'. lia.
Qed.

(** A header that is not a timer's is in no timer list. *)
Lemma thread_not_timer lo X t s : kinv_at lo X s -> OThread t ∉ rt_timer_list s.
Proof.
  intros Hk Hin. destruct (tk_elem _ _ _ _ _ _ (ki_timer _ _ _ Hk) _ Hin) as (_ & tm & y & _ & Hy & Hyt & _).
  by destruct (oo_kind _ _ _ (ki_objs _ _ _ Hk) _ _ Hy Hyt) as [[]|[]].
Qed.

(** The header of a closed thread is given back. *)
Lemma kinv_thread_gone lo X t th x s :
  kinv_at lo X s -> threads s !! t = Some th -> th_stat th = RT_THREAD_CLOSE ->
  kinv_at lo X (object_gone (OThread t) x s).
Proof.
  intros Hk Ht Hst. apply kinv_set_container. eapply kinv_untype; [done..|by left|by eapply thread_not_timer|done].
Qed.

(** [rt_thread_exit], the return of a thread's entry: the thread is closed and leaves every list, its
    timer is idle; a static thread without a cleanup function is given back at once, any other one
    becomes defunct; and the most urgent of the remaining threads runs. *)
Theorem rt_thread_exit_spec t th x s :
  kinv s -> rt_current_thread s = Some t -> threads s !! t = Some th -> th_stat th = RT_THREAD_RUNNING ->
  objects s !! OThread t = Some x ->
  wp rt_thread_exit (fun _ s' => kinv s' /\
    ended t th (negb (static_obj x && (th_cleanup th =? 0))) s s' /\
    objects s' !! OThread t = Some (if static_obj x && (th_cleanup th =? 0) then set_obj_type 0 x else x) /\
    (rt_scheduler_lock_nest s = 0 -> other_ready t s -> highest_running s' /\ rt_current_thread s' ≠ Some t)) s.
Proof.
  intros Hk Hc Ht Hst Hx. destruct (kinv_thread_objects Hk Ht) as (_ & (tx & Htx & Hty & Hp & Hstatic) & _); [lia|].
  unfold rt_thread_exit, rt_object_is_systemobject. wp_norm. exists t. split; [done|]. wp_norm.
  apply (wp_remove_thread t th); [done|]. wp_norm. exists th. split; [done|]. wp_norm. eapply wp_timer_detach; [done..|].
  set (sc := timer_gone _ _ _).
  assert (sc = closed t th tx (q_remove t (queues s)) (rt_thread_ready_priority_group (detached t th s)) s) as Esc by done.
  clearbody sc. subst sc. set (sc := closed _ _ _ _ _ s).
  pose proof (kinv_closed 0 None t th tx _ _ s Hk Ht ltac:(lia) ltac:(done) Htx (leaves_queue _ _ _ _ _ Hk Ht)) as Hk1. fold sc in Hk1.
  wp_norm. exists x. assert (objects sc !! OThread t = Some x) as Hxc by (simpl; by rewrite lookup_insert_ne).
  split; [done|]. wp_norm. exists (set_th_stat RT_THREAD_CLOSE th). split; [simpl; apply lookup_insert_eq|].
  fold (static_obj x). cbn [th_cleanup set_th_stat]. set (keep := static_obj x && (th_cleanup th =? 0)).
  assert (ended t th (negb keep) s (buried t (negb keep) sc)) as He by (eapply closed_ended; [done..|lia]).
  assert (kinv (buried t (negb keep) sc)) as Hkb
    by (apply kinv_buried; [done|]; intros q; rewrite qlist_remove, elem_of_list_del; naive_solver).
  assert (forall u, u ≠ t -> threads sc !! u = threads s !! u) as Hth by (intros u Hu; simpl; by rewrite lookup_insert_ne).
  destruct keep; simpl in He, Hkb; rewrite wp_bind.
  - eapply wp_object_detach; [exact Hxc|].
    apply wp_last_schedule; [|by apply ended_object_gone|exact Hc|done|exact Hth|simpl; apply lookup_insert_eq].
    eapply kinv_thread_gone; [done|simpl; apply lookup_insert_eq|done].
  - rewrite wp_tlist_insert_after. by apply wp_last_schedule.
Qed.

(** The common part of [rt_thread_detach] and [rt_thread_delete]. *)
Lemma wp_close t th s Q :
  kinv s -> threads s !! t = Some th -> th_stat th ≠ RT_THREAD_CLOSE ->
  (forall g tx, kinv (closed t th tx (q_remove t (queues s)) g s) -> Q tt (closed t th tx (q_remove t (queues s)) g s)) ->
  wp (when (negb (th_stat th .& RT_THREAD_STAT_MASK =? RT_THREAD_INIT)) (rt_schedule_remove_thread t))
    (fun _ s1 => wp (rt_timer_detach (OThreadTimer t)) (fun _ s2 => wp (upd_thread t (set_th_stat RT_THREAD_CLOSE)) Q s2) s1) s.
Proof.
  intros Hk Ht Hst HQ. destruct (kinv_thread_objects Hk Ht Hst) as (_ & (tx & Htx & Hty & Hp & Hstatic) & _).
  assert (forall g, queue_ok (Some t) (threads s) (q_remove t (queues s)) g ->
    wp (rt_timer_detach (OThreadTimer t)) (fun _ s2 => wp (upd_thread t (set_th_stat RT_THREAD_CLOSE)) Q s2)
      (set_rt_thread_ready_priority_group g (set_queues (q_remove t (queues s)) s))) as Hrest.
  { intros g Hq. pose proof (kinv_closed 0 None t th tx _ _ s Hk Ht Hst ltac:(done) Htx Hq) as Hk1.
    eapply wp_timer_detach; [done..|]. rewrite wp_upd_thread. exists th. split; [done|]. exact (HQ g tx Hk1). }
  rewrite wp_when, stat_mask by (eapply to_stat, kinv_thread_ok; done).
  destruct (Z.eqb_spec (th_stat th) RT_THREAD_INIT) as [Hi|Hi]; [right|left]; (split; [done|]).
  - specialize (Hrest (rt_thread_ready_priority_group s)). rewrite (init_nowhere _ _ _ _ _ Hk Ht Hi) in Hrest.
    replace (set_rt_thread_ready_priority_group _ _) with s in Hrest by (by destruct s). apply Hrest.
    eapply queue_exempt; [apply Hk|done|]. intros q. eapply queue_ok_nowhere; [apply Hk|done|by left].
  - apply (wp_remove_thread t th); [done|]. apply Hrest. by eapply leaves_queue.
Qed.

(** [rt_thread_detach], for its callers. *)
Lemma wp_thread_detach t th x s (Q : Z -> kernel -> Prop) :
  kinv s -> threads s !! t = Some th -> th_stat th ≠ RT_THREAD_CLOSE ->
  objects s !! OThread t = Some x -> static_obj x = true ->
  (forall s', kinv s' -> ended t th (negb (th_cleanup th =? 0)) s s' ->
     objects s' !! OThread t = Some (set_obj_type 0 x) ->
     threads s' = <[t := set_th_stat RT_THREAD_CLOSE th]> (threads s) ->
     rt_current_thread s' = rt_current_thread s -> rt_scheduler_lock_nest s' = rt_scheduler_lock_nest s ->
     rt_interrupt_nest s' = rt_interrupt_nest s -> Q RT_EOK s') ->
  wp (rt_thread_detach t) Q s.
Proof.
  intros Hk Ht Hst Hx Hsx HQ. destruct (kinv_thread_objects Hk Ht Hst) as ((x' & Hx' & Htx) & _). simplify_eq.
  unfold rt_thread_detach, rt_object_is_systemobject. wp_norm. exists x. split_and!; [done..|]. wp_norm.
  exists x. split; [done|]. wp_norm. split; [exact Hsx|]. exists th. split; [done|]. wp_norm.
  eapply wp_mono; [eapply (wp_close t th s (fun _ s3 => exists g tx, s3 = closed t th tx (q_remove t (queues s)) g s /\ kinv s3)); eauto|].
  intros ? s1 W1. wp_norm. eapply wp_mono; [exact W1|]. clear W1. intros ? s2 W2. wp_norm.
  rewrite wp_upd_thread in W2. destruct W2 as (th2 & E2 & g & tx & E3 & Hk3). exists th2. split; [done|].
  rewrite E3 in Hk3 |- *. clear E2 E3 th2 s2 s1. set (sc := closed _ _ _ _ _ s) in *. wp_norm.
  eapply wp_object_detach; [simpl; by rewrite lookup_insert_ne|].
  assert (forall q, t ∉ qlist (q_remove t (queues s)) q) as Hno
    by (intros q; rewrite qlist_remove, elem_of_list_del; naive_solver).
  assert (threads sc !! t = Some (set_th_stat RT_THREAD_CLOSE th)) as Hself by (simpl; apply lookup_insert_eq).
  pose proof (kinv_buried _ _ t th tx _ g (negb (th_cleanup th =? 0)) s Hk3 Hno) as Hkb.
  pose proof (closed_ended t th tx g (negb (th_cleanup th =? 0)) 0 None s Hk Ht Hst) as He. fold sc in Hkb, He.
  apply (kinv_thread_gone _ _ t (set_th_stat RT_THREAD_CLOSE th) x) in Hkb; [|by destruct (negb _)|done].
  apply (ended_object_gone _ _ _ (OThread t) x) in He.
  wp_norm. rewrite wp_when. destruct (negb (th_cleanup th =? 0)); [left|right]; (split; [done|]).
  - rewrite wp_tlist_insert_after. wp_norm. by apply HQ; [exact Hkb|exact He|simpl; apply lookup_insert_eq|..].
  - wp_norm. by apply HQ; [exact Hkb|exact He|simpl; apply lookup_insert_eq|..].
Qed.

(** [rt_thread_detach] of a static thread that has not ended, whatever it does or waits for: it is
    closed and leaves every list, its timer and its header are given back, and if it has a cleanup function
    it becomes defunct. *)
Theorem rt_thread_detach_spec t th x s :
  kinv s -> threads s !! t = Some th -> th_stat th ≠ RT_THREAD_CLOSE ->
  objects s !! OThread t = Some x -> static_obj x = true ->
  wp (rt_thread_detach t) (fun r s' => r = RT_EOK /\ kinv s' /\ ended t th (negb (th_cleanup th =? 0)) s s' /\
    objects s' !! OThread t = Some (set_obj_type 0 x)) s.
Proof. intros. by eapply wp_thread_detach. Qed.

(** [rt_thread_delete] of a dynamic thread that has not ended: it is closed, leaves every list and
    becomes defunct, with its header still in place for the idle thread to free. *)
Theorem rt_thread_delete_spec t th x s :
  kinv s -> threads s !! t = Some th -> th_stat th ≠ RT_THREAD_CLOSE ->
  objects s !! OThread t = Some x -> static_obj x = false ->
  wp (rt_thread_delete t) (fun r s' => r = RT_EOK /\ kinv s' /\ ended t th true s s' /\ objects s' !! OThread t = Some x) s.
Proof.
  intros Hk Ht Hst Hx Hsx. destruct (kinv_thread_objects Hk Ht Hst) as ((x' & Hx' & Htx) & _). simplify_eq.
  unfold rt_thread_delete, rt_object_is_systemobject. wp_norm. exists x. split_and!; [done..|]. wp_norm.
  exists x. split; [done|]. wp_norm. fold (static_obj x). rewrite Hsx. split; [done|]. exists th. split; [done|]. wp_norm.
  eapply wp_mono; [eapply (wp_close t th s (fun _ s3 => exists g tx, s3 = closed t th tx (q_remove t (queues s)) g s /\ kinv s3)); eauto|].
  intros ? s1 W1. wp_norm. eapply wp_mono; [exact W1|]. clear W1. intros ? s2 W2. wp_norm.
  rewrite wp_upd_thread in W2. destruct W2 as (th2 & E2 & g & tx & E3 & Hk3). exists th2. split; [done|].
  rewrite E3 in Hk3 |- *. clear E2 E3 th2 s2 s1. set (sc := closed _ _ _ _ _ s) in *. wp_norm.
  assert (forall q, t ∉ qlist (q_remove t (queues s)) q) as Hno
    by (intros q; rewrite qlist_remove, elem_of_list_del; naive_solver).
  pose proof (kinv_buried _ _ t th tx _ g true s Hk3 Hno) as Hkb.
  pose proof (closed_ended t th tx g true 0 None s Hk Ht Hst) as He. fold sc in Hkb, He.
  split_and!; [done|exact Hkb|exact He|simpl; by rewrite lookup_insert_ne].
Qed.

(** ** Critical sections of the scheduler *)

Lemma kinv_set_lock lo X v s : kinv_at lo X s -> kinv_at lo X (set_rt_scheduler_lock_nest v s).
Proof. by apply kinv_same. Qed.

(** A critical section of a running thread around steps that keep the state: at most a reschedule. *)
Lemma wp_critical_section c cth s Q :
  kinv s -> rt_current_thread s = Some c -> threads s !! c = Some cth -> th_stat cth = RT_THREAD_RUNNING ->
  0 <= rt_scheduler_lock_nest s < 32767 ->
  (forall s' c' cth', kinv s' -> resched s s' -> rt_current_thread s' = Some c' -> threads s' !! c' = Some cth' ->
     th_stat cth' = RT_THREAD_RUNNING -> Q tt s') ->
  wp rt_exit_critical Q (set_rt_scheduler_lock_nest (s16 (rt_scheduler_lock_nest s + 1)) s).
Proof.
  intros Hk Hc Hcth Hr Hn HQ. unfold rt_exit_critical.
  rewrite (swrap_small 16 (_ + 1)) by (change (2 ^ (16 - 1)) with 32768; lia).
  rewrite wp_bind, wp_modify. cbn [rt_scheduler_lock_nest set_rt_scheduler_lock_nest]. rewrite Z.add_simpl_r.
  rewrite swrap_small by (change (2 ^ (16 - 1)) with 32768; lia).
  rewrite wp_bind, wp_gets. cbn [rt_scheduler_lock_nest set_rt_scheduler_lock_nest].
  assert (forall v w, set_rt_scheduler_lock_nest v (set_rt_scheduler_lock_nest w s) = set_rt_scheduler_lock_nest v s) as E by done.
  assert (set_rt_scheduler_lock_nest (rt_scheduler_lock_nest s) s = s) as Eid by (by destruct s).
  destruct (Z.leb_spec (rt_scheduler_lock_nest s) 0).
  - assert (rt_scheduler_lock_nest s = 0) as H0 by lia. rewrite wp_bind, wp_modify, !E. rewrite <- H0, Eid.
    eapply (wp_schedule 0 None c); [done|done|]. intros s' Hk' Hrs _ Hh.
    destruct Hh as (c' & cth' & ? & ? & ? & _); [done|exists c, cth; auto|]. by eapply HQ.
  - rewrite !E, Eid, wp_ret. eapply HQ; [done|reflexivity|done..].
Qed.

(** ** Examples *)

Lemma rt_thread_exit_spec_witness :
  wp rt_thread_exit (fun _ s' => kinv s' /\
    ended 0 (demo_thread 0 RT_THREAD_RUNNING 10) false demo_kernel s' /\
    objects s' !! OThread 0 = Some (set_obj_type 0 (static_object RT_Object_Class_Thread 0)) /\
    (rt_scheduler_lock_nest demo_kernel = 0 -> other_ready 0 demo_kernel ->
       highest_running s' /\ rt_current_thread s' ≠ Some 0%nat)) demo_kernel.
Proof.
  apply (rt_thread_exit_spec 0 (demo_thread 0 RT_THREAD_RUNNING 10) (static_object RT_Object_Class_Thread 0));
    [apply demo_kernel_inv|reflexivity..].
Defined.

(** The thread 3 waits for a semaphore with its timer armed. *)
Lemma rt_thread_detach_spec_witness :
  wp (rt_thread_detach 3) (fun r s' => r = RT_EOK /\ kinv s' /\
    ended 3 (demo_thread 3 RT_THREAD_SUSPEND 8) false demo_kernel s' /\
    objects s' !! OThread 3 = Some (set_obj_type 0 (static_object RT_Object_Class_Thread 0))) demo_kernel.
Proof.
  apply (rt_thread_detach_spec 3 (demo_thread 3 RT_THREAD_SUSPEND 8)); [apply demo_kernel_inv|reflexivity|discriminate|reflexivity..].
Defined.

(** The thread 4 is dynamic, and the thread 9, also dynamic, is defunct. *)
Definition dynamic_object (type : Z) : rt_object := mkObject "d" type 0.
Definition demo_dynamic : kernel :=
  set_threads (<[9%nat := demo_thread 9 RT_THREAD_CLOSE 6]> (threads demo_kernel))
    (set_queues (<[QDefunct := [9%nat]]> (queues demo_kernel))
      (set_objects (<[OThread 4 := dynamic_object RT_Object_Class_Thread]>
        (<[OThread 9 := dynamic_object RT_Object_Class_Thread]> (objects demo_kernel))) demo_kernel)).
Lemma demo_dynamic_inv : kinv demo_dynamic.
Proof. apply kinvb_sound. vm_compute. reflexivity. Qed.

Lemma rt_thread_delete_spec_witness :
  wp (rt_thread_delete 4) (fun r s' => r = RT_EOK /\ kinv s' /\
    ended 4 (demo_thread 4 RT_THREAD_SUSPEND 20) true demo_dynamic s' /\
    objects s' !! OThread 4 = Some (dynamic_object RT_Object_Class_Thread)) demo_dynamic.
Proof.
  apply (rt_thread_delete_spec 4 (demo_thread 4 RT_THREAD_SUSPEND 20)); [apply demo_dynamic_inv|reflexivity|discriminate|reflexivity..].
Defined.
