(* ===== verification/Sem.v ===== *)
(** Semaphores (src/ipc.c). *)

From S2P Require Import Prelude RtDef Object Scheduler Timer Thread Kernel Ipc.

Definition get_sem (n : nat) : M rt_semaphore := getso (fun s => sems s !! n).
Definition put_sem (n : nat) (x : rt_semaphore) : M unit :=
  modify (fun s => set_sems (<[n := x]> (sems s)) s).
Abbreviation sem_q n := (QSuspend (OSem n)).

Definition rt_sem_init (n : nat) (name : string) (value flag : Z) : M Z :=
  rt_object_init (OSem n) RT_Object_Class_Semaphore name;;
  rt_ipc_object_init (sem_q n);;
  put_sem n (mkSem (u16 value));;
  upd_object (OSem n) (set_obj_flag flag);;
  mret RT_EOK.

Definition rt_sem_detach (n : nat) : M Z :=
  assert_type (OSem n) RT_Object_Class_Semaphore;;
  b ← rt_object_is_systemobject (OSem n);
  RT_ASSERT b;;
  rt_ipc_list_resume_all (sem_q n);;
  rt_object_detach (OSem n);;
  mret RT_EOK.

(** [rt_sem_take] up to its [rt_schedule()]; [Block t]: the thread [t] waits. *)
Definition rt_sem_take (n : nat) (time : Z) : M (outcome Z nat) :=
  assert_type (OSem n) RT_Object_Class_Semaphore;;
  sem ← get_sem n;
  if sem_value sem >? 0 then
    put_sem n (set_sem_value (u16 (sem_value sem - 1)) sem);;
    mret (Ret RT_EOK)
  else if time =? 0 then mret (Ret (- RT_ETIMEOUT))
  else
    RT_DEBUG_IN_THREAD_CONTEXT;;
    t ← self;
    upd_thread t (set_th_error RT_EOK);;
    x ← get_object (OSem n);
    rt_ipc_list_suspend (sem_q n) t (obj_flag x);;
    when (time >? 0) (start_thread_timer t time);;
    rt_schedule;;
    mret (Block t).

(** The rest of [rt_sem_take] for the thread [t]. *)
Definition rt_sem_take_resume (t : nat) : M Z :=
  th ← get_thread t;
  if negb (th_error th =? RT_EOK) then mret (th_error th) else mret RT_EOK.

Definition rt_sem_trytake (n : nat) : M (outcome Z nat) := rt_sem_take n 0.

Definition rt_sem_release (n : nat) : M Z :=
  assert_type (OSem n) RT_Object_Class_Semaphore;;
  sem ← get_sem n;
  e ← tlist_isempty (sem_q n);
  need_schedule ←
    (if negb e then rt_ipc_list_resume (sem_q n);; mret true
     else put_sem n (set_sem_value (u16 (sem_value sem + 1)) sem);; mret false);
  when need_schedule rt_schedule;;
  mret RT_EOK.

(** [arg] is the pointer-sized argument. *)
Definition rt_sem_control (n : nat) (cmd arg : Z) : M Z :=
  assert_type (OSem n) RT_Object_Class_Semaphore;;
  if cmd =? RT_IPC_CMD_RESET then
    rt_ipc_list_resume_all (sem_q n);;
    sem ← get_sem n;
    put_sem n (set_sem_value (u16 arg) sem);;
    rt_schedule;;
    mret RT_EOK
  else mret (- RT_ERROR).

(** ** The invariant of a semaphore *)

(** A semaphore with units left has no waiters. *)
Record sem_ok (n : nat) (s : kernel) : Prop := {
  so_object : object_typed (OSem n) RT_Object_Class_Semaphore s;
  so_sem : exists sem, sems s !! n = Some sem /\ 0 <= sem_value sem < 65536 /\
    (0 < sem_value sem -> qget s (sem_q n) = []);
}.

Lemma kinv_set_sems lo X v s : kinv_at lo X s -> kinv_at lo X (set_sems v s).
Proof. by apply kinv_same. Qed.

(** What [rt_sem_take] does, by the value of the semaphore and the time to wait. *)
Inductive sem_take_result (n : nat) (time : Z) (t : nat) (s : kernel) :
    outcome Z nat -> kernel -> Prop :=
| take_unit sem :
    sems s !! n = Some sem -> 0 < sem_value sem ->
    sem_take_result n time t s (Ret RT_EOK)
      (set_sems (<[n := mkSem (sem_value sem - 1)]> (sems s)) s)
| take_timeout sem :
    sems s !! n = Some sem -> sem_value sem = 0 -> time = 0 ->
    sem_take_result n time t s (Ret (- RT_ETIMEOUT)) s
| take_wait sem th s' :
    sems s !! n = Some sem -> sem_value sem = 0 -> time ≠ 0 -> threads s !! t = Some th ->
    blocked_on (sem_q n) (ipc_obj_flag (OSem n) s) time t (set_th_error RT_EOK th)
      (set_threads (<[t := set_th_error RT_EOK th]> (threads s)) s) s' ->
    sem_take_result n time t s (Block t) s'.

Lemma wp_sem_take n time t th s :
  kinv s -> sem_ok n s -> rt_current_thread s = Some t -> threads s !! t = Some th ->
  th_stat th = RT_THREAD_RUNNING -> rt_interrupt_nest s = 0 -> time < TIMER_MAX ->
  wp (rt_sem_take n time) (fun r s' => kinv s' /\ sem_ok n s' /\ sem_take_result n time t s r s') s.
Proof.
  intros Hk [(x & Hx & Hty & Hf) (sem & Hsem & Hv & Hw)] Hc Ht Hst Hn Hti. unfold rt_sem_take. wp_norm.
  exists x. split_and!; [done..|]. wp_norm. unfold get_sem. rewrite wp_getso. exists sem. split; [done|].
  rewrite Z.gtb_ltb. destruct (Z.ltb_spec 0 (sem_value sem)) as [Hpos|Hzero].
  { unfold put_sem. wp_norm. rewrite u16_small by lia. split_and!; [by apply kinv_set_sems| |by econstructor].
    split; [by exists x|]. exists (mkSem (sem_value sem - 1)). simpl. rewrite lookup_insert_eq.
    split_and!; [done|lia|lia|]. auto. }
  assert (sem_value sem = 0) as Hz by lia.
  destruct (Z.eqb_spec time 0) as [Ht0|Ht0].
  { wp_norm. split_and!; [done| |by econstructor]. split; [by exists x|by exists sem]. }
  wp_norm. split_and!; [by rewrite Hc|done|]. exists t. split; [done|]. wp_norm. exists th. split; [done|].
  wp_norm. exists x. split; [done|]. wp_norm.
  set (th' := set_th_error RT_EOK th). set (s1 := set_threads (<[t := th']> (threads s)) s).
  pose proof (kinv_update_same 0 None s t th th' Hk Ht ltac:(done)) as Hk1.
  eapply wp_mono.
  { eapply (wp_block 0 (sem_q n) t th' (obj_flag x) time s1
      (fun _ s' => kinv s' /\ sem_ok n s' /\ sem_take_result n time t s (Block t) s'));
      [exact Hk1|lia|done|simpl; apply lookup_insert_eq|done|auto with ipc|done|done|].
    intros s' Hk' Hb. split_and!; [done| |].
    - pose proof (gw_frame _ _ _ _ (bo_gone _ _ _ _ _ _ _ Hb)) as Hfr. split.
      + eapply (object_typed_frame _ _ s1); [done|done|]. by exists x.
      + exists sem. rewrite (kf_sems _ _ Hfr). split_and!; [done|lia|lia|lia].
    - econstructor; [done|done|done|done|]. unfold ipc_obj_flag. rewrite Hx. exact Hb. }
  intros r s2 [_ Hw2]. wp_norm. eapply wp_mono; [exact Hw2|]. intros [] s3 Hw3. wp_norm.
  eapply wp_mono; [exact Hw3|]. intros [] s4 HQ. by wp_norm.
Qed.

(** C20: [rt_sem_take] by a running thread: it takes a unit if there is one; otherwise it returns
    [-RT_ETIMEOUT] at once for a zero time and else makes the caller wait in the order of the semaphore's
    flag, with its timer armed for a bounded wait, and another thread runs. The kernel's invariant is kept, and a semaphore with units left has no waiters. *)
Theorem rt_sem_take_spec n time t th s :
  kinv s -> sem_ok n s -> rt_current_thread s = Some t -> threads s !! t = Some th ->
  th_stat th = RT_THREAD_RUNNING -> rt_interrupt_nest s = 0 -> time < TIMER_MAX ->
  wp (rt_sem_take n time) (fun r s' => kinv s' /\ sem_ok n s' /\ sem_take_result n time t s r s') s.
Proof. apply wp_sem_take. Qed.

(** What [rt_sem_release] does. *)
Inductive sem_release_result (n : nat) (s s' : kernel) : Prop :=
| release_wake t th l :
    qget s (sem_q n) = t :: l -> threads s !! t = Some th -> woken t th s s' -> qget s' (sem_q n) = l ->
    (rt_scheduler_lock_nest s = 0 -> highest_running s') -> sem_release_result n s s'
| release_unit sem :
    qget s (sem_q n) = [] -> sems s !! n = Some sem ->
    s' = set_sems (<[n := mkSem (u16 (sem_value sem + 1))]> (sems s)) s -> sem_release_result n s s'.

Lemma wp_sem_release n c s :
  kinv s -> sem_ok n s -> rt_current_thread s = Some c ->
  wp (rt_sem_release n) (fun r s' => r = RT_EOK /\ kinv s' /\ sem_ok n s' /\ sem_release_result n s s') s.
Proof.
  intros Hk Hso Hc. pose proof Hso as [(x & Hx & Hty & Hf) (sem & Hsem & Hv & Hw)].
  unfold rt_sem_release. wp_norm. exists x. split_and!; [done..|]. wp_norm. unfold get_sem. rewrite wp_getso.
  exists sem. split; [done|]. wp_norm. destruct (qget s (sem_q n)) as [|t l] eqn:Eq.
  - rewrite bool_decide_eq_true_2 by done. simpl. unfold put_sem, set_sem_value. wp_norm.
    rewrite wp_when. right. split; [done|]. wp_norm.
    split_and!; [done|by apply kinv_set_sems| |by eapply release_unit].
    split; [by exists x|]. exists (mkSem (u16 (sem_value sem + 1))). simpl. rewrite lookup_insert_eq.
    split_and!; [done|apply (uwrap_bound 16); lia..|]. by rewrite Eq.
  - rewrite bool_decide_eq_false_2 by done. simpl. wp_norm.
    eapply (wp_ipc_list_resume 0 None); [done|auto with ipc|done|done|].
    intros th s1 Ht Hst Hk1 Hwk Hq1 Hc1 _. wp_norm. rewrite wp_when. left. split; [done|].
    eapply (wp_schedule 0 None c); [done|congruence|]. intros s2 Hk2 Hr _ Hh. wp_norm.
    pose proof (woken_resched _ _ _ _ _ Hwk Hr) as Hwk2.
    assert (qget s2 (sem_q n) = l) as Hq2 by (by rewrite (rs_waits _ _ Hr)).
    split_and!; [done|done| |].
    + split; [eapply (object_typed_frame _ _ s); [done|apply Hwk2|by exists x]|].
      exists sem. rewrite (kf_sems _ _ (wk_frame _ _ _ _ Hwk2)). split_and!; [done|lia|lia|].
      intros Hp. by specialize (Hw Hp).
    + eapply release_wake; [exact Eq|done|done|done|]. intros Hl.
      apply Hh; [|by eapply woken_runnable]. by rewrite (kf_lock _ _ (wk_frame _ _ _ _ Hwk)).
Qed.

(** [rt_sem_release] (from a thread or an interrupt) hands the unit directly to the first waiter,
    which is made ready and runs if it is the most urgent thread, without the value ever being raised;
    with no waiters it adds one to the value, modulo 2^16. No other waiting list changes, and the kernel's invariant and that of the semaphore are kept. *)
Theorem rt_sem_release_spec n c s :
  kinv s -> sem_ok n s -> rt_current_thread s = Some c ->
  wp (rt_sem_release n) (fun r s' => r = RT_EOK /\ kinv s' /\ sem_ok n s' /\ sem_release_result n s s') s.
Proof. apply wp_sem_release. Qed.

(** [rt_sem_control] with [RT_IPC_CMD_RESET] wakes every waiter with the error [-RT_ERROR], leaves
    the waiting list empty and the value at the low 16 bits of the argument; any other command is refused without effect. *)
Theorem rt_sem_control_spec n cmd arg c s :
  kinv s -> sem_ok n s -> rt_current_thread s = Some c ->
  wp (rt_sem_control n cmd arg) (fun r s' => kinv s' /\ sem_ok n s' /\
    (if cmd =? RT_IPC_CMD_RESET
     then r = RT_EOK /\ qget s' (sem_q n) = [] /\ sems s' !! n = Some (mkSem (u16 arg)) /\
       forall t, t ∈ qget s (sem_q n) -> exists th st, threads s !! t = Some th /\
         threads s' !! t = Some (set_th_stat st (set_th_error (- RT_ERROR) th)) /\
         (st = RT_THREAD_READY \/ st = RT_THREAD_RUNNING)
     else r = - RT_ERROR /\ s' = s)) s.
Proof.
  intros Hk Hso Hc. pose proof Hso as [(x & Hx & Hty & Hf) (sem & Hsem & Hv & Hw)].
  unfold rt_sem_control. wp_norm. exists x. split_and!; [done..|].
  destruct (cmd =? RT_IPC_CMD_RESET); wp_norm; [|by split_and!].
  eapply (wp_ipc_list_resume_all 0 None); [done|auto with ipc|done|]. intros s1 Hk1 Hwa Hc1.
  unfold get_sem, put_sem. wp_norm. rewrite wp_getso. pose proof (wa_frame _ _ _ Hwa) as Hfr.
  exists sem. split; [by rewrite (kf_sems _ _ Hfr)|]. wp_norm.
  eapply (wp_schedule 0 None c); [by apply kinv_set_sems|simpl; congruence|]. intros s2 Hk2 Hr _ _. wp_norm.
  assert (sems s2 !! n = Some (mkSem (u16 arg))) as Esem.
  { rewrite (sf_sems _ _ (rs_frame _ _ Hr)). simpl. apply lookup_insert_eq. }
  set (s1' := set_sems _ s1) in *.
  assert (woken_all (sem_q n) (set_sems (sems s1') s) s1') as Hwa'.
  { destruct Hwa as [H1 H2 H3 H4 []]. split; [done..|]. by split. }
  pose proof (woken_all_resched _ _ _ _ (wait_q_suspend _) Hwa' Hr) as Hwa2.
  split_and!; [done| |done|apply Hwa2|done|apply Hwa2].
  split.
  - eapply (object_typed_frame _ _ (set_sems (sems s1') s)); [done|apply Hwa2|by exists x].
  - eexists. split; [exact Esem|]. split; [apply (uwrap_bound 16); lia|]. intros _. apply Hwa2.
Qed.

(** ** Examples *)

(** The semaphore 0 has no unit and a waiting thread, the semaphore 1 two units. *)
Definition demo_sems : kernel :=
  set_sems (list_to_map [(0%nat, mkSem 0); (1%nat, mkSem 2)]) demo_kernel.

Lemma demo_sems_inv : kinv demo_sems.
Proof. apply kinv_set_sems, demo_kernel_inv. Qed.

Lemma demo_sem_ok n : (n < 2)%nat -> sem_ok n demo_sems.
Proof.
  intros Hn. destruct n as [|[|n]]; [| |lia]; (split; [eexists|eexists]);
    (split; [reflexivity|split; [reflexivity|vm_compute; auto]] ||
     (split; [reflexivity|split; [simpl; lia|vm_compute; done]])).
Qed.

Lemma rt_sem_take_spec_witness :
  wp (rt_sem_take 0 25) (fun r s' => kinv s' /\ sem_ok 0 s' /\
    sem_take_result 0 25 0 demo_sems r s') demo_sems.
Proof.
  apply (rt_sem_take_spec 0 25 0 (demo_thread 0 RT_THREAD_RUNNING 10));
    [apply demo_sems_inv|apply demo_sem_ok; lia|reflexivity..].
Defined.

Lemma rt_sem_release_spec_witness :
  wp (rt_sem_release 0) (fun r s' => r = RT_EOK /\ kinv s' /\ sem_ok 0 s' /\ sem_release_result 0 demo_sems s') demo_sems.
Proof. apply (rt_sem_release_spec 0 0%nat); [apply demo_sems_inv|apply demo_sem_ok; lia|reflexivity]. Defined.

Lemma rt_sem_control_spec_witness :
  wp (rt_sem_control 0 RT_IPC_CMD_RESET 3) (fun r s' => kinv s' /\ sem_ok 0 s' /\
    (if RT_IPC_CMD_RESET =? RT_IPC_CMD_RESET
     then r = RT_EOK /\ qget s' (sem_q 0) = [] /\ sems s' !! 0%nat = Some (mkSem (u16 3)) /\
       forall t, t ∈ qget demo_sems (sem_q 0) -> exists th st, threads demo_sems !! t = Some th /\
         threads s' !! t = Some (set_th_stat st (set_th_error (- RT_ERROR) th)) /\
         (st = RT_THREAD_READY \/ st = RT_THREAD_RUNNING)
     else r = - RT_ERROR /\ s' = demo_sems)) demo_sems.
Proof. apply (rt_sem_control_spec 0 RT_IPC_CMD_RESET 3 0%nat); [apply demo_sems_inv|apply demo_sem_ok; lia|reflexivity]. Defined.
