(* ===== verification/Mutex.v ===== *)
(** Mutexes with priority inheritance (src/ipc.c). *)

From S2P Require Import Prelude RtDef Object Scheduler Timer Thread Kernel Ipc.

Definition get_mutex (n : nat) : M rt_mutex := getso (fun s => mutexes s !! n).
Definition put_mutex (n : nat) (x : rt_mutex) : M unit :=
  modify (fun s => set_mutexes (<[n := x]> (mutexes s)) s).
Abbreviation mutex_q n := (QSuspend (OMutex n)).

Definition rt_mutex_init (n : nat) (name : string) (flag : Z) : M Z :=
  rt_object_init (OMutex n) RT_Object_Class_Mutex name;;
  rt_ipc_object_init (mutex_q n);;
  put_mutex n (mkMutex 1 255 0 None);;
  upd_object (OMutex n) (set_obj_flag flag);;
  mret RT_EOK.

Definition rt_mutex_detach (n : nat) : M Z :=
  assert_type (OMutex n) RT_Object_Class_Mutex;;
  b ← rt_object_is_systemobject (OMutex n);
  RT_ASSERT b;;
  rt_ipc_list_resume_all (mutex_q n);;
  rt_object_detach (OMutex n);;
  mret RT_EOK.

(** What is live across the [rt_schedule()] of [rt_mutex_take]. *)
Record mutex_frame := mkMutexFrame { mf_mutex : nat; mf_thread : nat; mf_time : Z }.

(** [mutex->owner = thread; mutex->original_priority = thread->current_priority; mutex->hold ++]. *)
Definition mutex_set_owner (t : nat) (prio : Z) (m : rt_mutex) : rt_mutex :=
  set_mx_hold (u8 (mx_hold m + 1)) (set_mx_original_priority prio (set_mx_owner (Some t) m)).

(** The owner inherits the priority of a more urgent waiter. *)
Definition mutex_inherit (m : rt_mutex) (prio : Z) : M unit :=
  owner ← getso (fun _ => mx_owner m);
  oth ← get_thread owner;
  when (prio <? th_current_priority oth)
    (rt_thread_control owner RT_THREAD_CTRL_CHANGE_PRIORITY prio;; mret tt).

(** From the label [__again] up to the [rt_schedule()]. *)
Definition mutex_take_again (f : mutex_frame) : M (outcome Z mutex_frame) :=
  m ← get_mutex (mf_mutex f);
  th ← get_thread (mf_thread f);
  if mx_value m >? 0 then
    put_mutex (mf_mutex f)
      (mutex_set_owner (mf_thread f) (th_current_priority th)
        (set_mx_value (u16 (mx_value m - 1)) m));;
    mret (Ret RT_EOK)
  else if mf_time f =? 0 then
    upd_thread (mf_thread f) (set_th_error (- RT_ETIMEOUT));;
    mret (Ret (- RT_ETIMEOUT))
  else
    mutex_inherit m (th_current_priority th);;
    x ← get_object (OMutex (mf_mutex f));
    rt_ipc_list_suspend (mutex_q (mf_mutex f)) (mf_thread f) (obj_flag x);;
    when (mf_time f >? 0) (start_thread_timer (mf_thread f) (mf_time f));;
    rt_schedule;;
    mret (Block f).

Definition rt_mutex_take (n : nat) (time : Z) : M (outcome Z mutex_frame) :=
  RT_DEBUG_IN_THREAD_CONTEXT;;
  assert_type (OMutex n) RT_Object_Class_Mutex;;
  t ← self;
  upd_thread t (set_th_error RT_EOK);;
  m ← get_mutex n;
  if bool_decide (mx_owner m = Some t) then
    put_mutex n (set_mx_hold (u8 (mx_hold m + 1)) m);;
    mret (Ret RT_EOK)
  else mutex_take_again (mkMutexFrame n t time).

(** The rest of [rt_mutex_take]; an interrupted wait is tried again. *)
Definition rt_mutex_take_resume (f : mutex_frame) : M (outcome Z mutex_frame) :=
  th ← get_thread (mf_thread f);
  if negb (th_error th =? RT_EOK) then
    if th_error th =? - RT_EINTR then mutex_take_again f else mret (Ret (th_error th))
  else mret (Ret RT_EOK).

Definition rt_mutex_release (n : nat) : M Z :=
  assert_type (OMutex n) RT_Object_Class_Mutex;;
  RT_DEBUG_IN_THREAD_CONTEXT;;
  t ← self;
  m ← get_mutex n;
  if negb (bool_decide (mx_owner m = Some t)) then
    upd_thread t (set_th_error (- RT_ERROR));;
    mret (- RT_ERROR)
  else
    let m := set_mx_hold (u8 (mx_hold m - 1)) m in
    put_mutex n m;;
    need_schedule ←
      (if mx_hold m =? 0 then
         th ← get_thread t;
         when (negb (mx_original_priority m =? th_current_priority th))
           (rt_thread_control t RT_THREAD_CTRL_CHANGE_PRIORITY (mx_original_priority m);; mret tt);;
         e ← tlist_isempty (mutex_q n);
         if negb e then
           w ← tlist_first (mutex_q n);
           wth ← get_thread w;
           put_mutex n (mutex_set_owner w (th_current_priority wth) m);;
           rt_ipc_list_resume (mutex_q n);;
           mret true
         else
           put_mutex n (set_mx_original_priority 255 (set_mx_owner None
                         (set_mx_value (u16 (mx_value m + 1)) m)));;
           mret false
       else mret false);
    when need_schedule rt_schedule;;
    mret RT_EOK.

Definition rt_mutex_control (n : nat) (cmd arg : Z) : M Z :=
  assert_type (OMutex n) RT_Object_Class_Mutex;;
  mret (- RT_ERROR).

(** ** The invariant of a mutex *)

(** Free with value 1, or held at least once by a live thread with value 0; a free mutex has no waiters
    and a thread does not wait for a mutex it owns. *)
Definition mutex_state_ok (n : nat) (m : rt_mutex) (s : kernel) : Prop :=
  match mx_owner m with
  | None => mx_value m = 1 /\ mx_hold m = 0 /\ qget s (mutex_q n) = []
  | Some o => mx_value m = 0 /\ 1 <= mx_hold m < 256 /\ prio_ok (mx_original_priority m) /\
      o ∉ qget s (mutex_q n) /\ exists oth, threads s !! o = Some oth /\ th_stat oth ≠ RT_THREAD_CLOSE
  end.

Record mutex_ok (n : nat) (s : kernel) : Prop := {
  mo_object : object_typed (OMutex n) RT_Object_Class_Mutex s;
  mo_mutex : exists m, mutexes s !! n = Some m /\ mutex_state_ok n m s;
}.

Lemma kinv_set_mutexes lo X v s : kinv_at lo X s -> kinv_at lo X (set_mutexes v s).
Proof. by apply kinv_same. Qed.

Lemma shuffled_prio th o' :
  shuffled (Some th) o' -> exists th', o' = Some th' /\ th_current_priority th' = th_current_priority th /\
    (th_stat th ≠ RT_THREAD_CLOSE -> th_stat th' ≠ RT_THREAD_CLOSE).
Proof.
  intros [->|(th0 & st & [= <-] & -> & _ & [->| ->])]; [by exists th|eexists..]; (split; [done|]; split; [done|simpl; lia]).
Qed.

(** [s1] differs from [s] in the ready rings and the mutexes only, apart from the threads. *)
Record mutex_frame_ok (s s1 : kernel) : Prop := {
  mfo_frame : kframe (set_mutexes (mutexes s1) s) s1;
  mfo_queues : forall q, (forall p, q ≠ QReady p) -> qget s1 q = qget s q;
  mfo_current : rt_current_thread s1 = rt_current_thread s;
}.

(** What [rt_mutex_take] does. In the last case [s1] is the state in which the caller joins the waiters:
    its error code is cleared and the owner has inherited the caller's priority if that is more urgent. *)
Inductive mutex_take_result (n : nat) (time : Z) (t : nat) (th : thread) (s : kernel) :
    outcome Z mutex_frame -> kernel -> Prop :=
| mutex_nested m s' :
    mutexes s !! n = Some m -> mx_owner m = Some t ->
    s' = set_mutexes (<[n := set_mx_hold (mx_hold m + 1) m]> (mutexes s))
           (set_threads (<[t := set_th_error RT_EOK th]> (threads s)) s) ->
    mutex_take_result n time t th s (Ret RT_EOK) s'
| mutex_free m s' :
    mutexes s !! n = Some m -> mx_owner m = None ->
    s' = set_mutexes (<[n := mkMutex 0 (th_current_priority th) 1 (Some t)]> (mutexes s))
           (set_threads (<[t := set_th_error RT_EOK th]> (threads s)) s) ->
    mutex_take_result n time t th s (Ret RT_EOK) s'
| mutex_timeout m o s' :
    mutexes s !! n = Some m -> mx_owner m = Some o -> o ≠ t -> time = 0 ->
    s' = set_threads (<[t := set_th_error (- RT_ETIMEOUT) th]> (threads s)) s ->
    mutex_take_result n time t th s (Ret (- RT_ETIMEOUT)) s'
| mutex_wait m o oth s1 s' :
    mutexes s !! n = Some m -> mx_owner m = Some o -> o ≠ t -> time ≠ 0 ->
    threads s !! o = Some oth ->
    threads s1 = <[t := set_th_error RT_EOK th]>
      (if th_current_priority th <? th_current_priority oth
       then <[o := set_priority (th_current_priority th) oth]> (threads s) else threads s) ->
    mutex_frame_ok s s1 ->
    blocked_on (mutex_q n) (ipc_obj_flag (OMutex n) s) time t (set_th_error RT_EOK th) s1 s' ->
    mutexes s' = mutexes s ->
    (exists oth', threads s' !! o = Some oth' /\
       th_current_priority oth' = Z.min (th_current_priority th) (th_current_priority oth)) ->
    mutex_take_result n time t th s (Block (mkMutexFrame n t time)) s'.

(** The inheritance step: the owner's priority becomes the more urgent of the two. *)
Lemma wp_mutex_inherit lo X m o oth prio s Q :
  kinv_at lo X s -> mx_owner m = Some o -> threads s !! o = Some oth -> th_stat oth ≠ RT_THREAD_CLOSE ->
  prio_ok prio ->
  (forall s', kinv_at lo X s' -> kframe s s' -> rt_current_thread s' = rt_current_thread s ->
     (forall q, (forall p, q ≠ QReady p) -> qget s' q = qget s q) ->
     rt_timer_list s' = rt_timer_list s ->
     threads s' = (if prio <? th_current_priority oth then <[o := set_priority prio oth]> (threads s) else threads s) ->
     Q tt s') ->
  wp (mutex_inherit m prio) Q s.
Proof.
  intros Hk Ho Hoth Hcl Hp HQ. unfold mutex_inherit. wp_norm. rewrite wp_getso. exists o. split; [done|].
  wp_norm. exists oth. split; [done|]. rewrite wp_when.
  destruct (Z.ltb_spec prio (th_current_priority oth)); [left|right]; (split; [done|]).
  - rewrite wp_bind. eapply wp_change_priority; [done..|]. intros s' Hk' [H1 H2 H3 H4 H5]. rewrite wp_ret. by apply HQ.
  - by apply HQ.
Qed.

Lemma wp_mutex_wait n time t th m o oth s0 s Q :
  kinv s -> rt_current_thread s = Some t -> threads s !! t = Some (set_th_error RT_EOK th) ->
  th_stat th = RT_THREAD_RUNNING -> time < TIMER_MAX -> time ≠ 0 ->
  object_typed (OMutex n) RT_Object_Class_Mutex s -> mutexes s !! n = Some m -> mx_value m = 0 ->
  mx_owner m = Some o -> o ≠ t -> threads s !! o = Some oth -> th_stat oth ≠ RT_THREAD_CLOSE ->
  s = set_threads (<[t := set_th_error RT_EOK th]> (threads s0)) s0 -> threads s0 !! o = Some oth ->
  (forall s', kinv s' -> mutex_take_result n time t th s0 (Block (mkMutexFrame n t time)) s' ->
     kframe s s' -> (forall u, u ∈ qget s' (mutex_q n) <-> u = t \/ u ∈ qget s (mutex_q n)) ->
     (exists oth', threads s' !! o = Some oth' /\ th_stat oth' ≠ RT_THREAD_CLOSE) ->
     Q (Block (mkMutexFrame n t time)) s') ->
  wp (mutex_take_again (mkMutexFrame n t time)) Q s.
Proof.
  intros Hk Hc Ht Hst Hti Ht0 (x & Hx & Hty & Hf) Hm Hv Ho Hne Hoth Hcl Es Hoth0 HQ.
  set (th' := set_th_error RT_EOK th) in *.
  pose proof (kinv_thread_ok Hk Ht) as Hth.
  unfold mutex_take_again, get_mutex. cbn [mf_mutex mf_thread mf_time].
  rewrite wp_bind, wp_getso. exists m. split; [done|]. rewrite wp_bind, wp_get_thread. exists th'. split; [done|].
  rewrite Hv. simpl. rewrite (proj2 (Z.eqb_neq time 0)) by done.
  rewrite wp_bind. eapply wp_mutex_inherit; [done..|apply Hth|]. intros s1 Hk1 Hfr1 Hc1 Hq1 _ Eth1.
  assert (threads s1 !! t = Some th') as Ht1.
  { rewrite Eth1. case_match; [by rewrite lookup_insert_ne|done]. }
  rewrite wp_bind, wp_get_object. exists x. split; [by rewrite (kf_objects _ _ Hfr1)|].
  rewrite wp_bind. eapply wp_mono.
  { eapply (wp_block 0 (mutex_q n) t th' (obj_flag x) time s1
      (fun _ s' => Q (Block (mkMutexFrame n t time)) s'));
      [exact Hk1|lia|congruence|done|done|auto with ipc|done|done|].
    intros s' Hk' Hb. pose proof (gw_frame _ _ _ _ (bo_gone _ _ _ _ _ _ _ Hb)) as Hfr.
    assert (threads s1 !! o = Some (if th_current_priority th <? th_current_priority oth
      then set_priority (th_current_priority th) oth else oth)) as Ho1.
    { rewrite Eth1. change (th_current_priority th') with (th_current_priority th).
      case_match; [by rewrite lookup_insert_eq|done]. }
    pose proof (gw_others _ _ _ _ (bo_gone _ _ _ _ _ _ _ Hb) o Hne) as Hsh. rewrite Ho1 in Hsh.
    apply shuffled_prio in Hsh as (oth' & Eo' & Ep & Hcl').
    apply HQ; [done| |by etrans| |].
    - eapply (mutex_wait n time t th s0 m o oth s1 s'); try done.
      + by rewrite Es in Hm.
      + rewrite Eth1, Es. simpl. change (th_current_priority th') with (th_current_priority th).
        case_match; [|done]. by rewrite insert_insert_ne.
      + rewrite Es in Hfr1, Hc1, Hq1. split; [|exact Hq1|exact Hc1]. destruct Hfr1. by split.
      + unfold ipc_obj_flag. rewrite Es in Hx. simpl in Hx. by rewrite Hx.
      + rewrite (kf_mutexes _ _ Hfr), (kf_mutexes _ _ Hfr1). by rewrite Es.
      + exists oth'. split; [done|]. rewrite Ep. destruct (Z.ltb_spec (th_current_priority th) (th_current_priority oth)); simpl; lia.
    - intros u. rewrite (joined_perm _ _ _ _ _ _ (bo_joined _ _ _ _ _ _ _ Hb)), elem_of_cons.
      by rewrite (Hq1 (mutex_q n)).
    - exists oth'. split; [done|]. apply Hcl'. by case_match. }
  intros r s2 [_ Hw2]. rewrite wp_bind. eapply wp_mono; [exact Hw2|]. intros [] s3 Hw3.
  rewrite wp_bind. eapply wp_mono; [exact Hw3|]. intros [] s4 H4. by rewrite wp_ret.
Qed.

(** A mutex of another owner and no time to wait. *)
Lemma wp_mutex_no_wait n t th m o s :
  kinv s -> mutex_ok n s -> threads s !! t = Some th -> mutexes s !! n = Some m -> mx_owner m = Some o -> o ≠ t ->
  let s1 := set_threads (<[t := set_th_error RT_EOK th]> (threads s)) s in
  wp (mutex_take_again (mkMutexFrame n t 0))
    (fun r s' => kinv s' /\ mutex_ok n s' /\ mutex_take_result n 0 t th s r s') s1.
Proof.
  intros Hk [Hob (m' & Hm' & Hmok)] Ht Hm Ho Hne s1. assert (m' = m) as -> by congruence. unfold mutex_state_ok in Hmok. rewrite Ho in Hmok.
  destruct Hmok as (Hv & Hh & Hp & Hnq & oth & Hoth & Hcl).
  assert (threads s1 !! t = Some (set_th_error RT_EOK th)) as Ht1 by (simpl; apply lookup_insert_eq).
  unfold mutex_take_again, get_mutex. cbn [mf_mutex mf_thread mf_time]. wp_norm. rewrite wp_getso.
  exists m. split; [done|]. wp_norm. eexists. split; [exact Ht1|]. rewrite Hv. simpl. wp_norm.
  eexists. split; [exact Ht1|]. wp_norm.
  replace (set_threads _ s1) with (set_threads (<[t := set_th_error (- RT_ETIMEOUT) th]> (threads s)) s)
    by (unfold s1; simpl; by rewrite insert_insert_eq).
  pose proof (kinv_update_same 0 None s t th (set_th_error (- RT_ETIMEOUT) th) Hk Ht ltac:(done)) as Hk2.
  split_and!; [exact Hk2| |by eapply mutex_timeout].
  split; [done|]. exists m. split; [done|]. unfold mutex_state_ok. rewrite Ho.
  split_and!; try done; [lia|lia|]. exists oth. simpl. by rewrite lookup_insert_ne.
Qed.

(** A free mutex. *)
Lemma wp_mutex_take_free n time t th m s :
  kinv s -> mutex_ok n s -> threads s !! t = Some th -> th_stat th = RT_THREAD_RUNNING ->
  mutexes s !! n = Some m -> mx_owner m = None ->
  let s1 := set_threads (<[t := set_th_error RT_EOK th]> (threads s)) s in
  wp (mutex_take_again (mkMutexFrame n t time))
    (fun r s' => kinv s' /\ mutex_ok n s' /\ mutex_take_result n time t th s r s') s1.
Proof.
  intros Hk [Hob (m' & Hm' & Hmok)] Ht Hst Hm Ho s1. assert (m' = m) as -> by congruence. unfold mutex_state_ok in Hmok. rewrite Ho in Hmok.
  destruct Hmok as (Hv & Hh & Hq). pose proof (kinv_thread_ok Hk Ht) as Hth.
  unfold mutex_take_again, get_mutex, put_mutex. cbn [mf_mutex mf_thread mf_time]. wp_norm. rewrite wp_getso.
  exists m. split; [done|]. wp_norm. eexists. split; [simpl; apply lookup_insert_eq|].
  rewrite Hv. simpl. wp_norm. rewrite (uwrap_small 16) by lia.
  assert (mutex_set_owner t (th_current_priority th) (set_mx_value (1 - 1) m) =
    mkMutex 0 (th_current_priority th) 1 (Some t)) as ->.
  { unfold mutex_set_owner, set_mx_hold, set_mx_original_priority, set_mx_owner, set_mx_value. simpl. by rewrite Hh. }
  split_and!; [by apply kinv_set_mutexes, (kinv_update_same 0 None s t th)| |by eapply mutex_free].
  split; [done|]. eexists. split; [simpl; apply lookup_insert_eq|].
  unfold mutex_state_ok. simpl. split_and!; try lia; try apply Hth; [rewrite Hq; by intros ?%elem_of_nil|].
  eexists. split; [apply lookup_insert_eq|]. simpl. lia.
Qed.

Lemma wp_mutex_take n time t th s :
  kinv s -> mutex_ok n s -> rt_current_thread s = Some t -> threads s !! t = Some th ->
  th_stat th = RT_THREAD_RUNNING -> rt_interrupt_nest s = 0 -> time < TIMER_MAX ->
  (forall m, mutexes s !! n = Some m -> mx_owner m = Some t -> mx_hold m < 255) ->
  wp (rt_mutex_take n time) (fun r s' => kinv s' /\ mutex_ok n s' /\ mutex_take_result n time t th s r s') s.
Proof.
  intros Hk Hok Hc Ht Hst Hn Hti Hhold. pose proof Hok as [(x & Hx & Hty & Hf) (m & Hm & Hmok)].
  unfold rt_mutex_take. wp_norm.
  split_and!; [by rewrite Hc|done|]. exists x. split_and!; [done..|]. wp_norm. exists t. split; [done|].
  wp_norm. exists th. split; [done|]. wp_norm. unfold get_mutex. rewrite wp_getso. exists m. split; [done|].
  set (th' := set_th_error RT_EOK th). set (s1 := set_threads (<[t := th']> (threads s)) s).
  pose proof (kinv_update_same 0 None s t th th' Hk Ht ltac:(done)) as Hk1. fold s1 in Hk1.
  assert (threads s1 !! t = Some th') as Ht1 by (simpl; apply lookup_insert_eq).
  case_bool_decide as Ho.
  { unfold mutex_state_ok in Hmok. specialize (Hhold m Hm Ho). rewrite Ho in Hmok.
    destruct Hmok as (Hv & Hh & Hp & Hnq & oth & Hoth & Hcl).
    unfold put_mutex. wp_norm. rewrite (uwrap_small 8) by lia.
    split_and!; [by apply kinv_set_mutexes| |by eapply mutex_nested].
    split; [by exists x|]. eexists. split; [simpl; apply lookup_insert_eq|].
    unfold mutex_state_ok. simpl. rewrite Ho. split_and!; [done|lia|lia|exact Hp|done|].
    exists th'. split; [apply lookup_insert_eq|]. simpl. lia. }
  destruct (mx_owner m) as [o|] eqn:Eo; [|by eapply wp_mutex_take_free].
  assert (o ≠ t) as Hne by congruence. destruct (Z.eq_dec time 0) as [->|Ht0]; [by eapply wp_mutex_no_wait|].
  unfold mutex_state_ok in Hmok. rewrite Eo in Hmok. destruct Hmok as (Hv & Hh & Hp & Hnq & oth & Hoth & Hcl).
  assert (threads s1 !! o = Some oth) as Ho1 by (simpl; by rewrite lookup_insert_ne).
  eapply (wp_mutex_wait n time t th m o oth s s1); try done; [by exists x|].
  intros s' Hk' Hres Hfr Hq' Hoth'. split_and!; [done| |done].
  split; [eapply (object_typed_frame _ _ s1); [done|done|by exists x]|].
  exists m. rewrite (kf_mutexes _ _ Hfr). split; [done|]. unfold mutex_state_ok. rewrite Eo.
  split_and!; try done; [lia|lia|]. rewrite Hq'. by intros [|].
Qed.

(** C21: [rt_mutex_take] by a running thread: the owner takes it again without waiting, a free mutex is
    taken at once and records the taker's priority, a zero time gives [-RT_ETIMEOUT], and otherwise the
    caller waits in the order of the mutex's flag after the owner has inherited its priority: the owner's
    priority is the more urgent of the two, wherever the owner is. The invariants are kept, up to the 8-bit limit on nesting. *)
Theorem rt_mutex_take_spec n time t th s :
  kinv s -> mutex_ok n s -> rt_current_thread s = Some t -> threads s !! t = Some th ->
  th_stat th = RT_THREAD_RUNNING -> rt_interrupt_nest s = 0 -> time < TIMER_MAX ->
  (forall m, mutexes s !! n = Some m -> mx_owner m = Some t -> mx_hold m < 255) ->
  wp (rt_mutex_take n time) (fun r s' => kinv s' /\ mutex_ok n s' /\ mutex_take_result n time t th s r s') s.
Proof. apply wp_mutex_take. Qed.

(** The thread after its original priority has been restored. *)
Definition restored (m : rt_mutex) (th : thread) : thread :=
  if mx_original_priority m =? th_current_priority th then th else set_priority (mx_original_priority m) th.

(** What [rt_mutex_release] does. In the last case [s1] is the state in which the first waiter owns the mutex
    already and is about to be woken. *)
Inductive mutex_release_result (n t : nat) (th : thread) (s : kernel) : Z -> kernel -> Prop :=
| release_refused m :
    mutexes s !! n = Some m -> mx_owner m ≠ Some t ->
    mutex_release_result n t th s (- RT_ERROR) (set_threads (<[t := set_th_error (- RT_ERROR) th]> (threads s)) s)
| release_nested m :
    mutexes s !! n = Some m -> mx_owner m = Some t -> 1 < mx_hold m ->
    mutex_release_result n t th s RT_EOK (set_mutexes (<[n := set_mx_hold (mx_hold m - 1) m]> (mutexes s)) s)
| release_free m s' :
    mutexes s !! n = Some m -> mx_owner m = Some t -> mx_hold m = 1 -> qget s (mutex_q n) = [] ->
    mutexes s' = <[n := mkMutex 1 255 0 None]> (mutexes s) ->
    threads s' = <[t := restored m th]> (threads s) -> mutex_frame_ok s s' ->
    mutex_release_result n t th s RT_EOK s'
| release_handover m w l wth s1 s' :
    mutexes s !! n = Some m -> mx_owner m = Some t -> mx_hold m = 1 -> qget s (mutex_q n) = w :: l ->
    threads s !! w = Some wth -> w ≠ t ->
    mutexes s1 = <[n := mkMutex 0 (th_current_priority wth) 1 (Some w)]> (mutexes s) ->
    threads s1 = <[t := restored m th]> (threads s) -> mutex_frame_ok s s1 ->
    woken w wth s1 s' -> qget s' (mutex_q n) = l ->
    (rt_scheduler_lock_nest s = 0 -> highest_running s') ->
    mutex_release_result n t th s RT_EOK s'.

Lemma wp_mutex_restore lo X t th m s Q :
  kinv_at lo X s -> threads s !! t = Some th -> th_stat th ≠ RT_THREAD_CLOSE -> prio_ok (mx_original_priority m) ->
  (forall s', kinv_at lo X s' -> kframe s s' -> rt_current_thread s' = rt_current_thread s ->
     (forall q, (forall p, q ≠ QReady p) -> qget s' q = qget s q) ->
     threads s' = <[t := restored m th]> (threads s) -> Q tt s') ->
  wp (when (negb (mx_original_priority m =? th_current_priority th))
           (rt_thread_control t RT_THREAD_CTRL_CHANGE_PRIORITY (mx_original_priority m);; mret tt)) Q s.
Proof.
  intros Hk Ht Hcl Hp HQ. rewrite wp_when. unfold restored in HQ.
  destruct (mx_original_priority m =? th_current_priority th); [right|left]; (split; [done|]).
  - apply HQ; try done. by rewrite insert_id.
  - rewrite wp_bind. eapply wp_change_priority; [done..|]. intros s' Hk' [H1 H2 H3 H4 H5]. rewrite wp_ret. by apply HQ.
Qed.

Lemma restored_prio m th : th_current_priority (restored m th) = mx_original_priority m.
Proof. unfold restored. destruct (Z.eqb_spec (mx_original_priority m) (th_current_priority th)); [done|done]. Qed.

Lemma restored_stat m th : th_stat (restored m th) = th_stat th.
Proof. unfold restored. by case_match. Qed.

(** The owner of the mutex record [m] has released it for the last time and has its priority back in [s2]. *)
Section last_release.
Context (n t : nat) (th : thread) (m : rt_mutex) (s s2 : kernel).
Let m' := set_mx_hold (mx_hold m - 1) m.
Hypotheses (Hk : kinv s) (Hob : object_typed (OMutex n) RT_Object_Class_Mutex s)
  (Hm : mutexes s !! n = Some m) (Ho : mx_owner m = Some t) (Hh : mx_hold m = 1) (Hv : mx_value m = 0)
  (Hc : rt_current_thread s = Some t) (Ht : threads s !! t = Some th) (Hst : th_stat th = RT_THREAD_RUNNING).
Hypotheses (Hk2 : kinv s2) (Hfr2 : kframe (set_mutexes (<[n := m']> (mutexes s)) s) s2)
  (Hc2 : rt_current_thread s2 = rt_current_thread s)
  (Hq2 : forall q, (forall p, q ≠ QReady p) -> qget s2 q = qget s q)
  (Eth2 : threads s2 = <[t := restored m th]> (threads s)).

Lemma released_mutexes x : <[n := x]> (mutexes s2) = <[n := x]> (mutexes s).
Proof. rewrite (kf_mutexes _ _ Hfr2). simpl. by rewrite insert_insert_eq. Qed.

Lemma released_frame x : mutex_frame_ok s (set_mutexes (<[n := x]> (mutexes s2)) s2).
Proof. split; [|exact Hq2|exact Hc2]. destruct Hfr2. by split. Qed.

Lemma mutex_freed :
  qget s (mutex_q n) = [] ->
  let s' := set_mutexes (<[n := set_mx_original_priority 255 (set_mx_owner None
              (set_mx_value (u16 (mx_value m' + 1)) m'))]> (mutexes s2)) s2 in
  kinv s' /\ mutex_ok n s' /\ mutex_release_result n t th s RT_EOK s'.
Proof.
  intros Eq. cbv zeta.
  assert (set_mx_original_priority 255 (set_mx_owner None (set_mx_value (u16 (mx_value m' + 1)) m')) =
    mkMutex 1 255 0 None) as ->.
  { unfold set_mx_original_priority, set_mx_owner, set_mx_value, m'. simpl. by rewrite Hv, Hh. }
  split_and!; [by apply kinv_set_mutexes| |].
  - split.
    + eapply (object_typed_eq _ _ s); [|done]. exact (kf_objects _ _ Hfr2 (OMutex n) ltac:(done)).
    + eexists. split; [simpl; apply lookup_insert_eq|]. unfold mutex_state_ok. simpl.
      split_and!; [done..|]. by rewrite (Hq2 (mutex_q n)).
  - apply (release_free _ _ _ _ m); [done|done|lia|done| |done|apply released_frame]. apply released_mutexes.
Qed.

Lemma wp_mutex_handover w l (Q : bool -> kernel -> Prop) :
  qget s (mutex_q n) = w :: l ->
  (forall s4, rt_current_thread s4 = Some t -> kinv s4 -> runnable s4 ->
     (rt_scheduler_lock_nest s4 = rt_scheduler_lock_nest s) ->
     (forall s', kinv s' -> resched s4 s' -> (rt_scheduler_lock_nest s4 = 0 -> highest_running s') ->
        kinv s' /\ mutex_ok n s' /\ mutex_release_result n t th s RT_EOK s') -> Q true s4) ->
  wp (w ← tlist_first (mutex_q n);
      wth ← get_thread w;
      put_mutex n (mutex_set_owner w (th_current_priority wth) m');;
      rt_ipc_list_resume (mutex_q n);;
      mret true) Q s2.
Proof.
  intros Eq HQ. wp_norm. exists w, l. split; [rewrite (Hq2 (mutex_q n)) by done; exact Eq|].
  destruct (waiting_thread 0 None s (mutex_q n) w Hk ltac:(auto with ipc)) as (wth & Hw & Hws); [rewrite Eq; by left|].
  assert (w ≠ t) as Hwt by (intros ->; simplify_eq; lia).
  assert (threads s2 !! w = Some wth) as Hw2 by (rewrite Eth2; by rewrite lookup_insert_ne).
  wp_norm. exists wth. split; [done|]. unfold put_mutex. wp_norm.
  assert (mutex_set_owner w (th_current_priority wth) m' = mkMutex 0 (th_current_priority wth) 1 (Some w)) as ->.
  { unfold mutex_set_owner, set_mx_hold, set_mx_original_priority, set_mx_owner, m'. simpl. by rewrite Hv, Hh. }
  set (m2 := mkMutex 0 _ 1 _). set (s3 := set_mutexes (<[n := m2]> (mutexes s2)) s2).
  eapply (wp_ipc_list_resume 0 None (mutex_q n) w l s3); [by apply kinv_set_mutexes|auto with ipc|
    change (qget s2 (mutex_q n) = w :: l); rewrite (Hq2 (mutex_q n)) by done; exact Eq|done|].
  intros wth' s4 Hw' _ Hk4 Hwk Hq4 Hc4 _. change (threads s3) with (threads s2) in Hw'.
  assert (wth' = wth) as -> by congruence. wp_norm.
  assert (rt_scheduler_lock_nest s4 = rt_scheduler_lock_nest s) as Hl4.
  { rewrite (kf_lock _ _ (wk_frame _ _ _ _ Hwk)). simpl. by rewrite (kf_lock _ _ Hfr2). }
  apply HQ; [rewrite Hc4; simpl; by rewrite Hc2|done|by eapply woken_runnable|done|].
  intros s5 Hk5 Hr Hh5. pose proof (woken_resched _ _ _ _ _ Hwk Hr) as Hwk5. pose proof (wk_frame _ _ _ _ Hwk5) as Hfr5.
  assert (mutexes s5 !! n = Some m2) as Hm5 by (rewrite (kf_mutexes _ _ Hfr5); apply lookup_insert_eq).
  assert (qget s5 (mutex_q n) = l) as Hq5 by (by rewrite (rs_waits _ _ Hr)).
  pose proof (qo_nodup _ _ _ _ (si_queue _ (ki_sched _ _ _ Hk)) (mutex_q n)) as Hnd. rewrite Eq in Hnd.
  apply NoDup_cons in Hnd as [Hwl _]. destruct (wk_self _ _ _ _ Hwk5) as (st & Est & Hsts).
  split_and!; [done| |].
  - split.
    + eapply (object_typed_frame _ _ s3); [done|exact Hfr5|].
      eapply (object_typed_eq _ _ s); [|done]. exact (kf_objects _ _ Hfr2 (OMutex n) ltac:(done)).
    + exists m2. split; [done|]. unfold mutex_state_ok. simpl. rewrite Hq5. split_and!; try done.
      * apply (to_prio _ (kinv_thread_ok Hk2 Hw2)).
      * eexists. split; [exact Est|]. simpl. lia.
  - apply (release_handover _ _ _ _ m w l wth s3); [done..| | | | | |].
    + apply released_mutexes.
    + exact Eth2.
    + apply released_frame.
    + done.
    + done.
    + intros Hl. apply Hh5. congruence.
Qed.
End last_release.

Lemma wp_mutex_release n t th s :
  kinv s -> mutex_ok n s -> rt_current_thread s = Some t -> threads s !! t = Some th ->
  th_stat th = RT_THREAD_RUNNING -> rt_interrupt_nest s = 0 ->
  wp (rt_mutex_release n) (fun r s' => kinv s' /\ mutex_ok n s' /\ mutex_release_result n t th s r s') s.
Proof.
  intros Hk [Hob (m & Hm & Hmok)] Hc Ht Hst Hn. pose proof Hob as (x & Hx & Hty & Hf). unfold rt_mutex_release. wp_norm.
  exists x. split_and!; [done..|]. wp_norm. split_and!; [by rewrite Hc|done|]. exists t. split; [done|].
  unfold get_mutex, put_mutex. wp_norm. rewrite wp_getso. exists m. split; [done|].
  unfold mutex_state_ok in Hmok. case_bool_decide as Ho; cbn [negb].
  2: { wp_norm. exists th. split; [done|]. wp_norm.
       split_and!; [by eapply kinv_update_same| |by eapply release_refused].
       split; [by exists x|]. exists m. split; [done|]. unfold mutex_state_ok.
       destruct (mx_owner m) as [o|]; [|done]. destruct Hmok as (? & ? & ? & ? & oth & ? & ?).
       split_and!; try done; [lia|lia|]. exists oth. simpl. rewrite lookup_insert_ne by congruence. done. }
  rewrite Ho in Hmok. destruct Hmok as (Hv & Hh & Hp & Hnq & _). wp_norm. cbn [mx_hold set_mx_hold].
  rewrite (uwrap_small 8) by lia.
  set (m' := set_mx_hold (mx_hold m - 1) m). set (s1 := set_mutexes (<[n := m']> (mutexes s)) s).
  assert (kinv s1) as Hk1 by (by apply kinv_set_mutexes).
  destruct (Z.eqb_spec (mx_hold m - 1) 0) as [Hz|Hz].
  2: { wp_norm. rewrite wp_when. right. split; [done|]. wp_norm.
       split_and!; [done| |apply (release_nested _ _ _ _ m); [done|done|lia]].
       split; [by exists x|]. exists m'. split; [simpl; apply lookup_insert_eq|]. unfold mutex_state_ok. simpl.
       rewrite Ho. split_and!; [done|lia|lia|exact Hp|done|]. exists th. split; [done|lia]. }
  assert (mx_hold m = 1) as Hh1 by lia. wp_norm. exists th. split; [done|].
  rewrite wp_bind. eapply (wp_mutex_restore 0 None t th m'); [exact Hk1|done|lia|exact Hp|].
  intros s2 Hk2 Hfr2 Hc2 Hq2 Eth2. wp_norm. rewrite (Hq2 (mutex_q n)) by done.
  change (qget s1 (mutex_q n)) with (qget s (mutex_q n)).
  destruct (qget s (mutex_q n)) as [|w l] eqn:Eq.
  - rewrite bool_decide_eq_true_2 by done. cbn [negb]. wp_norm. rewrite wp_when. right. split; [done|]. wp_norm.
    by apply mutex_freed.
  - rewrite bool_decide_eq_false_2 by done. cbn [negb].
    eapply (wp_mutex_handover n t th m s s2); [done..|]. intros s4 Hc4 Hk4 Hr4 _ Hafter.
    rewrite wp_bind, wp_when. left. split; [done|]. eapply (wp_schedule 0 None t); [done..|].
    intros s5 Hk5 Hr _ Hh5. wp_norm. apply Hafter; auto.
Qed.

(** C22: [rt_mutex_release] by a running thread: only the owner may release; a nested release only counts
    down; the last one gives the owner back the priority it had when it took the mutex and either frees the
    mutex or hands it to the first waiter, which then owns it (the mutex is never free in between), its
    priority is recorded, and it runs if it is the most urgent thread. The invariants are kept. *)
Theorem rt_mutex_release_spec n t th s :
  kinv s -> mutex_ok n s -> rt_current_thread s = Some t -> threads s !! t = Some th ->
  th_stat th = RT_THREAD_RUNNING -> rt_interrupt_nest s = 0 ->
  wp (rt_mutex_release n) (fun r s' => kinv s' /\ mutex_ok n s' /\ mutex_release_result n t th s r s') s.
Proof. apply wp_mutex_release. Qed.

(** ** Examples *)

(** The mutex 0 is owned by the less urgent thread 1, the mutex 1 by the running thread 0, which has
    inherited its priority 10, and waited for by the thread 4. *)
Definition demo_mutexes : kernel :=
  set_mutexes (list_to_map [(0%nat, mkMutex 0 15 1 (Some 1%nat)); (1%nat, mkMutex 0 22 1 (Some 0%nat))]) demo_kernel.

Lemma demo_mutexes_inv : kinv demo_mutexes.
Proof. apply kinv_set_mutexes, demo_kernel_inv. Qed.

Lemma demo_mutex_ok n : (n < 2)%nat -> mutex_ok n demo_mutexes.
Proof.
  intros Hn. destruct n as [|[|n]]; [| |lia]; split; eexists; (split; [reflexivity|]).
  1, 3: split; [reflexivity|by right].
  all: unfold mutex_state_ok, prio_ok; simpl; split_and!; try lia.
  1, 3: by vm_compute; intros ?%list_elem_of_In; naive_solver.
  all: eexists; (split; [reflexivity|]); simpl; lia.
Qed.

Lemma rt_mutex_take_spec_witness :
  wp (rt_mutex_take 0 100) (fun r s' => kinv s' /\ mutex_ok 0 s' /\
    mutex_take_result 0 100 0 (demo_thread 0 RT_THREAD_RUNNING 10) demo_mutexes r s') demo_mutexes.
Proof.
  apply rt_mutex_take_spec; [apply demo_mutexes_inv|apply demo_mutex_ok; lia|reflexivity..|].
  intros m [= <-]. discriminate.
Defined.

Lemma rt_mutex_release_spec_witness :
  wp (rt_mutex_release 1) (fun r s' => kinv s' /\ mutex_ok 1 s' /\
    mutex_release_result 1 0 (demo_thread 0 RT_THREAD_RUNNING 10) demo_mutexes r s') demo_mutexes.
Proof. apply rt_mutex_release_spec; [apply demo_mutexes_inv|apply demo_mutex_ok; lia|reflexivity..]. Defined.
