(* ===== verification/Event.v ===== *)
(** Event sets (src/ipc.c). *)

From S2P Require Import Prelude RtDef Object Scheduler Timer Thread Kernel Ipc.

Definition get_event (n : nat) : M rt_event := getso (fun s => events s !! n).
Definition put_event (n : nat) (x : rt_event) : M unit :=
  modify (fun s => set_events (<[n := x]> (events s)) s).
Abbreviation event_q n := (QSuspend (OEvent n)).

Definition rt_event_init (n : nat) (name : string) (flag : Z) : M Z :=
  rt_object_init (OEvent n) RT_Object_Class_Event name;;
  upd_object (OEvent n) (set_obj_flag flag);;
  rt_ipc_object_init (event_q n);;
  put_event n (mkEvent 0);;
  mret RT_EOK.

Definition rt_event_detach (n : nat) : M Z :=
  assert_type (OEvent n) RT_Object_Class_Event;;
  b ← rt_object_is_systemobject (OEvent n);
  RT_ASSERT b;;
  rt_ipc_list_resume_all (event_q n);;
  rt_object_detach (OEvent n);;
  mret RT_EOK.

(** The test of a wish [set] with the options [option] on the set of the event. *)
Definition has_flag (opt flag : Z) : bool := negb (opt .& flag =? 0).
Definition event_satisfied (evset set opt : Z) : bool :=
  if has_flag opt RT_EVENT_FLAG_AND then set .& evset =? set
  else if has_flag opt RT_EVENT_FLAG_OR then negb (set .& evset =? 0)
  else false.

(** The loop of [rt_event_send] over the waiting threads [l]; the result tells whether a thread has
    been resumed. *)
Fixpoint event_send_loop (n : nat) (l : list nat) (need_schedule : bool) : M bool :=
  match l with
  | [] => mret need_schedule
  | t :: l =>
      th ← get_thread t;
      ev ← get_event n;
      let ok := event_satisfied (ev_set ev) (th_event_set th) (th_event_info th) in
      when (ok && negb (has_flag (th_event_info th) RT_EVENT_FLAG_AND))
        (* save recieved event set *)
        (put_thread t (set_th_event_set (th_event_set th .& ev_set ev) th));;
      if ok : bool then
        th ← get_thread t;
        when (has_flag (th_event_info th) RT_EVENT_FLAG_CLEAR)
          (put_event n (set_ev_set (ev_set ev .&~ th_event_set th) ev));;
        rt_thread_resume t;;
        event_send_loop n l true
      else event_send_loop n l need_schedule
  end.

Definition rt_event_send (n : nat) (set : Z) : M Z :=
  assert_type (OEvent n) RT_Object_Class_Event;;
  if set =? 0 then mret (- RT_ERROR)
  else
    ev ← get_event n;
    put_event n (set_ev_set (ev_set ev .| set) ev);;
    l ← gets (fun s => qget s (event_q n));
    need_schedule ← event_send_loop n l false;
    when need_schedule rt_schedule;;
    mret RT_EOK.

(** [rt_event_recv] up to its [rt_schedule()]; the result has the value stored in [*recved], if
    one is. *)
Definition rt_event_recv (n : nat) (set opt timeout : Z) : M (outcome (Z * option Z) nat) :=
  RT_DEBUG_IN_THREAD_CONTEXT;;
  assert_type (OEvent n) RT_Object_Class_Event;;
  if set =? 0 then mret (Ret (- RT_ERROR, None))
  else
    t ← self;
    upd_thread t (set_th_error RT_EOK);;
    ev ← get_event n;
    RT_ASSERT (has_flag opt RT_EVENT_FLAG_AND || has_flag opt RT_EVENT_FLAG_OR);;
    if event_satisfied (ev_set ev) set opt then
      let recved := ev_set ev .& set in
      when (has_flag opt RT_EVENT_FLAG_CLEAR) (put_event n (set_ev_set (ev_set ev .&~ set) ev));;
      th ← get_thread t;
      mret (Ret (th_error th, Some recved))
    else if timeout =? 0 then
      upd_thread t (set_th_error (- RT_ETIMEOUT));;
      th ← get_thread t;
      mret (Ret (th_error th, None))
    else
      upd_thread t (fun th => set_th_event_info opt (set_th_event_set set th));;
      x ← get_object (OEvent n);
      rt_ipc_list_suspend (event_q n) t (obj_flag x);;
      when (timeout >? 0) (start_thread_timer t timeout);;
      rt_schedule;;
      mret (Block t).

(** The rest of [rt_event_recv] for the thread [t]. *)
Definition rt_event_recv_resume (t : nat) : M (Z * option Z) :=
  th ← get_thread t;
  if negb (th_error th =? RT_EOK) then mret (th_error th, None)
  else mret (th_error th, Some (th_event_set th)).

Definition rt_event_control (n : nat) (cmd arg : Z) : M Z :=
  assert_type (OEvent n) RT_Object_Class_Event;;
  if cmd =? RT_IPC_CMD_RESET then
    rt_ipc_list_resume_all (event_q n);;
    ev ← get_event n;
    put_event n (set_ev_set 0 ev);;
    rt_schedule;;
    mret RT_EOK
  else mret (- RT_ERROR).

(** ** The invariant of an event set *)

(** No waiter's wish is satisfied by the events that are set. *)
Definition unsatisfied (ths : gmap nat thread) (evset : Z) (l : list nat) : Prop :=
  forall t th, t ∈ l -> ths !! t = Some th -> event_satisfied evset (th_event_set th) (th_event_info th) = false.

Record event_ok (n : nat) (s : kernel) : Prop := {
  eo_object : object_typed (OEvent n) RT_Object_Class_Event s;
  eo_event : exists ev, events s !! n = Some ev /\
    unsatisfied (threads s) (ev_set ev) (qget s (event_q n));
}.

Lemma kinv_set_events lo X v s : kinv_at lo X s -> kinv_at lo X (set_events v s).
Proof. by apply kinv_same. Qed.

(** Fewer events satisfy fewer wishes. *)
Lemma event_satisfied_clear evset x set opt :
  event_satisfied evset set opt = false -> event_satisfied (evset .&~ x) set opt = false.
Proof.
  unfold event_satisfied. destruct (has_flag opt RT_EVENT_FLAG_AND).
  - rewrite !Z.eqb_neq. intros H E. apply H. apply Z.bits_inj'. intros i Hi.
    apply (f_equal (fun v => Z.testbit v i)) in E. rewrite !Z.land_spec, Z.lnot_spec in E by done.
    rewrite Z.land_spec. destruct (Z.testbit set i), (Z.testbit evset i), (Z.testbit x i); done.
  - destruct (has_flag opt RT_EVENT_FLAG_OR); [|done]. rewrite !negb_false_iff, !Z.eqb_eq.
    intros H. by rewrite Z.land_assoc, H, Z.land_0_l.
Qed.

(** ** Delivery *)

(** What a satisfied waiter receives: its whole wish, or (for OR) the part of it that is set. *)
Definition event_got (evset : Z) (th : thread) : Z :=
  if has_flag (th_event_info th) RT_EVENT_FLAG_AND then th_event_set th else th_event_set th .& evset.

Definition event_left (evset : Z) (th : thread) : Z :=
  if has_flag (th_event_info th) RT_EVENT_FLAG_CLEAR then evset .&~ event_got evset th else evset.

(** The reference of the loop of [rt_event_send]: the waiters are served in their order; the result is
    the threads that go on with what they receive, the waiters left and the events left. *)
Fixpoint event_deliver (evset : Z) (l : list (nat * thread)) : list (nat * Z) * list nat * Z :=
  match l with
  | [] => ([], [], evset)
  | (t, th) :: l =>
      if event_satisfied evset (th_event_set th) (th_event_info th) then
        let '(got, rest, ev) := event_deliver (event_left evset th) l in
        ((t, event_got evset th) :: got, rest, ev)
      else
        let '(got, rest, ev) := event_deliver evset l in (got, t :: rest, ev)
  end.

(** The waiters of a list with their threads. *)
Fixpoint waiters (ths : gmap nat thread) (l : list nat) : list (nat * thread) :=
  match l with
  | [] => []
  | t :: l => match ths !! t with Some th => (t, th) :: waiters ths l | None => waiters ths l end
  end.

(** What a delivery has done to the threads. *)
Definition delivered (got : list (nat * Z)) (s s' : kernel) : Prop :=
  forall t v, (t, v) ∈ got -> exists th st, threads s !! t = Some th /\
    threads s' !! t = Some (set_th_stat st (set_th_event_set v th)) /\
    (st = RT_THREAD_READY \/ st = RT_THREAD_RUNNING).

Lemma waiters_cons ths t th l : ths !! t = Some th -> waiters ths (t :: l) = (t, th) :: waiters ths l.
Proof. intros E. simpl. by rewrite E. Qed.

Lemma waiters_ext ths ths' l : (forall t, t ∈ l -> ths' !! t = ths !! t) -> waiters ths' l = waiters ths l.
Proof.
  induction l as [|t l IH]; intros E; [done|]. simpl.
  rewrite (E t) by (by left). rewrite IH; [done|]. intros. apply E. by right.
Qed.

Lemma event_deliver_elem ths l evset got rest e u v :
  event_deliver evset (waiters ths l) = (got, rest, e) -> (u, v) ∈ got -> u ∈ l.
Proof.
  revert evset got rest e. induction l as [|t l IH]; simpl; intros evset got rest e Hd Hin.
  { simplify_eq. by apply elem_of_nil in Hin. }
  destruct (ths !! t) as [th|]; [|right; by eapply IH]. simpl in Hd. case_match.
  - destruct (event_deliver (event_left evset th) (waiters ths l)) as [[g r] e'] eqn:Ed. simplify_eq.
    apply elem_of_cons in Hin as [[= -> ->]|Hin]; [by left|right; by eapply IH].
  - destruct (event_deliver evset (waiters ths l)) as [[g r] e'] eqn:Ed. simplify_eq. right. by eapply IH.
Qed.

Lemma unsatisfied_clear ths evset x l : unsatisfied ths evset l -> unsatisfied ths (evset .&~ x) l.
Proof. intros H t th Ht Hth. apply event_satisfied_clear. by eapply H. Qed.

Lemma unsatisfied_left ths evset th l : unsatisfied ths evset l -> unsatisfied ths (event_left evset th) l.
Proof. intros H. unfold event_left. case_match; [by apply unsatisfied_clear|done]. Qed.

Section send.
Context (n : nat).

(** One waiter is served. *)
Lemma wp_serve t th ev l s Q :
  kinv s -> qget s (event_q n) = l -> t ∈ l -> threads s !! t = Some th -> events s !! n = Some ev ->
  (forall s1, kinv s1 -> qget s1 (event_q n) = list_del t l ->
     events s1 = <[n := mkEvent (event_left (ev_set ev) th)]> (events s) ->
     rt_current_thread s1 = rt_current_thread s ->
     (forall o, (forall t, o ≠ OThreadTimer t) -> objects s1 !! o = objects s !! o) ->
     rt_scheduler_lock_nest s1 = rt_scheduler_lock_nest s ->
     (forall u, u ≠ t -> shuffled (threads s !! u) (threads s1 !! u)) ->
     delivered [(t, event_got (ev_set ev) th)] s s1 -> Q tt s1) ->
  wp (when (negb (has_flag (th_event_info th) RT_EVENT_FLAG_AND))
        (put_thread t (set_th_event_set (th_event_set th .& ev_set ev) th)))
     (fun _ s' => exists th, threads s' !! t = Some th /\
        wp (when (has_flag (th_event_info th) RT_EVENT_FLAG_CLEAR)
             (put_event n (set_ev_set (ev_set ev .&~ th_event_set th) ev)))
           (fun _ s'' => wp (rt_thread_resume t) (fun _ => Q tt) s'') s') s.
Proof.
  intros Hk Hq Ht Hth Hev HQ.
  destruct (waiting_thread 0 None s (event_q n) t Hk ltac:(auto with ipc)) as (th0 & E0 & Hst); [by rewrite Hq|].
  rewrite Hth in E0. injection E0 as <-.
  set (th' := set_th_event_set (event_got (ev_set ev) th) th).
  set (s0 := set_threads (<[t := th']> (threads s)) s).
  assert (exists th, threads s0 !! t = Some th /\
        wp (when (has_flag (th_event_info th) RT_EVENT_FLAG_CLEAR)
             (put_event n (set_ev_set (ev_set ev .&~ th_event_set th) ev)))
           (fun _ s'' => wp (rt_thread_resume t) (fun _ => Q tt) s'') s0) as W.
  { pose proof (kinv_update_same 0 None s t th th' Hk Hth ltac:(done)) as Hk1.
    exists th'. split; [simpl; apply lookup_insert_eq|].
    change (th_event_info th') with (th_event_info th).
    change (th_event_set th') with (event_got (ev_set ev) th).
    set (s2 := set_events (<[n := mkEvent (event_left (ev_set ev) th)]> (events s)) s0).
    assert (wp (rt_thread_resume t) (fun _ => Q tt) s2) as W2.
    { eapply (wp_thread_resume 0 None t th' s2); [by apply kinv_set_events|simpl; apply lookup_insert_eq|done|done|].
      intros tx Ex Hk3. pose proof (woken_resumed t th' tx s2) as Hwk.
      pose proof (wk_frame _ _ _ _ Hwk) as Hfr. apply HQ.
      - done.
      - rewrite (wk_queues _ _ _ _ Hwk) by done. by rewrite <- Hq.
      - by rewrite (kf_events _ _ Hfr).
      - unfold resumed. by rewrite inserted_current.
      - intros o Ho. by rewrite (kf_objects _ _ Hfr).
      - by rewrite (kf_lock _ _ Hfr).
      - intros u Hu. etrans; [|by apply (wk_others _ _ _ _ Hwk)]. simpl. by rewrite lookup_insert_ne.
      - intros u v Huv. apply list_elem_of_singleton in Huv as [= -> ->].
        destruct (wk_self _ _ _ _ Hwk) as (st & Est & Hs). exists th, st. done. }
    rewrite wp_when. unfold event_left in s2.
    destruct (has_flag (th_event_info th) RT_EVENT_FLAG_CLEAR); [left|right]; (split; [done|]); [exact W2|].
    replace s0 with s2; [exact W2|]. unfold s2.
    assert (<[n := mkEvent (ev_set ev)]> (events s) = events s) as ->; [|done].
    apply insert_id. rewrite Hev. by destruct ev. }
  rewrite wp_when. unfold s0, th', event_got in W.
  destruct (has_flag (th_event_info th) RT_EVENT_FLAG_AND); [right|left]; (split; [done|]); [|exact W].
  replace (set_th_event_set (th_event_set th) th) with th in W by (by destruct th).
  rewrite insert_id in W by done. by destruct s.
Qed.

Lemma wp_event_send_loop l pre need ev got rest e s Q :
  kinv s -> qget s (event_q n) = pre ++ l -> events s !! n = Some ev ->
  unsatisfied (threads s) (ev_set ev) pre ->
  event_deliver (ev_set ev) (waiters (threads s) l) = (got, rest, e) ->
  (forall s', kinv s' -> qget s' (event_q n) = pre ++ rest ->
     events s' = <[n := mkEvent e]> (events s) -> unsatisfied (threads s') e (pre ++ rest) ->
     delivered got s s' -> rt_current_thread s' = rt_current_thread s ->
     (forall o, (forall t, o ≠ OThreadTimer t) -> objects s' !! o = objects s !! o) ->
     rt_scheduler_lock_nest s' = rt_scheduler_lock_nest s ->
     (forall u, u ∉ l -> shuffled (threads s !! u) (threads s' !! u)) ->
     Q (need || negb (bool_decide (got = []))) s') ->
  wp (event_send_loop n l need) Q s.
Proof.
  revert pre need ev got rest e s Q. induction l as [|t l IH]; intros pre need ev got rest e s Q Hk Hq Hev Huns Hd HQ.
  { simpl in Hd. simplify_eq. simpl. rewrite wp_ret. replace need with (need || negb (bool_decide (@nil (nat * Z) = [])))
      by (rewrite bool_decide_eq_true_2 by done; by destruct need).
    rewrite app_nil_r in *. apply HQ; try done; [|by intros ? ? ?%elem_of_nil].
    rewrite insert_id; [done|]. rewrite Hev. by destruct ev. }
  destruct (waiting_thread 0 None s (event_q n) t Hk ltac:(auto with ipc)) as (th & Hth & Hst); [rewrite Hq; set_solver|].
  pose proof (qo_nodup _ _ _ _ (si_queue _ (ki_sched _ _ _ Hk)) (event_q n)) as Hnd. rewrite Hq in Hnd.
  rewrite (waiters_cons _ t th) in Hd by done. simpl in Hd.
  cbn [event_send_loop]. rewrite wp_bind, wp_get_thread. exists th. split; [done|].
  unfold get_event at 1. rewrite wp_bind, wp_getso. exists ev. split; [done|].
  destruct (event_satisfied (ev_set ev) (th_event_set th) (th_event_info th)) eqn:Es; cbn [andb].
  - destruct (event_deliver (event_left (ev_set ev) th) (waiters (threads s) l)) as [[g r] e'] eqn:Ed. simplify_eq.
    rewrite wp_bind. eapply wp_mono.
    { eapply (wp_serve t th ev (pre ++ t :: l) s (fun _ => wp (event_send_loop n l true) Q)); [done|done|set_solver|done|done|].
      intros s1 Hk1 Hq1 He1 Hc1 Ho1 Hl1 Hth1 Hdel. rewrite list_del_mid in Hq1 by done.
      apply NoDup_app in Hnd as (Hnd1 & Hdisj & Hnd2). apply NoDup_cons in Hnd2 as [Htl Hnd2].
      assert (forall u, u ∈ pre ++ l -> threads s1 !! u = threads s !! u) as Hsame.
      { intros u Hu. assert (u ≠ t) as Hne by (intros ->; set_solver).
        destruct (waiting_thread 0 None s (event_q n) u Hk ltac:(auto with ipc)) as (uh & Huh & Hus); [rewrite Hq; set_solver|].
        specialize (Hth1 u Hne). rewrite Huh in Hth1 |- *. by apply shuffled_wait in Hth1. }
      eapply (IH pre true (mkEvent (event_left (ev_set ev) th)) g rest e); [done|done|by rewrite He1, lookup_insert_eq| | |].
      + intros u uh Hu Huh. rewrite Hsame in Huh by set_solver. by eapply unsatisfied_left.
      + rewrite (waiters_ext (threads s)); [done|]. intros u Hu. apply Hsame. set_solver.
      + intros s' Hk' Hq' He' Hu' Hd' Hc' Ho' Hl' Ht'. replace (true || _) with (need || negb (bool_decide ((t, event_got (ev_set ev) th) :: g = [])))
          by (rewrite bool_decide_eq_false_2 by done; by destruct need).
        apply HQ; [done|done| |done| |congruence| |congruence|].
        * by rewrite He', He1, insert_insert_eq.
        * intros u v [[= -> ->]|Huv]%elem_of_cons.
          { destruct (Hdel t (event_got (ev_set ev) th)) as (th0 & st & E1 & E2 & E3); [by left|].
            specialize (Ht' t Htl). rewrite E2 in Ht'. destruct Ht' as [E4|(th4 & st4 & [= <-] & E4 & _ & ?)].
            - exists th0, st. done.
            - exists th0, st4. done. }
          { destruct (Hd' u v Huv) as (th0 & st & E1 & E2 & E3). exists th0, st. split; [|done].
            assert (u ∈ pre ++ l) as Hul; [|by rewrite <- (Hsame u Hul)].
            apply elem_of_app. right. by eapply event_deliver_elem. }
        * intros o Ho. by rewrite Ho', Ho1.
        * intros u Hu. assert (u ≠ t /\ u ∉ l) as [Hne Hul] by set_solver. etrans; [by apply Hth1|by apply Ht']. }
    intros [] s' (th1 & E1 & W). rewrite wp_bind, wp_get_thread. exists th1. split; [done|]. rewrite wp_bind.
    eapply wp_mono; [exact W|]. intros [] s'' W'. rewrite wp_bind. exact W'.
  - destruct (event_deliver (ev_set ev) (waiters (threads s) l)) as [[g r] e'] eqn:Ed. simplify_eq.
    rewrite wp_bind, wp_when. right. split; [done|].
    eapply (IH (pre ++ [t]) need ev got r e); [done|by rewrite <- app_assoc|done| |done|].
    + intros u uh [Hu|Hu]%elem_of_app Huh; [by eapply Huns|]. apply list_elem_of_singleton in Hu as ->. by simplify_eq.
    + intros s' Hk' Hq' He' Hu' Hd' Hc' Ho' Hl' Ht'. rewrite <- app_assoc in Hq', Hu'. apply HQ; try done.
      intros u Hu. apply Ht'. set_solver.
Qed.
End send.

Lemma unsatisfied_shuffled s s' ev l :
  (forall t, t ∈ l -> exists th, threads s !! t = Some th /\ th_stat th = RT_THREAD_SUSPEND) ->
  (forall t, shuffled (threads s !! t) (threads s' !! t)) ->
  unsatisfied (threads s) ev l -> unsatisfied (threads s') ev l.
Proof.
  intros Hw Hsh H t th Ht Hth. destruct (Hw t Ht) as (th0 & E & Hst). specialize (Hsh t).
  rewrite E in Hsh. apply shuffled_wait in Hsh; [|done]. eapply H; [done|congruence].
Qed.


(** What [rt_event_recv] does with a valid wish. *)
Inductive event_recv_result (n : nat) (set opt timeout : Z) (t : nat) (th : thread) (s : kernel) :
    outcome (Z * option Z) nat -> kernel -> Prop :=
| recv_now ev s' :
    events s !! n = Some ev -> event_satisfied (ev_set ev) set opt = true ->
    threads s' = <[t := set_th_error RT_EOK th]> (threads s) ->
    events s' = (if has_flag opt RT_EVENT_FLAG_CLEAR
                 then <[n := mkEvent (ev_set ev .&~ set)]> (events s) else events s) ->
    event_recv_result n set opt timeout t th s (Ret (RT_EOK, Some (ev_set ev .& set))) s'
| recv_timeout ev :
    events s !! n = Some ev -> event_satisfied (ev_set ev) set opt = false -> timeout = 0 ->
    event_recv_result n set opt timeout t th s (Ret (- RT_ETIMEOUT, None))
      (set_threads (<[t := set_th_error (- RT_ETIMEOUT) th]> (threads s)) s)
| recv_wait ev th' s' :
    events s !! n = Some ev -> event_satisfied (ev_set ev) set opt = false -> timeout ≠ 0 ->
    th' = set_th_event_info opt (set_th_event_set set (set_th_error RT_EOK th)) ->
    blocked_on (event_q n) (ipc_obj_flag (OEvent n) s) timeout t th'
      (set_threads (<[t := th']> (threads s)) s) s' ->
    events s' = events s ->
    event_recv_result n set opt timeout t th s (Block t) s'.

(** [rt_event_recv] by a running thread, with a non-empty wish and AND or OR among the options: a
    satisfied wish is received at once (the events of the wish that are set, which are cleared on request);
    otherwise a zero timeout gives [-RT_ETIMEOUT] and any other one makes the caller wait with its wish
    recorded. The invariants are kept; in particular, no waiter has a satisfied wish. *)
Theorem rt_event_recv_spec n set opt timeout t th s :
  kinv s -> event_ok n s -> rt_current_thread s = Some t -> threads s !! t = Some th ->
  th_stat th = RT_THREAD_RUNNING -> rt_interrupt_nest s = 0 -> timeout < TIMER_MAX -> set ≠ 0 ->
  has_flag opt RT_EVENT_FLAG_AND || has_flag opt RT_EVENT_FLAG_OR = true ->
  wp (rt_event_recv n set opt timeout) (fun r s' => kinv s' /\ event_ok n s' /\
    event_recv_result n set opt timeout t th s r s') s.
Proof.
  intros Hk [(x & Hx & Hty & Hf) (ev & Hev & Huns)] Hc Ht Hst Hn Hti Hset Hopt. unfold rt_event_recv. wp_norm.
  split_and!; [by rewrite Hc|done|]. exists x. split_and!; [done..|]. rewrite (proj2 (Z.eqb_neq set 0)) by done.
  wp_norm. exists t. split; [done|]. wp_norm. exists th. split; [done|]. unfold get_event, put_event. wp_norm.
  rewrite wp_getso. exists ev. split; [done|]. wp_norm. split; [done|].
  set (th1 := set_th_error RT_EOK th). set (s1 := set_threads (<[t := th1]> (threads s)) s).
  pose proof (kinv_update_same 0 None s t th th1 Hk Ht ltac:(done)) as Hk1. fold s1 in Hk1.
  assert (threads s1 !! t = Some th1) as Ht1 by (simpl; apply lookup_insert_eq).
  assert (forall v, unsatisfied (threads s) v (qget s (event_q n)) -> forall th', unsatisfied (<[t := th']> (threads s)) v (qget s (event_q n))) as Huns'.
  { intros v Hu th' u uh Hin Huh. destruct (waiting_thread 0 None s (event_q n) u Hk ltac:(auto with ipc) Hin) as (uh' & E & Hs).
    rewrite lookup_insert_ne in Huh by (intros ->; simplify_eq; lia). by eapply Hu. }
  destruct (event_satisfied (ev_set ev) set opt) eqn:Es.
  - wp_norm. rewrite wp_when. destruct (has_flag opt RT_EVENT_FLAG_CLEAR) eqn:Ecl; [left|right]; (split; [done|]);
      wp_norm; exists th1; (split; [done|]); wp_norm.
    + split_and!; [by apply kinv_set_events| |eapply recv_now; [done|done|done|by rewrite Ecl]].
      split; [by exists x|]. eexists. split; [simpl; apply lookup_insert_eq|].
      apply (Huns' (ev_set ev .&~ set)). by apply unsatisfied_clear.
    + split_and!; [done| |eapply recv_now; [done|done|done|by rewrite Ecl]].
      split; [by exists x|]. exists ev. split; [done|]. by apply (Huns' (ev_set ev)).
  - destruct (Z.eqb_spec timeout 0) as [H0|H0].
    + wp_norm. exists th1. split; [done|]. wp_norm. eexists. split; [simpl; apply lookup_insert_eq|]. wp_norm.
      replace (set_threads _ s1) with (set_threads (<[t := set_th_error (- RT_ETIMEOUT) th]> (threads s)) s)
        by (unfold s1; simpl; by rewrite insert_insert_eq).
      split_and!; [by apply (kinv_update_same 0 None s t th)| |by eapply recv_timeout].
      split; [by exists x|]. exists ev. split; [done|]. by apply (Huns' (ev_set ev)).
    + wp_norm. exists th1. split; [done|]. wp_norm. exists x. split; [done|]. wp_norm.
      set (th2 := set_th_event_info opt (set_th_event_set set th1)).
      replace (set_threads _ s1) with (set_threads (<[t := th2]> (threads s)) s)
        by (unfold s1; simpl; by rewrite insert_insert_eq).
      set (s2 := set_threads (<[t := th2]> (threads s)) s).
      eapply wp_mono.
      { eapply (wp_block 0 (event_q n) t th2 (obj_flag x) timeout s2
          (fun _ s' => kinv s' /\ event_ok n s' /\ event_recv_result n set opt timeout t th s (Block t) s'));
          [by apply (kinv_update_same 0 None s t th)|lia|done|simpl; apply lookup_insert_eq|done|auto with ipc|done|done|].
        intros s' Hk' Hb. pose proof (gw_frame _ _ _ _ (bo_gone _ _ _ _ _ _ _ Hb)) as Hfr. split_and!; [done| |].
        - split; [eapply (object_typed_frame _ _ s2); [done|done|by exists x]|].
          exists ev. rewrite (kf_events _ _ Hfr). split; [done|]. intros u uh Hu Huh.
          rewrite (joined_perm _ _ _ _ _ _ (bo_joined _ _ _ _ _ _ _ Hb)) in Hu. apply elem_of_cons in Hu as [->|Hu].
          { rewrite (gw_self _ _ _ _ (bo_gone _ _ _ _ _ _ _ Hb)) in Huh. injection Huh as <-. exact Es. }
          destruct (waiting_thread 0 None s (event_q n) u Hk ltac:(auto with ipc) Hu) as (uh' & E & Hs).
          assert (u ≠ t) as Hne by (intros ->; simplify_eq; lia).
          pose proof (gw_others _ _ _ _ (bo_gone _ _ _ _ _ _ _ Hb) u Hne) as Hsh. simpl in Hsh.
          rewrite lookup_insert_ne, E in Hsh by done. apply shuffled_wait in Hsh; [|done].
          eapply (Huns u uh); [done|congruence].
        - eapply recv_wait; [done|done|done|done| |by rewrite (kf_events _ _ Hfr)].
          unfold ipc_obj_flag. rewrite Hx. exact Hb. }
      intros r s3 [_ Hw3]. wp_norm. eapply wp_mono; [exact Hw3|]. intros [] s4 Hw4. wp_norm.
      eapply wp_mono; [exact Hw4|]. intros [] s5 HQ. by wp_norm.
Qed.

(** ** Examples *)

(** The event set 0 is empty; the thread 5 waits for the event 1. *)
Definition demo_events : kernel := set_events {[ 0%nat := mkEvent 0 ]} demo_kernel.

Lemma demo_events_inv : kinv demo_events.
Proof. apply kinv_set_events, demo_kernel_inv. Qed.

Lemma demo_event_ok : event_ok 0 demo_events.
Proof.
  split; eexists; (split; [reflexivity|]); [split; [reflexivity|by left]|].
  intros t th Ht. assert (t = 5%nat) as -> by (vm_compute in Ht; by apply list_elem_of_singleton in Ht).
  by intros [= <-].
Qed.


Lemma rt_event_recv_spec_witness :
  wp (rt_event_recv 0 6 5 100) (fun r s' => kinv s' /\ event_ok 0 s' /\
    event_recv_result 0 6 5 100 0 (demo_thread 0 RT_THREAD_RUNNING 10) demo_events r s') demo_events.
Proof.
  apply rt_event_recv_spec; [apply demo_events_inv|apply demo_event_ok|reflexivity..|lia|reflexivity].
Defined.
