(* ===== verification/Mailbox.v ===== *)
(** Mailboxes: a ring of one-word mails with blocking senders and receivers (src/ipc.c). *)

From S2P Require Import Prelude RtDef Object Scheduler Timer Thread Kernel Ipc.

Definition get_mb (n : nat) : M rt_mailbox := getso (fun s => mailboxes s !! n).
Definition put_mb (n : nat) (x : rt_mailbox) : M unit :=
  modify (fun s => set_mailboxes (<[n := x]> (mailboxes s)) s).
Abbreviation mb_q n := (QSuspend (OMailBox n)).
Abbreviation mb_sender_q n := (QSender (OMailBox n)).

(** [msgpool] is the address of the caller's buffer of [size] words and [words] its content. *)
Definition rt_mb_init (n : nat) (name : string) (msgpool : Z) (words : list Z) (size flag : Z) : M Z :=
  rt_object_init (OMailBox n) RT_Object_Class_MailBox name;;
  upd_object (OMailBox n) (set_obj_flag flag);;
  rt_ipc_object_init (mb_q n);;
  put_mb n (mkMailbox words (u16 size) 0 0 0 msgpool);;
  rt_ipc_object_init (mb_sender_q n);;
  mret RT_EOK.

Definition rt_mb_detach (n : nat) : M Z :=
  assert_type (OMailBox n) RT_Object_Class_MailBox;;
  b ← rt_object_is_systemobject (OMailBox n);
  RT_ASSERT b;;
  rt_ipc_list_resume_all (mb_q n);;
  rt_ipc_list_resume_all (mb_sender_q n);;
  rt_object_detach (OMailBox n);;
  mret RT_EOK.

(** What is live across the [rt_schedule()] of the two loops; [mbf_value] is the mail to send. *)
Record mb_frame := mkMbFrame {
  mbf_mb : nat;
  mbf_value : Z;
  mbf_thread : option nat;
  mbf_timeout : Z;
  mbf_tick_delta : Z }.

(** [timeout -= rt_tick_get() - tick_delta], clipped at 0, for a wait that is not forever. *)
Definition remaining_timeout (now timeout tick_delta : Z) : Z :=
  let timeout' := s32 (timeout - u32 (now - tick_delta)) in
  if timeout' <? 0 then 0 else timeout'.

Definition mb_frame_elapsed (now : Z) (f : mb_frame) : mb_frame :=
  if mbf_timeout f >? 0 then
    mkMbFrame (mbf_mb f) (mbf_value f) (mbf_thread f)
      (remaining_timeout now (mbf_timeout f) (mbf_tick_delta f))
      (u32 (now - mbf_tick_delta f))
  else f.

(** The body of the two waiting loops once a thread has to wait: suspend, start the timer, schedule. *)
Definition mb_wait (q : qid) (f : mb_frame) (t : nat) : M (outcome Z mb_frame) :=
  RT_DEBUG_IN_THREAD_CONTEXT;;
  now ← ipc_wait q (OMailBox (mbf_mb f)) t (mbf_timeout f);
  mret (Block (mkMbFrame (mbf_mb f) (mbf_value f) (mbf_thread f) (mbf_timeout f)
                 (if mbf_timeout f >? 0 then now else mbf_tick_delta f))).

(** [mb->msg_pool[mb->in_offset] = value] and the advance of the offset and the count. *)
Definition mb_put (value : Z) (mb : rt_mailbox) : option rt_mailbox :=
  if decide (Z.to_nat (mb_in_offset mb) < length (mb_msg_pool mb))%nat then
    let i := u16 (mb_in_offset mb + 1) in
    Some (set_mb_entry (u16 (mb_entry mb + 1))
      (set_mb_in_offset (if i >=? mb_size mb then 0 else i)
        (set_mb_msg_pool (<[Z.to_nat (mb_in_offset mb) := value]> (mb_msg_pool mb)) mb)))
  else None.

Definition mb_get (mb : rt_mailbox) : option (Z * rt_mailbox) :=
  value ← mb_msg_pool mb !! Z.to_nat (mb_out_offset mb);
  let o := u16 (mb_out_offset mb + 1) in
  Some (value, set_mb_entry (u16 (mb_entry mb - 1))
                 (set_mb_out_offset (if o >=? mb_size mb then 0 else o) mb)).

(** From the test of [while (mb->entry == mb->size)] on. *)
Definition mb_send_loop (f : mb_frame) : M (outcome Z mb_frame) :=
  mb ← get_mb (mbf_mb f);
  if mb_entry mb =? mb_size mb then
    t ← getso (fun _ => mbf_thread f);
    upd_thread t (set_th_error RT_EOK);;
    if mbf_timeout f =? 0 then mret (Ret (- RT_EFULL))
    else mb_wait (mb_sender_q (mbf_mb f)) f t
  else
    mb' ← getso (fun _ => mb_put (mbf_value f) mb);
    put_mb (mbf_mb f) mb';;
    e ← tlist_isempty (mb_q (mbf_mb f));
    when (negb e) (rt_ipc_list_resume (mb_q (mbf_mb f));; rt_schedule);;
    mret (Ret RT_EOK).

Definition rt_mb_send_wait (n : nat) (value timeout : Z) : M (outcome Z mb_frame) :=
  assert_type (OMailBox n) RT_Object_Class_MailBox;;
  thread ← rt_thread_self;
  mb ← get_mb n;
  if (mb_entry mb =? mb_size mb) && (timeout =? 0) then mret (Ret (- RT_EFULL))
  else mb_send_loop (mkMbFrame n value thread timeout 0).

(** The loops after their [rt_schedule()]. *)
Definition mb_resume {A} (f : mb_frame) (ret : Z -> A) (loop : mb_frame -> M A) : M A :=
  t ← getso (fun _ => mbf_thread f);
  th ← get_thread t;
  if negb (th_error th =? RT_EOK) then mret (ret (th_error th))
  else now ← rt_tick_get; loop (mb_frame_elapsed now f).

Definition rt_mb_send_wait_resume (f : mb_frame) : M (outcome Z mb_frame) :=
  mb_resume f Ret mb_send_loop.

Definition rt_mb_send (n : nat) (value : Z) : M (outcome Z mb_frame) := rt_mb_send_wait n value 0.

(** From the test of [while (mb->entry == 0)] on; the result has the value stored in [*value]. *)
Definition mb_recv_loop (f : mb_frame) : M (outcome (Z * option Z) mb_frame) :=
  mb ← get_mb (mbf_mb f);
  if mb_entry mb =? 0 then
    t ← getso (fun _ => mbf_thread f);
    upd_thread t (set_th_error RT_EOK);;
    if mbf_timeout f =? 0 then
      upd_thread t (set_th_error (- RT_ETIMEOUT));;
      mret (Ret (- RT_ETIMEOUT, None))
    else
      r ← mb_wait (mb_q (mbf_mb f)) f t;
      mret (match r with Ret e => Ret (e, None) | Block f => Block f end)
  else
    '(value, mb') ← getso (fun _ => mb_get mb);
    put_mb (mbf_mb f) mb';;
    e ← tlist_isempty (mb_sender_q (mbf_mb f));
    when (negb e) (rt_ipc_list_resume (mb_sender_q (mbf_mb f));; rt_schedule);;
    mret (Ret (RT_EOK, Some value)).

Definition rt_mb_recv (n : nat) (timeout : Z) : M (outcome (Z * option Z) mb_frame) :=
  assert_type (OMailBox n) RT_Object_Class_MailBox;;
  thread ← rt_thread_self;
  mb ← get_mb n;
  if (mb_entry mb =? 0) && (timeout =? 0) then mret (Ret (- RT_ETIMEOUT, None))
  else mb_recv_loop (mkMbFrame n 0 thread timeout 0).

Definition rt_mb_recv_resume (f : mb_frame) : M (outcome (Z * option Z) mb_frame) :=
  mb_resume f (fun e => Ret (e, None)) mb_recv_loop.

Definition rt_mb_control (n : nat) (cmd arg : Z) : M Z :=
  assert_type (OMailBox n) RT_Object_Class_MailBox;;
  if cmd =? RT_IPC_CMD_RESET then
    rt_ipc_list_resume_all (mb_q n);;
    rt_ipc_list_resume_all (mb_sender_q n);;
    mb ← get_mb n;
    put_mb n (set_mb_out_offset 0 (set_mb_in_offset 0 (set_mb_entry 0 mb)));;
    rt_schedule;;
    mret RT_EOK
  else mret (- RT_ERROR).

(** ** The ring of mails *)

(** The mails in the box, oldest first. *)
Definition mb_contents (mb : rt_mailbox) : list Z :=
  (fun i => default 0 (mb_msg_pool mb !! Z.to_nat ((mb_out_offset mb + i) mod mb_size mb)))
    <$> seqZ 0 (mb_entry mb).

Record mb_wf (mb : rt_mailbox) : Prop := {
  mw_size : Z.of_nat (length (mb_msg_pool mb)) = mb_size mb /\ 0 <= mb_size mb < 65536;
  mw_entry : 0 <= mb_entry mb <= mb_size mb;
  mw_out : 0 <= mb_out_offset mb /\ (0 < mb_size mb -> mb_out_offset mb < mb_size mb);
  mw_in : 0 <= mb_in_offset mb /\ (0 < mb_size mb ->
    mb_in_offset mb = (mb_out_offset mb + mb_entry mb) mod mb_size mb);
}.

Lemma mod_inj a b n : 0 < n -> a mod n = b mod n -> Z.abs (a - b) < n -> a = b.
Proof.
  intros Hn E Hd. pose proof (Z.div_mod a n ltac:(lia)). pose proof (Z.div_mod b n ltac:(lia)).
  assert (a - b = n * (a / n - b / n)) by lia. assert (a / n = b / n) by nia. nia.
Qed.

(** [++ mb->in_offset; if (mb->in_offset >= mb->size) mb->in_offset = 0;] is the successor modulo the size. *)
Lemma offset_next o size :
  0 <= o < size -> size < 65536 -> (if u16 (o + 1) >=? size then 0 else u16 (o + 1)) = (o + 1) mod size.
Proof.
  intros Ho Hs. rewrite u16_small by lia. rewrite Z.geb_leb. destruct (Z.leb_spec size (o + 1)).
  - replace (o + 1) with size by lia. by rewrite Z.mod_same by lia.
  - by rewrite Z.mod_small by lia.
Qed.

Lemma length_mb_contents mb : mb_wf mb -> Z.of_nat (length (mb_contents mb)) = mb_entry mb.
Proof. intros H. unfold mb_contents. rewrite length_fmap, length_seqZ. pose proof (mw_entry _ H). lia. Qed.

(** [mb_put] appends a mail; there is room for it. *)
Lemma mb_put_spec v mb :
  mb_wf mb -> mb_entry mb < mb_size mb ->
  exists mb', mb_put v mb = Some mb' /\ mb_wf mb' /\ mb_size mb' = mb_size mb /\
    mb_contents mb' = mb_contents mb ++ [v].
Proof.
  intros [[Hl Hs] He [Ho Ho'] [Hi Hi']] Hlt. specialize (Ho' ltac:(lia)). specialize (Hi' ltac:(lia)).
  pose proof (Z.mod_pos_bound (mb_out_offset mb + mb_entry mb) (mb_size mb) ltac:(lia)) as Hb.
  unfold mb_put. rewrite decide_True by lia. eexists. split; [done|].
  rewrite offset_next by lia. split_and!; [|done|].
  - split; simpl.
    + by rewrite length_insert.
    + rewrite u16_small by lia. lia.
    + done.
    + rewrite u16_small by lia. pose proof (Z.mod_pos_bound (mb_in_offset mb + 1) (mb_size mb) ltac:(lia)).
      split; [lia|]. intros _. rewrite Hi', Z.add_mod_idemp_l by lia. f_equal. lia.
  - unfold mb_contents. simpl. rewrite u16_small by lia.
    rewrite seqZ_app by lia. rewrite fmap_app. apply f_equal2.
    + apply list_fmap_ext. intros k i Hk. apply lookup_seqZ in Hk as [-> Hk].
      rewrite list_lookup_insert_ne; [done|]. intros E.
      apply Z2Nat.inj in E; [|lia|apply Z.mod_pos_bound; lia].
      rewrite Hi' in E. apply mod_inj in E; lia.
    + change (seqZ (0 + mb_entry mb) 1) with [0 + mb_entry mb]. rewrite list_fmap_singleton, Z.add_0_l, <- Hi'.
      by rewrite list_lookup_insert_eq by lia.
Qed.

(** [mb_get] takes the oldest mail. *)
Lemma mb_get_spec mb :
  mb_wf mb -> 0 < mb_entry mb ->
  exists v mb', mb_get mb = Some (v, mb') /\ mb_wf mb' /\ mb_size mb' = mb_size mb /\
    mb_contents mb = v :: mb_contents mb'.
Proof.
  intros [[Hl Hs] He [Ho Ho'] [Hi Hi']] Hlt. specialize (Ho' ltac:(lia)). specialize (Hi' ltac:(lia)).
  destruct (lookup_lt_is_Some_2 (mb_msg_pool mb) (Z.to_nat (mb_out_offset mb))) as [v Hv]; [lia|].
  pose proof (Z.mod_pos_bound (mb_out_offset mb + 1) (mb_size mb) ltac:(lia)) as Hb.
  unfold mb_get. rewrite Hv. simpl. exists v. eexists. split; [done|]. rewrite offset_next by lia.
  rewrite u16_small by lia. split_and!; [|done|].
  - split; simpl; [done|lia|lia|]. split; [lia|]. intros _. rewrite Hi', Z.add_mod_idemp_l by lia. f_equal. lia.
  - unfold mb_contents. simpl. replace (mb_entry mb) with (1 + (mb_entry mb - 1)) at 1 by lia.
    rewrite seqZ_app by lia. rewrite fmap_app. simpl. rewrite Z.add_0_r, Z.mod_small, Hv by lia. simpl. f_equal.
    rewrite <- (fmap_add_seqZ 1 0), <- list_fmap_compose. apply list_fmap_ext. intros k i Hk. simpl.
    rewrite Z.add_mod_idemp_l by lia. by replace (mb_out_offset mb + (1 + i)) with (mb_out_offset mb + 1 + i) by lia.
Qed.

Record mb_ok (n : nat) (s : kernel) : Prop := {
  bo_object : object_typed (OMailBox n) RT_Object_Class_MailBox s;
  bo_mb : exists mb, mailboxes s !! n = Some mb /\ mb_wf mb;
}.

Lemma kinv_set_mailboxes lo X v s : kinv_at lo X s -> kinv_at lo X (set_mailboxes v s).
Proof. by apply kinv_same. Qed.

(** The wait of both loops. *)
Lemma wp_mb_wait q f t th s Q :
  kinv s -> rt_current_thread s = Some t -> threads s !! t = Some th -> th_stat th = RT_THREAD_RUNNING ->
  rt_interrupt_nest s = 0 -> wait_q q -> object_typed (OMailBox (mbf_mb f)) RT_Object_Class_MailBox s ->
  mbf_timeout f < TIMER_MAX ->
  (forall s', kinv s' -> blocked_on q (ipc_obj_flag (OMailBox (mbf_mb f)) s) (mbf_timeout f) t th s s' ->
     Q (Block (mkMbFrame (mbf_mb f) (mbf_value f) (mbf_thread f) (mbf_timeout f)
          (if mbf_timeout f >? 0 then rt_tick s else mbf_tick_delta f))) s') ->
  wp (mb_wait q f t) Q s.
Proof.
  intros Hk Hc Ht Hst Hn Hw Hob Hti HQ. unfold mb_wait. wp_norm. split_and!; [by rewrite Hc|done|].
  eapply wp_ipc_wait; [done..|]. intros s' Hk' Hb. rewrite wp_ret. by apply HQ.
Qed.

(** ** Sending and receiving *)

(** What [mb_send_loop] does: it deposits the mail and wakes a receiver, gives up, or waits. *)
Inductive mb_send_result (f : mb_frame) (t : nat) (s : kernel) : outcome Z mb_frame -> kernel -> Prop :=
| send_done mb mb' s' :
    mailboxes s !! mbf_mb f = Some mb -> mb_entry mb < mb_size mb ->
    mb_contents mb' = mb_contents mb ++ [mbf_value f] ->
    mailboxes s' = <[mbf_mb f := mb']> (mailboxes s) ->
    wakes (mb_q (mbf_mb f)) (set_mailboxes (mailboxes s') s) s' ->
    mb_send_result f t s (Ret RT_EOK) s'
| send_full mb th s' :
    mailboxes s !! mbf_mb f = Some mb -> mb_entry mb = mb_size mb -> mbf_timeout f = 0 ->
    threads s !! t = Some th -> s' = set_threads (<[t := set_th_error RT_EOK th]> (threads s)) s ->
    mb_send_result f t s (Ret (- RT_EFULL)) s'
| send_wait mb th s' :
    mailboxes s !! mbf_mb f = Some mb -> mb_entry mb = mb_size mb -> mbf_timeout f ≠ 0 ->
    threads s !! t = Some th ->
    blocked_on (mb_sender_q (mbf_mb f)) (ipc_obj_flag (OMailBox (mbf_mb f)) s) (mbf_timeout f) t
      (set_th_error RT_EOK th) (set_threads (<[t := set_th_error RT_EOK th]> (threads s)) s) s' ->
    mailboxes s' = mailboxes s ->
    mb_send_result f t s (Block (mkMbFrame (mbf_mb f) (mbf_value f) (mbf_thread f) (mbf_timeout f)
      (if mbf_timeout f >? 0 then rt_tick s else mbf_tick_delta f))) s'.

Lemma wp_mb_send_loop f t th s :
  kinv s -> mb_ok (mbf_mb f) s -> mbf_thread f = Some t -> rt_current_thread s = Some t ->
  threads s !! t = Some th -> th_stat th = RT_THREAD_RUNNING -> rt_interrupt_nest s = 0 ->
  mbf_timeout f < TIMER_MAX ->
  wp (mb_send_loop f) (fun r s' => kinv s' /\ mb_ok (mbf_mb f) s' /\ mb_send_result f t s r s') s.
Proof.
  intros Hk [Hob (mb & Hmb & Hwf)] Hft Hc Ht Hst Hn Hti. unfold mb_send_loop, get_mb, put_mb.
  rewrite wp_bind, wp_getso. exists mb. split; [done|].
  destruct (Z.eqb_spec (mb_entry mb) (mb_size mb)) as [Hfull|Hroom].
  - rewrite wp_bind, wp_getso. exists t. split; [done|]. rewrite wp_bind, wp_upd_thread. exists th. split; [done|].
    set (s1 := set_threads _ s).
    pose proof (kinv_update_same 0 None s t th (set_th_error RT_EOK th) Hk Ht ltac:(done) : kinv s1) as Hk1.
    destruct (Z.eqb_spec (mbf_timeout f) 0) as [H0|H0].
    + rewrite wp_ret. split_and!; [done|split; [done|by exists mb]|by eapply send_full].
    + eapply (wp_mb_wait _ f t (set_th_error RT_EOK th)); [done|done|simpl; apply lookup_insert_eq|done|done|apply wait_q_sender|done|done|].
      intros s' Hk' Hb. pose proof (gw_frame _ _ _ _ (bo_gone _ _ _ _ _ _ _ Hb)) as Hfr. split_and!; [done| |].
      * split; [by eapply (object_typed_frame _ _ s1)|]. exists mb. by rewrite (kf_mailboxes _ _ Hfr).
      * change (rt_tick s1) with (rt_tick s).
        change (ipc_obj_flag (OMailBox (mbf_mb f)) s1) with (ipc_obj_flag (OMailBox (mbf_mb f)) s) in Hb.
        eapply send_wait; [done..|]. by rewrite (kf_mailboxes _ _ Hfr).
  - destruct (mb_put_spec (mbf_value f) mb Hwf) as (mb' & Eput & Hwf' & Hsz & Hcont); [pose proof (mw_entry _ Hwf); lia|].
    rewrite wp_bind, wp_getso. exists mb'. split; [done|]. rewrite wp_bind, wp_modify.
    set (s1 := set_mailboxes _ s).
    assert (wp (e ← tlist_isempty (mb_q (mbf_mb f)); when (negb e) (rt_ipc_list_resume (mb_q (mbf_mb f));; rt_schedule))
      (fun _ s' => kinv s' /\ mb_ok (mbf_mb f) s' /\ mb_send_result f t s (Ret RT_EOK) s') s1) as W.
    { eapply (wp_wake _ t); [by apply kinv_set_mailboxes|done|apply wait_q_suspend|].
      intros s' Hk' Hwk Hfr. split_and!; [done| |].
      - split; [by eapply (object_typed_frame _ _ s1)|]. exists mb'. rewrite (kf_mailboxes _ _ Hfr). simpl.
        by rewrite lookup_insert_eq.
      - eapply send_done; [done|pose proof (mw_entry _ Hwf); lia|done|by rewrite (kf_mailboxes _ _ Hfr)|].
        by rewrite (kf_mailboxes _ _ Hfr). }
    rewrite wp_bind in W. rewrite wp_bind. eapply wp_mono; [exact W|]. intros e s2 W2. rewrite wp_bind.
    eapply wp_mono; [exact W2|]. intros [] s3 HQ. by rewrite wp_ret.
Qed.

(** What [mb_recv_loop] does. *)
Inductive mb_recv_result (f : mb_frame) (t : nat) (s : kernel) :
    outcome (Z * option Z) mb_frame -> kernel -> Prop :=
| mb_recv_done mb mb' v s' :
    mailboxes s !! mbf_mb f = Some mb -> mb_contents mb = v :: mb_contents mb' ->
    mailboxes s' = <[mbf_mb f := mb']> (mailboxes s) ->
    wakes (mb_sender_q (mbf_mb f)) (set_mailboxes (mailboxes s') s) s' ->
    mb_recv_result f t s (Ret (RT_EOK, Some v)) s'
| mb_recv_empty mb th s' :
    mailboxes s !! mbf_mb f = Some mb -> mb_entry mb = 0 -> mbf_timeout f = 0 -> threads s !! t = Some th ->
    s' = set_threads (<[t := set_th_error (- RT_ETIMEOUT) th]> (threads s)) s ->
    mb_recv_result f t s (Ret (- RT_ETIMEOUT, None)) s'
| mb_recv_wait mb th s' :
    mailboxes s !! mbf_mb f = Some mb -> mb_entry mb = 0 -> mbf_timeout f ≠ 0 -> threads s !! t = Some th ->
    blocked_on (mb_q (mbf_mb f)) (ipc_obj_flag (OMailBox (mbf_mb f)) s) (mbf_timeout f) t
      (set_th_error RT_EOK th) (set_threads (<[t := set_th_error RT_EOK th]> (threads s)) s) s' ->
    mailboxes s' = mailboxes s ->
    mb_recv_result f t s (Block (mkMbFrame (mbf_mb f) (mbf_value f) (mbf_thread f) (mbf_timeout f)
      (if mbf_timeout f >? 0 then rt_tick s else mbf_tick_delta f))) s'.

Lemma wp_mb_recv_loop f t th s :
  kinv s -> mb_ok (mbf_mb f) s -> mbf_thread f = Some t -> rt_current_thread s = Some t ->
  threads s !! t = Some th -> th_stat th = RT_THREAD_RUNNING -> rt_interrupt_nest s = 0 ->
  mbf_timeout f < TIMER_MAX ->
  wp (mb_recv_loop f) (fun r s' => kinv s' /\ mb_ok (mbf_mb f) s' /\ mb_recv_result f t s r s') s.
Proof.
  intros Hk [Hob (mb & Hmb & Hwf)] Hft Hc Ht Hst Hn Hti. unfold mb_recv_loop, get_mb, put_mb.
  rewrite wp_bind, wp_getso. exists mb. split; [done|].
  destruct (Z.eqb_spec (mb_entry mb) 0) as [Hempty|Hmail].
  - rewrite wp_bind, wp_getso. exists t. split; [done|]. rewrite wp_bind, wp_upd_thread. exists th. split; [done|].
    set (th1 := set_th_error RT_EOK th). set (s1 := set_threads _ s).
    pose proof (kinv_update_same 0 None s t th th1 Hk Ht ltac:(done)) as Hk1.
    assert (threads s1 !! t = Some th1) as Ht1 by (simpl; apply lookup_insert_eq).
    destruct (Z.eqb_spec (mbf_timeout f) 0) as [H0|H0].
    + rewrite wp_bind, wp_upd_thread. exists th1. split; [done|]. rewrite wp_ret.
      replace (set_threads _ s1) with (set_threads (<[t := set_th_error (- RT_ETIMEOUT) th]> (threads s)) s)
        by (unfold s1; simpl; by rewrite insert_insert_eq).
      split_and!; [by apply (kinv_update_same 0 None s t th)|split; [done|by exists mb]|by eapply mb_recv_empty].
    + rewrite wp_bind. eapply (wp_mb_wait _ f t th1); [done|done|done|done|done|apply wait_q_suspend|done|done|].
      intros s' Hk' Hb. pose proof (gw_frame _ _ _ _ (bo_gone _ _ _ _ _ _ _ Hb)) as Hfr. rewrite wp_ret.
      split_and!; [done| |].
      * split; [by eapply (object_typed_frame _ _ s1)|]. exists mb. by rewrite (kf_mailboxes _ _ Hfr).
      * change (rt_tick s1) with (rt_tick s).
        change (ipc_obj_flag (OMailBox (mbf_mb f)) s1) with (ipc_obj_flag (OMailBox (mbf_mb f)) s) in Hb.
        eapply mb_recv_wait; [done..|]. by rewrite (kf_mailboxes _ _ Hfr).
  - destruct (mb_get_spec mb Hwf) as (v & mb' & Eget & Hwf' & Hsz & Hcont); [pose proof (mw_entry _ Hwf); lia|].
    rewrite wp_bind, wp_getso. exists (v, mb'). split; [done|]. rewrite wp_bind, wp_modify.
    set (s1 := set_mailboxes _ s).
    assert (wp (e ← tlist_isempty (mb_sender_q (mbf_mb f)); when (negb e) (rt_ipc_list_resume (mb_sender_q (mbf_mb f));; rt_schedule))
      (fun _ s' => kinv s' /\ mb_ok (mbf_mb f) s' /\ mb_recv_result f t s (Ret (RT_EOK, Some v)) s') s1) as W.
    { eapply (wp_wake _ t); [by apply kinv_set_mailboxes|done|apply wait_q_sender|].
      intros s' Hk' Hwk Hfr. split_and!; [done| |].
      - split; [by eapply (object_typed_frame _ _ s1)|]. exists mb'. rewrite (kf_mailboxes _ _ Hfr). simpl.
        by rewrite lookup_insert_eq.
      - eapply mb_recv_done; [done|done|by rewrite (kf_mailboxes _ _ Hfr)|].
        by rewrite (kf_mailboxes _ _ Hfr). }
    rewrite wp_bind in W. rewrite wp_bind. eapply wp_mono; [exact W|]. intros e s2 W2. rewrite wp_bind.
    eapply wp_mono; [exact W2|]. intros [] s3 HQ. by rewrite wp_ret.
Qed.

(** C24: [rt_mb_send_wait] by a running thread, against the mailbox as a bounded first-in first-out
    queue: with room, the mail is appended behind the others and the first waiting receiver is woken; on a
    full box, a zero timeout gives [-RT_EFULL] without effect and any other one makes the sender wait. The
    invariants of the kernel and of the ring are kept. *)
Theorem rt_mb_send_wait_spec n value timeout t th s :
  kinv s -> mb_ok n s -> rt_current_thread s = Some t -> threads s !! t = Some th ->
  th_stat th = RT_THREAD_RUNNING -> rt_interrupt_nest s = 0 -> timeout < TIMER_MAX ->
  wp (rt_mb_send_wait n value timeout) (fun r s' => kinv s' /\ mb_ok n s' /\
    (mb_send_result (mkMbFrame n value (Some t) timeout 0) t s r s' \/
     timeout = 0 /\ r = Ret (- RT_EFULL) /\ s' = s /\
       exists mb, mailboxes s !! n = Some mb /\ mb_entry mb = mb_size mb)) s.
Proof.
  intros Hk Hok Hc Ht Hst Hn Hti. pose proof Hok as [(x & Hx & Hty & Hf) (mb & Hmb & Hwf)].
  unfold rt_mb_send_wait, get_mb. wp_norm. exists x. split_and!; [done..|]. wp_norm. rewrite Hc, wp_getso.
  exists mb. split; [done|]. destruct (Z.eqb_spec (mb_entry mb) (mb_size mb)), (Z.eqb_spec timeout 0); cbn [andb].
  1: { rewrite wp_ret. split_and!; [done|done|]. right. split_and!; try done. by exists mb. }
  all: (eapply wp_mono; [apply (wp_mb_send_loop _ t th); done|]); intros r s' (? & ? & ?); split_and!; [done..|by left].
Qed.

(** C25: [rt_mb_recv] by a running thread: it takes the oldest mail and wakes the first waiting sender; on
    an empty box, a zero timeout gives [-RT_ETIMEOUT] and any other one makes the receiver wait. *)
Theorem rt_mb_recv_spec n timeout t th s :
  kinv s -> mb_ok n s -> rt_current_thread s = Some t -> threads s !! t = Some th ->
  th_stat th = RT_THREAD_RUNNING -> rt_interrupt_nest s = 0 -> timeout < TIMER_MAX ->
  wp (rt_mb_recv n timeout) (fun r s' => kinv s' /\ mb_ok n s' /\
    (mb_recv_result (mkMbFrame n 0 (Some t) timeout 0) t s r s' \/
     timeout = 0 /\ r = Ret (- RT_ETIMEOUT, None) /\ s' = s /\
       exists mb, mailboxes s !! n = Some mb /\ mb_entry mb = 0)) s.
Proof.
  intros Hk Hok Hc Ht Hst Hn Hti. pose proof Hok as [(x & Hx & Hty & Hf) (mb & Hmb & Hwf)].
  unfold rt_mb_recv, get_mb. wp_norm. exists x. split_and!; [done..|]. wp_norm. rewrite Hc, wp_getso.
  exists mb. split; [done|]. destruct (Z.eqb_spec (mb_entry mb) 0), (Z.eqb_spec timeout 0); cbn [andb].
  1: { rewrite wp_ret. split_and!; [done|done|]. right. split_and!; try done. by exists mb. }
  all: (eapply wp_mono; [apply (wp_mb_recv_loop _ t th); done|]); intros r s' (? & ? & ?); split_and!; [done..|by left].
Qed.

(** [timeout -= elapsed] with its clipping, in the arithmetic of the code. *)
Lemma remaining_timeout_spec now timeout start :
  0 <= timeout < 2147483648 -> u32 (now - start) <= 2147483648 ->
  remaining_timeout now timeout start = Z.max 0 (timeout - u32 (now - start)).
Proof.
  intros Ht He. pose proof (uwrap_bound 32 (now - start) ltac:(lia)) as Hb. unfold remaining_timeout.
  rewrite s32_small by lia. case_if; lia.
Qed.

(** A receiver that is woken goes on as if it had called [rt_mb_recv] again with what is left of its
    timeout: an error (a timeout, a reset or deleted mailbox) is returned as it is, without effect; else it
    takes a mail or, if another receiver has been faster, waits again for at most the rest of the time, so
    that the total wait never exceeds the one asked for, across the wrap-around of the tick. *)
Theorem rt_mb_recv_resume_spec f t th s :
  kinv s -> mb_ok (mbf_mb f) s -> mbf_thread f = Some t -> rt_current_thread s = Some t ->
  threads s !! t = Some th -> th_stat th = RT_THREAD_RUNNING -> rt_interrupt_nest s = 0 ->
  mbf_timeout f < TIMER_MAX -> u32 (rt_tick s - mbf_tick_delta f) <= 2147483648 ->
  wp (rt_mb_recv_resume f) (fun r s' => kinv s' /\ mb_ok (mbf_mb f) s' /\
    (th_error th ≠ RT_EOK -> r = Ret (th_error th, None) /\ s' = s) /\
    (th_error th = RT_EOK -> exists f', mb_recv_result f' t s r s' /\ mbf_mb f' = mbf_mb f /\
       mbf_timeout f' = if 0 <? mbf_timeout f
                        then Z.max 0 (mbf_timeout f - u32 (rt_tick s - mbf_tick_delta f))
                        else mbf_timeout f)) s.
Proof.
  intros Hk Hok Hft Hc Ht Hst Hn Hti Hel. unfold rt_mb_recv_resume, mb_resume. wp_norm. rewrite wp_getso.
  exists t. split; [done|]. wp_norm. exists th. split; [done|].
  destruct (Z.eqb_spec (th_error th) RT_EOK) as [He|He]; cbn [negb].
  2: { rewrite wp_ret. by split_and!. }
  wp_norm. set (f' := mb_frame_elapsed (rt_tick s) f).
  pose proof (uwrap_bound 32 (rt_tick s - mbf_tick_delta f) ltac:(lia)) as Hb.
  assert (mbf_timeout f' = if 0 <? mbf_timeout f then Z.max 0 (mbf_timeout f - u32 (rt_tick s - mbf_tick_delta f))
    else mbf_timeout f) as Etm.
  { unfold f', mb_frame_elapsed. rewrite Z.gtb_ltb. destruct (Z.ltb_spec 0 (mbf_timeout f)); [|done].
    simpl. by rewrite remaining_timeout_spec by lia. }
  assert (mbf_mb f' = mbf_mb f /\ mbf_thread f' = mbf_thread f) as [Em Eth]
    by (unfold f', mb_frame_elapsed; destruct (_ >? _); done).
  eapply wp_mono; [apply (wp_mb_recv_loop f' t th); try done; [by rewrite Em|congruence|]|].
  { rewrite Etm. case_if; lia. }
  intros r s' (Hk' & Hok' & Hres). rewrite Em in Hok'. split_and!; [done|done|done|]. intros _. by exists f'.
Qed.

(** ** Examples *)

(** The mailbox 0, with room for two mails, is empty and the thread 6 waits for a mail; the mailbox 1 is
    full, with the mails 7 and 8 in the wrapped order. *)
Definition demo_mailboxes : kernel :=
  set_mailboxes (list_to_map [(0%nat, mkMailbox [0; 0] 2 0 0 0 536870912); (1%nat, mkMailbox [8; 7] 2 2 1 1 536870920)]) demo_kernel.

Lemma demo_mailboxes_inv : kinv demo_mailboxes.
Proof. apply kinv_set_mailboxes, demo_kernel_inv. Qed.

Lemma demo_mb_ok n : (n < 2)%nat -> mb_ok n demo_mailboxes.
Proof.
  intros Hn. destruct n as [|[|n]]; [| |lia]; split; eexists; (split; [reflexivity|]).
  1: split; [reflexivity|by left].
  2: split; [reflexivity|by right].
  all: split; simpl; try lia; done.
Qed.

Lemma rt_mb_send_wait_spec_witness :
  wp (rt_mb_send_wait 1 9 40) (fun r s' => kinv s' /\ mb_ok 1 s' /\
    (mb_send_result (mkMbFrame 1 9 (Some 0%nat) 40 0) 0 demo_mailboxes r s' \/
     40 = 0 /\ r = Ret (- RT_EFULL) /\ s' = demo_mailboxes /\
       exists mb, mailboxes demo_mailboxes !! 1%nat = Some mb /\ mb_entry mb = mb_size mb)) demo_mailboxes.
Proof.
  apply (rt_mb_send_wait_spec 1 9 40 0 (demo_thread 0 RT_THREAD_RUNNING 10));
    [apply demo_mailboxes_inv|apply demo_mb_ok; lia|reflexivity..].
Defined.

Lemma rt_mb_recv_spec_witness :
  wp (rt_mb_recv 1 0) (fun r s' => kinv s' /\ mb_ok 1 s' /\
    (mb_recv_result (mkMbFrame 1 0 (Some 0%nat) 0 0) 0 demo_mailboxes r s' \/
     0 = 0 /\ r = Ret (- RT_ETIMEOUT, None) /\ s' = demo_mailboxes /\
       exists mb, mailboxes demo_mailboxes !! 1%nat = Some mb /\ mb_entry mb = 0)) demo_mailboxes.
Proof.
  apply (rt_mb_recv_spec 1 0 0 (demo_thread 0 RT_THREAD_RUNNING 10));
    [apply demo_mailboxes_inv|apply demo_mb_ok; lia|reflexivity..].
Defined.

(** The running thread has been woken 4 ticks after it began to wait for at most 10. *)
Lemma rt_mb_recv_resume_spec_witness :
  let f := mkMbFrame 0 0 (Some 0%nat) 10 4294967286 in
  wp (rt_mb_recv_resume f) (fun r s' => kinv s' /\ mb_ok 0 s' /\
    (th_error (demo_thread 0 RT_THREAD_RUNNING 10) ≠ RT_EOK ->
       r = Ret (th_error (demo_thread 0 RT_THREAD_RUNNING 10), None) /\ s' = demo_mailboxes) /\
    (th_error (demo_thread 0 RT_THREAD_RUNNING 10) = RT_EOK ->
       exists f', mb_recv_result f' 0 demo_mailboxes r s' /\ mbf_mb f' = 0%nat /\
       mbf_timeout f' = if 0 <? 10 then Z.max 0 (10 - u32 (rt_tick demo_mailboxes - 4294967286)) else 10))
    demo_mailboxes.
Proof.
  apply (rt_mb_recv_resume_spec (mkMbFrame 0 0 (Some 0%nat) 10 4294967286) 0 (demo_thread 0 RT_THREAD_RUNNING 10));
    [apply demo_mailboxes_inv|apply demo_mb_ok; simpl; lia|reflexivity..|vm_compute; discriminate].
Defined.
