(* ===== verification/MsgQueue.v ===== *)
(** Message queues: fixed-size messages copied into a pool of linked slots (src/ipc.c). *)

From S2P Require Import Prelude RtDef Object Scheduler Timer Thread Kernel Ipc Mailbox.

Definition get_mq (n : nat) : M rt_messagequeue := getso (fun s => msgqueues s !! n).
Definition put_mq (n : nat) (x : rt_messagequeue) : M unit :=
  modify (fun s => set_msgqueues (<[n := x]> (msgqueues s)) s).
Abbreviation mq_q n := (QSuspend (OMsgQueue n)).

(** [rt_memcpy(dst, src, n)]. *)
Definition memcpy (dst src : list Z) (n : nat) : option (list Z) :=
  if decide (n <= length src /\ n <= length dst)%nat then Some (take n src ++ drop n dst) else None.

(** The loop that links the slots [0 .. n-1] into the free list, each in front of the others. *)
Fixpoint mq_link_free (n : nat) (next : gmap nat (option nat)) (free : option nat)
    : gmap nat (option nat) * option nat :=
  match n with
  | O => (next, free)
  | S k => let '(next, free) := mq_link_free k next free in (<[k := free]> next, Some k)
  end.

(** The bytes behind the [next] word of slot [i] of a pool. *)
Definition slot_data (msgpool : list Z) (msg_size : Z) (i : nat) : list Z :=
  take (Z.to_nat msg_size) (drop (i * Z.to_nat (msg_size + 4) + 4) msgpool).

(** The queue over a fresh pool of [max_msgs] slots at [msgpool] with the content [bytes]. *)
Definition mq_fresh (msgpool : Z) (bytes : list Z) (msg_size max_msgs : Z) : rt_messagequeue :=
  let n := Z.to_nat max_msgs in
  let '(next, free) := mq_link_free n ∅ None in
  mkMq msg_size max_msgs 0 None None free next
    (list_to_map ((fun i => (i, slot_data bytes msg_size i)) <$> seq 0 n)) msgpool.

(** [msgpool] is the address of the caller's buffer and [bytes] its content. *)
Definition rt_mq_init (n : nat) (name : string) (msgpool : Z) (bytes : list Z) (msg_size pool_size flag : Z)
    : M Z :=
  rt_object_init (OMsgQueue n) RT_Object_Class_MessageQueue name;;
  upd_object (OMsgQueue n) (set_obj_flag flag);;
  rt_ipc_object_init (mq_q n);;
  let size := u16 (RT_ALIGN msg_size RT_ALIGN_SIZE) in
  put_mq n (mq_fresh msgpool bytes size (u16 (pool_size / (size + 4))));;
  mret RT_EOK.

Definition rt_mq_detach (n : nat) : M Z :=
  assert_type (OMsgQueue n) RT_Object_Class_MessageQueue;;
  b ← rt_object_is_systemobject (OMsgQueue n);
  RT_ASSERT b;;
  rt_ipc_list_resume_all (mq_q n);;
  rt_object_detach (OMsgQueue n);;
  mret RT_EOK.

(** ** The critical sections of the transfers *)

(** Take a slot off the free list ([msg] and the queue without it). *)
Definition mq_alloc (mq : rt_messagequeue) : option (option (nat * rt_messagequeue)) :=
  match mq_msg_queue_free mq with
  | None => Some None
  | Some msg => next ← mq_next mq !! msg; Some (Some (msg, set_mq_msg_queue_free next mq))
  end.

(** [rt_memcpy(msg + 1, buffer, size)]. *)
Definition mq_fill (msg : nat) (buffer : list Z) (size : Z) (mq : rt_messagequeue)
    : option rt_messagequeue :=
  old ← mq_data mq !! msg;
  data ← memcpy old buffer (Z.to_nat size);
  Some (set_mq_data (<[msg := data]> (mq_data mq)) mq).

(** Link [msg], whose [next] is [RT_NULL], behind the tail. *)
Definition mq_link_tail (msg : nat) (mq : rt_messagequeue) : rt_messagequeue :=
  let mq := match mq_msg_queue_tail mq with
            | Some tl => set_mq_next (<[tl := Some msg]> (mq_next mq)) mq
            | None => mq
            end in
  let mq := set_mq_msg_queue_tail (Some msg) mq in
  let mq := match mq_msg_queue_head mq with
            | None => set_mq_msg_queue_head (Some msg) mq
            | Some _ => mq
            end in
  set_mq_entry (u16 (mq_entry mq + 1)) mq.

(** Link [msg] in front of the head. *)
Definition mq_link_head (msg : nat) (mq : rt_messagequeue) : rt_messagequeue :=
  let mq := set_mq_next (<[msg := mq_msg_queue_head mq]> (mq_next mq)) mq in
  let mq := set_mq_msg_queue_head (Some msg) mq in
  let mq := match mq_msg_queue_tail mq with
            | None => set_mq_msg_queue_tail (Some msg) mq
            | Some _ => mq
            end in
  set_mq_entry (u16 (mq_entry mq + 1)) mq.

(** Unlink the head. *)
Definition mq_unlink_head (mq : rt_messagequeue) : option (nat * rt_messagequeue) :=
  msg ← mq_msg_queue_head mq;
  next ← mq_next mq !! msg;
  let mq := set_mq_msg_queue_head next mq in
  let mq := if bool_decide (mq_msg_queue_tail mq = Some msg)
            then set_mq_msg_queue_tail None mq else mq in
  Some (msg, mq).

(** [rt_memcpy(buffer, msg + 1, size > mq->msg_size ? mq->msg_size : size)]: the bytes stored. *)
Definition mq_read (msg : nat) (size : Z) (mq : rt_messagequeue) : option (list Z) :=
  data ← mq_data mq !! msg;
  Some (take (Z.to_nat (if size >? mq_msg_size mq then mq_msg_size mq else size)) data).

(** Put [msg] on the free list. *)
Definition mq_free (msg : nat) (mq : rt_messagequeue) : rt_messagequeue :=
  set_mq_msg_queue_free (Some msg)
    (set_mq_next (<[msg := mq_msg_queue_free mq]> (mq_next mq)) mq).

(** ** The operations *)

(** [rt_mq_send] and [rt_mq_urgent], which differ in where they link the message; [buffer] is the
    memory at the argument. *)
Definition mq_post (urgent : bool) (n : nat) (buffer : list Z) (size : Z) : M Z :=
  assert_type (OMsgQueue n) RT_Object_Class_MessageQueue;;
  RT_ASSERT (negb (size =? 0));;
  mq ← get_mq n;
  if size >? mq_msg_size mq then mret (- RT_ERROR)
  else
    r ← getso (fun _ => mq_alloc mq);
    match r with
    | None => mret (- RT_EFULL)
    | Some (msg, mq) =>
        put_mq n mq;;
        mq ← get_mq n;
        let mq := if urgent then mq else set_mq_next (<[msg := None]> (mq_next mq)) mq in
        mq ← getso (fun _ => mq_fill msg buffer size mq);
        put_mq n mq;;
        mq ← get_mq n;
        put_mq n (if urgent then mq_link_head msg mq else mq_link_tail msg mq);;
        e ← tlist_isempty (mq_q n);
        when (negb e) (rt_ipc_list_resume (mq_q n);; rt_schedule);;
        mret RT_EOK
    end.

Definition rt_mq_send (n : nat) (buffer : list Z) (size : Z) : M Z := mq_post false n buffer size.
Definition rt_mq_urgent (n : nat) (buffer : list Z) (size : Z) : M Z := mq_post true n buffer size.

(** What is live across the [rt_schedule()] of [rt_mq_recv]. *)
Record mq_frame := mkMqFrame {
  mqf_mq : nat;
  mqf_size : Z;
  mqf_thread : option nat;
  mqf_timeout : Z;
  mqf_tick_delta : Z }.

Definition mq_frame_elapsed (now : Z) (f : mq_frame) : mq_frame :=
  if mqf_timeout f >? 0 then
    mkMqFrame (mqf_mq f) (mqf_size f) (mqf_thread f)
      (remaining_timeout now (mqf_timeout f) (mqf_tick_delta f))
      (u32 (now - mqf_tick_delta f))
  else f.

(** From the test of [while (mq->entry == 0)] on; the result has the bytes stored in the buffer. *)
Definition mq_recv_loop (f : mq_frame) : M (outcome (Z * option (list Z)) mq_frame) :=
  mq ← get_mq (mqf_mq f);
  if mq_entry mq =? 0 then
    RT_DEBUG_IN_THREAD_CONTEXT;;
    t ← getso (fun _ => mqf_thread f);
    upd_thread t (set_th_error RT_EOK);;
    if mqf_timeout f =? 0 then
      upd_thread t (set_th_error (- RT_ETIMEOUT));;
      mret (Ret (- RT_ETIMEOUT, None))
    else
      now ← ipc_wait (mq_q (mqf_mq f)) (OMsgQueue (mqf_mq f)) t (mqf_timeout f);
      mret (Block (mkMqFrame (mqf_mq f) (mqf_size f) (mqf_thread f) (mqf_timeout f)
                     (if mqf_timeout f >? 0 then now else mqf_tick_delta f)))
  else
    '(msg, mq) ← getso (fun _ => mq_unlink_head mq);
    put_mq (mqf_mq f) (set_mq_entry (u16 (mq_entry mq - 1)) mq);;
    mq ← get_mq (mqf_mq f);
    data ← getso (fun _ => mq_read msg (mqf_size f) mq);
    mq ← get_mq (mqf_mq f);
    put_mq (mqf_mq f) (mq_free msg mq);;
    mret (Ret (RT_EOK, Some data)).

Definition rt_mq_recv (n : nat) (size timeout : Z) : M (outcome (Z * option (list Z)) mq_frame) :=
  assert_type (OMsgQueue n) RT_Object_Class_MessageQueue;;
  RT_ASSERT (negb (size =? 0));;
  thread ← rt_thread_self;
  mq ← get_mq n;
  if (mq_entry mq =? 0) && (timeout =? 0) then mret (Ret (- RT_ETIMEOUT, None))
  else mq_recv_loop (mkMqFrame n size thread timeout 0).

(** The loop after its [rt_schedule()]. *)
Definition rt_mq_recv_resume (f : mq_frame) : M (outcome (Z * option (list Z)) mq_frame) :=
  t ← getso (fun _ => mqf_thread f);
  th ← get_thread t;
  if negb (th_error th =? RT_EOK) then mret (Ret (th_error th, None))
  else now ← rt_tick_get; mq_recv_loop (mq_frame_elapsed now f).

(** The loop of [rt_mq_control]; [fuel] is one more than the number of slots. *)
Fixpoint mq_release_all (fuel : nat) (mq : rt_messagequeue) : option rt_messagequeue :=
  match fuel with
  | O => None
  | S fuel =>
      match mq_msg_queue_head mq with
      | None => Some mq
      | Some _ => '(msg, mq) ← mq_unlink_head mq; mq_release_all fuel (mq_free msg mq)
      end
  end.

Definition rt_mq_control (n : nat) (cmd arg : Z) : M Z :=
  assert_type (OMsgQueue n) RT_Object_Class_MessageQueue;;
  if cmd =? RT_IPC_CMD_RESET then
    rt_ipc_list_resume_all (mq_q n);;
    mq ← get_mq n;
    mq ← getso (fun _ => mq_release_all (S (Z.to_nat (mq_max_msgs mq))) mq);
    put_mq n (set_mq_entry 0 mq);;
    rt_schedule;;
    mret RT_EOK
  else mret (- RT_ERROR).

(** ** The slots of the pool *)

(** [l] is the list of slots linked from [start]. *)
Fixpoint chain (next : gmap nat (option nat)) (start : option nat) (l : list nat) : Prop :=
  match l with
  | [] => start = None
  | x :: l => start = Some x /\ exists nx, next !! x = Some nx /\ chain next nx l
  end.

Lemma chain_update next start l y v : y ∉ l -> chain next start l -> chain (<[y := v]> next) start l.
Proof.
  revert start. induction l as [|x l IH]; intros start Hy; [done|]. simpl. intros (-> & nx & Hnx & Hc).
  split; [done|]. exists nx. rewrite lookup_insert_ne by set_solver. split; [done|]. apply IH; [set_solver|done].
Qed.

(** Linking [m] behind the last slot. *)
Lemma chain_append next start l tl m :
  NoDup (l ++ [tl; m]) -> chain next start (l ++ [tl]) -> next !! m = Some None ->
  chain (<[tl := Some m]> next) start (l ++ [tl; m]).
Proof.
  revert start. induction l as [|x l IH]; simpl; intros start Hnd (-> & nx & Hnx & Hc) Hm.
  - split; [done|]. exists (Some m). rewrite lookup_insert_eq. split; [done|]. split; [done|].
    exists None. apply NoDup_cons in Hnd as [Hnd _]. rewrite lookup_insert_ne by set_solver. done.
  - apply NoDup_cons in Hnd as [Hx Hnd]. split; [done|]. exists nx. rewrite lookup_insert_ne by set_solver.
    split; [done|]. by apply IH.
Qed.

(** The queue holds the slots [q], the free list [f], and [g] are the slots in transfer (allocated and
    not yet linked, or unlinked and not yet freed); together they are the slots of the pool. *)
Record mq_rep (mq : rt_messagequeue) (q f g : list nat) : Prop := {
  mr_head : chain (mq_next mq) (mq_msg_queue_head mq) q;
  mr_tail : mq_msg_queue_tail mq = last q;
  mr_free : chain (mq_next mq) (mq_msg_queue_free mq) f;
  mr_slots : q ++ f ++ g ≡ₚ seq 0 (Z.to_nat (mq_max_msgs mq));
  mr_next : forall i, i ∈ q ++ f ++ g -> is_Some (mq_next mq !! i);
  mr_data : forall i, i ∈ q ++ f ++ g -> exists d, mq_data mq !! i = Some d /\ Z.of_nat (length d) = mq_msg_size mq;
  mr_entry : mq_entry mq = Z.of_nat (length q);
  mr_size : 0 <= mq_max_msgs mq < 65536 /\ 0 <= mq_msg_size mq;
}.

(** The messages in the queue, oldest first, as the bytes of their slots. *)
Definition mq_contents (mq : rt_messagequeue) (q : list nat) : list (list Z) :=
  (fun i => default [] (mq_data mq !! i)) <$> q.

Section rep.
Context {mq : rt_messagequeue} {q f g : list nat}.
Hypothesis (Hr : mq_rep mq q f g).

Lemma mr_nodup : NoDup (q ++ f ++ g).
Proof. rewrite (mr_slots _ _ _ _ Hr). apply NoDup_seq. Qed.

Lemma mr_length : (length q + length f + length g = Z.to_nat (mq_max_msgs mq))%nat.
Proof. pose proof (Permutation_length (mr_slots _ _ _ _ Hr)) as E. rewrite !length_app, length_seq in E. lia. Qed.

(** Taking a slot from the free list, which is empty only if no slot is free. *)
Lemma mq_alloc_spec :
  match f with
  | [] => mq_alloc mq = Some None
  | x :: f' => exists mq', mq_alloc mq = Some (Some (x, mq')) /\ mq_rep mq' q f' (x :: g) /\
      mq_contents mq' q = mq_contents mq q /\ mq_msg_size mq' = mq_msg_size mq /\
      mq_data mq' = mq_data mq /\ mq_next mq' = mq_next mq
  end.
Proof.
  pose proof (mr_free _ _ _ _ Hr) as Hf. unfold mq_alloc. destruct f as [|x f']; simpl in Hf; [by rewrite Hf|].
  destruct Hf as (E & nx & Hnx & Hc). rewrite E, Hnx. simpl. eexists. split; [done|]. split_and!; try done.
  assert (forall i, i ∈ q ++ f' ++ x :: g <-> i ∈ q ++ (x :: f') ++ g) as Hmem by (intros; set_solver).
  split; try apply Hr; simpl.
  - done.
  - etrans; [|exact (mr_slots _ _ _ _ Hr)]. simpl. apply Permutation_app_head. symmetry. apply Permutation_middle.
  - intros i Hi. apply Hr, Hmem, Hi.
  - intros i Hi. apply Hr, Hmem, Hi.
Qed.
End rep.

Lemma mq_rep_same mq mq' q f g :
  mq_rep mq q f g -> chain (mq_next mq') (mq_msg_queue_head mq') q -> chain (mq_next mq') (mq_msg_queue_free mq') f ->
  mq_msg_queue_tail mq' = mq_msg_queue_tail mq -> mq_max_msgs mq' = mq_max_msgs mq ->
  (forall i, is_Some (mq_next mq !! i) -> is_Some (mq_next mq' !! i)) ->
  (forall i d, mq_data mq !! i = Some d -> Z.of_nat (length d) = mq_msg_size mq ->
     exists d', mq_data mq' !! i = Some d' /\ Z.of_nat (length d') = mq_msg_size mq) ->
  mq_entry mq' = mq_entry mq -> mq_msg_size mq' = mq_msg_size mq -> mq_rep mq' q f g.
Proof.
  intros Hr Hq Hf Et Em Hn Hd Ee Es. split; rewrite ?Et, ?Em, ?Ee, ?Es; try done; try apply Hr.
  - intros i Hi. apply Hn. by apply Hr.
  - intros i Hi. destruct (mr_data _ _ _ _ Hr i Hi) as (d & E & El). by eapply Hd.
Qed.

(** [msg->next = RT_NULL] for a slot in transfer. *)
Lemma mq_null_next mq q f g m :
  mq_rep mq q f (m :: g) -> mq_rep (set_mq_next (<[m := None]> (mq_next mq)) mq) q f (m :: g).
Proof.
  intros Hr. pose proof (mr_nodup Hr) as Hnd. apply NoDup_app in Hnd as (H1 & H2 & H3).
  apply NoDup_app in H3 as (H4 & H5 & H6). eapply mq_rep_same; try done; simpl.
  - apply chain_update; [|apply Hr]. intros Hin. eapply H2; [done|]. set_solver.
  - apply chain_update; [|apply Hr]. intros Hin. eapply H5; [done|]. by left.
  - intros i Hi. destruct (decide (m = i)) as [->|]; [rewrite lookup_insert_eq; eauto|by rewrite lookup_insert_ne].
  - eauto.
Qed.

(** Copying the message into the slot. *)
Lemma mq_fill_spec mq q f g m buffer size :
  mq_rep mq q f (m :: g) -> 0 <= size <= mq_msg_size mq -> size <= Z.of_nat (length buffer) ->
  exists mq' d, mq_fill m buffer size mq = Some mq' /\ mq_rep mq' q f (m :: g) /\
    mq_data mq' !! m = Some d /\ take (Z.to_nat size) d = take (Z.to_nat size) buffer /\
    mq_contents mq' q = mq_contents mq q /\ mq_next mq' = mq_next mq /\ mq_msg_size mq' = mq_msg_size mq.
Proof.
  intros Hr Hs Hb. pose proof (mr_nodup Hr) as Hnd. apply NoDup_app in Hnd as (H1 & H2 & H3).
  destruct (mr_data _ _ _ _ Hr m) as (d & Hd & Hl); [set_solver|].
  unfold mq_fill. rewrite Hd. simpl. unfold memcpy. rewrite decide_True by lia. simpl.
  set (d' := take (Z.to_nat size) buffer ++ drop (Z.to_nat size) d).
  eexists _, d'. split; [done|]. simpl. rewrite lookup_insert_eq. split_and!; try done.
  - eapply mq_rep_same; try done; simpl; [apply Hr|apply Hr|]. intros i di Hi El.
    destruct (decide (m = i)) as [->|]; [|exists di; by rewrite lookup_insert_ne].
    rewrite lookup_insert_eq. exists d'. split; [done|]. unfold d'. rewrite length_app, length_take, length_drop.
    simplify_eq. lia.
  - unfold d'. rewrite take_app_le by (rewrite length_take; lia). rewrite take_take. f_equal. lia.
  - unfold mq_contents. simpl. apply list_fmap_ext. intros k i Hk. rewrite lookup_insert_ne; [done|].
    intros ->. apply list_elem_of_lookup_2 in Hk. eapply H2; [done|]. set_solver.
Qed.

(** Linking a filled slot behind the newest message. *)
Lemma mq_link_tail_spec mq q f g m :
  mq_rep mq q f (m :: g) -> mq_next mq !! m = Some None ->
  mq_rep (mq_link_tail m mq) (q ++ [m]) f g /\ mq_contents (mq_link_tail m mq) (q ++ [m]) = mq_contents mq (q ++ [m]).
Proof.
  intros Hr Hm. pose proof (mr_nodup Hr) as Hnd. pose proof (mr_length Hr) as Hlen. simpl in Hlen.
  pose proof (mr_tail _ _ _ _ Hr) as Ht. pose proof (mr_head _ _ _ _ Hr) as Hh.
  pose proof (mr_entry _ _ _ _ Hr) as He. pose proof (mr_size _ _ _ _ Hr) as Hs.
  assert (q ++ f ++ m :: g ≡ₚ (q ++ [m]) ++ f ++ g) as HP by (rewrite <- app_assoc; simpl; by rewrite Permutation_middle).
  assert (u16 (mq_entry mq + 1) = Z.of_nat (length (q ++ [m]))) as Ee
    by (rewrite length_app; simpl; rewrite uwrap_small; lia).
  assert (mq_msg_queue_tail (mq_link_tail m mq) = last (q ++ [m])) as Et
    by (rewrite last_snoc; unfold mq_link_tail; simpl; repeat case_match; done).
  assert (mq_data (mq_link_tail m mq) = mq_data mq /\ mq_max_msgs (mq_link_tail m mq) = mq_max_msgs mq /\
    mq_msg_size (mq_link_tail m mq) = mq_msg_size mq /\ mq_msg_queue_free (mq_link_tail m mq) = mq_msg_queue_free mq /\
    mq_entry (mq_link_tail m mq) = u16 (mq_entry mq + 1)) as (Ed & Emx & Esz & Efr & Een)
    by (unfold mq_link_tail; simpl; repeat case_match; done).
  assert (mq_next (mq_link_tail m mq) = match last q with Some tl => <[tl := Some m]> (mq_next mq) | None => mq_next mq end)
    as Enx by (rewrite <- Ht; unfold mq_link_tail; simpl; repeat case_match; done).
  split; [|unfold mq_contents; by rewrite Ed].
  assert (forall i, is_Some (mq_next mq !! i) -> is_Some (mq_next (mq_link_tail m mq) !! i)) as Hsome.
  { intros i Hi. rewrite Enx. destruct (last q) as [tl|]; [|done].
    destruct (decide (tl = i)) as [->|]; [rewrite lookup_insert_eq; eauto|by rewrite lookup_insert_ne]. }
  split; try done; try (rewrite ?Esz, ?Emx; apply Hr).
  - destruct q as [|tl l _] using rev_ind.
    + unfold mq_link_tail. simpl in *. rewrite Ht. simpl. rewrite Hh. simpl. split; [done|]. by exists None.
    + rewrite Enx, last_snoc. assert (mq_msg_queue_head (mq_link_tail m mq) = mq_msg_queue_head mq) as ->.
      { unfold mq_link_tail. rewrite Ht, last_snoc. simpl. destruct l as [|x l]; simpl in Hh; destruct Hh as [E _]; rewrite E; simpl; done. }
      rewrite <- app_assoc. apply chain_append; [|done|done].
      apply NoDup_app in Hnd as (A & B & _). replace (l ++ [tl; m]) with ((l ++ [tl]) ++ [m]) by (by rewrite <- app_assoc).
      apply NoDup_app. split_and!; [done| |apply NoDup_singleton]. intros i Hi Him. apply (B i Hi). set_solver.
  - rewrite Enx, Efr. destruct (last q) as [tl|] eqn:El; [|apply Hr]. apply chain_update; [|apply Hr].
    apply NoDup_app in Hnd as (_ & H2 & _). intros Hin. apply (H2 tl); [|set_solver].
    apply last_Some in El as [l ->]. set_solver.
  - rewrite <- HP, Emx. apply Hr.
  - intros i Hi. apply Hsome, (mr_next _ _ _ _ Hr). by rewrite HP.
  - intros i Hi. rewrite Ed, Esz. apply (mr_data _ _ _ _ Hr). by rewrite HP.
  - by rewrite Een.
Qed.

(** Linking a filled slot in front of the oldest message. *)
Lemma mq_link_head_spec mq q f g m :
  mq_rep mq q f (m :: g) ->
  mq_rep (mq_link_head m mq) (m :: q) f g /\ mq_contents (mq_link_head m mq) (m :: q) = mq_contents mq (m :: q).
Proof.
  intros Hr. pose proof (mr_nodup Hr) as Hnd. pose proof (mr_length Hr) as Hlen. simpl in Hlen.
  pose proof (mr_tail _ _ _ _ Hr) as Ht. pose proof (mr_entry _ _ _ _ Hr) as He. pose proof (mr_size _ _ _ _ Hr) as Hs.
  assert (q ++ f ++ m :: g ≡ₚ (m :: q) ++ f ++ g) as HP by (simpl; by rewrite !app_assoc, <- Permutation_middle).
  apply NoDup_app in Hnd as (H1 & H2 & H3). apply NoDup_app in H3 as (H4 & H5 & H6).
  assert (mq_data (mq_link_head m mq) = mq_data mq /\ mq_max_msgs (mq_link_head m mq) = mq_max_msgs mq /\
    mq_msg_size (mq_link_head m mq) = mq_msg_size mq /\ mq_msg_queue_free (mq_link_head m mq) = mq_msg_queue_free mq /\
    mq_entry (mq_link_head m mq) = u16 (mq_entry mq + 1) /\ mq_msg_queue_head (mq_link_head m mq) = Some m /\
    mq_next (mq_link_head m mq) = <[m := mq_msg_queue_head mq]> (mq_next mq)) as (Ed & Emx & Esz & Efr & Een & Ehd & Enx)
    by (unfold mq_link_head; simpl; repeat case_match; done).
  split; [|unfold mq_contents; by rewrite Ed].
  split; rewrite ?Ed, ?Esz, ?Emx, ?Enx, ?Ehd, ?Efr; try apply Hr.
  - simpl. split; [done|]. exists (mq_msg_queue_head mq). rewrite lookup_insert_eq. split; [done|].
    apply chain_update; [|apply Hr]. intros Hin. eapply H2; [done|]. set_solver.
  - unfold mq_link_head. simpl. rewrite Ht. destruct q as [|x q]; [done|]. simpl.
    destruct (last (x :: q)) eqn:El; simpl in El; rewrite ?El; [done|]. by apply last_None in El.
  - apply chain_update; [|apply Hr]. intros Hin. eapply H5; [done|]. by left.
  - rewrite <- HP. apply Hr.
  - intros i Hi. destruct (decide (m = i)) as [->|]; [rewrite lookup_insert_eq; eauto|].
    rewrite lookup_insert_ne by done. apply (mr_next _ _ _ _ Hr). by rewrite HP.
  - intros i Hi. apply (mr_data _ _ _ _ Hr). by rewrite HP.
  - rewrite Een. simpl. rewrite uwrap_small; lia.
Qed.

(** Unlinking the oldest message; [mq_entry] is decremented as the code does. *)
Lemma mq_unlink_head_spec mq m q f g :
  mq_rep mq (m :: q) f g ->
  exists mq', mq_unlink_head mq = Some (m, mq') /\
    mq_rep (set_mq_entry (u16 (mq_entry mq' - 1)) mq') q f (m :: g) /\
    mq_data mq' = mq_data mq /\ mq_msg_size mq' = mq_msg_size mq.
Proof.
  intros Hr. pose proof (mr_head _ _ _ _ Hr) as (Hh & nx & Hnx & Hc). pose proof (mr_length Hr) as Hlen. simpl in Hlen.
  pose proof (mr_tail _ _ _ _ Hr) as Ht. pose proof (mr_entry _ _ _ _ Hr) as He. pose proof (mr_size _ _ _ _ Hr) as Hs.
  pose proof (mr_nodup Hr) as Hnd. simpl in Hnd. apply NoDup_cons in Hnd as [Hm Hnd].
  assert (q ++ f ++ m :: g ≡ₚ (m :: q) ++ f ++ g) as HP by (simpl; by rewrite !app_assoc, <- Permutation_middle).
  unfold mq_unlink_head. rewrite Hh. simpl. rewrite Hnx. simpl. eexists. split; [done|].
  case_bool_decide as Htl; simpl; (split; [|done]); split; simpl; try apply Hr; try done.
  all: try (rewrite HP; apply Hr).
  all: try (intros i Hi; rewrite HP in Hi; by apply Hr).
  all: try (simpl in He; rewrite uwrap_small; lia).
  - assert (last (m :: q) = Some m) as Hl by congruence. destruct q as [|tl l _] using rev_ind; [done|].
    rewrite last_cons, last_snoc in Hl. simplify_eq. exfalso. apply Hm. set_solver.
  - rewrite last_cons in Ht. destruct (last q) eqn:El; congruence.
Qed.

(** Returning a slot to the free list. *)
Lemma mq_free_spec mq q f g m :
  mq_rep mq q f (m :: g) ->
  mq_rep (mq_free m mq) q (m :: f) g /\ mq_contents (mq_free m mq) q = mq_contents mq q.
Proof.
  intros Hr. pose proof (mr_nodup Hr) as Hnd. apply NoDup_app in Hnd as (H1 & H2 & H3).
  apply NoDup_app in H3 as (H4 & H5 & H6).
  assert (q ++ f ++ m :: g ≡ₚ q ++ (m :: f) ++ g) as HP by (simpl; by rewrite <- Permutation_middle).
  split; [|done]. split; simpl; try apply Hr.
  - apply chain_update; [|apply Hr]. intros Hin. eapply H2; [done|]. set_solver.
  - split; [done|]. exists (mq_msg_queue_free mq). rewrite lookup_insert_eq. split; [done|].
    apply chain_update; [|apply Hr]. intros Hin. eapply H5; [done|]. by left.
  - rewrite <- HP. apply Hr.
  - intros i Hi. destruct (decide (m = i)) as [->|]; [rewrite lookup_insert_eq; eauto|].
    rewrite lookup_insert_ne by done. apply (mr_next _ _ _ _ Hr). by rewrite HP.
  - intros i Hi. apply (mr_data _ _ _ _ Hr). by rewrite HP.
Qed.

(** The loop that builds the free list. *)
Lemma mq_link_free_spec n :
  let '(next, free) := mq_link_free n ∅ None in
  chain next free (rev (seq 0 n)) /\ (forall i, is_Some (next !! i) <-> (i < n)%nat).
Proof.
  induction n as [|n IH]; simpl.
  { split; [done|]. intros i. rewrite lookup_empty. split; [by intros []|lia]. }
  destruct (mq_link_free n ∅ None) as [next free]. destruct IH as [Hc Hd]. split.
  - change (rev (seq 1 n) ++ [0%nat]) with (rev (seq 0 (S n))). rewrite seq_S, rev_unit. split; [done|]. exists free.
    rewrite lookup_insert_eq. split; [done|]. apply chain_update; [|done]. intros Hin.
    apply list_elem_of_In, in_rev, in_seq in Hin. lia.
  - intros i. destruct (decide (n = i)) as [->|].
    + rewrite lookup_insert_eq. split; [lia|eauto].
    + rewrite lookup_insert_ne, Hd by done. lia.
Qed.

(** A pool that has been set up: no message, every slot free. *)
Lemma mq_fresh_spec addr pool size max :
  0 <= max < 65536 -> 0 <= size -> max * (size + 4) <= Z.of_nat (length pool) ->
  mq_rep (mq_fresh addr pool size max) [] (rev (seq 0 (Z.to_nat max))) [].
Proof.
  intros Hm Hs Hp. unfold mq_fresh. pose proof (mq_link_free_spec (Z.to_nat max)) as Hf.
  destruct (mq_link_free (Z.to_nat max) ∅ None) as [next free]. destruct Hf as [Hc Hd].
  assert (forall i, i ∈ rev (seq 0 (Z.to_nat max)) ++ [] <-> (i < Z.to_nat max)%nat) as Hmem.
  { intros i. rewrite app_nil_r, list_elem_of_In, <- in_rev, in_seq. lia. }
  split; simpl; try done.
  - rewrite app_nil_r. apply Permutation_sym, Permutation_rev.
  - intros i Hi%Hmem. by apply Hd.
  - intros i Hi%Hmem. exists (slot_data pool size i). split.
    + apply elem_of_list_to_map.
      * rewrite <- list_fmap_compose. simpl. rewrite list_fmap_id. apply NoDup_seq.
      * apply list_elem_of_fmap. exists i. split; [done|]. apply list_elem_of_In, in_seq. lia.
    + unfold slot_data. rewrite length_take, length_drop. nia.
Qed.

Lemma mq_unlink_entry e mq :
  mq_unlink_head (set_mq_entry e mq) = prod_map id (set_mq_entry e) <$> mq_unlink_head mq.
Proof.
  unfold mq_unlink_head. simpl. destruct (mq_msg_queue_head mq) as [msg|]; [|done]. simpl.
  destruct (mq_next mq !! msg); [|done]. simpl. by case_bool_decide.
Qed.

(** The reset loop: it ends after one round per message and frees every slot. *)
Lemma mq_release_all_spec fuel e mq q f g :
  mq_rep (set_mq_entry e mq) q f g -> (length q < fuel)%nat ->
  exists mq', mq_release_all fuel mq = Some mq' /\ mq_msg_size mq' = mq_msg_size mq /\
    mq_rep (set_mq_entry 0 mq') [] (rev q ++ f) g.
Proof.
  revert fuel e mq f. induction q as [|m q IH]; intros fuel e mq f Hr Hfu;
    (destruct fuel as [|fuel]; [simpl in Hfu; lia|]); cbn [mq_release_all].
  - pose proof (mr_head _ _ _ _ Hr) as Hh. simpl in Hh. rewrite Hh. exists mq. do 2 (split; [done|]).
    split; simpl; try apply Hr; done.
  - destruct (mq_unlink_head_spec _ _ _ _ _ Hr) as (mq1 & Eun & Hr1 & _ & Ez).
    pose proof (mr_head _ _ _ _ Hr) as (Hh & _). simpl in Hh. rewrite Hh.
    rewrite mq_unlink_entry in Eun. destruct (mq_unlink_head mq) as [[m' mq0]|]; [|done]. simpl in Eun.
    injection Eun as -> <-. simpl.
    apply mq_free_spec in Hr1 as [Hr1 _].
    destruct (IH fuel (u16 (e - 1)) (mq_free m mq0) (m :: f)) as (mq' & E & Ez' & Hr'); [exact Hr1|simpl in Hfu; lia|].
    exists mq'. split; [done|]. split; [by rewrite Ez'|]. by rewrite <- app_assoc.
Qed.

(** ** The queue as the callers see it *)

(** The queue [n] holds the messages [msgs] (oldest first), in slots of [size] bytes; [room] slots are
    free and the slots [g] are in transfer by other threads. *)
Definition mq_holds (n : nat) (s : kernel) (size : Z) (msgs : list (list Z)) (room : nat) (g : list nat) : Prop :=
  exists mq q f, msgqueues s !! n = Some mq /\ mq_rep mq q f g /\ mq_msg_size mq = size /\
    mq_contents mq q = msgs /\ length f = room.

Lemma mq_holds_eq n s s' size msgs room g :
  msgqueues s' = msgqueues s -> mq_holds n s size msgs room g -> mq_holds n s' size msgs room g.
Proof. intros E. unfold mq_holds. by rewrite E. Qed.

Lemma mq_contents_snoc mq q m d : mq_data mq !! m = Some d -> mq_contents mq (q ++ [m]) = mq_contents mq q ++ [d].
Proof. intros E. unfold mq_contents. rewrite fmap_app. simpl. by rewrite E. Qed.

Lemma mq_contents_cons mq q m d : mq_data mq !! m = Some d -> mq_contents mq (m :: q) = d :: mq_contents mq q.
Proof. intros E. unfold mq_contents. rewrite fmap_cons. by rewrite E. Qed.

Lemma kinv_set_msgqueues lo X v s : kinv_at lo X s -> kinv_at lo X (set_msgqueues v s).
Proof. by apply kinv_same. Qed.

Lemma woken_all_set_msgqueues q v s s' :
  woken_all q s s' -> woken_all q (set_msgqueues v s) (set_msgqueues v s').
Proof. intros [H1 H2 H3 H4 []]. by split. Qed.

(** What a message of [size] bytes of [buffer] looks like in a slot of [msz] bytes. *)
Definition slot_holds (buffer : list Z) (size msz : Z) (d : list Z) : Prop :=
  take (Z.to_nat size) d = take (Z.to_nat size) buffer /\ Z.of_nat (length d) = msz.

(** The message that has been written into a slot of the queue, in one piece. *)
Lemma mq_stored_spec (urgent : bool) mq q x f g buffer size :
  mq_rep mq q (x :: f) g -> 0 <= size <= mq_msg_size mq -> size <= Z.of_nat (length buffer) ->
  exists mq1 mq2 d, mq_alloc mq = Some (Some (x, mq1)) /\
    mq_fill x buffer size (if urgent then mq1 else set_mq_next (<[x := None]> (mq_next mq1)) mq1) = Some mq2 /\
    slot_holds buffer size (mq_msg_size mq) d /\
    let mq3 := if urgent then mq_link_head x mq2 else mq_link_tail x mq2 in
    exists q', mq_rep mq3 q' f g /\ mq_msg_size mq3 = mq_msg_size mq /\
      mq_contents mq3 q' = if urgent then d :: mq_contents mq q else mq_contents mq q ++ [d].
Proof.
  intros Hr Hs Hb. pose proof (mq_alloc_spec Hr) as (mq1 & E1 & Hr1 & Hc1 & Hz1 & _).
  exists mq1. set (mq1' := if urgent then mq1 else _).
  assert (mq_rep mq1' q f (x :: g) /\ mq_contents mq1' q = mq_contents mq q /\ mq_msg_size mq1' = mq_msg_size mq)
    as (Hr1' & Hc1' & Hz1') by (unfold mq1'; destruct urgent; [done|]; split; [by apply mq_null_next|done]).
  destruct (mq_fill_spec mq1' q f g x buffer size Hr1') as (mq2 & d & E2 & Hr2 & Hd & Htk & Hc2 & Hn2 & Hz2); [lia|done|].
  exists mq2, d. split; [done|]. split; [done|].
  destruct (mr_data _ _ _ _ Hr2 x) as (d' & Hd' & Hl); [set_solver|]. simplify_eq. split; [split; [done|congruence]|].
  destruct urgent; simpl.
  - destruct (mq_link_head_spec _ _ _ _ _ Hr2) as [Hr3 Hc3]. exists (x :: q). split; [done|].
    split; [unfold mq_link_head; simpl; case_match; simpl; congruence|].
    rewrite Hc3, (mq_contents_cons _ _ _ _ Hd). congruence.
  - destruct (mq_link_tail_spec mq2 q f g x) as [Hr3 Hc3]; [done|rewrite Hn2; simpl; by rewrite lookup_insert_eq|].
    exists (q ++ [x]). split; [done|].
    split; [unfold mq_link_tail; repeat case_match; simpl; congruence|].
    rewrite Hc3, (mq_contents_snoc _ _ _ _ Hd). congruence.
Qed.

(** [rt_mq_send] and [rt_mq_urgent]. *)
Definition mq_posted (urgent : bool) (n : nat) (buffer : list Z) (size msz : Z) (msgs : list (list Z))
    (room : nat) (g : list nat) (s : kernel) (r : Z) (s' : kernel) : Prop :=
  if msz <? size then r = - RT_ERROR /\ s' = s
  else match room with
    | O => r = - RT_EFULL /\ s' = s
    | S room' => r = RT_EOK /\ wakes (mq_q n) (set_msgqueues (msgqueues s') s) s' /\
        exists d, slot_holds buffer size msz d /\
          mq_holds n s' msz (if urgent then d :: msgs else msgs ++ [d]) room' g
    end.

Lemma wp_mq_post urgent n buffer size msz msgs room g c s :
  kinv s -> rt_current_thread s = Some c -> object_typed (OMsgQueue n) RT_Object_Class_MessageQueue s ->
  mq_holds n s msz msgs room g -> 0 < size <= Z.of_nat (length buffer) ->
  wp (mq_post urgent n buffer size) (fun r s' => kinv s' /\ kframe (set_msgqueues (msgqueues s') s) s' /\
    mq_posted urgent n buffer size msz msgs room g s r s') s.
Proof.
  intros Hk Hc (x & Hx & Hty & Hf) (mq & q & f & Hmq & Hr & Hz & Hm & Hl) Hsz. unfold mq_post, get_mq, put_mq, mq_posted.
  assert (kframe (set_msgqueues (msgqueues s) s) s) as Hfs by (by destruct s).
  wp_norm. exists x. split_and!; [done..|]. wp_norm. split; [by destruct (Z.eqb_spec size 0); [lia|]|].
  rewrite wp_getso. exists mq. split; [done|]. rewrite Z.gtb_ltb, Hz. case_if; [by rewrite wp_ret|].
  wp_norm. rewrite wp_getso. pose proof (mq_alloc_spec Hr) as Hal.
  destruct f as [|y f]; simpl in Hl; subst room.
  { exists None. split; [done|]. by rewrite wp_ret. }
  destruct (mq_stored_spec urgent mq q y f g buffer size Hr) as (mq1 & mq2 & d & E1 & E2 & Hd & q' & Hr3 & Hz3 & Hc3); [lia|lia|].
  rewrite E1. eexists. split; [done|]. cbn iota beta. wp_norm. rewrite wp_getso. exists mq1.
  split; [simpl; apply lookup_insert_eq|]. wp_norm. rewrite wp_getso. exists mq2. split; [done|].
  wp_norm. rewrite wp_getso. exists mq2. split; [simpl; apply lookup_insert_eq|]. wp_norm.
  set (mq3 := if urgent then mq_link_head y mq2 else mq_link_tail y mq2) in *.
  match goal with |- wp _ _ ?st => replace st with (set_msgqueues (<[n := mq3]> (msgqueues s)) s)
    by (simpl; by rewrite !insert_insert_eq) end. set (s1 := set_msgqueues _ s).
  change (qget _ (mq_q n)) with (qget s1 (mq_q n)).
  assert (wp (e ← tlist_isempty (mq_q n); when (negb e) (rt_ipc_list_resume (mq_q n);; rt_schedule))
    (fun _ s' => kinv s' /\ wakes (mq_q n) s1 s' /\ kframe s1 s') s1) as W.
  { eapply (wp_wake _ c); [by apply kinv_set_msgqueues|done|apply wait_q_suspend|]. done. }
  rewrite wp_bind, wp_tlist_isempty in W. eapply wp_mono; [exact W|]. intros [] s3 (Hk3 & Hwk & Hfr). rewrite wp_ret.
  pose proof (kf_msgqueues _ _ Hfr) as Em. assert (set_msgqueues (msgqueues s3) s = s1) as -> by (by rewrite Em).
  split_and!; try done. exists d. split; [congruence|]. exists mq3, q', f. rewrite Em. simpl.
  rewrite lookup_insert_eq. split_and!; try done; [congruence|]. rewrite Hc3. by destruct urgent; subst.
Qed.

(** C26: [rt_mq_send] against the queue as a first-in first-out list of messages: a message that does
    not fit a slot gives [-RT_ERROR], a queue without a free slot [-RT_EFULL], both without effect; else
    the bytes are copied into a free slot, which joins the queue behind the other messages, and the first
    waiting receiver is woken. The pool is never corrupted: no slot is lost or shared. *)
Theorem rt_mq_send_spec n buffer size msz msgs room g c s :
  kinv s -> rt_current_thread s = Some c -> object_typed (OMsgQueue n) RT_Object_Class_MessageQueue s ->
  mq_holds n s msz msgs room g -> 0 < size <= Z.of_nat (length buffer) ->
  wp (rt_mq_send n buffer size) (fun r s' => kinv s' /\ kframe (set_msgqueues (msgqueues s') s) s' /\
    mq_posted false n buffer size msz msgs room g s r s') s.
Proof. apply wp_mq_post. Qed.

(** [rt_mq_urgent] is [rt_mq_send] except that the message becomes the next one to be received. *)
Theorem rt_mq_urgent_spec n buffer size msz msgs room g c s :
  kinv s -> rt_current_thread s = Some c -> object_typed (OMsgQueue n) RT_Object_Class_MessageQueue s ->
  mq_holds n s msz msgs room g -> 0 < size <= Z.of_nat (length buffer) ->
  wp (rt_mq_urgent n buffer size) (fun r s' => kinv s' /\ kframe (set_msgqueues (msgqueues s') s) s' /\
    mq_posted true n buffer size msz msgs room g s r s') s.
Proof. apply wp_mq_post. Qed.

(** ** Receiving *)

(** The frame of the wait. *)
Definition mq_frame_waiting (now : Z) (f : mq_frame) : mq_frame :=
  mkMqFrame (mqf_mq f) (mqf_size f) (mqf_thread f) (mqf_timeout f)
    (if mqf_timeout f >? 0 then now else mqf_tick_delta f).

(** What [mq_recv_loop] does on a queue with the messages [msgs]. *)
Inductive mq_recv_result (f : mq_frame) (t : nat) (msz : Z) (g : list nat) (s : kernel) :
    list (list Z) -> nat -> outcome (Z * option (list Z)) mq_frame -> kernel -> Prop :=
| mq_recv_done d msgs room s' :
    mq_holds (mqf_mq f) s' msz msgs (S room) g -> s' = set_msgqueues (msgqueues s') s ->
    mq_recv_result f t msz g s (d :: msgs) room
      (Ret (RT_EOK, Some (take (Z.to_nat (Z.min (mqf_size f) msz)) d))) s'
| mq_recv_empty th room s' :
    mqf_timeout f = 0 -> threads s !! t = Some th ->
    s' = set_threads (<[t := set_th_error (- RT_ETIMEOUT) th]> (threads s)) s ->
    mq_recv_result f t msz g s [] room (Ret (- RT_ETIMEOUT, None)) s'
| mq_recv_wait th room s' :
    mqf_timeout f ≠ 0 -> threads s !! t = Some th ->
    blocked_on (mq_q (mqf_mq f)) (ipc_obj_flag (OMsgQueue (mqf_mq f)) s) (mqf_timeout f) t
      (set_th_error RT_EOK th) (set_threads (<[t := set_th_error RT_EOK th]> (threads s)) s) s' ->
    mq_holds (mqf_mq f) s' msz [] room g ->
    mq_recv_result f t msz g s [] room (Block (mq_frame_waiting (rt_tick s) f)) s'.

(** Taking the oldest message out. *)
Lemma mq_taken_spec mq m q f g size :
  mq_rep mq (m :: q) f g -> 0 <= size ->
  exists mq1 d, mq_unlink_head mq = Some (m, mq1) /\ mq_contents mq (m :: q) = d :: mq_contents mq q /\
    let mq2 := set_mq_entry (u16 (mq_entry mq1 - 1)) mq1 in
    mq_read m size mq2 = Some (take (Z.to_nat (Z.min size (mq_msg_size mq))) d) /\
    mq_rep (mq_free m mq2) q (m :: f) g /\ mq_msg_size (mq_free m mq2) = mq_msg_size mq /\
    mq_contents (mq_free m mq2) q = mq_contents mq q.
Proof.
  intros Hr Hs. destruct (mq_unlink_head_spec _ _ _ _ _ Hr) as (mq1 & Eun & Hr1 & Ed & Ez).
  destruct (mr_data _ _ _ _ Hr m) as (d & Hd & Hl); [by left|]. exists mq1, d. split; [done|].
  split; [by apply mq_contents_cons|]. cbv zeta. destruct (mq_free_spec _ _ _ _ _ Hr1) as [Hr2 Hc2]. split_and!; try done.
  - unfold mq_read. simpl. rewrite Ed, Hd. simpl. rewrite Ez, Z.gtb_ltb. do 2 f_equal. case_if; lia.
  - rewrite Hc2. unfold mq_contents. simpl. by rewrite Ed.
Qed.

Lemma wp_mq_recv_loop f t th msz msgs room g s :
  kinv s -> object_typed (OMsgQueue (mqf_mq f)) RT_Object_Class_MessageQueue s ->
  mq_holds (mqf_mq f) s msz msgs room g -> mqf_thread f = Some t -> rt_current_thread s = Some t ->
  threads s !! t = Some th -> th_stat th = RT_THREAD_RUNNING -> rt_interrupt_nest s = 0 ->
  mqf_timeout f < TIMER_MAX -> 0 <= mqf_size f ->
  wp (mq_recv_loop f) (fun r s' => kinv s' /\ mq_recv_result f t msz g s msgs room r s') s.
Proof.
  intros Hk Hob Hh Hft Hc Ht Hst Hn Hti Hsz. pose proof Hh as (mq & q & fr & Hmq & Hr & Hz & Hm & Hl).
  unfold mq_recv_loop, get_mq, put_mq. rewrite wp_bind, wp_getso. exists mq. split; [done|].
  pose proof (mr_entry _ _ _ _ Hr) as He. destruct q as [|m q]; simpl in He; rewrite He.
  - subst msgs. cbn [mq_contents fmap list_fmap]. simpl Z.of_nat. rewrite Z.eqb_refl. wp_norm. split_and!; [by rewrite Hc|done|].
    rewrite wp_getso. exists t. split; [done|]. wp_norm. exists th. split; [done|].
    set (th1 := set_th_error RT_EOK th). set (s1 := set_threads _ s).
    pose proof (kinv_update_same 0 None s t th th1 Hk Ht ltac:(done)) as Hk1.
    assert (threads s1 !! t = Some th1) as Ht1 by (simpl; apply lookup_insert_eq).
    destruct (Z.eqb_spec (mqf_timeout f) 0) as [H0|H0]; wp_norm.
    + exists th1. split; [done|]. wp_norm.
      replace (set_threads _ s1) with (set_threads (<[t := set_th_error (- RT_ETIMEOUT) th]> (threads s)) s)
        by (unfold s1; simpl; by rewrite insert_insert_eq).
      split; [by apply (kinv_update_same 0 None s t th)|by eapply mq_recv_empty].
    + eapply (wp_ipc_wait _ _ _ t th1); [done|done|done|done|apply wait_q_suspend|exact Hob|done|].
      intros s' Hk' Hb. pose proof (gw_frame _ _ _ _ (bo_gone _ _ _ _ _ _ _ Hb)) as Hfr. wp_norm. split; [done|].
      change (rt_tick s1) with (rt_tick s). eapply mq_recv_wait; [done|done|exact Hb|].
      eapply mq_holds_eq; [|exact Hh]. by rewrite (kf_msgqueues _ _ Hfr).
  - destruct (Z.eqb_spec (Z.of_nat (S (length q))) 0) as [|_]; [lia|].
    destruct (mq_taken_spec mq m q fr g (mqf_size f) Hr Hsz) as (mq1 & d & Eun & Hcon & Erd & Hr2 & Hz2 & Hc2).
    rewrite wp_bind, wp_getso. exists (m, mq1). split; [done|]. wp_norm. rewrite wp_getso. eexists.
    split; [simpl; apply lookup_insert_eq|]. wp_norm. rewrite wp_getso. eexists. split; [exact Erd|]. wp_norm.
    rewrite wp_getso. eexists. split; [simpl; apply lookup_insert_eq|]. wp_norm.
    match goal with |- context [mq_free m ?x] => set (mq2 := mq_free m x) in * end.
    match goal with |- kinv ?st /\ _ => replace st with (set_msgqueues (<[mqf_mq f := mq2]> (msgqueues s)) s)
      by (simpl; by rewrite insert_insert_eq) end.
    split; [by apply kinv_set_msgqueues|]. subst msgs. rewrite Hcon, Hz. eapply mq_recv_done; [|done].
    exists mq2, q, (m :: fr). simpl. rewrite lookup_insert_eq. split_and!; try done; [exact (eq_trans Hz2 Hz)|simpl; lia].
Qed.

(** C27: [rt_mq_recv] by a running thread: it gets the oldest message, cut to its buffer, and the slot is
    free again; on an empty queue, a zero timeout gives [-RT_ETIMEOUT] without effect and any other one
    makes the receiver wait in the order of the queue's flag, with its timer armed if the wait is bounded. *)
Theorem rt_mq_recv_spec n size timeout t th msz msgs room g s :
  kinv s -> object_typed (OMsgQueue n) RT_Object_Class_MessageQueue s -> mq_holds n s msz msgs room g ->
  rt_current_thread s = Some t -> threads s !! t = Some th -> th_stat th = RT_THREAD_RUNNING ->
  rt_interrupt_nest s = 0 -> timeout < TIMER_MAX -> 0 < size ->
  wp (rt_mq_recv n size timeout) (fun r s' => kinv s' /\
    (mq_recv_result (mkMqFrame n size (Some t) timeout 0) t msz g s msgs room r s' \/
     timeout = 0 /\ msgs = [] /\ r = Ret (- RT_ETIMEOUT, None) /\ s' = s)) s.
Proof.
  intros Hk Hob Hh Hc Ht Hst Hn Hti Hsz. pose proof Hob as (x & Hx & Hty & Hf).
  pose proof Hh as (mq & q & fr & Hmq & Hr & Hz & Hm & Hl). pose proof (mr_entry _ _ _ _ Hr) as He.
  unfold rt_mq_recv, get_mq. wp_norm. exists x. split_and!; [done..|]. wp_norm.
  split; [by destruct (Z.eqb_spec size 0); [lia|]|]. rewrite Hc, wp_getso. exists mq. split; [done|].
  destruct (Z.eqb_spec (mq_entry mq) 0) as [H0|], (Z.eqb_spec timeout 0); cbn [andb].
  1: { rewrite wp_ret. split; [done|]. right. destruct q; [|simpl in He; lia]. by subst. }
  all: (eapply wp_mono; [eapply (wp_mq_recv_loop _ t th); try done; simpl; lia|]);
    intros r s' (? & ?); split; [done|by left].
Qed.

(** A receiver that is woken: an error of the wait (a timeout, or a reset, deleted or detached
    queue) is returned without effect; else it takes a message or, if another receiver has been faster,
    waits again for at most the rest of its time. *)
Theorem rt_mq_recv_resume_spec f t th msz msgs room g s :
  kinv s -> object_typed (OMsgQueue (mqf_mq f)) RT_Object_Class_MessageQueue s ->
  mq_holds (mqf_mq f) s msz msgs room g -> mqf_thread f = Some t -> rt_current_thread s = Some t ->
  threads s !! t = Some th -> th_stat th = RT_THREAD_RUNNING -> rt_interrupt_nest s = 0 ->
  mqf_timeout f < TIMER_MAX -> u32 (rt_tick s - mqf_tick_delta f) <= 2147483648 -> 0 <= mqf_size f ->
  wp (rt_mq_recv_resume f) (fun r s' => kinv s' /\
    (th_error th ≠ RT_EOK -> r = Ret (th_error th, None) /\ s' = s) /\
    (th_error th = RT_EOK -> exists f', mq_recv_result f' t msz g s msgs room r s' /\
       mqf_mq f' = mqf_mq f /\ mqf_size f' = mqf_size f /\
       mqf_timeout f' = if 0 <? mqf_timeout f
                        then Z.max 0 (mqf_timeout f - u32 (rt_tick s - mqf_tick_delta f))
                        else mqf_timeout f)) s.
Proof.
  intros Hk Hob Hh Hft Hc Ht Hst Hn Hti Hel Hsz. unfold rt_mq_recv_resume, rt_tick_get. wp_norm. rewrite wp_getso.
  exists t. split; [done|]. wp_norm. exists th. split; [done|].
  destruct (Z.eqb_spec (th_error th) RT_EOK) as [He|He]; cbn [negb]; wp_norm; [|by split_and!].
  set (f' := mq_frame_elapsed (rt_tick s) f).
  pose proof (uwrap_bound 32 (rt_tick s - mqf_tick_delta f) ltac:(lia)) as Hb.
  assert (mqf_timeout f' = if 0 <? mqf_timeout f then Z.max 0 (mqf_timeout f - u32 (rt_tick s - mqf_tick_delta f))
    else mqf_timeout f) as Etm.
  { unfold f', mq_frame_elapsed. rewrite Z.gtb_ltb. destruct (Z.ltb_spec 0 (mqf_timeout f)); [|done].
    simpl. by rewrite remaining_timeout_spec by lia. }
  assert (mqf_mq f' = mqf_mq f /\ mqf_thread f' = mqf_thread f /\ mqf_size f' = mqf_size f) as (Em & Eth & Es)
    by (unfold f', mq_frame_elapsed; destruct (_ >? _); done).
  eapply wp_mono; [apply (wp_mq_recv_loop f' t th msz msgs room g); rewrite ?Em, ?Es, ?Eth; try done|].
  { rewrite Etm. case_if; lia. }
  intros r s' (Hk' & Hres). split_and!; [done|done|]. intros _. by exists f'.
Qed.

(** A reset of a queue wakes every waiting receiver with [-RT_ERROR], discards every message and
    frees its slot; the loop over the messages ends. *)
Theorem rt_mq_control_reset n arg c msz msgs room g s :
  kinv s -> rt_current_thread s = Some c -> object_typed (OMsgQueue n) RT_Object_Class_MessageQueue s ->
  mq_holds n s msz msgs room g ->
  wp (rt_mq_control n RT_IPC_CMD_RESET arg) (fun r s' => kinv s' /\ r = RT_EOK /\
    mq_holds n s' msz [] (length msgs + room) g /\
    woken_all (mq_q n) (set_msgqueues (msgqueues s') s) s') s.
Proof.
  intros Hk Hc Hob Hh. pose proof Hob as (x & Hx & Hty & Hf). unfold rt_mq_control, get_mq, put_mq.
  wp_norm. exists x. split_and!; [done..|]. rewrite Z.eqb_refl. wp_norm.
  eapply (wp_ipc_list_resume_all 0 None); [done|apply wait_q_suspend|done|]. intros s1 Hk1 Hwa Hc1.
  pose proof (wa_frame _ _ _ Hwa) as Hfr. destruct Hh as (mq & q & f & Hmq & Hr & Hz & Hm & Hl).
  wp_norm. rewrite wp_getso. exists mq. split; [by rewrite (kf_msgqueues _ _ Hfr)|]. wp_norm. rewrite wp_getso.
  pose proof (mr_length Hr) as Hlen.
  destruct (mq_release_all_spec (S (Z.to_nat (mq_max_msgs mq))) (mq_entry mq) mq q f g) as (mq' & E & Hz' & Hr'); [by destruct mq|lia|].
  exists mq'. split; [done|]. wp_norm. set (s2 := set_msgqueues _ s1).
  eapply (wp_schedule 0 None c); [by apply kinv_set_msgqueues|exact (eq_trans Hc1 Hc)|]. intros s3 Hk3 Hrs _ _. wp_norm.
  pose proof (resched_kframe _ _ Hrs) as Hf3. pose proof (kf_msgqueues _ _ Hf3) as Em. split_and!; [done|done| |].
  - exists (set_mq_entry 0 mq'), [], (rev q ++ f). rewrite Em. simpl. rewrite (kf_msgqueues _ _ Hfr).
    rewrite lookup_insert_eq. split_and!; try done.
    + simpl. congruence.
    + rewrite length_app, length_rev. subst. unfold mq_contents. by rewrite length_fmap.
  - rewrite Em. eapply woken_all_resched; [apply wait_q_suspend| |exact Hrs].
    unfold s2. simpl. by apply woken_all_set_msgqueues.
Qed.

(** ** Examples *)

Definition demo_message : list Z := [1; 2; 3].

(** The queue 0 is fresh, with two slots of 4 bytes; the thread 7 waits for a message. The queue 1 has one
    message and one free slot. *)
Definition demo_queue : rt_messagequeue := mq_fresh 536870912 (repeat 0 16) 4 2.
Definition demo_queue1 : rt_messagequeue :=
  mkMq 4 2 1 (Some 1%nat) (Some 1%nat) (Some 0%nat)
    (list_to_map [(0%nat, None); (1%nat, None)])
    (list_to_map [(0%nat, [0; 0; 0; 0]); (1%nat, [5; 6; 7; 8])]) 536870928.
Definition demo_msgqueues : kernel :=
  set_msgqueues (list_to_map [(0%nat, demo_queue); (1%nat, demo_queue1)]) demo_kernel.

Lemma demo_msgqueues_inv : kinv demo_msgqueues.
Proof. apply kinv_set_msgqueues, demo_kernel_inv. Qed.

Lemma demo_queue_typed n : (n < 2)%nat -> object_typed (OMsgQueue n) RT_Object_Class_MessageQueue demo_msgqueues.
Proof. intros Hn. destruct n as [|[|n]]; [| |lia]; eexists; (split; [reflexivity|split; [reflexivity|by left]]). Qed.

Lemma demo_holds0 : mq_holds 0 demo_msgqueues 4 [] 2 [].
Proof.
  exists demo_queue, [], [1; 0]%nat. split_and!; [reflexivity| |reflexivity..].
  apply (mq_fresh_spec 536870912 (repeat 0 16) 4 2); [lia|lia|]. rewrite repeat_length. lia.
Qed.

Lemma demo_holds1 : mq_holds 1 demo_msgqueues 4 [[5; 6; 7; 8]] 1 [].
Proof.
  exists demo_queue1, [1%nat], [0%nat]. split_and!; [reflexivity| |reflexivity..].
  split; simpl; try done; try lia.
  - split; [done|]. by exists None.
  - split; [done|]. by exists None.
  - apply Permutation_swap.
  - intros i Hi. rewrite !elem_of_cons, elem_of_nil in Hi. destruct Hi as [->|[->|[]]]; by eexists.
  - intros i Hi. rewrite !elem_of_cons, elem_of_nil in Hi. destruct Hi as [->|[->|[]]]; eexists; by split.
Qed.

Lemma rt_mq_send_spec_witness :
  wp (rt_mq_send 0 demo_message 3) (fun r s' => kinv s' /\ kframe (set_msgqueues (msgqueues s') demo_msgqueues) s' /\
    mq_posted false 0 demo_message 3 4 [] 2 [] demo_msgqueues r s') demo_msgqueues.
Proof.
  apply (rt_mq_send_spec 0 demo_message 3 4 [] 2 [] 0%nat);
    [apply demo_msgqueues_inv|reflexivity|apply demo_queue_typed; lia|apply demo_holds0|simpl; lia].
Defined.

Lemma rt_mq_urgent_spec_witness :
  wp (rt_mq_urgent 1 demo_message 3) (fun r s' => kinv s' /\ kframe (set_msgqueues (msgqueues s') demo_msgqueues) s' /\
    mq_posted true 1 demo_message 3 4 [[5; 6; 7; 8]] 1 [] demo_msgqueues r s') demo_msgqueues.
Proof.
  apply (rt_mq_urgent_spec 1 demo_message 3 4 [[5; 6; 7; 8]] 1 [] 0%nat);
    [apply demo_msgqueues_inv|reflexivity|apply demo_queue_typed; lia|apply demo_holds1|simpl; lia].
Defined.

Lemma rt_mq_recv_spec_witness :
  wp (rt_mq_recv 1 2 0) (fun r s' => kinv s' /\
    (mq_recv_result (mkMqFrame 1 2 (Some 0%nat) 0 0) 0 4 [] demo_msgqueues [[5; 6; 7; 8]] 1 r s' \/
     0 = 0 /\ [[5; 6; 7; 8]] = [] /\ r = Ret (- RT_ETIMEOUT, None) /\ s' = demo_msgqueues)) demo_msgqueues.
Proof.
  apply (rt_mq_recv_spec 1 2 0 0 (demo_thread 0 RT_THREAD_RUNNING 10));
    [apply demo_msgqueues_inv|apply demo_queue_typed; lia|apply demo_holds1|reflexivity..|lia].
Defined.

Lemma rt_mq_recv_resume_spec_witness :
  let f := mkMqFrame 0 4 (Some 0%nat) 10 4294967286 in
  wp (rt_mq_recv_resume f) (fun r s' => kinv s' /\
    (th_error (demo_thread 0 RT_THREAD_RUNNING 10) ≠ RT_EOK ->
       r = Ret (th_error (demo_thread 0 RT_THREAD_RUNNING 10), None) /\ s' = demo_msgqueues) /\
    (th_error (demo_thread 0 RT_THREAD_RUNNING 10) = RT_EOK ->
       exists f', mq_recv_result f' 0 4 [] demo_msgqueues [] 2 r s' /\ mqf_mq f' = 0%nat /\ mqf_size f' = 4 /\
       mqf_timeout f' = if 0 <? 10 then Z.max 0 (10 - u32 (rt_tick demo_msgqueues - 4294967286)) else 10))
    demo_msgqueues.
Proof.
  apply (rt_mq_recv_resume_spec (mkMqFrame 0 4 (Some 0%nat) 10 4294967286) 0 (demo_thread 0 RT_THREAD_RUNNING 10));
    [apply demo_msgqueues_inv|apply demo_queue_typed; simpl; lia|apply demo_holds0|reflexivity..|vm_compute; discriminate|simpl; lia].
Defined.

Lemma rt_mq_control_reset_witness :
  wp (rt_mq_control 1 RT_IPC_CMD_RESET 0) (fun r s' => kinv s' /\ r = RT_EOK /\
    mq_holds 1 s' 4 [] (length [[5; 6; 7; 8]] + 1) [] /\
    woken_all (mq_q 1) (set_msgqueues (msgqueues s') demo_msgqueues) s') demo_msgqueues.
Proof.
  apply (rt_mq_control_reset 1 0 0%nat);
    [apply demo_msgqueues_inv|reflexivity|apply demo_queue_typed; lia|apply demo_holds1].
Defined.
