(* ===== verification/Ext.v ===== *)
(** The kernel extended by the state of a component above it: the component's routines call those of the
    kernel, which do not see that state. *)

From S2P Require Import Prelude RtDef Scheduler Timer Thread Kernel Ipc Life.

Record ext (T : Type) := mkExt { ext_val : T; ext_kernel : kernel }.
Arguments mkExt {T} _ _.
Arguments ext_val {T} _.
Arguments ext_kernel {T} _.

Abbreviation XM T := (stM (ext T)).

Section ext.
Context {T : Type}.
Implicit Types (r : ext T).

Definition set_val (v : T) r : ext T := mkExt v (ext_kernel r).
Definition set_kernel (s : kernel) r : ext T := mkExt (ext_val r) s.

(** A kernel routine called from the component. *)
Definition xlift {A} (m : M A) : XM T A := fun r =>
  match m (ext_kernel r) with Some (a, s) => Some (a, set_kernel s r) | None => None end.

Lemma wp_xlift {A} (m : M A) Q r : wp (xlift m) Q r <-> wp m (fun a s => Q a (set_kernel s r)) (ext_kernel r).
Proof. unfold wp, xlift. by destruct (m (ext_kernel r)) as [[a s]|]. Qed.

Lemma set_kernel_id r : set_kernel (ext_kernel r) r = r.
Proof. by destruct r. Qed.
Lemma set_kernel_set s s' r : set_kernel s (set_kernel s' r) = set_kernel s r.
Proof. done. Qed.
Lemma set_val_set v v' r : set_val v (set_val v' r) = set_val v r.
Proof. done. Qed.
Lemma set_kernel_val s v r : set_kernel s (set_val v r) = set_val v (set_kernel s r).
Proof. done. Qed.
Lemma kernel_set_kernel s r : ext_kernel (set_kernel s r) = s.
Proof. done. Qed.
Lemma kernel_set_val v r : ext_kernel (set_val v r) = ext_kernel r.
Proof. done. Qed.
Lemma val_set_kernel s r : ext_val (set_kernel s r) = ext_val r.
Proof. done. Qed.
Lemma val_set_val v r : ext_val (set_val v r) = v.
Proof. done. Qed.
End ext.

#[global] Hint Rewrite @wp_xlift @set_kernel_id @set_kernel_set @set_val_set @set_kernel_val @kernel_set_kernel @kernel_set_val
  @val_set_kernel @val_set_val : wp.

(** Objects by address. *)
Section objects.
Context {O : Type}.
Abbreviation OM := (XM (gmap nat O)).

Definition get_obj (n : nat) : OM O := getso (fun r => ext_val r !! n).
Definition put_obj (n : nat) (o : O) : OM unit := modify (fun r => set_val (<[n := o]> (ext_val r)) r).
Definition upd_obj (n : nat) (f : O -> O) : OM unit := o ← get_obj n; put_obj n (f o).

Lemma wp_get_obj n Q r : wp (get_obj n) Q r <-> exists o, ext_val r !! n = Some o /\ Q o r.
Proof. exact (wp_getso _ _ _). Qed.
Lemma wp_put_obj n o Q r : wp (put_obj n o) Q r <-> Q tt (set_val (<[n := o]> (ext_val r)) r).
Proof. done. Qed.
Lemma wp_upd_obj n f Q r : wp (upd_obj n f) Q r <-> exists o, ext_val r !! n = Some o /\ Q tt (set_val (<[n := f o]> (ext_val r)) r).
Proof. unfold upd_obj. by rewrite wp_bind, wp_get_obj. Qed.
End objects.

#[global] Hint Rewrite @wp_get_obj @wp_put_obj @wp_upd_obj : wp.

(** ** Waiting on a driver's list *)

(** The list [l'] after the thread [t] has joined [l]; [q] is its ring. *)
Record waits_on (q : qid) (time : Z) (t : nat) (th : thread) (s s' : kernel) : Prop := {
  wo_gone : gone_waiting t (set_th_error RT_EOK th) (set_threads (<[t := set_th_error RT_EOK th]> (threads s)) s) s';
  wo_joined : qget s' q = qget s q ++ [t];
  wo_queues : forall q', (forall p, q' ≠ QReady p) -> q' ≠ q -> qget s' q' = qget s q';
  wo_timer : if time >? 0 then timer_armed t time s' else OThreadTimer t ∉ rt_timer_list s';
  wo_runs : rt_scheduler_lock_nest s = 0 -> other_ready t s -> highest_running s' /\ rt_current_thread s' ≠ Some t;
}.

(** The steps that the drivers' blocking calls share: the error is cleared, the thread is suspended and joins the list at
    its end, its timer is started if the wait is bounded, and the scheduler runs. *)
Lemma wp_driver_wait q t th time s Q :
  kinv s -> rt_current_thread s = Some t -> threads s !! t = Some th -> th_stat th = RT_THREAD_RUNNING -> wait_q q -> time < TIMER_MAX ->
  (forall s', kinv s' -> waits_on q time t th s s' -> Q tt s') ->
  wp (upd_thread t (set_th_error RT_EOK)) (fun _ s1 => wp (rt_thread_suspend t) (fun _ s2 => wp (tlist_insert_before q t) (fun _ s3 =>
    rt_interrupt_nest s3 = rt_interrupt_nest s /\ rt_tick s3 = rt_tick s /\
    wp (when (time >? 0) (start_thread_timer t time)) (fun _ s4 => wp rt_schedule Q s4) s3) s2) s1) s.
Proof.
  intros Hk Hc Ht Hst Hw Hti HQ. rewrite wp_upd_thread. exists th. split; [done|].
  set (th' := set_th_error RT_EOK th). set (s1 := set_threads (<[t := th']> (threads s)) s).
  pose proof (kinv_update_same 0 None _ t th th' Hk Ht ltac:(done)) as Hk1.
  eapply (wp_thread_suspend 0 None t th'); [exact Hk1|simpl; apply lookup_insert_eq|by right|done|].
  intros tx Ex Hk2 Hno Hidle. rewrite wp_tlist_insert_before. split_and!; [done|done|]. unfold q_push_back.
  assert (forall q, qget (suspended t th' tx s1) q = qget s1 q) as Eq
    by (intros; eapply suspended_qget; [apply Hk1|simpl; apply lookup_insert_eq|done]).
  rewrite Eq. set (qs := <[q := qget s1 q ++ [t]]> (queues (suspended t th' tx s1))).
  assert (kinv (set_queues qs (suspended t th' tx s1))) as Hk3.
  { eapply kinv_wait; [exact Hk2|simpl; apply lookup_insert_eq|done|done|done|rewrite Eq; symmetry; apply Permutation_cons_append]. }
  eapply (wp_wait 0 q t th' tx (qget s1 q ++ [t]) time s1); [exact Hk3|lia|done|done|done|done| |].
  - intros q'. cbn [queues set_queues]. unfold qs. rewrite qlist_insert. case_decide; [done|]. apply Eq.
  - intros s' Hk' Hg Hq Hqo Htm Hrun. apply HQ; [done|]. split; [done|done|done|done|].
    intros Hl (u & uh & Hu & Huh & Hus). apply Hrun; [done|]. exists u, uh. split_and!; [done| |done]. simpl. by rewrite lookup_insert_ne.
Qed.

(** The first thread of a driver's list, if any, is woken and the scheduler runs. *)
Lemma wp_wake_first q c t l s (Q : unit -> kernel -> Prop) :
  kinv s -> rt_current_thread s = Some c -> wait_q q -> qget s q = t :: l ->
  (forall s', kinv s' -> wakes q s s' -> kframe s s' -> Q tt s') ->
  wp (rt_thread_resume t) (fun _ s1 => wp rt_schedule Q s1) s.
Proof.
  intros Hk Hc Hw Eq HQ.
  assert (wp (rt_ipc_list_resume q) (fun _ s1 => wp rt_schedule Q s1) s) as Hi.
  { eapply (wp_ipc_list_resume 0 None q t l); [done..|]. intros th s1 Ht Hst Hk1 Hwk Hq1 Hc1 _.
    eapply (wp_schedule 0 None c); [done|congruence|]. intros s2 Hk2 Hr _ Hh.
    pose proof (woken_resched _ _ _ _ _ Hwk Hr) as Hwk2. apply HQ; [done| |apply Hwk2].
    unfold wakes. rewrite Eq. split_and!; [by rewrite (rs_waits _ _ Hr) by (by apply wait_q_not_ready)|by exists th|].
    intros Hl. apply Hh; [|by eapply woken_runnable]. by rewrite (kf_lock _ _ (wk_frame _ _ _ _ Hwk)). }
  unfold rt_ipc_list_resume in Hi. rewrite wp_bind, wp_tlist_first in Hi. destruct Hi as (t' & l' & E & Hi).
  rewrite Eq in E. injection E as <- <-. rewrite wp_bind in Hi. eapply wp_mono; [exact Hi|]. intros r s1. by rewrite wp_ret.
Qed.

(** ** The end of a critical section *)

Lemma resched_runnable s s' : resched s s' -> runnable s' -> runnable s.
Proof.
  intros Hr (t & th & Ht & Hst). exists t. destruct (rs_thread _ _ Hr t) as [E|(th' & st & E1 & _ & ? & _)]; [|by exists th'].
  exists th. by rewrite <- E.
Qed.

Lemma wp_exit_critical c n s (Q : unit -> kernel -> Prop) :
  kinv s -> rt_current_thread s = Some c -> rt_scheduler_lock_nest s = n + 1 -> 0 <= n < 32767 ->
  (forall s', kinv s' -> resched (set_rt_scheduler_lock_nest n s) s' -> is_Some (rt_current_thread s') ->
     (n = 0 -> runnable s -> highest_running s') -> Q tt s') -> wp rt_exit_critical Q s.
Proof.
  intros Hk Hc Hl Hn HQ. unfold rt_exit_critical. wp_norm. rewrite Hl. replace (n + 1 - 1) with n by lia.
  replace (s16 n) with n by (symmetry; apply swrap_small; lia). simpl. destruct (Z.leb_spec n 0); wp_norm.
  - assert (n = 0) as -> by lia. eapply (wp_schedule 0 None c); [by apply kinv_set_lock, kinv_set_lock|done|]. intros s' Hk' Hr Hs Hh.
    apply HQ; [done|done|done|]. intros _ Hrun. by apply Hh.
  - apply HQ; [by apply kinv_set_lock|done|by exists c|lia].
Qed.
