(* ===== verification/Completion.v ===== *)
(** Completions (components/drivers/src/completion.c): one thread waits until another, or an interrupt, has done its work. *)

From S2P Require Import Prelude RtDef Object Scheduler Timer Thread Kernel Tick Ipc Ext.

(** [struct rt_completion]; its list is the ring [QDriver (RCompletion n)]. *)
Record rt_completion := mkCompletion { cp_flag : Z }.

Abbreviation CM := (XM (gmap nat rt_completion)).
Abbreviation RT_COMPLETED := 1.
Abbreviation RT_UNCOMPLETED := 0.
Abbreviation cp_q n := (QDriver (RCompletion n)).

(** ** Operations *)

Definition rt_completion_init (n : nat) : CM unit :=
  put_obj n (mkCompletion RT_UNCOMPLETED);;
  xlift (rt_ipc_object_init (cp_q n)).

(** The live variables of [rt_completion_wait] at its [rt_schedule()] are the completion and the thread. *)
Definition rt_completion_wait (n : nat) (timeout : Z) : CM (outcome Z (nat * nat)) :=
  thread ← xlift rt_thread_self;
  completion ← get_obj n;
  if negb (cp_flag completion =? RT_COMPLETED) then
    e ← xlift (tlist_isempty (cp_q n));
    RT_ASSERT e;;
    if timeout =? 0 then mret (Ret (- RT_ETIMEOUT))
    else
      t ← getso (fun _ => thread);
      xlift (upd_thread t (set_th_error RT_EOK));;
      xlift (rt_thread_suspend t);;
      xlift (tlist_insert_before (cp_q n) t);;
      xlift RT_DEBUG_NOT_IN_INTERRUPT;;
      xlift (when (timeout >? 0) (start_thread_timer t timeout));;
      xlift rt_schedule;;
      mret (Block (n, t))
  else
    put_obj n (mkCompletion RT_UNCOMPLETED);;
    mret (Ret RT_EOK).

Definition rt_completion_wait_resume (f : nat * nat) : CM Z :=
  th ← xlift (get_thread f.2);
  upd_obj f.1 (fun _ => mkCompletion RT_UNCOMPLETED);;
  mret (th_error th).

Definition rt_completion_done (n : nat) : CM unit :=
  completion ← get_obj n;
  if cp_flag completion =? RT_COMPLETED then mret tt
  else
    put_obj n (mkCompletion RT_COMPLETED);;
    e ← xlift (tlist_isempty (cp_q n));
    if negb e then
      t ← xlift (tlist_first (cp_q n));
      xlift (rt_thread_resume t);;
      xlift rt_schedule
    else mret tt.

(** ** The invariant *)

(** At most one thread waits, and none for a completion that is done. *)
Record cp_ok (n : nat) (r : ext (gmap nat rt_completion)) : Prop := {
  co_kernel : kinv (ext_kernel r);
  co_flag : exists c, ext_val r !! n = Some c /\ (cp_flag c = RT_COMPLETED -> qget (ext_kernel r) (cp_q n) = []);
  co_one : (length (qget (ext_kernel r) (cp_q n)) <= 1)%nat;
}.

(** The completion has been done and not yet been waited for. *)
Definition completed (n : nat) (r : ext (gmap nat rt_completion)) : Prop := cp_flag <$> (ext_val r !! n) = Some RT_COMPLETED.

Inductive cp_wait_result (n : nat) (timeout : Z) (t : nat) (th : thread) (r : ext (gmap nat rt_completion)) :
    outcome Z (nat * nat) -> ext (gmap nat rt_completion) -> Prop :=
| cp_wait_done :
    completed n r -> cp_wait_result n timeout t th r (Ret RT_EOK) (set_val (<[n := mkCompletion RT_UNCOMPLETED]> (ext_val r)) r)
| cp_wait_timeout : ~ completed n r -> timeout = 0 -> cp_wait_result n timeout t th r (Ret (- RT_ETIMEOUT)) r
| cp_wait_block s' :
    ~ completed n r -> timeout ≠ 0 -> waits_on (cp_q n) timeout t th (ext_kernel r) s' -> qget s' (cp_q n) = [t] ->
    cp_wait_result n timeout t th r (Block (n, t)) (set_kernel s' r).

(** [rt_completion_wait] by a running thread while no other waits: it returns at once, and takes the completion back, if that is done, or if
    the time is zero, and else waits. *)
Theorem rt_completion_wait_spec n timeout t th r :
  cp_ok n r -> qget (ext_kernel r) (cp_q n) = [] -> rt_current_thread (ext_kernel r) = Some t -> threads (ext_kernel r) !! t = Some th ->
  th_stat th = RT_THREAD_RUNNING -> rt_interrupt_nest (ext_kernel r) = 0 -> timeout < TIMER_MAX ->
  wp (rt_completion_wait n timeout) (fun o r' => cp_ok n r' /\ cp_wait_result n timeout t th r o r') r.
Proof.
  intros [Hk (c & Hc & Hf) Hone] Hq Hcur Ht Hst Hn Hti. unfold rt_completion_wait. wp_norm. exists c. split; [done|].
  destruct (Z.eqb_spec (cp_flag c) RT_COMPLETED) as [E|E]; simpl.
  { wp_norm. split; [|apply cp_wait_done; unfold completed; by rewrite Hc, <- E]. split; simpl; [done| |exact Hone].
    eexists. split; [apply lookup_insert_eq|]. done. }
  assert (~ completed n r) as Hnd by (unfold completed; rewrite Hc; intros [= ?]; done).
  wp_norm. rewrite Hq. split; [by apply bool_decide_eq_true|].
  destruct (Z.eqb_spec timeout 0) as [E0|E0].
  { wp_norm. split; [|by apply cp_wait_timeout]. split; [done|by exists c|done]. }
  rewrite Hcur. rewrite wp_bind, wp_getso. exists t. split; [done|]. rewrite wp_bind, wp_xlift.
  eapply wp_mono.
  { eapply (wp_driver_wait (cp_q n) t th timeout (ext_kernel r) (fun _ s' =>
      cp_ok n (set_kernel s' r) /\ cp_wait_result n timeout t th r (Block (n, t)) (set_kernel s' r))); [done..|auto with ipc|done|].
    intros s' Hk' Hw. pose proof (wo_joined _ _ _ _ _ _ Hw) as Hj. rewrite Hq in Hj. split; [|by apply cp_wait_block].
    split; simpl; [done| |by rewrite Hj]. exists c. by split. }
  intros [] s1 Hw1. wp_norm. eapply wp_mono; [exact Hw1|]. intros v s2 Hw2. wp_norm.
  rewrite wp_tlist_insert_before in Hw2. destruct Hw2 as (E1 & _ & Hw2). split; [by rewrite E1|]. wp_norm.
  eapply wp_mono; [exact Hw2|]. intros [] s3 Hw3. wp_norm. eapply wp_mono; [exact Hw3|]. intros [] s4 H4. by wp_norm.
Qed.

(** [rt_completion_done] marks the completion and wakes the waiting thread, if any; a completion that is done already
    stays as it is. *)
Theorem rt_completion_done_spec n c r :
  cp_ok n r -> rt_current_thread (ext_kernel r) = Some c ->
  wp (rt_completion_done n) (fun _ r' => cp_ok n r' /\ completed n r' /\ qget (ext_kernel r') (cp_q n) = [] /\
    (completed n r -> r' = r) /\ (~ completed n r -> wakes (cp_q n) (ext_kernel r) (ext_kernel r'))) r.
Proof.
  intros [Hk (k & Hc & Hf) Hone] Hcur. unfold rt_completion_done. wp_norm. exists k. split; [done|].
  destruct (Z.eqb_spec (cp_flag k) RT_COMPLETED) as [E|E].
  { assert (completed n r) as Hd by (unfold completed; by rewrite Hc, <- E). wp_norm. split_and!; [|done|by apply Hf|done|done].
    split; [done|by exists k|done]. }
  assert (~ completed n r) as Hnd by (unfold completed; rewrite Hc; intros [= ?]; done).
  assert (forall s', kinv s' -> qget s' (cp_q n) = [] -> cp_ok n (set_kernel s' (set_val (<[n := mkCompletion RT_COMPLETED]> (ext_val r)) r))) as Hok.
  { intros s' Hk' Hq'. split; cbn [ext_kernel ext_val set_kernel set_val]; [done| |rewrite Hq'; simpl; lia]. eexists. split; [apply lookup_insert_eq|done]. }
  assert (completed n (set_val (<[n := mkCompletion RT_COMPLETED]> (ext_val r)) r)) as Hd by (unfold completed; simpl; by rewrite lookup_insert_eq).
  wp_norm. destruct (qget (ext_kernel r) (cp_q n)) as [|t l] eqn:Eq.
  - rewrite bool_decide_eq_true_2 by done. simpl. wp_norm. split_and!; [|done|done|done|].
    + by apply (Hok (ext_kernel r)).
    + intros _. unfold wakes. by rewrite Eq.
  - rewrite bool_decide_eq_false_2 by done. simpl. wp_norm. exists t, l. split; [done|]. wp_norm.
    eapply wp_mono; [eapply (wp_wake_first (cp_q n) c t l _ (fun _ s' => kinv s' /\ wakes (cp_q n) (ext_kernel r) s')); [done|done|auto with ipc|done|by split]|].
    intros v s1 Hw1. wp_norm. eapply wp_mono; [exact Hw1|]. intros [] s2 [Hk2 Hw]. pose proof Hw as Hw0. unfold wakes in Hw0. rewrite Eq in Hw0.
    destruct Hw0 as (Hq2 & _ & _). destruct l; [|simpl in Hone; lia]. split_and!; [by apply (Hok s2)|done|done|done|done].
Qed.

(** A completed wait takes the completion back. *)
Lemma rt_completion_wait_resume_spec n t th r :
  cp_ok n r -> threads (ext_kernel r) !! t = Some th ->
  wp (rt_completion_wait_resume (n, t)) (fun v r' => v = th_error th /\ cp_ok n r' /\ ~ completed n r' /\ ext_kernel r' = ext_kernel r) r.
Proof.
  intros [Hk (k & Hc & Hf) Hone] Ht. unfold rt_completion_wait_resume. wp_norm. exists th. split; [done|]. wp_norm. exists k. split; [done|].
  wp_norm. split_and!; [done| |unfold completed; simpl; by rewrite lookup_insert_eq|done]. split; [done| |done].
  eexists. split; [apply lookup_insert_eq|done].
Qed.

(** A second thread must not wait. *)
Lemma rt_completion_wait_second n timeout k l r :
  ext_val r !! n = Some (mkCompletion RT_UNCOMPLETED) -> qget (ext_kernel r) (cp_q n) = k :: l -> rt_completion_wait n timeout r = None.
Proof.
  intros Hc Hq. unfold rt_completion_wait, get_obj, xlift, rt_thread_self, tlist_isempty, gets, getso, mbind, stM_bind, RT_ASSERT. simpl.
  rewrite Hc. simpl. by rewrite Hq.
Qed.

(** ** Examples *)

(** Nobody has done the completion 0. *)
Definition demo_completion : ext (gmap nat rt_completion) := mkExt {[0%nat := mkCompletion RT_UNCOMPLETED]} demo_kernel.

Lemma demo_completion_ok : cp_ok 0 demo_completion.
Proof. split; [apply demo_kernel_inv|eexists; split; [reflexivity|done]|vm_compute; lia]. Qed.

Lemma rt_completion_wait_spec_witness :
  wp (rt_completion_wait 0 5) (fun o r' => cp_ok 0 r' /\ cp_wait_result 0 5 0 (demo_thread 0 RT_THREAD_RUNNING 10) demo_completion o r') demo_completion.
Proof. apply rt_completion_wait_spec; [apply demo_completion_ok|reflexivity..]. Defined.

Lemma rt_completion_done_spec_witness :
  wp (rt_completion_done 0) (fun _ r' => cp_ok 0 r' /\ completed 0 r' /\ qget (ext_kernel r') (cp_q 0) = [] /\
    (completed 0 demo_completion -> r' = demo_completion) /\
    (~ completed 0 demo_completion -> wakes (cp_q 0) (ext_kernel demo_completion) (ext_kernel r'))) demo_completion.
Proof. apply (rt_completion_done_spec 0 0%nat); [apply demo_completion_ok|reflexivity]. Defined.

(** The completion is done between the timeout of a wait and the run of the thread that waited: the thread reports the
    timeout and takes the completion back, so that the next wait finds nothing. *)
Definition late_done : CM (outcome Z (nat * nat)) :=
  o ← rt_completion_wait 0 1;
  match o with
  | Block f =>
      xlift (@rt_tick_increase idle_timeouts 3);;
      rt_completion_done 0;;
      v ← rt_completion_wait_resume f;
      RT_ASSERT (v =? - RT_ETIMEOUT);;
      rt_completion_wait 0 0
  | Ret _ => rt_panic
  end.

Lemma late_done_is_lost : wp late_done (fun o _ => o = Ret (- RT_ETIMEOUT)) demo_completion.
Proof. by vm_compute. Qed.
