(* ===== verification/DataQueue.v ===== *)
(** Data queues (components/drivers/src/dataqueue.c): a ring of items between threads, with a low-water mark. *)

From S2P Require Import Prelude RtDef Object Scheduler Timer Thread Kernel Tick Ipc Life Mailbox Ext.

(** ** State *)

(** [struct rt_data_item]: the address of some data and its size. *)
Abbreviation data_item := (Z * Z)%type.

(** [struct rt_data_queue] without its two lists, the rings [QDriver (RPush n)] and [QDriver (RPop n)], and [evt_notify]. *)
Record data_queue := mkDataQueue {
  dq_size : Z;
  dq_lwm : Z;
  dq_get_index : Z;
  dq_put_index : Z;
  dq_queue : list data_item }.

Abbreviation DM := (XM (gmap nat data_queue)).
Abbreviation push_q n := (QDriver (RPush n)).
Abbreviation pop_q n := (QDriver (RPop n)).

Abbreviation RT_DATAQUEUE_EVENT_POP := 1.
Abbreviation RT_DATAQUEUE_EVENT_PUSH := 2.
Abbreviation RT_DATAQUEUE_EVENT_LWM := 3.

(** The [evt_notify] of the queues, which is code of their users; [None] is [RT_NULL]. *)
Class EvtNotify := evt_notify : nat -> option (Z -> DM unit).

(** A call at its [rt_schedule()]: it waits for the queue, or has the low-water mark to announce and then returns the item. *)
Inductive dq_frame :=
| DqPush (n : nat) (thread : option nat) (item : data_item) (timeout : Z)
| DqPop (n : nat) (thread : option nat) (timeout : Z)
| DqLwm (n : nat) (item : data_item).

(** ** Operations *)

(** [items] is the memory that [rt_malloc] returns, as it is. *)
Definition rt_data_queue_init (n : nat) (items : option (list data_item)) (size lwm : Z) : DM Z :=
  put_obj n (mkDataQueue size lwm 0 0 (default [] items));;
  xlift (rt_ipc_object_init (push_q n));;
  xlift (rt_ipc_object_init (pop_q n));;
  mret (if items then RT_EOK else - RT_ENOMEM).

(** [queue->queue[i % queue->size]] *)
Definition dq_item (i : Z) (q : data_queue) : option data_item :=
  if dq_size q =? 0 then None else dq_queue q !! Z.to_nat (i mod dq_size q).
Definition dq_set_item (i : Z) (x : data_item) (q : data_queue) : option data_queue :=
  if bool_decide (is_Some (dq_item i q)) then
    Some (mkDataQueue (dq_size q) (dq_lwm q) (dq_get_index q) (dq_put_index q) (<[Z.to_nat (i mod dq_size q) := x]> (dq_queue q)))
  else None.
Definition set_dq_put_index (v : Z) (q : data_queue) : data_queue := mkDataQueue (dq_size q) (dq_lwm q) (dq_get_index q) v (dq_queue q).
Definition set_dq_get_index (v : Z) (q : data_queue) : data_queue := mkDataQueue (dq_size q) (dq_lwm q) v (dq_put_index q) (dq_queue q).

Section operations.
Context `{EvtNotify}.

Definition notify (n : nat) (event : Z) : DM unit :=
  match evt_notify n with Some f => f event | None => mret tt end.

(** The wait that push and pop share. *)
Definition dq_wait (q : qid) (thread : option nat) (timeout : Z) : DM unit :=
  xlift RT_DEBUG_NOT_IN_INTERRUPT;;
  t ← getso (fun _ => thread);
  xlift (upd_thread t (set_th_error RT_EOK));;
  xlift (rt_thread_suspend t);;
  xlift (tlist_insert_before q t);;
  xlift (when (timeout >? 0) (start_thread_timer t timeout));;
  xlift rt_schedule.

(** From the test of the loop on. The indices are promoted to [int]. *)
Definition push_loop (n : nat) (thread : option nat) (item : data_item) (timeout : Z) : DM (outcome Z dq_frame) :=
  queue ← get_obj n;
  if dq_put_index queue - dq_get_index queue =? dq_size queue then
    if timeout =? 0 then mret (Ret (- RT_ETIMEOUT))
    else dq_wait (push_q n) thread timeout;; mret (Block (DqPush n thread item timeout))
  else
    queue ← getso (fun _ => dq_set_item (dq_put_index queue) item queue);
    put_obj n (set_dq_put_index (u16 (dq_put_index queue + 1)) queue);;
    e ← xlift (tlist_isempty (pop_q n));
    (if negb e then
       t ← xlift (tlist_first (pop_q n));
       xlift (rt_thread_resume t);;
       xlift rt_schedule
     else notify n RT_DATAQUEUE_EVENT_PUSH);;
    mret (Ret RT_EOK).

Definition rt_data_queue_push (n : nat) (item : data_item) (timeout : Z) : DM (outcome Z dq_frame) :=
  thread ← xlift rt_thread_self;
  push_loop n thread item timeout.

(** The result of a pop is an error code and the item. *)
Definition pop_loop (n : nat) (thread : option nat) (timeout : Z) : DM (outcome (Z * option data_item) dq_frame) :=
  queue ← get_obj n;
  if dq_get_index queue =? dq_put_index queue then
    if timeout =? 0 then mret (Ret (- RT_ETIMEOUT, None))
    else dq_wait (pop_q n) thread timeout;; mret (Block (DqPop n thread timeout))
  else
    item ← getso (fun _ => dq_item (dq_get_index queue) queue);
    let queue := set_dq_get_index (u16 (dq_get_index queue + 1)) queue in
    put_obj n queue;;
    if dq_put_index queue - dq_get_index queue <=? dq_lwm queue then
      e ← xlift (tlist_isempty (push_q n));
      if negb e then
        t ← xlift (tlist_first (push_q n));
        xlift (rt_thread_resume t);;
        xlift rt_schedule;;
        mret (Block (DqLwm n item))
      else
        notify n RT_DATAQUEUE_EVENT_LWM;;
        mret (Ret (RT_EOK, Some item))
    else
      notify n RT_DATAQUEUE_EVENT_POP;;
      mret (Ret (RT_EOK, Some item)).

Definition rt_data_queue_pop (n : nat) (timeout : Z) : DM (outcome (Z * option data_item) dq_frame) :=
  thread ← xlift rt_thread_self;
  pop_loop n thread timeout.

(** The rest of a push behind its [rt_schedule()]. *)
Definition rt_data_queue_push_resume (n : nat) (thread : option nat) (item : data_item) (timeout : Z) : DM (outcome Z dq_frame) :=
  t ← getso (fun _ => thread);
  th ← xlift (get_thread t);
  if negb (th_error th =? RT_EOK) then mret (Ret (th_error th)) else push_loop n thread item timeout.

(** The rest of a pop. *)
Definition rt_data_queue_pop_resume (f : dq_frame) : DM (outcome (Z * option data_item) dq_frame) :=
  match f with
  | DqPop n thread timeout =>
      t ← getso (fun _ => thread);
      th ← xlift (get_thread t);
      if negb (th_error th =? RT_EOK) then mret (Ret (th_error th, None)) else pop_loop n thread timeout
  | DqLwm n item => notify n RT_DATAQUEUE_EVENT_LWM;; mret (Ret (RT_EOK, Some item))
  | DqPush _ _ _ _ => rt_panic
  end.
End operations.

Definition rt_data_queue_peak (n : nat) : DM (Z * option data_item) :=
  queue ← get_obj n;
  if dq_get_index queue =? dq_put_index queue then mret (- RT_EEMPTY, None)
  else
    item ← getso (fun _ => dq_item (dq_get_index queue) queue);
    mret (RT_EOK, Some item).

(** The loops that wake the threads are that of [rt_ipc_list_resume_all]. *)
Definition rt_data_queue_reset (n : nat) : DM unit :=
  xlift rt_enter_critical;;
  xlift (rt_ipc_list_resume_all (pop_q n));;
  xlift (rt_ipc_list_resume_all (push_q n));;
  xlift rt_exit_critical;;
  xlift rt_schedule.

(** ** A bounded queue *)

(** The items [l], from the oldest on, as long as the indices have not wrapped. *)
Record dq_rep (l : list data_item) (q : data_queue) : Prop := {
  dr_size : 1 <= dq_size q < 65536;
  dr_length : Z.of_nat (length (dq_queue q)) = dq_size q;
  dr_get : 0 <= dq_get_index q;
  dr_put : dq_put_index q = dq_get_index q + Z.of_nat (length l) /\ dq_put_index q < 65536;
  dr_room : Z.of_nat (length l) <= dq_size q;
  dr_items : forall i x, l !! i = Some x -> dq_item (dq_get_index q + Z.of_nat i) q = Some x;
}.

Record dq_ok (n : nat) (l : list data_item) (r : ext (gmap nat data_queue)) : Prop := {
  do_kernel : kinv (ext_kernel r);
  do_queue : exists q, ext_val r !! n = Some q /\ dq_rep l q;
}.

Lemma dq_item_eq i q : 1 <= dq_size q -> dq_item i q = dq_queue q !! Z.to_nat (i mod dq_size q).
Proof. intros. unfold dq_item. destruct (Z.eqb_spec (dq_size q) 0); [lia|done]. Qed.

Lemma dq_push_rep l q x :
  dq_rep l q -> Z.of_nat (length l) < dq_size q -> dq_put_index q + 1 < 65536 ->
  exists q', dq_set_item (dq_put_index q) x q = Some q' /\ dq_put_index q' = dq_put_index q /\
    dq_rep (l ++ [x]) (set_dq_put_index (u16 (dq_put_index q + 1)) q').
Proof.
  intros [Hs Hl Hg [Hp Hp'] Hr Hi] Hroom Hput. unfold dq_set_item.
  pose proof (Z.mod_pos_bound (dq_put_index q) (dq_size q) ltac:(lia)) as Hm.
  destruct (lookup_lt_is_Some_2 (dq_queue q) (Z.to_nat (dq_put_index q mod dq_size q))) as [y Hy]; [lia|].
  rewrite bool_decide_eq_true_2 by (rewrite dq_item_eq by lia; by exists y). eexists. split_and!; [done|done|]. unfold set_dq_put_index. rewrite u16_small by lia.
  split; simpl; rewrite ?length_app, ?length_insert; simpl; try lia.
  intros i z Hz. rewrite dq_item_eq by (simpl; lia). simpl. apply lookup_app_Some in Hz as [Hz|[Hge Hz]].
  - pose proof (lookup_lt_Some _ _ _ Hz). rewrite list_lookup_insert_ne; [rewrite <- dq_item_eq by lia; by apply Hi|].
    rewrite Z2Nat.inj_iff by (apply Z.mod_pos_bound; lia). rewrite Hp. intros E. apply mod_inj in E; lia.
  - destruct (i - length l)%nat eqn:E; [|done]. injection Hz as <-. replace (dq_get_index q + Z.of_nat i) with (dq_put_index q) by lia.
    apply list_lookup_insert_eq. lia.
Qed.

Lemma dq_pop_rep x l q :
  dq_rep (x :: l) q -> dq_item (dq_get_index q) q = Some x /\ dq_rep l (set_dq_get_index (u16 (dq_get_index q + 1)) q).
Proof.
  intros [Hs Hl Hg [Hp Hp'] Hr Hi]. simpl in Hp, Hr. split.
  - rewrite <- (Z.add_0_r (dq_get_index q)). by apply (Hi 0%nat).
  - unfold set_dq_get_index. rewrite u16_small by lia. split; simpl; try lia. intros i z Hz.
    replace (dq_get_index q + 1 + Z.of_nat i) with (dq_get_index q + Z.of_nat (S i)) by lia. by apply (Hi (S i)).
Qed.

(** ** Push and pop *)

Section specs.
Context `{EvtNotify}.
(** The users' functions leave the system as it is. *)
Hypothesis quiet : forall n f e r, evt_notify n = Some f -> wp (f e) (fun _ r' => r' = r) r.

Lemma wp_notify n e Q r : Q tt r -> wp (notify n e) Q r.
Proof using quiet.
  intros HQ. unfold notify. destruct (evt_notify n) as [f|] eqn:E; [|done].
  eapply wp_mono; [by eapply quiet|]. by intros [] r' ->.
Qed.

Lemma wp_dq_wait q t th time Q r :
  kinv (ext_kernel r) -> rt_current_thread (ext_kernel r) = Some t -> threads (ext_kernel r) !! t = Some th ->
  th_stat th = RT_THREAD_RUNNING -> rt_interrupt_nest (ext_kernel r) = 0 -> wait_q q -> time < TIMER_MAX ->
  (forall s', kinv s' -> waits_on q time t th (ext_kernel r) s' -> Q tt (set_kernel s' r)) -> wp (dq_wait q (Some t) time) Q r.
Proof using.
  intros Hk Hc Ht Hst Hn Hw Hti HQ. unfold dq_wait. wp_norm. split; [done|]. wp_norm. rewrite wp_getso. exists t. split; [done|].
  rewrite wp_bind, wp_xlift. eapply wp_mono; [eapply (wp_driver_wait q t th time _ (fun _ s' => Q tt (set_kernel s' r))); [done..|exact HQ]|].
  intros [] s1 Hw1. wp_norm. eapply wp_mono; [exact Hw1|]. intros v s2 Hw2. wp_norm.
  rewrite wp_tlist_insert_before in Hw2. destruct Hw2 as (_ & _ & Hw2). eapply wp_mono; [exact Hw2|]. intros [] s3 Hw3. rewrite wp_xlift. eapply wp_mono; [exact Hw3|]. by intros [].
Qed.

(** What a push or a pop does to the waiting lists when it is over: the first thread that waits on [q], if [b], is woken. *)
Definition handed (b : bool) (q : qid) (s s' : kernel) : Prop := if b then wakes q s s' else s' = s.

(** The result of a push onto the items [l]. *)
Inductive dq_push_result (n : nat) (x : data_item) (timeout : Z) (t : nat) (th : thread) (l : list data_item) (r : ext (gmap nat data_queue)) :
    outcome Z dq_frame -> ext (gmap nat data_queue) -> Prop :=
| dq_pushed r' : dq_ok n (l ++ [x]) r' -> wakes (pop_q n) (ext_kernel r) (ext_kernel r') -> dq_push_result n x timeout t th l r (Ret RT_EOK) r'
| dq_push_timeout : timeout = 0 -> dq_ok n l r -> dq_push_result n x timeout t th l r (Ret (- RT_ETIMEOUT)) r
| dq_push_wait s' : timeout ≠ 0 -> dq_ok n l (set_kernel s' r) -> waits_on (push_q n) timeout t th (ext_kernel r) s' ->
    dq_push_result n x timeout t th l r (Block (DqPush n (Some t) x timeout)) (set_kernel s' r).


(** The result of a pop from the items [l]: the low-water mark may be left to announce. *)
Inductive dq_pop_result (n : nat) (lwm timeout : Z) (t : nat) (th : thread) (r : ext (gmap nat data_queue)) :
    list data_item -> outcome (Z * option data_item) dq_frame -> ext (gmap nat data_queue) -> Prop :=
| dq_popped x l r' : dq_ok n l r' ->
    handed (Z.of_nat (length l) <=? lwm) (push_q n) (ext_kernel r) (ext_kernel r') ->
    dq_pop_result n lwm timeout t th r (x :: l)
      (if (Z.of_nat (length l) <=? lwm) && negb (bool_decide (qget (ext_kernel r) (push_q n) = [])) then Block (DqLwm n x) else Ret (RT_EOK, Some x)) r'
| dq_pop_timeout : timeout = 0 -> dq_ok n [] r -> dq_pop_result n lwm timeout t th r [] (Ret (- RT_ETIMEOUT, None)) r
| dq_pop_wait s' : timeout ≠ 0 -> dq_ok n [] (set_kernel s' r) -> waits_on (pop_q n) timeout t th (ext_kernel r) s' ->
    dq_pop_result n lwm timeout t th r [] (Block (DqPop n (Some t) timeout)) (set_kernel s' r).

(** [rt_data_queue_pop] by a running thread takes the oldest item, and wakes the first thread that
    waits to push once the queue is down to its low-water mark; from an empty queue it fails at once for a zero timeout, and
    waits otherwise. *)
Theorem rt_data_queue_pop_spec n timeout t th l q r :
  dq_ok n l r -> ext_val r !! n = Some q ->
  rt_current_thread (ext_kernel r) = Some t -> threads (ext_kernel r) !! t = Some th -> th_stat th = RT_THREAD_RUNNING ->
  rt_interrupt_nest (ext_kernel r) = 0 -> timeout < TIMER_MAX ->
  wp (rt_data_queue_pop n timeout) (dq_pop_result n (dq_lwm q) timeout t th r l) r.
Proof using quiet.
  intros [Hk (q' & Eq & Hrep)] Hq Hc Ht Hst Hn Hti. assert (q' = q) as -> by congruence. unfold rt_data_queue_pop, pop_loop. wp_norm. exists q. split; [done|].
  pose proof (dr_put _ _ Hrep) as [Hp _]. rewrite Hc. destruct l as [|x l]; simpl in Hp.
  - destruct (Z.eqb_spec (dq_get_index q) (dq_put_index q)); [|lia]. destruct (Z.eqb_spec timeout 0) as [E0|E0].
    + wp_norm. apply dq_pop_timeout; [done|]. split; [done|by exists q].
    + wp_norm. eapply wp_dq_wait; [done..|auto with ipc|done|]. intros s' Hk' Hw. wp_norm. apply dq_pop_wait; [done| |done].
      split; [done|]. by exists q.
  - destruct (Z.eqb_spec (dq_get_index q) (dq_put_index q)); [lia|]. destruct (dq_pop_rep x l q Hrep) as [Ei Hrep'].
    pose proof (dr_put _ _ Hrep') as [Hp' _].
    wp_norm. rewrite wp_getso. exists x. split; [done|]. wp_norm. set (q1 := set_dq_get_index _ q) in *. change (dq_lwm q1) with (dq_lwm q).
    replace (dq_put_index q1 - dq_get_index q1) with (Z.of_nat (length l)) by lia.
    assert (forall s', kinv s' -> dq_ok n l (set_kernel s' (set_val (<[n := q1]> (ext_val r)) r))) as Hok.
    { intros s' Hk'. split; [done|]. exists q1. split; [apply lookup_insert_eq|done]. }
    pose proof (dq_popped n (dq_lwm q) timeout t th r x l) as Hfin. unfold handed in Hfin.
    destruct (Z.of_nat (length l) <=? dq_lwm q); simpl in Hfin.
    + wp_norm. destruct (qget (ext_kernel r) (push_q n)) as [|u m] eqn:Ew.
      * rewrite bool_decide_eq_true_2 in * by done. simpl in *. wp_norm. apply wp_notify. wp_norm. apply Hfin; [by apply (Hok (ext_kernel r))|]. unfold wakes. by rewrite Ew.
      * rewrite bool_decide_eq_false_2 in * by done. simpl in *. wp_norm. exists u, m. split; [done|]. wp_norm.
        eapply wp_mono; [eapply (wp_wake_first (push_q n) t u m _ (fun _ s' => kinv s' /\ wakes (push_q n) (ext_kernel r) s'));
          [done|done|auto with ipc|done|by split]|].
        intros v s1 Hw1. wp_norm. eapply wp_mono; [exact Hw1|]. intros [] s2 [Hk2 Hw]. wp_norm. by apply Hfin; [apply (Hok s2)|].
    + wp_norm. apply wp_notify. wp_norm. apply Hfin; [by apply (Hok (ext_kernel r))|done].
Qed.
End specs.

(** ** Reset *)

(** The thread [t] has been taken from its list with the error of a reset, and may run. *)
Definition reset_woken (s s' : kernel) (t : nat) : Prop :=
  exists th st, threads s !! t = Some th /\ threads s' !! t = Some (set_th_stat st (set_th_error (- RT_ERROR) th)) /\
    (st = RT_THREAD_READY \/ st = RT_THREAD_RUNNING).

Lemma reset_woken_shuffled s s1 s2 t : reset_woken s s1 t -> shuffled (threads s1 !! t) (threads s2 !! t) -> reset_woken s s2 t.
Proof.
  intros (th & st & E1 & E2 & Hst) [E3|(th2 & st2 & E3 & E4 & _ & Hst2)].
  - exists th, st. by rewrite E3.
  - exists th, st2. split_and!; [done| |done]. rewrite E4. rewrite E2 in E3. by injection E3 as <-.
Qed.

(** [rt_data_queue_reset] wakes every thread that waits to push or to pop with the error [-RT_ERROR], then the most urgent
    thread runs if the scheduler is not locked otherwise; the items stay in the queue. *)
Theorem rt_data_queue_reset_spec n c k r :
  kinv (ext_kernel r) -> rt_current_thread (ext_kernel r) = Some c -> rt_scheduler_lock_nest (ext_kernel r) = k -> 0 <= k < 32767 ->
  wp (rt_data_queue_reset n) (fun _ r' => ext_val r' = ext_val r /\ kinv (ext_kernel r') /\
    qget (ext_kernel r') (pop_q n) = [] /\ qget (ext_kernel r') (push_q n) = [] /\
    (forall t, t ∈ qget (ext_kernel r) (pop_q n) \/ t ∈ qget (ext_kernel r) (push_q n) -> reset_woken (ext_kernel r) (ext_kernel r') t) /\
    rt_scheduler_lock_nest (ext_kernel r') = k /\
    (k = 0 -> runnable (ext_kernel r') -> highest_running (ext_kernel r'))) r.
Proof.
  intros Hk Hc Hl Hb. unfold rt_data_queue_reset. wp_norm. unfold rt_enter_critical. wp_norm. rewrite Hl.
  replace (s16 (k + 1)) with (k + 1) by (symmetry; apply swrap_small; lia). set (s := ext_kernel r) in *.
  eapply wp_ipc_list_resume_all; [apply kinv_set_lock, Hk|auto with ipc|done|]. intros s1 Hk1 [Hw1 Ho1 He1 Hq1 Hf1] Hc1. simpl in Hw1, Ho1.
  wp_norm. eapply wp_ipc_list_resume_all; [apply Hk1|auto with ipc|done|]. intros s2 Hk2 [Hw2 Ho2 He2 Hq2 Hf2] Hc2. wp_norm.
  eapply (wp_exit_critical c k); [done|by rewrite Hc2, Hc1|by rewrite (kf_lock _ _ Hf2), (kf_lock _ _ Hf1)|done|].
  intros s3 Hk3 Hr3 [c3 Hc3] _. wp_norm. eapply (wp_schedule 0 None c3); [done|done|]. intros s4 Hk4 Hr4 _ Hh. wp_norm.
  assert (qget s1 (push_q n) = qget s (push_q n)) as Ep by (by rewrite Hq1).
  assert (resched (set_rt_scheduler_lock_nest k s2) s4) as Hr by (by etrans).
  assert (forall q, (forall p, q ≠ QReady p) -> qget s4 q = qget s2 q) as Hw by (intros q Hq; by rewrite (rs_waits _ _ Hr q Hq)).
  split_and!; [done|done|by rewrite Hw, Hq2|by rewrite Hw| |by rewrite (sf_lock _ _ (rs_frame _ _ Hr))| ].
  - intros t Ht. apply (reset_woken_shuffled s s2 s4); [|apply (rs_thread _ _ Hr)].
    destruct (decide (t ∈ qget s (push_q n))) as [Hin|Hout].
    + assert (t ∉ qget s (pop_q n)) as Hnp by (intros Hp; pose proof (qo_uniq _ _ _ _ (si_queue _ (ki_sched _ _ _ Hk)) _ _ _ Hp Hin); done).
      destruct (Hw2 t) as (th & st & E1 & E2 & Hst); [by rewrite Ep|]. destruct (Ho1 t Hnp) as [E|(th0 & st0 & E0 & _ & Hst0 & _)].
      * exists th, st. by rewrite <- E.
      * destruct (qo_loc _ _ _ _ (si_queue _ (ki_sched _ _ _ Hk)) _ _ Hin) as (_ & th1 & E3 & Hloc). simpl in E0, Hloc.
        rewrite E3 in E0. injection E0 as <-. rewrite Hloc in Hst0. by destruct Hst0.
    + destruct Ht as [Ht|Ht]; [|done]. apply (reset_woken_shuffled s s1 s2); [|apply Ho2; by rewrite Ep].
      exact (Hw1 t Ht).
  - intros H0 Hrun. apply Hh; [by rewrite (sf_lock _ _ (rs_frame _ _ Hr3))|]. by eapply resched_runnable.
Qed.

(** ** The wrap-around of the indices *)

#[local] Instance no_evt_notify : EvtNotify := fun _ => None.

(** A queue of four places, all free. *)
Definition demo_dataqueue (i : Z) (l : list data_item) : data_queue := mkDataQueue 4 0 i i l.

Definition push_pop (n : nat) (x : data_item) : DM unit :=
  o ← rt_data_queue_push n x 0;
  o' ← rt_data_queue_pop n 0;
  match o, o' with Ret v, Ret (v', y) => RT_ASSERT ((v =? RT_EOK) && (v' =? RT_EOK) && bool_decide (y = Some x)) | _, _ => rt_panic end.

Fixpoint push_pops (n k : nat) (x : data_item) : DM unit :=
  match k with O => mret tt | S k => push_pop n x;; push_pops n k x end.

(** What the kernel must be for a transfer that nobody waits for. *)
Definition nobody_waits (n : nat) (s : kernel) : Prop := qget s (push_q n) = [] /\ qget s (pop_q n) = [].

(** A push and a pop that nobody else takes part in. *)
Lemma wp_push_alone n q x y r :
  ext_val r !! n = Some q -> nobody_waits n (ext_kernel r) -> dq_put_index q - dq_get_index q ≠ dq_size q -> dq_item (dq_put_index q) q = Some y ->
  wp (rt_data_queue_push n x 0) (fun o r' => o = Ret RT_EOK /\
    r' = set_val (<[n := mkDataQueue (dq_size q) (dq_lwm q) (dq_get_index q) (u16 (dq_put_index q + 1))
      (<[Z.to_nat (dq_put_index q mod dq_size q) := x]> (dq_queue q))]> (ext_val r)) r) r.
Proof.
  intros Hq [_ Hpop] Hne Hy. unfold rt_data_queue_push, push_loop. wp_norm. exists q. split; [done|].
  destruct (Z.eqb_spec (dq_put_index q - dq_get_index q) (dq_size q)); [done|]. wp_norm. rewrite wp_getso. unfold dq_set_item.
  rewrite bool_decide_eq_true_2 by (by exists y). eexists. split; [done|]. wp_norm. rewrite Hpop. simpl. unfold notify. simpl. by wp_norm.
Qed.

Lemma wp_pop_alone n q x r :
  ext_val r !! n = Some q -> nobody_waits n (ext_kernel r) -> dq_get_index q ≠ dq_put_index q -> dq_item (dq_get_index q) q = Some x ->
  wp (rt_data_queue_pop n 0) (fun o r' => o = Ret (RT_EOK, Some x) /\
    r' = set_val (<[n := set_dq_get_index (u16 (dq_get_index q + 1)) q]> (ext_val r)) r) r.
Proof.
  intros Hq [Hpush _] Hne Hx. unfold rt_data_queue_pop, pop_loop. wp_norm. exists q. split; [done|].
  destruct (Z.eqb_spec (dq_get_index q) (dq_put_index q)); [done|]. wp_norm. rewrite wp_getso. exists x. split; [done|]. wp_norm.
  destruct (_ <=? _); wp_norm; rewrite ?Hpush; simpl; unfold notify; simpl; by wp_norm.
Qed.

Lemma wp_push_pop n i l x r :
  ext_val r !! n = Some (demo_dataqueue i l) -> 0 <= i < 65535 -> length l = 4%nat -> nobody_waits n (ext_kernel r) ->
  wp (push_pop n x) (fun _ r' => exists l', length l' = 4%nat /\ r' = set_val (<[n := demo_dataqueue (i + 1) l']> (ext_val r)) r) r.
Proof.
  intros Hq Hi Hl Hn. unfold push_pop. pose proof (Z.mod_pos_bound i 4 ltac:(lia)) as Hm.
  destruct (lookup_lt_is_Some_2 l (Z.to_nat (i mod 4))) as [y Hy]; [lia|].
  wp_norm. eapply wp_mono; [eapply (wp_push_alone n _ x y); [done|done|simpl; lia|exact Hy]|]. intros o r1 [-> ->]. simpl. rewrite u16_small by lia.
  wp_norm. eapply wp_mono; [eapply (wp_pop_alone n _ x); [apply lookup_insert_eq|done|simpl; lia|]|].
  { rewrite dq_item_eq by (simpl; lia). simpl. apply list_lookup_insert_eq. lia. }
  intros o r2 [-> ->]. wp_norm. rewrite bool_decide_eq_true_2 by done. split; [done|].
  eexists. split; [|rewrite insert_insert_eq; unfold set_dq_get_index; simpl; rewrite u16_small by lia; reflexivity]. by rewrite length_insert.
Qed.

Lemma wp_push_pops k n i l x r :
  ext_val r !! n = Some (demo_dataqueue i l) -> 0 <= i -> i + Z.of_nat k <= 65535 -> length l = 4%nat -> nobody_waits n (ext_kernel r) ->
  wp (push_pops n k x) (fun _ r' => exists l', length l' = 4%nat /\ r' = set_val (<[n := demo_dataqueue (i + Z.of_nat k) l']> (ext_val r)) r) r.
Proof.
  revert i l r. induction k as [|k IH]; intros i l r Hq Hi Hk Hl Hn; cbn [push_pops].
  - wp_norm. exists l. split; [done|]. rewrite Z.add_0_r, insert_id by done. by destruct r.
  - rewrite wp_bind. eapply wp_mono; [apply (wp_push_pop n i l x r); [done|lia|done..]|]. intros [] r1 (l1 & Hl1 & ->).
    eapply wp_mono; [apply (IH (i + 1) l1); [apply lookup_insert_eq|lia..|done|done]|]. intros [] r2 (l2 & Hl2 & ->).
    exists l2. split; [done|]. replace (i + Z.of_nat (S k)) with (i + 1 + Z.of_nat k) by lia. by rewrite val_set_val, set_val_set, insert_insert_eq.
Qed.

(** Five pushes, each of which must succeed, and a pop. *)
Definition overfill (n : nat) : DM (outcome (Z * option data_item) dq_frame) :=
  let push x := o ← rt_data_queue_push n (x, x) 0; match o with Ret v => RT_ASSERT (v =? RT_EOK) | Block _ => rt_panic end in
  push 1;; push 2;; push 3;; push 4;; push 5;; rt_data_queue_pop n 0.

Lemma wp_overfill n l r :
  ext_val r !! n = Some (demo_dataqueue 65534 l) -> length l = 4%nat -> nobody_waits n (ext_kernel r) ->
  wp (overfill n) (fun o _ => o = Ret (RT_EOK, Some (5, 5))) r.
Proof.
  intros Hq Hl [Hpush Hpop]. destruct l as [|a [|b [|c [|d []]]]]; try done. clear Hl.
  unfold overfill.
  do 5 (rewrite ?wp_bind; eapply wp_mono; [eapply wp_push_alone; [first [exact Hq|apply lookup_insert_eq]|done|done|done]|];
    intros ?o ?r [-> ->]; match goal with |- context [<[n := ?q]>] => let q' := eval vm_compute in q in change q with q' end;
    rewrite wp_assert; split; [done|]).
  eapply wp_mono; [eapply wp_pop_alone; [apply lookup_insert_eq|done|done|done]|]. by intros o r' [-> _].
Qed.

(** The indices of a data queue have 16 bits, but they are compared as [int]: once [put_index] has wrapped around, a full
    queue of four places takes a fifth item, which the next pop returns before all others. *)
Theorem data_queue_overwrites_after_wrap n (l : list data_item) r :
  length l = 4%nat ->
  wp (rt_data_queue_init n (Some l) 4 0;; push_pops n (Z.to_nat 65534) (0, 0);; overfill n) (fun o _ => o = Ret (RT_EOK, Some (5, 5))) r.
Proof.
  intros Hl. pose proof (Z2Nat.id 65534 ltac:(lia)) as Hk. revert Hk. generalize (Z.to_nat 65534). intros k Hk. unfold rt_data_queue_init. wp_norm. unfold rt_ipc_object_init. wp_norm. simpl. wp_norm.
  eapply wp_mono; [eapply (wp_push_pops k n 0 l); [apply lookup_insert_eq|lia..|done|]|]; rewrite ?Hk.
  - split; simpl; unfold qget; simpl; [rewrite lookup_insert_ne by done|]; by rewrite lookup_insert_eq.
  - intros [] r1 (l1 & Hl1 & ->). apply (wp_overfill n l1); [apply lookup_insert_eq|done|].
    split; simpl; unfold qget; simpl; [rewrite lookup_insert_ne by done|]; by rewrite lookup_insert_eq.
Qed.
Lemma data_queue_overwrites_after_wrap_witness :
  wp (rt_data_queue_init 0 (Some (replicate 4 (0, 0))) 4 0;; push_pops 0 (Z.to_nat 65534) (0, 0);; overfill 0) (fun o _ => o = Ret (RT_EOK, Some (5, 5)))
    (mkExt ∅ demo_kernel).
Proof. apply data_queue_overwrites_after_wrap. reflexivity. Defined.

(** ** Examples *)

(** A queue of two places that holds one item, in a system where nobody waits for it. *)
Definition demo_queues : ext (gmap nat data_queue) := mkExt {[0%nat := mkDataQueue 2 1 0 1 [(1, 8); (0, 0)]]} demo_kernel.

Lemma demo_queues_ok : dq_ok 0 [(1, 8)] demo_queues.
Proof.
  split; [apply demo_kernel_inv|]. eexists. split; [reflexivity|]. split; simpl; try lia. intros [|i] x; [|done]. by intros [= <-].
Qed.

(** Every user is told of every event, and does nothing about it. *)
Definition deaf_evt_notify : EvtNotify := fun _ => Some (fun _ => mret tt).


Lemma rt_data_queue_pop_spec_witness :
  wp (@rt_data_queue_pop deaf_evt_notify 0 5)
    (dq_pop_result 0 1 5 0 (demo_thread 0 RT_THREAD_RUNNING 10) demo_queues [(1, 8)]) demo_queues.
Proof.
  apply (@rt_data_queue_pop_spec deaf_evt_notify) with (q := mkDataQueue 2 1 0 1 [(1, 8); (0, 0)]); [|apply demo_queues_ok|reflexivity..].
  intros n f e r [= <-]. reflexivity.
Defined.
