(* ===== verification/RingBuffer.v ===== *)
(** The byte ring buffer of the device drivers (components/drivers/src/ringbuffer.c and its header). It keeps
    two indices with a mirror bit each: equal indices are an empty buffer in the same mirror and a full one
    in different mirrors. *)

From S2P Require Import Prelude RtDef.

(** ** Data *)

(** [struct rt_ringbuffer]; [rb_buffer] is the memory at [buffer_ptr]. *)
Record rt_ringbuffer := mkRb {
  rb_buffer : list Z;
  rb_read_mirror : Z;
  rb_read_index : Z;
  rb_write_mirror : Z;
  rb_write_index : Z;
  rb_size : Z }.
Definition set_rb_buffer (v : list Z) (r : rt_ringbuffer) : rt_ringbuffer :=
  mkRb v (rb_read_mirror r) (rb_read_index r) (rb_write_mirror r) (rb_write_index r) (rb_size r).
(** The read and the write position, as fields of one and of 15 bits. *)
Definition set_rb_read (mirror index : Z) (r : rt_ringbuffer) : rt_ringbuffer :=
  mkRb (rb_buffer r) (uwrap 1 mirror) (uwrap 15 index) (rb_write_mirror r) (rb_write_index r) (rb_size r).
Definition set_rb_write (mirror index : Z) (r : rt_ringbuffer) : rt_ringbuffer :=
  mkRb (rb_buffer r) (rb_read_mirror r) (rb_read_index r) (uwrap 1 mirror) (uwrap 15 index) (rb_size r).

Inductive rt_ringbuffer_state :=
| RT_RINGBUFFER_EMPTY
| RT_RINGBUFFER_FULL
| RT_RINGBUFFER_HALFFULL.

(** ** Operations *)

(** [memcpy(&dst[off], src, n)] and the bytes [memcpy(_, &src[off], n)] copies; a negative size is a huge
    unsigned one. *)
Definition copy_in (dst : list Z) (off : Z) (src : list Z) (n : Z) : option (list Z) :=
  if decide (0 <= n <= Z.of_nat (length src) /\ 0 <= off /\ off + n <= Z.of_nat (length dst))
  then Some (take (Z.to_nat off) dst ++ take (Z.to_nat n) src ++ drop (Z.to_nat (off + n)) dst) else None.
Definition copy_out (src : list Z) (off n : Z) : option (list Z) :=
  if decide (0 <= n /\ 0 <= off /\ off + n <= Z.of_nat (length src))
  then Some (take (Z.to_nat n) (drop (Z.to_nat off) src)) else None.

Definition rt_ringbuffer_status (rb : rt_ringbuffer) : rt_ringbuffer_state :=
  if rb_read_index rb =? rb_write_index rb then
    if rb_read_mirror rb =? rb_write_mirror rb then RT_RINGBUFFER_EMPTY else RT_RINGBUFFER_FULL
  else RT_RINGBUFFER_HALFFULL.

Definition rt_ringbuffer_data_len (rb : rt_ringbuffer) : Z :=
  match rt_ringbuffer_status rb with
  | RT_RINGBUFFER_EMPTY => 0
  | RT_RINGBUFFER_FULL => u32 (rb_size rb)
  | RT_RINGBUFFER_HALFFULL =>
      if rb_write_index rb >? rb_read_index rb then u32 (rb_write_index rb - rb_read_index rb)
      else u32 (rb_size rb - (rb_read_index rb - rb_write_index rb))
  end.

Definition rt_ringbuffer_space_len (rb : rt_ringbuffer) : Z := u32 (rb_size rb - rt_ringbuffer_data_len rb).

(** [pool] is the memory at the argument. *)
Definition rt_ringbuffer_init (pool : list Z) (size : Z) : option rt_ringbuffer :=
  if size >? 0 then Some (mkRb pool 0 0 0 0 (s16 (RT_ALIGN_DOWN size RT_ALIGN_SIZE))) else None.

Definition rt_ringbuffer_reset (rb : rt_ringbuffer) : rt_ringbuffer :=
  set_rb_write 0 0 (set_rb_read 0 0 rb).

Definition rt_ringbuffer_get_size (rb : rt_ringbuffer) : Z := u16 (rb_size rb).

(** The copy and the advance of the write position, common to [rt_ringbuffer_put] and
    [rt_ringbuffer_put_force]: the result says whether the position has changed the mirror. *)
Definition rb_write (rb : rt_ringbuffer) (ptr : list Z) (length : Z) : option (bool * rt_ringbuffer) :=
  let room := rb_size rb - rb_write_index rb in
  if room >? length then
    buf ← copy_in (rb_buffer rb) (rb_write_index rb) ptr length;
    Some (false, set_rb_write (rb_write_mirror rb) (rb_write_index rb + length) (set_rb_buffer buf rb))
  else
    buf ← copy_in (rb_buffer rb) (rb_write_index rb) ptr room;
    buf ← copy_in buf 0 (drop (Z.to_nat room) ptr) (length - room);
    Some (true, set_rb_write (Z.lnot (rb_write_mirror rb)) (length - room) (set_rb_buffer buf rb)).

(** [ptr] is the memory at the argument, at least [length] bytes. *)
Definition rt_ringbuffer_put (rb : rt_ringbuffer) (ptr : list Z) (length : Z) : option (Z * rt_ringbuffer) :=
  let size := u16 (rt_ringbuffer_space_len rb) in
  if size =? 0 then Some (0, rb)
  else
    let length := if size <? length then size else length in
    '(_, rb) ← rb_write rb ptr length;
    Some (length, rb).

Definition rt_ringbuffer_put_force (rb : rt_ringbuffer) (ptr : list Z) (length : Z)
    : option (Z * rt_ringbuffer) :=
  let space_length := u16 (rt_ringbuffer_space_len rb) in
  let ptr := if length >? rb_size rb then drop (Z.to_nat (length - rb_size rb)) ptr else ptr in
  let length := if length >? rb_size rb then u16 (rb_size rb) else length in
  '(wrapped, rb) ← rb_write rb ptr length;
  Some (length,
    if length >? space_length then
      set_rb_read (if wrapped : bool then Z.lnot (rb_read_mirror rb) else rb_read_mirror rb) (rb_write_index rb) rb
    else rb).

(** The second component of the result has the bytes stored at the argument. *)
Definition rt_ringbuffer_get (rb : rt_ringbuffer) (length : Z) : option (Z * list Z * rt_ringbuffer) :=
  let size := rt_ringbuffer_data_len rb in
  if size =? 0 then Some (0, [], rb)
  else
    let length := if size <? length then u16 size else length in
    let room := rb_size rb - rb_read_index rb in
    if room >? length then
      data ← copy_out (rb_buffer rb) (rb_read_index rb) length;
      Some (length, data, set_rb_read (rb_read_mirror rb) (rb_read_index rb + length) rb)
    else
      data1 ← copy_out (rb_buffer rb) (rb_read_index rb) room;
      data2 ← copy_out (rb_buffer rb) 0 (length - room);
      Some (length, data1 ++ data2, set_rb_read (Z.lnot (rb_read_mirror rb)) (length - room) rb).

(** [rb->buffer_ptr[rb->write_index] = ch]. *)
Definition rb_store (rb : rt_ringbuffer) (ch : Z) : option rt_ringbuffer :=
  if decide (Z.to_nat (rb_write_index rb) < length (rb_buffer rb))%nat
  then Some (set_rb_buffer (<[Z.to_nat (rb_write_index rb) := ch]> (rb_buffer rb)) rb) else None.

Definition rt_ringbuffer_putchar (rb : rt_ringbuffer) (ch : Z) : option (Z * rt_ringbuffer) :=
  if rt_ringbuffer_space_len rb =? 0 then Some (0, rb)
  else
    rb ← rb_store rb ch;
    Some (1, if rb_write_index rb =? rb_size rb - 1
             then set_rb_write (Z.lnot (rb_write_mirror rb)) 0 rb
             else set_rb_write (rb_write_mirror rb) (rb_write_index rb + 1) rb).

Definition rt_ringbuffer_putchar_force (rb : rt_ringbuffer) (ch : Z) : option (Z * rt_ringbuffer) :=
  let old_state := rt_ringbuffer_status rb in
  let full := match old_state with RT_RINGBUFFER_FULL => true | _ => false end in
  rb ← rb_store rb ch;
  Some (1,
    if rb_write_index rb =? rb_size rb - 1 then
      let rb := set_rb_write (Z.lnot (rb_write_mirror rb)) 0 rb in
      if full then set_rb_read (Z.lnot (rb_read_mirror rb)) (rb_write_index rb) rb else rb
    else
      let rb := set_rb_write (rb_write_mirror rb) (rb_write_index rb + 1) rb in
      if full then set_rb_read (rb_read_mirror rb) (rb_write_index rb) rb else rb).

(** The character stored at the argument, if one is. *)
Definition rt_ringbuffer_getchar (rb : rt_ringbuffer) : option (Z * option Z * rt_ringbuffer) :=
  if rt_ringbuffer_data_len rb =? 0 then Some (0, None, rb)
  else
    ch ← rb_buffer rb !! Z.to_nat (rb_read_index rb);
    Some (1, Some ch,
      if rb_read_index rb =? rb_size rb - 1
      then set_rb_read (Z.lnot (rb_read_mirror rb)) 0 rb
      else set_rb_read (rb_read_mirror rb) (rb_read_index rb + 1) rb).

(** [rt_malloc] is an argument: [rb_mem] tells whether the control block could be allocated, and [pool] is
    the fresh pool, if any. *)
Definition rt_ringbuffer_create (size : Z) (rb_mem : bool) (pool : option (list Z)) : option (option rt_ringbuffer) :=
  if size >? 0 then
    let size := u16 (RT_ALIGN_DOWN size RT_ALIGN_SIZE) in
    match rb_mem, pool with
    | true, Some pool => Some <$> rt_ringbuffer_init pool (s16 size)
    | _, _ => Some None
    end
  else None.

(** ** The buffer as a bounded queue of bytes *)

(** [data_len] in plain arithmetic. *)
Definition rb_len (rb : rt_ringbuffer) : Z :=
  if rb_read_mirror rb =? rb_write_mirror rb then rb_write_index rb - rb_read_index rb
  else rb_size rb - (rb_read_index rb - rb_write_index rb).

Definition is_bit (b : Z) : Prop := b = 0 \/ b = 1.

Record rb_wf (rb : rt_ringbuffer) : Prop := {
  rw_size : 0 < rb_size rb < 32768 /\ rb_size rb <= Z.of_nat (length (rb_buffer rb));
  rw_read : 0 <= rb_read_index rb < rb_size rb /\ is_bit (rb_read_mirror rb);
  rw_write : 0 <= rb_write_index rb < rb_size rb /\ is_bit (rb_write_mirror rb);
  rw_order : if rb_read_mirror rb =? rb_write_mirror rb then rb_read_index rb <= rb_write_index rb
             else rb_write_index rb <= rb_read_index rb;
}.

(** The byte at a position of the ring. *)
Definition rb_at (rb : rt_ringbuffer) (i : Z) : Z :=
  default 0 (rb_buffer rb !! Z.to_nat (i mod rb_size rb)).

(** The bytes in the buffer, oldest first. *)
Definition rb_contents (rb : rt_ringbuffer) : list Z :=
  (fun i => rb_at rb (rb_read_index rb + i)) <$> seqZ 0 (rb_len rb).

(** ** Positions *)

Lemma flip_bit b : is_bit b -> uwrap 1 (Z.lnot b) = 1 - b.
Proof. by intros [-> | ->]. Qed.

Lemma bit_eq_flip a b : is_bit a -> is_bit b -> (a =? 1 - b) = negb (a =? b).
Proof. by intros [-> | ->] [-> | ->]. Qed.

Lemma u15_small x : 0 <= x < 32768 -> uwrap 15 x = x.
Proof. apply (uwrap_small 15). Qed.

Section wf.
Context {rb : rt_ringbuffer}.
Hypothesis Hw : rb_wf rb.

Lemma rb_len_bound : 0 <= rb_len rb <= rb_size rb.
Proof.
  destruct Hw as [[H1 H2] [H3 H4] [H5 H6] H7]. unfold rb_len.
  destruct (rb_read_mirror rb =? rb_write_mirror rb); lia.
Qed.

(** [data_len] is the number of bytes in the buffer, and [space_len] the room. *)
Lemma data_len_spec : rt_ringbuffer_data_len rb = rb_len rb.
Proof.
  destruct Hw as [[H1 H2] [H3 H4] [H5 H6] H7]. unfold rt_ringbuffer_data_len, rt_ringbuffer_status, rb_len.
  destruct (Z.eqb_spec (rb_read_index rb) (rb_write_index rb)) as [E|E].
  - destruct (rb_read_mirror rb =? rb_write_mirror rb); [lia|]. rewrite uwrap_small; lia.
  - rewrite Z.gtb_ltb. destruct (Z.ltb_spec (rb_read_index rb) (rb_write_index rb)),
      (rb_read_mirror rb =? rb_write_mirror rb); rewrite uwrap_small; lia.
Qed.

Lemma space_len_spec : rt_ringbuffer_space_len rb = rb_size rb - rb_len rb.
Proof.
  pose proof rb_len_bound. destruct (rw_size _ Hw). unfold rt_ringbuffer_space_len.
  rewrite data_len_spec, uwrap_small; lia.
Qed.

Lemma length_contents : Z.of_nat (length (rb_contents rb)) = rb_len rb.
Proof. unfold rb_contents. rewrite length_fmap, length_seqZ. pose proof rb_len_bound. lia. Qed.

(** The write position is [rb_len] behind the read position. *)
Lemma rb_shift i : (rb_read_index rb + i - rb_write_index rb) mod rb_size rb = (i - rb_len rb) mod rb_size rb.
Proof.
  destruct Hw as [[H1 H2] [H3 H4] [H5 H6] H7]. unfold rb_len.
  destruct (rb_read_mirror rb =? rb_write_mirror rb); [f_equal; lia|].
  rewrite <- (Z.mod_add (i - _) 1) by lia. f_equal. lia.
Qed.

End wf.

(** ** Copies *)

Definition byte_at (buf : list Z) (j : Z) : Z := default 0 (buf !! Z.to_nat j).

Lemma copy_in_spec dst off src n :
  0 <= n <= Z.of_nat (length src) -> 0 <= off -> off + n <= Z.of_nat (length dst) ->
  exists buf, copy_in dst off src n = Some buf /\ length buf = length dst /\
    forall j, 0 <= j -> byte_at buf j = if (off <=? j) && (j <? off + n) then byte_at src (j - off) else byte_at dst j.
Proof.
  intros Hn Ho Hl. unfold copy_in. rewrite decide_True by lia. eexists. split; [done|]. split.
  { rewrite !length_app, !length_take, length_drop. lia. }
  intros j Hj. unfold byte_at. destruct (Z.leb_spec off j); cbn [andb].
  - rewrite lookup_app_r by (rewrite length_take; lia). rewrite length_take.
    destruct (Z.ltb_spec j (off + n)).
    + rewrite lookup_app_l by (rewrite length_take; lia). rewrite lookup_take_lt by lia. do 2 f_equal. lia.
    + rewrite lookup_app_r by (rewrite length_take; lia). rewrite length_take, lookup_drop. do 2 f_equal. lia.
  - rewrite lookup_app_l by (rewrite length_take; lia). by rewrite lookup_take_lt by lia.
Qed.

(** [rb_write] stores the bytes at the ring positions from the write position on and advances it,
    changing the mirror when it passes the end. *)
Definition advanced (n : Z) (buf : list Z) (rb : rt_ringbuffer) : rt_ringbuffer :=
  mkRb buf (rb_read_mirror rb) (rb_read_index rb)
    (if rb_size rb <=? rb_write_index rb + n then 1 - rb_write_mirror rb else rb_write_mirror rb)
    ((rb_write_index rb + n) mod rb_size rb) (rb_size rb).

Lemma rb_write_spec rb ptr n :
  rb_wf rb -> 0 <= n <= rb_size rb -> n <= Z.of_nat (length ptr) ->
  exists buf, rb_write rb ptr n = Some (rb_size rb <=? rb_write_index rb + n, advanced n buf rb) /\
    length buf = length (rb_buffer rb) /\
    forall i, byte_at buf (i mod rb_size rb) =
      let k := (i - rb_write_index rb) mod rb_size rb in if k <? n then byte_at ptr k else rb_at rb i.
Proof.
  intros [[H1 H2] [H3 H4] [H5 H6] H7] Hn Hp. unfold rb_write, advanced. rewrite Z.gtb_ltb.
  assert (forall i, (i - rb_write_index rb) mod rb_size rb =
    if rb_write_index rb <=? i mod rb_size rb then i mod rb_size rb - rb_write_index rb
    else i mod rb_size rb - rb_write_index rb + rb_size rb) as Hk.
  { intros i. rewrite <- Zminus_mod_idemp_l. pose proof (Z.mod_pos_bound i (rb_size rb) ltac:(lia)).
    destruct (Z.leb_spec (rb_write_index rb) (i mod rb_size rb)); [rewrite Z.mod_small; lia|].
    rewrite <- (Z.mod_add _ 1) by lia. rewrite Z.mod_small; lia. }
  destruct (Z.ltb_spec n (rb_size rb - rb_write_index rb)) as [Hr|Hr].
  - destruct (copy_in_spec (rb_buffer rb) (rb_write_index rb) ptr n) as (buf & E & El & Eb); [lia..|].
    rewrite E. exists buf. simpl. rewrite (proj2 (Z.leb_gt _ _)) by lia. split; [|split; [done|]].
    + unfold set_rb_write. simpl. rewrite Z.mod_small, u15_small by lia.
      destruct H6 as [-> | ->]; done.
    + intros i. cbv zeta. rewrite Hk. pose proof (Z.mod_pos_bound i (rb_size rb) ltac:(lia)).
      rewrite Eb by lia. unfold rb_at. fold (byte_at (rb_buffer rb) (i mod rb_size rb)).
      destruct (Z.leb_spec (rb_write_index rb) (i mod rb_size rb)); cbn [andb]; repeat case_if; done || lia.
  - set (room := rb_size rb - rb_write_index rb) in *.
    destruct (copy_in_spec (rb_buffer rb) (rb_write_index rb) ptr room) as (buf1 & E1 & El1 & Eb1); [lia..|].
    destruct (copy_in_spec buf1 0 (drop (Z.to_nat room) ptr) (n - room)) as (buf & E & El & Eb);
      [rewrite length_drop; lia|lia|lia|].
    rewrite E1. simpl. rewrite E. simpl. exists buf. rewrite (proj2 (Z.leb_le _ _)) by lia. split; [|split; [congruence|]].
    + unfold set_rb_write. simpl. rewrite flip_bit by done. rewrite u15_small by lia.
      rewrite <- (Z.mod_add _ (-1)) by lia. rewrite Z.mod_small by lia. do 3 f_equal. lia.
    + intros i. cbv zeta. rewrite Hk. pose proof (Z.mod_pos_bound i (rb_size rb) ltac:(lia)).
      rewrite Eb, Eb1 by lia. unfold rb_at. fold (byte_at (rb_buffer rb) (i mod rb_size rb)).
      destruct (Z.leb_spec 0 (i mod rb_size rb)); [|lia]. cbn [andb].
      destruct (Z.ltb_spec (i mod rb_size rb) (0 + (n - room))).
      * unfold byte_at at 1. rewrite lookup_drop.
        assert (i mod rb_size rb - rb_write_index rb + rb_size rb = room + (i mod rb_size rb)) as Ek by lia.
        destruct (Z.leb_spec (rb_write_index rb) (i mod rb_size rb)); [lia|].
        rewrite (proj2 (Z.ltb_lt _ _)) by lia. unfold byte_at. do 2 f_equal. lia.
      * destruct (Z.leb_spec (rb_write_index rb) (i mod rb_size rb)); cbn [andb]; repeat case_if; done || lia.
Qed.

Lemma advanced_index rb n :
  rb_wf rb -> 0 <= n <= rb_size rb ->
  (rb_write_index rb + n) mod rb_size rb =
  if rb_size rb <=? rb_write_index rb + n then rb_write_index rb + n - rb_size rb else rb_write_index rb + n.
Proof.
  intros [[H1 H2] _ [H5 H6] _] Hn. destruct (Z.leb_spec (rb_size rb) (rb_write_index rb + n)).
  - rewrite <- (Z.mod_add _ (-1)) by lia. rewrite Z.mod_small; lia.
  - rewrite Z.mod_small; lia.
Qed.

Lemma is_bit_flip b : is_bit b -> is_bit (1 - b).
Proof. intros [-> | ->]; [by right|by left]. Qed.

(** The position advances within the room. *)
Lemma advanced_wf rb n buf :
  rb_wf rb -> 0 <= n -> rb_len rb + n <= rb_size rb -> length buf = length (rb_buffer rb) ->
  rb_wf (advanced n buf rb) /\ rb_len (advanced n buf rb) = rb_len rb + n.
Proof.
  intros Hw Hn Hl Hb. pose proof (rb_len_bound Hw) as Hlb. pose proof (advanced_index rb n Hw ltac:(lia)) as Ei.
  destruct Hw as [[H1 H2] [H3 H4] [H5 H6] H7].
  assert (forall b : bool, is_bit (if b then 1 - rb_write_mirror rb else rb_write_mirror rb)) as Hbit
    by (intros []; [by apply is_bit_flip|done]).
  unfold rb_len in *. split; [split|]; simpl; rewrite ?Ei.
  - lia.
  - done.
  - split; [|done]. destruct (Z.leb_spec (rb_size rb) (rb_write_index rb + n)); lia.
  - destruct (Z.leb_spec (rb_size rb) (rb_write_index rb + n)); rewrite ?bit_eq_flip by done;
      destruct (rb_read_mirror rb =? rb_write_mirror rb); simpl; lia.
  - destruct (Z.leb_spec (rb_size rb) (rb_write_index rb + n)); rewrite ?bit_eq_flip by done;
      destruct (rb_read_mirror rb =? rb_write_mirror rb); simpl; lia.
Qed.

(** The bytes of the ring by position. *)
Lemma contents_lookup rb i :
  rb_wf rb -> 0 <= i < rb_len rb -> rb_contents rb !! Z.to_nat i = Some (rb_at rb (rb_read_index rb + i)).
Proof.
  intros Hw Hi. unfold rb_contents. rewrite list_lookup_fmap, lookup_seqZ_lt by lia. simpl. do 2 f_equal. lia.
Qed.

(** What the ring holds after [n] bytes have been stored behind the write position: the last [len'] of the old
    bytes followed by the new ones. *)
Lemma stored_contents rb ptr n buf len' :
  rb_wf rb -> 0 <= n <= Z.of_nat (length ptr) -> n <= rb_size rb -> 0 <= len' <= rb_len rb + n -> len' <= rb_size rb ->
  (forall i, byte_at buf (i mod rb_size rb) =
      let k := (i - rb_write_index rb) mod rb_size rb in if k <? n then byte_at ptr k else rb_at rb i) ->
  (fun i => byte_at buf ((rb_read_index rb + (rb_len rb + n - len') + i) mod rb_size rb)) <$> seqZ 0 len' =
  drop (Z.to_nat (rb_len rb + n - len')) (rb_contents rb ++ take (Z.to_nat n) ptr).
Proof.
  intros Hw Hp Hn Hl1 Hl2 Hbuf. pose proof (rb_len_bound Hw) as Hlb. pose proof (length_contents Hw) as Hlc.
  set (r0 := rb_len rb + n - len'). apply list_eq. intros i. rewrite lookup_drop, list_lookup_fmap.
  destruct (decide (Z.of_nat i < len')) as [Hi|Hi].
  2: { rewrite lookup_seqZ_ge by lia. simpl. symmetry. apply lookup_ge_None. rewrite length_app, length_take. lia. }
  rewrite lookup_seqZ_lt by lia. simpl. rewrite Hbuf. cbv zeta.
  replace (rb_read_index rb + r0 + (0 + Z.of_nat i)) with (rb_read_index rb + (r0 + Z.of_nat i)) by lia.
  destruct (Z_lt_le_dec (r0 + Z.of_nat i) (rb_len rb)) as [Hold|Hnew].
  - rewrite lookup_app_l by lia. replace (Z.to_nat r0 + i)%nat with (Z.to_nat (r0 + Z.of_nat i)) by lia.
    rewrite contents_lookup by (done || lia). rewrite (rb_shift Hw), <- (Z.mod_add _ 1) by lia.
    rewrite Z.mod_small by lia. by rewrite (proj2 (Z.ltb_ge _ _)) by lia.
  - rewrite lookup_app_r by lia. rewrite lookup_take_lt by lia. rewrite (rb_shift Hw).
    assert (0 <= r0 + Z.of_nat i - rb_len rb < n) as Hk by lia.
    destruct (Z_lt_le_dec (r0 + Z.of_nat i - rb_len rb) (rb_size rb)); [|lia].
    rewrite Z.mod_small by lia. rewrite (proj2 (Z.ltb_lt _ _)) by lia. unfold byte_at.
    replace (Z.to_nat r0 + i - length (rb_contents rb))%nat with (Z.to_nat (r0 + Z.of_nat i - rb_len rb)) by lia.
    destruct (lookup_lt_is_Some_2 ptr (Z.to_nat (r0 + Z.of_nat i - rb_len rb))) as [x Hx]; [lia|]. by rewrite Hx.
Qed.

(** ** Putting and getting *)

(** [rb_write] within the room. *)
Lemma rb_write_room rb ptr n :
  rb_wf rb -> 0 <= n -> rb_len rb + n <= rb_size rb -> n <= Z.of_nat (length ptr) ->
  exists b rb', rb_write rb ptr n = Some (b, rb') /\ rb_wf rb' /\ rb_size rb' = rb_size rb /\
    rb_contents rb' = rb_contents rb ++ take (Z.to_nat n) ptr.
Proof.
  intros Hw Hn Hl Hp. pose proof (rb_len_bound Hw).
  destruct (rb_write_spec rb ptr n Hw) as (buf & E & Eb & Hbuf); [lia|done|]. eexists _, _. split; [exact E|].
  destruct (advanced_wf rb n buf Hw Hn Hl Eb) as [Hw' Hl']. split; [done|]. split; [done|].
  pose proof (stored_contents rb ptr n buf (rb_len rb + n) Hw ltac:(lia) ltac:(lia) ltac:(lia) ltac:(lia) Hbuf) as Hs.
  rewrite Z.sub_diag in Hs. change (Z.to_nat 0) with 0%nat in Hs. rewrite drop_0 in Hs. rewrite <- Hs.
  unfold rb_contents at 1. rewrite Hl'.
  apply list_fmap_ext. intros k i _. unfold rb_at, byte_at. simpl. do 4 f_equal. lia.
Qed.

(** C31: [rt_ringbuffer_put] appends as much of the data as there is room for and returns how much that is;
    it never writes outside of the buffer and keeps it well formed. *)
Theorem rt_ringbuffer_put_spec rb ptr len :
  rb_wf rb -> 0 <= len < 65536 -> len <= Z.of_nat (length ptr) ->
  let n := Z.min len (rb_size rb - rb_len rb) in
  exists rb', rt_ringbuffer_put rb ptr len = Some (n, rb') /\ rb_wf rb' /\ rb_size rb' = rb_size rb /\
    rb_contents rb' = rb_contents rb ++ take (Z.to_nat n) ptr.
Proof.
  intros Hw Hlen Hp n. pose proof (rb_len_bound Hw). pose proof (proj1 (rw_size _ Hw)). unfold rt_ringbuffer_put.
  rewrite (space_len_spec Hw), uwrap_small by lia. case_if.
  - exists rb. assert (n = 0) as -> by lia. simpl. by rewrite app_nil_r.
  - assert ((if rb_size rb - rb_len rb <? len then rb_size rb - rb_len rb else len) = n) as -> by (case_if; lia).
    destruct (rb_write_room rb ptr n Hw) as (b & rb' & E & Hw' & Es & Ec); [lia..|]. rewrite E. by exists rb'.
Qed.

(** The read position after [n] bytes have been taken. *)
Definition consumed (n : Z) (rb : rt_ringbuffer) : rt_ringbuffer :=
  mkRb (rb_buffer rb) (if rb_size rb <=? rb_read_index rb + n then 1 - rb_read_mirror rb else rb_read_mirror rb)
    ((rb_read_index rb + n) mod rb_size rb) (rb_write_mirror rb) (rb_write_index rb) (rb_size rb).

Lemma consumed_index rb n :
  rb_wf rb -> 0 <= n <= rb_size rb ->
  (rb_read_index rb + n) mod rb_size rb =
  if rb_size rb <=? rb_read_index rb + n then rb_read_index rb + n - rb_size rb else rb_read_index rb + n.
Proof.
  intros [[H1 H2] [H5 H6] _ _] Hn. destruct (Z.leb_spec (rb_size rb) (rb_read_index rb + n)).
  - rewrite <- (Z.mod_add _ (-1)) by lia. rewrite Z.mod_small; lia.
  - rewrite Z.mod_small; lia.
Qed.

Lemma consumed_wf rb n :
  rb_wf rb -> 0 <= n <= rb_len rb -> rb_wf (consumed n rb) /\ rb_len (consumed n rb) = rb_len rb - n.
Proof.
  intros Hw Hn. pose proof (rb_len_bound Hw) as Hlb. pose proof (consumed_index rb n Hw ltac:(lia)) as Ei.
  destruct Hw as [[H1 H2] [H3 H4] [H5 H6] H7].
  assert (forall b : bool, is_bit (if b then 1 - rb_read_mirror rb else rb_read_mirror rb)) as Hbit
    by (intros []; [by apply is_bit_flip|done]).
  unfold rb_len in *. split; [split|]; simpl; rewrite ?Ei.
  - lia.
  - split; [|done]. destruct (Z.leb_spec (rb_size rb) (rb_read_index rb + n)); lia.
  - done.
  - destruct (Z.leb_spec (rb_size rb) (rb_read_index rb + n)); rewrite ?(Z.eqb_sym (1 - _)), ?bit_eq_flip, 1?Z.eqb_sym by done;
      destruct (rb_read_mirror rb =? rb_write_mirror rb) eqn:E; rewrite 1?Z.eqb_sym, ?E; simpl; lia.
  - destruct (Z.leb_spec (rb_size rb) (rb_read_index rb + n)); rewrite ?(Z.eqb_sym (1 - _)), ?bit_eq_flip, 1?Z.eqb_sym by done;
      destruct (rb_read_mirror rb =? rb_write_mirror rb) eqn:E; rewrite 1?Z.eqb_sym, ?E; simpl; lia.
Qed.

(** Taking [n] bytes leaves the others. *)
Lemma consumed_contents rb n :
  rb_wf rb -> 0 <= n <= rb_len rb -> rb_contents (consumed n rb) = drop (Z.to_nat n) (rb_contents rb).
Proof.
  intros Hw Hn. destruct (consumed_wf rb n Hw Hn) as [Hw' Hl]. pose proof (length_contents Hw).
  pose proof (length_contents Hw'). pose proof (proj1 (rw_size _ Hw)). apply list_eq. intros i. rewrite lookup_drop.
  destruct (decide (Z.of_nat i < rb_len rb - n)).
  - replace (Z.to_nat n + i)%nat with (Z.to_nat (n + Z.of_nat i)) by lia. rewrite <- (Nat2Z.id i) at 1.
    rewrite !contents_lookup by (done || lia). unfold rb_at. simpl. rewrite Zplus_mod_idemp_l. do 5 f_equal. lia.
  - rewrite !lookup_ge_None_2; [done|lia..].
Qed.

Lemma copy_out_spec src off n :
  0 <= n -> 0 <= off -> off + n <= Z.of_nat (length src) ->
  copy_out src off n = Some ((fun k => byte_at src (off + k)) <$> seqZ 0 n).
Proof.
  intros Hn Ho Hl. unfold copy_out. rewrite decide_True by lia. f_equal. apply list_eq. intros i.
  rewrite list_lookup_fmap. destruct (decide (Z.of_nat i < n)).
  - rewrite lookup_take_lt, lookup_drop, lookup_seqZ_lt by lia. simpl. unfold byte_at.
    destruct (lookup_lt_is_Some_2 src (Z.to_nat off + i)) as [x Hx]; [lia|]. rewrite Hx.
    replace (Z.to_nat (off + (0 + Z.of_nat i))) with (Z.to_nat off + i)%nat by lia. by rewrite Hx.
  - rewrite lookup_take_ge, lookup_seqZ_ge by lia. done.
Qed.

(** The bytes taken, by position. *)
Lemma taken_contents rb n :
  rb_wf rb -> 0 <= n <= rb_len rb ->
  (fun k => rb_at rb (rb_read_index rb + k)) <$> seqZ 0 n = take (Z.to_nat n) (rb_contents rb).
Proof.
  intros Hw Hn. apply list_eq. intros i. rewrite list_lookup_fmap. destruct (decide (Z.of_nat i < n)).
  - rewrite lookup_take_lt, lookup_seqZ_lt by lia. simpl. rewrite <- (Nat2Z.id i) at 2.
    rewrite contents_lookup by (done || lia). do 3 f_equal.
  - rewrite lookup_take_ge, lookup_seqZ_ge by lia. done.
Qed.

(** [rt_ringbuffer_get] takes the oldest bytes, as many as are asked for and there, in their order; what
    stays is the rest. It never reads outside of the buffer and keeps it well formed. *)
Theorem rt_ringbuffer_get_spec rb len :
  rb_wf rb -> 0 <= len < 65536 ->
  let n := Z.min len (rb_len rb) in
  exists rb', rt_ringbuffer_get rb len = Some (n, take (Z.to_nat n) (rb_contents rb), rb') /\ rb_wf rb' /\
    rb_size rb' = rb_size rb /\ rb_contents rb' = drop (Z.to_nat n) (rb_contents rb).
Proof.
  intros Hw Hlen n. pose proof (rb_len_bound Hw). unfold rt_ringbuffer_get. rewrite (data_len_spec Hw).
  destruct (Z.eqb_spec (rb_len rb) 0) as [E0|E0]; [exists rb; assert (n = 0) as -> by lia; done|].
  assert (0 <= n <= rb_len rb) as Hn by lia. exists (consumed n rb).
  destruct (consumed_wf rb n Hw Hn) as [Hw' _]. rewrite consumed_contents, <- taken_contents by done.
  split; [|done]. pose proof (consumed_index rb n Hw ltac:(lia)) as Ei. unfold consumed. rewrite Ei.
  destruct Hw as [[H1 H2] [H3 H4] [H5 H6] H7].
  assert ((if rb_len rb <? len then u16 (rb_len rb) else len) = n) as -> by (case_if; rewrite ?uwrap_small; lia).
  assert (forall k, 0 <= k < rb_size rb -> byte_at (rb_buffer rb) k = rb_at rb k) as Hat
    by (intros k Hk; unfold rb_at, byte_at; by rewrite Z.mod_small).
  rewrite Z.gtb_ltb. destruct (Z.ltb_spec n (rb_size rb - rb_read_index rb)) as [Hr|Hr].
  - rewrite copy_out_spec by lia. simpl. rewrite (proj2 (Z.leb_gt _ _)) by lia. unfold set_rb_read. simpl.
    rewrite u15_small by lia. do 2 f_equal; [f_equal|].
    + apply list_fmap_ext. intros k i [-> Hk]%lookup_seqZ. apply Hat. lia.
    + by destruct H4 as [-> | ->].
  - rewrite !copy_out_spec by lia. simpl. rewrite (proj2 (Z.leb_le _ _)) by lia. unfold set_rb_read. simpl.
    rewrite flip_bit, u15_small by (done || lia). do 2 f_equal; [f_equal|f_equal; lia].
    set (room := rb_size rb - rb_read_index rb) in *.
    replace n with (room + (n - room)) at 2 by lia. rewrite seqZ_app, fmap_app by lia.
    f_equal; [apply list_fmap_ext; intros k i [-> Hk]%lookup_seqZ; apply Hat; lia|].
    apply list_eq. intros i. rewrite !list_lookup_fmap. destruct (decide (Z.of_nat i < n - room)).
    + rewrite !lookup_seqZ_lt by lia. simpl. f_equal. rewrite Hat by lia. unfold rb_at. do 3 f_equal.
      rewrite <- (Z.mod_add _ 1) by lia. f_equal. lia.
    + by rewrite !lookup_seqZ_ge by lia.
Qed.

(** ** Forced writes *)

(** A write that overruns the read position, with the read position moved onto the write position in the
    other mirror: a full buffer of the last bytes. *)
Lemma overrun_contents rb ptr n buf m :
  rb_wf rb -> 0 <= n <= Z.of_nat (length ptr) -> n <= rb_size rb -> rb_size rb <= rb_len rb + n ->
  length buf = length (rb_buffer rb) ->
  (forall i, byte_at buf (i mod rb_size rb) =
      let k := (i - rb_write_index rb) mod rb_size rb in if k <? n then byte_at ptr k else rb_at rb i) ->
  let rb1 := advanced n buf rb in
  uwrap 1 m = 1 - rb_write_mirror rb1 ->
  let rb' := set_rb_read m (rb_write_index rb1) rb1 in
  rb_wf rb' /\ rb_contents rb' = drop (Z.to_nat (rb_len rb + n - rb_size rb)) (rb_contents rb ++ take (Z.to_nat n) ptr).
Proof.
  intros Hw Hp Hn Hl Eb Hbuf rb1 Hm rb'. pose proof (rb_len_bound Hw).
  pose proof (Z.mod_pos_bound (rb_write_index rb + n) (rb_size rb) ltac:(destruct (rw_size _ Hw); lia)) as Hi.
  pose proof (stored_contents rb ptr n buf (rb_size rb) Hw Hp Hn ltac:(lia) ltac:(lia) Hbuf) as Hs.
  pose proof (rb_shift Hw (rb_len rb)) as Hsh. destruct Hw as [[H1 H2] [H3 H4] [H5 H6] H7].
  assert (is_bit (rb_write_mirror rb1)) as Hbit
    by (unfold rb1; simpl; destruct (_ <=? _); [by apply is_bit_flip|done]).
  assert (rb_read_mirror rb' =? rb_write_mirror rb' = false) as Hne.
  { subst rb'. unfold set_rb_read. simpl rb_read_mirror. rewrite Hm. simpl. rewrite Z.eqb_sym, bit_eq_flip by done.
    by rewrite Z.eqb_refl. }
  assert (rb_read_index rb' = rb_write_index rb') as Hr by (simpl; by rewrite u15_small by lia).
  assert (rb_len rb' = rb_size rb) as Hlen by (unfold rb_len; rewrite Hne, Hr; simpl; lia).
  split.
  - split; rewrite ?Hne, ?Hr; simpl; try lia.
    + split; [lia|]. rewrite Hm. by apply is_bit_flip.
    + done.
  - rewrite <- Hs. unfold rb_contents. rewrite Hlen. apply list_fmap_ext. intros k i _. rewrite Hr.
    unfold rb_at, byte_at. simpl. rewrite Zplus_mod_idemp_l. do 3 f_equal.
    rewrite Z.sub_diag, Z.mod_0_l in Hsh by lia. apply Z.mod_divide in Hsh as [q Hq]; [|lia].
    replace (rb_read_index rb + (rb_len rb + n - rb_size rb) + i)
      with (rb_write_index rb + n + i + (q - 1) * rb_size rb) by lia. by rewrite Z.mod_add by lia.
Qed.

(** The read position moved onto the write position in the same mirror: an empty buffer. *)
Lemma emptied_spec rb m :
  0 < rb_size rb < 32768 /\ rb_size rb <= Z.of_nat (length (rb_buffer rb)) ->
  0 <= rb_write_index rb < rb_size rb -> is_bit (rb_write_mirror rb) -> uwrap 1 m = rb_write_mirror rb ->
  let rb' := set_rb_read m (rb_write_index rb) rb in
  rb_wf rb' /\ rb_size rb' = rb_size rb /\ rb_contents rb' = [].
Proof.
  intros Hs Hi Hb Hm rb'. subst rb'. unfold set_rb_read. rewrite Hm, u15_small by lia. split; [|split; [done|]].
  - split; simpl; [done|done|done|]. by rewrite Z.eqb_refl.
  - unfold rb_contents, rb_len. simpl. by rewrite Z.eqb_refl, Z.sub_diag.
Qed.

(** The bytes [rt_ringbuffer_put_force] keeps of its argument, the last ones if it has more than the size. *)
Definition force_bytes (rb : rt_ringbuffer) (ptr : list Z) (len : Z) : list Z :=
  let n := Z.min len (rb_size rb) in take (Z.to_nat n) (drop (Z.to_nat (len - n)) ptr).

(** [rt_ringbuffer_put_force] keeps the last bytes of the data; when they exceed the room it discards the
    oldest bytes of the buffer and leaves it full, but only if the write position is in the mirror opposite to
    the read position: with both in the same mirror it toggles both mirrors, and leaves an empty buffer. *)
Theorem rt_ringbuffer_put_force_spec rb ptr len :
  rb_wf rb -> 0 <= len < 65536 -> len <= Z.of_nat (length ptr) ->
  let n := Z.min len (rb_size rb) in
  exists rb', rt_ringbuffer_put_force rb ptr len = Some (n, rb') /\ rb_wf rb' /\ rb_size rb' = rb_size rb /\
    rb_contents rb' =
      if (rb_size rb - rb_len rb <? n) && (rb_read_mirror rb =? rb_write_mirror rb) then []
      else drop (Z.to_nat (rb_len rb + n - rb_size rb)) (rb_contents rb ++ force_bytes rb ptr len).
Proof.
  intros Hw Hlen Hp n. pose proof (rb_len_bound Hw). pose proof (rw_size _ Hw). unfold rt_ringbuffer_put_force.
  rewrite (space_len_spec Hw), !uwrap_small by lia.
  set (ptr' := drop (Z.to_nat (len - n)) ptr).
  assert ((if len >? rb_size rb then drop (Z.to_nat (len - rb_size rb)) ptr else ptr) = ptr') as ->.
  { unfold ptr', n. rewrite Z.gtb_ltb. case_if; [by rewrite Z.min_r by lia|]. by rewrite Z.min_l, Z.sub_diag by lia. }
  assert ((if len >? rb_size rb then rb_size rb else len) = n) as -> by (rewrite Z.gtb_ltb; case_if; lia).
  assert (n <= Z.of_nat (length ptr')) by (unfold ptr'; rewrite length_drop; lia).
  unfold force_bytes. fold n ptr'. rewrite Z.gtb_ltb. destruct (Z.ltb_spec (rb_size rb - rb_len rb) n) as [Hover|Hroom].
  2: { destruct (rb_write_room rb ptr' n Hw) as (b & rb' & E & Hw' & Es & Ec); [lia..|]. rewrite E. exists rb'.
       cbn [mbind option_bind andb]. by replace (Z.to_nat (rb_len rb + n - rb_size rb)) with 0%nat by lia. }
  destruct (rb_write_spec rb ptr' n Hw) as (buf & E & Eb & Hbuf); [lia..|]. rewrite E.
  cbn [mbind option_bind andb]. eexists. split; [reflexivity|].
  pose proof (overrun_contents rb ptr' n buf) as Ho.
  pose proof (rw_read _ Hw) as [Hri Hr]. pose proof (rw_write _ Hw) as [Hwi Hwm]. pose proof (rw_order _ Hw) as Hord.
  assert (rb_size rb <= rb_len rb + n) as Hfull by lia. unfold rb_len in Hover.
  destruct (Z.eqb_spec (rb_read_mirror rb) (rb_write_mirror rb)) as [Em|Em].
  - pose proof (Z.mod_pos_bound (rb_write_index rb + n) (rb_size rb) ltac:(lia)).
    assert (rb_size rb <=? rb_write_index rb + n = true) as Ew by lia. rewrite Ew.
    match goal with |- rb_wf (set_rb_read ?m _ _) /\ _ => apply (emptied_spec (advanced n buf rb) m) end;
      simpl; rewrite ?Ew; [lia|lia|by apply is_bit_flip|].
    by rewrite flip_bit, Em.
  - match goal with |- rb_wf (set_rb_read ?m _ _) /\ _ => destruct (Ho m) as [Hw' Hc] end;
      [done|lia|lia|done|done|done| |exact (conj Hw' (conj eq_refl Hc))].
    simpl. destruct (rb_size rb <=? rb_write_index rb + n), Hr as [Er|Er], Hwm as [Ewm|Ewm];
      rewrite ?Er, ?Ewm; (done || congruence).
Qed.

(** ** Characters *)

(** Storing a character and advancing is a write of one byte. *)
Lemma rb_store_write rb ch :
  rb_wf rb ->
  rb_write rb [ch] 1 =
    (rb1 ← rb_store rb ch;
     Some (if rb_write_index rb1 =? rb_size rb1 - 1
           then (true, set_rb_write (Z.lnot (rb_write_mirror rb1)) 0 rb1)
           else (false, set_rb_write (rb_write_mirror rb1) (rb_write_index rb1 + 1) rb1))).
Proof.
  intros [[H1 H2] [H3 H4] [H5 H6] H7]. unfold rb_write, rb_store, copy_in. rewrite Z.gtb_ltb.
  rewrite (decide_True (P := (Z.to_nat _ < _)%nat)) by lia. cbn [mbind option_bind]. simpl rb_write_index. simpl rb_size.
  assert (forall buf : list Z, (Z.to_nat (rb_write_index rb) < length buf)%nat ->
    take (Z.to_nat (rb_write_index rb)) buf ++ [ch] ++ drop (Z.to_nat (rb_write_index rb + 1)) buf =
    <[Z.to_nat (rb_write_index rb) := ch]> buf) as Hins.
  { intros buf Hb. rewrite insert_take_drop by done. replace (Z.to_nat (rb_write_index rb + 1))
      with (S (Z.to_nat (rb_write_index rb))) by lia. done. }
  destruct (Z.ltb_spec 1 (rb_size rb - rb_write_index rb)).
  - rewrite decide_True by (simpl; lia). rewrite (proj2 (Z.eqb_neq _ _)) by lia. cbn [mbind option_bind].
    change (take (Z.to_nat 1) [ch]) with [ch]. by rewrite Hins by lia.
  - assert (rb_size rb - rb_write_index rb = 1) as -> by lia. rewrite decide_True by (simpl; lia).
    change (take (Z.to_nat 1) [ch]) with [ch]. rewrite Hins by lia. cbn [mbind option_bind].
    rewrite decide_True by (simpl; lia). rewrite (proj2 (Z.eqb_eq _ _)) by lia. cbn [mbind option_bind]. done.
Qed.

(** [rt_ringbuffer_putchar] and [rt_ringbuffer_getchar] are [rt_ringbuffer_put] and [rt_ringbuffer_get] of
    one byte. *)
Theorem rt_ringbuffer_char_equiv rb ch :
  rb_wf rb ->
  rt_ringbuffer_putchar rb ch = rt_ringbuffer_put rb [ch] 1 /\
  (forall n data rb', rt_ringbuffer_get rb 1 = Some (n, data, rb') ->
     rt_ringbuffer_getchar rb = Some (n, head data, rb')).
Proof.
  intros Hw. pose proof (rb_len_bound Hw). pose proof (rw_size _ Hw). split.
  - unfold rt_ringbuffer_putchar, rt_ringbuffer_put. rewrite (space_len_spec Hw), uwrap_small by lia. case_if; [done|].
    assert ((if rb_size rb - rb_len rb <? 1 then rb_size rb - rb_len rb else 1) = 1) as -> by (case_if; lia).
    rewrite rb_store_write by done. destruct (rb_store rb ch) as [rb1|]; [|done]. cbn [mbind option_bind]. by case_if.
  - intros n data rb'. unfold rt_ringbuffer_get, rt_ringbuffer_getchar. rewrite (data_len_spec Hw). case_if; [by intros [= <- <- <-]|].
    assert ((if rb_len rb <? 1 then u16 (rb_len rb) else 1) = 1) as -> by (case_if; lia).
    destruct Hw as [[H1 H2] [H3 H4] [H5 H6] H7]. rewrite Z.gtb_ltb.
    destruct (lookup_lt_is_Some_2 (rb_buffer rb) (Z.to_nat (rb_read_index rb))) as [x Hx]; [lia|]. rewrite Hx.
    assert (byte_at (rb_buffer rb) (rb_read_index rb + 0) = x) as Hb by (unfold byte_at; by rewrite Z.add_0_r, Hx).
    destruct (Z.ltb_spec 1 (rb_size rb - rb_read_index rb)).
    + rewrite copy_out_spec by lia. change (seqZ 0 1) with [0]. cbn [fmap list_fmap mbind option_bind]. rewrite Hb.
      intros [= <- <- <-]. by rewrite (proj2 (Z.eqb_neq _ _)) by lia.
    + assert (rb_size rb - rb_read_index rb = 1) as -> by lia. rewrite !copy_out_spec by lia.
      change (seqZ 0 1) with [0]. cbn [fmap list_fmap mbind option_bind]. rewrite Hb.
      intros [= <- <- <-]. by rewrite (proj2 (Z.eqb_eq _ _)) by lia.
Qed.

(** [rt_ringbuffer_putchar_force] always stores the character, and discards exactly the oldest byte when
    the buffer is full. *)
Theorem rt_ringbuffer_putchar_force_spec rb ch :
  rb_wf rb ->
  exists rb', rt_ringbuffer_putchar_force rb ch = Some (1, rb') /\ rb_wf rb' /\ rb_size rb' = rb_size rb /\
    rb_contents rb' = drop (if rb_len rb =? rb_size rb then 1 else 0) (rb_contents rb ++ [ch]).
Proof.
  intros Hw. pose proof (rb_len_bound Hw). pose proof (rw_size _ Hw). unfold rt_ringbuffer_putchar_force.
  pose proof (rb_store_write rb ch Hw) as Hst.
  assert (match rt_ringbuffer_status rb with RT_RINGBUFFER_FULL => true | _ => false end = (rb_len rb =? rb_size rb)) as ->.
  { unfold rt_ringbuffer_status, rb_len. destruct Hw as [_ [H3 H4] [H5 H6] H7].
    destruct (Z.eqb_spec (rb_read_index rb) (rb_write_index rb)), (rb_read_mirror rb =? rb_write_mirror rb); lia. }
  destruct (Z.eqb_spec (rb_len rb) (rb_size rb)) as [Ef|Ef].
  - destruct (rb_write_spec rb [ch] 1 Hw) as (buf & E & Eb & Hbuf); [lia|simpl; lia|]. rewrite E in Hst.
    destruct (rb_store rb ch) as [rb1|] eqn:Es; [|done]. cbn [mbind option_bind] in *. eexists. split; [reflexivity|].
    assert (rb_read_mirror rb <> rb_write_mirror rb) as Hne.
    { intros Em. unfold rb_len in Ef. rewrite Em, Z.eqb_refl in Ef. destruct Hw as [_ [? _] [? _] _]. lia. }
    pose proof (proj2 (rw_read _ Hw)) as Hr. pose proof (proj2 (rw_write _ Hw)) as Hwm.
    assert (forall m, uwrap 1 m = 1 - rb_write_mirror (advanced 1 buf rb) ->
      let rb' := set_rb_read m (rb_write_index (advanced 1 buf rb)) (advanced 1 buf rb) in
      rb_wf rb' /\ rb_size rb' = rb_size rb /\ rb_contents rb' = drop 1 (rb_contents rb ++ [ch])) as Hfull.
    { intros m Hm rb'. destruct (overrun_contents rb [ch] 1 buf m Hw) as [Hw' Hc]; [simpl; lia|lia|lia|done..|].
      split; [exact Hw'|]. split; [done|]. rewrite Ef in Hc. by replace (rb_size rb + 1 - rb_size rb) with 1 in Hc by lia. }
    apply (inj Some) in Hst. pose proof (f_equal fst Hst) as Eb1. pose proof (f_equal snd Hst) as E1. clear Hst.
    destruct (rb_write_index rb1 =? rb_size rb1 - 1); cbn [fst snd] in *; rewrite <- E1; apply Hfull; simpl; rewrite Eb1;
      destruct Hr as [Er|Er], Hwm as [Ewm|Ewm]; rewrite ?Er, ?Ewm; (done || congruence).
  - destruct (rb_write_room rb [ch] 1 Hw) as (b & rb' & E & Hw' & Esz & Ec); [lia|lia|simpl; lia|]. rewrite E in Hst.
    exists rb'. rewrite drop_0. destruct (rb_store rb ch) as [rb1|]; [|done]. cbn [mbind option_bind] in *.
    split; [|done]. by case_if; injection Hst as -> ->.
Qed.

(** ** Examples *)

(** Two bytes in a buffer of four. *)
Definition demo_rb : rt_ringbuffer := mkRb [10; 11; 0; 0] 0 0 0 2 4.
(** A full buffer of four. *)
Definition demo_rb_full : rt_ringbuffer := mkRb [12; 13; 10; 11] 0 2 1 2 4.

Lemma demo_rb_wf : rb_wf demo_rb /\ rb_wf demo_rb_full.
Proof. split; (split; simpl; unfold is_bit; lia). Qed.

Lemma rt_ringbuffer_put_spec_witness :
  exists rb', rt_ringbuffer_put demo_rb [20; 21; 22] 3 = Some (2, rb') /\ rb_contents rb' = [10; 11; 20; 21].
Proof.
  destruct (rt_ringbuffer_put_spec demo_rb [20; 21; 22] 3 (proj1 demo_rb_wf)) as (rb' & E & _ & _ & Ec);
    [lia|simpl; lia|]. exists rb'. by split.
Defined.

Lemma rt_ringbuffer_get_spec_witness :
  exists rb', rt_ringbuffer_get demo_rb_full 3 = Some (3, [10; 11; 12], rb') /\ rb_contents rb' = [13].
Proof.
  destruct (rt_ringbuffer_get_spec demo_rb_full 3 (proj2 demo_rb_wf)) as (rb' & E & _ & _ & Ec); [lia|].
  exists rb'. by split.
Defined.

(** Two bytes, then three more by force: nothing is left. From the full buffer the oldest three go. *)
Lemma rt_ringbuffer_put_force_spec_witness :
  (exists rb', rt_ringbuffer_put_force demo_rb [20; 21; 22] 3 = Some (3, rb') /\ rb_contents rb' = []) /\
  (exists rb', rt_ringbuffer_put_force demo_rb_full [20; 21; 22] 3 = Some (3, rb') /\
     rb_contents rb' = [13; 20; 21; 22]).
Proof.
  destruct (rt_ringbuffer_put_force_spec demo_rb [20; 21; 22] 3 (proj1 demo_rb_wf)) as (rb' & E & _ & _ & Ec);
    [lia|simpl; lia|].
  destruct (rt_ringbuffer_put_force_spec demo_rb_full [20; 21; 22] 3 (proj2 demo_rb_wf)) as (rb2 & E2 & _ & _ & Ec2);
    [lia|simpl; lia|].
  split; [by exists rb'|by exists rb2].
Defined.

Lemma rt_ringbuffer_char_equiv_witness :
  rt_ringbuffer_putchar demo_rb 7 = rt_ringbuffer_put demo_rb [7] 1 /\
  exists rb', rt_ringbuffer_getchar demo_rb_full = Some (1, Some 10, rb').
Proof.
  split; [exact (proj1 (rt_ringbuffer_char_equiv demo_rb 7 (proj1 demo_rb_wf)))|].
  eexists. eapply (proj2 (rt_ringbuffer_char_equiv demo_rb_full 7 (proj2 demo_rb_wf)) 1 [10]). reflexivity.
Defined.

Lemma rt_ringbuffer_putchar_force_spec_witness :
  exists rb', rt_ringbuffer_putchar_force demo_rb_full 20 = Some (1, rb') /\ rb_contents rb' = [11; 12; 13; 20].
Proof.
  destruct (rt_ringbuffer_putchar_force_spec demo_rb_full 20 (proj2 demo_rb_wf)) as (rb' & E & _ & _ & Ec).
  exists rb'. by split.
Defined.
