(* ===== verification/MemPool.v ===== *)
(** Memory pools (src/mempool.c): blocks of one size in a list of free ones, and the threads that wait
    for a block. *)

From S2P Require Import Prelude RtDef Object Scheduler Timer Thread Kernel Tick Ipc Life Mailbox.

(** ** State *)

(** [struct rt_mempool] without its object header and [suspend_thread], the ring [QSuspend (OMemPool n)]. *)
Record rt_mempool := mkMemPool {
  mp_start_address : Z;
  mp_size : Z;
  mp_block_size : Z;
  mp_block_list : Z;
  mp_block_total_count : Z;
  mp_block_free_count : Z;
  mp_suspend_thread_count : Z }.
Definition set_mp_block_list (v : Z) (r : rt_mempool) : rt_mempool :=
  mkMemPool (mp_start_address r) (mp_size r) (mp_block_size r) v (mp_block_total_count r) (mp_block_free_count r) (mp_suspend_thread_count r).
Definition set_mp_block_free_count (v : Z) (r : rt_mempool) : rt_mempool :=
  mkMemPool (mp_start_address r) (mp_size r) (mp_block_size r) (mp_block_list r) (mp_block_total_count r) v (mp_suspend_thread_count r).
Definition set_mp_suspend_thread_count (v : Z) (r : rt_mempool) : rt_mempool :=
  mkMemPool (mp_start_address r) (mp_size r) (mp_block_size r) (mp_block_list r) (mp_block_total_count r) (mp_block_free_count r) v.

(** The word in front of a block: the next free block ([RT_NULL] is 0), or the pool of a block in use. *)
Inductive pool_word :=
| PNext (p : Z)
| PPool (n : nat).

(** The pools, the words in front of their blocks by address, [__rt_errno] of src/kservice.c, and the
    kernel. *)
Record pools := mkPools {
  mp_pools : gmap nat rt_mempool;
  mp_words : gmap Z pool_word;
  __rt_errno : Z;
  mp_kernel : kernel }.
Definition set_mp_pools (v : gmap nat rt_mempool) (r : pools) : pools := mkPools v (mp_words r) (__rt_errno r) (mp_kernel r).
Definition set_mp_words (v : gmap Z pool_word) (r : pools) : pools := mkPools (mp_pools r) v (__rt_errno r) (mp_kernel r).
Definition set___rt_errno (v : Z) (r : pools) : pools := mkPools (mp_pools r) (mp_words r) v (mp_kernel r).
Definition set_mp_kernel (v : kernel) (r : pools) : pools := mkPools (mp_pools r) (mp_words r) (__rt_errno r) v.

Abbreviation MP := (stM pools).

(** A kernel routine called from here. *)
Definition lift {A} (m : M A) : MP A := fun r =>
  match m (mp_kernel r) with Some (a, s) => Some (a, set_mp_kernel s r) | None => None end.

Definition get_pool (n : nat) : MP rt_mempool := getso (fun r => mp_pools r !! n).
Definition put_pool (n : nat) (mp : rt_mempool) : MP unit := modify (fun r => set_mp_pools (<[n := mp]> (mp_pools r)) r).
Definition upd_pool (n : nat) (f : rt_mempool -> rt_mempool) : MP unit := mp ← get_pool n; put_pool n (f mp).
Definition put_word (a : Z) (w : pool_word) : MP unit := modify (fun r => set_mp_words (<[a := w]> (mp_words r)) r).
(** The word at [a] read as a pointer to a block. *)
Definition get_next (a : Z) : MP Z :=
  getso (fun r => match mp_words r !! a with Some (PNext p) => Some p | _ => None end).
(** The word at [a] read as a pointer to a pool. *)
Definition get_owner (a : Z) : MP nat :=
  getso (fun r => match mp_words r !! a with Some (PPool n) => Some n | _ => None end).

Abbreviation pool_q n := (QSuspend (OMemPool n)).
Abbreviation SIZEOF_PTR := 4.

(** ** Operations *)

Definition rt_set_errno (error : Z) : MP unit :=
  nest ← lift (gets rt_interrupt_nest);
  tid ← lift rt_thread_self;
  match tid with
  | Some t => if nest =? 0 then lift (upd_thread t (set_th_error error)) else modify (set___rt_errno error)
  | None => modify (set___rt_errno error)
  end.

Definition rt_get_errno : MP Z :=
  nest ← lift (gets rt_interrupt_nest);
  tid ← lift rt_thread_self;
  match tid with
  | Some t => if nest =? 0 then th ← lift (get_thread t); mret (th_error th) else gets __rt_errno
  | None => gets __rt_errno
  end.

(** The loop that links the first [k] blocks. *)
Fixpoint link_blocks (k : nat) (block_ptr stride : Z) (w : gmap Z pool_word) : gmap Z pool_word :=
  match k with
  | O => w
  | S k =>
      <[u32 (block_ptr + Z.of_nat k * stride) := PNext (u32 (block_ptr + (Z.of_nat k + 1) * stride))]>
        (link_blocks k block_ptr stride w)
  end.

(** The free list of [rt_mp_init] and [rt_mp_create], the last link included. *)
Definition init_block_list (block_ptr stride count : Z) : MP unit :=
  modify (fun r => set_mp_words (link_blocks (Z.to_nat count) block_ptr stride (mp_words r)) r);;
  put_word (u32 (block_ptr + u32 (count - 1) * stride)) (PNext 0).

Definition rt_mp_init (n : nat) (name : string) (start size block_size : Z) : MP Z :=
  lift (rt_object_init (OMemPool n) RT_Object_Class_MemPool name);;
  let size := RT_ALIGN_DOWN size RT_ALIGN_SIZE in
  let block_size := RT_ALIGN block_size RT_ALIGN_SIZE in
  let count := size / u32 (block_size + SIZEOF_PTR) in
  lift (rt_ipc_object_init (pool_q n));;
  init_block_list start (u32 (block_size + SIZEOF_PTR)) count;;
  put_pool n (mkMemPool start size block_size start count count 0);;
  mret RT_EOK.

(** The loop of [rt_mp_detach] and [rt_mp_delete]; [fuel] is one more than the number of waiting threads. *)
Fixpoint mp_resume_loop (fuel : nat) (n : nat) : MP unit :=
  match fuel with
  | O => rt_panic
  | S fuel =>
      e ← lift (tlist_isempty (pool_q n));
      if e : bool then mret tt
      else
        t ← lift (tlist_first (pool_q n));
        lift (upd_thread t (set_th_error (- RT_ERROR)));;
        lift (rt_thread_resume t);;
        upd_pool n (fun mp => set_mp_suspend_thread_count (u32 (mp_suspend_thread_count mp - 1)) mp);;
        mp_resume_loop fuel n
  end.

Definition mp_resume_all (n : nat) : MP unit :=
  k ← gets (fun r => length (qget (mp_kernel r) (pool_q n)));
  mp_resume_loop (S k) n.

Definition rt_mp_detach (n : nat) : MP Z :=
  lift (assert_type (OMemPool n) RT_Object_Class_MemPool);;
  b ← lift (rt_object_is_systemobject (OMemPool n));
  RT_ASSERT b;;
  mp_resume_all n;;
  lift (rt_object_detach (OMemPool n));;
  mret RT_EOK.

(** The live variables of [rt_mp_alloc] at its [rt_schedule()]. *)
Record mp_frame := mkMpFrame {
  mpf_mp : nat;
  mpf_thread : option nat;
  mpf_time : Z;
  mpf_before_sleep : Z }.

(** From the test of [while (mp->block_free_count == 0)] on; the result is the block's address. *)
Definition mp_alloc_loop (f : mp_frame) : MP (outcome Z mp_frame) :=
  let n := mpf_mp f in
  mp ← get_pool n;
  if mp_block_free_count mp =? 0 then
    if mpf_time f =? 0 then
      rt_set_errno (- RT_ETIMEOUT);;
      mret (Ret 0)
    else
      lift RT_DEBUG_NOT_IN_INTERRUPT;;
      t ← getso (fun _ => mpf_thread f);
      lift (upd_thread t (set_th_error RT_EOK));;
      lift (rt_thread_suspend t);;
      lift (tlist_insert_after (pool_q n) t);;
      upd_pool n (fun mp => set_mp_suspend_thread_count (u32 (mp_suspend_thread_count mp + 1)) mp);;
      now ← lift rt_tick_get;
      lift (when (mpf_time f >? 0) (start_thread_timer t (mpf_time f)));;
      lift rt_schedule;;
      mret (Block (mkMpFrame n (mpf_thread f) (mpf_time f) (if mpf_time f >? 0 then now else mpf_before_sleep f)))
  else
    upd_pool n (fun mp => set_mp_block_free_count (u32 (mp_block_free_count mp - 1)) mp);;
    let block_ptr := mp_block_list mp in
    RT_ASSERT (negb (block_ptr =? 0));;
    next ← get_next block_ptr;
    upd_pool n (set_mp_block_list next);;
    put_word block_ptr (PPool n);;
    mret (Ret (u32 (block_ptr + SIZEOF_PTR))).

Definition rt_mp_alloc (n : nat) (time : Z) : MP (outcome Z mp_frame) :=
  thread ← lift rt_thread_self;
  mp_alloc_loop (mkMpFrame n thread time 0).

(** The rest of the loop after its [rt_schedule()]. *)
Definition rt_mp_alloc_resume (f : mp_frame) : MP (outcome Z mp_frame) :=
  t ← getso (fun _ => mpf_thread f);
  th ← lift (get_thread t);
  if negb (th_error th =? RT_EOK) then mret (Ret 0)
  else
    now ← lift rt_tick_get;
    mp_alloc_loop (if mpf_time f >? 0
      then mkMpFrame (mpf_mp f) (mpf_thread f) (remaining_timeout now (mpf_time f) (mpf_before_sleep f)) (mpf_before_sleep f)
      else f).

Definition rt_mp_free (block : Z) : MP unit :=
  let block_ptr := u32 (block - SIZEOF_PTR) in
  n ← get_owner block_ptr;
  upd_pool n (fun mp => set_mp_block_free_count (u32 (mp_block_free_count mp + 1)) mp);;
  mp ← get_pool n;
  put_word block_ptr (PNext (mp_block_list mp));;
  upd_pool n (set_mp_block_list block_ptr);;
  if mp_suspend_thread_count mp >? 0 then
    t ← lift (tlist_first (pool_q n));
    lift (upd_thread t (set_th_error RT_EOK));;
    lift (rt_thread_resume t);;
    upd_pool n (fun mp => set_mp_suspend_thread_count (u32 (mp_suspend_thread_count mp - 1)) mp);;
    lift rt_schedule
  else mret tt.

(** ** The layering *)

Lemma wp_lift {A} (m : M A) Q r : wp (lift m) Q r <-> wp m (fun a s => Q a (set_mp_kernel s r)) (mp_kernel r).
Proof. unfold wp, lift. by destruct (m (mp_kernel r)) as [[a s]|]. Qed.
Lemma wp_get_pool n Q r : wp (get_pool n) Q r <-> exists mp, mp_pools r !! n = Some mp /\ Q mp r.
Proof. exact (wp_getso _ _ _). Qed.
Lemma wp_put_pool n mp Q r : wp (put_pool n mp) Q r <-> Q tt (set_mp_pools (<[n := mp]> (mp_pools r)) r).
Proof. done. Qed.
Lemma wp_upd_pool n f Q r :
  wp (upd_pool n f) Q r <-> exists mp, mp_pools r !! n = Some mp /\ Q tt (set_mp_pools (<[n := f mp]> (mp_pools r)) r).
Proof. unfold upd_pool. by rewrite wp_bind, wp_get_pool. Qed.
Lemma wp_put_word a w Q r : wp (put_word a w) Q r <-> Q tt (set_mp_words (<[a := w]> (mp_words r)) r).
Proof. done. Qed.
Lemma wp_get_next a Q r : wp (get_next a) Q r <-> exists p, mp_words r !! a = Some (PNext p) /\ Q p r.
Proof. unfold get_next. rewrite wp_getso. destruct (mp_words r !! a) as [[p|n]|]; naive_solver. Qed.
Lemma wp_get_owner a Q r : wp (get_owner a) Q r <-> exists n, mp_words r !! a = Some (PPool n) /\ Q n r.
Proof. unfold get_owner. rewrite wp_getso. destruct (mp_words r !! a) as [[p|n]|]; naive_solver. Qed.

(** The parts of the state are independent. *)
Lemma set_mp_kernel_id r : set_mp_kernel (mp_kernel r) r = r.
Proof. by destruct r. Qed.
Lemma set_mp_kernel_set s s' r : set_mp_kernel s (set_mp_kernel s' r) = set_mp_kernel s r.
Proof. done. Qed.
Lemma mp_kernel_set s r : mp_kernel (set_mp_kernel s r) = s.
Proof. done. Qed.
Lemma mp_kernel_pools v r : mp_kernel (set_mp_pools v r) = mp_kernel r.
Proof. done. Qed.
Lemma mp_kernel_words v r : mp_kernel (set_mp_words v r) = mp_kernel r.
Proof. done. Qed.
Lemma mp_pools_kernel s r : mp_pools (set_mp_kernel s r) = mp_pools r.
Proof. done. Qed.
Lemma mp_pools_set v r : mp_pools (set_mp_pools v r) = v.
Proof. done. Qed.
Lemma mp_words_pools v r : mp_words (set_mp_pools v r) = mp_words r.
Proof. done. Qed.
Lemma mp_words_kernel s r : mp_words (set_mp_kernel s r) = mp_words r.
Proof. done. Qed.
Lemma mp_words_set v r : mp_words (set_mp_words v r) = v.
Proof. done. Qed.
Lemma mp_pools_words v r : mp_pools (set_mp_words v r) = mp_pools r.
Proof. done. Qed.
Lemma set_mp_pools_set v v' r : set_mp_pools v (set_mp_pools v' r) = set_mp_pools v r.
Proof. done. Qed.
Lemma set_mp_pools_words v w r : set_mp_pools v (set_mp_words w r) = set_mp_words w (set_mp_pools v r).
Proof. done. Qed.

#[global] Hint Rewrite mp_words_pools mp_words_kernel mp_words_set mp_pools_words set_mp_pools_set set_mp_pools_words : wp.
#[global] Hint Rewrite set_mp_kernel_id set_mp_kernel_set mp_kernel_set mp_kernel_pools mp_kernel_words mp_pools_kernel mp_pools_set : wp.
#[global] Hint Rewrite @wp_lift wp_get_pool wp_put_pool wp_upd_pool wp_put_word wp_get_next wp_get_owner : wp.

(** ** The free list *)

Definition mp_stride (mp : rt_mempool) : Z := mp_block_size mp + SIZEOF_PTR.

(** The addresses of the words in front of the first [k] blocks. *)
Definition block_addrs (start stride : Z) (k : nat) : list Z := (fun i => start + Z.of_nat i * stride) <$> seq 0 k.

(** The list of free blocks that begins at [p]. *)
Fixpoint free_chain (w : gmap Z pool_word) (p : Z) (fl : list Z) : Prop :=
  match fl with
  | [] => p = 0
  | a :: fl => p = a /\ exists q, w !! a = Some (PNext q) /\ free_chain w q fl
  end.

(** The pool's blocks lie one behind another; the free ones are [fl], the others belong to the pool. *)
Record pool_rep (n : nat) (mp : rt_mempool) (w : gmap Z pool_word) (fl : list Z) : Prop := {
  pr_start : 0 < mp_start_address mp;
  pr_block : 0 <= mp_block_size mp;
  pr_total : 0 <= mp_block_total_count mp;
  pr_top : mp_start_address mp + mp_block_total_count mp * mp_stride mp < 2 ^ 32;
  pr_chain : free_chain w (mp_block_list mp) fl;
  pr_nodup : NoDup fl;
  pr_free : mp_block_free_count mp = Z.of_nat (length fl);
  pr_in : fl ⊆ block_addrs (mp_start_address mp) (mp_stride mp) (Z.to_nat (mp_block_total_count mp));
  pr_used : forall a, a ∈ block_addrs (mp_start_address mp) (mp_stride mp) (Z.to_nat (mp_block_total_count mp)) -> a ∉ fl ->
    w !! a = Some (PPool n);
}.

Lemma elem_of_block_addrs a start stride k :
  a ∈ block_addrs start stride k <-> exists i, (i < k)%nat /\ a = start + Z.of_nat i * stride.
Proof.
  unfold block_addrs. rewrite list_elem_of_fmap. setoid_rewrite elem_of_seq. split.
  - intros (i & -> & Hi). exists i. split; [lia|done].
  - intros (i & Hi & ->). exists i. split; [done|lia].
Qed.

Lemma free_chain_ext w w' p fl : (forall a, a ∈ fl -> w' !! a = w !! a) -> free_chain w p fl -> free_chain w' p fl.
Proof.
  revert p. induction fl as [|b fl IH]; intros p Hw; simpl; [done|]. intros (-> & q & E & Hq). split; [done|].
  exists q. rewrite Hw by (by left). split; [done|]. apply IH; [|done]. intros a Ha. apply Hw. by right.
Qed.

Section rep.
Context {n : nat} {mp : rt_mempool} {w : gmap Z pool_word} {fl : list Z}.
Hypothesis Hr : pool_rep n mp w fl.

(** The blocks are in the machine's memory. *)
Lemma block_addr_bound a :
  a ∈ block_addrs (mp_start_address mp) (mp_stride mp) (Z.to_nat (mp_block_total_count mp)) -> 0 < a /\ a + mp_stride mp < 2 ^ 32.
Proof using Hr.
  intros (i & Hi & ->)%elem_of_block_addrs. destruct Hr as [H1 H2 H3 H4 _ _ _ _ _]. unfold mp_stride in *. nia.
Qed.

Lemma free_bound : Z.of_nat (length fl) <= mp_block_total_count mp < 2 ^ 32.
Proof using Hr.
  pose proof (submseteq_length _ _ (NoDup_submseteq _ _ (pr_nodup _ _ _ _ Hr) (pr_in _ _ _ _ Hr))) as H.
  unfold block_addrs in H. rewrite length_fmap, length_seq in H. destruct Hr as [H1 H2 H3 H4 _ _ _ _ _]. unfold mp_stride in *. nia.
Qed.

(** The first free block is taken. *)
Lemma pool_take a fl' :
  fl = a :: fl' -> exists q, w !! a = Some (PNext q) /\ mp_block_list mp = a /\ 0 < a /\ a + mp_stride mp < 2 ^ 32 /\
    pool_rep n (set_mp_block_list q (set_mp_block_free_count (u32 (mp_block_free_count mp - 1)) mp)) (<[a := PPool n]> w) fl'.
Proof using Hr.
  pose proof free_bound as Hb. pose proof block_addr_bound as Hba. intros Efl. rewrite Efl in *. destruct (pr_chain _ _ _ _ Hr) as (El & q & Eq & Hq).
  assert (a ∈ block_addrs (mp_start_address mp) (mp_stride mp) (Z.to_nat (mp_block_total_count mp))) as Hin
    by (apply (pr_in _ _ _ _ Hr); by left).
  destruct (Hba a Hin) as [Ha0 Ha1].
  pose proof (pr_nodup _ _ _ _ Hr) as Hnd. apply NoDup_cons in Hnd as [Hnot Hnd].
  exists q. split_and!; [done..|]. split; simpl; try apply Hr.
  - eapply free_chain_ext; [|done]. intros b Hbin. apply lookup_insert_ne. by intros ->.
  - done.
  - rewrite (pr_free _ _ _ _ Hr), u32_small by (simpl in *; lia). simpl. lia.
  - intros b Hbin. apply (pr_in _ _ _ _ Hr). by right.
  - intros b Hbin Hbn. destruct (decide (b = a)) as [->|]; [by rewrite lookup_insert_eq|].
    rewrite lookup_insert_ne by done. apply (pr_used _ _ _ _ Hr); [done|]. set_solver.
Qed.

(** A block in use becomes the first free one. *)
Lemma pool_give a :
  a ∈ block_addrs (mp_start_address mp) (mp_stride mp) (Z.to_nat (mp_block_total_count mp)) -> a ∉ fl ->
  w !! a = Some (PPool n) /\
  pool_rep n (set_mp_block_list a (set_mp_block_free_count (u32 (mp_block_free_count mp + 1)) mp)) (<[a := PNext (mp_block_list mp)]> w) (a :: fl).
Proof using Hr.
  intros Hin Hnot. split; [by apply (pr_used _ _ _ _ Hr)|].
  assert (NoDup (a :: fl)) as Hnd by (constructor; [done|apply Hr]).
  assert (a :: fl ⊆ block_addrs (mp_start_address mp) (mp_stride mp) (Z.to_nat (mp_block_total_count mp))) as Hsub.
  { intros b [->|Hb]%elem_of_cons; [done|]. by apply (pr_in _ _ _ _ Hr). }
  split; simpl; try apply Hr; try done.
  - split; [done|]. eexists. rewrite lookup_insert_eq. split; [done|]. eapply free_chain_ext; [|apply Hr].
    intros b Hb. apply lookup_insert_ne. by intros ->.
  - rewrite (pr_free _ _ _ _ Hr). pose proof (submseteq_length _ _ (NoDup_submseteq _ _ Hnd Hsub)) as Hl.
    unfold block_addrs in Hl. rewrite length_fmap, length_seq in Hl. simpl in Hl. pose proof free_bound.
    rewrite u32_small by lia. simpl. lia.
  - intros b Hb Hbn. rewrite lookup_insert_ne by set_solver. apply (pr_used _ _ _ _ Hr); [done|]. set_solver.
Qed.

Lemma pool_rep_count k : pool_rep n (set_mp_suspend_thread_count k mp) w fl.
Proof using Hr. by destruct Hr. Qed.
End rep.

(** ** The invariant of a pool *)

(** [fl] lists the free blocks. Every waiting thread is counted. *)
Record mp_ok (n : nat) (mp : rt_mempool) (fl : list Z) (r : pools) : Prop := {
  mo_kernel : kinv (mp_kernel r);
  mo_pool : mp_pools r !! n = Some mp;
  mo_rep : pool_rep n mp (mp_words r) fl;
  mo_count : Z.of_nat (length (qget (mp_kernel r) (pool_q n))) <= mp_suspend_thread_count mp < 2 ^ 32;
}.

(** The blocks of the pool that are in use. *)
Definition in_use (mp : rt_mempool) (fl : list Z) (a : Z) : Prop :=
  a ∈ block_addrs (mp_start_address mp) (mp_stride mp) (Z.to_nat (mp_block_total_count mp)) /\ a ∉ fl.

(** What [rt_mp_alloc] does from its loop on, for the thread [t]. *)
Inductive mp_alloc_result (f : mp_frame) (t : nat) (th : thread) (mp : rt_mempool) (fl : list Z) (r : pools) :
    outcome Z mp_frame -> pools -> Prop :=
| mp_alloc_block a fl' q :
    fl = a :: fl' -> in_use mp fl' a ->
    let mp' := set_mp_block_list q (set_mp_block_free_count (mp_block_free_count mp - 1) mp) in
    let r' := set_mp_words (<[a := PPool (mpf_mp f)]> (mp_words r)) (set_mp_pools (<[mpf_mp f := mp']> (mp_pools r)) r) in
    mp_ok (mpf_mp f) mp' fl' r' ->
    mp_alloc_result f t th mp fl r (Ret (a + SIZEOF_PTR)) r'
| mp_alloc_none :
    fl = [] -> mpf_time f = 0 ->
    let r' := set_mp_kernel (set_threads (<[t := set_th_error (- RT_ETIMEOUT) th]> (threads (mp_kernel r))) (mp_kernel r)) r in
    mp_ok (mpf_mp f) mp fl r' ->
    mp_alloc_result f t th mp fl r (Ret 0) r'
| mp_alloc_wait s' :
    fl = [] -> mpf_time f ≠ 0 ->
    let mp' := set_mp_suspend_thread_count (mp_suspend_thread_count mp + 1) mp in
    let r' := set_mp_kernel s' (set_mp_pools (<[mpf_mp f := mp']> (mp_pools r)) r) in
    mp_ok (mpf_mp f) mp' fl r' ->
    gone_waiting t (set_th_error RT_EOK th) (set_threads (<[t := set_th_error RT_EOK th]> (threads (mp_kernel r))) (mp_kernel r)) s' ->
    qget s' (pool_q (mpf_mp f)) = t :: qget (mp_kernel r) (pool_q (mpf_mp f)) ->
    (if mpf_time f >? 0 then timer_armed t (mpf_time f) s' else OThreadTimer t ∉ rt_timer_list s') ->
    (rt_scheduler_lock_nest (mp_kernel r) = 0 -> other_ready t (mp_kernel r) -> highest_running s' /\ rt_current_thread s' ≠ Some t) ->
    mp_alloc_result f t th mp fl r
      (Block (mkMpFrame (mpf_mp f) (mpf_thread f) (mpf_time f) (if mpf_time f >? 0 then rt_tick (mp_kernel r) else mpf_before_sleep f))) r'.

Lemma wp_rt_set_errno e t th Q r :
  rt_interrupt_nest (mp_kernel r) = 0 -> rt_current_thread (mp_kernel r) = Some t -> threads (mp_kernel r) !! t = Some th ->
  Q tt (set_mp_kernel (set_threads (<[t := set_th_error e th]> (threads (mp_kernel r))) (mp_kernel r)) r) ->
  wp (rt_set_errno e) Q r.
Proof. intros Hn Hc Ht HQ. unfold rt_set_errno. wp_norm. rewrite Hc, Hn. simpl. wp_norm. exists th. split; [done|]. by wp_norm. Qed.

Lemma wp_mp_alloc_loop f t th mp fl r :
  mp_ok (mpf_mp f) mp fl r -> mpf_thread f = Some t -> rt_current_thread (mp_kernel r) = Some t ->
  threads (mp_kernel r) !! t = Some th -> th_stat th = RT_THREAD_RUNNING -> rt_interrupt_nest (mp_kernel r) = 0 ->
  mpf_time f < TIMER_MAX -> mp_suspend_thread_count mp + 1 < 2 ^ 32 ->
  wp (mp_alloc_loop f) (fun o r' => mp_alloc_result f t th mp fl r o r') r.
Proof.
  intros [Hk Hmp Hrep Hcnt] Hft Hc Ht Hst Hn Hti Hs1. unfold mp_alloc_loop. wp_norm. exists mp. split; [done|].
  pose proof (pr_free _ _ _ _ Hrep) as Hfree. pose proof (pool_take Hrep) as Htake.
  destruct fl as [|a fl']; simpl in Hfree; rewrite Hfree.
  - rewrite Z.eqb_refl. destruct (Z.eqb_spec (mpf_time f) 0) as [E0|E0].
    + wp_norm. eapply wp_rt_set_errno; [done..|]. wp_norm.
      apply mp_alloc_none; [done|done|]. split; [by eapply kinv_update_same|done|done|done].
    + wp_norm. split; [done|]. wp_norm. rewrite wp_getso. exists t. split; [done|]. wp_norm. exists th. split; [done|].
      set (th' := set_th_error RT_EOK th). set (s1 := set_threads (<[t := th']> (threads (mp_kernel r))) (mp_kernel r)).
      pose proof (kinv_update_same 0 None _ t th th' Hk Ht ltac:(done)) as Hk1.
      wp_norm. fold s1. eapply (wp_thread_suspend 0 None t th'); [exact Hk1|simpl; apply lookup_insert_eq|by right|done|].
      intros tx Ex Hk2 Hno Hidle. wp_norm. exists mp. split; [done|]. wp_norm. unfold rt_tick_get. wp_norm.
      simpl rt_tick. 
      assert (forall q, qget (suspended t th' tx s1) q = qget s1 q) as Eq
        by (intros; eapply suspended_qget; [apply Hk1|simpl; apply lookup_insert_eq|done]).
      unfold q_push_front. rewrite Eq.
      set (qs := <[pool_q (mpf_mp f) := t :: qget s1 (pool_q (mpf_mp f))]> (queues (suspended t th' tx s1))).
      assert (kinv (set_queues qs (suspended t th' tx s1))) as Hk3.
      { eapply kinv_wait; [exact Hk2|simpl; apply lookup_insert_eq|done|auto with ipc|done|by rewrite Eq]. }
      eapply wp_mono; [eapply (wp_wait 0 (pool_q (mpf_mp f)) t th' tx _ (mpf_time f) s1 (fun _ s' =>
        mp_alloc_result f t th mp [] r (Block (mkMpFrame (mpf_mp f) (mpf_thread f) (mpf_time f) (if mpf_time f >? 0 then rt_tick (mp_kernel r) else mpf_before_sleep f)))
          (set_mp_kernel s' (set_mp_pools (<[mpf_mp f := set_mp_suspend_thread_count (mp_suspend_thread_count mp + 1) mp]> (mp_pools r)) r))))|].
      * exact Hk3.
      * lia.
      * done.
      * auto with ipc.
      * done.
      * done.
      * intros q'. cbn [queues set_queues]. unfold qs. rewrite qlist_insert. case_decide; [done|]. apply Eq.
      * intros s' Hk' Hg Hq _ Htm Hrun. eapply mp_alloc_wait; [done|done| |done|done|done|].
        -- split; [done|apply lookup_insert_eq|by apply pool_rep_count|]. simpl. rewrite Hq. simpl. lia.
        -- intros Hl (u & uh & Hu & Huh & Hus). apply Hrun; [done|]. exists u, uh. split_and!; [done| |done].
           simpl. by rewrite lookup_insert_ne.
      * intros [] s4 Hw4. wp_norm. eapply wp_mono; [exact Hw4|]. intros [] s5 HQ. wp_norm.
        rewrite u32_small in * by lia. exact HQ.
  - destruct (Z.eqb_spec (Z.of_nat (S (length fl'))) 0) as [|_]; [lia|].
    destruct (Htake a fl' eq_refl) as (q & Eq & El & Ha0 & Ha1 & Hrep'). wp_norm. exists mp. split; [done|]. wp_norm.
    rewrite El. split; [lia|]. wp_norm. exists q. split; [done|]. wp_norm. eexists. split; [apply lookup_insert_eq|]. wp_norm.
    rewrite insert_insert_eq. pose proof (free_bound Hrep) as Hb. pose proof (pr_block _ _ _ _ Hrep). simpl in Hb.
    rewrite u32_small in Hrep' by lia. unfold mp_stride in Ha1. rewrite !u32_small by lia.
    apply mp_alloc_block with (fl' := fl') (q := q); [done| |by split; [|apply lookup_insert_eq|..]].
    split; [apply (pr_in _ _ _ _ Hrep); by left|]. by pose proof (pr_nodup _ _ _ _ Hrep) as [? _]%NoDup_cons.
Qed.

(** C10: [rt_mp_alloc] by a running thread: it takes the first free block, marks it as the pool's and returns the
    address behind its header; without a free block it returns [RT_NULL] with the errno [-RT_ETIMEOUT] at
    once for a zero time, and else makes the caller wait at the front of the waiting list, with its timer armed for a bounded wait,
    and another thread runs. The blocks stay split between the free list and their users, and the kernel's invariant is kept. *)
Theorem rt_mp_alloc_spec n time t th mp fl r :
  mp_ok n mp fl r -> rt_current_thread (mp_kernel r) = Some t -> threads (mp_kernel r) !! t = Some th ->
  th_stat th = RT_THREAD_RUNNING -> rt_interrupt_nest (mp_kernel r) = 0 -> time < TIMER_MAX ->
  mp_suspend_thread_count mp + 1 < 2 ^ 32 ->
  wp (rt_mp_alloc n time) (mp_alloc_result (mkMpFrame n (Some t) time 0) t th mp fl r) r.
Proof. intros Hok Hc **. unfold rt_mp_alloc. wp_norm. rewrite Hc. by apply (wp_mp_alloc_loop (mkMpFrame n (Some t) time 0)). Qed.

(** What [rt_mp_free] does with the block [a]: it becomes the first free one, and the first waiting thread, if any, is woken. *)
Record mp_freed (n : nat) (a : Z) (mp : rt_mempool) (fl : list Z) (r r' : pools) : Prop := {
  mf_words : mp_words r' = <[a := PNext (mp_block_list mp)]> (mp_words r);
  mf_wakes :
    match qget (mp_kernel r) (pool_q n) with
    | [] => mp_kernel r' = mp_kernel r
    | t :: l => exists th, threads (mp_kernel r) !! t = Some th /\
        woken t (set_th_error RT_EOK th) (set_threads (<[t := set_th_error RT_EOK th]> (threads (mp_kernel r))) (mp_kernel r)) (mp_kernel r') /\
        qget (mp_kernel r') (pool_q n) = l /\ (rt_scheduler_lock_nest (mp_kernel r) = 0 -> highest_running (mp_kernel r'))
    end;
  mf_ok : exists mp', mp_ok n mp' (a :: fl) r' /\
    mp_suspend_thread_count mp' = Z.of_nat (length (qget (mp_kernel r') (pool_q n)));
}.

(** C11: [rt_mp_free] of a block in use, in a pool whose count of waiting threads is right: the block
    becomes the first free one, and the thread at the front of the waiting list is woken and runs if it is the most urgent one.
    The count stays right and the pool's and the kernel's invariants are kept. *)
Theorem rt_mp_free_spec n a c mp fl r :
  mp_ok n mp fl r -> in_use mp fl a -> rt_current_thread (mp_kernel r) = Some c ->
  mp_suspend_thread_count mp = Z.of_nat (length (qget (mp_kernel r) (pool_q n))) ->
  wp (rt_mp_free (a + SIZEOF_PTR)) (fun _ r' => mp_freed n a mp fl r r') r.
Proof.
  intros [Hk Hmp Hrep Hcnt] [Hin Hnot] Hc Hex. destruct (pool_give Hrep a Hin Hnot) as [Ew Hrep'].
  destruct (block_addr_bound Hrep a Hin) as [Ha0 Ha1]. pose proof (pr_block _ _ _ _ Hrep). unfold mp_stride in Ha1.
  unfold rt_mp_free. replace (u32 (a + 4 - 4)) with a by (rewrite u32_small; lia).
  wp_norm. exists n. split; [done|]. wp_norm. exists mp. split; [done|]. wp_norm.
  eexists. split; [apply lookup_insert_eq|]. wp_norm. eexists. split; [apply lookup_insert_eq|]. rewrite insert_insert_eq.
  set (mp1 := set_mp_block_list a _) in *. cbn [mp_block_list mp_suspend_thread_count set_mp_block_free_count].
  rewrite Z.gtb_ltb. destruct (Z.ltb_spec 0 (mp_suspend_thread_count mp)) as [Hpos|Hzero].
  - destruct (qget (mp_kernel r) (pool_q n)) as [|t l] eqn:Eq; simpl in Hex; [lia|].
    destruct (waiting_thread 0 None _ (pool_q n) t Hk ltac:(auto with ipc)) as (th & Ht & Hst); [rewrite Eq; by left|].
    pose proof (qo_nodup _ _ _ _ (si_queue _ (ki_sched _ _ _ Hk)) (pool_q n)) as Hnd. rewrite Eq in Hnd.
    apply NoDup_cons in Hnd as [Hntl _].
    wp_norm. exists t, l. split; [done|]. wp_norm. exists th. split; [done|]. wp_norm.
    set (s1 := set_threads (<[t := set_th_error RT_EOK th]> (threads (mp_kernel r))) (mp_kernel r)).
    pose proof (kinv_update_same 0 None _ t th (set_th_error RT_EOK th) Hk Ht ltac:(done)) as Hk1.
    eapply (wp_thread_resume 0 None t (set_th_error RT_EOK th)); [exact Hk1|simpl; apply lookup_insert_eq|done|done|].
    intros tx Ex Hk2. pose proof (woken_resumed t (set_th_error RT_EOK th) tx s1) as Hwk.
    wp_norm. eexists. split; [apply lookup_insert_eq|]. wp_norm. rewrite insert_insert_eq. fold s1.
    eapply (wp_schedule 0 None c); [exact Hk2|unfold resumed; by rewrite inserted_current|]. intros s2 Hk3 Hr _ Hh.
    pose proof (woken_resched _ _ _ _ _ Hwk Hr) as Hwk2.
    assert (qget s2 (pool_q n) = l) as Hq2.
    { rewrite (wk_queues _ _ _ _ Hwk2) by done. simpl. rewrite Eq. by apply list_del_head. }
    split; [done| |].
    + rewrite Eq. exists th. split_and!; [done|done|done|]. intros Hl.
      apply Hh; [|by eapply woken_runnable]. by rewrite (kf_lock _ _ (wk_frame _ _ _ _ Hwk)).
    + exists (set_mp_suspend_thread_count (mp_suspend_thread_count mp - 1) mp1). simpl mp_kernel. rewrite Hq2. split; [|simpl; lia].
      split; [done| |by apply pool_rep_count|simpl; rewrite Hq2; lia].
      simpl. rewrite lookup_insert_eq, u32_small by lia. done.
  - wp_norm. destruct (qget (mp_kernel r) (pool_q n)) as [|t l] eqn:Eq; simpl in Hex; [|lia]. split; [done|by rewrite Eq|].
    exists mp1. split; [|simpl; by rewrite Eq]. split; [done|apply lookup_insert_eq|done|simpl; by rewrite Eq].
Qed.

(** ** [rt_mp_init] *)

Lemma link_blocks_lookup k start stride w i :
  0 < stride -> 0 <= start -> start + Z.of_nat k * stride < 2 ^ 32 -> (i < k)%nat ->
  link_blocks k start stride w !! (start + Z.of_nat i * stride) = Some (PNext (start + (Z.of_nat i + 1) * stride)).
Proof.
  intros Hs H0. revert i. induction k as [|k IH]; intros i Hk Hi; [lia|]. cbn [link_blocks].
  rewrite (u32_small (start + Z.of_nat k * stride)), (u32_small (start + (Z.of_nat k + 1) * stride)) by nia.
  destruct (decide (i = k)) as [->|]; [by rewrite lookup_insert_eq|]. rewrite lookup_insert_ne by nia. apply IH; nia.
Qed.

(** The words that [init_block_list] leaves. *)
Definition fresh_words (start stride : Z) (k : nat) (w : gmap Z pool_word) : gmap Z pool_word :=
  <[start + (Z.of_nat k - 1) * stride := PNext 0]> (link_blocks k start stride w).

Lemma fresh_chain start stride k w :
  0 < stride -> 0 <= start -> start + Z.of_nat k * stride < 2 ^ 32 ->
  forall m j, (j + m = k)%nat ->
  free_chain (fresh_words start stride k w) (if decide (m = O) then 0 else start + Z.of_nat j * stride)
    ((fun i => start + Z.of_nat i * stride) <$> seq j m).
Proof.
  intros Hs H0 Hk. induction m as [|m IH]; intros j Hj; [done|]. cbn [seq fmap list_fmap free_chain]. split; [done|].
  eexists. split; [|apply (IH (S j)); lia]. unfold fresh_words. case_decide as Hm.
  - subst m. replace (Z.of_nat k - 1) with (Z.of_nat j) by lia. apply lookup_insert_eq.
  - rewrite lookup_insert_ne by nia. rewrite link_blocks_lookup by (done || lia). do 3 f_equal. lia.
Qed.

Lemma block_addrs_nodup start stride k : 0 < stride -> NoDup (block_addrs start stride k).
Proof. intros. unfold block_addrs. apply NoDup_fmap_2_strong; [|apply NoDup_seq]. intros i j _ _ E. nia. Qed.

Lemma wp_init_block_list start stride count Q r :
  0 < stride -> 0 < start -> 0 < count -> start + count * stride < 2 ^ 32 ->
  Q tt (set_mp_words (fresh_words start stride (Z.to_nat count) (mp_words r)) r) -> wp (init_block_list start stride count) Q r.
Proof.
  intros Hs H0 Hc Ht HQ. unfold init_block_list. wp_norm. rewrite (u32_small (count - 1)), u32_small by nia.
  unfold fresh_words in HQ. by rewrite Z2Nat.id in HQ by lia.
Qed.

Lemma fresh_pool n start size block count w :
  0 < start -> 0 <= block -> 0 < count -> start + count * (block + SIZEOF_PTR) < 2 ^ 32 ->
  pool_rep n (mkMemPool start size block start count count 0) (fresh_words start (block + SIZEOF_PTR) (Z.to_nat count) w)
    (block_addrs start (block + SIZEOF_PTR) (Z.to_nat count)).
Proof.
  intros H0 Hb Hc Ht. split; simpl; try done; try lia.
  - pose proof (fresh_chain start (block + 4) (Z.to_nat count) w ltac:(lia) ltac:(lia) ltac:(lia) (Z.to_nat count) O eq_refl) as Hf.
    rewrite decide_False in Hf by lia. by rewrite Z.mul_0_l, Z.add_0_r in Hf.
  - apply block_addrs_nodup. lia.
  - unfold block_addrs. rewrite length_fmap, length_seq. lia.
Qed.

(** How many blocks [rt_mp_init] makes of an area. *)
Definition mp_blocks (size block_size : Z) : Z :=
  RT_ALIGN_DOWN size RT_ALIGN_SIZE / (RT_ALIGN block_size RT_ALIGN_SIZE + SIZEOF_PTR).

(** [rt_mp_init] on an area with room for at least one block makes a pool in which every block is free, each
    with its header inside of the area, and nobody waits; the kernel's invariant is kept. *)
Theorem rt_mp_init_spec n name start size block_size l r :
  kinv (mp_kernel r) -> rt_object_container (mp_kernel r) !! RT_Object_Class_MemPool = Some l ->
  qget (mp_kernel r) (pool_q n) = [] -> 0 < start -> 0 <= size -> 0 <= block_size <= 2 ^ 32 - 8 ->
  start + size < 2 ^ 32 -> 0 < mp_blocks size block_size ->
  wp (rt_mp_init n name start size block_size) (fun v r' => v = RT_EOK /\ exists mp,
    let fl := block_addrs start (mp_stride mp) (Z.to_nat (mp_blocks size block_size)) in
    mp_ok n mp fl r' /\ mp_block_size mp = RT_ALIGN block_size RT_ALIGN_SIZE /\ mp_suspend_thread_count mp = 0 /\
    (forall a, a ∈ fl -> start <= a /\ a + SIZEOF_PTR + block_size <= start + size)) r.
Proof.
  intros Hk Hc Hq Hst Hsz Hbs Htop Hcnt. unfold mp_blocks in *.
  destruct (align_spec block_size ltac:(lia)) as [_ Hb]. set (b := RT_ALIGN block_size RT_ALIGN_SIZE) in *.
  set (k := RT_ALIGN_DOWN size RT_ALIGN_SIZE / (b + SIZEOF_PTR)) in *.
  assert (RT_ALIGN_DOWN size RT_ALIGN_SIZE <= size) as Hd by (rewrite align_4; Z.to_euclidean_division_equations; lia).
  assert (k * (b + 4) <= size) as Hfit.
  { pose proof (Z.mul_div_le (RT_ALIGN_DOWN size RT_ALIGN_SIZE) (b + 4) ltac:(lia)). unfold k. lia. }
  assert (b + 4 < 2 ^ 32) as Hb4 by nia.
  unfold rt_mp_init. fold b. wp_norm. rewrite (u32_small (b + 4)) by lia. fold k.
  eapply wp_mono; [apply (wp_ipc_create (OMemPool n) RT_Object_Class_MemPool name _ l (fun _ s' =>
    ipc_created (OMemPool n) (mkObject (object_name name) (RT_Object_Class_MemPool .| RT_Object_Class_Static)
      (old_flag (OMemPool n) (mp_kernel r))) (mp_kernel r) s')); done|].
  intros [] s1 Hw. wp_norm. eapply wp_mono; [exact Hw|]. intros [] s2 (Hk2 & _ & _ & Hq2 & _). wp_norm.
  apply wp_init_block_list; [lia|lia|done|lia|]. wp_norm. split; [done|]. eexists. split_and!; [split|..].
  - exact Hk2.
  - apply lookup_insert_eq.
  - apply fresh_pool; lia.
  - simpl. rewrite Hq2. simpl. lia.
  - done.
  - done.
  - intros a (i & Hi & ->)%elem_of_block_addrs. unfold mp_stride. simpl. nia.
Qed.

(** An area without room for a block: the end mark of the free list is written below the area. *)
Lemma rt_mp_init_no_room n name start size block_size l r :
  rt_object_container (mp_kernel r) !! RT_Object_Class_MemPool = Some l -> 0 <= block_size <= 2 ^ 32 - 8 ->
  mp_blocks size block_size = 0 ->
  wp (rt_mp_init n name start size block_size) (fun v r' => v = RT_EOK /\
    mp_words r' !! u32 (start + u32 (-1) * (RT_ALIGN block_size RT_ALIGN_SIZE + SIZEOF_PTR)) = Some (PNext 0)) r.
Proof.
  intros Hc Hbs Hz. unfold mp_blocks in Hz. destruct (align_spec block_size ltac:(lia)) as [Hd Hb].
  set (b := RT_ALIGN block_size RT_ALIGN_SIZE) in *. assert (b + 4 < 2 ^ 32) as Hb4.
  { destruct (decide (b + 4 = 2 ^ 32)) as [E|]; [|lia]. assert (b = 2 ^ 32 - 4) by lia. lia. }
  unfold rt_mp_init, rt_object_init, rt_object_get_information, object_link, rt_ipc_object_init, init_block_list. fold b.
  wp_norm. rewrite wp_getso. exists l. split; [done|]. wp_norm. rewrite (u32_small (b + 4)) by lia. rewrite Hz.
  split; [done|]. apply lookup_insert_eq.
Qed.

(** ** [rt_mp_detach] *)

(** The loop wakes the threads as [rt_ipc_list_resume_all] does, and counts them. *)
Lemma mp_resume_loop_wakes fuel n v s' mp r :
  mp_pools r !! n = Some mp -> resume_all_loop fuel (pool_q n) (mp_kernel r) = Some (v, s') ->
  exists k, mp_resume_loop fuel n r = Some (tt, set_mp_kernel s' (set_mp_pools (<[n := set_mp_suspend_thread_count k mp]> (mp_pools r)) r)).
Proof.
  revert mp r. induction fuel as [|fuel IH]; intros mp r Hmp E; [done|]. cbn [resume_all_loop mp_resume_loop] in *.
  unfold mbind, stM_bind, lift, mret, stM_ret in *. destruct (tlist_isempty (pool_q n) (mp_kernel r)) as [[e s1]|]; [|done].
  destruct e; simpl in *.
  { injection E as <- <-. exists (mp_suspend_thread_count mp). rewrite insert_id by (by destruct mp). by destruct r. }
  destruct (tlist_first (pool_q n) s1) as [[t s2]|]; [|done]. simpl.
  destruct (upd_thread t (set_th_error (- RT_ERROR)) s2) as [[[] s3]|]; [|done]. simpl.
  destruct (rt_thread_resume t s3) as [[x s4]|]; [|done]. simpl.
  unfold upd_pool, get_pool, put_pool, mbind, stM_bind, getso, modify. simpl. rewrite Hmp.
  set (mp1 := set_mp_suspend_thread_count _ mp).
  destruct (IH mp1 (set_mp_kernel s4 (set_mp_pools (<[n := mp1]> (mp_pools r)) r))) as [k Ek]; [apply lookup_insert_eq|done|].
  exists k. simpl in *. rewrite insert_insert_eq in Ek. exact Ek.
Qed.

Lemma wp_mp_resume_all n mp Q r :
  kinv (mp_kernel r) -> mp_pools r !! n = Some mp ->
  (forall s' k, kinv s' -> woken_all (pool_q n) (mp_kernel r) s' -> rt_current_thread s' = rt_current_thread (mp_kernel r) ->
     Q tt (set_mp_kernel s' (set_mp_pools (<[n := set_mp_suspend_thread_count k mp]> (mp_pools r)) r))) ->
  wp (mp_resume_all n) Q r.
Proof.
  intros Hk Hmp HQ. unfold mp_resume_all. wp_norm.
  assert (wp (rt_ipc_list_resume_all (pool_q n)) (fun _ s' => kinv s' /\ woken_all (pool_q n) (mp_kernel r) s' /\
    rt_current_thread s' = rt_current_thread (mp_kernel r)) (mp_kernel r)) as Hw.
  { eapply (wp_ipc_list_resume_all 0 None); [done|auto with ipc|done|done]. }
  unfold rt_ipc_list_resume_all in Hw. rewrite wp_bind, wp_gets in Hw. apply wp_run in Hw as (v & s' & E & Hk' & Hwa & Hc).
  destruct (mp_resume_loop_wakes _ n v s' mp r Hmp E) as [k Ek]. eapply wp_eq; [exact Ek|]. by apply HQ.
Qed.

(** [rt_mp_detach] of a pool that was made by [rt_mp_init] wakes every thread that waits for a block with the error
    [-RT_ERROR] and gives the pool's object back; the kernel's invariant is kept. *)
Theorem rt_mp_detach_spec n x mp fl r :
  mp_ok n mp fl r -> objects (mp_kernel r) !! OMemPool n = Some x ->
  obj_type x = RT_Object_Class_MemPool .| RT_Object_Class_Static ->
  wp (rt_mp_detach n) (fun v r' => v = RT_EOK /\ kinv (mp_kernel r') /\ exists s1,
    woken_all (pool_q n) (mp_kernel r) s1 /\ mp_kernel r' = object_gone (OMemPool n) x s1 /\ mp_words r' = mp_words r) r.
Proof.
  intros [Hk Hmp Hrep Hcnt] Hx Hty. unfold rt_mp_detach, rt_object_is_systemobject. wp_norm. exists x. split; [done|].
  rewrite Hty. split; [done|]. wp_norm. exists x. split; [done|]. wp_norm. rewrite Hty. split; [done|].
  eapply wp_mp_resume_all; [done..|]. intros s' k Hk' Hwa Hc. wp_norm.
  eapply wp_object_detach; [by rewrite (kf_objects _ _ (wa_frame _ _ _ Hwa))|]. wp_norm. split_and!; [done| |].
  - apply kinv_set_container. by apply kinv_put_object.
  - by exists s'.
Qed.

(** ** A stale count *)

(** A pool that counts a waiting thread which is gone: [rt_mp_free] takes the list's head for a thread. *)
Lemma rt_mp_free_stale n a mp fl r :
  mp_ok n mp fl r -> in_use mp fl a -> qget (mp_kernel r) (pool_q n) = [] -> 0 < mp_suspend_thread_count mp ->
  rt_mp_free (a + SIZEOF_PTR) r = None.
Proof.
  intros [Hk Hmp Hrep Hcnt] [Hin Hnot] Hq Hpos. destruct (pool_give Hrep a Hin Hnot) as [Ew _].
  destruct (block_addr_bound Hrep a Hin) as [Ha0 Ha1]. pose proof (pr_block _ _ _ _ Hrep). unfold mp_stride in Ha1.
  unfold rt_mp_free. replace (u32 (a + 4 - 4)) with a by (rewrite u32_small; lia).
  unfold get_owner, upd_pool, get_pool, put_pool, put_word, mbind, stM_bind, getso, modify, lift. simpl.
  rewrite Ew. simpl. rewrite Hmp. simpl. rewrite !lookup_insert_eq. simpl. rewrite !lookup_insert_eq. simpl.
  rewrite Z.gtb_ltb, (proj2 (Z.ltb_lt _ _)) by done. unfold tlist_first, getso. simpl. by rewrite Hq.
Qed.

(** ** Examples *)

(** The pool 0 has one block, in use; the pool 1 has three, the middle one in use. *)
Definition demo_pools : pools :=
  mkPools
    (list_to_map [(0%nat, mkMemPool 1000 16 8 0 1 0 0); (1%nat, mkMemPool 2000 36 8 2024 3 2 0)])
    (list_to_map [(1000, PPool 0); (2000, PNext 0); (2012, PPool 1); (2024, PNext 2000)]) 0
    (set_rt_object_container {[RT_Object_Class_MemPool := []]}
      (set_objects (<[OMemPool 0 := static_object RT_Object_Class_MemPool 0]> (objects demo_kernel)) demo_kernel)).

Lemma demo_pools_inv : kinv (mp_kernel demo_pools).
Proof. apply kinvb_sound. vm_compute. reflexivity. Qed.

Lemma demo_pool_0 : mp_ok 0 (mkMemPool 1000 16 8 0 1 0 0) [] demo_pools.
Proof.
  split; [apply demo_pools_inv|done| |vm_compute; split; [discriminate|done]].
  split; simpl; try done; try lia; [constructor|set_solver|].
  intros a ([|i] & Hi & ->)%elem_of_block_addrs _; [done|simpl in Hi; lia].
Qed.

Lemma demo_pool_1 : mp_ok 1 (mkMemPool 2000 36 8 2024 3 2 0) [2024; 2000] demo_pools.
Proof.
  split; [apply demo_pools_inv|done| |vm_compute; split; [discriminate|done]].
  split; simpl; try done; try lia.
  - split; [done|]. eexists. split; [reflexivity|]. split; [done|]. eexists. by split.
  - apply (bool_decide_unpack _). by vm_compute.
  - intros a Ha. apply elem_of_block_addrs. rewrite !elem_of_cons in Ha. destruct Ha as [->|[->|[]%elem_of_nil]].
    + exists 2%nat; split; [lia|reflexivity].
    + exists 0%nat; split; [lia|reflexivity].
  - intros a ([|[|[|i]]] & Hi & ->)%elem_of_block_addrs Hn; [set_solver|done|set_solver|simpl in Hi; lia].
Qed.

(** The running thread waits two ticks for a block of the pool 0 in vain. *)
Definition timed_out_alloc : MP (outcome Z mp_frame) :=
  o ← rt_mp_alloc 0 2;
  match o with
  | Block f =>
      lift (@rt_tick_increase idle_timeouts 3);;
      lift (@rt_tick_increase idle_timeouts 3);;
      rt_mp_alloc_resume f
  | Ret _ => rt_panic
  end.

(** A thread whose wait in [rt_mp_alloc] ends by timeout stays in the pool's count of waiting threads (nothing takes
    it off), and the next [rt_mp_free] of a block, which succeeds before, then takes the head of the empty waiting list for a thread. *)
Theorem rt_mp_alloc_timeout_breaks_free :
  mp_ok 0 (mkMemPool 1000 16 8 0 1 0 0) [] demo_pools /\
  wp (rt_mp_free 1004) (fun _ _ => True) demo_pools /\
  wp timed_out_alloc (fun o r => o = Ret 0 /\ qget (mp_kernel r) (pool_q 0) = [] /\
    mp_suspend_thread_count <$> (mp_pools r !! 0%nat) = Some 1 /\ rt_mp_free 1004 r = None) demo_pools.
Proof. split; [apply demo_pool_0|]. split; vm_compute; [done|by split_and!]. Qed.

Lemma rt_mp_alloc_spec_witness :
  wp (rt_mp_alloc 1 5) (mp_alloc_result (mkMpFrame 1 (Some 0%nat) 5 0) 0 (demo_thread 0 RT_THREAD_RUNNING 10)
    (mkMemPool 2000 36 8 2024 3 2 0) [2024; 2000] demo_pools) demo_pools /\
  wp (rt_mp_alloc 0 5) (mp_alloc_result (mkMpFrame 0 (Some 0%nat) 5 0) 0 (demo_thread 0 RT_THREAD_RUNNING 10)
    (mkMemPool 1000 16 8 0 1 0 0) [] demo_pools) demo_pools.
Proof.
  split.
  - apply rt_mp_alloc_spec; [apply demo_pool_1|reflexivity..].
  - apply rt_mp_alloc_spec; [apply demo_pool_0|reflexivity..].
Defined.

Lemma rt_mp_init_spec_witness :
  wp (rt_mp_init 2 "m" 3000 50 6) (fun v r' => v = RT_EOK /\ exists mp,
    let fl := block_addrs 3000 (mp_stride mp) (Z.to_nat (mp_blocks 50 6)) in
    mp_ok 2 mp fl r' /\ mp_block_size mp = RT_ALIGN 6 RT_ALIGN_SIZE /\ mp_suspend_thread_count mp = 0 /\
    (forall a, a ∈ fl -> 3000 <= a /\ a + SIZEOF_PTR + 6 <= 3000 + 50)) demo_pools.
Proof. apply (rt_mp_init_spec 2 "m" 3000 50 6 []); [apply demo_pools_inv|reflexivity|reflexivity|lia..|reflexivity]. Defined.

(** The thread 3 waits for a block of the pool 0. *)
Definition demo_waited : pools :=
  set_mp_pools (<[0%nat := mkMemPool 1000 16 8 0 1 0 1]> (mp_pools demo_pools))
    (set_mp_kernel (set_queues (<[QSuspend (OSem 0) := []]> (<[pool_q 0 := [3%nat]]> (queues (mp_kernel demo_pools)))) (mp_kernel demo_pools))
      demo_pools).

Lemma demo_waited_ok : mp_ok 0 (mkMemPool 1000 16 8 0 1 0 1) [] demo_waited.
Proof.
  split; [apply kinvb_sound; vm_compute; reflexivity|done|apply (pool_rep_count (mo_rep _ _ _ _ demo_pool_0) 1)|].
  vm_compute. split; [discriminate|done].
Qed.

Lemma rt_mp_free_spec_witness :
  wp (rt_mp_free (1000 + SIZEOF_PTR)) (fun _ r' => mp_freed 0 1000 (mkMemPool 1000 16 8 0 1 0 1) [] demo_waited r') demo_waited.
Proof.
  apply (rt_mp_free_spec 0 1000 0%nat (mkMemPool 1000 16 8 0 1 0 1)); [apply demo_waited_ok| |reflexivity..].
  split; [apply elem_of_block_addrs; exists 0%nat; split; [simpl; lia|reflexivity]|set_solver].
Defined.

Lemma rt_mp_detach_spec_witness :
  wp (rt_mp_detach 0) (fun v r' => v = RT_EOK /\ kinv (mp_kernel r') /\ exists s1,
    woken_all (pool_q 0) (mp_kernel demo_waited) s1 /\
    mp_kernel r' = object_gone (OMemPool 0) (static_object RT_Object_Class_MemPool 0) s1 /\ mp_words r' = mp_words demo_waited) demo_waited.
Proof. eapply (rt_mp_detach_spec 0 _ (mkMemPool 1000 16 8 0 1 0 1)); [apply demo_waited_ok|reflexivity..]. Defined.
