(* ===== verification/ByteMem.v ===== *)
(** The memory services of src/kservice.c on a byte-addressed little-endian memory: fill, copy, move and compare. *)

From Stdlib Require Import FunctionalExtensionality.
From S2P Require Import Prelude.

(** ** Memory *)

(** The bytes at the addresses that the program may access; any other access is [None]. A load and a store are of 8 bits. *)
Abbreviation bytes := (gmap Z Z).
Abbreviation BM := (stM bytes).

Definition load (p : Z) : BM Z := getso (fun m => u8 <$> m !! p).
Definition store (p v : Z) : BM unit := fun m =>
  match m !! p with Some _ => Some (tt, <[p := u8 v]> m) | None => None end.

(** A word of four bytes. *)
Definition load32 (p : Z) : BM Z :=
  b0 ← load p; b1 ← load (p + 1); b2 ← load (p + 2); b3 ← load (p + 3);
  mret (b0 + b1 * 2 ^ 8 + b2 * 2 ^ 16 + b3 * 2 ^ 24).
Definition store32 (p v : Z) : BM unit :=
  store p v;; store (p + 1) (v / 2 ^ 8);; store (p + 2) (v / 2 ^ 16);; store (p + 3) (v / 2 ^ 24).

Abbreviation SIZEOF_LONG := 4.

(** ** [rt_memset] *)

(** [while (count--) *m++ = (char)d] *)
Fixpoint set_loop (count : nat) (m d : Z) : BM unit :=
  match count with
  | O => mret tt
  | S count => store m d;; set_loop count (m + 1) d
  end.

(** [while (count >= LBLOCKSIZE)]; the results are [aligned_addr] and [count]. *)
Fixpoint set_word_loop (fuel : nat) (aligned_addr count buffer : Z) : BM (Z * Z) :=
  match fuel with
  | O => rt_panic
  | S fuel =>
      if count >=? SIZEOF_LONG then
        store32 aligned_addr buffer;;
        set_word_loop fuel (aligned_addr + SIZEOF_LONG) (count - SIZEOF_LONG) buffer
      else mret (aligned_addr, count)
  end.

(** [while (count >= LBLOCKSIZE * 4)] *)
Fixpoint set_block_loop (fuel : nat) (aligned_addr count buffer : Z) : BM (Z * Z) :=
  match fuel with
  | O => rt_panic
  | S fuel =>
      if count >=? SIZEOF_LONG * 4 then
        store32 aligned_addr buffer;;
        store32 (aligned_addr + 4) buffer;;
        store32 (aligned_addr + 8) buffer;;
        store32 (aligned_addr + 12) buffer;;
        set_block_loop fuel (aligned_addr + 16) (count - 4 * SIZEOF_LONG) buffer
      else mret (aligned_addr, count)
  end.

Definition rt_memset (s c count : Z) : BM Z :=
  let d := c .& 255 in
  r ← (if (SIZEOF_LONG <=? count) && (s .& (SIZEOF_LONG - 1) =? 0) then
         let buffer := Z.shiftl d 8 .| d in
         let buffer := buffer .| u32 (Z.shiftl buffer 16) in
         a ← set_block_loop (S (Z.to_nat count)) s count buffer;
         set_word_loop (S (Z.to_nat count)) a.1 a.2 buffer
       else mret (s, count));
  set_loop (Z.to_nat r.2) r.1 d;;
  mret s.

(** ** [rt_memcpy] *)

(** [while (len--) *dst_ptr++ = *src_ptr++] *)
Fixpoint copy_loop (len : nat) (dst_ptr src_ptr : Z) : BM unit :=
  match len with
  | O => mret tt
  | S len => c ← load src_ptr; store dst_ptr c;; copy_loop len (dst_ptr + 1) (src_ptr + 1)
  end.

(** [while (len >= LITTLEBLOCKSIZE)]; the results are [aligned_dst], [aligned_src] and [len]. *)
Fixpoint copy_word_loop (fuel : nat) (dst src len : Z) : BM (Z * Z * Z) :=
  match fuel with
  | O => rt_panic
  | S fuel =>
      if len >=? SIZEOF_LONG then
        w ← load32 src; store32 dst w;;
        copy_word_loop fuel (dst + 4) (src + 4) (len - SIZEOF_LONG)
      else mret (dst, src, len)
  end.

(** [while (len >= BIGBLOCKSIZE)] *)
Fixpoint copy_block_loop (fuel : nat) (dst src len : Z) : BM (Z * Z * Z) :=
  match fuel with
  | O => rt_panic
  | S fuel =>
      if len >=? SIZEOF_LONG * 4 then
        w ← load32 src; store32 dst w;;
        w ← load32 (src + 4); store32 (dst + 4) w;;
        w ← load32 (src + 8); store32 (dst + 8) w;;
        w ← load32 (src + 12); store32 (dst + 12) w;;
        copy_block_loop fuel (dst + 16) (src + 16) (len - SIZEOF_LONG * 4)
      else mret (dst, src, len)
  end.

(** [len] is a signed int; its comparisons with [sizeof] are unsigned. *)
Definition rt_memcpy (dst src count : Z) : BM Z :=
  let len := u32 count in
  r ← (if negb (len <? SIZEOF_LONG * 4) && ((src .& (SIZEOF_LONG - 1)) .| (dst .& (SIZEOF_LONG - 1)) =? 0) then
         a ← copy_block_loop (S (Z.to_nat len)) dst src len;
         copy_word_loop (S (Z.to_nat len)) a.1.1 a.1.2 a.2
       else mret (dst, src, len));
  copy_loop (Z.to_nat r.2) r.1.1 r.1.2;;
  mret dst.

(** ** [rt_memmove] *)

(** [while (n--) *(--tmp) = *(--s)] *)
Fixpoint copy_down_loop (n : nat) (tmp s : Z) : BM unit :=
  match n with
  | O => mret tt
  | S n => c ← load (s - 1); store (tmp - 1) c;; copy_down_loop n (tmp - 1) (s - 1)
  end.

Definition rt_memmove (dest src n : Z) : BM Z :=
  (if (src <? dest) && (dest <? src + n) then copy_down_loop (Z.to_nat n) (dest + n) (src + n)
   else copy_loop (Z.to_nat n) dest src);;
  mret dest.

(** ** [rt_memcmp] *)

Fixpoint memcmp_loop (count : nat) (su1 su2 : Z) : BM Z :=
  match count with
  | O => mret 0
  | S count =>
      a ← load su1; b ← load su2;
      if negb (a - b =? 0) then mret (a - b) else memcmp_loop count (su1 + 1) (su2 + 1)
  end.

Definition rt_memcmp (cs ct count : Z) : BM Z := memcmp_loop (Z.to_nat count) cs ct.

(** ** Byte accesses *)

Definition byte_mem (m : bytes) : Prop := forall a v, m !! a = Some v -> 0 <= v < 256.

Lemma wp_load p Q m : wp (load p) Q m <-> exists v, m !! p = Some v /\ Q (u8 v) m.
Proof. unfold load. rewrite wp_getso. destruct (m !! p); naive_solver. Qed.

Lemma wp_store p v Q m : wp (store p v) Q m <-> is_Some (m !! p) /\ Q tt (<[p := u8 v]> m).
Proof. unfold wp, store. destruct (m !! p); [naive_solver|]. split; [done|]. by intros [[? ?] _]. Qed.

#[global] Hint Rewrite wp_load wp_store : wp.

Lemma u8_small v : 0 <= v < 256 -> u8 v = v.
Proof. apply (uwrap_small 8). Qed.

Lemma u8_byte v : 0 <= u8 v < 256.
Proof. apply (uwrap_bound 8). lia. Qed.

Lemma byte_mem_insert m p v : byte_mem m -> byte_mem (<[p := u8 v]> m).
Proof.
  intros Hm a w. destruct (decide (p = a)) as [->|]; [|rewrite lookup_insert_ne by done; apply Hm].
  rewrite lookup_insert_eq. intros [= <-]. apply u8_byte.
Qed.

(** Equalities of programs. *)
Lemma bind_assoc {S A B C} (m : stM S A) (f : A -> stM S B) (g : B -> stM S C) : ((m ≫= f) ≫= g) = (m ≫= (fun a => f a ≫= g)).
Proof. apply functional_extensionality. intros s. unfold mbind, stM_bind. by destruct (m s) as [[a s']|]. Qed.

Lemma ret_bind {S A B} (a : A) (f : A -> stM S B) : (mret a ≫= f) = f a.
Proof. by apply functional_extensionality. Qed.

Lemma seq_ext {S A B} (m : stM S A) (f g : A -> stM S B) : (forall a, f a = g a) -> (m ≫= f) = (m ≫= g).
Proof. intros H. f_equal. by apply functional_extensionality. Qed.

(** ** Fill: the words are four bytes each *)

Lemma set_loop_app a b p d : set_loop (a + b) p d = (set_loop a p d;; set_loop b (p + Z.of_nat a) d).
Proof.
  revert p. induction a as [|a IH]; intros p; cbn [set_loop Nat.add]; [by rewrite ret_bind, Z.add_0_r|].
  rewrite bind_assoc. apply seq_ext. intros []. rewrite IH. by replace (p + Z.of_nat (S a)) with (p + 1 + Z.of_nat a) by lia.
Qed.

(** A disjunction without common bits is a sum. *)
Lemma lor_shiftl k a b : 0 <= k -> 0 <= a < 2 ^ k -> a .| Z.shiftl b k = a + b * 2 ^ k.
Proof.
  intros Hk Ha. rewrite <- Z.shiftl_mul_pow2 by done.
  assert (a .& Z.shiftl b k = 0) as E.
  { apply Z.bits_inj'. intros i Hi. rewrite Z.land_spec, Z.bits_0, Z.shiftl_spec by done. destruct (Z.ltb_spec i k).
    - by rewrite (Z.testbit_neg_r b) by lia; apply andb_false_r.
    - rewrite <- (Z.mod_small a (2 ^ k)) by done. rewrite Z.mod_pow2_bits_high by lia. done. }
  rewrite <- Z.lxor_lor by done. symmetry. by apply Z.add_nocarry_lxor.
Qed.

(** The word that repeats a byte. *)
Lemma repeat_byte d : 0 <= d < 256 ->
  let b := Z.shiftl d 8 .| d in b .| u32 (Z.shiftl b 16) = d + d * 2 ^ 8 + d * 2 ^ 16 + d * 2 ^ 24.
Proof.
  intros Hd b. assert (b = d + d * 2 ^ 8) as Eb by (unfold b; rewrite Z.lor_comm; apply lor_shiftl; lia).
  rewrite u32_small by (rewrite Z.shiftl_mul_pow2; lia). rewrite lor_shiftl by lia. lia.
Qed.

Lemma store32_set d p : 0 <= d < 256 -> store32 p (d + d * 2 ^ 8 + d * 2 ^ 16 + d * 2 ^ 24) = set_loop 4 p d.
Proof.
  intros Hd. unfold store32. cbn [set_loop].
  assert (u8 (d + d * 2 ^ 8 + d * 2 ^ 16 + d * 2 ^ 24) = u8 d /\ u8 ((d + d * 2 ^ 8 + d * 2 ^ 16 + d * 2 ^ 24) / 2 ^ 8) = u8 d /\
    u8 ((d + d * 2 ^ 8 + d * 2 ^ 16 + d * 2 ^ 24) / 2 ^ 16) = u8 d /\ u8 ((d + d * 2 ^ 8 + d * 2 ^ 16 + d * 2 ^ 24) / 2 ^ 24) = u8 d)
    as (E0 & E1 & E2 & E3) by (unfold uwrap; split_and!; Z.to_euclidean_division_equations; lia).
  assert (forall q v, u8 v = u8 d -> store q v = store q d) as Hs by (unfold store; by intros q v ->).
  rewrite (Hs p _ E0), (Hs _ _ E1), (Hs _ _ E2), (Hs _ _ E3). apply seq_ext. intros []. apply seq_ext. intros [].
  replace (p + 1 + 1) with (p + 2) by lia. replace (p + 2 + 1) with (p + 3) by lia. apply seq_ext. intros [].
  apply functional_extensionality. intros m. unfold mbind, stM_bind. by destruct (store (p + 3) d m) as [[[] m']|].
Qed.

(** A step of [k] bytes in front of a loop of [k]-byte steps. *)
Lemma set_loop_step k n p d :
  0 < k <= n ->
  (set_loop (Z.to_nat k) p d;; set_loop (Z.to_nat ((n - k) / k * k)) (p + k) d;; mret (p + k + (n - k) / k * k, (n - k) mod k)) =
  ((set_loop (Z.to_nat (n / k * k)) p d;; mret (p + n / k * k, n mod k)) : BM (Z * Z)).
Proof.
  intros Hk. assert (n / k = (n - k) / k + 1) as E by (rewrite <- Z.div_add by lia; f_equal; lia).
  assert (n mod k = (n - k) mod k) as Em by (rewrite !Z.mod_eq by lia; rewrite E; lia).
  assert (0 <= (n - k) / k) as Hp by (apply Z.div_pos; lia).
  replace (Z.to_nat (n / k * k)) with (Z.to_nat k + Z.to_nat ((n - k) / k * k))%nat by nia.
  rewrite Em, set_loop_app, Z2Nat.id, bind_assoc by lia. by replace (p + n / k * k) with (p + k + (n - k) / k * k) by lia.
Qed.

Section set.
Context {d : Z}.
Hypothesis Hd : 0 <= d < 256.
Let buffer : Z := d + d * 2 ^ 8 + d * 2 ^ 16 + d * 2 ^ 24.

Lemma store_buffer p : store32 p buffer = set_loop 4 p d.
Proof using Hd. by apply store32_set. Qed.

Lemma set_word_loop_eq fuel p n : 0 <= n < Z.of_nat fuel ->
  set_word_loop fuel p n buffer = (set_loop (Z.to_nat (n / 4 * 4)) p d;; mret (p + n / 4 * 4, n mod 4)).
Proof using Hd.
  revert p n. induction fuel as [|fuel IH]; intros p n Hn; [lia|]. cbn [set_word_loop].
  rewrite Z.geb_leb. destruct (Z.leb_spec 4 n) as [Hle|Hgt].
  - rewrite <- set_loop_step by lia. rewrite store_buffer. apply seq_ext. intros []. apply IH. lia.
  - rewrite Z.div_small, Z.mod_small by lia. simpl. by rewrite ret_bind, Z.add_0_r.
Qed.

Lemma set_block_loop_eq fuel p n : 0 <= n < Z.of_nat fuel ->
  set_block_loop fuel p n buffer = (set_loop (Z.to_nat (n / 16 * 16)) p d;; mret (p + n / 16 * 16, n mod 16)).
Proof using Hd.
  revert p n. induction fuel as [|fuel IH]; intros p n Hn; [lia|]. cbn [set_block_loop].
  rewrite Z.geb_leb. destruct (Z.leb_spec (4 * 4) n) as [Hle|Hgt].
  - rewrite <- set_loop_step by lia. rewrite !store_buffer.
    change (Z.to_nat 16) with (4 + (4 + (4 + 4)))%nat. rewrite !set_loop_app, !bind_assoc. apply seq_ext. intros [].
    apply seq_ext. intros []. replace (p + Z.of_nat 4 + Z.of_nat 4) with (p + 8) by lia. apply seq_ext. intros [].
    replace (p + 8 + Z.of_nat 4) with (p + 12) by lia. apply seq_ext. intros []. apply IH. lia.
  - rewrite Z.div_small, Z.mod_small by lia. simpl. by rewrite ret_bind, Z.add_0_r.
Qed.
End set.

(** Blocks of four words, then words, then bytes. *)
Lemma blocks_and_words n : 0 <= n ->
  (Z.to_nat n = Z.to_nat (n / 16 * 16) + (Z.to_nat (n mod 16 / 4 * 4) + Z.to_nat (n mod 16 mod 4)))%nat.
Proof.
  intros Hn. pose proof (Z.div_mod n 16 ltac:(lia)). pose proof (Z.div_mod (n mod 16) 4 ltac:(lia)).
  pose proof (Z.mod_pos_bound n 16 ltac:(lia)). pose proof (Z.mod_pos_bound (n mod 16) 4 ltac:(lia)).
  pose proof (Z.div_pos n 16 Hn ltac:(lia)). pose proof (Z.div_pos (n mod 16) 4 ltac:(lia) ltac:(lia)). lia.
Qed.

Lemma rt_memset_eq s c count : 0 <= count -> rt_memset s c count = (set_loop (Z.to_nat count) s (c .& 255);; mret s).
Proof.
  intros Hn. unfold rt_memset. assert (0 <= c .& 255 < 256) as Hd by (change 255 with (Z.ones 8); rewrite Z.land_ones; wrap_lia).
  destruct (_ && _); [|by rewrite ret_bind]. rewrite repeat_byte by done.
  set (d := c .& 255) in *. assert (Hm : 0 <= count mod 16 < 16) by (apply Z.mod_pos_bound; lia).
  assert (0 <= count / 16 /\ 0 <= count mod 16 / 4) as [Hq Hr] by (split; apply Z.div_pos; lia).
  pose proof (Z.mod_le count 16 Hn ltac:(lia)).
  assert (set_loop (Z.to_nat count) s d = set_loop (Z.to_nat (count / 16 * 16) + (Z.to_nat (count mod 16 / 4 * 4) +
    Z.to_nat (count mod 16 mod 4))) s d) as -> by (by rewrite <- blocks_and_words by lia).
  rewrite set_block_loop_eq, !set_loop_app, !bind_assoc by (done || lia). apply seq_ext. intros []. rewrite ret_bind. cbn [fst snd].
  rewrite set_word_loop_eq, !bind_assoc by (done || lia). rewrite !Z2Nat.id by lia. apply seq_ext. intros []. by rewrite ret_bind.
Qed.

(** ** Copy: the words are four bytes each *)

Lemma copy_loop_app a b dst src : copy_loop (a + b) dst src = (copy_loop a dst src;; copy_loop b (dst + Z.of_nat a) (src + Z.of_nat a)).
Proof.
  revert dst src. induction a as [|a IH]; intros dst src; cbn [copy_loop Nat.add]; [by rewrite ret_bind, !Z.add_0_r|].
  rewrite bind_assoc. apply seq_ext. intros c. rewrite bind_assoc. apply seq_ext. intros []. rewrite IH.
  by replace (dst + Z.of_nat (S a)) with (dst + 1 + Z.of_nat a) by lia; replace (src + Z.of_nat (S a)) with (src + 1 + Z.of_nat a) by lia.
Qed.

(** A lookup behind insertions elsewhere. *)
Ltac past a E := rewrite !(lookup_insert_ne _ _ a) by lia; rewrite ?E; simpl.

(** A word is copied as its bytes are, unless the two overlap in part. *)
Lemma load32_store32 dst src : dst = src \/ 4 <= Z.abs (dst - src) -> (w ← load32 src; store32 dst w) = copy_loop 4 dst src.
Proof.
  intros Hd. apply functional_extensionality. intros m.
  assert (forall b0 b1 b2 b3, let w := u8 b0 + u8 b1 * 2 ^ 8 + u8 b2 * 2 ^ 16 + u8 b3 * 2 ^ 24 in
    u8 w = u8 (u8 b0) /\ u8 (w / 2 ^ 8) = u8 (u8 b1) /\ u8 (w / 2 ^ 16) = u8 (u8 b2) /\ u8 (w / 2 ^ 24) = u8 (u8 b3)) as Hw.
  { intros b0 b1 b2 b3 w. unfold w. pose proof (u8_byte b0). pose proof (u8_byte b1). pose proof (u8_byte b2). pose proof (u8_byte b3).
    rewrite !(u8_small (u8 _)) by done. generalize dependent (u8 b0). generalize dependent (u8 b1). generalize dependent (u8 b2).
    generalize dependent (u8 b3). intros. unfold uwrap. split_and!; Z.to_euclidean_division_equations; lia. }
  cbn [copy_loop]. replace (src + 1 + 1) with (src + 2) by lia. replace (src + 2 + 1) with (src + 3) by lia.
  replace (dst + 1 + 1) with (dst + 2) by lia. replace (dst + 2 + 1) with (dst + 3) by lia.
  unfold load32, store32, load, store, getso, mbind, stM_bind, mret, stM_ret.
  destruct (m !! src) as [b0|] eqn:E0; simpl; [|done].
  destruct (m !! (src + 1)) as [b1|] eqn:E1; simpl.
  2: { destruct (m !! dst); [|done]. by past (src + 1) E1. }
  destruct (m !! (src + 2)) as [b2|] eqn:E2; simpl.
  2: { destruct (m !! dst); [|done]. past (src + 1) E1. past (dst + 1) E1. destruct (m !! (dst + 1)); [|done]. by past (src + 2) E2. }
  destruct (m !! (src + 3)) as [b3|] eqn:E3; simpl.
  2: { destruct (m !! dst); [|done]. past (src + 1) E1. past (dst + 1) E1. destruct (m !! (dst + 1)); [|done]. past (src + 2) E2.
       past (dst + 2) E2. destruct (m !! (dst + 2)); [|done]. by past (src + 3) E3. }
  destruct (Hw b0 b1 b2 b3) as (W0 & W1 & W2 & W3). rewrite W0, W1, W2, W3.
  destruct (m !! dst) eqn:D0; [|done]. past (dst + 1) E1. past (src + 1) E1. past (dst + 1) E1.
  destruct (m !! (dst + 1)) eqn:D1; [|done]. past (dst + 2) E2. past (src + 2) E2. past (dst + 2) E2.
  destruct (m !! (dst + 2)) eqn:D2; [|done]. past (dst + 3) E3. past (src + 3) E3. past (dst + 3) E3. by destruct (m !! (dst + 3)).
Qed.

(** A step of [k] bytes in front of a loop of [k]-byte steps. *)
Lemma copy_loop_step k n dst src :
  0 < k <= n ->
  (copy_loop (Z.to_nat k) dst src;; copy_loop (Z.to_nat ((n - k) / k * k)) (dst + k) (src + k);;
   mret (dst + k + (n - k) / k * k, src + k + (n - k) / k * k, (n - k) mod k)) =
  ((copy_loop (Z.to_nat (n / k * k)) dst src;; mret (dst + n / k * k, src + n / k * k, n mod k)) : BM (Z * Z * Z)).
Proof.
  intros Hk. assert (n / k = (n - k) / k + 1) as E by (rewrite <- Z.div_add by lia; f_equal; lia).
  assert (n mod k = (n - k) mod k) as Em by (rewrite !Z.mod_eq by lia; rewrite E; lia).
  assert (0 <= (n - k) / k) as Hp by (apply Z.div_pos; lia).
  replace (Z.to_nat (n / k * k)) with (Z.to_nat k + Z.to_nat ((n - k) / k * k))%nat by nia.
  rewrite Em, copy_loop_app, Z2Nat.id, bind_assoc by lia. replace (dst + n / k * k) with (dst + k + (n - k) / k * k) by lia.
  by replace (src + n / k * k) with (src + k + (n - k) / k * k) by lia.
Qed.

Lemma copy_word_bind {A} dst src (f : BM A) : dst = src \/ 4 <= Z.abs (dst - src) ->
  (w ← load32 src; store32 dst w;; f) = (copy_loop 4 dst src;; f).
Proof. intros H. by rewrite <- load32_store32, bind_assoc by done. Qed.

Lemma copy_word_loop_eq fuel dst src n : dst = src \/ 4 <= Z.abs (dst - src) -> 0 <= n < Z.of_nat fuel ->
  copy_word_loop fuel dst src n = (copy_loop (Z.to_nat (n / 4 * 4)) dst src;; mret (dst + n / 4 * 4, src + n / 4 * 4, n mod 4)).
Proof.
  revert dst src n. induction fuel as [|fuel IH]; intros dst src n Ha Hn; [lia|]. cbn [copy_word_loop].
  rewrite Z.geb_leb. destruct (Z.leb_spec 4 n) as [Hle|Hgt].
  - rewrite <- copy_loop_step, copy_word_bind by lia. apply seq_ext. intros []. apply IH; lia.
  - rewrite Z.div_small, Z.mod_small by lia. simpl. by rewrite ret_bind, !Z.add_0_r.
Qed.

Lemma copy_block_loop_eq fuel dst src n : dst = src \/ 4 <= Z.abs (dst - src) -> 0 <= n < Z.of_nat fuel ->
  copy_block_loop fuel dst src n =
    (copy_loop (Z.to_nat (n / 16 * 16)) dst src;; mret (dst + n / 16 * 16, src + n / 16 * 16, n mod 16)).
Proof.
  revert dst src n. induction fuel as [|fuel IH]; intros dst src n Ha Hn; [lia|]. cbn [copy_block_loop].
  rewrite Z.geb_leb. destruct (Z.leb_spec (4 * 4) n) as [Hle|Hgt].
  - rewrite <- copy_loop_step, copy_word_bind by lia.
    change (Z.to_nat 16) with (4 + (4 + (4 + 4)))%nat. rewrite !copy_loop_app, !bind_assoc. apply seq_ext. intros [].
    rewrite copy_word_bind by lia. apply seq_ext. intros [].
    replace (dst + Z.of_nat 4 + Z.of_nat 4) with (dst + 8) by lia. replace (src + Z.of_nat 4 + Z.of_nat 4) with (src + 8) by lia.
    rewrite copy_word_bind by lia. apply seq_ext. intros [].
    replace (dst + 8 + Z.of_nat 4) with (dst + 12) by lia. replace (src + 8 + Z.of_nat 4) with (src + 12) by lia.
    rewrite copy_word_bind by lia. apply seq_ext. intros []. apply IH; lia.
  - rewrite Z.div_small, Z.mod_small by lia. simpl. by rewrite ret_bind, !Z.add_0_r.
Qed.

(** Two aligned addresses are equal or a word apart. *)
Lemma aligned_apart a b : (a .& 3) .| (b .& 3) = 0 -> b = a \/ 4 <= Z.abs (b - a).
Proof.
  intros [Ha Hb]%Z.lor_eq_0_iff. change 3 with (Z.ones 2) in *. rewrite Z.land_ones in Ha, Hb by lia.
  apply Z.mod_divide in Ha as [x ->]; [|lia]. apply Z.mod_divide in Hb as [y ->]; [|lia]. lia.
Qed.

Lemma rt_memcpy_eq dst src count : 0 <= count < 2 ^ 32 -> rt_memcpy dst src count = (copy_loop (Z.to_nat count) dst src;; mret dst).
Proof.
  intros Hn. unfold rt_memcpy. rewrite u32_small by lia. destruct (negb _ && _) eqn:Eb; [|by rewrite ret_bind].
  apply andb_true_iff in Eb as [_ Ha]. apply Z.eqb_eq, aligned_apart in Ha.
  assert (Hm : 0 <= count mod 16 < 16) by (apply Z.mod_pos_bound; lia).
  assert (0 <= count / 16 /\ 0 <= count mod 16 / 4) as [Hq Hr] by (split; apply Z.div_pos; lia).
  pose proof (Z.mod_le count 16 (proj1 Hn) ltac:(lia)).
  assert (copy_loop (Z.to_nat count) dst src = copy_loop (Z.to_nat (count / 16 * 16) + (Z.to_nat (count mod 16 / 4 * 4) +
    Z.to_nat (count mod 16 mod 4))) dst src) as -> by (by rewrite <- blocks_and_words by lia).
  rewrite copy_block_loop_eq, !copy_loop_app, !bind_assoc by (done || lia). apply seq_ext. intros []. rewrite ret_bind. cbn [fst snd].
  rewrite copy_word_loop_eq, !bind_assoc by (done || lia). rewrite !Z2Nat.id by lia. apply seq_ext. intros []. by rewrite ret_bind.
Qed.

(** ** What the services do *)

(** The [n] bytes from [p] on may be accessed. *)
Definition mapped (p n : Z) (m : bytes) : Prop := forall a, p <= a < p + n -> is_Some (m !! a).

Lemma wp_set_loop n p d m Q :
  mapped p (Z.of_nat n) m ->
  (forall m', (forall a, m' !! a = if (p <=? a) && (a <? p + Z.of_nat n) then Some (u8 d) else m !! a) -> Q tt m') ->
  wp (set_loop n p d) Q m.
Proof.
  revert p m. induction n as [|n IH]; intros p m Hm HQ; cbn [set_loop]; wp_norm.
  - apply HQ. intros a. destruct (Z.leb_spec p a), (Z.ltb_spec a (p + Z.of_nat 0)); simpl; (done || lia).
  - split; [apply Hm; lia|]. apply IH.
    + intros a Ha. destruct (decide (p = a)) as [->|]; [rewrite lookup_insert_eq; by eexists|].
      rewrite lookup_insert_ne by done. apply Hm. lia.
    + intros m' Hm'. apply HQ. intros a. rewrite Hm'. destruct (decide (p = a)) as [->|].
      * rewrite lookup_insert_eq. destruct (Z.leb_spec (a + 1) a), (Z.leb_spec a a), (Z.ltb_spec a (a + Z.of_nat (S n))); simpl; (done || lia).
      * rewrite lookup_insert_ne by done.
        destruct (Z.leb_spec (p + 1) a), (Z.leb_spec p a), (Z.ltb_spec a (p + 1 + Z.of_nat n)), (Z.ltb_spec a (p + Z.of_nat (S n)));
          simpl; (done || lia).
Qed.

(** The [n] bytes from [src] on are at [dst] in [m'], and all others are as in [m]. *)
Definition moved (dst src n : Z) (m m' : bytes) : Prop :=
  forall a, m' !! a = if (dst <=? a) && (a <? dst + n) then m !! (src + (a - dst)) else m !! a.

Lemma moved_byte dst src m v : byte_mem m -> m !! src = Some v -> moved dst src 1 m (<[dst := u8 (u8 v)]> m).
Proof.
  intros Hb Hv a. destruct (decide (dst = a)) as [->|].
  - rewrite lookup_insert_eq, !u8_small by (rewrite ?u8_small; by eapply Hb).
    destruct (Z.leb_spec a a), (Z.ltb_spec a (a + 1)); simpl; try lia. rewrite <- Hv. f_equal. lia.
  - rewrite lookup_insert_ne by done. destruct (Z.leb_spec dst a), (Z.ltb_spec a (dst + 1)); simpl; (done || lia).
Qed.

Lemma mapped_insert p n q v m : is_Some (m !! q) -> mapped p n m -> mapped p n (<[q := v]> m).
Proof. intros Hq Hm a Ha. destruct (decide (q = a)) as [->|]; [rewrite lookup_insert_eq; by eexists|]. rewrite lookup_insert_ne by done. auto. Qed.

(** Forwards, unless the end of the source is overwritten before it is read. *)
Lemma wp_copy_loop n dst src m Q :
  byte_mem m -> mapped dst (Z.of_nat n) m -> mapped src (Z.of_nat n) m -> dst <= src \/ src + Z.of_nat n <= dst ->
  (forall m', byte_mem m' -> moved dst src (Z.of_nat n) m m' -> Q tt m') -> wp (copy_loop n dst src) Q m.
Proof.
  revert dst src m. induction n as [|n IH]; intros dst src m Hb Hd Hs Hov HQ; cbn [copy_loop]; wp_norm.
  - apply HQ; [done|]. intros a. destruct (Z.leb_spec dst a), (Z.ltb_spec a (dst + Z.of_nat 0)); simpl; (done || lia).
  - destruct (Hs src ltac:(lia)) as [v Hv]. exists v. split; [done|]. wp_norm. assert (is_Some (m !! dst)) as Hdst by (apply Hd; lia).
    split; [done|]. pose proof (moved_byte dst src m v Hb Hv) as H1. apply IH.
    + by apply byte_mem_insert.
    + apply mapped_insert; [done|]. intros a Ha. apply Hd. lia.
    + apply mapped_insert; [done|]. intros a Ha. apply Hs. lia.
    + lia.
    + intros m' Hb' Hm'. apply HQ; [done|]. intros a. rewrite Hm'.
      destruct (Z.leb_spec (dst + 1) a), (Z.ltb_spec a (dst + 1 + Z.of_nat n)); simpl; rewrite H1.
      * destruct (Z.leb_spec dst (src + 1 + (a - (dst + 1)))), (Z.ltb_spec (src + 1 + (a - (dst + 1))) (dst + 1)),
          (Z.leb_spec dst a), (Z.ltb_spec a (dst + Z.of_nat (S n))); simpl; try lia; f_equal; lia.
      * destruct (Z.leb_spec dst a), (Z.ltb_spec a (dst + 1)), (Z.ltb_spec a (dst + Z.of_nat (S n))); simpl; (done || lia).
      * destruct (Z.leb_spec dst a), (Z.ltb_spec a (dst + 1)), (Z.ltb_spec a (dst + Z.of_nat (S n))); simpl; (done || lia).
      * destruct (Z.leb_spec dst a), (Z.ltb_spec a (dst + 1)), (Z.ltb_spec a (dst + Z.of_nat (S n))); simpl; (done || lia).
Qed.

(** Backwards, unless the start of the source is overwritten before it is read. *)
Lemma wp_copy_down_loop n dst src m Q :
  byte_mem m -> mapped (dst - Z.of_nat n) (Z.of_nat n) m -> mapped (src - Z.of_nat n) (Z.of_nat n) m -> src <= dst ->
  (forall m', byte_mem m' -> moved (dst - Z.of_nat n) (src - Z.of_nat n) (Z.of_nat n) m m' -> Q tt m') ->
  wp (copy_down_loop n dst src) Q m.
Proof.
  revert dst src m. induction n as [|n IH]; intros dst src m Hb Hd Hs Hov HQ; cbn [copy_down_loop]; wp_norm.
  - apply HQ; [done|]. intros a. destruct (Z.leb_spec (dst - Z.of_nat 0) a), (Z.ltb_spec a (dst - Z.of_nat 0 + Z.of_nat 0)); simpl; (done || lia).
  - destruct (Hs (src - 1) ltac:(lia)) as [v Hv]. exists v. split; [done|]. wp_norm.
    assert (is_Some (m !! (dst - 1))) as Hdst by (apply Hd; lia).
    split; [done|]. pose proof (moved_byte (dst - 1) (src - 1) m v Hb Hv) as H1. apply IH.
    + by apply byte_mem_insert.
    + apply mapped_insert; [done|]. intros a Ha. apply Hd. lia.
    + apply mapped_insert; [done|]. intros a Ha. apply Hs. lia.
    + lia.
    + intros m' Hb' Hm'. apply HQ; [done|]. intros a. rewrite Hm'.
      replace (dst - Z.of_nat (S n)) with (dst - 1 - Z.of_nat n) by lia. replace (src - Z.of_nat (S n)) with (src - 1 - Z.of_nat n) by lia.
      set (d0 := dst - 1 - Z.of_nat n). set (s0 := src - 1 - Z.of_nat n).
      destruct (Z.leb_spec d0 a), (Z.ltb_spec a (d0 + Z.of_nat n)), (Z.ltb_spec a (d0 + Z.of_nat (S n))); simpl; try lia; rewrite H1;
        [destruct (Z.leb_spec (dst - 1) (s0 + (a - d0))), (Z.ltb_spec (s0 + (a - d0)) (dst - 1 + 1))|destruct (Z.leb_spec (dst - 1) a), (Z.ltb_spec a (dst - 1 + 1))..]; simpl; try (done || lia).
      all: f_equal; lia.
Qed.

(** C14: [rt_memcpy], with its aligned blocks of four words, single words and rest, does on every memory exactly
    what a copy of one byte after the other does, whatever the alignment of the two areas and however they overlap. *)
Theorem rt_memcpy_bytewise dst src count :
  0 <= count < 2 ^ 32 -> rt_memcpy dst src count = (copy_loop (Z.to_nat count) dst src;; mret dst).
Proof. apply rt_memcpy_eq. Qed.

(** [rt_memset] sets the bytes of the area and no others. *)
Theorem rt_memset_spec s c count m :
  0 <= count -> mapped s count m ->
  wp (rt_memset s c count) (fun r m' => r = s /\
    forall a, m' !! a = if (s <=? a) && (a <? s + count) then Some (u8 c) else m !! a) m.
Proof.
  intros Hn Hm. rewrite rt_memset_eq by done. wp_norm. apply wp_set_loop; [by rewrite Z2Nat.id|].
  intros m' Hm'. wp_norm. split; [done|]. intros a. rewrite Hm', Z2Nat.id by done.
  change 255 with (Z.ones 8). rewrite Z.land_ones by lia. change (c mod 2 ^ 8) with (u8 c). by rewrite u8_small by apply u8_byte.
Qed.

(** [rt_memcpy] moves the area if the copy does not overwrite what is still to be read. *)
Theorem rt_memcpy_spec dst src count m :
  byte_mem m -> 0 <= count < 2 ^ 32 -> mapped dst count m -> mapped src count m -> dst <= src \/ src + count <= dst ->
  wp (rt_memcpy dst src count) (fun r m' => r = dst /\ byte_mem m' /\ moved dst src count m m') m.
Proof.
  intros Hb Hn Hd Hs Ho. rewrite rt_memcpy_eq by done. wp_norm. apply wp_copy_loop; rewrite ?Z2Nat.id by lia; done.
Qed.

(** [rt_memmove] moves the area, however source and destination overlap. *)
Theorem rt_memmove_spec dst src n m :
  byte_mem m -> 0 <= n -> mapped dst n m -> mapped src n m ->
  wp (rt_memmove dst src n) (fun r m' => r = dst /\ byte_mem m' /\ moved dst src n m m') m.
Proof.
  intros Hb Hn Hd Hs. unfold rt_memmove. wp_norm. destruct (Z.ltb_spec src dst), (Z.ltb_spec dst (src + n)); simpl.
  { apply wp_copy_down_loop; rewrite ?Z2Nat.id, ?Z.add_simpl_r by lia; (done || lia). }
  all: apply wp_copy_loop; rewrite ?Z2Nat.id by lia; (done || lia).
Qed.

(** ** Comparison *)

(** The bytes [l] lie from [p] on. *)
Fixpoint bytes_at (m : bytes) (p : Z) (l : list Z) : Prop :=
  match l with [] => True | c :: l => m !! p = Some c /\ 0 <= c < 256 /\ bytes_at m (p + 1) l end.

(** The difference of the first two bytes that differ. *)
Fixpoint byte_diff (l1 l2 : list Z) : Z :=
  match l1, l2 with
  | a :: l1, b :: l2 => if a =? b then byte_diff l1 l2 else a - b
  | _, _ => 0
  end.

Lemma byte_diff_0 l1 l2 : length l1 = length l2 -> byte_diff l1 l2 = 0 <-> l1 = l2.
Proof.
  revert l2. induction l1 as [|a l1 IH]; intros [|b l2] Hl; try done. simpl in *.
  destruct (Z.eqb_spec a b) as [->|Hne]; [rewrite IH by lia; naive_solver|]. split; [lia|]. by intros [= ].
Qed.

Lemma wp_memcmp_loop n p q l1 l2 m Q :
  bytes_at m p l1 -> bytes_at m q l2 -> length l1 = n -> length l2 = n -> Q (byte_diff l1 l2) m -> wp (memcmp_loop n p q) Q m.
Proof.
  revert p q l1 l2. induction n as [|n IH]; intros p q [|a l1] [|b l2] H1 H2 L1 L2 HQ; try done.
  destruct H1 as (E1 & Ha & H1), H2 as (E2 & Hb & H2). simpl in HQ. cbn [memcmp_loop]. wp_norm.
  exists a. split; [done|]. wp_norm. exists b. split; [done|]. rewrite !u8_small by done.
  destruct (Z.eqb_spec a b) as [->|]; [rewrite Z.sub_diag; simpl|].
  - apply IH with (l1 := l1) (l2 := l2); simpl in *; (done || lia).
  - destruct (Z.eqb_spec (a - b) 0); [lia|]. simpl. by wp_norm.
Qed.

(** [rt_memcmp] returns the difference of the first two bytes that differ, and 0 exactly for equal areas. *)
Theorem rt_memcmp_spec cs ct l1 l2 m :
  bytes_at m cs l1 -> bytes_at m ct l2 -> length l1 = length l2 ->
  wp (rt_memcmp cs ct (Z.of_nat (length l1))) (fun r m' => m' = m /\ r = byte_diff l1 l2 /\ (r = 0 <-> l1 = l2)) m.
Proof.
  intros H1 H2 Hl. unfold rt_memcmp. rewrite Nat2Z.id. eapply wp_memcmp_loop; [done..|]. split_and!; [done|done|by apply byte_diff_0].
Qed.

(** ** Aligned blocks *)

Definition rt_malloc_align (rt_malloc : Z -> BM Z) (size align : Z) : BM Z :=
  let align := u32 (align + 3) .&~ 3 in
  let align_size := u32 ((u32 (size + 3) .&~ 3) + align) in
  ptr ← rt_malloc align_size;
  if ptr =? 0 then mret 0
  else
    let align_ptr := if ptr .& (align - 1) =? 0 then u32 (ptr + align) else u32 (ptr + (align - 1)) .&~ (align - 1) in
    store32 (align_ptr - SIZEOF_LONG) ptr;;
    mret align_ptr.

Definition rt_free_align (rt_free : Z -> BM unit) (ptr : Z) : BM unit :=
  real_ptr ← load32 (ptr - SIZEOF_LONG);
  rt_free real_ptr.

(** What [rt_malloc] promises: [RT_NULL], or [n] bytes at a multiple of four. *)
Definition malloc_ok (rt_malloc : Z -> BM Z) : Prop := forall n m Q, 0 <= n ->
  (Q 0 m) -> (forall p m', 0 < p -> (4 | p) -> p + n < 2 ^ 32 -> mapped p n m' -> Q p m') -> wp (rt_malloc n) Q m.

Lemma clear_low x k : 0 <= k -> x .&~ (2 ^ k - 1) = x - x mod 2 ^ k.
Proof.
  intros Hk. rewrite Z.sub_1_r, <- Z.ones_equiv, <- Z.ldiff_land, Z.ldiff_ones_r by done.
  rewrite Z.shiftl_mul_pow2, Z.shiftr_div_pow2, Z.mod_eq by lia. lia.
Qed.

Lemma load32_store32_same p v m : mapped p 4 m -> 0 <= v < 2 ^ 32 ->
  wp (store32 p v) (fun _ m' => (forall a, is_Some (m !! a) -> is_Some (m' !! a)) /\ forall Q, Q v m' -> wp (load32 p) Q m') m.
Proof.
  intros Hm Hv. unfold store32, load32. wp_norm. split; [apply Hm; lia|]. wp_norm.
  split; [rewrite lookup_insert_ne by lia; apply Hm; lia|]. wp_norm. split; [rewrite !lookup_insert_ne by lia; apply Hm; lia|].
  split; [rewrite !lookup_insert_ne by lia; apply Hm; lia|]. split.
  { intros a Ha. by rewrite !lookup_insert_is_Some'; auto. }
  intros Q HQ. wp_norm.
  exists (u8 v). rewrite !(lookup_insert_ne _ _ p) by lia. split; [apply lookup_insert_eq|]. wp_norm.
  exists (u8 (v / 2 ^ 8)). rewrite !(lookup_insert_ne _ _ (p + 1)) by lia. split; [apply lookup_insert_eq|]. wp_norm.
  exists (u8 (v / 2 ^ 16)). rewrite !(lookup_insert_ne _ _ (p + 2)) by lia. split; [apply lookup_insert_eq|]. wp_norm.
  exists (u8 (v / 2 ^ 24)). split; [apply lookup_insert_eq|]. wp_norm.
  rewrite !(u8_small (u8 _)) by apply u8_byte.
  replace (u8 v + _ + _ + _) with v; [done|]. unfold uwrap. Z.to_euclidean_division_equations. lia.
Qed.

(** [rt_malloc_align] for a power of two gives an aligned area of the size asked for inside of the block that [rt_malloc] returned,
    and [rt_free_align] frees that block. *)
Theorem rt_malloc_align_roundtrip rt_malloc rt_free size k m :
  malloc_ok rt_malloc -> 2 <= k < 31 -> 0 <= size -> size + 2 ^ k + 3 < 2 ^ 32 ->
  wp (rt_malloc_align rt_malloc size (2 ^ k)) (fun r m' => r = 0 \/ exists p n,
    (2 ^ k | r) /\ mapped p n m' /\ p < r /\ r + size <= p + n /\ forall Q, wp (rt_free p) Q m' -> wp (rt_free_align rt_free r) Q m') m.
Proof.
  intros Hok Hk Hs Hlim. assert (2 ^ k = 4 * 2 ^ (k - 2)) as Ek by (change 4 with (2 ^ 2); rewrite <- Z.pow_add_r by lia; f_equal; lia).
  assert (0 < 2 ^ (k - 2)) as Hp2 by lia. unfold rt_malloc_align.
  assert (u32 (2 ^ k + 3) .&~ 3 = 2 ^ k) as Ea.
  { change 3 with (2 ^ 2 - 1) at 2. rewrite clear_low, u32_small by lia. rewrite Ek. change (2 ^ 2) with 4. Z.to_euclidean_division_equations. lia. }
  rewrite Ea. set (sz := u32 (size + 3) .&~ 3).
  assert (size <= sz < size + 4 /\ 0 <= sz) as Hsz.
  { unfold sz. rewrite u32_small by lia. pose proof (clear_low (size + 3) 2 ltac:(lia)) as Ec. change (2 ^ 2 - 1) with 3 in Ec. rewrite Ec.
    change (2 ^ 2) with 4. Z.to_euclidean_division_equations. lia. }
  rewrite (u32_small (sz + _)) by lia. wp_norm. apply Hok; [lia|by left|]. intros p m1 Hp Hp4 Hpn Hm.
  destruct (Z.eqb_spec p 0); [lia|]. assert (0 < 2 ^ k) as H2k by lia.
  set (r := if p .& (2 ^ k - 1) =? 0 then _ else _).
  assert (p + 4 <= r <= p + 2 ^ k /\ (2 ^ k | r)) as [Hr Hdiv].
  { unfold r. rewrite Z.sub_1_r, <- Z.ones_equiv, Z.land_ones by lia. rewrite Z.ones_equiv, <- Z.sub_1_r.
    destruct Hp4 as [q ->]. pose proof (Z.div_mod (q * 4) (2 ^ k) ltac:(lia)). pose proof (Z.mod_pos_bound (q * 4) (2 ^ k) ltac:(lia)).
    destruct (Z.eqb_spec ((q * 4) mod 2 ^ k) 0) as [E|E].
    - rewrite u32_small by lia. split; [lia|]. apply Z.divide_add_r; [|apply Z.divide_refl]. apply Z.mod_divide; [lia|done].
    - rewrite u32_small, clear_low by lia. pose proof (Z.div_mod (q * 4 + (2 ^ k - 1)) (2 ^ k) ltac:(lia)) as Hd.
      pose proof (Z.mod_pos_bound (q * 4 + (2 ^ k - 1)) (2 ^ k) ltac:(lia)).
      assert (q * 4 + (2 ^ k - 1) - (q * 4 + (2 ^ k - 1)) mod 2 ^ k = 2 ^ k * ((q * 4 + (2 ^ k - 1)) / 2 ^ k)) as -> by lia.
      split; [|apply Z.divide_factor_l]. set (d := (q * 4 + (2 ^ k - 1)) / 2 ^ k) in *. rewrite Ek in *.
      split; [|lia]. assert (q * 4 < 4 * 2 ^ (k - 2) * d); [|lia]. destruct (decide (q * 4 = 4 * 2 ^ (k - 2) * d)) as [Eq|]; [|lia].
      exfalso. apply E. rewrite Eq, Z.mul_comm. by apply Z.mod_mul; lia. }
  wp_norm. eapply wp_mono; [apply (load32_store32_same (r - 4) p); [|lia]|].
  { intros a Ha. apply Hm. lia. }
  intros [] m2 [Hd Hl]. wp_norm. right. exists p, (sz + 2 ^ k). split_and!; [done| |lia|lia|].
  - intros a Ha. apply Hd, Hm. lia.
  - intros Q HQ. unfold rt_free_align. wp_norm. apply Hl. exact HQ.
Qed.

(** ** Examples *)

(** Sixteen numbered bytes. *)
Definition demo_bytes : bytes := list_to_map ((fun i => (4096 + Z.of_nat i, Z.of_nat i)) <$> seq 0 32).

Lemma demo_bytes_byte : byte_mem demo_bytes.
Proof.
  intros a v Hv. apply elem_of_list_to_map_2, list_elem_of_fmap in Hv as (i & [= -> ->] & Hi). apply elem_of_seq in Hi. lia.
Qed.

Lemma demo_bytes_mapped p n : 4096 <= p -> p + n <= 4128 -> mapped p n demo_bytes.
Proof.
  intros Hp Hn a Ha. assert (exists k, (k < 32)%nat /\ a = 4096 + Z.of_nat k) as (k & Hk & ->) by (exists (Z.to_nat (a - 4096)); lia).
  exists (Z.of_nat k). apply elem_of_list_to_map_1'; [|apply list_elem_of_fmap; exists k; split; [done|apply elem_of_seq; lia]].
  intros y (i & [= E ->] & _)%list_elem_of_fmap. lia.
Qed.

(** Blocks, words and bytes. *)
Lemma rt_memcpy_bytewise_witness : rt_memcpy 4096 4100 23 = (copy_loop 23 4096 4100;; mret 4096).
Proof. apply (rt_memcpy_bytewise 4096 4100 23). lia. Defined.

Lemma rt_memset_spec_witness :
  wp (rt_memset 4100 513 22) (fun r m' => r = 4100 /\
    forall a, m' !! a = if (4100 <=? a) && (a <? 4100 + 22) then Some (u8 513) else demo_bytes !! a) demo_bytes.
Proof. apply rt_memset_spec; [lia|apply demo_bytes_mapped; lia]. Defined.

Lemma rt_memcpy_spec_witness :
  wp (rt_memcpy 4096 4100 23) (fun r m' => r = 4096 /\ byte_mem m' /\ moved 4096 4100 23 demo_bytes m') demo_bytes.
Proof. apply rt_memcpy_spec; [apply demo_bytes_byte|lia|apply demo_bytes_mapped; lia..|lia]. Defined.

(** The destination overlaps the end of the source. *)
Lemma rt_memmove_spec_witness :
  wp (rt_memmove 4103 4097 20) (fun r m' => r = 4103 /\ byte_mem m' /\ moved 4103 4097 20 demo_bytes m') demo_bytes.
Proof. apply rt_memmove_spec; [apply demo_bytes_byte|lia|apply demo_bytes_mapped; lia..]. Defined.

Lemma rt_memcmp_spec_witness :
  wp (rt_memcmp 4096 4098 (Z.of_nat (length [0; 1]))) (fun r m' => m' = demo_bytes /\ r = byte_diff [0; 1] [2; 3] /\ (r = 0 <-> [0; 1] = [2; 3])) demo_bytes.
Proof. apply rt_memcmp_spec; [by split_and!..|done]. Defined.
