(* ===== verification/KString.v ===== *)
(** The string services of src/kservice.c. A [char] has no sign, as on ARM. *)

From S2P Require Import Prelude ByteMem.

(** ** Operations *)

(** The scan of [rt_strlen]; [fuel] is one more than the bytes in memory. *)
Fixpoint strlen_loop (fuel : nat) (sc : Z) : BM Z :=
  match fuel with
  | O => rt_panic
  | S fuel => c ← load sc; if c =? 0 then mret sc else strlen_loop fuel (sc + 1)
  end.

Definition rt_strlen (s : Z) : BM Z :=
  n ← gets (fun m => size m);
  sc ← strlen_loop (S n) s;
  mret (sc - s).

Fixpoint strnlen_loop (fuel : nat) (s sc maxlen : Z) : BM Z :=
  match fuel with
  | O => rt_panic
  | S fuel =>
      c ← load sc;
      if negb (c =? 0) && (sc - s <? maxlen) then strnlen_loop fuel s (sc + 1) maxlen else mret sc
  end.

Definition rt_strnlen (s maxlen : Z) : BM Z :=
  n ← gets (fun m => size m);
  sc ← strnlen_loop (S n) s s maxlen;
  mret (sc - s).

(** [while (l1 >= l2)]; the fuel is one more than the length of [s1]. *)
Fixpoint strstr_loop (fuel : nat) (s1 l1 s2 l2 : Z) : BM Z :=
  match fuel with
  | O => rt_panic
  | S fuel =>
      if l1 >=? l2 then
        r ← rt_memcmp s1 s2 l2;
        if r =? 0 then mret s1 else strstr_loop fuel (s1 + 1) (l1 - 1) s2 l2
      else mret 0
  end.

Definition rt_strstr (s1 s2 : Z) : BM Z :=
  l2 ← rt_strlen s2;
  if l2 =? 0 then mret s1
  else
    l1 ← rt_strlen s1;
    strstr_loop (S (Z.to_nat l1)) s1 l1 s2 l2.

Definition to_lower (c : Z) : Z := if (65 <=? c) && (c <=? 90) then c + (97 - 65) else c.

Fixpoint strcasecmp_loop (fuel : nat) (a b : Z) : BM Z :=
  match fuel with
  | O => rt_panic
  | S fuel =>
      ca ← load a; cb ← load b;
      let ca := to_lower ca in
      let cb := to_lower cb in
      if (ca =? cb) && negb (ca =? 0) then strcasecmp_loop fuel (a + 1) (b + 1) else mret (u32 (ca - cb))
  end.

Definition rt_strcasecmp (a b : Z) : BM Z :=
  n ← gets (fun m => size m);
  strcasecmp_loop (S n) a b.

(** The loops of [rt_strncpy]; [n] counts the bytes left. *)
Fixpoint strncpy_loop (n : nat) (d s : Z) : BM unit :=
  match n with
  | O => mret tt
  | S n =>
      c ← load s;
      store d c;;
      if c =? 0 then set_loop n (d + 1) 0 else strncpy_loop n (d + 1) (s + 1)
  end.

Definition rt_strncpy (dst src n : Z) : BM Z := strncpy_loop (Z.to_nat n) dst src;; mret dst.

(** [res] is a [signed char]. *)
Fixpoint strncmp_loop (count : nat) (cs ct res : Z) : BM Z :=
  match count with
  | O => mret res
  | S count =>
      a ← load cs; b ← load ct;
      let res := swrap 8 (a - b) in
      if negb (res =? 0) || (a =? 0) then mret res else strncmp_loop count (cs + 1) (ct + 1) res
  end.

Definition rt_strncmp (cs ct count : Z) : BM Z := strncmp_loop (Z.to_nat count) cs ct 0.

Fixpoint strcmp_loop (fuel : nat) (cs ct : Z) : BM Z :=
  match fuel with
  | O => rt_panic
  | S fuel =>
      a ← load cs;
      if a =? 0 then b ← load ct; mret (a - b)
      else
        b ← load ct;
        if a =? b then strcmp_loop fuel (cs + 1) (ct + 1) else mret (a - b)
  end.

Definition rt_strcmp (cs ct : Z) : BM Z :=
  n ← gets (fun m => size m);
  strcmp_loop (S n) cs ct.

(** [tmp] is the block that [rt_malloc] returns for the length, or [RT_NULL]. *)
Definition rt_strdup (rt_malloc : Z -> BM Z) (s : Z) : BM Z :=
  n ← rt_strlen s;
  let len := n + 1 in
  tmp ← rt_malloc len;
  if tmp =? 0 then mret 0 else rt_memcpy tmp s len;; mret tmp.

(** ** C strings *)

(** The string [l] lies at [p], with its NUL. *)
Definition cstr (m : bytes) (p : Z) (l : list Z) : Prop := bytes_at m p (l ++ [0]) /\ Forall (.≠ 0) l.

Lemma bytes_at_app m p l1 l2 : bytes_at m p (l1 ++ l2) <-> bytes_at m p l1 /\ bytes_at m (p + Z.of_nat (length l1)) l2.
Proof.
  revert p. induction l1 as [|c l1 IH]; intros p; simpl; [rewrite Z.add_0_r; tauto|].
  rewrite IH. replace (p + 1 + Z.of_nat (length l1)) with (p + Z.of_nat (S (length l1))) by lia. tauto.
Qed.

Lemma bytes_at_lookup m p l i c : bytes_at m p l -> l !! i = Some c -> m !! (p + Z.of_nat i) = Some c.
Proof.
  revert p i. induction l as [|b l IH]; intros p [|i] Hl Hi; try done; destruct Hl as (E & _ & Hl).
  - injection Hi as <-. by rewrite Z.add_0_r.
  - replace (p + Z.of_nat (S i)) with (p + 1 + Z.of_nat i) by lia. by apply IH.
Qed.

Lemma bytes_at_size m p l : bytes_at m p l -> (length l <= size m)%nat.
Proof.
  intros Hl. set (L := (fun i => p + Z.of_nat i) <$> seq 0 (length l)).
  assert (NoDup L) as Hnd by (apply NoDup_fmap_2; [intros i j E; lia|apply NoDup_seq]).
  rewrite <- size_dom, <- (length_seq (length l) 0), <- (length_fmap (fun i => p + Z.of_nat i)). fold L.
  rewrite <- (size_list_to_set (C := gset Z) L Hnd). apply subseteq_size. intros a. rewrite elem_of_list_to_set.
  intros (i & -> & Hi)%list_elem_of_fmap. apply elem_of_seq in Hi. apply elem_of_dom.
  destruct (lookup_lt_is_Some_2 l i) as [c Hc]; [lia|]. exists c. by eapply bytes_at_lookup.
Qed.

Lemma cstr_size m p l : cstr m p l -> (length l < S (size m))%nat.
Proof. intros [H%bytes_at_size _]. rewrite length_app in H. simpl in H. lia. Qed.

Lemma cstr_cons m p c l : cstr m p (c :: l) <-> m !! p = Some c /\ 0 < c < 256 /\ cstr m (p + 1) l.
Proof.
  unfold cstr. cbn [app bytes_at]. rewrite Forall_cons. split; [intros [(? & ? & ?) [? ?]]|intros (? & ? & ? & ?)]; split_and!; (done || lia).
Qed.

Lemma cstr_nil m p : cstr m p [] -> m !! p = Some 0.
Proof. by intros [(? & _) _]. Qed.

Lemma wp_strlen_loop fuel p l m Q :
  cstr m p l -> (length l < fuel)%nat -> Q (p + Z.of_nat (length l)) m -> wp (strlen_loop fuel p) Q m.
Proof.
  revert p l. induction fuel as [|fuel IH]; intros p [|c l] Hs Hf HQ; simpl in Hf; try lia; cbn [strlen_loop]; wp_norm.
  - exists 0. split; [by apply cstr_nil|]. simpl in *. wp_norm. by rewrite Z.add_0_r in HQ.
  - apply cstr_cons in Hs as (E & Hc & Hs). exists c. split; [done|]. rewrite u8_small by lia.
    destruct (Z.eqb_spec c 0); [lia|]. apply (IH (p + 1) l); [done|lia|]. by replace (p + 1 + Z.of_nat (length l)) with (p + Z.of_nat (S (length l))) by lia.
Qed.

Lemma wp_strlen p l m Q : cstr m p l -> Q (Z.of_nat (length l)) m -> wp (rt_strlen p) Q m.
Proof.
  intros Hs HQ. unfold rt_strlen. wp_norm. apply wp_strlen_loop with (l := l); [done|by eapply cstr_size|]. wp_norm.
  by replace (p + Z.of_nat (length l) - p) with (Z.of_nat (length l)) by lia.
Qed.

(** ** Comparison *)

Lemma wp_strcmp_loop fuel p q l1 l2 m Q :
  cstr m p l1 -> cstr m q l2 -> (length l1 < fuel)%nat -> Q (byte_diff (l1 ++ [0]) (l2 ++ [0])) m -> wp (strcmp_loop fuel p q) Q m.
Proof.
  revert p q l1 l2. induction fuel as [|fuel IH]; intros p q l1 l2 H1 H2 Hf HQ; [lia|]. cbn [strcmp_loop]. wp_norm.
  assert (exists b, m !! q = Some b /\ 0 <= b < 256 /\ head (l2 ++ [0]) = Some b) as (b & Eb & Hb & Hh).
  { destruct l2 as [|b l2]; [exists 0; split_and!; [by apply cstr_nil|lia..|done]|].
    apply cstr_cons in H2 as (? & ? & _). exists b. split_and!; (done || lia). }
  destruct l1 as [|a l1].
  - exists 0. split; [by apply cstr_nil|]. simpl. wp_norm. exists b. split; [done|]. wp_norm. rewrite (u8_small b) by done.
    destruct l2 as [|b' l2]; injection Hh as <-; cbn [app byte_diff] in HQ; [exact HQ|]. destruct (Z.eqb_spec 0 b'); [|exact HQ]. subst b'.
    apply cstr_cons in H2 as (? & ? & _). lia.
  - apply cstr_cons in H1 as (Ea & Ha & H1). exists a. split; [done|]. rewrite (u8_small a) by lia.
    destruct (Z.eqb_spec a 0); [lia|]. wp_norm. exists b. split; [done|]. rewrite (u8_small b) by done.
    destruct l2 as [|b' l2]; injection Hh as <-; cbn [app byte_diff] in HQ; simpl in Hf.
    + destruct (Z.eqb_spec a 0); [lia|]. wp_norm. exact HQ.
    + apply cstr_cons in H2 as (_ & Hb' & H2). destruct (Z.eqb_spec a b') as [->|]; [|by wp_norm].
      apply (IH _ _ l1 l2); [done|done|lia|done].
Qed.

Lemma nonzero_app_inj (l1 l2 : list Z) : Forall (.≠ 0) l1 -> Forall (.≠ 0) l2 -> byte_diff (l1 ++ [0]) (l2 ++ [0]) = 0 <-> l1 = l2.
Proof.
  revert l2. induction l1 as [|a l1 IH]; intros [|b l2] H1 H2; cbn [app byte_diff].
  - done.
  - apply Forall_cons in H2 as [H2 _]. destruct (Z.eqb_spec 0 b); [done|]. split; [lia|done].
  - apply Forall_cons in H1 as [H1 _]. destruct (Z.eqb_spec a 0); [done|]. split; [lia|done].
  - apply Forall_cons in H1 as [_ H1]. apply Forall_cons in H2 as [_ H2].
    destruct (Z.eqb_spec a b) as [->|]; [rewrite IH by done; naive_solver|]. split; [lia|]. by intros [= ].
Qed.

(** [rt_strcmp] returns the difference of the first two characters that differ, the NULs included, and 0 exactly for
    equal strings. *)
Theorem rt_strcmp_spec p q l1 l2 m :
  cstr m p l1 -> cstr m q l2 ->
  wp (rt_strcmp p q) (fun r m' => m' = m /\ r = byte_diff (l1 ++ [0]) (l2 ++ [0]) /\ (r = 0 <-> l1 = l2)) m.
Proof.
  intros H1 H2. unfold rt_strcmp. wp_norm. apply wp_strcmp_loop with (l1 := l1) (l2 := l2); [done|done|by eapply cstr_size|].
  split_and!; [done|done|]. apply nonzero_app_inj; [apply H1|apply H2].
Qed.

(** ** Search *)

(** The first place at which [l2] occurs in the string [l] at [p], or [RT_NULL]. *)
Definition found (p : Z) (l l2 : list Z) (r : Z) : Prop :=
  (exists i, r = p + Z.of_nat i /\ l2 `prefix_of` drop i l /\ forall j, (j < i)%nat -> ~ l2 `prefix_of` drop j l) \/
  (r = 0 /\ forall j, ~ l2 `prefix_of` drop j l).

Lemma found_later p c l l2 r : ~ l2 `prefix_of` c :: l -> found (p + 1) l l2 r -> found p (c :: l) l2 r.
Proof.
  intros Hn [(i & -> & Hp & Hj)|[-> Hj]]; [left|right].
  - exists (S i). split_and!; [lia|done|]. intros [|j] Hlt; [done|]. apply Hj. lia.
  - split; [done|]. intros [|j]; [done|apply Hj].
Qed.

Lemma wp_strstr_loop fuel p l q l2 m Q :
  cstr m p l -> bytes_at m q l2 -> l2 ≠ [] -> (length l < fuel)%nat ->
  (forall r, found p l l2 r -> Q r m) ->
  wp (strstr_loop fuel p (Z.of_nat (length l)) q (Z.of_nat (length l2))) Q m.
Proof.
  revert p l Q. induction fuel as [|fuel IH]; intros p l Q H1 H2 Hne Hf HQ; [lia|]. cbn [strstr_loop]. rewrite Z.geb_leb.
  destruct (Z.leb_spec (Z.of_nat (length l2)) (Z.of_nat (length l))) as [Hle|Hgt].
  - destruct l as [|c l]; [destruct l2; simpl in Hle; [done|lia]|]. wp_norm. unfold rt_memcmp. rewrite Nat2Z.id.
    rewrite <- (take_drop (length l2) (c :: l)) in H1. pose proof H1 as [Hb _]. rewrite <- app_assoc in Hb. apply bytes_at_app in Hb as [Hb _].
    rewrite take_drop in H1. assert (length (take (length l2) (c :: l)) = length l2) as Hlt by (rewrite length_take; lia).
    eapply wp_memcmp_loop; [exact Hb|exact H2|done|done|].
    destruct (Z.eqb_spec (byte_diff (take (length l2) (c :: l)) l2) 0) as [E|E]; rewrite byte_diff_0 in E by done.
    + wp_norm. apply HQ. left. exists 0%nat. split_and!; [lia| |lia]. rewrite <- E. simpl drop.
      exists (drop (length l2) (c :: l)). by rewrite take_drop.
    + apply cstr_cons in H1 as (_ & _ & H1). replace (Z.of_nat (length (c :: l)) - 1) with (Z.of_nat (length l)) by (simpl; lia).
      apply IH; [done|done|done|simpl in Hf; lia|]. intros r Hr. apply HQ, found_later; [|done].
      intros [k Hk]. apply E. rewrite Hk. apply take_app_length.
  - wp_norm. apply HQ. right. split; [done|]. intros j Hp%prefix_length. rewrite length_drop in Hp. lia.
Qed.

(** [rt_strstr] returns the first place where the second string occurs in the first one, [RT_NULL] if there is
    none, and reads nothing but the two strings. *)
Theorem rt_strstr_spec p q l1 l2 m :
  cstr m p l1 -> cstr m q l2 -> wp (rt_strstr p q) (fun r m' => m' = m /\ found p l1 l2 r) m.
Proof.
  intros H1 H2. unfold rt_strstr. wp_norm. eapply wp_strlen; [done|]. destruct (Z.eqb_spec (Z.of_nat (length l2)) 0) as [E|E].
  - wp_norm. split; [done|]. left. exists 0%nat. destruct l2; [|simpl in E; lia]. split_and!; [lia|apply prefix_nil|lia].
  - wp_norm. eapply wp_strlen; [done|]. rewrite Nat2Z.id. apply wp_strstr_loop; [done| |by intros ->|lia|done].
    destruct H2 as [H2 _]. by apply bytes_at_app in H2 as [H2 _].
Qed.

(** ** Bounded strings *)

Lemma wp_strncpy_loop n d p l m Q :
  cstr m p l -> mapped d (Z.of_nat n) m -> d + Z.of_nat n <= p \/ p + Z.of_nat (length l) < d ->
  (forall m', bytes_at m' d (take n (l ++ replicate n 0)) ->
     (forall a, ~ d <= a < d + Z.of_nat n -> m' !! a = m !! a) -> Q tt m') ->
  wp (strncpy_loop n d p) Q m.
Proof.
  revert d p l m. induction n as [|n IH]; intros d p l m Hs Hd Ho HQ; cbn [strncpy_loop]; [by wp_norm; apply HQ|]. wp_norm.
  assert (forall q v, is_Some (m !! q) -> mapped (d + 1) (Z.of_nat n) (<[q := v]> m)) as Hmap.
  { intros q v Hq. apply mapped_insert; [done|]. intros a Ha. apply Hd. lia. }
  destruct l as [|c l].
  - exists 0. split; [by apply cstr_nil|]. wp_norm. split; [apply Hd; lia|]. simpl. apply wp_set_loop; [apply Hmap, Hd; lia|].
    intros m' Hm'. apply HQ.
    + simpl. split_and!; [|lia..|].
      * rewrite Hm'. destruct (Z.leb_spec (d + 1) d); [lia|]. simpl. by rewrite lookup_insert_eq.
      * rewrite take_replicate, Nat.min_id.
        assert (forall k b, (forall a, b <= a < b + Z.of_nat k -> m' !! a = Some 0) -> bytes_at m' b (replicate k 0)) as Hz.
        { induction k as [|k IHk]; intros b Hb; simpl; [done|]. split_and!; [apply Hb; lia|lia..|]. apply IHk. intros a Ha. apply Hb. lia. }
        apply Hz. intros a Ha. rewrite Hm'. destruct (Z.leb_spec (d + 1) a), (Z.ltb_spec a (d + 1 + Z.of_nat n)); simpl; (done || lia).
    + intros a Ha. rewrite Hm'. destruct (Z.leb_spec (d + 1) a), (Z.ltb_spec a (d + 1 + Z.of_nat n)); simpl; try lia;
        apply lookup_insert_ne; lia.
  - pose proof Hs as Hs0. apply cstr_cons in Hs as (Ec & Hc & Hs). exists c. split; [done|]. wp_norm. split; [apply Hd; lia|].
    rewrite !(u8_small c) by lia. destruct (Z.eqb_spec c 0); [lia|].
    assert (cstr (<[d := c]> m) (p + 1) l) as Hs'.
    { destruct Hs as [Hs Hz]. split; [|done]. cbn [length] in Ho.
      assert (forall L q, bytes_at m q L -> q + Z.of_nat (length L) <= d \/ d < q -> bytes_at (<[d := c]> m) q L) as Hba.
      { induction L as [|x L IHL]; intros q HL Hq; [done|]. destruct HL as (? & ? & HL). simpl in Hq. split_and!; [|lia..|].
        - rewrite lookup_insert_ne by lia. done.
        - apply IHL; [done|lia]. }
      apply Hba; [done|]. rewrite length_app. simpl. lia. }
    apply IH with (l := l); [done|apply Hmap, Hd; lia|simpl in Ho; lia|]. intros m' Hb Hfr. apply HQ.
    + cbn [app take]. split_and!; [|lia..|].
      * rewrite Hfr by lia. apply lookup_insert_eq.
      * replace (take n (l ++ replicate (S n) 0)) with (take n (l ++ replicate n 0)); [done|].
        rewrite !take_app, !take_replicate. f_equal. f_equal. lia.
    + intros a Ha. rewrite Hfr by lia. apply lookup_insert_ne. lia.
Qed.

(** [rt_strncpy] writes exactly [n] bytes: the string, cut to them or filled up with NULs. *)
Theorem rt_strncpy_spec d p n l m :
  cstr m p l -> mapped d n m -> 0 <= n -> d + n <= p \/ p + Z.of_nat (length l) < d ->
  wp (rt_strncpy d p n) (fun r m' => r = d /\ bytes_at m' d (take (Z.to_nat n) (l ++ replicate (Z.to_nat n) 0)) /\
    forall a, ~ d <= a < d + n -> m' !! a = m !! a) m.
Proof.
  intros Hs Hd Hn Ho. unfold rt_strncpy. wp_norm. eapply wp_strncpy_loop; rewrite ?Z2Nat.id by lia; [done..|].
  intros m' Hb Hf. by wp_norm.
Qed.

Lemma wp_strnlen_loop fuel s p l maxlen m Q :
  cstr m p l -> (length l < fuel)%nat -> s <= p -> Q (Z.min (p + Z.of_nat (length l)) (Z.max p (s + maxlen))) m ->
  wp (strnlen_loop fuel s p maxlen) Q m.
Proof.
  revert p l. induction fuel as [|fuel IH]; intros p [|c l] Hs Hf Hp HQ; simpl in Hf; try lia; cbn [strnlen_loop]; wp_norm.
  - exists 0. split; [by apply cstr_nil|]. simpl. wp_norm. by replace p with (Z.min (p + Z.of_nat (length (@nil Z))) (Z.max p (s + maxlen))) by (simpl; lia).
  - apply cstr_cons in Hs as (E & Hc & Hs). exists c. split; [done|]. rewrite u8_small by lia.
    destruct (Z.eqb_spec c 0); [lia|]. simpl. destruct (Z.ltb_spec (p - s) maxlen).
    + apply IH with (l := l); [done|lia..|]. by replace (Z.min _ _) with (Z.min (p + Z.of_nat (length (c :: l))) (Z.max p (s + maxlen))) by (simpl; lia).
    + wp_norm. by replace p with (Z.min (p + Z.of_nat (length (c :: l))) (Z.max p (s + maxlen))) by (simpl; lia).
Qed.

(** [rt_strnlen] of a string is its length, at most [maxlen]. *)
Theorem rt_strnlen_spec p l maxlen m :
  cstr m p l -> 0 <= maxlen -> wp (rt_strnlen p maxlen) (fun r m' => m' = m /\ r = Z.min (Z.of_nat (length l)) maxlen) m.
Proof.
  intros Hs Hm. unfold rt_strnlen. wp_norm. eapply wp_strnlen_loop; [done|by eapply cstr_size|lia|]. wp_norm. split; [done|]. lia.
Qed.

(** But it tests the character behind the last one that it may look at: an area of [maxlen] characters
    without a NUL is not enough. *)
Lemma rt_strnlen_reads_behind :
  bytes_at {[100 := 65; 101 := 66]} 100 [65; 66] /\ rt_strnlen 100 2 {[100 := 65; 101 := 66]} = None.
Proof. split; [by split_and!|by vm_compute]. Qed.

(** The sign of [rt_strncmp] is that of a [signed char]: a string with a first character of 200 is less than
    one with 1. *)
Lemma rt_strncmp_sign :
  let m : bytes := {[100 := 200; 101 := 0; 110 := 1; 111 := 0]} in
  wp (rt_strncmp 100 110 5) (fun r _ => r = -57) m /\ wp (rt_strcmp 100 110) (fun r _ => r = 199) m.
Proof. split; by vm_compute. Qed.

Lemma wp_strncmp_loop n p q l1 l2 m Q :
  cstr m p l1 -> cstr m q l2 ->
  Q (swrap 8 (byte_diff (take n (l1 ++ [0])) (take n (l2 ++ [0])))) m -> wp (strncmp_loop n p q 0) Q m.
Proof.
  revert p q l1 l2. induction n as [|n IH]; intros p q l1 l2 H1 H2 HQ; cbn [strncmp_loop]; [by wp_norm|]. wp_norm.
  assert (forall x, 0 <= x < 256 -> forall y, 0 <= y < 256 -> swrap 8 (x - y) = 0 <-> x = y) as Hz
    by (intros x Hx y Hy; wrap_lia).
  assert (forall k L, cstr m k L -> exists c, m !! k = Some c /\ 0 <= c < 256 /\ (c = 0 <-> L = []) /\ head (L ++ [0]) = Some c) as Hhd.
  { intros k [|c L] HL; [exists 0; split_and!; [by apply cstr_nil|lia..|done|done]|]. apply cstr_cons in HL as (? & ? & _).
    exists c. split_and!; [done|lia..| |done]. split; [lia|done]. }
  destruct (Hhd p l1 H1) as (a & Ea & Ha & Za & Ta), (Hhd q l2 H2) as (b & Eb & Hb & Zb & Tb).
  exists a. split; [done|]. wp_norm. exists b. split; [done|]. rewrite !u8_small by done.
  destruct (l1 ++ [0]) as [|a' r1] eqn:E1; [done|]. destruct (l2 ++ [0]) as [|b' r2] eqn:E2; [done|].
  injection Ta as ->. injection Tb as ->. cbn [take byte_diff] in HQ.
  destruct (Z.eqb_spec a b) as [->|Hne].
  - rewrite (proj2 (Hz b Hb b Hb) eq_refl). simpl. destruct (Z.eqb_spec b 0) as [->|Hb0].
    + wp_norm. rewrite (proj1 Za eq_refl), (proj1 Zb eq_refl) in *. injection E1 as <-. injection E2 as <-. by destruct n.
    + destruct l1 as [|a' l1]; [by rewrite (proj2 Za eq_refl) in Hb0|]. destruct l2 as [|b' l2]; [by rewrite (proj2 Zb eq_refl) in Hb0|].
      injection E1 as -> <-. injection E2 as -> <-. apply cstr_cons in H1 as (_ & _ & H1). apply cstr_cons in H2 as (_ & _ & H2).
      by eapply IH.
  - destruct (Z.eqb_spec (swrap 8 (a - b)) 0) as [E|E]; [by apply (Hz a Ha b Hb) in E|]. simpl. by wp_norm.
Qed.

(** [rt_strncmp] is 0 exactly if the first [count] characters, up to the NULs, are equal. *)
Theorem rt_strncmp_spec p q l1 l2 count m :
  cstr m p l1 -> cstr m q l2 ->
  wp (rt_strncmp p q count) (fun r m' => m' = m /\
    r = swrap 8 (byte_diff (take (Z.to_nat count) (l1 ++ [0])) (take (Z.to_nat count) (l2 ++ [0])))) m.
Proof. intros H1 H2. unfold rt_strncmp. by eapply wp_strncmp_loop. Qed.

(** ** Examples *)

(** ["abcabd"] at 100, ["abd"] at 120, and 8 bytes at 140. *)
Definition demo_text : bytes :=
  list_to_map ([(100, 97); (101, 98); (102, 99); (103, 97); (104, 98); (105, 100); (106, 0);
    (120, 97); (121, 98); (122, 100); (123, 0)] ++ ((fun i => (140 + Z.of_nat i, 255)) <$> seq 0 8)).

Lemma demo_haystack : cstr demo_text 100 [97; 98; 99; 97; 98; 100].
Proof. split; [by split_and!|by repeat constructor]. Qed.
Lemma demo_needle : cstr demo_text 120 [97; 98; 100].
Proof. split; [by split_and!|by repeat constructor]. Qed.

(** The needle is found at 103. *)
Lemma rt_strstr_spec_witness :
  wp (rt_strstr 100 120) (fun r m' => m' = demo_text /\ found 100 [97; 98; 99; 97; 98; 100] [97; 98; 100] r) demo_text /\
  wp (rt_strstr 100 120) (fun r _ => r = 103) demo_text.
Proof. split; [apply rt_strstr_spec; [apply demo_haystack|apply demo_needle]|by vm_compute]. Defined.

Lemma rt_strcmp_spec_witness :
  wp (rt_strcmp 100 120) (fun r m' => m' = demo_text /\ r = byte_diff ([97; 98; 99; 97; 98; 100] ++ [0]) ([97; 98; 100] ++ [0]) /\
    (r = 0 <-> [97; 98; 99; 97; 98; 100] = [97; 98; 100])) demo_text.
Proof. apply rt_strcmp_spec; [apply demo_haystack|apply demo_needle]. Defined.

Lemma rt_strncpy_spec_witness :
  wp (rt_strncpy 140 120 6) (fun r m' => r = 140 /\ bytes_at m' 140 (take (Z.to_nat 6) ([97; 98; 100] ++ replicate (Z.to_nat 6) 0)) /\
    forall a, ~ 140 <= a < 140 + 6 -> m' !! a = demo_text !! a) demo_text.
Proof.
  apply rt_strncpy_spec; [apply demo_needle| |lia|simpl; lia].
  intros a Ha. assert (exists k, (k < 6)%nat /\ a = 140 + Z.of_nat k) as (k & Hk & ->) by (exists (Z.to_nat (a - 140)); lia).
  do 6 (destruct k as [|k]; [by eexists|]). lia.
Defined.

Lemma rt_strnlen_spec_witness :
  wp (rt_strnlen 120 2) (fun r m' => m' = demo_text /\ r = Z.min (Z.of_nat (length [97; 98; 100])) 2) demo_text.
Proof. apply rt_strnlen_spec; [apply demo_needle|lia]. Defined.

Lemma rt_strncmp_spec_witness :
  wp (rt_strncmp 100 120 2) (fun r m' => m' = demo_text /\
    r = swrap 8 (byte_diff (take (Z.to_nat 2) ([97; 98; 99; 97; 98; 100] ++ [0])) (take (Z.to_nat 2) ([97; 98; 100] ++ [0])))) demo_text.
Proof. apply rt_strncmp_spec; [apply demo_haystack|apply demo_needle]. Defined.
