(* ===== verification/Printf.v ===== *)
(** Formatted output (src/kservice.c): [rt_vsnprintf] and what it is made of. The configuration has
    [RT_PRINTF_PRECISION], but neither [RT_PRINTF_SPECIAL] nor [RT_PRINTF_LONGLONG]. *)

From Stdlib Require Import Ascii String.
From S2P Require Import Prelude ByteMem.

(** ** Characters and arguments *)

Definition ch (a : ascii) : Z := Z.of_N (N_of_ascii a).
Definition chars (s : string) : list Z := ch <$> list_ascii_of_string s.

(** A variable argument: a word, or a string ([None] is [RT_NULL]). Strings and the format are no part of the
    memory that is printed to. *)
Inductive va :=
| VaInt (v : Z)
| VaStr (s : option (list Z)).

Definition ZEROPAD : Z := 1.
Definition SIGN : Z := 2.
Definition PLUS : Z := 4.
Definition SPACE : Z := 8.
Definition LEFT : Z := 16.
Definition SPECIAL : Z := 32.
Definition LARGE : Z := 64.

Definition has (flags f : Z) : bool := negb (flags .& f =? 0).

Definition isdigit (c : Z) : bool := (48 <=? c) && (c <=? 57).

Definition small_digits : list Z := chars "0123456789abcdef".
Definition large_digits : list Z := chars "0123456789ABCDEF".

(** ** Numbers *)

(** The remainder and the quotient; every base but 10 is 16. *)
Definition divide (n base : Z) : Z * Z :=
  if base =? 10 then (u32 n mod 10, u32 n / 10) else (u32 n mod 16, u32 n / 16).

(** The result is [i] and the rest of the format. *)
Fixpoint skip_atoi (s : list Z) (i : Z) : Z * list Z :=
  match s with
  | c :: s' => if isdigit c then skip_atoi s' (i * 10 + c - 48) else (i, s)
  | [] => (i, [])
  end.

(** [while (num != 0) tmp[i++] = digits[divide(&num, base)]], where [tmp] has 16 places; [fuel] is more
    than the number of digits. *)
Fixpoint digits_loop (fuel : nat) (num base : Z) (digits tmp : list Z) : option (list Z) :=
  match fuel with
  | O => None
  | S fuel =>
      if num =? 0 then Some tmp
      else if (length tmp <? 16)%nat then
        let '(r, num) := divide num base in
        d ← digits !! Z.to_nat r;
        digits_loop fuel num base digits (tmp ++ [d])
      else None
  end.

(** ** Output *)

(** [if (str <= end) *str = c; ++ str] *)
Definition emit (end_ str c : Z) : BM Z := when (str <=? end_) (store str c);; mret (str + 1).

(** [while (lo < n--)] with the output of [c]; the results are [str] and [n]. *)
Fixpoint fill_loop (fuel : nat) (end_ str c lo n : Z) : BM (Z * Z) :=
  match fuel with
  | O => rt_panic
  | S fuel =>
      if lo <? n then str ← emit end_ str c; fill_loop fuel end_ str c lo (n - 1)
      else mret (str, n - 1)
  end.
Definition fill (end_ str c lo n : Z) : BM (Z * Z) := fill_loop (S (Z.to_nat (n - lo))) end_ str c lo n.

(** [while (i-- > 0 && (precision_bak != 0))] *)
Fixpoint tmp_loop (i : nat) (end_ buf : Z) (tmp : list Z) (precision_bak : Z) : BM Z :=
  match i with
  | O => mret buf
  | S i =>
      if precision_bak =? 0 then mret buf
      else
        c ← getso (fun _ => tmp !! i);
        buf ← emit end_ buf c;
        tmp_loop i end_ buf tmp precision_bak
  end.

(** [print_number] from the padding behind the sign on. *)
Definition print_rest (buf end_ size c precision precision_bak type : Z) (tmp : list Z) : BM Z :=
  let i := Z.of_nat (length tmp) in
  r ← (if negb (has type LEFT) then fill end_ buf c 0 size else mret (buf, size));
  let '(buf, size) := r in
  r ← fill end_ buf (ch "0") i precision;
  buf ← tmp_loop (length tmp) end_ r.1 tmp precision_bak;
  r ← fill end_ buf (ch " ") 0 size;
  mret r.1.

Definition print_number (buf end_ num base s precision type : Z) : BM Z :=
  let precision_bak := precision in
  let digits := if has type LARGE then large_digits else small_digits in
  let type := if has type LEFT then type .&~ ZEROPAD else type in
  let c := if has type ZEROPAD then ch "0" else ch " " in
  let '(sign, num) :=
    if has type SIGN then
      if num <? 0 then (ch "-", s32 (- num))
      else if has type PLUS then (ch "+", num)
      else if has type SPACE then (ch " ", num)
      else (0, num)
    else (0, num) in
  tmp ← getso (fun _ => if num =? 0 then Some [ch "0"] else digits_loop 17 num base digits []);
  let i := Z.of_nat (length tmp) in
  let precision := if i >? precision then i else precision in
  let size := s - precision in
  r ← (if negb (has type (ZEROPAD .| LEFT)) then
         let size := if negb (sign =? 0) && (size >? 0) then size - 1 else size in
         fill end_ buf (ch " ") 0 size
       else mret (buf, size));
  let '(buf, size) := r in
  r ← (if negb (sign =? 0) then
         b ← emit end_ buf sign;
         mret (b, if buf <=? end_ then size - 1 else size)
       else mret (buf, size));
  let '(buf, size) := r in
  print_rest buf end_ size c precision precision_bak type tmp.

(** ** The conversion specification *)

(** The flags behind ['%'] and the rest of the format. *)
Fixpoint parse_flags (fmt : list Z) (flags : Z) : Z * list Z :=
  match fmt with
  | c :: fmt' =>
      if c =? ch "-" then parse_flags fmt' (flags .| LEFT)
      else if c =? ch "+" then parse_flags fmt' (flags .| PLUS)
      else if c =? ch " " then parse_flags fmt' (flags .| SPACE)
      else if c =? ch "#" then parse_flags fmt' (flags .| SPECIAL)
      else if c =? ch "0" then parse_flags fmt' (flags .| ZEROPAD)
      else (flags, fmt)
  | [] => (flags, [])
  end.

(** [va_arg(args, int)]: a word as a signed number. *)
Definition va_int (args : list va) : option (Z * list va) :=
  match args with VaInt v :: args => Some (s32 v, args) | _ => None end.

(** The results are the width, the flags and what is left of format and arguments. *)
Definition parse_width (fmt : list Z) (args : list va) (flags : Z) : option (Z * Z * list Z * list va) :=
  match fmt with
  | c :: fmt' =>
      if isdigit c then let '(w, rest) := skip_atoi fmt 0 in Some (w, flags, rest, args)
      else if c =? ch "*" then
        '(w, args) ← va_int args;
        if w <? 0 then Some (- w, flags .| LEFT, fmt', args) else Some (w, flags, fmt', args)
      else Some (-1, flags, fmt, args)
  | [] => Some (-1, flags, [], args)
  end.

Definition parse_precision (fmt : list Z) (args : list va) : option (Z * list Z * list va) :=
  match fmt with
  | c :: fmt =>
      if c =? ch "." then
        '(p, fmt, args) ←
          match fmt with
          | d :: fmt' =>
              if isdigit d then let '(p, rest) := skip_atoi fmt 0 in Some (p, rest, args)
              else if d =? ch "*" then '(p, args) ← va_int args; Some (p, fmt', args)
              else Some (-1, fmt, args)
          | [] => Some (-1, [], args)
          end;
        Some (if p <? 0 then 0 else p, fmt, args)
      else Some (-1, c :: fmt, args)
  | [] => Some (-1, [], args)
  end.

Definition parse_qualifier (fmt : list Z) : Z * list Z :=
  match fmt with
  | c :: fmt' => if (c =? ch "h") || (c =? ch "l") then (c, fmt') else (0, fmt)
  | [] => (0, [])
  end.

(** ** Conversions *)

(** [while (--field_width > 0)] with the output of a space. *)
Fixpoint predec_loop (fuel : nat) (end_ str field_width : Z) : BM (Z * Z) :=
  match fuel with
  | O => rt_panic
  | S fuel =>
      let field_width := field_width - 1 in
      if field_width >? 0 then str ← emit end_ str (ch " "); predec_loop fuel end_ str field_width
      else mret (str, field_width)
  end.
Definition predec (end_ str field_width : Z) : BM (Z * Z) := predec_loop (S (Z.to_nat field_width)) end_ str field_width.

Definition print_char (end_ str flags field_width c : Z) : BM Z :=
  r ← (if negb (has flags LEFT) then predec end_ str field_width else mret (str, field_width));
  str ← emit end_ r.1 c;
  r ← predec end_ str r.2;
  mret r.1.

Fixpoint emit_all (end_ str : Z) (l : list Z) : BM Z :=
  match l with
  | [] => mret str
  | c :: l => str ← emit end_ str c; emit_all end_ str l
  end.

Definition print_string (end_ str flags field_width precision : Z) (s : option (list Z)) : BM Z :=
  let s := default (chars "(NULL)") s in
  let len := Z.of_nat (length s) in
  let len := if (precision >? 0) && (len >? precision) then precision else len in
  r ← (if negb (has flags LEFT) then fill end_ str (ch " ") len field_width else mret (str, field_width));
  str ← emit_all end_ r.1 (take (Z.to_nat len) s);
  r ← fill end_ str (ch " ") len r.2;
  mret r.1.

(** The argument of an integer conversion. *)
Definition int_arg (flags qualifier v : Z) : Z :=
  if qualifier =? ch "h" then let num := u16 v in if has flags SIGN then u32 (s16 num) else num
  else let num := u32 v in if has flags SIGN then u32 (s32 num) else num.

(** Base and flags of an integer conversion, [None] for any other character. *)
Definition int_conv (c flags : Z) : option (Z * Z) :=
  if c =? ch "o" then Some (8, flags)
  else if c =? ch "X" then Some (16, flags .| LARGE)
  else if c =? ch "x" then Some (16, flags)
  else if (c =? ch "d") || (c =? ch "i") then Some (10, flags .| SIGN)
  else if c =? ch "u" then Some (10, flags)
  else None.

(** The [switch]; the results are [str] and what is left of format and arguments. *)
Definition convert (end_ str flags field_width precision qualifier : Z) (fmt : list Z) (args : list va) :
    BM (Z * list Z * list va) :=
  match fmt with
  | [] => str ← emit end_ str (ch "%"); mret (str, [], args)
  | c :: fmt =>
      if c =? ch "c" then
        a ← getso (fun _ => va_int args);
        str ← print_char end_ str flags field_width (u8 a.1);
        mret (str, fmt, a.2)
      else if c =? ch "s" then
        match args with
        | VaStr s :: args => str ← print_string end_ str flags field_width precision s; mret (str, fmt, args)
        | _ => rt_panic
        end
      else if c =? ch "p" then
        a ← getso (fun _ => va_int args);
        let '(field_width, flags) := if field_width =? -1 then (SIZEOF_LONG * 2, flags .| ZEROPAD) else (field_width, flags) in
        str ← print_number str end_ a.1 16 field_width precision flags;
        mret (str, fmt, a.2)
      else if c =? ch "%" then str ← emit end_ str (ch "%"); mret (str, fmt, args)
      else
        match int_conv c flags with
        | Some (base, flags) =>
            match args with
            | VaInt v :: args =>
                str ← print_number str end_ (s32 (int_arg flags qualifier v)) base field_width precision flags;
                mret (str, fmt, args)
            | _ => rt_panic
            end
        | None =>
            str ← emit end_ str (ch "%");
            str ← emit end_ str c;
            mret (str, fmt, args)
        end
  end.

(** ** [rt_vsnprintf] *)

(** [for (; *fmt ; ++fmt)]; [fuel] is more than the length of the format. *)
Fixpoint vsn_loop (fuel : nat) (end_ str : Z) (fmt : list Z) (args : list va) : BM Z :=
  match fuel, fmt with
  | O, _ => rt_panic
  | S _, [] => mret str
  | S fuel, c :: fmt =>
      if negb (c =? ch "%") then str ← emit end_ str c; vsn_loop fuel end_ str fmt args
      else
        let '(flags, fmt) := parse_flags fmt 0 in
        w ← getso (fun _ => parse_width fmt args flags);
        let '(field_width, flags, fmt, args) := w in
        p ← getso (fun _ => parse_precision fmt args);
        let '(precision, fmt, args) := p in
        let '(qualifier, fmt) := parse_qualifier fmt in
        r ← convert end_ str flags field_width precision qualifier fmt args;
        let '(str, fmt, args) := r in
        vsn_loop fuel end_ str fmt args
  end.

Definition rt_vsnprintf (buf size : Z) (fmt : list Z) (args : list va) : BM Z :=
  let end_ := u32 (buf + size - 1) in
  let end_ := if end_ <? buf then u32 (-1) else end_ in
  str ← vsn_loop (S (length fmt)) end_ buf fmt args;
  (if str <=? end_ then store str 0 else store end_ 0);;
  mret (str - buf).

Definition rt_snprintf (buf size : Z) (fmt : list Z) (args : list va) : BM Z := rt_vsnprintf buf size fmt args.
Definition rt_vsprintf (buf : Z) (format : list Z) (arg_ptr : list va) : BM Z := rt_vsnprintf buf (u32 (-1)) format arg_ptr.
Definition rt_sprintf (buf : Z) (format : list Z) (args : list va) : BM Z := rt_vsprintf buf format args.

Definition RT_CONSOLEBUF_SIZE : Z := 128.

(** [write] is the console device's [rt_device_write], [output] the board's [rt_hw_console_output], [rt_log_buf] the address of the
    static buffer. *)
Definition rt_kprintf (console : option (Z -> Z -> BM unit)) (output : Z -> BM unit) (rt_log_buf : Z) (fmt : list Z) (args : list va) : BM unit :=
  length ← rt_vsnprintf rt_log_buf (RT_CONSOLEBUF_SIZE - 1) fmt args;
  let length := if u32 length >? RT_CONSOLEBUF_SIZE - 1 then RT_CONSOLEBUF_SIZE - 1 else u32 length in
  match console with
  | None => output rt_log_buf
  | Some write => write rt_log_buf length
  end.

(** ** The text that a format stands for *)

Definition radix (base : Z) : Z := if base =? 10 then 10 else 16.

(** The digits of [n], the last one first. *)
Fixpoint rev_digits (fuel : nat) (r n : Z) : list Z :=
  match fuel with
  | O => []
  | S fuel => if n =? 0 then [] else n mod r :: rev_digits fuel r (n / r)
  end.

(** Every number of 32 bits has at most ten digits. *)
Definition digits_text (digits : list Z) (base n : Z) : list Z :=
  if n =? 0 then [ch "0"] else (fun d => default 0 (digits !! Z.to_nat d)) <$> rev (rev_digits 10 (radix base) n).

Definition spaces (n : Z) : list Z := replicate (Z.to_nat n) (ch " ").
Definition zeros (n : Z) : list Z := replicate (Z.to_nat n) (ch "0").

Definition sign_text (num type : Z) : list Z :=
  if has type SIGN then
    if num <? 0 then [ch "-"] else if has type PLUS then [ch "+"] else if has type SPACE then [ch " "] else []
  else [].

Definition magnitude (num type : Z) : Z := u32 (if has type SIGN && (num <? 0) then - num else num).

(** A number: the digits with zeros in front up to the precision (none at all for a precision of 0), the sign, and
    the padding to the width [s]: behind, with zeros between sign and digits, or in front. *)
Definition number_text (num base s precision type : Z) : list Z :=
  let ds := digits_text (if has type LARGE then large_digits else small_digits) base (magnitude num type) in
  let sign := sign_text num type in
  let len := Z.max (Z.of_nat (length ds)) precision in
  let body := zeros (len - Z.of_nat (length ds)) ++ (if precision =? 0 then [] else ds) in
  let room := s - len - Z.of_nat (length sign) in
  if has type LEFT then sign ++ body ++ spaces room
  else if has type ZEROPAD then sign ++ zeros room ++ body
  else spaces room ++ sign ++ body.

Definition char_text (flags field_width c : Z) : list Z :=
  if has flags LEFT then c :: spaces (field_width - 1) else spaces (field_width - 1) ++ [c].

Definition string_text (flags field_width precision : Z) (s : option (list Z)) : list Z :=
  let s := default (chars "(NULL)") s in
  let s := if precision >? 0 then take (Z.to_nat precision) s else s in
  let room := field_width - Z.of_nat (length s) in
  if has flags LEFT then s ++ spaces room else spaces room ++ s.

Definition conv_text (flags field_width precision qualifier : Z) (fmt : list Z) (args : list va) : option (list Z * list Z * list va) :=
  match fmt with
  | [] => Some ([ch "%"], [], args)
  | c :: fmt =>
      if c =? ch "c" then '(v, args) ← va_int args; Some (char_text flags field_width (u8 v), fmt, args)
      else if c =? ch "s" then
        match args with VaStr s :: args => Some (string_text flags field_width precision s, fmt, args) | _ => None end
      else if c =? ch "p" then
        '(v, args) ← va_int args;
        Some (if field_width =? -1 then number_text v 16 8 precision (flags .| ZEROPAD) else number_text v 16 field_width precision flags,
          fmt, args)
      else if c =? ch "%" then Some ([ch "%"], fmt, args)
      else
        match int_conv c flags, args with
        | Some (base, flags), VaInt v :: args => Some (number_text (s32 (int_arg flags qualifier v)) base field_width precision flags, fmt, args)
        | Some _, _ => None
        | None, _ => Some ([ch "%"; c], fmt, args)
        end
  end.

(** The text of a format with its arguments, [None] if an argument is missing or of the wrong kind. *)
Fixpoint text_loop (fuel : nat) (fmt : list Z) (args : list va) : option (list Z) :=
  match fuel, fmt with
  | O, _ => None
  | S _, [] => Some []
  | S fuel, c :: fmt =>
      if negb (c =? ch "%") then cons c <$> text_loop fuel fmt args
      else
        let '(flags, fmt) := parse_flags fmt 0 in
        '(field_width, flags, fmt, args) ← parse_width fmt args flags;
        '(precision, fmt, args) ← parse_precision fmt args;
        let '(qualifier, fmt) := parse_qualifier fmt in
        '(l, fmt, args) ← conv_text flags field_width precision qualifier fmt args;
        app l <$> text_loop fuel fmt args
  end.
Definition format_text (fmt : list Z) (args : list va) : option (list Z) := text_loop (S (length fmt)) fmt args.

(** ** Printing into a buffer *)

Section output.
Context (buf end_ n : Z) (m0 : bytes).

(** [O] has been printed: as much of it as fits is in the buffer, and [str] is behind it or beyond the end. *)
Record printed (O : list Z) (str : Z) (m : bytes) : Prop := {
  pd_mem : forall a, m !! a =
    if (buf <=? a) && (a <=? end_) && (a <? buf + Z.of_nat (length O)) then u8 <$> (O !! Z.to_nat (a - buf)) else m0 !! a;
  pd_str : str = buf + Z.of_nat (length O) \/ end_ < str /\ end_ < buf + Z.of_nat (length O);
}.

(** The memory is enough for [O], or for everything up to the end. *)
Definition room (O : list Z) : Prop := Z.of_nat (length O) <= n \/ end_ < buf + n.

(** The routine prints the text [L]. *)
Definition prints (P : Z -> BM Z) (L : list Z) : Prop :=
  forall O str m Q, printed O str m -> room (O ++ L) -> (forall str' m', printed (O ++ L) str' m' -> Q str' m') -> wp (P str) Q m.

Hypothesis Hmap : mapped buf n m0.

Lemma room_app O1 O2 : room (O1 ++ O2) -> room O1.
Proof using. unfold room. rewrite length_app. lia. Qed.

Lemma prints_emit c : prints (fun str => emit end_ str c) [c].
Proof using Hmap.
  intros O str m Q [Hm Hstr] Hr HQ. unfold emit. wp_norm. rewrite wp_when. unfold room in Hr. rewrite length_app in Hr. simpl in Hr.
  destruct (Z.leb_spec str end_); [left|right]; (split; [done|]); wp_norm.
  - destruct Hstr as [->|]; [|lia]. split.
    + rewrite Hm. destruct (Z.ltb_spec (buf + Z.of_nat (length O)) (buf + Z.of_nat (length O))); [lia|]. rewrite andb_false_r.
      apply Hmap. lia.
    + apply HQ. split; [|left; rewrite length_app; simpl; lia]. intros a. rewrite length_app. simpl.
      destruct (decide (buf + Z.of_nat (length O) = a)) as [<-|Hne].
      * rewrite lookup_insert_eq. destruct (Z.leb_spec buf (buf + Z.of_nat (length O))), (Z.leb_spec (buf + Z.of_nat (length O)) end_),
          (Z.ltb_spec (buf + Z.of_nat (length O)) (buf + Z.of_nat (length O + 1))); simpl; try lia.
        replace (Z.to_nat (buf + Z.of_nat (length O) - buf)) with (length O + 0)%nat by lia. by rewrite lookup_app_r, Nat.add_0_r, Nat.sub_diag by lia.
      * rewrite lookup_insert_ne by done. rewrite Hm. destruct (Z.leb_spec buf a), (Z.leb_spec a end_),
          (Z.ltb_spec a (buf + Z.of_nat (length O))), (Z.ltb_spec a (buf + Z.of_nat (length O + 1))); simpl; try done; try lia.
        by rewrite lookup_app_l by lia.
  - apply HQ. split; [|right; rewrite length_app; simpl; lia]. intros a. rewrite Hm, length_app. simpl.
    destruct (Z.leb_spec buf a), (Z.leb_spec a end_), (Z.ltb_spec a (buf + Z.of_nat (length O))),
      (Z.ltb_spec a (buf + Z.of_nat (length O + 1))); simpl; try done; try lia.
    by rewrite lookup_app_l by lia.
Qed.

Lemma prints_ret : prints (fun str => mret str) [].
Proof using. intros O str m Q Hp Hr HQ. rewrite app_nil_r in *. wp_norm. by apply HQ. Qed.

Lemma prints_bind P P' L L' : prints P L -> prints P' L' -> prints (fun str => str ← P str; P' str) (L ++ L').
Proof using.
  intros HP HP' O str m Q Hp Hr HQ. rewrite app_assoc in *. wp_norm. eapply HP; [done|by eapply room_app|].
  intros str1 m1 Hp1. by eapply HP'.
Qed.

Lemma prints_emit_all l : prints (fun str => emit_all end_ str l) l.
Proof using Hmap.
  induction l as [|c l IH]; [apply prints_ret|]. apply (prints_bind _ (fun str => emit_all end_ str l) [c]); [apply prints_emit|done].
Qed.

(** The loops that print [c] several times leave their counter as well. *)
Lemma wp_fill O str m c lo k Q :
  printed O str m -> room (O ++ replicate (Z.to_nat (k - lo)) c) ->
  (forall str' m', printed (O ++ replicate (Z.to_nat (k - lo)) c) str' m' -> Q (str', Z.min lo k - 1) m') ->
  wp (fill end_ str c lo k) Q m.
Proof using Hmap.
  unfold fill. assert (exists f, f = Z.to_nat (k - lo)) as [f Ef] by eauto. rewrite <- Ef. revert k O str m Ef.
  induction f as [|f IH]; intros k O str m Ef Hp Hr HQ; cbn [fill_loop]; (destruct (Z.ltb_spec lo k); [try lia|try lia]).
  - wp_norm. rewrite app_nil_r in HQ. replace (k - 1) with (Z.min lo k - 1) by lia. by apply HQ.
  - cbn [replicate] in *. rewrite (app_assoc O [c] (replicate f c) : O ++ c :: replicate f c = _) in *.
    wp_norm. eapply (prints_emit c); [done|by eapply room_app|]. intros str1 m1 Hp1. replace (Z.min lo k) with (Z.min lo (k - 1)) in HQ by lia.
    apply (IH (k - 1) (O ++ [c])); [lia|done..].
Qed.

Lemma prints_fill c lo k : prints (fun str => r ← fill end_ str c lo k; mret r.1) (replicate (Z.to_nat (k - lo)) c).
Proof using Hmap. intros O str m Q Hp Hr HQ. wp_norm. eapply wp_fill; [done..|]. intros. wp_norm. by apply HQ. Qed.

Lemma wp_predec O str m k Q :
  printed O str m -> room (O ++ spaces (k - 1)) ->
  (forall str' m', printed (O ++ spaces (k - 1)) str' m' -> Q (str', Z.min 0 (k - 1)) m') -> wp (predec end_ str k) Q m.
Proof using Hmap.
  unfold predec, spaces. assert (exists f, f = Z.to_nat k) as [f Ef] by eauto. rewrite <- Ef. revert k O str m Ef.
  induction f as [|f IH]; intros k O str m Ef Hp Hr HQ; cbn [predec_loop]; rewrite Z.gtb_ltb; (destruct (Z.ltb_spec 0 (k - 1)); [try lia|]).
  - wp_norm. replace (Z.to_nat (k - 1)) with 0%nat in HQ by lia; cbn [replicate] in HQ. rewrite app_nil_r in HQ. replace (Z.min 0 (k - 1)) with (k - 1) in HQ by lia. by apply HQ.
  - replace (Z.to_nat (k - 1)) with (S (Z.to_nat (k - 1 - 1))) in * by lia. cbn [replicate] in *.
    rewrite (app_assoc O [ch " "] (replicate _ _) : O ++ ch " " :: replicate (Z.to_nat (k - 1 - 1)) (ch " ") = _) in *.
    wp_norm. eapply (prints_emit (ch " ")); [done|by eapply room_app|]. intros str1 m1 Hp1. replace (Z.min 0 (k - 1)) with (Z.min 0 (k - 1 - 1)) in HQ by lia.
    apply (IH (k - 1) (O ++ [ch " "])); [lia|done..].
  - wp_norm. replace (Z.to_nat (k - 1)) with 0%nat in HQ by lia; cbn [replicate] in HQ. rewrite app_nil_r in HQ. replace (Z.min 0 (k - 1)) with (k - 1) in HQ by lia. by apply HQ.
Qed.

Lemma prints_tmp_loop i tmp pr : (i <= length tmp)%nat ->
  prints (fun str => tmp_loop i end_ str tmp pr) (if pr =? 0 then [] else rev (take i tmp)).
Proof using Hmap.
  induction i as [|i IH]; intros Hi; cbn [tmp_loop]; [destruct (pr =? 0); apply prints_ret|].
  destruct (pr =? 0); [apply prints_ret|]. destruct (lookup_lt_is_Some_2 tmp i) as [c Hc]; [lia|].
  rewrite (take_S_r _ _ c), rev_app_distr by done. intros O str m Q Hp Hr HQ. wp_norm. rewrite wp_getso. exists c. split; [done|].
  apply (prints_bind (fun str => emit end_ str c) (fun str => tmp_loop i end_ str tmp pr) [c] (rev (take i tmp))) with (O := O);
    [apply prints_emit|apply IH; lia|done..].
Qed.

(** Beyond the end it does not matter what else is printed. *)
Lemma printed_beyond O X Y str m : end_ < buf + Z.of_nat (length O) -> end_ < str -> printed (O ++ X) str m -> printed (O ++ Y) str m.
Proof using.
  intros HO Hstr [Hm _]. split; [|right; rewrite length_app; lia]. intros a. rewrite Hm, !length_app.
  destruct (Z.leb_spec buf a), (Z.leb_spec a end_); simpl; try done. rewrite (proj2 (Z.ltb_lt _ _)), (proj2 (Z.ltb_lt _ _)) by lia.
  by rewrite !lookup_app_l by lia.
Qed.

Definition body_text (precision pb : Z) (tmp : list Z) : list Z :=
  zeros (precision - Z.of_nat (length tmp)) ++ (if pb =? 0 then [] else rev tmp).

Lemma wp_print_rest O str m size c precision pb type tmp Q :
  let L := if has type LEFT then body_text precision pb tmp ++ spaces size
           else replicate (Z.to_nat size) c ++ body_text precision pb tmp in
  printed O str m -> room (O ++ L) -> (forall str' m', printed (O ++ L) str' m' -> Q str' m') ->
  wp (print_rest str end_ size c precision pb type tmp) Q m.
Proof using Hmap.
  intros L Hp Hr HQ. unfold print_rest.
  assert (forall size', prints (fun str => r ← fill end_ str (ch "0") (Z.of_nat (length tmp)) precision;
    buf ← tmp_loop (length tmp) end_ r.1 tmp pb; r ← fill end_ buf (ch " ") 0 size'; mret r.1)
    (body_text precision pb tmp ++ spaces size')) as Hbody.
  { intros size' O1 str1 m1 Q1 Hp1 Hr1 HQ1. unfold body_text in *. rewrite <- app_assoc in *. wp_norm.
    eapply wp_fill; [done|rewrite app_assoc in Hr1; by eapply room_app|]. intros str2 m2 Hp2. wp_norm. cbn [fst].
    rewrite app_assoc in Hr1, HQ1. refine (proj1 (wp_bind _ _ _ _) (prints_bind (fun str => tmp_loop (length tmp) end_ str tmp pb)
      (fun str => r ← fill end_ str (ch " ") 0 size'; mret r.1) _ (spaces size') _ _ _ str2 m2 Q1 Hp2 Hr1 HQ1)).
    - pose proof (prints_tmp_loop (length tmp) tmp pb (Nat.le_refl _)) as Ht. by rewrite firstn_all in Ht.
    - unfold spaces. replace (Z.to_nat size') with (Z.to_nat (size' - 0)) by lia. apply prints_fill. }
  rewrite wp_bind. destruct (has type LEFT) eqn:El; cbn [negb]; unfold L in *.
  - rewrite wp_ret. exact (Hbody size O str m Q Hp Hr HQ).
  - rewrite app_assoc in Hr, HQ. eapply wp_fill; [done|rewrite Z.sub_0_r; by eapply room_app|]. rewrite Z.sub_0_r. intros str1 m1 Hp1.
    apply (Hbody _ _ _ _ Q Hp1); unfold spaces; replace (Z.to_nat (Z.min 0 size - 1)) with 0%nat by lia; by rewrite app_nil_r.
Qed.
End output.

(** ** Flags and digits *)

Lemma has_bit x k : 0 <= k -> has x (2 ^ k) = Z.testbit x k.
Proof.
  intros Hk. unfold has. destruct (Z.testbit x k) eqn:E.
  - apply negb_true_iff, Z.eqb_neq. intros H. apply (f_equal (fun y => Z.testbit y k)) in H.
    rewrite Z.land_spec, E, Z.pow2_bits_true, Z.bits_0 in H by done. done.
  - apply negb_false_iff, Z.eqb_eq, Z.bits_inj'. intros i Hi. rewrite Z.land_spec, Z.bits_0.
    destruct (decide (i = k)) as [->|]; [by rewrite E|]. rewrite Z.pow2_bits_false by done. apply andb_false_r.
Qed.

Lemma has_clear x j k : 0 <= j -> 0 <= k -> has (x .&~ 2 ^ j) (2 ^ k) = has x (2 ^ k) && negb (j =? k).
Proof.
  intros Hj Hk. rewrite !has_bit, Z.land_spec, Z.lnot_spec by done. f_equal. rewrite Z.pow2_bits_eqb by done. done.
Qed.

Lemma has_or x f g : has x (f .| g) = has x f || has x g.
Proof.
  unfold has. rewrite Z.land_lor_distr_r. destruct (Z.eqb_spec (x .& f) 0) as [E|E], (Z.eqb_spec (x .& g) 0) as [E'|E']; simpl.
  - by rewrite E, E'.
  - apply negb_true_iff, Z.eqb_neq. intros [? ?]%Z.lor_eq_0_iff. done.
  - apply negb_true_iff, Z.eqb_neq. intros [? ?]%Z.lor_eq_0_iff. done.
  - apply negb_true_iff, Z.eqb_neq. intros [? ?]%Z.lor_eq_0_iff. done.
Qed.

Lemma divide_eq n base : divide n base = (u32 n mod radix base, u32 n / radix base).
Proof. unfold divide, radix. by destruct (base =? 10). Qed.

Lemma digits_loop_text digits base k fuel num tmp :
  length digits = 16%nat -> - 2 ^ 31 <= num < 2 ^ 32 -> u32 num < radix base ^ Z.of_nat k -> (length tmp + k <= 16)%nat -> (k < fuel)%nat ->
  digits_loop fuel num base digits tmp = Some (tmp ++ ((fun d => default 0 (digits !! Z.to_nat d)) <$> rev_digits k (radix base) (u32 num))).
Proof.
  intros Hd. assert (Hrx : 10 <= radix base <= 16) by (unfold radix; destruct (base =? 10); lia).
  revert fuel num tmp. induction k as [|k IH]; intros fuel num tmp Hn Hk Hl Hf; (destruct fuel as [|fuel]; [lia|]); cbn [digits_loop rev_digits].
  - assert (u32 num = 0) as E by (pose proof (uwrap_bound 32 num ltac:(lia)); simpl in Hk; lia).
    destruct (Z.eqb_spec num 0); [|wrap_lia]. simpl. by rewrite app_nil_r.
  - destruct (Z.eqb_spec num 0) as [->|Hne]; [by rewrite app_nil_r|].
    assert (0 < u32 num < 2 ^ 32) as Hu by wrap_lia. destruct (Z.eqb_spec (u32 num) 0) as [|_]; [lia|].
    destruct (Nat.ltb_spec (length tmp) 16); [|lia]. rewrite divide_eq.
    destruct (lookup_lt_is_Some_2 digits (Z.to_nat (u32 num mod radix base))) as [d Ed].
    { pose proof (Z.mod_pos_bound (u32 num) (radix base) ltac:(lia)). lia. }
    rewrite Ed. simpl. rewrite Ed. simpl.
    assert (0 <= u32 num / radix base < 2 ^ 32) as Hq by (split; [apply Z.div_pos; lia|apply Z.div_lt_upper_bound; nia]).
    rewrite IH; [rewrite (u32_small (_ / _)) by lia; by rewrite <- app_assoc|lia| |rewrite length_app; simpl; lia|lia].
    rewrite u32_small by lia. apply Z.div_lt_upper_bound; [lia|]. rewrite Nat2Z.inj_succ, Z.pow_succ_r in Hk by lia. lia.
Qed.

Section number_parts.
Context (type : Z).

Lemma type_left (type' := if has type LEFT then type .&~ ZEROPAD else type) :
  has type' LEFT = has type LEFT /\ has type' (ZEROPAD .| LEFT) = has type ZEROPAD || has type LEFT /\
  has type' ZEROPAD = has type ZEROPAD && negb (has type LEFT) /\
  has type' SIGN = has type SIGN /\ has type' PLUS = has type PLUS /\ has type' SPACE = has type SPACE.
Proof.
  assert (forall k, 0 <= k -> has type' (2 ^ k) = has type (2 ^ k) && (negb (k =? 0) || negb (has type LEFT))) as H.
  { intros k Hk. unfold type'. destruct (has type LEFT); [|by rewrite orb_true_r, andb_true_r].
    change ZEROPAD with (2 ^ 0). rewrite has_clear, orb_false_r by lia. done. }
  pose proof (H 0 ltac:(lia)) as H0. pose proof (H 1 ltac:(lia)) as H1. pose proof (H 2 ltac:(lia)) as H2.
  pose proof (H 3 ltac:(lia)) as H3. pose proof (H 4 ltac:(lia)) as H4.
  change (2 ^ 0) with ZEROPAD in H0. change (2 ^ 1) with SIGN in H1. change (2 ^ 2) with PLUS in H2.
  change (2 ^ 3) with SPACE in H3. change (2 ^ 4) with LEFT in H4. simpl in H0, H1, H2, H3, H4.
  rewrite andb_true_r in H1, H2, H3, H4. rewrite has_or, H0, H1, H2, H3, H4.
  by destruct (has type ZEROPAD), (has type LEFT).
Qed.

(** The sign and the number behind it. *)
Lemma sign_number num : - 2 ^ 31 <= num < 2 ^ 31 ->
  exists sg num',
    (if has type SIGN then
       if num <? 0 then (ch "-", s32 (- num)) else if has type PLUS then (ch "+", num) else if has type SPACE then (ch " ", num) else (0, num)
     else (0, num)) = (sg, num') /\
    sign_text num type = (if sg =? 0 then [] else [sg]) /\ - 2 ^ 31 <= num' < 2 ^ 31 /\ u32 num' = magnitude num type.
Proof.
  intros Hn. unfold sign_text, magnitude. destruct (has type SIGN); simpl; [|by eexists _, _].
  destruct (Z.ltb_spec num 0); [|destruct (has type PLUS); [by eexists _, _|destruct (has type SPACE); by eexists _, _]].
  eexists _, _. split; [done|]. split; [done|]. wrap_lia.
Qed.
End number_parts.

Lemma number_tmp digits base num : length digits = 16%nat -> - 2 ^ 31 <= num < 2 ^ 31 ->
  (if num =? 0 then Some [ch "0"] else digits_loop 17 num base digits []) = Some (rev (digits_text digits base (u32 num))).
Proof.
  intros Hd Hn. unfold digits_text. destruct (Z.eqb_spec num 0) as [->|Hne]; [done|].
  destruct (Z.eqb_spec (u32 num) 0); [wrap_lia|]. rewrite (digits_loop_text _ _ 10); [|done|lia| |simpl; lia|lia].
  - by rewrite map_rev, rev_involutive.
  - pose proof (uwrap_bound 32 num ltac:(lia)). unfold radix. destruct (base =? 10); simpl Z.of_nat; lia.
Qed.

Section output_text.
Context (buf end_ n : Z) (m0 : bytes).
Hypothesis Hmap : mapped buf n m0.
Abbreviation printed := (printed buf end_ m0).
Abbreviation room := (room buf end_ n).
Abbreviation prints := (prints buf end_ n m0).

(** What follows the first padding: the sign may be cut off, and then the rest has another width. *)
Lemma wp_sign_rest O str m sg size c precision pb type tmp Q :
  let size' := if sg =? 0 then size else size - 1 in
  let L := (if sg =? 0 then [] else [sg]) ++
    (if has type LEFT then body_text precision pb tmp ++ spaces size' else replicate (Z.to_nat size') c ++ body_text precision pb tmp) in
  printed O str m -> room (O ++ L) -> (forall str' m', printed (O ++ L) str' m' -> Q str' m') ->
  wp (r ← (if negb (sg =? 0) then b ← emit end_ str sg; mret (b, if str <=? end_ then size - 1 else size) else mret (str, size));
      let '(buf, size) := r in print_rest buf end_ size c precision pb type tmp) Q m.
Proof using Hmap.
  intros size' L Hp Hr HQ. destruct (sg =? 0) eqn:Es; cbn [negb]; rewrite wp_bind.
  - rewrite wp_ret. by eapply wp_print_rest.
  - unfold L in Hr, HQ. rewrite app_assoc in Hr, HQ. rewrite wp_bind. eapply (prints_emit _ _ _ _ Hmap); [done|by eapply room_app|].
    intros str1 m1 Hp1. rewrite wp_ret. destruct (Z.leb_spec str end_) as [Hle|Hgt]; [by eapply wp_print_rest|].
    assert (end_ < buf + Z.of_nat (length O)) as HO by (destruct Hp as [_ [->|[_ ?]]]; lia).
    assert (end_ < buf + n) as Hn.
    { pose proof (room_app _ _ _ _ _ (room_app _ _ _ _ _ Hr)) as [H|H]; lia. }
    eapply wp_print_rest; [done|done|by right|]. intros str' m' Hp'. apply HQ.
    rewrite <- app_assoc in Hp'. rewrite <- app_assoc.
    eapply printed_beyond; [done| |exact Hp']. destruct Hp' as [_ [->|[? _]]]; [rewrite length_app|]; lia.
Qed.

Lemma prints_number num base s pr type : - 2 ^ 31 <= num < 2 ^ 31 ->
  prints (fun str => print_number str end_ num base s pr type) (number_text num base s pr type).
Proof using Hmap.
  intros Hn O str m Q Hp Hr HQ. unfold print_number, number_text in *.
  destruct (type_left type) as (TL & TZL & TZ & TS & TP & TSP). cbv zeta in TL, TZL, TZ, TS, TP, TSP.
  set (type' := if has type LEFT then type .&~ ZEROPAD else type) in *. rewrite TS, TP, TSP.
  destruct (sign_number type num Hn) as (sg & num' & -> & Esg & Hn' & Emag). rewrite <- Emag, Esg in Hr, HQ.
  set (digits := if has type LARGE then large_digits else small_digits) in *.
  assert (length digits = 16%nat) as Hd by (unfold digits; by destruct (has type LARGE)).
  rewrite wp_bind, wp_getso. eexists. split; [by apply number_tmp|].
  set (ds := digits_text digits base (u32 num')) in *. rewrite length_rev.
  replace (if Z.of_nat (length ds) >? pr then Z.of_nat (length ds) else pr) with (Z.max (Z.of_nat (length ds)) pr)
    by (rewrite Z.gtb_ltb; destruct (Z.ltb_spec pr (Z.of_nat (length ds))); lia).
  set (len := Z.max (Z.of_nat (length ds)) pr) in *. rewrite TZL.
  assert (body_text len pr (rev ds) = zeros (len - Z.of_nat (length ds)) ++ (if pr =? 0 then [] else ds)) as Eb
    by (unfold body_text; by rewrite length_rev, rev_involutive).
  set (body := zeros _ ++ _) in *. set (size := s - len) in *.
  replace (size - Z.of_nat (length (if sg =? 0 then [] else [sg]))) with (if sg =? 0 then size else size - 1) in *
    by (destruct (sg =? 0); simpl; lia).
  rewrite wp_bind. destruct (has type LEFT) eqn:El; [|destruct (has type ZEROPAD) eqn:Ez]; rewrite ?orb_true_r, ?orb_true_l, ?orb_false_r; cbn [negb orb].
  - rewrite wp_ret. eapply wp_sign_rest; rewrite ?TL, ?Eb; done.
  - rewrite wp_ret. eapply wp_sign_rest; rewrite ?TL, ?TZ, ?Eb; done.
  - set (sz := if negb (sg =? 0) && (size >? 0) then size - 1 else size).
    assert (spaces (if sg =? 0 then size else size - 1) = spaces (sz - 0)) as Esz.
    { unfold spaces. f_equal. unfold sz. rewrite Z.gtb_ltb. destruct (sg =? 0), (Z.ltb_spec 0 size); simpl; lia. }
    rewrite Esz, app_assoc in Hr, HQ. eapply (wp_fill _ _ _ _ Hmap); [done|by eapply room_app|]. intros str1 m1 Hp1.
    eapply wp_sign_rest; [exact Hp1|..]; rewrite ?TL, ?Eb;
      replace (Z.to_nat (if sg =? 0 then Z.min 0 sz - 1 else Z.min 0 sz - 1 - 1)) with 0%nat by (destruct (sg =? 0); lia); done.
Qed.

Lemma prints_char flags fw c : prints (fun str => print_char end_ str flags fw c) (char_text flags fw c).
Proof using Hmap.
  intros O str m Q Hp Hr HQ. unfold print_char, char_text in *.
  assert (forall O1 str1 m1 k, printed O1 str1 m1 -> room (O1 ++ c :: spaces (k - 1)) ->
    (forall str' m', printed (O1 ++ c :: spaces (k - 1)) str' m' -> Q str' m') ->
    wp (str ← emit end_ str1 c; r ← predec end_ str k; mret r.1) Q m1) as Hrest.
  { intros O1 str1 m1 k Hp1 Hr1 HQ1.
    rewrite (app_assoc O1 [c] (spaces (k - 1)) : O1 ++ c :: spaces (k - 1) = _) in *.
    wp_norm. eapply (prints_emit _ _ _ _ Hmap); [done|by eapply room_app|]. intros str2 m2 Hp2. wp_norm.
    eapply (wp_predec _ _ _ _ Hmap); [done|done|]. intros str3 m3 Hp3. wp_norm. by apply HQ1. }
  rewrite wp_bind. destruct (has flags LEFT); cbn [negb].
  - rewrite wp_ret. by eapply Hrest.
  - eapply (wp_predec _ _ _ _ Hmap); [done|rewrite app_assoc in Hr; by eapply room_app|]. intros str1 m1 Hp1. cbn [fst snd].
    rewrite app_assoc in Hr, HQ.
    apply (Hrest _ _ _ _ Hp1); unfold spaces at 2; replace (Z.to_nat (Z.min 0 (fw - 1) - 1)) with 0%nat by lia; done.
Qed.

Lemma prints_string flags fw pr s : prints (fun str => print_string end_ str flags fw pr s) (string_text flags fw pr s).
Proof using Hmap.
  intros O str m Q Hp Hr HQ. unfold print_string, string_text in *. set (s0 := default (chars "(NULL)") s) in *.
  set (s1 := if pr >? 0 then take (Z.to_nat pr) s0 else s0) in *.
  set (len := if (pr >? 0) && (Z.of_nat (length s0) >? pr) then pr else Z.of_nat (length s0)).
  assert (len = Z.of_nat (length s1) /\ take (Z.to_nat len) s0 = s1) as [El Es].
  { unfold len, s1. rewrite !Z.gtb_ltb. destruct (Z.ltb_spec 0 pr); simpl; [|by rewrite Nat2Z.id, firstn_all].
    destruct (Z.ltb_spec pr (Z.of_nat (length s0))); simpl; [rewrite length_take; split; [lia|done]|].
    rewrite Nat2Z.id, firstn_all, take_ge by lia. done. }
  rewrite Es, El.
  assert (forall O1 str1 m1 k, printed O1 str1 m1 -> room (O1 ++ s1 ++ spaces (k - Z.of_nat (length s1))) ->
    (forall str' m', printed (O1 ++ s1 ++ spaces (k - Z.of_nat (length s1))) str' m' -> Q str' m') ->
    wp (str ← emit_all end_ str1 s1; r ← fill end_ str (ch " ") (Z.of_nat (length s1)) k; mret r.1) Q m1) as Hrest.
  { intros O1 str1 m1 k Hp1 Hr1 HQ1. refine (prints_bind _ _ _ _ (fun str => emit_all end_ str s1)
      (fun str => r ← fill end_ str (ch " ") (Z.of_nat (length s1)) k; mret r.1) _ _ _ _ O1 str1 m1 Q Hp1 Hr1 HQ1).
    - by apply prints_emit_all.
    - by apply prints_fill. }
  rewrite wp_bind. destruct (has flags LEFT); cbn [negb].
  - rewrite wp_ret. by eapply Hrest.
  - rewrite app_assoc in Hr, HQ. eapply (wp_fill _ _ _ _ Hmap); [done|by eapply room_app|]. intros str1 m1 Hp1. cbn [fst snd].
    apply (Hrest _ _ _ _ Hp1); unfold spaces; replace (Z.to_nat (Z.min (Z.of_nat (length s1)) fw - 1 - Z.of_nat (length s1))) with 0%nat by lia;
      by rewrite app_nil_r.
Qed.

(** ** The loop over the format *)

Lemma va_int_range args v rest : va_int args = Some (v, rest) -> - 2 ^ 31 <= v < 2 ^ 31.
Proof using. destruct args as [|[a|s] args]; simpl; [done| |done]. intros [= <- _]. wrap_lia. Qed.

Lemma wp_convert flags fw pr q fmt args L fmt' args' O str m Q :
  conv_text flags fw pr q fmt args = Some (L, fmt', args') ->
  printed O str m -> room (O ++ L) -> (forall str' m', printed (O ++ L) str' m' -> Q (str', fmt', args') m') ->
  wp (convert end_ str flags fw pr q fmt args) Q m.
Proof using Hmap.
  intros E Hp Hr HQ. destruct fmt as [|c fmt]; cbn [conv_text convert] in *.
  { injection E as <- <- <-. rewrite wp_bind. eapply (prints_emit _ _ _ _ Hmap); [done..|]. intros. rewrite wp_ret. by apply HQ. }
  destruct (c =? ch "c").
  { destruct (va_int args) as [[v rest]|] eqn:Ev; [|done]. injection E as <- <- <-. rewrite wp_bind, wp_getso. eexists. split; [reflexivity|].
    rewrite wp_bind. eapply prints_char; [done..|]. intros. rewrite wp_ret. by apply HQ. }
  destruct (c =? ch "s").
  { destruct args as [|[v|s] args]; [done..|]. injection E as <- <- <-. rewrite wp_bind. eapply prints_string; [done..|]. intros. rewrite wp_ret. by apply HQ. }
  destruct (c =? ch "p").
  { destruct (va_int args) as [[v rest]|] eqn:Ev; [|done]. injection E as <- <- <-. pose proof (va_int_range _ _ _ Ev) as Hv.
    rewrite wp_bind, wp_getso. eexists. split; [reflexivity|].
    destruct (fw =? -1); rewrite wp_bind; (eapply prints_number; [exact Hv|done..|]); intros; rewrite wp_ret; by apply HQ. }
  destruct (c =? ch "%").
  { injection E as <- <- <-. rewrite wp_bind. eapply (prints_emit _ _ _ _ Hmap); [done..|]. intros. rewrite wp_ret. by apply HQ. }
  destruct (int_conv c flags) as [[base flags']|].
  - destruct args as [|[v|s] args]; [done| |done]. injection E as <- <- <-. rewrite wp_bind.
    eapply prints_number; [wrap_lia|done..|]. intros. rewrite wp_ret. by apply HQ.
  - injection E as <- <- <-. rewrite (app_assoc O [ch "%"] [c] : O ++ [ch "%"; c] = _) in *. rewrite wp_bind.
    eapply (prints_emit _ _ _ _ Hmap); [done|by eapply room_app|]. intros str1 m1 Hp1. rewrite wp_bind.
    eapply (prints_emit _ _ _ _ Hmap); [done..|]. intros. rewrite wp_ret. by apply HQ.
Qed.

Lemma wp_vsn_loop fuel fmt args T O str m Q :
  text_loop fuel fmt args = Some T -> printed O str m -> room (O ++ T) ->
  (forall str' m', printed (O ++ T) str' m' -> Q str' m') -> wp (vsn_loop fuel end_ str fmt args) Q m.
Proof using Hmap.
  revert fmt args T O str m. induction fuel as [|fuel IH]; intros fmt args T O str m E Hp Hr HQ; [done|].
  destruct fmt as [|c fmt]; cbn [text_loop vsn_loop] in *.
  { injection E as <-. rewrite app_nil_r in *. rewrite wp_ret. by apply HQ. }
  destruct (negb (c =? ch "%")).
  { destruct (text_loop fuel fmt args) as [T'|] eqn:ET; [|done]. injection E as <-.
    rewrite (app_assoc O [c] T' : O ++ c :: T' = _) in *. rewrite wp_bind.
    eapply (prints_emit _ _ _ _ Hmap); [done|by eapply room_app|]. intros str1 m1 Hp1. by eapply IH. }
  destruct (parse_flags fmt 0) as [flags fmt1]. destruct (parse_width fmt1 args flags) as [[[[fw flags'] fmt2] args2]|] eqn:Ew; [|done].
  rewrite wp_bind, wp_getso. eexists. split; [reflexivity|]. simpl in E.
  destruct (parse_precision fmt2 args2) as [[[pr fmt3] args3]|] eqn:Ep; [|done]. simpl in E.
  rewrite wp_bind, wp_getso. eexists. split; [exact Ep|]. cbv beta iota zeta. destruct (parse_qualifier fmt3) as [q fmt4].
  destruct (conv_text flags' fw pr q fmt4 args3) as [[[L fmt5] args5]|] eqn:Ec; [|done]. simpl in E.
  destruct (text_loop fuel fmt5 args5) as [T'|] eqn:ET; [|done]. injection E as <-.
  rewrite app_assoc in Hr, HQ. cbv beta iota zeta. rewrite wp_bind. eapply wp_convert; [exact Ec|done|by eapply room_app|].
  intros str1 m1 Hp1. by eapply IH.
Qed.
End output_text.

(** ** [rt_vsnprintf] *)

(** The first [k] characters of [T] and a NUL are at [buf], and the rest of the memory is as before. *)
Definition buffer_text (buf k : Z) (T : list Z) (m m' : bytes) : Prop :=
  forall a, m' !! a =
    if (buf <=? a) && (a <? buf + k) then u8 <$> (T !! Z.to_nat (a - buf)) else if a =? buf + k then Some 0 else m !! a.

(** The address behind which nothing is written. *)
Definition end_of (buf size : Z) : Z := let e := u32 (buf + size - 1) in if e <? buf then u32 (-1) else e.

Lemma printed_nil buf e m : printed buf e m [] buf m.
Proof.
  split; [|left; simpl; lia]. intros a.
  destruct (Z.leb_spec buf a), (Z.leb_spec a e), (Z.ltb_spec a (buf + Z.of_nat (length (@nil Z)))); simpl in *; (done || lia).
Qed.

Lemma wp_vsnprintf buf size n fmt args T m Q :
  mapped buf n m -> format_text fmt args = Some T -> buf <= end_of buf size ->
  (Z.of_nat (length T) < n \/ end_of buf size < buf + n) ->
  (forall r m', buffer_text buf (Z.of_nat (length T) `min` (end_of buf size - buf)) T m m' ->
     (r = Z.of_nat (length T) \/ end_of buf size < buf + r /\ end_of buf size < buf + Z.of_nat (length T)) -> Q r m') ->
  wp (rt_vsnprintf buf size fmt args) Q m.
Proof.
  intros Hmap E Hend Hr HQ. unfold rt_vsnprintf. fold (end_of buf size). set (e := end_of buf size) in *. rewrite wp_bind.
  eapply (wp_vsn_loop buf e n m Hmap); [exact E|apply printed_nil|unfold room; simpl; lia|]. cbn [app]. intros str m' [Hm Hstr].
  rewrite wp_bind. set (k := Z.of_nat (length T) `min` (e - buf)) in *.
  assert (is_Some (m' !! (buf + k))) as Hk.
  { rewrite Hm. destruct (Z.leb_spec buf (buf + k)), (Z.leb_spec (buf + k) e), (Z.ltb_spec (buf + k) (buf + Z.of_nat (length T)));
      simpl; try (apply Hmap; lia). destruct (lookup_lt_is_Some_2 T (Z.to_nat (buf + k - buf))) as [c ->]; [lia|]. by eexists. }
  assert (wp (store (buf + k) 0) (fun _ m1 => wp (mret (str - buf)) Q m1) m') as Hfin.
  { rewrite wp_store. split; [done|]. rewrite wp_ret. apply HQ; [|destruct Hstr; [left|right]; lia].
    intros a. change (u8 0) with 0. destruct (Z.eqb_spec a (buf + k)) as [->|Hne].
    - rewrite lookup_insert_eq. destruct (Z.ltb_spec (buf + k) (buf + k)); [lia|]. by rewrite andb_false_r.
    - rewrite lookup_insert_ne, Hm by done. destruct (Z.leb_spec buf a), (Z.leb_spec a e), (Z.ltb_spec a (buf + Z.of_nat (length T))),
        (Z.ltb_spec a (buf + k)); simpl; (done || lia). }
  destruct (Z.leb_spec str e) as [Hle|Hgt].
  - replace str with (buf + k) at 1 by (unfold k; lia). exact Hfin.
  - replace e with (buf + k) by (unfold k; lia). exact Hfin.
Qed.

(** C12: [rt_snprintf] with a buffer of at least one byte: for every format and arguments of the right kinds it leaves the text
    that they stand for in the buffer, cut to the size and ended by a NUL, and writes no byte outside; it
    returns the length of the whole text if that fits, and otherwise a number that is not less than the size. *)
Theorem rt_snprintf_spec buf size fmt args T m :
  0 <= buf -> 1 <= size -> buf + size <= 2 ^ 32 -> mapped buf size m -> format_text fmt args = Some T ->
  wp (rt_snprintf buf size fmt args) (fun r m' =>
    buffer_text buf (Z.of_nat (length T) `min` (size - 1)) T m m' /\
    (if Z.of_nat (length T) <? size then r = Z.of_nat (length T) else size <= r)) m.
Proof.
  intros Hb Hs Ht Hm E. assert (end_of buf size = buf + size - 1) as Ee.
  { unfold end_of. rewrite u32_small by lia. destruct (Z.ltb_spec (buf + size - 1) buf); lia. }
  unfold rt_snprintf. eapply wp_vsnprintf; [exact Hm|exact E|lia|lia|]. rewrite Ee. intros r m' Hbt Hr. split.
  - by replace (size - 1) with (buf + size - 1 - buf) by lia.
  - destruct (Z.ltb_spec (Z.of_nat (length T)) size); lia.
Qed.

(** [rt_sprintf] leaves the whole text, whatever its length. *)
Theorem rt_sprintf_spec buf fmt args T m :
  2 <= buf -> buf + Z.of_nat (length T) < 2 ^ 32 -> mapped buf (Z.of_nat (length T) + 1) m -> format_text fmt args = Some T ->
  wp (rt_sprintf buf fmt args) (fun r m' => buffer_text buf (Z.of_nat (length T)) T m m' /\ r = Z.of_nat (length T)) m.
Proof.
  intros Hb Ht Hm E. unfold rt_sprintf, rt_vsprintf. change (u32 (-1)) with (2 ^ 32 - 1).
  assert (end_of buf (2 ^ 32 - 1) = 2 ^ 32 - 1) as Ee.
  { unfold end_of. replace (u32 (buf + (2 ^ 32 - 1) - 1)) with (buf - 2) by (unfold uwrap; Z.to_euclidean_division_equations; lia).
    destruct (Z.ltb_spec (buf - 2) buf); [done|lia]. }
  eapply wp_vsnprintf; [exact Hm|exact E|lia|lia|]. rewrite Ee. intros r m' Hbt Hr.
  rewrite Z.min_l in Hbt by lia. split; [done|lia].
Qed.

(** ** Reading a number back *)

Lemma skip_atoi_digits l rest i :
  Forall (fun d => 0 <= d < 10) l -> (forall c r, rest = c :: r -> isdigit c = false) ->
  skip_atoi (((fun d => default 0 (small_digits !! Z.to_nat d)) <$> l) ++ rest) i = (foldl (fun i d => i * 10 + d) i l, rest).
Proof.
  intros Hl Hrest. revert i. induction Hl as [|d l Hd Hl IH]; intros i; cbn [fmap list_fmap app foldl].
  - destruct rest as [|c r]; simpl; [done|]. by rewrite (Hrest c r).
  - assert (default 0 (small_digits !! Z.to_nat d) = 48 + d) as ->.
    { assert (exists k, (k < 10)%nat /\ d = Z.of_nat k) as (k & Hk & ->) by (exists (Z.to_nat d); lia). rewrite Nat2Z.id.
      do 10 (destruct k as [|k]; [done|]). lia. }
    cbn [skip_atoi]. unfold isdigit. destruct (Z.leb_spec 48 (48 + d)), (Z.leb_spec (48 + d) 57); try lia. simpl.
    replace (i * 10 + (48 + d) - 48) with (i * 10 + d) by lia. apply IH.
Qed.

Lemma rev_digits_value k r n : 1 < r -> 0 <= n < r ^ Z.of_nat k ->
  Forall (fun d => 0 <= d < r) (rev_digits k r n) /\ foldr (fun d i => i * r + d) 0 (rev_digits k r n) = n.
Proof.
  intros Hr. revert n. induction k as [|k IH]; intros n Hn; cbn [rev_digits]; [simpl in Hn; split; [done|simpl; lia]|].
  destruct (Z.eqb_spec n 0) as [->|]; [done|]. rewrite Nat2Z.inj_succ, Z.pow_succ_r in Hn by lia.
  destruct (IH (n / r)) as [H1 H2]; [split; [apply Z.div_pos; lia|apply Z.div_lt_upper_bound; lia]|]. split.
  - constructor; [apply Z.mod_pos_bound; lia|done].
  - cbn [foldr]. rewrite H2. pose proof (Z.div_mod n r ltac:(lia)). lia.
Qed.

Lemma rev_digits_length k r n : (length (rev_digits k r n) <= k)%nat.
Proof. revert n. induction k as [|k IH]; intros n; simpl; [lia|]. destruct (n =? 0); simpl; [lia|]. specialize (IH (n / r)). lia. Qed.

Lemma decimal_atoi n rest : 0 <= n < 2 ^ 32 -> (forall c r, rest = c :: r -> isdigit c = false) ->
  skip_atoi (digits_text small_digits 10 n ++ rest) 0 = (n, rest).
Proof.
  intros Hn Hrest. unfold digits_text. destruct (Z.eqb_spec n 0) as [->|Hne].
  - apply (skip_atoi_digits [0] rest 0); [by repeat constructor|done].
  - change (radix 10) with 10. destruct (rev_digits_value 10 10 n ltac:(lia)) as [H1 H2]; [simpl; lia|].
    rewrite skip_atoi_digits; [|by apply Forall_rev|done]. f_equal. rewrite <- H2 at 2.
    clear. generalize (rev_digits 10 10 n). intros l. induction l as [|d l IH]; [done|]. simpl. by rewrite foldl_app, IH.
Qed.

(** C13: Printing and reading agree: a number that [rt_snprintf] prints with [%d] into a buffer with room for it comes out as a ['-'] if it
    is negative and digits that [skip_atoi], the reader of widths and precisions, which knows no sign, reads back as the absolute value of the number,
    stopping behind the last one. (The least number is left out: its absolute value is not one of C's [int].) *)
Theorem print_atoi_roundtrip buf size v m :
  0 <= buf -> 12 <= size -> buf + size <= 2 ^ 32 -> mapped buf size m -> - 2 ^ 31 < v < 2 ^ 31 ->
  exists ds, let T := (if v <? 0 then chars "-" else []) ++ ds in
    (forall rest, (forall c r, rest = c :: r -> isdigit c = false) -> skip_atoi (ds ++ rest) 0 = (Z.abs v, rest)) /\
    wp (rt_snprintf buf size (chars "%d") [VaInt v]) (fun r m' =>
      r = Z.of_nat (length T) /\ buffer_text buf r T m m') m.
Proof.
  intros Hb Hs Ht Hm Hv. set (ds := digits_text small_digits 10 (Z.abs v)). exists ds. set (T := _ ++ ds). cbv zeta.
  assert (format_text (chars "%d") [VaInt v] = Some T) as E.
  { unfold format_text, text_loop. simpl. rewrite app_nil_r. change (0 .| SIGN) with SIGN.
    assert (s32 (int_arg SIGN 0 v) = v) as -> by (unfold int_arg; simpl; wrap_lia).
    unfold number_text, sign_text, magnitude. change (has SIGN SIGN) with true. change (has SIGN LARGE) with false.
    change (has SIGN LEFT) with false. change (has SIGN ZEROPAD) with false. change (has SIGN PLUS) with false. change (has SIGN SPACE) with false.
    cbn [andb]. assert (u32 (if v <? 0 then - v else v) = Z.abs v) as ->.
    { destruct (Z.ltb_spec v 0); rewrite u32_small; lia. }
    fold ds. unfold spaces, zeros, T. rewrite !Z.max_l, Z.sub_diag by lia. simpl replicate.
    set (sg := if v <? 0 then _ else _). replace (Z.to_nat (-1 - Z.of_nat (length ds) - Z.of_nat (length sg))) with 0%nat by lia. done. }
  assert (length T <= 11)%nat as Hl.
  { unfold T. rewrite length_app. assert (length ds <= 10)%nat; [|destruct (v <? 0); simpl; lia].
    unfold ds, digits_text. destruct (Z.abs v =? 0); [simpl; lia|]. rewrite length_fmap, length_rev. apply rev_digits_length. }
  split; [intros; apply decimal_atoi; (done || lia)|].
  assert (end_of buf size = buf + size - 1) as Ee.
  { unfold end_of. rewrite u32_small by lia. destruct (Z.ltb_spec (buf + size - 1) buf); lia. }
  unfold rt_snprintf. eapply wp_vsnprintf; [exact Hm|exact E|lia|lia|]. rewrite Ee. intros r m' Hbt Hr.
  rewrite Z.min_l in Hbt by lia. destruct Hr as [->|]; [done|lia].
Qed.

(** ** Defects *)

(** [%o] prints the digits of base 16, since [divide] knows no base but 10 and 16. *)
Lemma octal_is_hexadecimal v : 0 <= v < 2 ^ 31 -> format_text (chars "%o") [VaInt v] = format_text (chars "%x") [VaInt v].
Proof. done. Qed.

(** A size of 0 counts as no bound at all. *)
Lemma rt_snprintf_size_0 fmt args T buf m :
  1 <= buf < 2 ^ 32 - 1 -> buf + Z.of_nat (length T) < 2 ^ 32 -> mapped buf (Z.of_nat (length T) + 1) m -> format_text fmt args = Some T ->
  wp (rt_snprintf buf 0 fmt args) (fun r m' => buffer_text buf (Z.of_nat (length T)) T m m') m.
Proof.
  intros Hb Ht Hm E. assert (end_of buf 0 = 2 ^ 32 - 1) as Ee.
  { unfold end_of. rewrite Z.add_0_r, u32_small by lia. by destruct (Z.ltb_spec (buf - 1) buf); [|lia]. }
  unfold rt_snprintf. eapply wp_vsnprintf; [exact Hm|exact E|lia|lia|]. rewrite Ee. intros r m' Hbt Hr. by rewrite Z.min_l in Hbt by lia.
Qed.

(** A precision of 0 prints no digits of any number. *)
Lemma precision_0_prints_nothing v : 0 <= v < 2 ^ 31 -> format_text (chars "%.0u") [VaInt v] = Some [].
Proof.
  intros Hv. unfold format_text, text_loop. simpl. unfold number_text, sign_text. change (has 0 SIGN) with false. change (has 0 LARGE) with false.
  change (has 0 LEFT) with false. change (has 0 ZEROPAD) with false. simpl.
  change (0 * 10 + ch "0" - 48) with 0. set (ds := digits_text _ _ _). rewrite !Z.max_l, Z.sub_diag by lia. unfold spaces, zeros.
  by replace (Z.to_nat (-1 - Z.of_nat (length ds) - Z.of_nat 0)) with 0%nat by lia.
Qed.

(** ** Examples *)

Definition blank : bytes := list_to_map ((fun i => (1000 + Z.of_nat i, 170)) <$> seq 0 16).

Lemma blank_mapped n : n <= 16 -> mapped 1000 n blank.
Proof.
  intros Hn a Ha. assert (exists k, (k < 16)%nat /\ a = 1000 + Z.of_nat k) as (k & Hk & ->) by (exists (Z.to_nat (a - 1000)); lia).
  do 16 (destruct k as [|k]; [by eexists|]). lia.
Qed.

(** The result of a cut-off text depends on the size: the sign that does not fit is not counted in the width. *)
Lemma rt_snprintf_sign_uncounted :
  (fst <$> rt_snprintf 1000 2 (chars "ab%05d") [VaInt (-3)] blank) = Some 8 /\
  (fst <$> rt_snprintf 1000 8 (chars "ab%05d") [VaInt (-3)] blank) = Some 7.
Proof. split; vm_compute; reflexivity. Qed.

(** A text of 127 characters: [rt_kprintf] hands its buffer of 126 of them and a NUL to the device as 127. *)
Lemma rt_kprintf_nul :
  let m := list_to_map ((fun i => (1000 + Z.of_nat i, 170)) <$> seq 0 128) : bytes in
  let write (p len : Z) : BM unit := c ← load (p + len - 1); RT_ASSERT ((len =? 127) && (c =? 0)) in
  wp (rt_kprintf (Some write) (fun _ => mret tt) 1000 (chars "%127d") [VaInt 5]) (fun _ _ => True) m.
Proof. by vm_compute. Qed.

(** The text is cut to 9 characters. *)
Lemma rt_snprintf_spec_witness :
  format_text (chars "%-4d|%04x|%s") [VaInt (-7); VaInt 255; VaStr (Some (chars "rt"))] = Some (chars "-7  |00ff|rt") /\
  wp (rt_snprintf 1000 10 (chars "%-4d|%04x|%s") [VaInt (-7); VaInt 255; VaStr (Some (chars "rt"))]) (fun r m' =>
    buffer_text 1000 (Z.of_nat (length (chars "-7  |00ff|rt")) `min` (10 - 1)) (chars "-7  |00ff|rt") blank m' /\
    (if Z.of_nat (length (chars "-7  |00ff|rt")) <? 10 then r = Z.of_nat (length (chars "-7  |00ff|rt")) else 10 <= r)) blank.
Proof. split; [vm_compute; reflexivity|]. apply rt_snprintf_spec; [lia..|apply blank_mapped; lia|vm_compute; reflexivity]. Defined.

Lemma rt_sprintf_spec_witness :
  wp (rt_sprintf 1000 (chars "%05u") [VaInt 42]) (fun r m' =>
    buffer_text 1000 (Z.of_nat (length (chars "00042"))) (chars "00042") blank m' /\ r = Z.of_nat (length (chars "00042"))) blank.
Proof. apply rt_sprintf_spec; [lia|simpl; lia|apply blank_mapped; simpl; lia|vm_compute; reflexivity]. Defined.

Lemma print_atoi_roundtrip_witness :
  exists ds, let T := chars "-" ++ ds in
    (forall rest, (forall c r, rest = c :: r -> isdigit c = false) -> skip_atoi (ds ++ rest) 0 = (2147483647, rest)) /\
    wp (rt_snprintf 1000 16 (chars "%d") [VaInt (- 2147483647)]) (fun r m' =>
      r = Z.of_nat (length T) /\ buffer_text 1000 r T blank m') blank.
Proof. apply (print_atoi_roundtrip 1000 16 (- 2147483647)); [lia..|apply blank_mapped; lia|lia]. Defined.
