(* ===== verification/FinshDef.v ===== *)
(** The finsh C-expression shell (components/finsh): its data, the symbol tables of finsh_var.c and finsh_vm.c, the nodes
    of finsh_node.c and finsh_error.c. *)

From S2P Require Import Prelude ByteMem.

(** ** Constants of finsh.h, finsh_node.h and finsh_ops.h *)

Abbreviation FINSH_NAME_MAX := 16.
Abbreviation FINSH_NODE_MAX := 16.
Abbreviation FINSH_HEAP_MAX := 128.
Abbreviation FINSH_STRING_MAX := 128.
Abbreviation FINSH_VARIABLE_MAX := 8.
Abbreviation FINSH_STACK_MAX := 64.
Abbreviation FINSH_TEXT_MAX := 128.

Abbreviation FINSH_ERROR_OK := 0.
Abbreviation FINSH_ERROR_INVALID_TOKEN := 1.
Abbreviation FINSH_ERROR_EXPECT_TYPE := 2.
Abbreviation FINSH_ERROR_UNKNOWN_TYPE := 3.
Abbreviation FINSH_ERROR_VARIABLE_EXIST := 4.
Abbreviation FINSH_ERROR_EXPECT_OPERATOR := 5.
Abbreviation FINSH_ERROR_MEMORY_FULL := 6.
Abbreviation FINSH_ERROR_UNKNOWN_OP := 7.
Abbreviation FINSH_ERROR_UNKNOWN_NODE := 8.
Abbreviation FINSH_ERROR_EXPECT_CHAR := 9.
Abbreviation FINSH_ERROR_UNEXPECT_END := 10.
Abbreviation FINSH_ERROR_UNKNOWN_TOKEN := 11.
Abbreviation FINSH_ERROR_NO_FLOAT := 12.
Abbreviation FINSH_ERROR_UNKNOWN_SYMBOL := 13.
Abbreviation FINSH_ERROR_NULL_NODE := 14.

Abbreviation FINSH_NODE_UNKNOWN := 0.
Abbreviation FINSH_NODE_ID := 1.
Abbreviation FINSH_NODE_VALUE_CHAR := 2.
Abbreviation FINSH_NODE_VALUE_INT := 3.
Abbreviation FINSH_NODE_VALUE_LONG := 4.
Abbreviation FINSH_NODE_VALUE_STRING := 5.
Abbreviation FINSH_NODE_VALUE_NULL := 6.
Abbreviation FINSH_NODE_SYS_ADD := 7.
Abbreviation FINSH_NODE_SYS_SUB := 8.
Abbreviation FINSH_NODE_SYS_MUL := 9.
Abbreviation FINSH_NODE_SYS_DIV := 10.
Abbreviation FINSH_NODE_SYS_MOD := 11.
Abbreviation FINSH_NODE_SYS_AND := 12.
Abbreviation FINSH_NODE_SYS_OR := 13.
Abbreviation FINSH_NODE_SYS_XOR := 14.
Abbreviation FINSH_NODE_SYS_BITWISE := 15.
Abbreviation FINSH_NODE_SYS_SHL := 16.
Abbreviation FINSH_NODE_SYS_SHR := 17.
Abbreviation FINSH_NODE_SYS_FUNC := 18.
Abbreviation FINSH_NODE_SYS_ASSIGN := 19.
Abbreviation FINSH_NODE_SYS_CAST := 20.
Abbreviation FINSH_NODE_SYS_PREINC := 21.
Abbreviation FINSH_NODE_SYS_PREDEC := 22.
Abbreviation FINSH_NODE_SYS_INC := 23.
Abbreviation FINSH_NODE_SYS_DEC := 24.
Abbreviation FINSH_NODE_SYS_GETVALUE := 25.
Abbreviation FINSH_NODE_SYS_GETADDR := 26.
Abbreviation FINSH_NODE_SYS_NULL := 27.

Abbreviation FINSH_DATA_TYPE_VOID := 0.
Abbreviation FINSH_DATA_TYPE_BYTE := 1.
Abbreviation FINSH_DATA_TYPE_WORD := 2.
Abbreviation FINSH_DATA_TYPE_DWORD := 3.

Abbreviation FINSH_NODE_VALUE := 0.
Abbreviation FINSH_IDTYPE_VAR := 1.
Abbreviation FINSH_IDTYPE_SYSVAR := 2.
Abbreviation FINSH_IDTYPE_SYSCALL := 4.
Abbreviation FINSH_IDTYPE_ADDRESS := 8.

Abbreviation finsh_type_unknown := 0.
Abbreviation finsh_type_void := 1.
Abbreviation finsh_type_voidp := 2.
Abbreviation finsh_type_char := 3.
Abbreviation finsh_type_uchar := 4.
Abbreviation finsh_type_charp := 5.
Abbreviation finsh_type_short := 6.
Abbreviation finsh_type_ushort := 7.
Abbreviation finsh_type_shortp := 8.
Abbreviation finsh_type_int := 9.
Abbreviation finsh_type_uint := 10.
Abbreviation finsh_type_intp := 11.
Abbreviation finsh_type_long := 12.
Abbreviation finsh_type_ulong := 13.
Abbreviation finsh_type_longp := 14.

(** ** Data *)

(** Pointers and the values of the unions are words of 32 bits; a name is a string without its NUL. *)
(** A pointer to an entry of [global_variable], of the table of system variables or of that of system calls. *)
Inductive id_ptr := IdVar (i : nat) | IdSysvar (p : Z) | IdSyscall (p : Z).

(** [value] is the whole union; [None] is [NULL]. *)
Record finsh_node := mkNode {
  nd_node_type : Z;
  nd_data_type : Z;
  nd_idtype : Z;
  nd_value : Z;
  nd_id : option id_ptr;
  nd_sibling : option nat;
  nd_child : option nat }.

(** [struct finsh_var] without its value, which is in the memory at the offset 20. *)
Record finsh_var := mkVar { var_name : list Z; var_type : Z }.
Record finsh_sysvar := mkSysvar { sv_name : list Z; sv_type : Z; sv_var : Z }.
Record finsh_syscall := mkSyscall { sc_name : list Z; sc_func : Z }.

Record finsh_token := mkToken {
  tk_eof : bool;
  tk_replay : bool;
  tk_position : Z;
  tk_current_token : Z;
  tk_value : Z;
  tk_string : list Z;
  tk_line : list Z }.

(** The file-scope variables of the shell. [data] is the memory that the programs of the shell work on, with the values of [global_variable] and
    the heap of strings; the tables of system variables and calls are with the addresses of their entries; [token] and [root] are the
    [struct finsh_parser]. *)
Record finsh := mkFinsh {
  data : bytes;
  text_segment : list Z;
  finsh_vm_stack : list Z;
  finsh_sp : Z;
  finsh_pc : Z;
  finsh_compile_pc : Z;
  global_node_table : list finsh_node;
  global_variable : list finsh_var;
  sysvar_table : list (Z * finsh_sysvar);
  global_sysvar_list : list (Z * finsh_sysvar);
  syscall_table : list (Z * finsh_syscall);
  global_syscall_list : list (Z * finsh_syscall);
  free_list : Z;
  allocate_list : Z;
  global_errno : Z;
  token : finsh_token;
  root : option nat }.

Abbreviation FM := (stM finsh).

Definition set_nd_node_type (v : Z) (n : finsh_node) : finsh_node :=
  mkNode v (nd_data_type n) (nd_idtype n) (nd_value n) (nd_id n) (nd_sibling n) (nd_child n).
Definition set_nd_data_type (v : Z) (n : finsh_node) : finsh_node :=
  mkNode (nd_node_type n) v (nd_idtype n) (nd_value n) (nd_id n) (nd_sibling n) (nd_child n).
Definition set_nd_idtype (v : Z) (n : finsh_node) : finsh_node :=
  mkNode (nd_node_type n) (nd_data_type n) v (nd_value n) (nd_id n) (nd_sibling n) (nd_child n).
Definition set_nd_value (v : Z) (n : finsh_node) : finsh_node :=
  mkNode (nd_node_type n) (nd_data_type n) (nd_idtype n) v (nd_id n) (nd_sibling n) (nd_child n).
Definition set_nd_id (v : option id_ptr) (n : finsh_node) : finsh_node :=
  mkNode (nd_node_type n) (nd_data_type n) (nd_idtype n) (nd_value n) v (nd_sibling n) (nd_child n).
Definition set_nd_sibling (v : option nat) (n : finsh_node) : finsh_node :=
  mkNode (nd_node_type n) (nd_data_type n) (nd_idtype n) (nd_value n) (nd_id n) v (nd_child n).
Definition set_nd_child (v : option nat) (n : finsh_node) : finsh_node :=
  mkNode (nd_node_type n) (nd_data_type n) (nd_idtype n) (nd_value n) (nd_id n) (nd_sibling n) v.

Definition set_tk_eof (v : bool) (t : finsh_token) : finsh_token :=
  mkToken v (tk_replay t) (tk_position t) (tk_current_token t) (tk_value t) (tk_string t) (tk_line t).
Definition set_tk_replay (v : bool) (t : finsh_token) : finsh_token :=
  mkToken (tk_eof t) v (tk_position t) (tk_current_token t) (tk_value t) (tk_string t) (tk_line t).
Definition set_tk_position (v : Z) (t : finsh_token) : finsh_token :=
  mkToken (tk_eof t) (tk_replay t) v (tk_current_token t) (tk_value t) (tk_string t) (tk_line t).
Definition set_tk_current_token (v : Z) (t : finsh_token) : finsh_token :=
  mkToken (tk_eof t) (tk_replay t) (tk_position t) v (tk_value t) (tk_string t) (tk_line t).
Definition set_tk_value (v : Z) (t : finsh_token) : finsh_token :=
  mkToken (tk_eof t) (tk_replay t) (tk_position t) (tk_current_token t) v (tk_string t) (tk_line t).
Definition set_tk_string (v : list Z) (t : finsh_token) : finsh_token :=
  mkToken (tk_eof t) (tk_replay t) (tk_position t) (tk_current_token t) (tk_value t) v (tk_line t).
Definition set_tk_line (v : list Z) (t : finsh_token) : finsh_token :=
  mkToken (tk_eof t) (tk_replay t) (tk_position t) (tk_current_token t) (tk_value t) (tk_string t) v.

Definition set_data (v : bytes) (s : finsh) : finsh :=
  mkFinsh v (text_segment s) (finsh_vm_stack s) (finsh_sp s) (finsh_pc s) (finsh_compile_pc s) (global_node_table s) (global_variable s) (sysvar_table s) (global_sysvar_list s) (syscall_table s) (global_syscall_list s) (free_list s) (allocate_list s) (global_errno s) (token s) (root s).
Definition set_text_segment (v : list Z) (s : finsh) : finsh :=
  mkFinsh (data s) v (finsh_vm_stack s) (finsh_sp s) (finsh_pc s) (finsh_compile_pc s) (global_node_table s) (global_variable s) (sysvar_table s) (global_sysvar_list s) (syscall_table s) (global_syscall_list s) (free_list s) (allocate_list s) (global_errno s) (token s) (root s).
Definition set_finsh_vm_stack (v : list Z) (s : finsh) : finsh :=
  mkFinsh (data s) (text_segment s) v (finsh_sp s) (finsh_pc s) (finsh_compile_pc s) (global_node_table s) (global_variable s) (sysvar_table s) (global_sysvar_list s) (syscall_table s) (global_syscall_list s) (free_list s) (allocate_list s) (global_errno s) (token s) (root s).
Definition set_finsh_sp (v : Z) (s : finsh) : finsh :=
  mkFinsh (data s) (text_segment s) (finsh_vm_stack s) v (finsh_pc s) (finsh_compile_pc s) (global_node_table s) (global_variable s) (sysvar_table s) (global_sysvar_list s) (syscall_table s) (global_syscall_list s) (free_list s) (allocate_list s) (global_errno s) (token s) (root s).
Definition set_finsh_pc (v : Z) (s : finsh) : finsh :=
  mkFinsh (data s) (text_segment s) (finsh_vm_stack s) (finsh_sp s) v (finsh_compile_pc s) (global_node_table s) (global_variable s) (sysvar_table s) (global_sysvar_list s) (syscall_table s) (global_syscall_list s) (free_list s) (allocate_list s) (global_errno s) (token s) (root s).
Definition set_finsh_compile_pc (v : Z) (s : finsh) : finsh :=
  mkFinsh (data s) (text_segment s) (finsh_vm_stack s) (finsh_sp s) (finsh_pc s) v (global_node_table s) (global_variable s) (sysvar_table s) (global_sysvar_list s) (syscall_table s) (global_syscall_list s) (free_list s) (allocate_list s) (global_errno s) (token s) (root s).
Definition set_global_node_table (v : list finsh_node) (s : finsh) : finsh :=
  mkFinsh (data s) (text_segment s) (finsh_vm_stack s) (finsh_sp s) (finsh_pc s) (finsh_compile_pc s) v (global_variable s) (sysvar_table s) (global_sysvar_list s) (syscall_table s) (global_syscall_list s) (free_list s) (allocate_list s) (global_errno s) (token s) (root s).
Definition set_global_variable (v : list finsh_var) (s : finsh) : finsh :=
  mkFinsh (data s) (text_segment s) (finsh_vm_stack s) (finsh_sp s) (finsh_pc s) (finsh_compile_pc s) (global_node_table s) v (sysvar_table s) (global_sysvar_list s) (syscall_table s) (global_syscall_list s) (free_list s) (allocate_list s) (global_errno s) (token s) (root s).
Definition set_global_sysvar_list (v : list (Z * finsh_sysvar)) (s : finsh) : finsh :=
  mkFinsh (data s) (text_segment s) (finsh_vm_stack s) (finsh_sp s) (finsh_pc s) (finsh_compile_pc s) (global_node_table s) (global_variable s) (sysvar_table s) v (syscall_table s) (global_syscall_list s) (free_list s) (allocate_list s) (global_errno s) (token s) (root s).
Definition set_global_syscall_list (v : list (Z * finsh_syscall)) (s : finsh) : finsh :=
  mkFinsh (data s) (text_segment s) (finsh_vm_stack s) (finsh_sp s) (finsh_pc s) (finsh_compile_pc s) (global_node_table s) (global_variable s) (sysvar_table s) (global_sysvar_list s) (syscall_table s) v (free_list s) (allocate_list s) (global_errno s) (token s) (root s).
Definition set_free_list (v : Z) (s : finsh) : finsh :=
  mkFinsh (data s) (text_segment s) (finsh_vm_stack s) (finsh_sp s) (finsh_pc s) (finsh_compile_pc s) (global_node_table s) (global_variable s) (sysvar_table s) (global_sysvar_list s) (syscall_table s) (global_syscall_list s) v (allocate_list s) (global_errno s) (token s) (root s).
Definition set_allocate_list (v : Z) (s : finsh) : finsh :=
  mkFinsh (data s) (text_segment s) (finsh_vm_stack s) (finsh_sp s) (finsh_pc s) (finsh_compile_pc s) (global_node_table s) (global_variable s) (sysvar_table s) (global_sysvar_list s) (syscall_table s) (global_syscall_list s) (free_list s) v (global_errno s) (token s) (root s).
Definition set_global_errno (v : Z) (s : finsh) : finsh :=
  mkFinsh (data s) (text_segment s) (finsh_vm_stack s) (finsh_sp s) (finsh_pc s) (finsh_compile_pc s) (global_node_table s) (global_variable s) (sysvar_table s) (global_sysvar_list s) (syscall_table s) (global_syscall_list s) (free_list s) (allocate_list s) v (token s) (root s).
Definition set_token (v : finsh_token) (s : finsh) : finsh :=
  mkFinsh (data s) (text_segment s) (finsh_vm_stack s) (finsh_sp s) (finsh_pc s) (finsh_compile_pc s) (global_node_table s) (global_variable s) (sysvar_table s) (global_sysvar_list s) (syscall_table s) (global_syscall_list s) (free_list s) (allocate_list s) (global_errno s) v (root s).
Definition set_root (v : option nat) (s : finsh) : finsh :=
  mkFinsh (data s) (text_segment s) (finsh_vm_stack s) (finsh_sp s) (finsh_pc s) (finsh_compile_pc s) (global_node_table s) (global_variable s) (sysvar_table s) (global_sysvar_list s) (syscall_table s) (global_syscall_list s) (free_list s) (allocate_list s) (global_errno s) (token s) v.

(** Where the linker puts [global_variable] and [finsh_heap]. *)
Class FinshLayout := { global_variable_addr : Z; finsh_heap_addr : Z }.

Section layout.
Context `{FinshLayout}.

(** The pointer as a number; [struct finsh_var] has 24 bytes. *)
Definition id_addr (p : id_ptr) : Z :=
  match p with IdVar i => global_variable_addr + 24 * Z.of_nat i | IdSysvar p | IdSyscall p => p end.

(** [&(var->value)] with the pointer taken for one to a [struct finsh_var]. *)
Definition var_value_addr (p : option id_ptr) : Z := match p with Some p => id_addr p + 20 | None => 20 end.
End layout.

(** The first entry of a table with a pointer. *)
Definition assoc {A} (p : Z) (l : list (Z * A)) : option A := snd <$> head (filter (fun e => e.1 = p) l).
Definition sysvar_at (p : Z) (s : finsh) : option finsh_sysvar := assoc p (sysvar_table s ++ global_sysvar_list s).
Definition syscall_at (p : Z) (s : finsh) : option finsh_syscall := assoc p (syscall_table s ++ global_syscall_list s).

(** An operation of the memory. *)
Definition dlift {A} (m : BM A) : FM A := fun s =>
  match m (data s) with Some (a, d) => Some (a, set_data d s) | None => None end.

(** ** finsh_error.c *)

Definition finsh_error_init : FM unit := modify (set_global_errno FINSH_ERROR_OK).
Definition finsh_error_set (type : Z) : FM unit := modify (set_global_errno type).
Definition finsh_errno : FM Z := gets global_errno.
