(* ===== verification/FinshVm.v ===== *)
(** The virtual machine of the finsh shell: its operations (components/finsh/finsh_ops.c) and its loop (finsh_vm.c). *)

From S2P Require Import Prelude ByteMem FinshDef.

(** ** Widths *)

(** [char] has no sign on this target, [short] and [long] have one. *)
Inductive width := BYTE | WORD | DWORD.

#[export] Instance width_eq_dec : EqDecision width.
Proof. solve_decision. Defined.

Definition bits (w : width) : Z := match w with BYTE => 8 | WORD => 16 | DWORD => 32 end.
(** A read of [char_value], [short_value] or [long_value] of a union. *)
Definition rd (w : width) (x : Z) : Z := match w with BYTE => u8 x | WORD => s16 x | DWORD => s32 x end.
(** A write to it: the other bytes stay. *)
Definition wr (w : width) (v x : Z) : Z := x - uwrap (bits w) x + uwrap (bits w) v.

(** The values of a width in memory. *)
Definition load16 (p : Z) : BM Z := b0 ← load p; b1 ← load (p + 1); mret (b0 + b1 * 2 ^ 8).
Definition store16 (p v : Z) : BM unit := store p v;; store (p + 1) (v / 2 ^ 8).
Definition load_w (w : width) (p : Z) : BM Z := match w with BYTE => load p | WORD => load16 p | DWORD => load32 p end.
Definition store_w (w : width) (p v : Z) : BM unit := match w with BYTE => store p v | WORD => store16 p v | DWORD => store32 p v end.

(** ** Instructions *)

Abbreviation FINSH_OP_NOOP := 0.
Definition FINSH_OP_ADD (w : width) := match w with BYTE => 1 | WORD => 2 | DWORD => 3 end.
Definition FINSH_OP_SUB (w : width) := match w with BYTE => 4 | WORD => 5 | DWORD => 6 end.
Definition FINSH_OP_DIV (w : width) := match w with BYTE => 7 | WORD => 8 | DWORD => 9 end.
Definition FINSH_OP_MOD (w : width) := match w with BYTE => 10 | WORD => 11 | DWORD => 12 end.
Definition FINSH_OP_MUL (w : width) := match w with BYTE => 13 | WORD => 14 | DWORD => 15 end.
Definition FINSH_OP_AND (w : width) := match w with BYTE => 16 | WORD => 17 | DWORD => 18 end.
Definition FINSH_OP_OR (w : width) := match w with BYTE => 19 | WORD => 20 | DWORD => 21 end.
Definition FINSH_OP_XOR (w : width) := match w with BYTE => 22 | WORD => 23 | DWORD => 24 end.
Definition FINSH_OP_BITWISE (w : width) := match w with BYTE => 25 | WORD => 26 | DWORD => 27 end.
Definition FINSH_OP_SHL (w : width) := match w with BYTE => 28 | WORD => 29 | DWORD => 30 end.
Definition FINSH_OP_SHR (w : width) := match w with BYTE => 31 | WORD => 32 | DWORD => 33 end.
Definition FINSH_OP_LD (w : width) := match w with BYTE => 34 | WORD => 35 | DWORD => 36 end.
Definition FINSH_OP_LD_VALUE (w : width) := match w with BYTE => 37 | WORD => 38 | DWORD => 39 end.
Definition FINSH_OP_ST (w : width) := match w with BYTE => 40 | WORD => 41 | DWORD => 42 end.
Abbreviation FINSH_OP_POP := 43.
Abbreviation FINSH_OP_SYSCALL := 44.
Definition FINSH_OP_LD_VALUE_STACK (w : width) := match w with BYTE => 45 | WORD => 46 | DWORD => 47 end.

(** The functions behind the addresses that [OP_call] calls: their result and what they do to the memory. *)
Class Syscalls := syscall : Z -> list Z -> BM Z.

(** The union that lies [d] behind the stack pointer, and its replacement; outside of the stack there is none. *)
Definition sp_get (d : Z) : FM Z :=
  getso (fun s => if (0 <=? finsh_sp s + d) then finsh_vm_stack s !! Z.to_nat (finsh_sp s + d) else None).
Definition sp_put (d v : Z) : FM unit :=
  sp_get d;; modify (fun s => set_finsh_vm_stack (<[Z.to_nat (finsh_sp s + d) := v]> (finsh_vm_stack s)) s).
Definition sp_write (w : width) (d v : Z) : FM unit := x ← sp_get d; sp_put d (wr w v x).
Definition sp_move (d : Z) : FM unit := modify (fun s => set_finsh_sp (finsh_sp s + d) s).
Definition pc_move (d : Z) : FM unit := modify (fun s => set_finsh_pc (finsh_pc s + d) s).
(** [finsh_pc[d]] *)
Definition pc_get (d : Z) : FM Z := getso (fun s => if 0 <=? finsh_pc s + d then text_segment s !! Z.to_nat (finsh_pc s + d) else None).
Definition FINSH_GET16 : FM Z := b0 ← pc_get 0; b1 ← pc_get 1; mret (b0 .| Z.shiftl b1 8).
Definition FINSH_GET32 : FM Z :=
  b0 ← pc_get 0; b1 ← pc_get 1; b2 ← pc_get 2; b3 ← pc_get 3;
  mret (b0 .| Z.shiftl b1 8 .| Z.shiftl b2 16 .| Z.shiftl b3 24).

(** ** The operators of C on [int], without the conversion to the type of the result; [None] is undefined. *)

Definition c_div (a b : Z) : option Z := if (b =? 0) || (a =? - 2 ^ 31) && (b =? -1) then None else Some (Z.quot a b).
Definition c_mod (a b : Z) : option Z := if (b =? 0) || (a =? - 2 ^ 31) && (b =? -1) then None else Some (Z.rem a b).
Definition c_shl (a b : Z) : option Z := if (0 <=? b) && (b <? 32) then Some (Z.shiftl a b) else None.
Definition c_shr (a b : Z) : option Z := if (0 <=? b) && (b <? 32) then Some (Z.shiftr a b) else None.

Definition OP_BIN (w : width) (x : Z -> Z -> option Z) : FM unit :=
  a ← sp_get (-2); b ← sp_get (-1);
  v ← getso (fun _ => x (rd w a) (rd w b));
  sp_write w (-2) v;;
  sp_move (-1).

Definition OP_no_op : FM unit := mret tt.
Definition OP_add w := OP_BIN w (fun a b => Some (a + b)).
Definition OP_sub w := OP_BIN w (fun a b => Some (a - b)).
Definition OP_div w := OP_BIN w c_div.
Definition OP_mod w := OP_BIN w c_mod.
Definition OP_mul w := OP_BIN w (fun a b => Some (a * b)).
Definition OP_and w := OP_BIN w (fun a b => Some (a .& b)).
Definition OP_or w := OP_BIN w (fun a b => Some (a .| b)).
Definition OP_xor w := OP_BIN w (fun a b => Some (Z.lxor a b)).
Definition OP_shl w := OP_BIN w c_shl.
Definition OP_shr w := OP_BIN w c_shr.
Definition OP_bw (w : width) : FM unit := x ← sp_get (-1); sp_write w (-1) (Z.lnot (rd w x)).

Definition OP_ld (w : width) : FM unit :=
  v ← (match w with BYTE => pc_get 0 | WORD => FINSH_GET16 | DWORD => FINSH_GET32 end);
  sp_write w 0 v;;
  sp_move 1;;
  pc_move (bits w / 8).

Definition OP_ld_value (w : width) : FM unit :=
  p ← FINSH_GET32;
  v ← dlift (load_w w p);
  sp_write w 0 v;;
  sp_move 1;;
  pc_move 4.

Definition OP_ld_value_stack (w : width) : FM unit :=
  p ← sp_get (-1);
  v ← dlift (load_w w (u32 p));
  sp_write w (-1) v.

Definition OP_st (w : width) : FM unit :=
  p ← sp_get (-2); v ← sp_get (-1);
  dlift (store_w w (u32 p) v);;
  sp_move (-1).

Definition OP_pop : FM unit := sp_move (-1).

Section vm.
Context `{Syscalls}.

(** [while (i < parameters)], from the last parameter on. *)
Fixpoint call_params (parameters : nat) (parameterv : list Z) : FM (list Z) :=
  match parameters with
  | O => mret parameterv
  | S n => v ← sp_get 0; sp_move (-1);; call_params n (u32 v :: parameterv)
  end.

(** [parameterv] has room for 16 parameters; a function without parameters is called with 0. *)
Definition OP_call : FM unit :=
  parameters ← pc_get 0;
  pc_move 1;;
  sp_move (-1);;
  when (16 <? parameters) rt_panic;;
  parameterv ← call_params (Z.to_nat parameters) [];
  f ← sp_get 0;
  r ← dlift (syscall (u32 f) (if parameters =? 0 then [0] else parameterv));
  sp_put 0 (u32 r);;
  sp_move 1.

Definition op_table : list (FM unit) :=
  [OP_no_op;
   OP_add BYTE; OP_add WORD; OP_add DWORD; OP_sub BYTE; OP_sub WORD; OP_sub DWORD;
   OP_div BYTE; OP_div WORD; OP_div DWORD; OP_mod BYTE; OP_mod WORD; OP_mod DWORD;
   OP_mul BYTE; OP_mul WORD; OP_mul DWORD; OP_and BYTE; OP_and WORD; OP_and DWORD;
   OP_or BYTE; OP_or WORD; OP_or DWORD; OP_xor BYTE; OP_xor WORD; OP_xor DWORD;
   OP_bw BYTE; OP_bw WORD; OP_bw DWORD; OP_shl BYTE; OP_shl WORD; OP_shl DWORD;
   OP_shr BYTE; OP_shr WORD; OP_shr DWORD; OP_ld BYTE; OP_ld WORD; OP_ld DWORD;
   OP_ld_value BYTE; OP_ld_value WORD; OP_ld_value DWORD; OP_st BYTE; OP_st WORD; OP_st DWORD;
   OP_pop; OP_call; OP_ld_value_stack BYTE; OP_ld_value_stack WORD; OP_ld_value_stack DWORD].

Definition vm_step : FM unit :=
  op ← pc_get 0;
  pc_move 1;;
  f ← getso (fun _ => op_table !! Z.to_nat op);
  f.

Fixpoint vm_loop (fuel : nat) : FM unit :=
  match fuel with
  | O => rt_panic
  | S fuel =>
      pc ← gets finsh_pc;
      if (0 <=? pc) && (pc <? FINSH_TEXT_MAX) then vm_step;; vm_loop fuel else mret tt
  end.

Definition finsh_vm_run : FM unit :=
  modify (fun s => set_finsh_pc 0 (set_finsh_sp 0 s));;
  vm_loop (S (Z.to_nat FINSH_TEXT_MAX)).
End vm.

(** The value that the shell prints. *)
Definition finsh_stack_bottom : FM Z := x ← getso (fun s => finsh_vm_stack s !! 0%nat); mret (s32 x).

(** ** Reads and writes of a width *)

Lemma bits_pos w : 0 < bits w.
Proof. by destruct w. Qed.

Lemma uwrap_uwrap k x : 0 <= k -> uwrap k (uwrap k x) = uwrap k x.
Proof. intros. apply uwrap_small, uwrap_bound. lia. Qed.

Lemma uwrap_le j k x : 0 <= j <= k -> uwrap j (uwrap k x) = uwrap j x.
Proof.
  intros Hjk. unfold uwrap. rewrite <- Znumtheory.Zmod_div_mod; [done| | |]; [apply Z.pow_pos_nonneg; lia..|].
  exists (2 ^ (k - j)). rewrite <- Z.pow_add_r by lia. f_equal. lia.
Qed.

Lemma swrap_uwrap k x : 1 <= k -> swrap k (uwrap k x) = swrap k x.
Proof. intros. unfold swrap, uwrap. by rewrite Zplus_mod_idemp_l. Qed.

Lemma uwrap_swrap k x : 1 <= k -> uwrap k (swrap k x) = uwrap k x.
Proof.
  intros. unfold swrap, uwrap. rewrite Zminus_mod_idemp_l. f_equal. lia.
Qed.

(** What is read depends on the low bits alone. *)
Lemma rd_uwrap w x : rd w (uwrap (bits w) x) = rd w x.
Proof. destruct w; simpl; [by apply uwrap_uwrap|by apply swrap_uwrap..]. Qed.
Lemma uwrap_rd w x : uwrap (bits w) (rd w x) = uwrap (bits w) x.
Proof. destruct w; simpl; [by apply uwrap_uwrap|by apply uwrap_swrap..]. Qed.

Lemma rd_ext w x y : uwrap (bits w) x = uwrap (bits w) y -> rd w x = rd w y.
Proof. intros E. by rewrite <- (rd_uwrap w x), E, rd_uwrap. Qed.

Lemma uwrap_wr w v x : uwrap (bits w) (wr w v x) = uwrap (bits w) v.
Proof.
  unfold wr, uwrap. rewrite Zplus_mod_idemp_r. rewrite Z.add_mod, Zminus_mod_idemp_r, Z.sub_diag by (apply Z.pow_nonzero; by destruct w).
  by rewrite Zmod_0_l, Z.add_0_l, Zmod_mod.
Qed.
Lemma rd_wr w v x : rd w (wr w v x) = rd w v.
Proof. apply rd_ext, uwrap_wr. Qed.

(** Narrower reads of a value that has been read. *)
Lemma rd_narrow d w x : bits d <= bits w -> rd d (rd w x) = rd d x.
Proof.
  intros Hle. apply rd_ext. pose proof (bits_pos d).
  by rewrite <- (uwrap_le (bits d) (bits w) (rd w x)), uwrap_rd, uwrap_le by lia.
Qed.
Lemma rd_rd w x : rd w (rd w x) = rd w x.
Proof. by apply rd_narrow. Qed.
Lemma u32_rd x : u32 (rd DWORD x) = u32 x.
Proof. exact (uwrap_rd DWORD x). Qed.

(** ** The run of the machine *)

(** [l] lies in the text at [pc]. *)
Definition code_at (text : list Z) (pc : Z) (l : list Z) : Prop := exists l1 l3, text = l1 ++ l ++ l3 /\ pc = Z.of_nat (length l1).

Lemma code_at_app_l text pc l1 l2 : code_at text pc (l1 ++ l2) -> code_at text pc l1.
Proof. intros (a & b & -> & ->). exists a, (l2 ++ b). by rewrite <- app_assoc. Qed.
Lemma code_at_app_r text pc l1 l2 : code_at text pc (l1 ++ l2) -> code_at text (pc + Z.of_nat (length l1)) l2.
Proof.
  intros (a & b & -> & ->). exists (a ++ l1), b. rewrite <- !app_assoc, length_app. split; [done|lia].
Qed.
Lemma code_at_tail text pc b l : code_at text pc (b :: l) -> code_at text (pc + 1) l.
Proof. apply (code_at_app_r _ _ [b]). Qed.
Lemma code_at_lookup text pc l i b :
  code_at text pc l -> l !! i = Some b -> 0 <= pc + Z.of_nat i /\ text !! Z.to_nat (pc + Z.of_nat i) = Some b.
Proof.
  intros (a & c & -> & ->) Hi. split; [lia|]. replace (Z.to_nat (Z.of_nat (length a) + Z.of_nat i)) with (length a + i)%nat by lia.
  rewrite lookup_app_r by lia. replace (length a + i - length a)%nat with i by lia.
  rewrite lookup_app_l; [done|]. by eapply lookup_lt_Some.
Qed.

Create HintDb code.
#[export] Hint Resolve code_at_app_l code_at_app_r code_at_tail : code.

Section run.
Context `{Syscalls}.

(** The operations never lead back. *)
Definition forward {A} (m : FM A) : Prop := forall s a s', m s = Some (a, s') -> finsh_pc s <= finsh_pc s' /\ text_segment s' = text_segment s.

Lemma forward_ret {A} (a : A) : forward (mret a).
Proof. intros s b s' [= _ <-]. split; [lia|done]. Qed.
Lemma forward_bind {A B} (m : FM A) (f : A -> FM B) : forward m -> (forall a, forward (f a)) -> forward (m ≫= f).
Proof.
  intros Hm Hf s b s'. unfold mbind, stM_bind. destruct (m s) as [[a s1]|] eqn:E; [|done].
  intros E2. apply Hm in E as [? ?]. apply Hf in E2 as [? E3]. split; [lia|congruence].
Qed.
Lemma forward_getso {A} (f : finsh -> option A) : forward (getso f).
Proof. intros s a s'. unfold getso. destruct (f s); [|done]. intros [= _ <-]. split; [lia|done]. Qed.
Lemma forward_panic {A} : forward (A := A) rt_panic.
Proof. done. Qed.
Lemma forward_when b m : forward m -> forward (when b m).
Proof. intros. destruct b; [done|apply forward_ret]. Qed.
Lemma forward_dlift {A} (m : BM A) : forward (dlift m).
Proof. intros s a s'. unfold dlift. destruct (m (data s)) as [[??]|]; [|done]. intros [= _ <-]. split; [simpl; lia|done]. Qed.
Lemma forward_sp_move d : forward (sp_move d).
Proof. intros s a s' [= _ <-]. split; [simpl; lia|done]. Qed.
Lemma forward_pc_move d : 0 <= d -> forward (pc_move d).
Proof. intros ? s a s' [= _ <-]. split; [simpl; lia|done]. Qed.
Lemma forward_sp_put d v : forward (sp_put d v).
Proof. apply forward_bind; [apply forward_getso|]. intros _ s a s' [= _ <-]. split; [simpl; lia|done]. Qed.
Lemma forward_sp_write w d v : forward (sp_write w d v).
Proof. apply forward_bind; [apply forward_getso|]. intros. apply forward_sp_put. Qed.

Lemma forward_call_params n l : forward (call_params n l).
Proof.
  revert l. induction n as [|n IH]; intros l; simpl; [apply forward_ret|].
  apply forward_bind; [apply forward_getso|]. intros. apply forward_bind; [apply forward_sp_move|]. auto.
Qed.

Ltac solve_forward :=
  repeat first [apply forward_sp_write | apply forward_sp_put | apply forward_sp_move | apply forward_pc_move; by vm_compute | apply forward_call_params
    | apply forward_when | apply forward_ret | apply forward_getso | apply forward_panic | apply forward_dlift | apply forward_bind; [|intros]].

Lemma forward_op f : f ∈ op_table -> forward f.
Proof.
  assert (Forall forward op_table) as Hall; [|intros; by eapply Forall_forall].
  unfold op_table. repeat (apply Forall_cons; split); [..|apply Forall_nil; done].
  all: unfold OP_no_op, OP_add, OP_sub, OP_div, OP_mod, OP_mul, OP_and, OP_or, OP_xor, OP_shl, OP_shr, OP_BIN, OP_bw, OP_ld, OP_ld_value,
    OP_ld_value_stack, OP_st, OP_pop, OP_call, FINSH_GET16, FINSH_GET32, bits; solve_forward.
Qed.

(** A step goes forward by a byte at least, so the machine stops after 128 steps. *)
Lemma vm_step_forward s a s' : vm_step s = Some (a, s') -> finsh_pc s < finsh_pc s' /\ text_segment s' = text_segment s.
Proof.
  unfold vm_step, mbind, stM_bind. destruct (pc_get 0 s) as [[op s1]|] eqn:E; [|done]. unfold pc_get, getso in E.
  assert (s1 = s) as -> by (by destruct (if 0 <=? _ then _ else None); [injection E as _ <-|]). clear E. simpl. unfold getso.
  destruct (op_table !! Z.to_nat op) as [f|] eqn:Ef; [|done]. intros E.
  apply (forward_op f) in E as [? ?]; [|by eapply list_elem_of_lookup_2]. simpl in *. split; [lia|done].
Qed.
End run.

Section run2.
Context `{Syscalls}.

(** More fuel does not change the run. *)
Lemma vm_loop_fuel n m s :
  (Z.to_nat (129 - finsh_pc s) <= n)%nat -> (Z.to_nat (129 - finsh_pc s) <= m)%nat -> (0 < n)%nat -> (0 < m)%nat -> vm_loop n s = vm_loop m s.
Proof.
  revert m s. induction n as [|n IH]; intros [|m] s Hn Hm H0 H1; try lia. simpl. unfold gets, mbind, stM_bind at 1 3.
  destruct ((0 <=? finsh_pc s) && (finsh_pc s <? 128)) eqn:E; [|done]. unfold stM_bind.
  destruct (vm_step s) as [[a s']|] eqn:Es; [|done]. apply vm_step_forward in Es as [? _].
  apply andb_true_iff in E as [E1%Z.leb_le E2%Z.ltb_lt]. apply IH; lia.
Qed.

(** The machine runs on from [s] until it stops with [Q]. *)
Definition run (Q : finsh -> Prop) (s : finsh) : Prop := wp (vm_loop (S (Z.to_nat (129 - finsh_pc s)))) (fun _ s' => Q s') s.

Lemma run_step Q s : 0 <= finsh_pc s < 128 -> run Q s <-> wp vm_step (fun _ s' => run Q s') s.
Proof.
  intros Hpc. unfold run at 1. cbn [vm_loop]. rewrite wp_bind, wp_gets.
  replace ((0 <=? finsh_pc s) && (finsh_pc s <? 128)) with true by (symmetry; apply andb_true_iff; rewrite Z.leb_le, Z.ltb_lt; lia).
  rewrite wp_bind. unfold wp at 1 3. destruct (vm_step s) as [[a s']|] eqn:E; [|done]. apply vm_step_forward in E as [? _].
  unfold run, wp. erewrite vm_loop_fuel; [done|lia..].
Qed.

Lemma run_end Q s : 128 <= finsh_pc s -> run Q s <-> Q s.
Proof.
  intros Hpc. unfold run. cbn [vm_loop]. rewrite wp_bind, wp_gets.
  by replace ((0 <=? finsh_pc s) && (finsh_pc s <? 128)) with false by (symmetry; apply andb_false_iff; rewrite Z.ltb_ge; lia).
Qed.

Lemma wp_finsh_vm_run Q s : wp finsh_vm_run (fun _ s' => Q s') s <-> run Q (set_finsh_pc 0 (set_finsh_sp 0 s)).
Proof.
  unfold finsh_vm_run. rewrite wp_bind, wp_modify. unfold run, wp. erewrite vm_loop_fuel; [done|simpl; lia..].
Qed.

(** [n] instructions one after the other. *)
Fixpoint vm_steps (n : nat) (s s' : finsh) : Prop :=
  match n with O => s' = s | S n => exists s1, 0 <= finsh_pc s < 128 /\ vm_step s = Some (tt, s1) /\ vm_steps n s1 s' end.

Lemma vm_loop_steps k s :
  0 <= finsh_pc s -> (Z.to_nat (128 - finsh_pc s) <= k)%nat ->
  exists n s', (n <= k)%nat /\ vm_steps n s s' /\
    ((128 <= finsh_pc s' /\ vm_loop (S k) s = Some (tt, s')) \/ (0 <= finsh_pc s' < 128 /\ vm_step s' = None /\ vm_loop (S k) s = None)).
Proof.
  revert s. induction k as [|k IH]; intros s H0 Hk; remember (S _) as fuel eqn:Ef; cbn [vm_loop]; subst fuel; cbn [vm_loop];
    unfold gets, mbind, stM_bind; destruct ((0 <=? finsh_pc s) && (finsh_pc s <? 128)) eqn:E.
  1: apply andb_true_iff in E as [_ E%Z.ltb_lt]; lia.
  1, 3: exists 0%nat, s; apply andb_false_iff in E as [E%Z.leb_gt|E%Z.ltb_ge]; [lia|]; split_and!; [lia|done|by left].
  apply andb_true_iff in E as [_ E%Z.ltb_lt]. destruct (vm_step s) as [[[] s1]|] eqn:Es.
  - pose proof (vm_step_forward _ _ _ Es) as [Hf _]. destruct (IH s1) as (n & s' & Hn & Hs & Hr); [lia..|].
    exists (S n), s'. split_and!; [lia| |exact Hr]. exists s1. by split_and!.
  - exists 0%nat, s. split_and!; [lia|done|]. right. by split_and!.
Qed.

Lemma vm_steps_forward n s s' :
  0 <= finsh_pc s -> vm_steps n s s' -> finsh_pc s + Z.of_nat n <= finsh_pc s' /\ text_segment s' = text_segment s /\ (n ≠ 0%nat -> finsh_pc s + Z.of_nat n <= 128).
Proof.
  revert s. induction n as [|n IH]; intros s H0 Hs; cbn [vm_steps] in Hs; [subst; split_and!; [lia|reflexivity|lia]|].
  destruct Hs as (s1 & Hpc & E & Hs). apply vm_step_forward in E as [Hf Et]. destruct (IH s1 ltac:(lia) Hs) as (H1 & H2 & H3).
  split_and!; [lia|congruence|]. intros _. destruct n as [|n]; [lia|]. specialize (H3 ltac:(done)). lia.
Qed.

(** A run that comes to its end has made defined accesses only. *)
Lemma vm_loop_defined k s s' n s1 :
  vm_loop k s = Some (tt, s') -> 0 <= finsh_pc s -> vm_steps n s s1 -> finsh_pc s1 < 128 -> is_Some (vm_step s1).
Proof.
  revert s n. induction k as [|k IH]; intros s n E H0 Hs Hpc; [done|]. cbn [vm_loop] in E. unfold gets, mbind, stM_bind in E.
  destruct n as [|n]; cbn [vm_steps] in Hs.
  - subst. rewrite (proj2 (Z.leb_le _ _) H0), (proj2 (Z.ltb_lt _ _) Hpc) in E. simpl in E. destruct (vm_step s) as [[??]|]; [by eexists|done].
  - destruct Hs as (s2 & [Ha Hb] & Es & Hs). rewrite (proj2 (Z.leb_le _ _) Ha), (proj2 (Z.ltb_lt _ _) Hb) in E. simpl in E. rewrite Es in E.
    apply vm_step_forward in Es as [? _]. eapply IH; [exact E|lia|exact Hs|done].
Qed.

(** C37: [finsh_vm_run] stops by itself: whatever the text and the state, it executes at most 128 instructions, each a byte further on
    in the text at least, and none changes the text; and if every instruction it comes to is a defined one (an opcode of the table, operands on the stack, mapped
    addresses, a called function that returns), it leaves the text and returns. The memory that the instructions store
    to is apart from the machine's own variables. *)
Theorem finsh_vm_run_terminates s :
  let s0 := set_finsh_pc 0 (set_finsh_sp 0 s) in
  (forall n s', vm_steps n s0 s' -> (n <= 128)%nat /\ Z.of_nat n <= finsh_pc s' /\ text_segment s' = text_segment s) /\
  ((forall n s', vm_steps n s0 s' -> finsh_pc s' < 128 -> is_Some (vm_step s')) ->
   exists n s', vm_steps n s0 s' /\ 128 <= finsh_pc s' /\ finsh_vm_run s = Some (tt, s')).
Proof.
  cbv zeta. split.
  - intros n s' Hs. destruct (vm_steps_forward n (set_finsh_pc 0 (set_finsh_sp 0 s)) s' (Z.le_refl 0) Hs) as (H1 & H2 & H3). simpl in H1, H2, H3.
    split_and!; [|lia|done]. destruct n; [lia|]. specialize (H3 ltac:(done)). lia.
  - intros Hd. destruct (vm_loop_steps 128 (set_finsh_pc 0 (set_finsh_sp 0 s))) as (n & s' & _ & Hs & [[Hpc E]|(Hpc & E & _)]); [simpl; lia..|by exists n, s'|].
    destruct (Hd n s' Hs ltac:(lia)) as [? E']. congruence.
Qed.

(** ** States of the machine *)

(** The values [σ] below the stack pointer, and [ρ] behind it. *)
Definition vm_state (s : finsh) (pc : Z) (c : list Z * list Z * bytes) : finsh :=
  set_data c.2 (set_finsh_vm_stack (c.1.1 ++ c.1.2) (set_finsh_sp (Z.of_nat (length c.1.1)) (set_finsh_pc pc s))).

(** The code [l] leads from the stack and memory [c] to [c']. *)
Definition exec (s : finsh) (l : list Z) (c c' : list Z * list Z * bytes) : Prop :=
  forall pc Q, code_at (text_segment s) pc l -> run Q (vm_state s (pc + Z.of_nat (length l)) c') -> run Q (vm_state s pc c).

Lemma exec_nil s c : exec s [] c c.
Proof. intros pc Q _. by rewrite Z.add_0_r. Qed.

Lemma exec_app s l1 l2 c1 c2 c3 : exec s l1 c1 c2 -> exec s l2 c2 c3 -> exec s (l1 ++ l2) c1 c3.
Proof.
  intros H1 H2 pc Q Hc HQ. apply (H1 pc Q); [eauto with code|]. apply (H2 _ Q); [eauto with code|].
  by rewrite <- Z.add_assoc, <- Nat2Z.inj_add, <- length_app.
Qed.

(** One instruction with its operand. *)
Lemma exec_op s op l f c c' :
  length (text_segment s) = 128%nat -> op_table !! Z.to_nat op = Some f ->
  (forall pc Q, code_at (text_segment s) pc (op :: l) -> Q (vm_state s (pc + 1 + Z.of_nat (length l)) c') ->
     wp f (fun _ s' => Q s') (vm_state s (pc + 1) c)) ->
  exec s (op :: l) c c'.
Proof.
  intros Hlen Hop Hf pc Q Hc HQ. destruct (code_at_lookup _ _ _ 0 op Hc eq_refl) as [H0 Hl]. rewrite Z.add_0_r in *.
  pose proof (lookup_lt_Some _ _ _ Hl). apply run_step; [simpl; lia|]. unfold vm_step, pc_get. rewrite wp_bind, wp_getso. exists op. simpl. split.
  { rewrite Z.add_0_r. destruct (Z.leb_spec 0 pc); [done|lia]. }
  rewrite wp_bind. unfold pc_move. rewrite wp_modify, wp_bind, wp_getso. exists f. split; [done|].
  apply (Hf pc); [done|]. by replace (pc + 1 + Z.of_nat (length l)) with (pc + Z.of_nat (length (op :: l))) by (simpl length; lia).
Qed.
End run2.

(** ** The operations on these states *)

Section operations.
Context (s : finsh).
Implicit Types (σ ρ : list Z) (d : bytes).

Lemma wp_sp_get k σ1 x ρ1 pc σ ρ d Q :
  σ ++ ρ = σ1 ++ x :: ρ1 -> Z.of_nat (length σ1) = Z.of_nat (length σ) + k -> Q x (vm_state s pc (σ, ρ, d)) -> wp (sp_get k) Q (vm_state s pc (σ, ρ, d)).
Proof.
  intros E El HQ. unfold sp_get. rewrite wp_getso. exists x. split; [|done]. simpl. rewrite <- El.
  destruct (Z.leb_spec 0 (Z.of_nat (length σ1))); [|lia]. by rewrite E, Nat2Z.id, list_lookup_middle.
Qed.

Lemma wp_sp_put k v σ1 x ρ1 pc σ ρ d (Q : unit -> finsh -> Prop) :
  σ ++ ρ = σ1 ++ x :: ρ1 -> Z.of_nat (length σ1) = Z.of_nat (length σ) + k ->
  (forall s', s' = set_data d (set_finsh_vm_stack (σ1 ++ v :: ρ1) (set_finsh_sp (Z.of_nat (length σ)) (set_finsh_pc pc s))) -> Q tt s') ->
  wp (sp_put k v) Q (vm_state s pc (σ, ρ, d)).
Proof.
  intros E El HQ. unfold sp_put. rewrite wp_bind. eapply wp_sp_get; [done..|]. rewrite wp_modify. simpl. apply HQ.
  unfold vm_state. cbn. rewrite <- El, Nat2Z.id, E, insert_app_r_alt, Nat.sub_diag by done. done.
Qed.

Lemma wp_sp_write w k v σ1 x ρ1 pc σ ρ d (Q : unit -> finsh -> Prop) :
  σ ++ ρ = σ1 ++ x :: ρ1 -> Z.of_nat (length σ1) = Z.of_nat (length σ) + k ->
  (forall s', s' = set_data d (set_finsh_vm_stack (σ1 ++ wr w v x :: ρ1) (set_finsh_sp (Z.of_nat (length σ)) (set_finsh_pc pc s))) -> Q tt s') ->
  wp (sp_write w k v) Q (vm_state s pc (σ, ρ, d)).
Proof. intros E El HQ. unfold sp_write. rewrite wp_bind. eapply wp_sp_get; [done..|]. by eapply wp_sp_put. Qed.

Lemma vm_state_pop pc σ a ρ d : set_finsh_sp (Z.of_nat (length (σ ++ [a])) + -1) (vm_state s pc (σ ++ [a], ρ, d)) = vm_state s pc (σ, a :: ρ, d).
Proof. unfold vm_state. cbn. rewrite <- app_assoc, length_app. simpl. by replace (Z.of_nat (length σ + 1) + -1) with (Z.of_nat (length σ)) by lia. Qed.
End operations.

(** ** Operands *)

(** The bytes of [finsh_code_word(x)] and [finsh_code_dword(x)]. *)
Definition word (x : Z) : list Z := [x .& 255; u8 (Z.shiftr x 8)].
Definition dword (x : Z) : list Z :=
  [u32 x .& 255; Z.shiftr (u32 x) 8 .& 255; Z.shiftr (u32 x) 16 .& 255; Z.shiftr (u32 x) 24].
Definition constant (w : width) (x : Z) : list Z := match w with BYTE => [x] | WORD => word x | DWORD => dword x end.

Lemma land_255 x : x .& 255 = x mod 256.
Proof. exact (Z.land_ones x 8 ltac:(lia)). Qed.

Lemma join_word x : uwrap 16 (u8 (x .& 255) .| Z.shiftl (u8 (u8 (Z.shiftr x 8))) 8) = uwrap 16 x.
Proof.
  rewrite land_255, Z.shiftr_div_pow2 by lia. rewrite !lor_shiftl by (try apply uwrap_bound; lia).
  change (2 ^ 8) with 256. unfold uwrap. change (2 ^ 8) with 256. change (2 ^ 16) with 65536. Z.to_euclidean_division_equations; lia.
Qed.

Lemma dword_bytes x : dword x = [u32 x mod 256; u32 x / 256 mod 256; u32 x / 65536 mod 256; u32 x / 16777216].
Proof. unfold dword. by rewrite !land_255, !Z.shiftr_div_pow2 by lia. Qed.

Lemma dword_u8 x : u8 <$> dword x = dword x.
Proof.
  pose proof (uwrap_bound 32 x ltac:(lia)). change (2 ^ 32) with 4294967296 in *. rewrite dword_bytes. simpl. unfold uwrap at 1 3 5 7. change (2 ^ 8) with 256.
  rewrite !Zmod_mod, (Z.mod_small (u32 x / 16777216)); [done|]. Z.to_euclidean_division_equations; lia.
Qed.

Lemma join_dword x : nth 0 (dword x) 0 .| Z.shiftl (nth 1 (dword x) 0) 8 .| Z.shiftl (nth 2 (dword x) 0) 16 .| Z.shiftl (nth 3 (dword x) 0) 24 = u32 x.
Proof.
  pose proof (uwrap_bound 32 x ltac:(lia)). rewrite dword_bytes. simpl. set (v := u32 x) in *.
  change (2 ^ 32) with 4294967296 in *.
  rewrite (lor_shiftl 8), (lor_shiftl 16), (lor_shiftl 24); change (2 ^ 8) with 256; change (2 ^ 16) with 65536; change (2 ^ 24) with 16777216;
    Z.to_euclidean_division_equations; lia.
Qed.
Section instructions.
Context `{Syscalls} (s : finsh).
Hypothesis Htext : length (text_segment s) = 128%nat.
Implicit Types (σ ρ : list Z) (d : bytes).

(** The bytes of an operand. *)
Lemma wp_pc_get k b l pc c Q : code_at (text_segment s) pc l -> l !! k = Some b -> Q b (vm_state s pc c) -> wp (pc_get (Z.of_nat k)) Q (vm_state s pc c).
Proof.
  intros Hc Hk HQ. destruct (code_at_lookup _ _ _ _ _ Hc Hk) as [H0 Hl]. unfold pc_get. rewrite wp_getso. exists b. split; [|done]. simpl.
  destruct (Z.leb_spec 0 (pc + Z.of_nat k)); [done|lia].
Qed.

Lemma length_operand w x : Z.of_nat (length (u8 <$> constant w x)) = bits w / 8.
Proof. by destruct w. Qed.
Lemma length_dword x : length (dword x) = 4%nat.
Proof. done. Qed.

Lemma change_state (Q : finsh -> Prop) a b : Q a -> a = b -> Q b.
Proof. by intros ? <-. Qed.

Lemma finsh_ext (x y : finsh) : data x = data y -> text_segment x = text_segment y -> finsh_vm_stack x = finsh_vm_stack y ->
  finsh_sp x = finsh_sp y -> finsh_pc x = finsh_pc y -> finsh_compile_pc x = finsh_compile_pc y ->
  global_node_table x = global_node_table y -> global_variable x = global_variable y -> sysvar_table x = sysvar_table y ->
  global_sysvar_list x = global_sysvar_list y -> syscall_table x = syscall_table y -> global_syscall_list x = global_syscall_list y ->
  free_list x = free_list y -> allocate_list x = allocate_list y -> global_errno x = global_errno y ->
  token x = token y -> root x = root y -> x = y.
Proof. destruct x, y. simpl. by intros -> -> -> -> -> -> -> -> -> -> -> -> -> -> -> -> ->. Qed.

(** Two states that differ in the form of their stack, stack pointer and program counter. *)
Ltac state_eq :=
  apply finsh_ext; first [reflexivity | cbn;
    first [by rewrite <- ?app_assoc | rewrite ?length_app, ?length_operand, ?length_dword; cbn [length]; lia]].

Lemma wp_FINSH_GET32 a pc c Q : code_at (text_segment s) pc (dword a) -> Q (u32 a) (vm_state s pc c) -> wp FINSH_GET32 Q (vm_state s pc c).
Proof.
  intros Hc HQ. unfold FINSH_GET32. rewrite wp_bind. eapply (wp_pc_get 0); [done..|]. rewrite wp_bind. eapply (wp_pc_get 1); [done..|].
  rewrite wp_bind. eapply (wp_pc_get 2); [done..|]. rewrite wp_bind. eapply (wp_pc_get 3); [done..|]. exact (eq_ind_r (fun v => Q v _) HQ (join_dword a)).
Qed.

Lemma wp_operand w x pc c Q :
  code_at (text_segment s) pc (u8 <$> constant w x) -> (forall v, uwrap (bits w) v = uwrap (bits w) x -> Q v (vm_state s pc c)) ->
  wp (match w with BYTE => pc_get 0 | WORD => FINSH_GET16 | DWORD => FINSH_GET32 end) Q (vm_state s pc c).
Proof.
  intros Hc HQ. destruct w.
  - simpl in *. eapply (wp_pc_get 0 (u8 x)); [done|done|]. apply HQ. by apply uwrap_uwrap.
  - unfold FINSH_GET16. rewrite wp_bind. eapply (wp_pc_get 0); [exact Hc|reflexivity|]. rewrite wp_bind. eapply (wp_pc_get 1); [exact Hc|reflexivity|].
    rewrite wp_ret. apply HQ, join_word.
  - apply (wp_FINSH_GET32 x); [|apply HQ; by apply uwrap_uwrap]. by rewrite dword_u8 in Hc.
Qed.

Lemma exec_ld w x y σ ρ d : exec s (FINSH_OP_LD w :: (u8 <$> constant w x)) (σ, y :: ρ, d) (σ ++ [wr w x y], ρ, d).
Proof.
  apply (exec_op s _ _ (OP_ld w)); [done|by destruct w|]. intros pc Q Hc HQ. unfold OP_ld. rewrite wp_bind.
  apply (wp_operand w x); [eauto with code|]. intros v Hv. rewrite wp_bind. eapply wp_sp_write; [done|lia|]. intros s' ->.
  unfold sp_move, pc_move. wp_norm. unfold wr. rewrite Hv. fold (wr w x y). simpl.
  apply (change_state _ _ _ HQ). state_eq.
Qed.

Lemma exec_ld_value w a v y σ ρ d :
  load_w w (u32 a) d = Some (v, d) -> exec s (FINSH_OP_LD_VALUE w :: dword a) (σ, y :: ρ, d) (σ ++ [wr w v y], ρ, d).
Proof.
  intros Hl. apply (exec_op s _ _ (OP_ld_value w)); [done|by destruct w|]. intros pc Q Hc HQ. unfold OP_ld_value. rewrite wp_bind.
  eapply wp_FINSH_GET32; [eauto with code|]. rewrite wp_bind. unfold wp at 1, dlift. simpl. rewrite Hl. rewrite wp_bind.
  eapply wp_sp_write; [done|lia|]. intros s' ->. unfold sp_move, pc_move. wp_norm. apply (change_state _ _ _ HQ). state_eq.
Qed.

Lemma exec_ld_value_stack w a v σ ρ d :
  load_w w (u32 a) d = Some (v, d) -> exec s [FINSH_OP_LD_VALUE_STACK w] (σ ++ [a], ρ, d) (σ ++ [wr w v a], ρ, d).
Proof.
  intros Hl. apply (exec_op s _ _ (OP_ld_value_stack w)); [done|by destruct w|]. intros pc Q Hc HQ. unfold OP_ld_value_stack. rewrite wp_bind.
  eapply (wp_sp_get _ _ σ); [by rewrite <- app_assoc|rewrite length_app; simpl; lia|]. rewrite wp_bind. unfold wp at 1, dlift. simpl. rewrite Hl.
  eapply (wp_sp_write _ _ _ _ σ); [by rewrite <- app_assoc|rewrite length_app; simpl; lia|]. intros s' ->. apply (change_state _ _ _ HQ). state_eq.
Qed.

Lemma exec_st w p v σ ρ d d' :
  store_w w (u32 p) v d = Some (tt, d') -> exec s [FINSH_OP_ST w] (σ ++ [p; v], ρ, d) (σ ++ [p], v :: ρ, d').
Proof.
  intros Hl. apply (exec_op s _ _ (OP_st w)); [done|by destruct w|]. intros pc Q Hc HQ. unfold OP_st. rewrite wp_bind.
  eapply (wp_sp_get _ _ σ); [by rewrite <- app_assoc|rewrite length_app; simpl; lia|]. rewrite wp_bind.
  eapply (wp_sp_get _ _ (σ ++ [p])); [by rewrite <- !app_assoc|rewrite !length_app; simpl; lia|]. rewrite wp_bind. unfold wp at 1, dlift. simpl. rewrite Hl.
  unfold sp_move. wp_norm. apply (change_state _ _ _ HQ). state_eq.
Qed.

Lemma exec_pop a σ ρ d : exec s [FINSH_OP_POP] (σ ++ [a], ρ, d) (σ, a :: ρ, d).
Proof.
  apply (exec_op s _ _ OP_pop); [done..|]. intros pc Q Hc HQ. unfold OP_pop, sp_move. wp_norm. apply (change_state _ _ _ HQ). state_eq.
Qed.

(** The operators that pop two values. *)
Lemma exec_bin op f w x a b v σ ρ d :
  op_table !! Z.to_nat (op w) = Some (OP_BIN w f) -> x = op w -> f (rd w a) (rd w b) = Some v ->
  exec s [x] (σ ++ [a; b], ρ, d) (σ ++ [wr w v a], b :: ρ, d).
Proof.
  intros Ho -> Hf. apply (exec_op s _ _ (OP_BIN w f)); [done|done|]. intros pc Q Hc HQ. unfold OP_BIN. rewrite wp_bind.
  eapply (wp_sp_get _ _ σ); [by rewrite <- app_assoc|rewrite length_app; simpl; lia|]. rewrite wp_bind.
  eapply (wp_sp_get _ _ (σ ++ [a])); [by rewrite <- !app_assoc|rewrite !length_app; simpl; lia|]. rewrite wp_bind, wp_getso. exists v. split; [done|].
  rewrite wp_bind. eapply (wp_sp_write _ _ _ _ σ); [by rewrite <- app_assoc|rewrite length_app; simpl; lia|]. intros s' ->.
  unfold sp_move. wp_norm. apply (change_state _ _ _ HQ). state_eq.
Qed.

Lemma exec_bw w a σ ρ d : exec s [FINSH_OP_BITWISE w] (σ ++ [a], ρ, d) (σ ++ [wr w (Z.lnot (rd w a)) a], ρ, d).
Proof.
  apply (exec_op s _ _ (OP_bw w)); [done|by destruct w|]. intros pc Q Hc HQ. unfold OP_bw. rewrite wp_bind.
  eapply (wp_sp_get _ _ σ); [by rewrite <- app_assoc|rewrite length_app; simpl; lia|].
  eapply (wp_sp_write _ _ _ _ σ); [by rewrite <- app_assoc|rewrite length_app; simpl; lia|]. intros s' ->. apply (change_state _ _ _ HQ). state_eq.
Qed.

(** The state with the stack [L]. *)
Definition stack_state (pc : Z) (L : list Z) (sp : Z) d : finsh := set_data d (set_finsh_vm_stack L (set_finsh_sp sp (set_finsh_pc pc s))).

Lemma wp_call_params pc σ f args ρ d k acc Q :
  (k <= length args)%nat ->
  Q ((u32 <$> take k args) ++ acc) (stack_state pc (σ ++ f :: args ++ ρ) (Z.of_nat (length σ)) d) ->
  wp (call_params k acc) Q (stack_state pc (σ ++ f :: args ++ ρ) (Z.of_nat (length σ + k)) d).
Proof.
  revert acc. induction k as [|k IH]; intros acc Hk HQ; cbn [call_params]; [by rewrite Nat.add_0_r|].
  destruct (lookup_lt_is_Some_2 args k) as [x Hx]; [lia|]. rewrite wp_bind. unfold sp_get. rewrite wp_getso. exists x. split.
  { unfold stack_state. cbn. destruct (Z.leb_spec 0 (Z.of_nat (length σ + S k) + 0)); [|lia].
    replace (Z.to_nat (Z.of_nat (length σ + S k) + 0)) with (length σ + S k)%nat by lia. rewrite lookup_app_r by lia.
    replace (length σ + S k - length σ)%nat with (S k) by lia. simpl. by apply lookup_app_l_Some. }
  rewrite wp_bind. unfold sp_move. rewrite wp_modify. cbn.
  replace (set_finsh_sp _ _) with (stack_state pc (σ ++ f :: args ++ ρ) (Z.of_nat (length σ + k)) d)
    by (unfold stack_state; state_eq).
  apply IH; [lia|]. by rewrite (take_S_r _ _ _ Hx), fmap_app, <- app_assoc in HQ.
Qed.

Lemma exec_call f args r σ ρ d d' :
  (length args <= 16)%nat -> syscall (u32 f) (if bool_decide (args = []) then [0] else u32 <$> args) d = Some (r, d') ->
  exec s [FINSH_OP_SYSCALL; Z.of_nat (length args)] (σ ++ f :: args, ρ, d) (σ ++ [u32 r], args ++ ρ, d').
Proof.
  intros Hn Hf. apply (exec_op s _ _ OP_call); [done..|]. intros pc Q Hc HQ. unfold OP_call. rewrite wp_bind.
  eapply (wp_pc_get 0); [eauto with code|done|]. unfold pc_move, sp_move. wp_norm.
  rewrite wp_when. right. split; [destruct (Z.ltb_spec 16 (Z.of_nat (length args))); [lia|done]|]. wp_norm. rewrite Nat2Z.id.
  match goal with |- wp _ _ ?s1 => replace s1 with (stack_state (pc + 2) (σ ++ f :: args ++ ρ) (Z.of_nat (length σ + length args)) d)
    by (unfold stack_state; state_eq) end.
  apply wp_call_params; [done|]. rewrite app_nil_r, firstn_all. rewrite wp_bind.
  change (stack_state _ _ _ _) with (vm_state s (pc + 2) (σ, f :: args ++ ρ, d)).
  eapply wp_sp_get; [done|lia|]. rewrite wp_bind. unfold wp at 1, dlift. cbn [data vm_state set_data snd].
  replace (if Z.of_nat (length args) =? 0 then [0] else u32 <$> args) with (if bool_decide (args = []) then [0] else u32 <$> args)
    by (destruct args; [done|]; simpl; by case_bool_decide).
  rewrite Hf. rewrite wp_bind.
  change (wp (sp_put 0 (u32 r)) (fun _ s' => wp (sp_move 1) (fun _ s2 => Q s2) s') (vm_state s (pc + 2) (σ, f :: args ++ ρ, d'))).
  eapply wp_sp_put; [done|lia|]. intros s' ->. unfold sp_move. wp_norm. apply (change_state _ _ _ HQ). state_eq.
Qed.
End instructions.

(** ** The memory *)

Lemma bind_Some {A B} (m : BM A) (f : A -> BM B) d b d' :
  (m ≫= f) d = Some (b, d') <-> exists a d1, m d = Some (a, d1) /\ f a d1 = Some (b, d').
Proof. unfold mbind, stM_bind. destruct (m d) as [[a d1]|]; naive_solver. Qed.

Lemma load_Some p d v d' : load p d = Some (v, d') <-> d' = d /\ exists b, d !! p = Some b /\ v = u8 b.
Proof. unfold load, getso. destruct (d !! p); simpl; naive_solver. Qed.

Lemma store_Some p v d u d' : store p v d = Some (u, d') <-> is_Some (d !! p) /\ d' = <[p := u8 v]> d.
Proof. unfold store. destruct u. destruct (d !! p) eqn:E; [|naive_solver]. split; [intros [= <-]; eauto|by intros [_ ->]]. Qed.

Ltac mem_inv :=
  repeat match goal with
  | H : (_ ≫= _) _ = Some (_, _) |- _ => apply bind_Some in H as (? & ? & ? & H)
  | H : load _ _ = Some (_, _) |- _ => apply load_Some in H as (-> & ? & ? & ->)
  | H : store _ _ _ = Some (_, _) |- _ => apply store_Some in H as (? & ->)
  | H : mret _ _ = Some (_, _) |- _ => injection H as <- <-
  end.

Lemma load_w_same w p d v d' : load_w w p d = Some (v, d') -> d' = d.
Proof. destruct w; simpl; unfold load16, load32; intros; by mem_inv. Qed.

(** A value that has been stored is loaded again, also as the low part of a wider one. *)
Lemma load_store w w' p v d d' u x d2 :
  store_w w p v d = Some (u, d') -> load_w w' p d' = Some (x, d2) -> bits w <= bits w' -> uwrap (bits w) x = uwrap (bits w) v.
Proof.
  intros Hs Hl Hle. destruct w, w'; simpl in *; try lia; unfold load16, load32, store16, store32 in *; mem_inv;
    repeat match goal with H : <[_ := _]> _ !! _ = Some _ |- _ =>
      first [rewrite lookup_insert_eq in H; injection H as <- | rewrite lookup_insert_ne in H by lia] end;
    unfold uwrap; change (2 ^ 8) with 256; change (2 ^ 16) with 65536; change (2 ^ 24) with 16777216; change (2 ^ 32) with 4294967296;
    Z.to_euclidean_division_equations; lia.
Qed.

(** Memory that has been accessible stays so. *)
Lemma insert_is_Some (d : bytes) p v q : is_Some (d !! q) -> is_Some (<[p := v]> d !! q).
Proof. intros. destruct (decide (p = q)) as [->|]; [rewrite lookup_insert_eq; eauto|by rewrite lookup_insert_ne]. Qed.

Lemma store_w_dom w p v d u d' q : store_w w p v d = Some (u, d') -> is_Some (d !! q) -> is_Some (d' !! q).
Proof. destruct w; simpl; unfold store16, store32; intros Hs Hq; mem_inv; by repeat apply insert_is_Some. Qed.

Lemma load_after_store w p v d u d' : store_w w p v d = Some (u, d') -> exists x, load_w w p d' = Some (x, d').
Proof.
  intros Hs. assert (forall i, 0 <= i < bits w / 8 -> is_Some (d' !! (p + i))) as Hd.
  { intros i Hi. eapply store_w_dom; [done|]. destruct w; simpl in *; unfold store16, store32 in Hs; mem_inv.
    - by replace (p + i) with p by (change (8 / 8) with 1 in Hi; lia).
    - change (16 / 8) with 2 in Hi. assert (i = 0 \/ i = 1) as [-> | ->] by lia; rewrite ?Z.add_0_r; [done|].
      by rewrite lookup_insert_ne in * by lia.
    - change (32 / 8) with 4 in Hi. assert (i = 0 \/ i = 1 \/ i = 2 \/ i = 3) as [-> | [-> | [-> | ->]]] by lia; rewrite ?Z.add_0_r; try done;
        by repeat rewrite lookup_insert_ne in * by lia. }
  assert (forall i, 0 <= i < bits w / 8 -> exists b, load (p + i) d' = Some (b, d')) as Hb.
  { intros i Hi. destruct (Hd i Hi) as [b Hb]. exists (u8 b). apply load_Some. eauto. }
  destruct w; simpl in *.
  - destruct (Hb 0) as [x Hx]; [by vm_compute|]. rewrite Z.add_0_r in Hx. eauto.
  - destruct (Hb 0) as [x0 H0]; [by vm_compute|]. destruct (Hb 1) as [x1 H1]; [by vm_compute|]. rewrite Z.add_0_r in H0.
    eexists. unfold load16. apply bind_Some. do 2 eexists. split; [done|]. apply bind_Some. do 2 eexists. by split.
  - destruct (Hb 0) as [x0 H0]; [by vm_compute|]. destruct (Hb 1) as [x1 H1]; [by vm_compute|]. destruct (Hb 2) as [x2 H2]; [by vm_compute|].
    destruct (Hb 3) as [x3 H3]; [by vm_compute|]. rewrite Z.add_0_r in H0.
    eexists. unfold load32. do 4 (apply bind_Some; do 2 eexists; split; [done|]). done.
Qed.

(** A store takes the low bits. *)
Lemma store_w_ext w p x y d : uwrap (bits w) x = uwrap (bits w) y -> store_w w p x d = store_w w p y d.
Proof.
  assert (forall q a b m, u8 a = u8 b -> store q a m = store q b m) as Hu by (intros q a b m E; unfold store; by rewrite E).
  assert (forall j k a b, 0 <= j -> 0 <= k -> j + 8 <= k -> uwrap k a = uwrap k b -> u8 (a / 2 ^ j) = u8 (b / 2 ^ j)) as Hd.
  { intros j k a b Hj Hk Hjk E. unfold uwrap. apply Z.bits_inj'. intros i Hi. destruct (Z.ltb_spec i 8).
    - rewrite !Z.mod_pow2_bits_low, !Z.div_pow2_bits by lia. rewrite <- (Z.mod_pow2_bits_low a k), <- (Z.mod_pow2_bits_low b k) by lia.
      unfold uwrap in E. by rewrite E.
    - by rewrite !Z.mod_pow2_bits_high by lia. }
  intros E. destruct w; simpl in *; [by apply Hu| |]; unfold store16, store32, mbind, stM_bind.
  - rewrite (Hu p x y) by (pose proof (Hd 0 16 x y) as H0; rewrite !Z.div_1_r in H0; apply H0; [lia..|done]).
    destruct (store p y d) as [[??]|]; [|done]. apply Hu, (Hd 8 16); [lia..|done].
  - rewrite (Hu p x y) by (pose proof (Hd 0 32 x y) as H0; rewrite !Z.div_1_r in H0; apply H0; [lia..|done]).
    destruct (store p y d) as [[??]|]; [|done]. rewrite (Hu (p + 1) (x / 2 ^ 8) (y / 2 ^ 8)) by (apply (Hd 8 32); [lia..|done]).
    destruct (store (p + 1) _ _) as [[??]|]; [|done]. rewrite (Hu (p + 2) (x / 2 ^ 16) (y / 2 ^ 16)) by (apply (Hd 16 32); [lia..|done]).
    destruct (store (p + 2) _ _) as [[??]|]; [|done]. apply Hu, (Hd 24 32); [lia..|done].
Qed.

(** ** Example *)

(** The code of [2 + 3], with nothing behind it. *)
Definition demo_sum : finsh :=
  mkFinsh ∅ ([36; 2; 0; 0; 0; 36; 3; 0; 0; 0; 3] ++ repeat 0 117) (repeat 0 64) 0 0 0 [] [] [] [] [] [] 0 0 0 (mkToken false false 0 0 0 [] []) None.
Definition no_syscalls : Syscalls := fun _ _ => rt_panic.

Lemma demo_sum_runs : exists s1, @vm_loop no_syscalls 129 (set_finsh_pc 0 (set_finsh_sp 0 demo_sum)) = Some (tt, s1).
Proof. eexists. vm_compute. reflexivity. Qed.

Lemma finsh_vm_run_terminates_witness :
  let s0 := set_finsh_pc 0 (set_finsh_sp 0 demo_sum) in
  (exists n s', @vm_steps no_syscalls n s0 s' /\ 128 <= finsh_pc s' /\ @finsh_vm_run no_syscalls demo_sum = Some (tt, s')) /\
  (fun r => finsh_vm_stack r.2 !! 0%nat) <$> @finsh_vm_run no_syscalls demo_sum = Some (Some 5).
Proof.
  cbv zeta. split; [|vm_compute; reflexivity].
  apply (@finsh_vm_run_terminates no_syscalls demo_sum). intros n s' Hs Hpc. destruct demo_sum_runs as [s1 E].
  exact (@vm_loop_defined no_syscalls 129 _ s1 n s' E (Z.le_refl 0) Hs Hpc).
Defined.
