(* ===== verification/FinshSym.v ===== *)
(** The symbols of the finsh shell: components/finsh/finsh_var.c and the system calls of finsh_vm.c. *)

From S2P Require Import Prelude ByteMem FinshDef.

(** ** Names *)

(** [strncmp(a, b, n) == 0] *)
Definition strncmp_eq (n : Z) (a b : list Z) : bool := bool_decide (take (Z.to_nat n) a = take (Z.to_nat n) b).
Definition strncpy (n : Z) (a : list Z) : list Z := take (Z.to_nat n) a.
Definition no_var : finsh_var := mkVar [] finsh_type_unknown.

(** The index of the first element with a property. *)
Fixpoint find_index {A} (f : A -> bool) (l : list A) : option nat :=
  match l with [] => None | x :: l => if f x then Some 0%nat else S <$> find_index f l end.

(** ** Variables *)

Section variables.
Context `{FinshLayout}.

(** [global_variable[i].value.long_value = 0], as a part of a [memset]. *)
Definition clear_value (i : nat) : FM unit := dlift (store32 (var_value_addr (Some (IdVar i))) 0).

Definition finsh_var_init : FM unit :=
  modify (set_global_variable (replicate (Z.to_nat FINSH_VARIABLE_MAX) no_var));;
  foldr (fun i m => clear_value i;; m) (mret tt) (seq 0 (Z.to_nat FINSH_VARIABLE_MAX)).

Definition same_name (name : list Z) (v : finsh_var) : bool := strncmp_eq FINSH_NAME_MAX (var_name v) name.

(** [-1] if there is a variable of that name or no room, the index otherwise. *)
Definition finsh_var_insert (name : list Z) (type : Z) : FM Z :=
  vars ← gets global_variable;
  if existsb (same_name name) vars then mret (-1)
  else match find_index (fun v => var_type v =? finsh_type_unknown) vars with
  | None => mret (-1)
  | Some empty =>
      modify (set_global_variable (<[empty := mkVar (strncpy FINSH_NAME_MAX name) (u8 type)]> vars));;
      mret (Z.of_nat empty)
  end.

Definition finsh_var_delete (name : list Z) : FM Z :=
  vars ← gets global_variable;
  match find_index (same_name name) vars with
  | None => mret (-1)
  | Some i =>
      modify (set_global_variable (<[i := no_var]> vars));;
      clear_value i;;
      mret 0
  end.

Definition finsh_var_lookup (name : list Z) : FM (option id_ptr) :=
  vars ← gets global_variable;
  mret (IdVar <$> find_index (same_name name) vars).
End variables.

(** ** System variables and system calls *)

(** [strncmp(item, name, strlen(name)) == 0] *)
Definition prefix_eq (name item : list Z) : bool := strncmp_eq (Z.of_nat (length name)) item name.

(** The tables of the linker are searched for the name, the lists of the heap for a name that begins with it. *)
Definition symbol_find {A} (name_of : A -> list Z) (name : list Z) (table l : list (Z * A)) : option Z :=
  match head (filter (fun e => name_of e.2 = name) table) with
  | Some e => Some e.1
  | None => fst <$> head (filter (fun e => Is_true (prefix_eq name (name_of e.2))) l)
  end.

Definition finsh_sysvar_lookup (name : list Z) : FM (option id_ptr) :=
  gets (fun s => IdSysvar <$> symbol_find sv_name name (sysvar_table s) (global_sysvar_list s)).
Definition finsh_syscall_lookup (name : list Z) : FM (option id_ptr) :=
  gets (fun s => IdSyscall <$> symbol_find sc_name name (syscall_table s) (global_syscall_list s)).

(** [item] is what [rt_malloc] returns; the symbol lies behind the [next] of the item. *)
Definition finsh_sysvar_append (item : option Z) (name : list Z) (type addr : Z) : FM unit :=
  match item with
  | None => mret tt
  | Some p => modify (fun s => set_global_sysvar_list ((p + 4, mkSysvar name type addr) :: global_sysvar_list s) s)
  end.
Definition finsh_syscall_append (item : option Z) (name : list Z) (func : Z) : FM unit :=
  match item with
  | None => mret tt
  | Some p => modify (fun s => set_global_syscall_list ((p + 4, mkSyscall name func) :: global_syscall_list s) s)
  end.
