(* ===== verification/FinshExpr.v ===== *)
(** The expressions of the finsh shell: their types, their values and the code of the virtual machine for them, with the
    proof that the code computes the value. *)

From S2P Require Import Prelude ByteMem FinshDef FinshVm.

(** ** Abstract syntax *)

Inductive binop := Add | Sub | Mul | Div | Mod | And | Or | Xor | Shl | Shr.

#[export] Instance binop_eq_dec : EqDecision binop.
Proof. solve_decision. Defined.

(** [EInt b n] is a literal, with an [L] behind it if [b]; [EStep pre inc x] is [++x], [--x], [x++] or [x--]; [EStore p e] is [*p = e]. *)
Inductive expr :=
| EInt (long : bool) (n : Z)
| EChar (c : Z)
| ENull
| EId (x : list Z)
| EBin (o : binop) (e1 e2 : expr)
| ENot (e : expr)
| ENeg (e : expr)
| EPlus (e : expr)
| EStep (pre inc : bool) (x : list Z)
| EAssign (x : list Z) (e : expr)
| EStore (p e : expr)
| EDeref (p : expr)
| EAddr (x : list Z)
| ECall (f : list Z) (args : exprs)
with exprs := ANil | ACons (e : expr) (l : exprs).

Scheme expr_mut := Induction for expr Sort Prop with exprs_mut := Induction for exprs Sort Prop.
Combined Scheme expr_ind2 from expr_mut, exprs_mut.

Fixpoint args_length (l : exprs) : nat := match l with ANil => 0 | ACons _ l => S (args_length l) end.

(** What a name stands for: a variable of the shell or a system variable with its width and address, or the address of a function. *)
Inductive symbol := SymVar (w : width) (a : Z) | SymSysvar (w : width) (a : Z) | SymFun (a : Z).

Definition binop_instr (o : binop) : width -> Z :=
  match o with
  | Add => FINSH_OP_ADD | Sub => FINSH_OP_SUB | Mul => FINSH_OP_MUL | Div => FINSH_OP_DIV | Mod => FINSH_OP_MOD
  | And => FINSH_OP_AND | Or => FINSH_OP_OR | Xor => FINSH_OP_XOR | Shl => FINSH_OP_SHL | Shr => FINSH_OP_SHR
  end.

(** The operators of C on [int]. *)
Definition binop_eval (o : binop) : Z -> Z -> option Z :=
  match o with
  | Add => fun a b => Some (a + b) | Sub => fun a b => Some (a - b) | Mul => fun a b => Some (a * b)
  | Div => c_div | Mod => c_mod
  | And => fun a b => Some (a .& b) | Or => fun a b => Some (a .| b) | Xor => fun a b => Some (Z.lxor a b)
  | Shl => c_shl | Shr => c_shr
  end.

Section expressions.
Context (env : list Z -> option symbol).

(** A variable, and one that [++] and [--] work on. *)
Definition variable (x : list Z) : option (width * Z) :=
  match env x with Some (SymVar w a) | Some (SymSysvar w a) => Some (w, a) | _ => None end.
Definition own_variable (x : list Z) : option (width * Z) := match env x with Some (SymVar w a) => Some (w, a) | _ => None end.
Definition function (f : list Z) : option Z := match env f with Some (SymFun a) => Some a | _ => None end.

(** *** Types *)

(** The width that the compiler gives to an expression, that of its leftmost operand; a call has none. *)
Fixpoint type_of (e : expr) : option width :=
  match e with
  | EInt _ _ | ENull | ENeg _ => Some DWORD
  | EChar _ => Some BYTE
  | EId x | EAddr x | EAssign x _ | EStep _ _ x => fst <$> variable x
  | EBin _ e _ | ENot e | EPlus e | EStore e _ | EDeref e => type_of e
  | ECall _ _ => None
  end.

(** The width in which the value of an expression is in its place on the stack. *)
Fixpoint value_of (e : expr) : option width :=
  match e with
  | EAddr x => (fun _ => DWORD) <$> variable x
  | ECall f _ => (fun _ => DWORD) <$> function f
  | EId x => match function x with Some _ => Some DWORD | None => fst <$> variable x end
  | EPlus e => value_of e
  | _ => type_of e
  end.

(** The value of [e] has the width [d] at least. *)
Definition fits (d : option width) (e : expr) : bool :=
  match d, value_of e with Some d, Some v => bits d <=? bits v | _, _ => false end.

(** Every operator finds values that are as wide as its instruction takes them for. *)
Fixpoint well_typed (e : expr) : bool :=
  match e with
  | EInt _ _ | EChar _ | ENull => true
  | EId x => bool_decide (is_Some (env x))
  | EBin _ e1 e2 => well_typed e1 && well_typed e2 && fits (type_of e1) e1 && fits (type_of e1) e2
  | ENot e => well_typed e && fits (type_of e) e
  | ENeg e => well_typed e && fits (Some DWORD) e
  | EPlus e => well_typed e
  | EStep _ _ x => bool_decide (is_Some (own_variable x))
  | EAddr x => bool_decide (is_Some (variable x))
  | EAssign x e => well_typed e && fits (fst <$> variable x) e
  | EStore p e => well_typed p && fits (Some DWORD) p && well_typed e && fits (type_of p) e
  | EDeref p => well_typed p && fits (Some DWORD) p && bool_decide (is_Some (type_of p))
  | ECall f l => bool_decide (is_Some (function f)) && (args_length l <=? 16)%nat && args_typed l
  end
with args_typed (l : exprs) : bool :=
  match l with ANil => true | ACons e l => well_typed e && fits (Some DWORD) e && args_typed l end.

(** *** Values *)

Section eval.
Context `{Syscalls}.
Abbreviation EM := BM.

(** The new value of the variable at [a]; the old one. *)
Definition eval_step (inc : bool) (w : width) (a : Z) : EM Z :=
  v ← load_w w (u32 a);
  store_w w (u32 a) (rd w (if inc then rd w v + 1 else rd w v - 1));;
  mret (rd w v).

Fixpoint eval (e : expr) : EM Z :=
  match e with
  | EInt _ n => mret (rd DWORD n)
  | EChar c => mret (rd BYTE c)
  | ENull => mret 0
  | EId x =>
      match env x with
      | Some (SymVar w a) | Some (SymSysvar w a) => v ← load_w w (u32 a); mret (rd w v)
      | Some (SymFun a) => mret (rd DWORD a)
      | None => rt_panic
      end
  | EBin o e1 e2 =>
      a ← eval e1; b ← eval e2;
      d ← getso (fun _ => type_of e1);
      v ← getso (fun _ => binop_eval o (rd d a) (rd d b));
      mret (rd d v)
  | ENot e => a ← eval e; d ← getso (fun _ => type_of e); mret (rd d (Z.lnot (rd d a)))
  | ENeg e => a ← eval e; mret (rd DWORD (- rd DWORD a))
  | EPlus e => eval e
  | EStep pre inc x =>
      v ← getso (fun _ => own_variable x);
      old ← eval_step inc v.1 v.2;
      (* [++x] reads four bytes of the variable again *)
      if pre then load32 (u32 v.2);; mret (rd v.1 (if inc then old + 1 else old - 1)) else mret old
  | EAssign x e =>
      v ← getso (fun _ => variable x);
      a ← eval e;
      store_w v.1 (u32 v.2) a;;
      mret (rd v.1 a)
  | EStore p e =>
      q ← eval p; a ← eval e;
      w ← getso (fun _ => type_of p);
      store_w w (u32 q) a;;
      mret (rd w a)
  | EDeref p => q ← eval p; w ← getso (fun _ => type_of p); v ← load_w w (u32 q); mret (rd w v)
  | EAddr x => v ← getso (fun _ => variable x); mret (rd DWORD v.2)
  | ECall f l =>
      p ← getso (fun _ => function f);
      vs ← eval_args l;
      r ← syscall (u32 p) (if bool_decide (vs = []) then [0] else u32 <$> vs);
      mret (rd DWORD r)
  end
with eval_args (l : exprs) : EM (list Z) :=
  match l with ANil => mret [] | ACons e l => v ← eval e; vs ← eval_args l; mret (v :: vs) end.
End eval.

(** *** Code *)

Definition code_of_width (d : option width) (f : width -> Z) : list Z := match d with Some w => [f w] | None => [] end.

Fixpoint code (e : expr) : list Z :=
  match e with
  | EInt _ n => FINSH_OP_LD DWORD :: dword n
  | EChar c => [FINSH_OP_LD BYTE; u8 c]
  | ENull => FINSH_OP_LD DWORD :: dword 0
  | EId x =>
      match env x with
      | Some (SymVar w a) | Some (SymSysvar w a) => FINSH_OP_LD_VALUE w :: dword a
      | Some (SymFun a) => FINSH_OP_LD DWORD :: dword a
      | None => []
      end
  | EBin o e1 e2 => code e1 ++ code e2 ++ code_of_width (type_of e1) (binop_instr o)
  | ENot e => code e ++ code_of_width (type_of e) FINSH_OP_BITWISE
  | ENeg e => (FINSH_OP_LD DWORD :: dword 0) ++ code e ++ [FINSH_OP_SUB DWORD]
  | EPlus e => code e
  | EStep pre inc x =>
      match variable x with
      | Some (w, a) =>
          let op := if inc then FINSH_OP_ADD w else FINSH_OP_SUB w in
          let one := FINSH_OP_LD w :: constant w 1 in
          if pre then
            (FINSH_OP_LD DWORD :: dword a) ++ (FINSH_OP_LD_VALUE w :: dword a) ++ one ++ [op] ++ [FINSH_OP_ST w] ++ [FINSH_OP_LD_VALUE_STACK DWORD]
          else
            (FINSH_OP_LD_VALUE w :: dword a) ++ (FINSH_OP_LD DWORD :: dword a) ++ (FINSH_OP_LD_VALUE w :: dword a) ++ one ++ [op] ++
              [FINSH_OP_ST w] ++ [FINSH_OP_POP]
      | None => []
      end
  | EAssign x e =>
      match variable x with
      | Some (w, a) => (FINSH_OP_LD DWORD :: dword a) ++ code e ++ [FINSH_OP_ST w] ++ [FINSH_OP_LD_VALUE_STACK w]
      | None => []
      end
  | EStore p e =>
      code p ++ code e ++ match type_of p with Some w => [FINSH_OP_ST w] ++ [FINSH_OP_LD_VALUE_STACK w] | None => [] end
  | EDeref p => code p ++ code_of_width (type_of p) FINSH_OP_LD_VALUE_STACK
  | EAddr x => match variable x with Some (_, a) => FINSH_OP_LD DWORD :: dword a | None => [] end
  | ECall f l =>
      match function f with
      | Some p => (FINSH_OP_LD DWORD :: dword p) ++ code_args l ++ [FINSH_OP_SYSCALL; u8 (Z.of_nat (args_length l))]
      | None => []
      end
  end
with code_args (l : exprs) : list Z :=
  match l with ANil => [] | ACons e l => code e ++ code_args l end.

(** The places on the stack that the code needs. *)
Fixpoint depth (e : expr) : nat :=
  match e with
  | EInt _ _ | EChar _ | ENull | EId _ | EAddr _ => 1
  | EBin _ e1 e2 | EStore e1 e2 => Nat.max (depth e1) (S (depth e2))
  | ENot e | EPlus e | EDeref e => depth e
  | ENeg e | EAssign _ e => S (depth e)
  | EStep pre _ _ => if pre then 3 else 4
  | ECall _ l => S (args_depth l)
  end
with args_depth (l : exprs) : nat :=
  match l with ANil => 0 | ACons e l => Nat.max (depth e) (S (args_depth l)) end.

(** *** Statements *)

(** A line has statements; all but the last are popped, and the last one's value is the result. *)
Fixpoint program_typed (l : exprs) : bool :=
  match l with ANil => true | ACons e l => well_typed e && bool_decide (is_Some (value_of e)) && program_typed l end.

Fixpoint program_value (l : exprs) : option width :=
  match l with ANil => None | ACons e ANil => value_of e | ACons _ l => program_value l end.

Fixpoint eval_program `{Syscalls} (l : exprs) : BM Z :=
  match l with ANil => rt_panic | ACons e ANil => eval e | ACons e l => eval e;; eval_program l end.

Fixpoint program_code (l : exprs) : list Z :=
  match l with ANil => [] | ACons e l => code e ++ match l with ANil => [] | ACons _ _ => FINSH_OP_POP :: program_code l end end.

Fixpoint program_depth (l : exprs) : nat := match l with ANil => 0 | ACons e l => Nat.max (depth e) (program_depth l) end.
End expressions.

(** ** The code computes the value *)

Section correct.
Context (env : list Z -> option symbol) `{Syscalls} (s : finsh).
Hypothesis Htext : length (text_segment s) = 128%nat.
Implicit Types (σ ρ : list Z) (d : bytes).

Local Abbreviation well_typed := (well_typed env).
Local Abbreviation type_of := (type_of env).
Local Abbreviation value_of := (value_of env).
Local Abbreviation code := (code env).
Local Abbreviation eval := (eval env).

(** The code [l] pushes a value whose low bits are those of [v]. *)
Definition pushes (l : list Z) (w : width) (v : Z) σ ρ d d' : Prop :=
  exists x ρ', exec s l (σ, ρ, d) (σ ++ [x], ρ', d') /\ rd w x = v /\ length ρ = S (length ρ').

Lemma wide_uwrap w v x y : bits w <= bits v -> rd v x = y -> uwrap (bits w) x = uwrap (bits w) y.
Proof. intros Hle <-. pose proof (bits_pos w). by rewrite <- (uwrap_le (bits w) (bits v) (rd v x)), uwrap_rd, uwrap_le by lia. Qed.

Lemma wide_u32 v x y : 32 <= bits v -> rd v x = y -> u32 x = u32 y.
Proof. intros Hle. by apply (wide_uwrap DWORD). Qed.

Lemma pushes_weaken l w v x σ ρ d d' : bits w <= bits v -> pushes l v x σ ρ d d' -> pushes l w (rd w x) σ ρ d d'.
Proof. intros Hle (y & ρ' & He & <- & Hl). exists y, ρ'. by rewrite rd_narrow. Qed.

Lemma pushes_ld w x σ ρ d : (1 <= length ρ)%nat -> pushes (FINSH_OP_LD w :: (u8 <$> constant w x)) w (rd w x) σ ρ d d.
Proof. intros. destruct ρ as [|y ρ]; [simpl in *; lia|]. exists (wr w x y), ρ. split; [by apply exec_ld|]. by rewrite rd_wr. Qed.

Lemma pushes_ld_dword x σ ρ d : (1 <= length ρ)%nat -> pushes (FINSH_OP_LD DWORD :: dword x) DWORD (rd DWORD x) σ ρ d d.
Proof. intros. rewrite <- dword_u8. by apply (pushes_ld DWORD). Qed.

Lemma pushes_ld_value w a v σ ρ d d' :
  (1 <= length ρ)%nat -> load_w w (u32 a) d = Some (v, d') -> pushes (FINSH_OP_LD_VALUE w :: dword a) w (rd w v) σ ρ d d'.
Proof.
  intros Hρ Hl. destruct ρ as [|y ρ]; [simpl in *; lia|]. pose proof (load_w_same _ _ _ _ _ Hl) as ->. exists (wr w v y), ρ.
  split; [by apply exec_ld_value|]. by rewrite rd_wr.
Qed.

(** An operator behind the code of its operands. *)
Lemma pushes_bin o w a b v1 v2 w1 w2 v l1 l2 σ ρ d d1 d2 :
  bits w <= bits w1 -> bits w <= bits w2 -> pushes l1 w1 v1 σ ρ d d1 ->
  (forall x ρ', length ρ = S (length ρ') -> pushes l2 w2 v2 (σ ++ [x]) ρ' d1 d2) ->
  a = rd w v1 -> b = rd w v2 -> binop_eval o a b = Some v -> pushes (l1 ++ l2 ++ [binop_instr o w]) w (rd w v) σ ρ d d2.
Proof.
  intros Hw1 Hw2 (x & ρ1 & He1 & Hx & Hl1) H2 -> -> Hv. destruct (H2 x ρ1 Hl1) as (y & ρ2 & He2 & Hy & Hl2).
  exists (wr w v x), (y :: ρ2). rewrite rd_wr. split_and!; [|done|simpl; lia].
  eapply exec_app; [done|]. eapply exec_app; [done|]. rewrite <- app_assoc. subst v1 v2. rewrite !rd_narrow in Hv by done.
  by eapply (exec_bin s Htext (binop_instr o) (binop_eval o)); [destruct o, w| |].
Qed.

(** A store through a pointer on the stack, and the load that follows it. *)
Lemma pushes_store w a v p y w1 σ ρ d d' :
  bits w <= bits w1 -> rd w1 y = v -> u32 p = u32 a -> store_w w (u32 a) v d = Some (tt, d') ->
  exists x, exec s ([FINSH_OP_ST w] ++ [FINSH_OP_LD_VALUE_STACK w]) (σ ++ [p; y], ρ, d) (σ ++ [x], y :: ρ, d') /\ rd w x = rd w v.
Proof.
  intros Hw Hy Hp Hs. pose proof (wide_uwrap w w1 y v Hw Hy) as Eu. rewrite <- Hp in Hs. rewrite <- (store_w_ext _ _ _ _ _ Eu) in Hs.
  destruct (load_after_store _ _ _ _ _ _ Hs) as [x Hx]. exists (wr w x p). rewrite rd_wr. split.
  - eapply exec_app; [by apply exec_st|]. by apply exec_ld_value_stack.
  - rewrite <- (rd_ext _ _ _ Eu). apply rd_ext. by eapply load_store.
Qed.
(** The new value of a variable that is stepped. *)
Definition stepped (inc : bool) (w : width) (v : Z) : Z := rd w (if inc then rd w v + 1 else rd w v - 1).

Lemma pushes_stepped (inc : bool) w a v σ ρ d d1 :
  (2 <= length ρ)%nat -> load_w w (u32 a) d = Some (v, d1) ->
  pushes ((FINSH_OP_LD_VALUE w :: dword a) ++ (FINSH_OP_LD w :: constant w 1) ++ [if inc then FINSH_OP_ADD w else FINSH_OP_SUB w]) w (stepped inc w v) σ ρ d d.
Proof.
  intros Hρ Hl. pose proof (load_w_same _ _ _ _ _ Hl) as ->. replace (constant w 1) with (u8 <$> constant w 1) by (by destruct w).
  replace (if inc then FINSH_OP_ADD w else FINSH_OP_SUB w) with (binop_instr (if inc then Add else Sub) w) by (by destruct inc).
  eapply pushes_bin; [reflexivity|reflexivity|apply pushes_ld_value; [lia|done]| |reflexivity|reflexivity|].
  - intros x ρ' Hρ'. apply pushes_ld. lia.
  - rewrite !rd_rd. replace (rd w 1) with 1 by (by destruct w). by destruct inc.
Qed.

Lemma eval_step_inv inc w a d v d' : eval_step inc w a d = Some (v, d') ->
  exists x, load_w w (u32 a) d = Some (x, d) /\ v = rd w x /\ store_w w (u32 a) (stepped inc w x) d = Some (tt, d').
Proof.
  unfold eval_step. intros (x & d1 & Hl & H2)%bind_Some. pose proof (load_w_same _ _ _ _ _ Hl) as ->.
  apply bind_Some in H2 as ([] & d2 & Hs & [= <- <-]). by exists x.
Qed.

(** Both forms push the address and step the value; then they differ. *)
Lemma exec_stepped inc w a v σ ρ d d' :
  (3 <= length ρ)%nat -> load_w w (u32 a) d = Some (v, d) -> store_w w (u32 a) (stepped inc w v) d = Some (tt, d') ->
  exists p y ρ', exec s ((FINSH_OP_LD DWORD :: dword a) ++ (FINSH_OP_LD_VALUE w :: dword a) ++ (FINSH_OP_LD w :: constant w 1) ++
      [if inc then FINSH_OP_ADD w else FINSH_OP_SUB w] ++ [FINSH_OP_ST w]) (σ, ρ, d) (σ ++ [p], y :: ρ', d') /\
    u32 p = u32 a /\ length ρ = (2 + length ρ')%nat.
Proof.
  intros Hρ Hl Hs. destruct (pushes_ld_dword a σ ρ d ltac:(lia)) as (p & ρ1 & He1 & Hp & Hl1).
  destruct (pushes_stepped inc w a v (σ ++ [p]) ρ1 d d ltac:(lia) Hl) as (y & ρ2 & He2 & Hy & Hl2). exists p, y, ρ2.
  assert (u32 p = u32 a) as Hpa by (rewrite <- (u32_rd p), Hp; apply u32_rd). split_and!; [|done|lia].
  eapply exec_app; [done|]. rewrite !app_assoc. eapply exec_app; [rewrite <- !app_assoc; exact He2|]. rewrite <- app_assoc. apply exec_st; [done|].
  rewrite Hpa, <- Hs. apply store_w_ext. rewrite <- (uwrap_rd w y), Hy. unfold stepped. by rewrite rd_rd || rewrite uwrap_rd.
Qed.

Lemma pushes_pre inc w a v σ ρ d d' z d2 :
  (3 <= length ρ)%nat -> load_w w (u32 a) d = Some (v, d) -> store_w w (u32 a) (stepped inc w v) d = Some (tt, d') -> load32 (u32 a) d' = Some (z, d2) ->
  pushes ((FINSH_OP_LD DWORD :: dword a) ++ (FINSH_OP_LD_VALUE w :: dword a) ++ (FINSH_OP_LD w :: constant w 1) ++
    [if inc then FINSH_OP_ADD w else FINSH_OP_SUB w] ++ [FINSH_OP_ST w] ++ [FINSH_OP_LD_VALUE_STACK DWORD]) w (stepped inc w v) σ ρ d d'.
Proof.
  intros Hρ Hl Hs Hz. destruct (exec_stepped _ _ _ _ σ _ _ _ Hρ Hl Hs) as (p & y & ρ' & He & Hp & Hl'). pose proof (load_w_same DWORD _ _ _ _ Hz) as ->.
  exists (wr DWORD z p), (y :: ρ'). split_and!; [| |simpl; lia].
  - rewrite !app_assoc. eapply exec_app; [rewrite <- !app_assoc; exact He|]. apply exec_ld_value_stack; [done|]. by rewrite Hp.
  - rewrite <- (rd_narrow w DWORD), rd_wr, rd_narrow by (by destruct w). transitivity (rd w (stepped inc w v)); [|apply rd_rd].
    apply rd_ext. eapply (load_store w DWORD); [done|exact Hz|by destruct w].
Qed.

Lemma pushes_post inc w a v σ ρ d d' :
  (4 <= length ρ)%nat -> load_w w (u32 a) d = Some (v, d) -> store_w w (u32 a) (stepped inc w v) d = Some (tt, d') ->
  pushes ((FINSH_OP_LD_VALUE w :: dword a) ++ (FINSH_OP_LD DWORD :: dword a) ++ (FINSH_OP_LD_VALUE w :: dword a) ++ (FINSH_OP_LD w :: constant w 1) ++
    [if inc then FINSH_OP_ADD w else FINSH_OP_SUB w] ++ [FINSH_OP_ST w] ++ [FINSH_OP_POP]) w (rd w v) σ ρ d d'.
Proof.
  intros Hρ Hl Hs. destruct (pushes_ld_value w a v σ ρ d d ltac:(lia) Hl) as (x & ρ1 & He1 & Hx & Hl1).
  destruct (exec_stepped inc w a v (σ ++ [x]) ρ1 d d' ltac:(lia) Hl Hs) as (p & y & ρ' & He & Hp & Hl').
  exists x, (p :: y :: ρ'). split_and!; [|done|simpl; lia]. eapply exec_app; [done|].
  rewrite !app_assoc. eapply exec_app; [rewrite <- !app_assoc; exact He|]. by apply exec_pop.
Qed.
Arguments fits : simpl never.

Lemma fits_inv t e : fits env t e = true -> exists w v, t = Some w /\ value_of e = Some v /\ bits w <= bits v.
Proof. unfold fits. destruct t as [w|], (value_of e) as [v|]; try done. intros ?%Z.leb_le. eauto. Qed.

Lemma variable_inv x w a : variable env x = Some (w, a) -> env x = Some (SymVar w a) \/ env x = Some (SymSysvar w a).
Proof. unfold variable. destruct (env x) as [[]|]; naive_solver. Qed.
Lemma own_variable_inv x w a : own_variable env x = Some (w, a) -> variable env x = Some (w, a).
Proof. unfold own_variable, variable. by destruct (env x) as [[]|]. Qed.

Definition expr_correct (e : expr) : Prop := forall σ ρ d v d' w,
  well_typed e = true -> value_of e = Some w -> eval e d = Some (v, d') -> (depth e <= length ρ)%nat -> pushes (code e) w v σ ρ d d'.
Definition args_correct (l : exprs) : Prop := forall σ ρ d vs d',
  args_typed env l = true -> eval_args env l d = Some (vs, d') -> (args_depth l <= length ρ)%nat ->
  exists xs ρ', exec s (code_args env l) (σ, ρ, d) (σ ++ xs, ρ', d') /\ (rd DWORD <$> xs) = vs /\
    length ρ = (length xs + length ρ')%nat /\ length xs = args_length l.

Ltac eval_inv :=
  repeat match goal with
  | u : unit |- _ => destruct u
  | H : (_ ≫= _) _ = Some (_, _) |- _ => apply bind_Some in H as (? & ? & ? & H)
  | H : getso _ _ = Some (_, _) |- _ => unfold getso in H; cbn beta iota in H
  | H : Some (_, _) = Some (_, _) |- _ => injection H as <- <-
  | H : match ?o with Some _ => Some (_, _) | None => None end = Some (_, _) |- _ => destruct o eqn:?; [|done]; injection H as <- <-
  | H : mret _ _ = Some (_, _) |- _ => injection H as <- <-
  end.

Lemma correct_id x : expr_correct (EId x).
Proof.
  intros σ ρ d v d' w _ Hw He Hρ. simpl in *. unfold function, variable in Hw. destruct (env x) as [[w0 a|w0 a|a]|]; try done; simpl in Hw; injection Hw as <-.
  - eval_inv. by apply pushes_ld_value.
  - eval_inv. by apply pushes_ld_value.
  - eval_inv. by apply pushes_ld_dword.
Qed.

Lemma correct_bin o e1 e2 : expr_correct e1 -> expr_correct e2 -> expr_correct (EBin o e1 e2).
Proof.
  intros IH1 IH2 σ ρ d v d' w Ht Hw He Hρ. simpl in *. rewrite !andb_true_iff in Ht. destruct Ht as [[[Ht1 Ht2] Hf1] Hf2].
  apply fits_inv in Hf1 as (d0 & w1 & Et & Hv1 & Hb1). apply fits_inv in Hf2 as (d1 & w2 & Et' & Hv2 & Hb2).
  rewrite Et in *. injection Et' as <-. injection Hw as <-. eval_inv. simplify_eq.
  eapply pushes_bin; [exact Hb1|exact Hb2|apply IH1; [done..|lia]| |done|done|done].
  intros ? ρ' Hl. apply IH2; [done..|lia].
Qed.

Lemma correct_not e : expr_correct e -> expr_correct (ENot e).
Proof.
  intros IH σ ρ d v d' w Ht Hw He Hρ. simpl in *. rewrite !andb_true_iff in Ht. destruct Ht as [Ht Hf].
  apply fits_inv in Hf as (d0 & w1 & Et & Hv & Hb). rewrite Et in *. injection Hw as <-. eval_inv. simplify_eq.
  destruct (IH σ ρ d _ _ w1 Ht Hv H0 Hρ) as (y & ρ' & He & Hy & Hl). subst. eexists _, ρ'. split; [eapply exec_app; [done|by apply exec_bw]|].
  rewrite rd_wr, rd_narrow by done. done.
Qed.

Lemma correct_neg e : expr_correct e -> expr_correct (ENeg e).
Proof.
  intros IH σ ρ d v d' w Ht Hw He Hρ. simpl in *. rewrite !andb_true_iff in Ht. destruct Ht as [Ht Hf].
  apply fits_inv in Hf as (d0 & w1 & [= <-] & Hv & Hb). injection Hw as <-. eval_inv.
  eapply (pushes_bin Sub DWORD 0 _ (rd DWORD 0) _ DWORD w1 _ (FINSH_OP_LD DWORD :: dword 0)); [reflexivity|exact Hb|apply pushes_ld_dword; lia| |done|done|].
  - intros ? ρ' Hl. apply IH; [done..|lia].
  - reflexivity.
Qed.

Lemma correct_step pre inc x : expr_correct (EStep pre inc x).
Proof.
  intros σ ρ d v d' w Ht Hw He Hρ. simpl in *. apply bool_decide_eq_true in Ht as [[w0 a] Ho]. pose proof (own_variable_inv _ _ _ Ho) as Hx.
  rewrite Hx in *. injection Hw as <-. rewrite Ho in He. eval_inv. simpl in *.
  apply eval_step_inv in H1 as (y & Hl & -> & Hs). destruct pre; eval_inv.
  - match goal with H : load32 _ _ = _ |- _ => pose proof (load_w_same DWORD _ _ _ _ H) as ->; exact (pushes_pre _ _ _ _ _ _ _ _ _ _ Hρ Hl Hs H) end.
  - exact (pushes_post _ _ _ _ _ _ _ _ Hρ Hl Hs).
Qed.

Lemma correct_assign x e : expr_correct e -> expr_correct (EAssign x e).
Proof.
  intros IH σ ρ d v d' w Ht Hw He Hρ. simpl in *. rewrite !andb_true_iff in Ht. destruct Ht as [Ht Hf].
  destruct (variable env x) as [[w0 a]|] eqn:Ex; [|done]. injection Hw as <-. eval_inv. simpl in *.
  apply fits_inv in Hf as (d0 & w1 & [= <-] & Hv & Hb).
  destruct (pushes_ld_dword a σ ρ d ltac:(lia)) as (p & ρ1 & He1 & Hp & Hl1).
  edestruct (IH (σ ++ [p]) ρ1) as (y & ρ2 & He2 & Hy & Hl2); [done|done|eassumption|lia|].
  edestruct (pushes_store w0 a) as (z & He3 & Hz); [exact Hb|exact Hy|rewrite <- (u32_rd p), Hp; apply u32_rd|eassumption|].
  exists z, (y :: ρ2). split_and!; [|done|simpl; lia]. eapply (exec_app _ _ _ _ _ _ He1). eapply (exec_app _ _ _ _ _ _ He2). by rewrite <- app_assoc.
Qed.

Lemma correct_store p e : expr_correct p -> expr_correct e -> expr_correct (EStore p e).
Proof.
  intros IHp IH σ ρ d v d' w Ht Hw He Hρ. simpl in *. rewrite !andb_true_iff in Ht. destruct Ht as [[[Htp Hfp] Ht] Hf].
  apply fits_inv in Hfp as (d0 & wp & [= <-] & Hvp & Hbp). apply fits_inv in Hf as (w0 & w1 & Etp & Hv & Hb). rewrite Etp in *. injection Hw as <-.
  eval_inv. simpl in *.
  edestruct (IHp σ ρ) as (q & ρ1 & He1 & Hq & Hl1); [done|done|eassumption|lia|].
  edestruct (IH (σ ++ [q]) ρ1) as (y & ρ2 & He2 & Hy & Hl2); [done|done|eassumption|lia|].
  edestruct (pushes_store w0) as (z & He3 & Hz); [exact Hb|exact Hy|by eapply wide_u32|eassumption|].
  exists z, (y :: ρ2). split_and!; [|done|simpl; lia]. eapply (exec_app _ _ _ _ _ _ He1). eapply (exec_app _ _ _ _ _ _ He2). by rewrite <- app_assoc.
Qed.

Lemma correct_deref p : expr_correct p -> expr_correct (EDeref p).
Proof.
  intros IH σ ρ d v d' w Ht Hw He Hρ. simpl in *. rewrite !andb_true_iff in Ht. destruct Ht as [[Ht Hf] _].
  apply fits_inv in Hf as (d0 & w1 & [= <-] & Hv & Hb). rewrite Hw in *. eval_inv. simpl in *.
  edestruct (IH σ ρ) as (q & ρ1 & He1 & Hq & Hl1); [done|done|eassumption|lia|].
  match goal with H : load_w _ _ _ = _ |- _ => pose proof (load_w_same _ _ _ _ _ H) as ->; rename H into Hload end.
  eexists _, ρ1. split; [eapply (exec_app _ _ _ _ _ _ He1), exec_ld_value_stack; [done|]|split; [apply rd_wr|done]].
  by rewrite (wide_u32 _ _ _ Hb Hq).
Qed.

Lemma correct_call f l : args_correct l -> expr_correct (ECall f l).
Proof.
  intros IH σ ρ d v d' w Ht Hw He Hρ. simpl in *. rewrite !andb_true_iff in Ht. destruct Ht as [[_ Hn] Hl]. apply Nat.leb_le in Hn.
  destruct (function env f) as [a|]; [|done]. injection Hw as <-. eval_inv. simpl in *.
  destruct (pushes_ld_dword a σ ρ d ltac:(lia)) as (p & ρ1 & He1 & Hp & Hl1).
  edestruct (IH (σ ++ [p]) ρ1) as (xs & ρ2 & He2 & Hxs & Hl2 & Hlen); [done|eassumption|lia|].
  match goal with H : syscall _ _ _ = _ |- _ => rename H into Hcall end.
  eexists _, (xs ++ ρ2). split; [|split; [|rewrite length_app; lia]].
  - eapply (exec_app _ _ _ _ _ _ He1). eapply (exec_app _ _ _ _ _ _ He2). rewrite <- Hlen, <- app_assoc.
    rewrite (uwrap_small 8) by (rewrite Hlen; lia). apply exec_call; [done|lia|].
    rewrite (wide_u32 DWORD p _ ltac:(done) Hp), u32_rd. replace (u32 <$> xs) with (u32 <$> (rd DWORD <$> xs)); [by rewrite Hxs; destruct xs; subst|].
    rewrite <- list_fmap_compose. apply list_fmap_ext. intros i z _. apply u32_rd.
  - exact (rd_uwrap DWORD _).
Qed.

Lemma correct_args e l : expr_correct e -> args_correct l -> args_correct (ACons e l).
Proof.
  intros IHe IH σ ρ d vs d' Ht He Hρ. simpl in *. rewrite !andb_true_iff in Ht. destruct Ht as [[Ht Hf] Hl].
  apply fits_inv in Hf as (d0 & w1 & [= <-] & Hv & Hb). eval_inv.
  edestruct (IHe σ ρ) as (y & ρ1 & He1 & Hy & Hl1); [done|done|eassumption|lia|].
  edestruct (IH (σ ++ [y]) ρ1) as (xs & ρ2 & He2 & Hxs & Hl2 & Hlen); [done|eassumption|lia|].
  exists (y :: xs), ρ2. split_and!; [|simpl; f_equal; [|done]|simpl; lia|simpl; lia].
  - eapply (exec_app _ _ _ _ _ _ He1). by rewrite <- app_assoc in He2.
  - destruct w1; simpl in *; done || lia.
Qed.

Lemma code_correct_mut : (forall e, expr_correct e) /\ (forall l, args_correct l).
Proof.
  apply expr_ind2; intros; auto using correct_id, correct_bin, correct_not, correct_neg, correct_step, correct_assign, correct_store, correct_deref,
    correct_call, correct_args.
  - intros σ ρ d v d' w _ [= <-] [= <- <-] Hρ. by apply pushes_ld_dword.
  - intros σ ρ d v d' w _ [= <-] [= <- <-] Hρ. exact (pushes_ld BYTE c σ ρ d Hρ).
  - intros σ ρ d v d' w _ [= <-] [= <- <-] Hρ. exact (pushes_ld_dword 0 σ ρ d Hρ).
  - intros σ ρ d v d' w Ht Hw He Hρ. simpl in *. destruct (variable env x) as [[w0 a]|]; [|done]. injection Hw as <-. eval_inv. by apply pushes_ld_dword.
  - intros σ ρ d vs d' _ [= <- <-] Hρ. exists [], ρ. rewrite app_nil_r. split_and!; [apply exec_nil|done..].
Qed.

(** The code for a well-typed expression that has a value leaves it on top of the stack, and in the memory what it assigns. *)
Theorem code_correct e σ ρ d v d' w :
  well_typed e = true -> value_of e = Some w -> eval e d = Some (v, d') -> (depth e <= length ρ)%nat -> pushes (code e) w v σ ρ d d'.
Proof. apply code_correct_mut. Qed.

Lemma program_correct l σ ρ d v d' w :
  program_typed env l = true -> program_value env l = Some w -> eval_program env l d = Some (v, d') -> (program_depth l <= length ρ)%nat ->
  pushes (program_code env l) w v σ ρ d d'.
Proof.
  revert ρ d. induction l as [|e l IH]; intros ρ d Ht Hw He Hρ; [done|].
  cbn [program_typed program_depth] in *. rewrite !andb_true_iff in Ht. destruct Ht as ((Ht & Hv) & Hts).
  apply bool_decide_eq_true in Hv as [w1 Hv]. destruct l as [|e2 l]; [simpl; rewrite app_nil_r; apply code_correct_mut; [done..|lia]|].
  cbn [eval_program program_value] in *. apply bind_Some in He as (v1 & d1 & He1 & He).
  destruct (proj1 code_correct_mut e σ ρ d v1 d1 w1 Ht Hv He1 ltac:(lia)) as (x & ρ1 & Hx & _ & Hl1).
  destruct (IH (x :: ρ1) d1 Hts Hw He) as (y & ρ2 & Hy & Hyw & Hl2); [simpl in *; lia|].
  exists y, ρ2. split_and!; [|done|simpl in *; lia].
  eapply exec_app; [exact Hx|]. change (FINSH_OP_POP :: ?l) with ([FINSH_OP_POP] ++ l). eapply exec_app; [by apply exec_pop|exact Hy].
Qed.
End correct.
