(* ===== verification/FinshCompiler.v ===== *)
(** The compiler of the finsh shell (components/finsh/finsh_compiler.c): from the nodes of an expression to code of the virtual machine. *)

From S2P Require Import Prelude ByteMem FinshDef FinshVm.

(** ** Code *)

(** [finsh_code_byte(x)] *)
Definition finsh_code_byte (x : Z) : FM unit :=
  pc ← gets finsh_compile_pc;
  text ← gets text_segment;
  getso (fun _ => if 0 <=? pc then text !! Z.to_nat pc else None);;
  modify (fun s => set_finsh_compile_pc (pc + 1) (set_text_segment (<[Z.to_nat pc := u8 x]> text) s)).

Fixpoint finsh_code (l : list Z) : FM unit :=
  match l with [] => mret tt | x :: l => finsh_code_byte x;; finsh_code l end.

(** The cases of a [switch]. *)
Definition one_of (x : Z) (l : list Z) : bool := existsb (Z.eqb x) l.

(** The width of the values of a variable with a type, where the compiler knows one. *)
Definition value_width (type : Z) : option width :=
  if one_of type [finsh_type_char; finsh_type_uchar] then Some BYTE
  else if one_of type [finsh_type_short; finsh_type_ushort] then Some WORD
  else if one_of type [finsh_type_int; finsh_type_uint; finsh_type_long; finsh_type_ulong;
      finsh_type_charp; finsh_type_shortp; finsh_type_intp; finsh_type_longp] then Some DWORD
  else None.

Definition data_width (data_type : Z) : option width :=
  if data_type =? FINSH_DATA_TYPE_BYTE then Some BYTE
  else if data_type =? FINSH_DATA_TYPE_WORD then Some WORD
  else if data_type =? FINSH_DATA_TYPE_DWORD then Some DWORD
  else None.

Definition data_of_width (w : width) : Z :=
  match w with BYTE => FINSH_DATA_TYPE_BYTE | WORD => FINSH_DATA_TYPE_WORD | DWORD => FINSH_DATA_TYPE_DWORD end.

(** The instruction of an operator. *)
Definition node_op (node_type : Z) : option (width -> Z) :=
  if node_type =? FINSH_NODE_SYS_ADD then Some FINSH_OP_ADD
  else if node_type =? FINSH_NODE_SYS_SUB then Some FINSH_OP_SUB
  else if node_type =? FINSH_NODE_SYS_MUL then Some FINSH_OP_MUL
  else if node_type =? FINSH_NODE_SYS_DIV then Some FINSH_OP_DIV
  else if node_type =? FINSH_NODE_SYS_MOD then Some FINSH_OP_MOD
  else if node_type =? FINSH_NODE_SYS_AND then Some FINSH_OP_AND
  else if node_type =? FINSH_NODE_SYS_OR then Some FINSH_OP_OR
  else if node_type =? FINSH_NODE_SYS_XOR then Some FINSH_OP_XOR
  else if node_type =? FINSH_NODE_SYS_BITWISE then Some FINSH_OP_BITWISE
  else if node_type =? FINSH_NODE_SYS_SHL then Some FINSH_OP_SHL
  else if node_type =? FINSH_NODE_SYS_SHR then Some FINSH_OP_SHR
  else None.

(** The code for the node alone and its error; [None] is an access through a pointer to something else. *)
Definition code_of := option (list Z * option Z).
Definition emits (l : list Z) : code_of := Some (l, None).
Definition fails (e : Z) : code_of := Some ([], Some e).

Definition has_bit (v b : Z) : bool := negb (v .& b =? 0).

(** The address or the value of a variable at [a]. *)
Definition code_load (address : bool) (w : width) (a : Z) : list Z :=
  (if address then FINSH_OP_LD DWORD else FINSH_OP_LD_VALUE w) :: dword a.

Definition code_store (w : width) : list Z := [FINSH_OP_ST w; FINSH_OP_LD_VALUE_STACK w].

(** [++id] and [--id] behind the address of the variable, [id++] and [id--] behind its value; [op] adds or subtracts. *)
Definition code_pre (op : width -> Z) (w : width) (a : Z) : list Z :=
  code_load false w a ++ FINSH_OP_LD w :: constant w 1 ++ [op w; FINSH_OP_ST w; FINSH_OP_LD_VALUE_STACK DWORD].
Definition code_post (op : width -> Z) (w : width) (a : Z) : list Z :=
  code_load true w a ++ code_load false w a ++ FINSH_OP_LD w :: constant w 1 ++ [op w; FINSH_OP_ST w; FINSH_OP_POP].

Section compiler.
Context `{FinshLayout}.

Definition code_id (s : finsh) (node : finsh_node) : code_of :=
  let address := has_bit (nd_idtype node) FINSH_IDTYPE_ADDRESS in
  if has_bit (nd_idtype node) FINSH_IDTYPE_SYSCALL then
    p ← nd_id node; sc ← syscall_at (id_addr p) s;
    emits (FINSH_OP_LD DWORD :: dword (sc_func sc))
  else if has_bit (nd_idtype node) FINSH_IDTYPE_SYSVAR then
    match nd_id node with
    | None => emits []
    | Some p =>
        sv ← sysvar_at (id_addr p) s;
        emits (match value_width (sv_type sv) with Some w => code_load address w (sv_var sv) | None => [] end)
    end
  else
    match nd_id node with
    | None => emits []
    | Some (IdVar i) =>
        v ← global_variable s !! i;
        emits (match value_width (var_type v) with Some w => code_load address w (var_value_addr (nd_id node)) | None => [] end)
    | Some _ => None
    end.

(** The [switch] on the type of a node with its first child and the number of the siblings of that. *)
Definition code_node (s : finsh) (node : finsh_node) (child : option finsh_node) (parameters : Z) : code_of :=
  let type := nd_node_type node in
  let child_is t := match child with Some c => nd_node_type c =? t | None => false end in
  let step code op :=
    emits (if child_is FINSH_NODE_ID then
             match child, data_width (nd_data_type node) with Some c, Some w => code op w (var_value_addr (nd_id c)) | _, _ => [] end
           else []) in
  if type =? FINSH_NODE_ID then code_id s node
  else if type =? FINSH_NODE_VALUE_CHAR then emits [FINSH_OP_LD BYTE; u8 (nd_value node)]
  else if one_of type [FINSH_NODE_VALUE_INT; FINSH_NODE_VALUE_LONG; FINSH_NODE_VALUE_NULL; FINSH_NODE_VALUE_STRING] then
    emits (FINSH_OP_LD DWORD :: dword (nd_value node))
  else match node_op type with
  | Some op => emits (match data_width (nd_data_type node) with Some w => [op w] | None => [] end)
  | None =>
      if type =? FINSH_NODE_SYS_FUNC then emits (match child with Some _ => [FINSH_OP_SYSCALL; u8 parameters] | None => [] end)
      else if type =? FINSH_NODE_SYS_ASSIGN then
        c ← child;
        if nd_node_type c =? FINSH_NODE_ID then
          match data_width (nd_data_type c) with Some w => emits (code_store w) | None => fails FINSH_ERROR_UNKNOWN_TYPE end
        else if nd_node_type c =? FINSH_NODE_SYS_GETVALUE then
          match data_width (nd_data_type c .& 15) with Some w => emits (code_store w) | None => fails FINSH_ERROR_UNKNOWN_TYPE end
        else emits []
      else if type =? FINSH_NODE_SYS_PREINC then step code_pre FINSH_OP_ADD
      else if type =? FINSH_NODE_SYS_PREDEC then step code_pre FINSH_OP_SUB
      else if type =? FINSH_NODE_SYS_INC then step code_post FINSH_OP_ADD
      else if type =? FINSH_NODE_SYS_DEC then step code_post FINSH_OP_SUB
      else if type =? FINSH_NODE_SYS_NULL then emits (dword 0)
      else if type =? FINSH_NODE_SYS_GETVALUE then
        emits (if has_bit (nd_idtype node) FINSH_IDTYPE_ADDRESS then []
               else match data_width (nd_data_type node) with Some w => [FINSH_OP_LD_VALUE_STACK w] | None => [] end)
      else if type =? FINSH_NODE_SYS_GETADDR then emits []
      else fails FINSH_ERROR_UNKNOWN_NODE
  end.

(** ** The nodes *)

Definition get_node (i : nat) : FM finsh_node := getso (fun s => global_node_table s !! i).
Definition upd_node (i : nat) (f : finsh_node -> finsh_node) : FM unit :=
  n ← get_node i; modify (fun s => set_global_node_table (<[i := f n]> (global_node_table s)) s).

Fixpoint count_siblings (fuel : nat) (p : option nat) : FM Z :=
  match fuel, p with
  | O, _ => rt_panic
  | S fuel, None => mret 0
  | S fuel, Some i => n ← get_node i; k ← count_siblings fuel (nd_sibling n); mret (k + 1)
  end.

Fixpoint finsh_compile (fuel : nat) (p : option nat) : FM unit :=
  match fuel, p with
  | O, _ => rt_panic
  | S fuel, None => mret tt
  | S fuel, Some i =>
      node ← get_node i;
      finsh_compile fuel (nd_child node);;
      child ← (match nd_child node with Some c => n ← get_node c; mret (Some n) | None => mret None end);
      parameters ← count_siblings fuel (child ≫= nd_sibling);
      code ← getso (fun s => code_node s node child parameters);
      finsh_code code.1;;
      (match code.2 with Some e => finsh_error_set e | None => mret tt end);;
      finsh_compile fuel (nd_sibling node)
  end.

(** ** Types *)

(** The data type of a variable, or none with an error. *)
Definition data_of_type (type : Z) : option Z :=
  if type =? finsh_type_void then Some FINSH_DATA_TYPE_VOID
  else if one_of type [finsh_type_char; finsh_type_uchar] then Some FINSH_DATA_TYPE_BYTE
  else if one_of type [finsh_type_short; finsh_type_ushort] then Some FINSH_DATA_TYPE_WORD
  else if one_of type [finsh_type_int; finsh_type_uint; finsh_type_long; finsh_type_ulong;
      finsh_type_charp; finsh_type_voidp; finsh_type_shortp; finsh_type_intp; finsh_type_longp] then Some FINSH_DATA_TYPE_DWORD
  else None.

Definition set_data_of_type (i : nat) (type : Z) : FM unit :=
  match data_of_type type with
  | Some d => upd_node i (set_nd_data_type d)
  | None => finsh_error_set FINSH_ERROR_UNKNOWN_TYPE
  end.

(** The data type of a node without children. *)
Definition check_leaf (i : nat) (node : finsh_node) : FM unit :=
  if nd_node_type node =? FINSH_NODE_ID then
    if has_bit (nd_idtype node) FINSH_IDTYPE_VAR then
      match nd_id node with
      | None => mret tt
      | Some (IdVar v) => var ← getso (fun s => global_variable s !! v); set_data_of_type i (var_type var)
      | Some _ => rt_panic
      end
    else if has_bit (nd_idtype node) FINSH_IDTYPE_SYSVAR then
      match nd_id node with
      | None => mret tt
      | Some p => sv ← getso (sysvar_at (id_addr p)); set_data_of_type i (sv_type sv)
      end
    else mret tt
  else if nd_node_type node =? FINSH_NODE_VALUE_CHAR then upd_node i (set_nd_data_type FINSH_DATA_TYPE_BYTE)
  else if one_of (nd_node_type node) [FINSH_NODE_VALUE_INT; FINSH_NODE_VALUE_LONG; FINSH_NODE_VALUE_STRING; FINSH_NODE_VALUE_NULL] then
    upd_node i (set_nd_data_type FINSH_DATA_TYPE_DWORD)
  else mret tt.

(** The attribute that a node gives to its children. *)
Definition child_attribute (node_type is_addr : Z) : Z :=
  if one_of node_type [FINSH_NODE_SYS_ASSIGN; FINSH_NODE_SYS_PREINC; FINSH_NODE_SYS_PREDEC; FINSH_NODE_SYS_GETADDR] then FINSH_IDTYPE_ADDRESS
  else if (node_type =? FINSH_NODE_SYS_GETVALUE) && negb (is_addr =? 0) then 0
  else is_addr.

Fixpoint finsh_type_check (fuel : nat) (p : option nat) (is_addr : Z) : FM unit :=
  match fuel, p with
  | O, _ => rt_panic
  | S fuel, None => mret tt
  | S fuel, Some i =>
      node ← get_node i;
      finsh_type_check fuel (nd_child node) (child_attribute (nd_node_type node) is_addr);;
      finsh_type_check fuel (nd_sibling node) FINSH_NODE_VALUE;;
      upd_node i (fun n => if nd_idtype n =? FINSH_IDTYPE_SYSCALL then n else set_nd_idtype (nd_idtype n .| is_addr) n);;
      node ← get_node i;
      match nd_child node with
      | Some c => child ← get_node c; upd_node i (set_nd_data_type (nd_data_type child))
      | None => check_leaf i node
      end
  end.

(** ** The compiler *)

(** [while (sibling != NULL)] *)
Fixpoint compile_loop (fuel : nat) (sibling : option nat) : FM unit :=
  match fuel, sibling with
  | O, _ => rt_panic
  | S fuel, None => mret tt
  | S fuel, Some current_node =>
      node ← get_node current_node;
      upd_node current_node (set_nd_sibling None);;
      finsh_compile (S (Z.to_nat FINSH_NODE_MAX)) (Some current_node);;
      when (bool_decide (is_Some (nd_sibling node))) (finsh_code_byte FINSH_OP_POP);;
      compile_loop fuel (nd_sibling node)
  end.

Definition finsh_compiler_run (node : option nat) : FM unit :=
  let fuel := S (Z.to_nat FINSH_NODE_MAX) in
  finsh_type_check fuel node FINSH_NODE_VALUE;;
  modify (set_text_segment (replicate (Z.to_nat FINSH_TEXT_MAX) 0));;
  modify (fun s => set_finsh_vm_stack (<[0%nat := 0]> (finsh_vm_stack s)) s);;
  modify (set_finsh_compile_pc 0);;
  compile_loop fuel node.
End compiler.
