(* ===== verification/FinshTree.v ===== *)
(** The nodes of the finsh shell as trees: the pointer code of the compiler computes functions on them. *)

From S2P Require Import Prelude ByteMem FinshDef FinshVm FinshCompiler.

(** A list of trees, each with its index in [global_node_table]: the first one, its children, its siblings. *)
Inductive forest := FNil | FCons (i : nat) (nd : finsh_node) (child sib : forest).

Definition root_of (F : forest) : option nat := match F with FNil => None | FCons i _ _ _ => Some i end.
Definition head_of (F : forest) : option finsh_node := match F with FNil => None | FCons _ nd _ _ => Some nd end.
Definition tail_of (F : forest) : forest := match F with FNil => FNil | FCons _ _ _ sib => sib end.
Fixpoint ids (F : forest) : list nat := match F with FNil => [] | FCons i _ ch sib => i :: ids ch ++ ids sib end.
Fixpoint siblings (F : forest) : nat := match F with FNil => 0 | FCons _ _ _ sib => S (siblings sib) end.
Abbreviation size F := (length (ids F)).

(** The table holds the forest. *)
Fixpoint rep (tbl : list finsh_node) (F : forest) : Prop :=
  match F with
  | FNil => True
  | FCons i nd ch sib => tbl !! i = Some nd /\ nd_child nd = root_of ch /\ nd_sibling nd = root_of sib /\ rep tbl ch /\ rep tbl sib
  end.

Lemma siblings_size F : (siblings F <= size F)%nat.
Proof. induction F as [|i nd ch _ sib IH]; simpl; [lia|]. rewrite length_app. lia. Qed.

Lemma rep_agree tbl tbl' F : (forall j, j ∈ ids F -> tbl' !! j = tbl !! j) -> rep tbl F -> rep tbl' F.
Proof.
  induction F as [|i nd ch IHc sib IHs]; simpl; [done|]. intros Hag (Hi & Hc & Hs & Hrc & Hrs).
  rewrite Hag by left. split_and!; [done..| |].
  - apply IHc; [|done]. intros j Hj. apply Hag. right. apply elem_of_app. by left.
  - apply IHs; [|done]. intros j Hj. apply Hag. right. apply elem_of_app. by right.
Qed.

Section trees.
Context `{FinshLayout}.

(** ** Code *)

(** The code of a forest, if there is no error in it. *)
Fixpoint code_forest (s : finsh) (F : forest) : option (list Z) :=
  match F with
  | FNil => Some []
  | FCons _ nd ch sib =>
      a ← code_forest s ch;
      own ← code_node s nd (head_of ch) (Z.of_nat (siblings (tail_of ch)));
      b ← code_forest s sib;
      match own with (l, None) => Some (a ++ l ++ b) | _ => None end
  end.

(** The symbols that the code depends on. *)
Record same_symbols (s s' : finsh) : Prop := {
  ss_variable : global_variable s' = global_variable s;
  ss_sysvar : sysvar_table s' = sysvar_table s;
  ss_sysvar_list : global_sysvar_list s' = global_sysvar_list s;
  ss_syscall : syscall_table s' = syscall_table s;
  ss_syscall_list : global_syscall_list s' = global_syscall_list s;
}.

#[export] Instance same_symbols_preorder : PreOrder same_symbols.
Proof. split; [done|]. intros s1 s2 s3 [] []. split; congruence. Qed.

Lemma code_node_symbols s s' nd child n : same_symbols s s' -> code_node s' nd child n = code_node s nd child n.
Proof. intros [H1 H2 H3 H4 H5]. unfold code_node, code_id, sysvar_at, syscall_at. by rewrite H1, H2, H3, H4, H5. Qed.

Lemma code_forest_symbols s s' F : same_symbols s s' -> code_forest s' F = code_forest s F.
Proof.
  intros Hs. induction F as [|i nd ch IHc sib IHs]; simpl; [done|]. by rewrite IHc, IHs, (code_node_symbols s s').
Qed.

(** [l] has been written behind the code so far. *)
Definition emitted (l : list Z) (s : finsh) : finsh :=
  set_finsh_compile_pc (finsh_compile_pc s + Z.of_nat (length l))
    (set_text_segment (take (Z.to_nat (finsh_compile_pc s)) (text_segment s) ++ (u8 <$> l) ++
       drop (Z.to_nat (finsh_compile_pc s) + length l) (text_segment s)) s).

(** There is room for [l]. *)
Definition room (l : list Z) (s : finsh) : Prop :=
  0 <= finsh_compile_pc s /\ finsh_compile_pc s + Z.of_nat (length l) <= Z.of_nat (length (text_segment s)).

Lemma emitted_nil s : emitted [] s = s.
Proof. unfold emitted. simpl. rewrite Z.add_0_r, Nat.add_0_r, take_drop. by destruct s. Qed.

Lemma emitted_app l1 l2 s : room (l1 ++ l2) s -> emitted l2 (emitted l1 s) = emitted (l1 ++ l2) s.
Proof.
  unfold room. rewrite length_app. intros [H0 Hr]. unfold emitted, set_finsh_compile_pc, set_text_segment. cbn. f_equal; [|rewrite length_app; lia].
  set (p := Z.to_nat (finsh_compile_pc s)). set (t := text_segment s). 
  replace (Z.to_nat (finsh_compile_pc s + Z.of_nat (length l1))) with (p + length l1)%nat by (unfold p; lia).
  assert (length (take p t) = p) as Hp by (rewrite length_take; unfold p, t; lia).
  set (X := take p t ++ (u8 <$> l1) ++ drop (p + length l1) t).
  assert (take (p + length l1) X = take p t ++ (u8 <$> l1)) as ->.
  { unfold X. rewrite app_assoc. apply take_app_length'. by rewrite length_app, Hp, length_fmap. }
  assert (drop (p + length l1 + length l2) X = drop (p + length (l1 ++ l2)) t) as ->.
  { unfold X. rewrite app_assoc, drop_app_ge by (rewrite length_app, Hp, length_fmap; lia). rewrite drop_drop, !length_app, Hp, length_fmap. f_equal. lia. }
  by rewrite fmap_app, <- !app_assoc.
Qed.

Lemma text_room_app l1 l2 s : room (l1 ++ l2) s -> room l1 s /\ room l2 (emitted l1 s).
Proof.
  unfold room. rewrite length_app. intros [H0 Hr]. split; [lia|]. unfold emitted. cbn. rewrite !length_app, length_take, length_drop, length_fmap. lia.
Qed.

Lemma wp_finsh_code l s (Q : unit -> finsh -> Prop) : room l s -> Q tt (emitted l s) -> wp (finsh_code l) Q s.
Proof.
  revert s Q. induction l as [|x l IH]; intros s Q Hr HQ; cbn [finsh_code]; [by rewrite emitted_nil in HQ|].
  destruct (text_room_app [x] l s Hr) as [[H0 Hx] Hl]. rewrite wp_bind. unfold finsh_code_byte.
  simpl in Hx. destruct (lookup_lt_is_Some_2 (text_segment s) (Z.to_nat (finsh_compile_pc s))) as [y Hy]; [lia|].
  wp_norm. rewrite wp_getso. exists y. split; [by destruct (Z.leb_spec 0 (finsh_compile_pc s)); [|lia]|]. wp_norm.
  match goal with |- wp _ _ ?s' => replace s' with (emitted [x] s) end.
  - apply IH; [done|]. by rewrite emitted_app.
  - unfold emitted, set_finsh_compile_pc, set_text_segment. cbn. f_equal.
    rewrite insert_take_drop by lia. do 3 f_equal. lia.
Qed.

Lemma wp_count_siblings fuel F s Q :
  rep (global_node_table s) F -> (siblings F < fuel)%nat -> Q (Z.of_nat (siblings F)) s -> wp (count_siblings fuel (root_of F)) Q s.
Proof.
  revert F Q. induction fuel as [|fuel IH]; intros [|i nd ch sib] Q Hrep Hf HQ; simpl in *; try lia; [done|].
  destruct Hrep as (Hi & _ & Hs & _ & Hrs). wp_norm. unfold get_node. rewrite wp_getso. exists nd. split; [done|]. wp_norm. rewrite Hs.
  apply IH; [done|lia|]. wp_norm. by replace (Z.of_nat (siblings sib) + 1) with (Z.of_nat (S (siblings sib))) by lia.
Qed.

Lemma root_bind F tbl nd : rep tbl F -> head_of F = Some nd -> nd_sibling nd = root_of (tail_of F).
Proof. destruct F; simpl; [done|]. by intros (_ & _ & Hs & _) [= <-]. Qed.

(** The pointer code of [finsh_compile] writes the code of the forest. *)
Lemma wp_finsh_compile fuel F s l (Q : unit -> finsh -> Prop) :
  rep (global_node_table s) F -> (size F < fuel)%nat -> code_forest s F = Some l -> room l s -> Q tt (emitted l s) -> wp (finsh_compile fuel (root_of F)) Q s.
Proof.
  revert F s l Q. induction fuel as [|fuel IH]; intros [|i nd ch sib] s l Q Hrep Hf Hcode Hroom HQ; simpl in *; try lia.
  { injection Hcode as <-. by rewrite emitted_nil in HQ. }
  destruct Hrep as (Hi & Hc & Hs & Hrc & Hrs). rewrite length_app in Hf.
  destruct (code_forest s ch) as [a|] eqn:Ea; [|done]. simpl in Hcode.
  destruct (code_node s nd (head_of ch) (Z.of_nat (siblings (tail_of ch)))) as [[own e]|] eqn:Eo; [|done]. simpl in Hcode.
  destruct (code_forest s sib) as [b|] eqn:Eb; [|done]. simpl in Hcode. destruct e; [done|]. injection Hcode as <-.
  destruct (text_room_app a _ s Hroom) as [Hra Hr]. destruct (text_room_app own b _ Hr) as [Hro Hrb].
  wp_norm. unfold get_node. rewrite wp_getso. exists nd. split; [done|]. wp_norm. rewrite Hc.
  apply (IH ch s a); [done|lia|done|done|]. wp_norm.
  assert (wp (match root_of ch with Some c => n ← getso (fun s => global_node_table s !! c); mret (Some n) | None => mret None end)
    (fun o s' => o = head_of ch /\ s' = emitted a s) (emitted a s)) as Hchild.
  { destruct ch as [|c cn cc cs]; [done|]. destruct Hrc as (Hcn & _). simpl. rewrite wp_bind, wp_getso. exists cn. by split. }
  eapply wp_mono; [exact Hchild|]. intros o s' [-> ->].
  assert (head_of ch ≫= nd_sibling = root_of (tail_of ch)) as Ec by (destruct ch; [done|]; by destruct Hrc as (_ & _ & ? & _)).
  rewrite wp_bind, Ec. apply wp_count_siblings; [by destruct ch; [|destruct Hrc as (_ & _ & _ & _ & ?)]| |].
  { pose proof (siblings_size (tail_of ch)). destruct ch; simpl in *; [lia|]. rewrite length_app in *. lia. }
  wp_norm. rewrite wp_getso. exists (own, None). split; [exact Eo|]. wp_norm. apply wp_finsh_code; [done|]. simpl. wp_norm. rewrite Hs.
  apply (IH sib _ b); [done|lia|by rewrite (code_forest_symbols s)|done|]. rewrite emitted_app by done. by rewrite emitted_app.
Qed.
(** ** Types *)

(** The node with its data type, where that is known. *)
Definition typed_as (type : Z) (nd : finsh_node) : option finsh_node := (fun d => set_nd_data_type d nd) <$> data_of_type type.

Definition leaf (s : finsh) (nd : finsh_node) : option finsh_node :=
  if nd_node_type nd =? FINSH_NODE_ID then
    if has_bit (nd_idtype nd) FINSH_IDTYPE_VAR then
      match nd_id nd with
      | None => Some nd
      | Some (IdVar v) => var ← global_variable s !! v; typed_as (var_type var) nd
      | Some _ => None
      end
    else if has_bit (nd_idtype nd) FINSH_IDTYPE_SYSVAR then
      match nd_id nd with
      | None => Some nd
      | Some p => sv ← sysvar_at (id_addr p) s; typed_as (sv_type sv) nd
      end
    else Some nd
  else if nd_node_type nd =? FINSH_NODE_VALUE_CHAR then Some (set_nd_data_type FINSH_DATA_TYPE_BYTE nd)
  else if one_of (nd_node_type nd) [FINSH_NODE_VALUE_INT; FINSH_NODE_VALUE_LONG; FINSH_NODE_VALUE_STRING; FINSH_NODE_VALUE_NULL] then
    Some (set_nd_data_type FINSH_DATA_TYPE_DWORD nd)
  else Some nd.

Definition mark (is_addr : Z) (nd : finsh_node) : finsh_node :=
  if nd_idtype nd =? FINSH_IDTYPE_SYSCALL then nd else set_nd_idtype (nd_idtype nd .| is_addr) nd.

(** The forest with its attributes and data types. *)
Fixpoint check (s : finsh) (is_addr : Z) (F : forest) : option forest :=
  match F with
  | FNil => Some FNil
  | FCons i nd ch sib =>
      ch' ← check s (child_attribute (nd_node_type nd) is_addr) ch;
      sib' ← check s FINSH_NODE_VALUE sib;
      nd' ← match head_of ch' with
            | Some c => Some (set_nd_data_type (nd_data_type c) (mark is_addr nd))
            | None => leaf s (mark is_addr nd)
            end;
      Some (FCons i nd' ch' sib')
  end.

Lemma leaf_links s nd nd' : leaf s nd = Some nd' -> exists d, nd' = set_nd_data_type d nd.
Proof.
  unfold leaf, typed_as.
  assert (exists d, nd = set_nd_data_type d nd) as Hid by (by exists (nd_data_type nd); destruct nd).
  repeat case_match; intros E; simplify_option_eq; eauto; destruct (data_of_type _) eqn:?; naive_solver.
Qed.

Lemma mark_links a nd : nd_child (mark a nd) = nd_child nd /\ nd_sibling (mark a nd) = nd_sibling nd.
Proof. unfold mark. by destruct (_ =? _). Qed.

Lemma check_root s a F F' : check s a F = Some F' -> root_of F' = root_of F /\ ids F' = ids F.
Proof.
  revert a F'. induction F as [|i nd ch IHc sib IHs]; intros a F' E; simpl in E; [by injection E as <-|].
  destruct (check s _ ch) as [ch'|] eqn:Ec; [|done]. simpl in E. destruct (check s _ sib) as [sib'|] eqn:Es; [|done]. simpl in E.
  destruct (match head_of ch' with Some _ => _ | None => _ end) as [nd'|]; [|done]. injection E as <-. simpl.
  apply IHc in Ec as [_ ->]. by apply IHs in Es as [_ ->].
Qed.

(** What a check changes: the nodes of the forest. *)
Definition checked (F' : forest) (s s' : finsh) : Prop :=
  exists tbl, s' = set_global_node_table tbl s /\ rep tbl F' /\ length tbl = length (global_node_table s) /\
    (forall j, j ∉ ids F' -> tbl !! j = global_node_table s !! j).

Lemma leaf_symbols s s' nd : same_symbols s s' -> leaf s' nd = leaf s nd.
Proof. intros [H1 H2 H3 H4 H5]. unfold leaf, sysvar_at. by rewrite H1, H2, H3. Qed.
Lemma check_symbols s s' a F : same_symbols s s' -> check s' a F = check s a F.
Proof.
  intros Hs. revert a. induction F as [|i nd ch IHc sib IHs]; intros a; simpl; [done|]. rewrite IHc, IHs.
  destruct (check s _ ch) as [ch'|]; [|done]. simpl. destruct (check s _ sib) as [sib'|]; [|done]. simpl.
  destruct (head_of ch'); [done|]. by rewrite (leaf_symbols s s').
Qed.
Lemma checked_symbols F s s' : checked F s s' -> same_symbols s s'.
Proof. by intros (tbl & -> & _). Qed.

Lemma wp_upd_node i f s nd (Q : unit -> finsh -> Prop) :
  global_node_table s !! i = Some nd -> Q tt (set_global_node_table (<[i := f nd]> (global_node_table s)) s) -> wp (upd_node i f) Q s.
Proof. intros Hi HQ. unfold upd_node, get_node. wp_norm. rewrite wp_getso. exists nd. split; [done|]. by wp_norm. Qed.

Lemma wp_get_node i s nd (Q : finsh_node -> finsh -> Prop) : global_node_table s !! i = Some nd -> Q nd s -> wp (get_node i) Q s.
Proof. intros Hi HQ. unfold get_node. rewrite wp_getso. by exists nd. Qed.

Lemma wp_set_data_of_type i type s nd nd' (Q : unit -> finsh -> Prop) :
  global_node_table s !! i = Some nd -> typed_as type nd = Some nd' -> Q tt (set_global_node_table (<[i := nd']> (global_node_table s)) s) ->
  wp (set_data_of_type i type) Q s.
Proof.
  intros Hi Ht HQ. unfold typed_as in Ht. unfold set_data_of_type. destruct (data_of_type type); [|done]. injection Ht as <-. by eapply wp_upd_node.
Qed.

Lemma set_table_same i nd s : global_node_table s !! i = Some nd -> set_global_node_table (<[i := nd]> (global_node_table s)) s = s.
Proof. intros. rewrite list_insert_id by done. by destruct s. Qed.

Lemma wp_check_leaf i s nd nd' (Q : unit -> finsh -> Prop) :
  global_node_table s !! i = Some nd -> leaf s nd = Some nd' -> Q tt (set_global_node_table (<[i := nd']> (global_node_table s)) s) ->
  wp (check_leaf i nd) Q s.
Proof.
  intros Hi Hl HQ. unfold leaf in Hl. unfold check_leaf.
  assert (Some nd = Some nd' -> Q tt s) as Hsame by (intros [= ->]; by rewrite set_table_same in HQ).
  destruct (nd_node_type nd =? FINSH_NODE_ID).
  - destruct (has_bit (nd_idtype nd) FINSH_IDTYPE_VAR).
    + destruct (nd_id nd) as [[v| |]|]; try done; [|by apply Hsame]. destruct (global_variable s !! v) as [var|] eqn:Ev; [|done]. simpl in Hl.
      wp_norm. rewrite wp_getso. exists var. split; [done|]. by eapply wp_set_data_of_type.
    + destruct (has_bit (nd_idtype nd) FINSH_IDTYPE_SYSVAR); [|by apply Hsame].
      destruct (nd_id nd) as [p|]; [|by apply Hsame]. destruct (sysvar_at (id_addr p) s) as [sv|] eqn:Ev; [|done]. simpl in Hl.
      wp_norm. rewrite wp_getso. exists sv. split; [done|]. by eapply wp_set_data_of_type.
  - destruct (nd_node_type nd =? FINSH_NODE_VALUE_CHAR); [injection Hl as <-; by eapply wp_upd_node|].
    destruct (one_of _ _); [injection Hl as <-; by eapply wp_upd_node|by apply Hsame].
Qed.
(** Two parts of the table are checked one after the other. *)
Lemma checked_rep_other F F' s s' : checked F' s s' -> (forall j, j ∈ ids F -> j ∉ ids F') -> rep (global_node_table s) F -> rep (global_node_table s') F.
Proof. intros (tbl & -> & _ & _ & Hj) Hd. apply rep_agree. intros j Hin. apply Hj, Hd, Hin. Qed.

(** The update of a node behind the checks of its children and siblings. *)
Lemma checked_node i nd' ch sib s s1 s2 s3 :
  checked ch s s1 -> checked sib s1 s2 -> s3 = set_global_node_table (<[i := nd']> (global_node_table s2)) s2 ->
  (i < length (global_node_table s))%nat -> NoDup (i :: ids ch ++ ids sib) -> nd_child nd' = root_of ch -> nd_sibling nd' = root_of sib ->
  checked (FCons i nd' ch sib) s s3.
Proof.
  intros (t1 & -> & Hr1 & Hl1 & Hj1) (t2 & -> & Hr2 & Hl2 & Hj2) -> Hi Hnd Hc Hs. simpl in *.
  apply NoDup_cons in Hnd as [Hni Hnd]. apply NoDup_app in Hnd as (_ & Hdis & _). rewrite elem_of_app in Hni.
  exists (<[i := nd']> t2). split; [done|]. simpl. split; [|split].
  - split_and!; [apply list_lookup_insert_eq; lia|done|done| |].
    + eapply rep_agree; [|exact Hr1]. intros j Hj. rewrite list_lookup_insert_ne by (intros ->; tauto). apply Hj2. by apply Hdis.
    + eapply rep_agree; [|exact Hr2]. intros j Hj. by rewrite list_lookup_insert_ne by (intros ->; tauto).
  - rewrite length_insert. lia.
  - intros j Hj. rewrite not_elem_of_cons, elem_of_app in Hj. destruct Hj as [Hne Hj].
    rewrite list_lookup_insert_ne by done. rewrite Hj2 by tauto. apply Hj1. tauto.
Qed.

Lemma wp_finsh_type_check fuel F a s F' (Q : unit -> finsh -> Prop) :
  NoDup (ids F) -> rep (global_node_table s) F -> (size F < fuel)%nat -> check s a F = Some F' -> (forall s', checked F' s s' -> Q tt s') ->
  wp (finsh_type_check fuel (root_of F) a) Q s.
Proof.
  revert F a s F' Q. induction fuel as [|fuel IH]; intros [|i nd ch sib] a s F' Q Hnd Hrep Hf Hc HQ; simpl in *; try lia.
  { injection Hc as <-. apply HQ. exists (global_node_table s). split_and!; [by destruct s|done..]. }
  destruct Hrep as (Hi & Hch & Hsib & Hrc & Hrs). rewrite length_app in Hf.
  destruct (check s _ ch) as [ch'|] eqn:Ec; [|done]. simpl in Hc. destruct (check s _ sib) as [sib'|] eqn:Es; [|done]. simpl in Hc.
  destruct (match head_of ch' with Some _ => _ | None => _ end) as [nd'|] eqn:En; [|done]. injection Hc as <-.
  destruct (check_root _ _ _ _ Ec) as [Erc Eic]. destruct (check_root _ _ _ _ Es) as [Ers Eis].
  pose proof Hnd as Hnd0. apply NoDup_cons in Hnd as [Hni Hnd]. apply NoDup_app in Hnd as (Hn1 & Hdis & Hn2). rewrite elem_of_app in Hni.
  wp_norm. eapply wp_get_node; [done|]. wp_norm. rewrite Hch. eapply (IH ch); [done|done|lia|done|]. intros s1 H1. wp_norm. rewrite Hsib.
  eapply (IH sib); [done| |lia|by rewrite (check_symbols s s1) by (by eapply checked_symbols)|].
  { eapply checked_rep_other; [done| |done]. intros j Hj. rewrite Eic. intros Hj'. by eapply Hdis. }
  intros s2 H2. wp_norm. 
  assert (global_node_table s2 !! i = Some nd) as Hi2.
  { destruct H1 as (t1 & -> & _ & _ & Hj1), H2 as (t2 & -> & _ & _ & Hj2). simpl in *. rewrite Hj2, Hj1, Hi by (rewrite ?Eic, ?Eis; tauto). done. }
  eapply wp_upd_node; [done|]. fold (mark a nd). set (s3 := set_global_node_table _ s2).
  assert (global_node_table s3 !! i = Some (mark a nd)) as Hi3 by (apply list_lookup_insert_eq; by eapply lookup_lt_Some).
  assert (forall nd0, nd_child nd0 = root_of ch -> nd_sibling nd0 = root_of sib ->
    checked (FCons i nd0 ch' sib') s (set_global_node_table (<[i := nd0]> (global_node_table s3)) s3)) as Hfin.
  { intros nd0 Hc0 Hs0. eapply checked_node; [exact H1|exact H2| |by eapply lookup_lt_Some|by rewrite Eic, Eis|congruence|congruence].
    unfold s3. cbn. by rewrite list_insert_insert_eq. }
  assert (same_symbols s s3) as Hsym by (etrans; [by eapply checked_symbols|etrans; [by eapply checked_symbols|done]]).
  destruct (mark_links a nd) as [Hm1 Hm2]. rewrite wp_bind. eapply wp_get_node; [done|]. rewrite Hm1, Hch, <- Erc.
  destruct ch' as [|c cn cc cs]; simpl in En |- *.
  - eapply wp_check_leaf; [done|by rewrite (leaf_symbols s s3)|]. destruct (leaf_links _ _ _ En) as [d ->]. apply HQ, Hfin; simpl; congruence.
  - injection En as <-. rewrite wp_bind. apply (wp_get_node _ _ cn).
    + destruct H1 as (t1 & -> & (Hcn & _) & _), H2 as (t2 & -> & _ & _ & Hj2). simpl in *.
      assert (c ∈ ids ch) as Hin by (rewrite <- Eic; by left).
      rewrite list_lookup_insert_ne by (intros ->; tauto). rewrite Hj2; [done|]. rewrite Eis. by apply Hdis.
    + eapply wp_upd_node; [done|]. apply HQ, Hfin; simpl; congruence.
Qed.
(** ** Statements *)

(** The code of the statements: each one but the last is followed by a [FINSH_OP_POP]. *)
Fixpoint code_statements (s : finsh) (F : forest) : option (list Z) :=
  match F with
  | FNil => Some []
  | FCons i nd ch sib =>
      a ← code_forest s (FCons i (set_nd_sibling None nd) ch FNil);
      b ← code_statements s sib;
      Some (a ++ match sib with FNil => [] | FCons _ _ _ _ => FINSH_OP_POP :: b end)
  end.

Lemma code_statements_symbols s s' F : same_symbols s s' -> code_statements s' F = code_statements s F.
Proof.
  intros Hs. induction F as [|i nd ch _ sib IHs]; [done|]. cbn [code_statements]. by rewrite IHs, (code_forest_symbols s s').
Qed.

(** The state after the nodes have changed and the code [l] has been written. *)
Definition compiled (l : list Z) (s s' : finsh) : Prop := exists tbl, s' = set_global_node_table tbl (emitted l s).

Lemma wp_compile_loop fuel F s l (Q : unit -> finsh -> Prop) :
  NoDup (ids F) -> rep (global_node_table s) F -> (size F <= 16)%nat -> (siblings F < fuel)%nat -> code_statements s F = Some l -> room l s ->
  (forall s', compiled l s s' -> Q tt s') -> wp (compile_loop fuel (root_of F)) Q s.
Proof.
  revert F s l Q. induction fuel as [|fuel IH]; intros [|i nd ch sib] s l Q Hnd Hrep Hsz Hf Hc Hroom HQ; [simpl in *; lia..| |].
  { injection Hc as <-. apply HQ. exists (global_node_table s). rewrite emitted_nil. by destruct s. }
  cbn [code_statements] in Hc. destruct (code_forest s (FCons i _ ch FNil)) as [a|] eqn:Ea; [|done]. cbn [mbind option_bind] in Hc.
  destruct (code_statements s sib) as [b|] eqn:Eb; [|done]. injection Hc as <-. simpl in Hrep, Hsz, Hf. cbn [root_of compile_loop].
  destruct Hrep as (Hi & Hch & Hsib & Hrc & Hrs). rewrite length_app in Hsz. apply NoDup_cons in Hnd as [Hni Hnd].
  rewrite elem_of_app in Hni. apply NoDup_app in Hnd as (_ & _ & Hn2).
  destruct (text_room_app a _ s Hroom) as [Hra Hrb]. wp_norm. eapply wp_get_node; [done|]. wp_norm. eapply wp_upd_node; [done|]. wp_norm.
  set (s1 := set_global_node_table _ s). set (one := FCons i (set_nd_sibling None nd) ch FNil).
  assert (forall F, (forall j, j ∈ ids F -> j ≠ i) -> rep (global_node_table s) F -> rep (global_node_table s1) F) as Hrep1.
  { intros F HF. apply rep_agree. intros j Hj. apply list_lookup_insert_ne. intros ->. by apply (HF j). }
  change (Some i) with (root_of one).
  apply (wp_finsh_compile _ one s1 a); [|simpl; rewrite length_app; simpl; lia|by rewrite (code_forest_symbols s)|exact Hra|].
  { simpl. split_and!; [apply list_lookup_insert_eq; by eapply lookup_lt_Some|done|done| |done]. apply Hrep1; [intros j Hj ->; tauto|done]. }
  rewrite Hsib. destruct sib as [|k kn kc ks]; simpl root_of.
  - wp_norm. destruct fuel; [simpl in Hf; lia|]. cbn [compile_loop]. wp_norm. apply HQ. rewrite app_nil_r. by exists (global_node_table s1).
  - destruct (text_room_app [FINSH_OP_POP] b _ Hrb) as [Hrp Hrb']. wp_norm; rewrite wp_when; left. split; [done|].
    assert (forall Q s, wp (finsh_code [FINSH_OP_POP]) Q s -> wp (finsh_code_byte FINSH_OP_POP) Q s) as Hbyte.
    { intros Q' s'. simpl. rewrite wp_bind. intros Hw. eapply wp_mono; [exact Hw|]. by intros [] ?. }
    apply Hbyte, wp_finsh_code; [exact Hrp|].
    change (Some k) with (root_of (FCons k kn kc ks)). set (sib := FCons k kn kc ks) in *.
    apply (IH sib _ b); [done| |lia|lia|by rewrite (code_statements_symbols s)|exact Hrb'|].
    + apply (Hrep1 sib); [|done]. intros j Hj ->. tauto.
    + intros s' [tbl ->]. apply HQ. exists tbl. change (a ++ FINSH_OP_POP :: b) with (a ++ [FINSH_OP_POP] ++ b).
      rewrite <- (emitted_app a), <- (emitted_app [FINSH_OP_POP]) by done. done.
Qed.

(** The text and the place of the result are cleared. *)
Definition compile_start (s : finsh) : finsh :=
  set_finsh_compile_pc 0 (set_finsh_vm_stack (<[0%nat := 0]> (finsh_vm_stack s)) (set_text_segment (replicate 128 0) s)).

Lemma wp_finsh_compiler_run F F' s l (Q : unit -> finsh -> Prop) :
  NoDup (ids F) -> rep (global_node_table s) F -> (size F <= 16)%nat -> check s FINSH_NODE_VALUE F = Some F' -> code_statements s F' = Some l ->
  (length l <= 128)%nat -> (forall s', compiled l (compile_start s) s' -> Q tt s') -> wp (finsh_compiler_run (root_of F)) Q s.
Proof.
  intros Hnd Hrep Hsz Hck Hcode Hlen HQ. unfold finsh_compiler_run. destruct (check_root _ _ _ _ Hck) as [Er Ei].
  wp_norm. eapply wp_finsh_type_check; [done|done|lia|done|]. intros s1 H1. wp_norm. rewrite <- Er.
  pose proof (checked_symbols _ _ _ H1) as Hsym. destruct H1 as (tbl & -> & Hrep' & _ & _).
  eapply wp_compile_loop; [by rewrite Ei|exact Hrep'|by rewrite Ei| |rewrite (code_statements_symbols s) by done; exact Hcode| |].
  - pose proof (siblings_size F'). rewrite Ei in *. lia.
  - unfold room. cbn [finsh_compile_pc text_segment set_finsh_compile_pc set_finsh_vm_stack set_text_segment set_global_node_table].
    rewrite length_replicate. lia.
  - intros s' [tbl' ->]. apply HQ. by exists tbl'.
Qed.
End trees.
