(* ===== verification/FinshCode.v ===== *)
(** The compiler of the finsh shell is correct: the nodes of a well-typed expression become its code, and the virtual machine computes its value. *)

From S2P Require Import Prelude ByteMem FinshDef FinshVm FinshSym FinshExpr FinshCompiler FinshTree.

(** ** Names *)

Section denotation.
Context `{FinshLayout}.

(** What [finsh_node_new_id] finds for a name: a variable before a system variable before a system call. *)
Definition resolve (s : finsh) (x : list Z) : option (Z * id_ptr) :=
  match find_index (same_name x) (global_variable s) with
  | Some i => Some (FINSH_IDTYPE_VAR, IdVar i)
  | None =>
      match symbol_find sv_name x (sysvar_table s) (global_sysvar_list s) with
      | Some p => Some (FINSH_IDTYPE_SYSVAR, IdSysvar p)
      | None => (fun p => (FINSH_IDTYPE_SYSCALL, IdSyscall p)) <$> symbol_find sc_name x (syscall_table s) (global_syscall_list s)
      end
  end.

Definition env_of (s : finsh) (x : list Z) : option symbol :=
  match resolve s x with
  | Some (_, IdVar i) => v ← global_variable s !! i; w ← value_width (var_type v); Some (SymVar w (var_value_addr (Some (IdVar i))))
  | Some (_, IdSysvar p) => sv ← sysvar_at p s; w ← value_width (sv_type sv); Some (SymSysvar w (sv_var sv))
  | Some (_, IdSyscall p) => sc ← syscall_at p s; Some (SymFun (sc_func sc))
  | None => None
  end.

(** ** The trees of the expressions *)

Definition binop_type (o : binop) : Z :=
  match o with
  | Add => FINSH_NODE_SYS_ADD | Sub => FINSH_NODE_SYS_SUB | Mul => FINSH_NODE_SYS_MUL | Div => FINSH_NODE_SYS_DIV | Mod => FINSH_NODE_SYS_MOD
  | And => FINSH_NODE_SYS_AND | Or => FINSH_NODE_SYS_OR | Xor => FINSH_NODE_SYS_XOR | Shl => FINSH_NODE_SYS_SHL | Shr => FINSH_NODE_SYS_SHR
  end.
Definition step_type (pre inc : bool) : Z :=
  match pre, inc with
  | true, true => FINSH_NODE_SYS_PREINC | true, false => FINSH_NODE_SYS_PREDEC
  | false, true => FINSH_NODE_SYS_INC | false, false => FINSH_NODE_SYS_DEC
  end.

(** A node as the parser makes it. *)
Definition fresh (type : Z) (nd : finsh_node) : Prop := nd_node_type nd = type /\ nd_idtype nd = 0 /\ nd_data_type nd = 0.

Definition den_id (s : finsh) (x : list Z) (nd : finsh_node) (ch : forest) : Prop :=
  nd_node_type nd = FINSH_NODE_ID /\ nd_data_type nd = 0 /\ ch = FNil /\
  exists t p, resolve s x = Some (t, p) /\ nd_idtype nd = t /\ nd_id nd = Some p.

(** The node [nd] with its children [ch] stands for the expression. *)
Fixpoint den (s : finsh) (e : expr) (nd : finsh_node) (ch : forest) {struct e} : Prop :=
  let one e := exists i n c, ch = FCons i n c FNil /\ den s e n c in
  match e with
  | EInt long n => fresh (if long then FINSH_NODE_VALUE_LONG else FINSH_NODE_VALUE_INT) nd /\ ch = FNil /\ u32 (nd_value nd) = u32 n
  | EChar c => fresh FINSH_NODE_VALUE_CHAR nd /\ ch = FNil /\ u8 (nd_value nd) = u8 c
  | ENull => fresh FINSH_NODE_VALUE_NULL nd /\ ch = FNil /\ u32 (nd_value nd) = 0
  | EId x => den_id s x nd ch
  | EBin o e1 e2 => fresh (binop_type o) nd /\
      exists i1 n1 c1 i2 n2 c2, ch = FCons i1 n1 c1 (FCons i2 n2 c2 FNil) /\ den s e1 n1 c1 /\ den s e2 n2 c2
  | ENot e => fresh FINSH_NODE_SYS_BITWISE nd /\ one e
  | ENeg e => fresh FINSH_NODE_SYS_SUB nd /\
      exists i1 n1 i2 n2 c2, ch = FCons i1 n1 FNil (FCons i2 n2 c2 FNil) /\ fresh FINSH_NODE_VALUE_LONG n1 /\ u32 (nd_value n1) = 0 /\ den s e n2 c2
  | EPlus e => den s e nd ch
  | EStep pre inc x => fresh (step_type pre inc) nd /\ exists i n, ch = FCons i n FNil FNil /\ den_id s x n FNil
  | EAssign x e => fresh FINSH_NODE_SYS_ASSIGN nd /\
      exists i1 n1 i2 n2 c2, ch = FCons i1 n1 FNil (FCons i2 n2 c2 FNil) /\ den_id s x n1 FNil /\ den s e n2 c2
  | EStore p e => fresh FINSH_NODE_SYS_ASSIGN nd /\
      exists i1 n1 i2 n2 c2 i3 n3 c3, ch = FCons i1 n1 (FCons i3 n3 c3 FNil) (FCons i2 n2 c2 FNil) /\ fresh FINSH_NODE_SYS_GETVALUE n1 /\
        den s p n3 c3 /\ den s e n2 c2
  | EDeref p => fresh FINSH_NODE_SYS_GETVALUE nd /\ one p
  | EAddr x => fresh FINSH_NODE_SYS_GETADDR nd /\ exists i n, ch = FCons i n FNil FNil /\ den_id s x n FNil
  | ECall f l => fresh FINSH_NODE_SYS_FUNC nd /\ exists i n sib, ch = FCons i n FNil sib /\ den_id s f n FNil /\ den_args s l sib
  end
with den_args (s : finsh) (l : exprs) (F : forest) {struct l} : Prop :=
  match l with
  | ANil => F = FNil
  | ACons e l => exists i n c sib, F = FCons i n c sib /\ den s e n c /\ den_args s l sib
  end.

(** ** Their check and their code *)

Context (s : finsh).
Local Abbreviation env := (env_of s).

Definition check_tree (a : Z) (nd : finsh_node) (ch : forest) : option (finsh_node * forest) :=
  ch' ← check s (child_attribute (nd_node_type nd) a) ch;
  nd' ← match head_of ch' with Some c => Some (set_nd_data_type (nd_data_type c) (mark a nd)) | None => leaf s (mark a nd) end;
  Some (nd', ch').

Definition code_tree (nd : finsh_node) (ch : forest) : option (list Z) :=
  a ← code_forest s ch;
  own ← code_node s nd (head_of ch) (Z.of_nat (siblings (tail_of ch)));
  match own with (l, None) => Some (a ++ l) | _ => None end.

Lemma check_cons a i nd ch sib nd' ch' sib' :
  check_tree a nd ch = Some (nd', ch') -> check s FINSH_NODE_VALUE sib = Some sib' -> check s a (FCons i nd ch sib) = Some (FCons i nd' ch' sib').
Proof.
  unfold check_tree. intros Ht Hs. simpl. destruct (check s _ ch) as [c|]; [|done]. simpl in *. rewrite Hs. simpl.
  destruct (match head_of c with Some _ => _ | None => _ end); [|done]. simpl in *. by injection Ht as -> ->.
Qed.

Lemma code_cons i nd ch sib a b : code_tree nd ch = Some a -> code_forest s sib = Some b -> code_forest s (FCons i nd ch sib) = Some (a ++ b).
Proof.
  unfold code_tree. intros Ht Hs. simpl. destruct (code_forest s ch) as [c|]; [|done]. simpl in *. rewrite Hs.
  destruct (code_node _ _ _ _) as [[own [e|]]|]; try done. simpl in *. injection Ht as <-. by rewrite app_assoc.
Qed.

Definition data_of (t : option width) : Z := match t with Some w => data_of_width w | None => FINSH_DATA_TYPE_VOID end.

(** The attribute [a] gives the tree the data type [t] and the code [l]. *)
Definition compiles (a : Z) (t : option width) (l : list Z) (nd : finsh_node) (ch : forest) : Prop :=
  exists nd' ch', check_tree a nd ch = Some (nd', ch') /\ nd_node_type nd' = nd_node_type nd /\ nd_id nd' = nd_id nd /\
    nd_data_type nd' = data_of t /\ code_tree nd' ch' = Some l.

Lemma data_width_of w : data_width (data_of_width w) = Some w.
Proof. by destruct w. Qed.
Lemma data_of_value_width t w : value_width t = Some w -> data_of_type t = Some (data_of_width w).
Proof.
  unfold value_width, data_of_type, one_of. simpl. rewrite !orb_false_r.
  repeat match goal with |- context [t =? ?k] => destruct (Z.eqb_spec t k); [subst; simpl; intros E; by inversion E|] end.
  done.
Qed.

Lemma check_leaf_tree a nd : check_tree a nd FNil = (fun n => (n, FNil)) <$> leaf s (mark a nd).
Proof. unfold check_tree. simpl. by destruct (leaf s (mark a nd)). Qed.
Lemma code_leaf_tree nd l : code_node s nd None 0 = emits l -> code_tree nd FNil = Some l.
Proof. unfold code_tree. cbn [code_forest mbind option_bind head_of tail_of siblings]. change (Z.of_nat 0) with 0. by intros ->. Qed.

(** An identifier that is a variable of the shell or a system variable, with its type and its address. *)
Inductive names : Z -> id_ptr -> Z -> Z -> Prop :=
| names_var i v : global_variable s !! i = Some v -> names FINSH_IDTYPE_VAR (IdVar i) (var_type v) (var_value_addr (Some (IdVar i)))
| names_sysvar q v : sysvar_at q s = Some v -> names FINSH_IDTYPE_SYSVAR (IdSysvar q) (sv_type v) (sv_var v).

Lemma resolve_inv x t p : resolve s x = Some (t, p) ->
  match p with IdVar _ => t = FINSH_IDTYPE_VAR | IdSysvar _ => t = FINSH_IDTYPE_SYSVAR | IdSyscall _ => t = FINSH_IDTYPE_SYSCALL end.
Proof.
  unfold resolve. destruct (find_index _ _); [by intros [= <- <-]|]. destruct (symbol_find sv_name _ _ _); [by intros [= <- <-]|].
  destruct (symbol_find sc_name _ _ _); [by intros [= <- <-]|done].
Qed.

Lemma variable_names x w ad : variable env x = Some (w, ad) ->
  exists t p type, resolve s x = Some (t, p) /\ value_width type = Some w /\ names t p type ad.
Proof.
  intros Hv%variable_inv. unfold env_of in Hv. destruct (resolve s x) as [[t p]|] eqn:Hr; [|naive_solver].
  exists t, p. pose proof (resolve_inv _ _ _ Hr). destruct p as [i|q|q]; subst t.
  - destruct (global_variable s !! i) as [v|] eqn:Ev; [|naive_solver]. simpl in Hv. exists (var_type v).
    destruct (value_width (var_type v)); [|naive_solver]. destruct Hv as [[= <- <-]|?]; [|done]. split_and!; [done..|by constructor].
  - destruct (sysvar_at q s) as [v|] eqn:Ev; [|naive_solver]. simpl in Hv. exists (sv_type v).
    destruct (value_width (sv_type v)); [|naive_solver]. destruct Hv as [?|[= <- <-]]; [done|]. split_and!; [done..|by constructor].
  - destruct (syscall_at q s); naive_solver.
Qed.

(** The check and the code of such an identifier. *)
Lemma leaf_names t p type ad a n : names t p type ad -> a = 0 \/ a = FINSH_IDTYPE_ADDRESS ->
  nd_node_type n = FINSH_NODE_ID -> nd_id n = Some p -> nd_idtype n = t .| a -> leaf s n = typed_as type n.
Proof. intros [i v Hv|q v Hv] [-> | ->] Ht Hp Hid; unfold leaf; rewrite Ht, Hp, Hid; simpl; by rewrite Hv. Qed.

Lemma code_node_names t p type ad a w n : names t p type ad -> a = 0 \/ a = FINSH_IDTYPE_ADDRESS -> value_width type = Some w ->
  nd_node_type n = FINSH_NODE_ID -> nd_id n = Some p -> nd_idtype n = t .| a -> code_node s n None 0 = emits (code_load (negb (a =? 0)) w ad).
Proof.
  intros [i v Hv|q v Hv] [-> | ->] Hw Ht Hp Hid; unfold code_node; rewrite Ht; simpl; unfold code_id; rewrite Hp, Hid; simpl; rewrite Hv; simpl; by rewrite Hw.
Qed.

(** A use of a variable: its address or its value. *)
Lemma compiles_variable a x nd w ad :
  a = 0 \/ a = FINSH_IDTYPE_ADDRESS -> den_id s x nd FNil -> variable env x = Some (w, ad) ->
  compiles a (Some w) (code_load (negb (a =? 0)) w ad) nd FNil.
Proof.
  intros Ha (Ht & Hd & _ & t & p & Hr & Hid & Hp) (t' & p' & type & Hr' & Hw & Hn)%variable_names.
  rewrite Hr in Hr'. injection Hr' as <- <-. set (n := mark a nd).
  assert (nd_node_type n = FINSH_NODE_ID /\ nd_id n = Some p /\ nd_idtype n = t .| a) as (Hn1 & Hn2 & Hn3).
  { unfold n, mark. rewrite Hid. by destruct Hn. }
  exists (set_nd_data_type (data_of_width w) n), FNil. rewrite check_leaf_tree. fold n. split_and!; [|cbn; congruence|cbn; congruence|done|].
  - rewrite (leaf_names t p type ad a n) by done. unfold typed_as. by rewrite (data_of_value_width _ _ Hw).
  - by apply code_leaf_tree, (code_node_names t p type).
Qed.

Lemma function_names x f : function env x = Some f -> exists q sc, resolve s x = Some (FINSH_IDTYPE_SYSCALL, IdSyscall q) /\ syscall_at q s = Some sc /\ f = sc_func sc.
Proof.
  unfold function, env_of. intros Hv. destruct (resolve s x) as [[t p]|] eqn:Hr; [|done]. pose proof (resolve_inv _ _ _ Hr). destruct p as [i|q|q]; subst t.
  - destruct (global_variable s !! i) as [v|]; [|done]. simpl in Hv. by destruct (value_width (var_type v)).
  - destruct (sysvar_at q s) as [v|]; [|done]. simpl in Hv. by destruct (value_width (sv_type v)).
  - destruct (syscall_at q s) as [sc|] eqn:E; [|done]. injection Hv as <-. by exists q, sc.
Qed.

Lemma compiles_function x nd f : den_id s x nd FNil -> function env x = Some f -> compiles 0 None (FINSH_OP_LD DWORD :: dword f) nd FNil.
Proof.
  intros (Ht & Hd & _ & t & p & Hr & Hid & Hp) (q & sc & Hr' & Hs & ->)%function_names. rewrite Hr in Hr'. injection Hr' as -> ->.
  exists nd, FNil. rewrite check_leaf_tree. unfold mark. rewrite Hid. simpl. split_and!; [|done..|].
  - unfold leaf. by rewrite Ht, Hid.
  - apply code_leaf_tree. unfold code_node. rewrite Ht. simpl. unfold code_id. rewrite Hid, Hp. simpl. by rewrite Hs.
Qed.

(** ** The expressions *)

(** Trees side by side. *)
Definition compiles_all (l : list Z) (F : forest) : Prop :=
  exists F', check s FINSH_NODE_VALUE F = Some F' /\ code_forest s F' = Some l /\ siblings F' = siblings F.

Lemma compiles_all_nil : compiles_all [] FNil.
Proof. by exists FNil. Qed.

Lemma compiles_all_cons t a b i n c sib : compiles 0 t a n c -> compiles_all b sib -> compiles_all (a ++ b) (FCons i n c sib).
Proof.
  intros (n' & c' & Hck & _ & _ & _ & Hcode) (sib' & Hs & Hb & Hl). exists (FCons i n' c' sib'). split_and!; [by apply check_cons|by apply code_cons|].
  simpl. by rewrite Hl.
Qed.

Lemma compiles_one t a i n c : compiles 0 t a n c -> compiles_all a (FCons i n c FNil).
Proof. intros Hc. rewrite <- (app_nil_r a). eapply compiles_all_cons; [done|apply compiles_all_nil]. Qed.

(** An operator: the code of its operands before its own. *)
Lemma compiles_node a t la b own nd i n c sib :
  compiles (child_attribute (nd_node_type nd) a) t la n c -> compiles_all b sib ->
  (forall n', nd_node_type n' = nd_node_type n -> nd_id n' = nd_id n -> nd_data_type n' = data_of t ->
     code_node s (set_nd_data_type (data_of t) (mark a nd)) (Some n') (Z.of_nat (siblings sib)) = emits own) ->
  compiles a t (la ++ b ++ own) nd (FCons i n c sib).
Proof.
  intros (n' & c' & Hck & Hn1 & Hn2 & Hn3 & Hcode) (sib' & Hs & Hb & Hl) Hown.
  exists (set_nd_data_type (data_of t) (mark a nd)), (FCons i n' c' sib').
  assert (nd_node_type (mark a nd) = nd_node_type nd /\ nd_id (mark a nd) = nd_id nd) as [Hm1 Hm2] by (unfold mark; by destruct (_ =? _)).
  split_and!; [|done..|].
  - unfold check_tree. rewrite (check_cons _ i n c sib n' c' sib') by done. cbn [mbind option_bind head_of]. by rewrite Hn3.
  - unfold code_tree. rewrite (code_cons i n' c' sib' la b) by done. cbn [mbind option_bind head_of tail_of]. rewrite Hl, Hown by done.
    cbn [mbind option_bind emits]. by rewrite app_assoc.
Qed.

Lemma mark_fresh a type nd : fresh type nd -> nd_node_type (mark a nd) = type /\ nd_idtype (mark a nd) = a.
Proof. intros (Ht & Hi & _). unfold mark. by rewrite Hi. Qed.

Lemma code_node_op type f t nd c k :
  node_op type = Some f -> nd_node_type nd = type -> nd_data_type nd = data_of t -> code_node s nd c k = emits (code_of_width t f).
Proof.
  unfold node_op. intros Hf Ht Hd.
  repeat match type of Hf with (if ?b then _ else _) = _ =>
    let E := fresh "E" in destruct b eqn:E; [apply Z.eqb_eq in E; injection Hf as <-; unfold code_node; rewrite Ht, E, Hd; cbn; by destruct t as [[]|]|clear E] end.
  done.
Qed.

Lemma dword_ext x y : u32 x = u32 y -> dword x = dword y.
Proof. intros E. by rewrite !dword_bytes, E. Qed.

Lemma compiles_value a type w nd l : fresh type nd ->
  (forall n, nd_node_type n = type -> leaf s n = Some (set_nd_data_type (data_of_width w) n)) ->
  (forall n, nd_node_type n = type -> nd_value n = nd_value nd -> code_node s n None 0 = emits l) -> compiles a (Some w) l nd FNil.
Proof.
  intros Hn Hl Hc. destruct (mark_fresh a type nd Hn) as [H1 _]. exists (set_nd_data_type (data_of_width w) (mark a nd)), FNil.
  rewrite check_leaf_tree, Hl by done. destruct Hn as (Hn & _).
  split_and!; [done|cbn; congruence|cbn; unfold mark; by destruct (_ =? _)|done|].
  apply code_leaf_tree, Hc; [done|]. cbn. unfold mark. by destruct (_ =? _).
Qed.

Definition expr_compiles (e : expr) : Prop := forall nd ch, well_typed env e = true -> den s e nd ch -> compiles 0 (type_of env e) (code env e) nd ch.
Definition args_compile (l : exprs) : Prop := forall F, args_typed env l = true -> den_args s l F -> compiles_all (code_args env l) F /\ siblings F = args_length l.

(** An operator of one kind for all widths. *)
Lemma compiles_op type f t la b nd i n c sib :
  fresh type nd -> node_op type = Some f -> child_attribute type 0 = 0 -> compiles 0 t la n c -> compiles_all b sib ->
  compiles 0 t (la ++ b ++ code_of_width t f) nd (FCons i n c sib).
Proof.
  intros Hf Ho Ha Hc Hs. pose proof (mark_fresh 0 type nd Hf) as [Hm _]. apply compiles_node; [|done|].
  - destruct Hf as (-> & _). by rewrite Ha.
  - intros n' _ _ _. by apply (code_node_op type).
Qed.

Lemma compile_id x : expr_compiles (EId x).
Proof.
  intros nd ch Hw Hd. pose proof Hd as (_ & _ & -> & _). apply bool_decide_eq_true in Hw as [[w a|w a|f] He].
  1-2: assert (variable env x = Some (w, a)) as Hv by (unfold variable; by rewrite He);
    pose proof (compiles_variable 0 x nd w a (or_introl eq_refl) Hd Hv) as Hc; simpl; by rewrite He, Hv.
  assert (function env x = Some f) as Hv by (unfold function; by rewrite He). pose proof (compiles_function x nd f Hd Hv) as Hc.
  simpl. rewrite He. unfold variable. by rewrite He.
Qed.

Lemma compile_bin o e1 e2 : expr_compiles e1 -> expr_compiles e2 -> expr_compiles (EBin o e1 e2).
Proof.
  intros IH1 IH2 nd ch Hw (Hf & i1 & n1 & c1 & i2 & n2 & c2 & -> & H1 & H2). simpl in Hw. rewrite !andb_true_iff in Hw. destruct Hw as (((Hw1 & Hw2) & _) & _).
  simpl. eapply compiles_op; [done|by destruct o|by destruct o|by apply IH1|eapply compiles_one; by apply IH2].
Qed.

Lemma compile_not e : expr_compiles e -> expr_compiles (ENot e).
Proof.
  intros IH nd ch Hw (Hf & i & n & c & -> & H1). simpl in Hw. apply andb_true_iff in Hw as [Hw _].
  simpl. change (code_of_width ?t ?f) with ([] ++ code_of_width t f). eapply compiles_op; [done..|by apply IH|apply compiles_all_nil].
Qed.

Lemma compiles_long n nd : fresh FINSH_NODE_VALUE_LONG nd -> u32 (nd_value nd) = u32 n -> compiles 0 (Some DWORD) (FINSH_OP_LD DWORD :: dword n) nd FNil.
Proof.
  intros Hf Hv. eapply (compiles_value _ _ DWORD); [exact Hf| |].
  - intros m Hm. unfold leaf. by rewrite Hm.
  - intros m Hm Hmv. unfold code_node. rewrite Hm. simpl. by rewrite (dword_ext (nd_value m) n) by congruence.
Qed.

Lemma compile_neg e : expr_compiles e -> expr_compiles (ENeg e).
Proof.
  intros IH nd ch Hw (Hf & i1 & n1 & i2 & n2 & c2 & -> & Hf1 & Hv1 & H2). simpl in Hw. apply andb_true_iff in Hw as [Hw _].
  apply (compiles_op FINSH_NODE_SYS_SUB FINSH_OP_SUB (Some DWORD)); [done..|by apply compiles_long|eapply compiles_one; by apply IH].
Qed.

Lemma own_variable_names x w ad : own_variable env x = Some (w, ad) -> exists t p, resolve s x = Some (t, p) /\ ad = var_value_addr (Some p).
Proof.
  intros Hv. pose proof (own_variable_inv _ _ _ _ Hv) as (t & p & type & Hr & Hw & Hn)%variable_names. exists t, p. split; [done|].
  unfold own_variable, env_of in Hv. rewrite Hr in Hv. destruct Hn as [i v Hi|q v Hi]; [done|]. rewrite Hi in Hv. simpl in Hv. by rewrite Hw in Hv.
Qed.

Lemma compile_step pre inc x : expr_compiles (EStep pre inc x).
Proof.
  intros nd ch Hw (Hf & i & n & -> & Hd). apply bool_decide_eq_true in Hw as [[w a] Hw].
  pose proof (own_variable_inv _ _ _ _ Hw) as Hv. pose proof (own_variable_names _ _ _ Hw) as (t & p & Hr & Ha).
  pose proof Hd as (Hn & _ & _ & t' & p' & Hr' & _ & Hp). rewrite Hr in Hr'. injection Hr' as <- <-. rewrite <- Hp in Ha. clear Hr Hp.
  pose proof (mark_fresh 0 _ nd Hf) as [Hm _]. destruct Hf as (Hf & _).
  cbn [type_of code]. rewrite Hv. cbn [fmap option_fmap option_map fst].
  destruct pre.
  - eapply (compiles_node 0 (Some w) _ []); [|apply compiles_all_nil|].
    + rewrite Hf. replace (child_attribute _ 0) with FINSH_IDTYPE_ADDRESS by (by destruct inc).
      exact (compiles_variable FINSH_IDTYPE_ADDRESS x _ w a (or_intror eq_refl) ltac:(eassumption) Hv).
    + intros n' Hn1 Hn2 Hn3. unfold code_node. cbn. rewrite Hm, Hn1, Hn, Hn2, data_width_of, <- Ha. by destruct inc.
  - eapply (compiles_node 0 (Some w) _ []); [|apply compiles_all_nil|].
    + rewrite Hf. replace (child_attribute _ 0) with 0 by (by destruct inc). exact (compiles_variable 0 x _ w a (or_introl eq_refl) ltac:(eassumption) Hv).
    + intros n' Hn1 Hn2 Hn3. unfold code_node. cbn. rewrite Hm, Hn1, Hn, Hn2, data_width_of, <- Ha. by destruct inc.
Qed.

Lemma compile_assign x e : expr_compiles e -> expr_compiles (EAssign x e).
Proof.
  intros IH nd ch Hw (Hf & i1 & n1 & i2 & n2 & c2 & -> & H1 & H2). simpl in Hw. apply andb_true_iff in Hw as [Hw Hfits].
  destruct (fits_inv _ _ _ Hfits) as (w & _ & Hx & _ & _). destruct (variable env x) as [[w' a]|] eqn:Hv; [|done]. injection Hx as ->.
  pose proof (mark_fresh 0 _ nd Hf) as [Hm _]. destruct Hf as (Hf & _). simpl. rewrite Hv.
  apply (compiles_node 0 (Some w) (FINSH_OP_LD DWORD :: dword a)).
  - rewrite Hf. exact (compiles_variable FINSH_IDTYPE_ADDRESS x _ w a (or_intror eq_refl) ltac:(eassumption) Hv).
  - eapply compiles_one. by apply IH.
  - intros n' Hn1 Hn2 Hn3. unfold code_node. cbn. destruct H1 as (Hn & _). rewrite Hm, Hn1, Hn, Hn3. by destruct w.
Qed.

Lemma compile_store p e : expr_compiles p -> expr_compiles e -> expr_compiles (EStore p e).
Proof.
  intros IHp IHe nd ch Hw (Hf & i1 & n1 & i2 & n2 & c2 & i3 & n3 & c3 & -> & Hf1 & H3 & H2). simpl in Hw. rewrite !andb_true_iff in Hw.
  destruct Hw as (((Hw1 & _) & Hw2) & Hfits). destruct (fits_inv _ _ _ Hfits) as (w & _ & Hx & _ & _).
  pose proof (mark_fresh 0 _ nd Hf) as [Hm _]. pose proof (mark_fresh FINSH_IDTYPE_ADDRESS _ n1 Hf1) as [Hm1 Hm2]. destruct Hf as (Hf & _), Hf1 as (Hf1 & _).
  simpl. rewrite Hx. apply (compiles_node 0 (Some w)).
  - rewrite Hf. rewrite <- (app_nil_r (code env p)). eapply (compiles_node _ (Some w) _ []); [|apply compiles_all_nil|].
    + rewrite Hf1. rewrite <- Hx. by apply IHp.
    + intros n' _ _ _. unfold code_node. cbn. by rewrite Hm1, Hm2.
  - eapply compiles_one. by apply IHe.
  - intros n' Hn1 Hn2 Hn3. unfold code_node. cbn. rewrite Hm, Hn1, Hf1, Hn3. by destruct w.
Qed.

Lemma compile_deref p : expr_compiles p -> expr_compiles (EDeref p).
Proof.
  intros IH nd ch Hw (Hf & i & n & c & -> & H1). simpl in Hw. rewrite !andb_true_iff in Hw. destruct Hw as ((Hw & _) & Ht).
  apply bool_decide_eq_true in Ht as [w Hw']. pose proof (mark_fresh 0 _ nd Hf) as [Hm1 Hm2]. destruct Hf as (Hf & _). simpl. rewrite Hw'.
  apply (compiles_node 0 (Some w) _ []); [|apply compiles_all_nil|].
  - rewrite Hf, <- Hw'. by apply IH.
  - intros n' _ _ _. unfold code_node. cbn. by rewrite Hm1, Hm2, data_width_of.
Qed.

Lemma compile_addr x : expr_compiles (EAddr x).
Proof.
  intros nd ch Hw (Hf & i & n & -> & H1). apply bool_decide_eq_true in Hw as [[w a] Hv].
  pose proof (mark_fresh 0 _ nd Hf) as [Hm _]. destruct Hf as (Hf & _). simpl. rewrite Hv. rewrite <- (app_nil_r (_ :: _)).
  apply (compiles_node 0 (Some w) _ []); [|apply compiles_all_nil|].
  - rewrite Hf. exact (compiles_variable FINSH_IDTYPE_ADDRESS x _ w a (or_intror eq_refl) ltac:(eassumption) Hv).
  - intros n' _ _ _. unfold code_node. cbn. by rewrite Hm.
Qed.

Lemma compile_call f l : args_compile l -> expr_compiles (ECall f l).
Proof.
  intros IH nd ch Hw (Hf & i & n & sib & -> & H1 & H2). simpl in Hw. rewrite !andb_true_iff in Hw. destruct Hw as ((Hfn & _) & Hw).
  apply bool_decide_eq_true in Hfn as [p Hp]. pose proof (mark_fresh 0 _ nd Hf) as [Hm _]. destruct Hf as (Hf & _). simpl. rewrite Hp.
  destruct (IH sib Hw H2) as [Hc Hl]. apply (compiles_node 0 None (FINSH_OP_LD DWORD :: dword p)).
  - rewrite Hf. by apply (compiles_function f).
  - done.
  - intros n' _ _ _. unfold code_node. cbn. by rewrite Hm, Hl.
Qed.

Lemma compile_args e l : expr_compiles e -> args_compile l -> args_compile (ACons e l).
Proof.
  intros IHe IHl F Hw (i & n & c & sib & -> & H1 & H2). simpl in Hw. rewrite !andb_true_iff in Hw. destruct Hw as ((Hw1 & _) & Hw2).
  destruct (IHl sib Hw2 H2) as [Hc Hl]. split; [|simpl; by rewrite Hl]. simpl. eapply compiles_all_cons; [by apply IHe|done].
Qed.

(** The check and the code of the tree of a well-typed expression are its type and its code. *)
Lemma tree_compiles : (forall e, expr_compiles e) /\ (forall l, args_compile l).
Proof.
  apply expr_ind2; intros; auto using compile_id, compile_bin, compile_not, compile_neg, compile_step, compile_assign, compile_store, compile_deref,
    compile_addr, compile_call, compile_args.
  - intros nd ch _ (Hf & -> & Hv). destruct long; [by apply compiles_long|]. eapply (compiles_value _ _ DWORD); [exact Hf| |].
    + intros m Hm. unfold leaf. by rewrite Hm.
    + intros m Hm Hmv. unfold code_node. rewrite Hm. simpl. by rewrite (dword_ext (nd_value m) n) by congruence.
  - intros nd ch _ (Hf & -> & Hv). eapply (compiles_value _ _ BYTE); [exact Hf| |].
    + intros m Hm. unfold leaf. by rewrite Hm.
    + intros m Hm Hmv. unfold code_node. rewrite Hm. simpl. by rewrite Hmv, Hv.
  - intros nd ch _ (Hf & -> & Hv). eapply (compiles_value _ _ DWORD); [exact Hf| |].
    + intros m Hm. unfold leaf. by rewrite Hm.
    + intros m Hm Hmv. unfold code_node. rewrite Hm. simpl. by rewrite (dword_ext (nd_value m) 0) by (rewrite Hmv; exact Hv).
  - intros F _ ->. split; [apply compiles_all_nil|done].
Qed.

Lemma code_statement i nd ch l : code_tree nd ch = Some l -> code_forest s (FCons i (set_nd_sibling None nd) ch FNil) = Some l.
Proof. intros Hc. rewrite <- (app_nil_r l). by apply code_cons. Qed.

Lemma program_compiles l F : program_typed env l = true -> den_args s l F ->
  exists F', check s FINSH_NODE_VALUE F = Some F' /\ code_statements s F' = Some (program_code env l).
Proof.
  revert F. induction l as [|e l IH]; intros F Ht Hd.
  { rewrite Hd. by exists FNil. }
  cbn [program_typed] in Ht. rewrite !andb_true_iff in Ht. destruct Ht as ((Ht & _) & Hts), Hd as (i & n & c & sib & -> & He & Hsib).
  destruct (IH sib Hts Hsib) as (sib' & Hs & Hc), (proj1 tree_compiles e n c Ht He) as (n' & c' & Hck & _ & _ & _ & Hcode).
  exists (FCons i n' c' sib'). split; [by apply check_cons|]. cbn [code_statements program_code]. rewrite (code_statement i n' c' (code env e)) by done.
  rewrite Hc. cbn [mbind option_bind]. f_equal. f_equal. destruct (check_root _ _ _ _ Hs) as [Hr _].
  destruct l; [by rewrite Hsib in Hs; injection Hs as <-|]. destruct Hsib as (? & ? & ? & ? & -> & _). by destruct sib'.
Qed.
End denotation.

(** ** The compiler and the machine *)

Section code_bytes.
Context (env : list Z -> option symbol).

Lemma u8_op l x : 0 <= x < 256 -> u8 <$> l = l -> u8 <$> (x :: l) = x :: l.
Proof. intros Hx Hl. rewrite fmap_cons, Hl. by rewrite u8_small. Qed.

Lemma u8_app l1 l2 : u8 <$> l1 = l1 -> u8 <$> l2 = l2 -> u8 <$> (l1 ++ l2) = l1 ++ l2.
Proof. intros H1 H2. by rewrite fmap_app, H1, H2. Qed.

Lemma u8_constant_1 w : u8 <$> constant w 1 = constant w 1.
Proof. by destruct w. Qed.

Lemma u8_idem x : u8 (u8 x) = u8 x.
Proof. by rewrite uwrap_uwrap. Qed.

Lemma u8_ops w f : (forall w, 0 <= f w < 256) -> u8 <$> code_of_width w f = code_of_width w f.
Proof. intros Hf. destruct w; [by apply u8_op|done]. Qed.

Create HintDb bytecode.
#[local] Hint Resolve u8_app u8_constant_1 dword_u8 u8_ops : bytecode.
#[local] Hint Extern 2 (u8 <$> (_ :: _) = _) => apply u8_op : bytecode.
#[local] Hint Extern 1 (u8 <$> [] = []) => reflexivity : bytecode.
#[local] Hint Resolve u8_byte : bytecode.
#[local] Hint Extern 3 (0 <= _ < 256) => repeat match goal with w : width |- _ => destruct w | o : binop |- _ => destruct o end; simpl; lia : bytecode.
#[local] Hint Extern 3 (forall _, 0 <= _ < 256) => let w := fresh in intros w; destruct w; repeat match goal with o : binop |- _ => destruct o end; simpl; lia : bytecode.

(** The code is a list of bytes. *)
Lemma code_bytes : (forall e, u8 <$> code env e = code env e) /\ (forall l, u8 <$> code_args env l = code_args env l).
Proof.
  apply expr_ind2; intros; cbn [code code_args];
    repeat match goal with
    | |- context [match env ?x with Some _ => _ | None => _ end] => destruct (env x) as [[]|]
    | |- context [match variable env ?x with Some _ => _ | None => _ end] => destruct (variable env x) as [[]|]
    | |- context [match function env ?x with Some _ => _ | None => _ end] => destruct (function env x)
    | |- context [match type_of env ?x with Some _ => _ | None => _ end] => destruct (type_of env x)
    | |- context [if ?b then _ else _] => destruct b
    end; eauto 20 with bytecode.
Qed.

Lemma program_bytes l : u8 <$> program_code env l = program_code env l.
Proof.
  induction l as [|e l IH]; [done|]. cbn [program_code]. apply u8_app; [apply code_bytes|]. destruct l; [done|]. by apply u8_op.
Qed.
End code_bytes.

Section machine.
Context `{FinshLayout, Syscalls}.

Lemma exec_no_ops s n c : length (text_segment s) = 128%nat -> exec s (replicate n 0) c c.
Proof.
  intros Hl. induction n as [|n IH]; [apply exec_nil|]. change (replicate (S n) 0) with ([0] ++ replicate n 0). eapply exec_app; [|exact IH].
  apply (exec_op s 0 [] OP_no_op); [done..|]. intros pc Q _ HQ. rewrite Z.add_0_r in HQ. exact HQ.
Qed.

(** A run of the code [l], with no operations behind it. *)
Lemma wp_run_code s l σ' ρ' d' (Q : finsh -> Prop) :
  (length l <= 128)%nat -> text_segment s = l ++ replicate (128 - length l) 0 ->
  exec s l ([], finsh_vm_stack s, data s) (σ', ρ', d') -> Q (vm_state s 128 (σ', ρ', d')) -> wp finsh_vm_run (fun _ s' => Q s') s.
Proof.
  intros Hl Ht He HQ. apply wp_finsh_vm_run.
  assert (length (text_segment s) = 128%nat) as Hlen by (rewrite Ht, length_app, length_replicate; lia).
  assert (exec s (l ++ replicate (128 - length l) 0) ([], finsh_vm_stack s, data s) (σ', ρ', d')) as Hx by (eapply exec_app; [exact He|by apply exec_no_ops]).
  specialize (Hx 0 Q). assert (vm_state s 0 ([], finsh_vm_stack s, data s) = set_finsh_pc 0 (set_finsh_sp 0 s)) as Es by (by destruct s).
  rewrite <- Es. apply Hx.
  - exists [], []. by rewrite app_nil_r.
  - apply run_end; [|rewrite length_app, length_replicate].
    + cbn [vm_state finsh_pc set_data set_finsh_vm_stack set_finsh_sp set_finsh_pc]. rewrite length_app, length_replicate. lia.
    + by replace (0 + Z.of_nat (length l + (128 - length l))) with 128 by lia.
Qed.

(** The text after the compiler. *)
Lemma compiled_text l s s' : (length l <= 128)%nat -> u8 <$> l = l -> compiled l (compile_start s) s' ->
  text_segment s' = l ++ replicate (128 - length l) 0 /\ finsh_vm_stack s' = <[0%nat := 0]> (finsh_vm_stack s) /\ data s' = data s.
Proof.
  intros Hl Hu [tbl ->]. unfold emitted, compile_start.
  cbn [data text_segment finsh_vm_stack finsh_compile_pc set_global_node_table set_finsh_compile_pc set_finsh_vm_stack set_text_segment].
  rewrite Hu. split; [|done]. simpl (Z.to_nat 0). by rewrite drop_replicate.
Qed.

(** The nodes of well-typed statements are compiled into code that leaves their value at the bottom of the stack; the run changes the memory, the text,
    the stack and the nodes only. *)
Lemma wp_compile_run s l F v d' w (Q : finsh -> Prop) :
  rep (global_node_table s) F -> NoDup (ids F) -> (length (ids F) <= 16)%nat -> den_args s l F ->
  program_typed (env_of s) l = true -> program_value (env_of s) l = Some w ->
  (length (program_code (env_of s) l) <= 128)%nat -> (program_depth l <= length (finsh_vm_stack s))%nat ->
  eval_program (env_of s) l (data s) = Some (v, d') ->
  (forall tbl txt sp pc x ρ, rd w x = v -> length (finsh_vm_stack s) = length (x :: ρ) ->
     Q (set_data d' (set_finsh_vm_stack (x :: ρ) (set_finsh_sp sp (set_finsh_pc pc (set_global_node_table tbl
          (set_text_segment txt (set_finsh_compile_pc (Z.of_nat (length (program_code (env_of s) l))) s)))))))) ->
  wp (finsh_compiler_run (root_of F)) (fun _ s' => global_errno s' = global_errno s /\ wp finsh_vm_run (fun _ s2 => Q s2) s') s.
Proof.
  intros Hrep Hnd Hsz Hden Ht Hw Hl Hd He HQ. destruct (program_compiles s l F Ht Hden) as (F' & Hck & Hcode).
  eapply wp_finsh_compiler_run; [done|done|done|exact Hck|exact Hcode|done|]. intros s1 Hs1.
  destruct (compiled_text _ _ _ Hl (program_bytes _ l) Hs1) as (Htext & Hstack & Hdata).
  destruct (program_correct (env_of s) s1 ltac:(rewrite Htext, length_app, length_replicate; lia) l [] (finsh_vm_stack s1) (data s1) v d' w) as (x & ρ' & Hx & Hxw & Hlen);
    [done|done|by rewrite Hdata|by rewrite Hstack, length_insert|].
  split; [by destruct Hs1 as [tbl ->]|]. eapply wp_run_code; [exact Hl|exact Htext|exact Hx|]. rewrite Hstack, length_insert in Hlen. destruct Hs1 as [tbl ->].
  exact (HQ tbl _ _ _ x ρ' Hxw Hlen).
Qed.

(** The compiler and the virtual machine together evaluate a line: the nodes of statements that are well typed, compiled into at most 128 bytes of
    code with room for their values on the stack, become a run that leaves the value of the last statement in the place that the shell prints, and
    in the memory what the statements assign; there is no error and no access outside the text, the stack and the table of nodes. *)
Theorem finsh_compiler_vm_correct s l F v d' w :
  rep (global_node_table s) F -> NoDup (ids F) -> (length (ids F) <= 16)%nat -> den_args s l F ->
  program_typed (env_of s) l = true -> program_value (env_of s) l = Some w ->
  (length (program_code (env_of s) l) <= 128)%nat -> (program_depth l <= length (finsh_vm_stack s))%nat ->
  eval_program (env_of s) l (data s) = Some (v, d') ->
  exists s', (finsh_compiler_run (root_of F);; finsh_vm_run) s = Some (tt, s') /\ data s' = d' /\ global_errno s' = global_errno s /\
    exists x, finsh_vm_stack s' !! 0%nat = Some x /\ rd w x = v.
Proof.
  intros Hrep Hnd Hsz Hden Ht Hw Hl Hd He.
  assert (wp (finsh_compiler_run (root_of F);; finsh_vm_run) (fun _ s' => data s' = d' /\ global_errno s' = global_errno s /\
    exists x, finsh_vm_stack s' !! 0%nat = Some x /\ rd w x = v) s) as Hwp.
  { rewrite wp_bind. eapply wp_mono.
    - eapply (wp_compile_run s l F v d' w (fun s' => data s' = d' /\ global_errno s' = global_errno s /\ exists x, finsh_vm_stack s' !! 0%nat = Some x /\ rd w x = v));
        [done..|]. intros tbl txt sp pc x ρ Hx _. split_and!; [done..|]. by exists x.
    - intros [] s1 [_ Hrun]. exact Hrun. }
  apply wp_run in Hwp as ([] & s' & E & Hs'). by exists s'.
Qed.
End machine.

Section typing.
Context `{FinshLayout}.

(** C36: The pointer code of [finsh_type_check] gives the node of a well-typed expression the data type of the expression, without an error, and changes
    nothing but nodes of the expression. *)
Theorem finsh_type_check_types s e i nd ch :
  rep (global_node_table s) (FCons i nd ch FNil) -> NoDup (ids (FCons i nd ch FNil)) -> (length (ids (FCons i nd ch FNil)) <= 16)%nat ->
  den s e nd ch -> well_typed (env_of s) e = true ->
  exists tbl nd', finsh_type_check (S (Z.to_nat FINSH_NODE_MAX)) (Some i) FINSH_NODE_VALUE s = Some (tt, set_global_node_table tbl s) /\
    tbl !! i = Some nd' /\ nd_data_type nd' = data_of (type_of (env_of s) e) /\ nd_node_type nd' = nd_node_type nd /\
    (forall j, j ∉ ids (FCons i nd ch FNil) -> tbl !! j = global_node_table s !! j).
Proof.
  intros Hrep Hnd Hsz Hden Hw. destruct (proj1 (tree_compiles s) e nd ch Hw Hden) as (nd' & ch' & Hck & Hn & _ & Hd & _).
  pose proof (check_cons s FINSH_NODE_VALUE i nd ch FNil nd' ch' FNil Hck eq_refl) as Hc. destruct (check_root _ _ _ _ Hc) as [_ Hids].
  assert (wp (finsh_type_check (S (Z.to_nat FINSH_NODE_MAX)) (Some i) FINSH_NODE_VALUE)
    (fun _ s' => checked (FCons i nd' ch' FNil) s s') s) as Hwp.
  { change (Some i) with (root_of (FCons i nd ch FNil)). eapply wp_finsh_type_check; [done|done| |exact Hc|done]. change (Z.to_nat 16) with 16%nat. lia. }
  unfold wp in Hwp. destruct (finsh_type_check _ _ _ s) as [[[] s']|]; [|done]. destruct Hwp as (tbl & -> & (Hi & _) & _ & Hj).
  exists tbl, nd'. split_and!; [done..|]. intros j Hjn. apply Hj. by rewrite Hids.
Qed.
End typing.

(** ** A concrete line *)

Section example.
Definition example_layout : FinshLayout := {| global_variable_addr := 4096; finsh_heap_addr := 8192 |}.
Definition example_syscalls : Syscalls := fun _ vs => mret (foldr Z.add 0 vs).
#[local] Existing Instances example_layout example_syscalls.

(** The nodes of [x = 3; x + 4;] with the variable [int x]. *)
Definition example_nodes : list finsh_node :=
  [mkNode FINSH_NODE_ID 0 FINSH_IDTYPE_VAR 0 (Some (IdVar 0)) (Some 1%nat) None;
   mkNode FINSH_NODE_VALUE_INT 0 0 3 None None None;
   mkNode FINSH_NODE_SYS_ASSIGN 0 0 0 None (Some 5%nat) (Some 0%nat);
   mkNode FINSH_NODE_ID 0 FINSH_IDTYPE_VAR 0 (Some (IdVar 0)) (Some 4%nat) None;
   mkNode FINSH_NODE_VALUE_INT 0 0 4 None None None;
   mkNode FINSH_NODE_SYS_ADD 0 0 0 None None (Some 3%nat)].
Definition no_token : finsh_token := mkToken false false 0 0 0 (replicate 128 0) [].
Definition example_state : finsh :=
  mkFinsh {[4116 := 0; 4117 := 0; 4118 := 0; 4119 := 0]} (replicate 128 0) (replicate 64 0) 0 0 0
    example_nodes [mkVar [120] finsh_type_int] [] [] [] [] 0 0 FINSH_ERROR_OK no_token None.
Definition example_line : exprs := ACons (EAssign [120] (EInt false 3)) (ACons (EBin Add (EId [120]) (EInt false 4)) ANil).
Definition example_node (i : nat) : finsh_node := nth i example_nodes (mkNode 0 0 0 0 None None None).
Definition example_forest : forest :=
  FCons 2 (example_node 2) (FCons 0 (example_node 0) FNil (FCons 1 (example_node 1) FNil FNil))
    (FCons 5 (example_node 5) (FCons 3 (example_node 3) FNil (FCons 4 (example_node 4) FNil FNil)) FNil).

Lemma finsh_compiler_vm_correct_witness :
  exists s', (finsh_compiler_run (Some 2%nat);; finsh_vm_run) example_state = Some (tt, s') /\
    data s' = {[4116 := 3; 4117 := 0; 4118 := 0; 4119 := 0]} /\ global_errno s' = 0 /\ exists x, finsh_vm_stack s' !! 0%nat = Some x /\ rd DWORD x = 7.
Proof.
  apply (finsh_compiler_vm_correct example_state example_line example_forest 7 {[4116 := 3; 4117 := 0; 4118 := 0; 4119 := 0]} DWORD).
  - by repeat split.
  - vm_compute. apply (bool_decide_unpack _). by vm_compute.
  - vm_compute. lia.
  - simpl. eexists _, _, _, _. split; [reflexivity|]. split; [split_and!; [by repeat split|]|].
    { eexists _, _, _, _, _. split; [reflexivity|]. split; [|by repeat split]. split_and!; [done..|]. eexists _, _. by split_and!. }
    eexists _, _, _, _. split; [reflexivity|]. split; [split_and!; [by repeat split|]|done].
    eexists _, _, _, _, _, _. split; [reflexivity|]. split; [|by repeat split]. split_and!; [done..|]. eexists _, _. by split_and!.
  - by vm_compute.
  - by vm_compute.
  - vm_compute. lia.
  - vm_compute. lia.
  - by vm_compute.
Defined.

Lemma finsh_type_check_types_witness :
  exists tbl nd', finsh_type_check (S (Z.to_nat FINSH_NODE_MAX)) (Some 5%nat) FINSH_NODE_VALUE example_state = Some (tt, set_global_node_table tbl example_state) /\
    tbl !! 5%nat = Some nd' /\ nd_data_type nd' = FINSH_DATA_TYPE_DWORD /\ nd_node_type nd' = FINSH_NODE_SYS_ADD /\
    (forall j, j ∉ [5; 3; 4]%nat -> tbl !! j = global_node_table example_state !! j).
Proof.
  apply (finsh_type_check_types example_state (EBin Add (EId [120]) (EInt false 4)) 5 (example_node 5)
    (FCons 3 (example_node 3) FNil (FCons 4 (example_node 4) FNil FNil))).
  - by repeat split.
  - vm_compute. apply (bool_decide_unpack _). by vm_compute.
  - vm_compute. lia.
  - split; [by repeat split|]. eexists _, _, _, _, _, _. split; [reflexivity|]. split; [|by repeat split]. split_and!; [done..|]. eexists _, _. by split_and!.
  - by vm_compute.
Defined.
End example.
