(* ===== verification/FinshHeap.v ===== *)
(** The heap of strings and the nodes of the finsh shell (components/finsh/finsh_heap.c, finsh_node.c). *)

From S2P Require Import Prelude ByteMem FinshDef FinshVm FinshSym FinshCompiler.

(** ** Blocks *)

(** [struct finsh_block_header] has the length of its block and the address of the next one; the data of the block lies behind it. *)
Abbreviation SIZEOF_HEADER := 8.
Definition finsh_block_get_header (data : Z) : Z := data - SIZEOF_HEADER.
Definition finsh_block_get_data (header : Z) : Z := header + SIZEOF_HEADER.
Definition HEAP_ALIGN_SIZE (size : Z) : Z := u32 (Z.land (size + 4 - 1) (Z.lnot 3)).

Definition load_length (header : Z) : FM Z := dlift (load32 header).
Definition load_next (header : Z) : FM Z := dlift (load32 (header + 4)).
Definition store_length (header v : Z) : FM unit := dlift (store32 header v).
Definition store_next (header v : Z) : FM unit := dlift (store32 (header + 4) v).

(** [&free_list] and [&allocate_list] *)
Inductive block_list := FreeList | AllocateList.
Definition list_get (l : block_list) : FM Z := gets (match l with FreeList => free_list | AllocateList => allocate_list end).
Definition list_set (l : block_list) (v : Z) : FM unit :=
  modify (match l with FreeList => set_free_list v | AllocateList => set_allocate_list v end).

Section heap.
Context `{FinshLayout}.

(** [memset(p, 0, n)] *)
Fixpoint clear (n : nat) (p : Z) : FM unit :=
  match n with O => mret tt | S n => dlift (store p 0);; clear n (p + 1) end.

(** A block has at least its header, so a list has at most that many. *)
Definition block_fuel : nat := S (Z.to_nat (FINSH_HEAP_MAX / SIZEOF_HEADER)).

Definition finsh_heap_init : FM unit :=
  clear (Z.to_nat FINSH_HEAP_MAX) finsh_heap_addr;;
  modify (set_free_list finsh_heap_addr);;
  store_length finsh_heap_addr (FINSH_HEAP_MAX - SIZEOF_HEADER);;
  store_next finsh_heap_addr 0;;
  modify (set_allocate_list 0).

(** [for (node = *list; node; node = node->next)] with its two [break]s; the node where the loop stops *)
Fixpoint insert_loop (fuel : nat) (node header : Z) : FM Z :=
  match fuel with
  | O => rt_panic
  | S fuel =>
      next ← load_next node;
      if (header <? next) || (next =? 0) then mret node else insert_loop fuel next header
  end.

Definition finsh_block_insert (list : block_list) (header : Z) : FM unit :=
  node ← list_get list;
  if node =? 0 then list_set list header
  else if header <? node then store_next header node;; list_set list header
  else
    node ← insert_loop block_fuel node header;
    next ← load_next node;
    when (negb (next =? 0)) (store_next header next);;
    store_next node header.

Fixpoint remove_loop (fuel : nat) (node header : Z) : FM unit :=
  match fuel with
  | O => rt_panic
  | S fuel =>
      if node =? 0 then mret tt
      else
        next ← load_next node;
        if next =? header then n ← load_next header; store_next node n else remove_loop fuel next header
  end.

Definition finsh_block_remove (list : block_list) (header : Z) : FM unit :=
  node ← list_get list;
  if node =? header then
    next ← load_next header;
    list_set list next;;
    store_next header 0
  else remove_loop block_fuel node header.

Definition finsh_block_split (header size : Z) : FM unit :=
  let next := header + SIZEOF_HEADER + size in
  length ← load_length header;
  store_length next (length - SIZEOF_HEADER - size);;
  store_length header size;;
  n ← load_next header;
  store_next next n;;
  store_next header next.

(** The block in front of [header] in a list, 0 if there is none. *)
Fixpoint prev_loop (fuel : nat) (node header : Z) : FM Z :=
  match fuel with
  | O => rt_panic
  | S fuel =>
      if node =? 0 then mret 0
      else next ← load_next node; if next =? header then mret node else prev_loop fuel next header
  end.

Definition finsh_block_merge (list : block_list) (header : Z) : FM unit :=
  next_node ← load_next header;
  first ← list_get list;
  prev_node ← (if first =? header then mret 0 else prev_loop block_fuel first header);
  length ← load_length header;
  prev_adjacent ← (if prev_node =? 0 then mret false
                   else prev_length ← load_length prev_node; mret (prev_node + prev_length + SIZEOF_HEADER =? header));
  let next_adjacent := negb (next_node =? 0) && (header + length + SIZEOF_HEADER =? next_node) in
  if (prev_adjacent : bool) then
    prev_length ← load_length prev_node;
    if next_adjacent then
      next_length ← load_length next_node;
      store_length prev_node (prev_length + (length + next_length + 2 * SIZEOF_HEADER));;
      next ← load_next next_node;
      store_next prev_node next
    else
      store_length prev_node (prev_length + (length + SIZEOF_HEADER));;
      next ← load_next header;
      store_next prev_node next
  else if next_adjacent then
    next_length ← load_length next_node;
    store_length header (length + (next_length + SIZEOF_HEADER));;
    next ← load_next next_node;
    store_next header next
  else mret tt.

Definition finsh_heap_free (ptr : Z) : FM unit :=
  let header := finsh_block_get_header ptr in
  finsh_block_remove AllocateList header;;
  finsh_block_insert FreeList header;;
  finsh_block_merge FreeList header.

(** Is there a variable in use whose value is [ptr]? *)
Fixpoint gc_used (i : nat) (vars : list finsh_var) (ptr : Z) : FM bool :=
  match vars with
  | [] => mret false
  | v :: vars =>
      if var_type v =? finsh_type_unknown then gc_used (S i) vars ptr
      else
        value ← dlift (load32 (var_value_addr (Some (IdVar i))));
        if value =? ptr then mret true else gc_used (S i) vars ptr
  end.

Fixpoint gc_loop (fuel : nat) (header : Z) : FM unit :=
  match fuel with
  | O => rt_panic
  | S fuel =>
      if header =? 0 then mret tt
      else
        vars ← gets global_variable;
        used ← gc_used 0 vars (finsh_block_get_data header);
        next ← load_next header;
        (if (used : bool) then mret tt else finsh_heap_free (finsh_block_get_data header));;
        gc_loop fuel next
  end.

Definition finsh_heap_gc : FM unit := header ← gets allocate_list; gc_loop block_fuel header.

(** The first block with [fits length], 0 if there is none. *)
Fixpoint find_block (fuel : nat) (fits : Z -> bool) (header : Z) : FM Z :=
  match fuel with
  | O => rt_panic
  | S fuel =>
      if header =? 0 then mret 0
      else length ← load_length header; if fits length then mret header else next ← load_next header; find_block fuel fits next
  end.

Definition finsh_heap_allocate (size : Z) : FM Z :=
  let size := HEAP_ALIGN_SIZE size in
  first ← gets free_list;
  header ← find_block block_fuel (fun length => u32 (size + SIZEOF_HEADER) <? length) first;
  header ← (if header =? 0 then
              finsh_heap_gc;;
              first ← gets free_list;
              find_block block_fuel (fun length => u32 (size + SIZEOF_HEADER) <=? length) first
            else mret header);
  if header =? 0 then mret 0
  else
    finsh_block_split header size;;
    finsh_block_remove FreeList header;;
    store_next header 0;;
    finsh_block_insert AllocateList header;;
    clear (Z.to_nat size) (finsh_block_get_data header);;
    mret (finsh_block_get_data header).

(** ** Nodes *)

Definition no_node : finsh_node := mkNode FINSH_NODE_UNKNOWN 0 0 0 None None None.

Definition finsh_node_init : FM unit := modify (set_global_node_table (replicate (Z.to_nat FINSH_NODE_MAX) no_node)).

Definition finsh_node_allocate (type : Z) : FM (option nat) :=
  tbl ← gets global_node_table;
  match find_index (fun n => nd_node_type n =? FINSH_NODE_UNKNOWN) tbl with
  | None => mret None
  | Some i => upd_node i (set_nd_node_type type);; mret (Some i)
  end.

Definition finsh_node_new_id (id : list Z) : FM (option nat) :=
  var ← finsh_var_lookup id;
  symbol ← (match var with
            | Some p => mret (Some (FINSH_IDTYPE_VAR, p))
            | None =>
                sysvar ← finsh_sysvar_lookup id;
                match sysvar with
                | Some p => mret (Some (FINSH_IDTYPE_SYSVAR, p))
                | None => call ← finsh_syscall_lookup id; mret ((fun p => (FINSH_IDTYPE_SYSCALL, p)) <$> call)
                end
            end);
  match symbol with
  | None => finsh_error_set FINSH_ERROR_UNKNOWN_SYMBOL;; mret None
  | Some (type, p) =>
      node ← finsh_node_allocate FINSH_NODE_ID;
      match node with
      | None => finsh_error_set FINSH_ERROR_MEMORY_FULL;; mret None
      | Some i => upd_node i (fun n => set_nd_idtype type (set_nd_id (Some p) n));; mret (Some i)
      end
  end.

(** A node with a value. *)
Definition new_value (type : Z) (set : Z -> Z) : FM (option nat) :=
  node ← finsh_node_allocate type;
  match node with
  | None => finsh_error_set FINSH_ERROR_MEMORY_FULL;; mret None
  | Some i => upd_node i (fun n => set_nd_value (set (nd_value n)) n);; mret (Some i)
  end.

Definition finsh_node_new_char (c : Z) : FM (option nat) := new_value FINSH_NODE_VALUE_CHAR (wr BYTE c).
Definition finsh_node_new_int (i : Z) : FM (option nat) := new_value FINSH_NODE_VALUE_INT (wr DWORD i).
Definition finsh_node_new_long (l : Z) : FM (option nat) := new_value FINSH_NODE_VALUE_LONG (wr DWORD l).
Definition finsh_node_new_ptr (ptr : Z) : FM (option nat) := new_value FINSH_NODE_VALUE_NULL (wr DWORD ptr).

(** [strncpy(p, s, strlen(s))] *)
Fixpoint put_string (p : Z) (s : list Z) : FM unit :=
  match s with [] => mret tt | c :: s => dlift (store p c);; put_string (p + 1) s end.

Definition finsh_node_new_string (s : list Z) : FM (option nat) :=
  node ← finsh_node_allocate FINSH_NODE_VALUE_STRING;
  match node with
  | None => finsh_error_set FINSH_ERROR_MEMORY_FULL;; mret None
  | Some i =>
      ptr ← finsh_heap_allocate (Z.of_nat (length s) + 1);
      upd_node i (fun n => set_nd_value (wr DWORD ptr (nd_value n)) n);;
      put_string ptr s;;
      dlift (store (ptr + Z.of_nat (length s)) 0);;
      mret (Some i)
  end.
End heap.
