(* ===== verification/FinshToken.v ===== *)
(** The tokens of the finsh shell (components/finsh/finsh_token.c). *)

From S2P Require Import Prelude ByteMem FinshDef FinshVm FinshSym FinshCompiler.

(** ** Characters *)

(** [char] is unsigned. *)
Definition is_alpha (ch : Z) : bool := u32 ((ch .| 32) - 97) <? 26.
Definition is_digit (ch : Z) : bool := (48 <=? ch) && (ch <=? 57).
Definition is_xdigit (ch : Z) : bool := (48 <=? ch) && (ch <=? 57) || (u32 ((ch .| 32) - 97) <? 6).
Definition is_octal (ch : Z) : bool := u32 (ch - 48) <? 8.
Definition is_separator (ch : Z) : bool :=
  negb ((97 <=? ch) && (ch <=? 122) || (65 <=? ch) && (ch <=? 90) || (48 <=? ch) && (ch <=? 57) || (ch =? 95)).

(** The characters that the code names. *)
Abbreviation CH_TAB := 9.
Abbreviation CH_NL := 10.
Abbreviation CH_CR := 13.
Abbreviation CH_SPACE := 32.
Abbreviation CH_QUOTE2 := 34.
Abbreviation CH_PERCENT := 37.
Abbreviation CH_AND := 38.
Abbreviation CH_QUOTE := 39.
Abbreviation CH_LEFT := 40.
Abbreviation CH_RIGHT := 41.
Abbreviation CH_MUL := 42.
Abbreviation CH_ADD := 43.
Abbreviation CH_COMMA := 44.
Abbreviation CH_SUB := 45.
Abbreviation CH_DIV := 47.
Abbreviation CH_0 := 48.
Abbreviation CH_SEMICOLON := 59.
Abbreviation CH_LESS := 60.
Abbreviation CH_ASSIGN := 61.
Abbreviation CH_GREATER := 62.
Abbreviation CH_BACKSLASH := 92.
Abbreviation CH_XOR := 94.
Abbreviation CH_OR := 124.
Abbreviation CH_NOT := 126.

(** ** Types of tokens *)

Abbreviation finsh_token_type_left_paren := 1.
Abbreviation finsh_token_type_right_paren := 2.
Abbreviation finsh_token_type_comma := 3.
Abbreviation finsh_token_type_semicolon := 4.
Abbreviation finsh_token_type_mul := 5.
Abbreviation finsh_token_type_add := 6.
Abbreviation finsh_token_type_inc := 7.
Abbreviation finsh_token_type_sub := 8.
Abbreviation finsh_token_type_dec := 9.
Abbreviation finsh_token_type_div := 10.
Abbreviation finsh_token_type_mod := 11.
Abbreviation finsh_token_type_assign := 12.
Abbreviation finsh_token_type_and := 13.
Abbreviation finsh_token_type_or := 14.
Abbreviation finsh_token_type_xor := 15.
Abbreviation finsh_token_type_bitwise := 16.
Abbreviation finsh_token_type_shl := 17.
Abbreviation finsh_token_type_shr := 18.
Abbreviation finsh_token_type_comments := 19.
Abbreviation finsh_token_type_void := 20.
Abbreviation finsh_token_type_char := 21.
Abbreviation finsh_token_type_short := 22.
Abbreviation finsh_token_type_int := 23.
Abbreviation finsh_token_type_long := 24.
Abbreviation finsh_token_type_unsigned := 25.
Abbreviation finsh_token_type_value_char := 26.
Abbreviation finsh_token_type_value_int := 27.
Abbreviation finsh_token_type_value_long := 28.
Abbreviation finsh_token_type_value_string := 29.
Abbreviation finsh_token_type_value_null := 30.
Abbreviation finsh_token_type_identifier := 31.
Abbreviation finsh_token_type_bad := 32.
Abbreviation finsh_token_type_eof := 33.

(** ["void"], ["char"], ["short"], ["int"], ["long"], ["unsigned"], ["NULL"] and ["null"] *)
Definition finsh_name_table : list (list Z * Z) :=
  [([118; 111; 105; 100], finsh_token_type_void);
   ([99; 104; 97; 114], finsh_token_type_char);
   ([115; 104; 111; 114; 116], finsh_token_type_short);
   ([105; 110; 116], finsh_token_type_int);
   ([108; 111; 110; 103], finsh_token_type_long);
   ([117; 110; 115; 105; 103; 110; 101; 100], finsh_token_type_unsigned);
   ([78; 85; 76; 76], finsh_token_type_value_null);
   ([110; 117; 108; 108], finsh_token_type_value_null)].

(** ** The reader *)

Definition tget {A} (f : finsh_token -> A) : FM A := gets (fun s => f (token s)).
Definition tmod (f : finsh_token -> finsh_token) : FM unit := modify (fun s => set_token (f (token s)) s).

Definition zero_token : finsh_token := mkToken false false 0 0 0 (replicate (Z.to_nat FINSH_STRING_MAX) 0) [].

(** A line is its characters in front of the NUL. *)
Definition finsh_token_init (line : list Z) : FM unit := tmod (fun _ => set_tk_line line zero_token).

Definition token_next_char : FM Z :=
  t ← tget id;
  if tk_eof t then mret 0
  else if tk_position t =? Z.of_nat (length (tk_line t)) then tmod (fun t => set_tk_position 0 (set_tk_eof true t));; mret 0
  else
    c ← getso (fun _ => if 0 <=? tk_position t then tk_line t !! Z.to_nat (tk_position t) else None);
    if c =? CH_NL then tmod (fun t => set_tk_position 0 (set_tk_eof true t));; mret 0
    else tmod (set_tk_position (tk_position t + 1));; mret c.

Definition token_prev_char : FM unit :=
  t ← tget id;
  if tk_eof t then mret tt
  else if tk_position t =? 0 then mret tt
  else tmod (set_tk_position (tk_position t - 1)).

(** Every loop below reads a character in every round, and the line has no more of them. *)
Definition token_fuel : FM nat := tget (fun t => S (S (length (tk_line t)))).

(** [self->string[i] = c] *)
Definition put_char (i c : Z) : FM unit :=
  str ← tget tk_string;
  getso (fun _ => str !! Z.to_nat i);;
  tmod (set_tk_string (<[Z.to_nat i := u8 c]> str)).

(** The string up to its NUL. *)
Fixpoint c_string (l : list Z) : option (list Z) :=
  match l with [] => None | c :: l => if c =? 0 then Some [] else cons c <$> c_string l end.

Fixpoint get_string_loop (fuel : nat) (p ch : Z) : FM Z :=
  match fuel with
  | O => rt_panic
  | S fuel =>
      eof ← tget tk_eof;
      if negb (is_separator ch) && negb eof then put_char p ch;; ch ← token_next_char; get_string_loop fuel (p + 1) ch else mret p
  end.

Definition token_get_string : FM Z :=
  ch ← token_next_char;
  eof ← tget tk_eof;
  if (eof : bool) then mret (-1)
  else
    put_char 0 0;;
    if is_digit ch then token_prev_char;; mret (-1)
    else
      fuel ← token_fuel;
      p ← get_string_loop fuel 0 ch;
      tmod (set_tk_eof false);;
      token_prev_char;;
      put_char p 0;;
      mret 0.

(** The type of the first name in the table that is [str]. *)
Definition token_match_name (str : list Z) : FM bool :=
  match head (filter (fun e => e.1 = str) finsh_name_table) with
  | Some e => tmod (set_tk_current_token e.2);; mret true
  | None => mret false
  end.

Fixpoint trim_loop (fuel : nat) : FM unit :=
  match fuel with
  | O => rt_panic
  | S fuel => ch ← token_next_char; if (ch =? CH_SPACE) || (ch =? CH_TAB) || (ch =? CH_CR) then trim_loop fuel else mret tt
  end.

Definition token_trim_space : FM unit := fuel ← token_fuel; trim_loop fuel;; token_prev_char.

(** [while (is_digit(ch))] of [token_proc_char], which writes [n] characters to [buf]. *)
Fixpoint octal_char_loop (fuel : nat) (n ch : Z) : FM Z :=
  match fuel with
  | O => rt_panic
  | S fuel => if is_digit ch then ch ← token_next_char; when (4 <=? n) rt_panic;; octal_char_loop fuel (n + 1) ch else mret n
  end.

(** [atoi(p)] is 0: [p] is at the NUL behind the digits. *)
Definition token_proc_char : FM Z :=
  ch ← token_next_char;
  ch ← (if ch =? CH_BACKSLASH then
          ch ← token_next_char;
          if ch =? 110 then mret 10
          else if ch =? 116 then mret 9
          else if ch =? 118 then mret 11
          else if ch =? 98 then mret 8
          else if ch =? 114 then mret 13
          else if ch =? CH_BACKSLASH then mret CH_BACKSLASH
          else if ch =? CH_QUOTE then mret CH_QUOTE
          else
            fuel ← token_fuel;
            n ← octal_char_loop fuel 0 ch;
            token_prev_char;;
            when (4 <=? n) rt_panic;;
            mret 0
        else mret ch);
  next ← token_next_char;
  if negb (next =? CH_QUOTE) then token_prev_char;; finsh_error_set FINSH_ERROR_EXPECT_CHAR;; mret ch
  else mret ch.

(** The numbers of escapes; their signed overflow is taken to wrap around. *)
Fixpoint hex_loop (fuel : nat) (result ch : Z) : FM Z :=
  match fuel with
  | O => rt_panic
  | S fuel =>
      if is_xdigit ch then
        next ← token_next_char;
        hex_loop fuel (s32 (result * 16 + (if ch <? 65 then ch - 48 else (ch .| 32) - 97 + 10))) next
      else mret result
  end.

Fixpoint octal_loop (fuel : nat) (result ch : Z) : FM Z :=
  match fuel with
  | O => rt_panic
  | S fuel =>
      if is_octal ch then next ← token_next_char; octal_loop fuel (s32 (result * 8 + ch - 48)) next
      else mret result
  end.

Definition token_proc_escape : FM Z :=
  ch ← token_next_char;
  if ch =? 110 then mret 10
  else if ch =? 116 then mret 9
  else if ch =? 118 then mret 11
  else if ch =? 98 then mret 8
  else if ch =? 114 then mret 13
  else if ch =? 102 then mret 12
  else if ch =? 97 then mret 7
  else if ch =? CH_QUOTE2 then mret CH_QUOTE2
  else if (ch =? 120) || (ch =? 88) then
    ch ← token_next_char;
    fuel ← token_fuel;
    result ← hex_loop fuel 0 ch;
    token_prev_char;;
    mret result
  else if is_octal ch then
    fuel ← token_fuel;
    result ← octal_loop fuel 0 ch;
    token_prev_char;;
    mret result
  else mret 0.

(** [p] is at the index [n] of [self->string]. *)
Fixpoint string_loop (fuel : nat) (n : Z) : FM unit :=
  match fuel with
  | O => rt_panic
  | S fuel =>
      if n <? FINSH_STRING_MAX then
        ch ← token_next_char;
        eof ← tget tk_eof;
        if (eof : bool) then finsh_error_set FINSH_ERROR_UNEXPECT_END
        else if ch =? CH_BACKSLASH then c ← token_proc_escape; put_char n c;; string_loop fuel (n + 1)
        else if ch =? CH_QUOTE2 then put_char n 0
        else put_char n ch;; string_loop fuel (n + 1)
      else mret tt
  end.

Definition token_proc_string : FM unit := fuel ← token_fuel; string_loop fuel 0.

(** ** Numbers *)

(** The digit [t] is shifted into the words of [bn] by [shift] bits. *)
Fixpoint bn_shift (shift t : Z) (bn : list Z) : list Z :=
  match bn with
  | [] => []
  | v :: bn => u32 (u32 (Z.shiftl v shift) .| u32 t) :: bn_shift shift (Z.shiftr v (32 - shift)) bn
  end.

Definition spec_digit (t : Z) : Z :=
  if (97 <=? t) && (t <=? 102) then t - 97 + 10 else if (65 <=? t) && (t <=? 70) then t - 65 + 10 else t - 48.

Definition token_spec_number (string : list Z) (b : Z) : Z :=
  let shift := if b =? 16 then 4 else if b =? 8 then 3 else 1 in
  s32 (nth 0 (foldl (fun bn c => bn_shift shift (spec_digit c) bn) [0; 0] string) 0).

(** The characters with a property go to [buf]; the result is what is there, and the next character. *)
Fixpoint buf_loop (fuel : nat) (p : Z -> bool) (buf : list Z) (ch : Z) : FM (list Z * Z) :=
  match fuel with
  | O => rt_panic
  | S fuel =>
      if p ch then when (128 <=? Z.of_nat (length buf)) rt_panic;; next ← token_next_char; buf_loop fuel p (buf ++ [ch]) next
      else when (128 <=? Z.of_nat (length buf)) rt_panic;; mret (buf, ch)
  end.

(** The signed overflow of [value] is taken to wrap around. *)
Fixpoint decimal_loop (fuel : nat) (value ch : Z) : FM (Z * Z) :=
  match fuel with
  | O => rt_panic
  | S fuel =>
      if is_digit ch then next ← token_next_char; decimal_loop fuel (s32 (value * 10 + (ch - CH_0))) next
      else mret (value, ch)
  end.

Definition set_int_value (v : Z) : FM unit := tmod (fun t => set_tk_value (wr DWORD v (tk_value t)) t).

(** [switch (ch)] behind the number *)
Definition number_suffix (ch : Z) : FM unit :=
  if (ch =? 108) || (ch =? 76) then tmod (set_tk_current_token finsh_token_type_value_long) else token_prev_char.

Definition token_proc_number : FM unit :=
  fuel ← token_fuel;
  ch ← token_next_char;
  if ch =? CH_0 then
    ch ← token_next_char;
    digits ← (if (ch =? 120) || (ch =? 88) then
                ch ← token_next_char; r ← buf_loop fuel (fun ch => is_digit ch || is_alpha ch) [] ch; mret (Some (16, r))
              else if (ch =? 98) || (ch =? 66) then
                ch ← token_next_char; r ← buf_loop fuel (fun ch => (ch =? 48) || (ch =? 49)) [] ch; mret (Some (2, r))
              else if (48 <=? ch) && (ch <=? 55) then
                r ← buf_loop fuel (fun ch => (48 <=? ch) && (ch <=? 55)) [] ch; mret (Some (8, r))
              else mret None);
    match digits with
    | None =>
        token_prev_char;;
        set_int_value 0;;
        tmod (set_tk_current_token finsh_token_type_value_int)
    | Some (b, (buf, ch)) =>
        set_int_value (token_spec_number buf b);;
        tmod (set_tk_current_token finsh_token_type_value_int);;
        number_suffix ch
    end
  else
    r ← decimal_loop fuel 0 ch;
    set_int_value r.1;;
    tmod (set_tk_current_token finsh_token_type_value_int);;
    number_suffix r.2.

(** ** Tokens *)

Definition token_is (type : Z) : FM unit := tmod (set_tk_current_token type).

(** A character that may be followed by itself. *)
Definition token_double (c double : Z) (single : FM unit) : FM unit :=
  ch ← token_next_char;
  if ch =? c then token_is double else token_prev_char;; single.

(** [switch (ch)] of [token_run] *)
Definition token_operator (ch : Z) : FM unit :=
  if ch =? CH_LEFT then token_is finsh_token_type_left_paren
  else if ch =? CH_RIGHT then token_is finsh_token_type_right_paren
  else if ch =? CH_COMMA then token_is finsh_token_type_comma
  else if ch =? CH_SEMICOLON then token_is finsh_token_type_semicolon
  else if ch =? CH_AND then token_is finsh_token_type_and
  else if ch =? CH_MUL then token_is finsh_token_type_mul
  else if ch =? CH_ADD then token_double CH_ADD finsh_token_type_inc (token_is finsh_token_type_add)
  else if ch =? CH_SUB then token_double CH_SUB finsh_token_type_dec (token_is finsh_token_type_sub)
  else if ch =? CH_DIV then token_double CH_DIV finsh_token_type_eof (token_is finsh_token_type_div)
  else if ch =? CH_LESS then token_double CH_LESS finsh_token_type_shl (token_is finsh_token_type_bad)
  else if ch =? CH_GREATER then token_double CH_GREATER finsh_token_type_shr (token_is finsh_token_type_bad)
  else if ch =? CH_OR then token_is finsh_token_type_or
  else if ch =? CH_PERCENT then token_is finsh_token_type_mod
  else if ch =? CH_NOT then token_is finsh_token_type_bitwise
  else if ch =? CH_XOR then token_is finsh_token_type_xor
  else if ch =? CH_ASSIGN then token_is finsh_token_type_assign
  else if ch =? CH_QUOTE then
    c ← token_proc_char;
    tmod (fun t => set_tk_value (wr BYTE c (tk_value t)) t);;
    token_is finsh_token_type_value_char
  else if ch =? CH_QUOTE2 then token_proc_string;; token_is finsh_token_type_value_string
  else if is_digit ch then token_prev_char;; token_proc_number
  else finsh_error_set FINSH_ERROR_UNKNOWN_TOKEN;; token_is finsh_token_type_bad.

Definition token_run : FM unit :=
  token_trim_space;;
  token_get_string;;
  eof ← tget tk_eof;
  if (eof : bool) then token_is finsh_token_type_eof
  else
    str ← tget tk_string;
    first ← getso (fun _ => str !! 0%nat);
    if negb (first =? 0) then
      name ← getso (fun _ => c_string str);
      found ← token_match_name name;
      if (found : bool) then mret tt else token_is finsh_token_type_identifier
    else
      ch ← token_next_char;
      token_operator ch.

Definition finsh_token_token : FM Z :=
  replay ← tget tk_replay;
  (if (replay : bool) then tmod (set_tk_replay false) else token_run);;
  tget tk_current_token.

Definition finsh_token_replay : FM unit := tmod (set_tk_replay true).
