(* ===== verification/FinshParser.v ===== *)
(** The parser of the finsh shell (components/finsh/finsh_parser.c): from the tokens of a line to nodes, by recursive descent. *)

From S2P Require Import Prelude ByteMem FinshDef FinshVm FinshSym FinshCompiler FinshHeap FinshToken.

(** ** Tokens and nodes *)

Definition next_token : FM Z := finsh_token_token.

Definition check_token (token type : Z) : FM unit :=
  when (negb (token =? type)) (finsh_error_set FINSH_ERROR_INVALID_TOKEN;; finsh_token_replay).

Definition match_token (type : Z) : FM unit := token ← next_token; check_token token type.

Definition is_base_type (token : Z) : bool :=
  one_of token [finsh_token_type_void; finsh_token_type_char; finsh_token_type_short; finsh_token_type_int; finsh_token_type_long].

Definition make_sys_node (type : Z) (node1 node2 : option nat) : FM (option nat) :=
  node ← finsh_node_allocate type;
  (match node1, node with
   | Some n1, Some n => upd_node n (set_nd_child node1);; upd_node n1 (set_nd_sibling node2)
   | _, _ => finsh_error_set FINSH_ERROR_NULL_NODE
   end);;
  mret node.

(** The text of the current token, as a string. *)
Definition token_string : FM (list Z) := str ← tget tk_string; getso (fun _ => c_string str).

(** [id] has room for one character more than is copied; the NUL that ends a name of that length is taken to be there. *)
Definition proc_identifier : FM (list Z) :=
  match_token finsh_token_type_identifier;;
  str ← token_string;
  mret (strncpy FINSH_NAME_MAX str).

(** ** Types *)

Definition base_type (token : Z) : Z :=
  if token =? finsh_token_type_void then finsh_type_void
  else if token =? finsh_token_type_char then finsh_type_char
  else if token =? finsh_token_type_short then finsh_type_short
  else if token =? finsh_token_type_int then finsh_type_int
  else finsh_type_long.

(** [unsigned void] is no type. *)
Definition unsigned_type (token : Z) : option Z :=
  if token =? finsh_token_type_char then Some finsh_type_uchar
  else if token =? finsh_token_type_short then Some finsh_type_ushort
  else if token =? finsh_token_type_int then Some finsh_type_uint
  else if token =? finsh_token_type_long then Some finsh_type_ulong
  else None.

Definition pointer_type (type : Z) : Z :=
  if one_of type [finsh_type_char; finsh_type_uchar] then finsh_type_charp
  else if one_of type [finsh_type_short; finsh_type_ushort] then finsh_type_shortp
  else if one_of type [finsh_type_int; finsh_type_uint] then finsh_type_intp
  else if one_of type [finsh_type_long; finsh_type_ulong] then finsh_type_longp
  else finsh_type_voidp.

(** [None] is [goto __return]. *)
Definition proc_type : FM Z :=
  token ← next_token;
  type ← (if is_base_type token then mret (Some (base_type token))
          else if token =? finsh_token_type_unsigned then
            token ← next_token;
            if is_base_type token then mret (unsigned_type token)
            else finsh_token_replay;; finsh_error_set FINSH_ERROR_EXPECT_TYPE;; mret (Some finsh_type_unknown)
          else mret None);
  match type with
  | Some type =>
      token ← next_token;
      if token =? finsh_token_type_mul then mret (pointer_type type) else finsh_token_replay;; mret type
  | None => finsh_token_replay;; finsh_error_set FINSH_ERROR_UNKNOWN_TYPE;; mret finsh_type_unknown
  end.

(** ** Binary operators *)

(** The six functions for the levels of binary operators have one form: operands of the level below, and the node types of the operators. *)
Section binary.
Context (operand : FM (option nat)) (operator : Z -> option Z).

Fixpoint binary_loop (fuel : nat) (left : option nat) (token : Z) : FM (option nat) :=
  match fuel with
  | O => rt_panic
  | S fuel =>
      match operator token with
      | Some type =>
          right ← operand;
          left ← (match right with
                  | None => finsh_error_set FINSH_ERROR_EXPECT_OPERATOR;; mret left
                  | Some _ => make_sys_node type left right
                  end);
          token ← next_token;
          binary_loop fuel left token
      | None => finsh_token_replay;; mret left
      end
  end.

Definition binary_expr (fuel : nat) : FM (option nat) :=
  left ← operand;
  token ← next_token;
  binary_loop fuel left token.
End binary.

Definition multiplicative_operator (token : Z) : option Z :=
  if token =? finsh_token_type_mul then Some FINSH_NODE_SYS_MUL
  else if token =? finsh_token_type_div then Some FINSH_NODE_SYS_DIV
  else if token =? finsh_token_type_mod then Some FINSH_NODE_SYS_MOD
  else None.
Definition additive_operator (token : Z) : option Z :=
  if token =? finsh_token_type_sub then Some FINSH_NODE_SYS_SUB
  else if token =? finsh_token_type_add then Some FINSH_NODE_SYS_ADD
  else None.
Definition shift_operator (token : Z) : option Z :=
  if token =? finsh_token_type_shl then Some FINSH_NODE_SYS_SHL
  else if token =? finsh_token_type_shr then Some FINSH_NODE_SYS_SHR
  else None.
Definition and_operator (token : Z) : option Z := if token =? finsh_token_type_and then Some FINSH_NODE_SYS_AND else None.
Definition xor_operator (token : Z) : option Z := if token =? finsh_token_type_xor then Some FINSH_NODE_SYS_XOR else None.
Definition or_operator (token : Z) : option Z := if token =? finsh_token_type_or then Some FINSH_NODE_SYS_OR else None.

(** ** Expressions *)

Section parser.
Context `{FinshLayout}.

(** The functions from [proc_unary_expr] to [proc_assign_expr] call each other; here their calls of [proc_cast_expr] and [proc_assign_expr] that
    come back are arguments, and [fuel] is for their loops. *)
Section levels.
Context (fuel : nat) (proc_cast_expr proc_assign_expr : FM (option nat)).

Fixpoint param_loop (fuel : nat) (assign : nat) (token : Z) : FM unit :=
  match fuel with
  | O => rt_panic
  | S fuel =>
      if token =? finsh_token_type_comma then
        next ← proc_assign_expr;
        upd_node assign (set_nd_sibling next);;
        assign ← (match next with Some n => mret n | None => finsh_error_set FINSH_ERROR_EXPECT_OPERATOR;; mret assign end);
        token ← next_token;
        param_loop fuel assign token
      else finsh_token_replay
  end.

Definition proc_param_list : FM (option nat) :=
  assign ← proc_assign_expr;
  match assign with
  | None => mret None
  | Some n => token ← next_token; param_loop fuel n token;; mret (Some n)
  end.

Definition proc_primary_expr : FM (option nat) :=
  token ← next_token;
  if token =? finsh_token_type_identifier then
    finsh_token_replay;;
    id ← proc_identifier;
    finsh_node_new_id id
  else if token =? finsh_token_type_left_paren then
    expr ← proc_assign_expr;
    match_token finsh_token_type_right_paren;;
    mret expr
  else if token =? finsh_token_type_value_int then v ← tget tk_value; finsh_node_new_int (rd DWORD v)
  else if token =? finsh_token_type_value_long then v ← tget tk_value; finsh_node_new_long (rd DWORD v)
  else if token =? finsh_token_type_value_char then v ← tget tk_value; finsh_node_new_char (rd BYTE v)
  else if token =? finsh_token_type_value_string then str ← token_string; finsh_node_new_string str
  else if token =? finsh_token_type_value_null then finsh_node_new_ptr 0
  else finsh_error_set FINSH_ERROR_INVALID_TOKEN;; mret None.

Fixpoint postfix_loop (fuel : nat) (postfix : option nat) (token : Z) : FM (option nat) :=
  match fuel with
  | O => rt_panic
  | S fuel =>
      if token =? finsh_token_type_inc then
        postfix ← make_sys_node FINSH_NODE_SYS_INC postfix None; token ← next_token; postfix_loop fuel postfix token
      else if token =? finsh_token_type_dec then
        postfix ← make_sys_node FINSH_NODE_SYS_DEC postfix None; token ← next_token; postfix_loop fuel postfix token
      else if token =? finsh_token_type_left_paren then
        token ← next_token;
        param_list ← (if negb (token =? finsh_token_type_right_paren) then
                        finsh_token_replay;;
                        params ← proc_param_list;
                        match_token finsh_token_type_right_paren;;
                        mret params
                      else mret None);
        postfix ← make_sys_node FINSH_NODE_SYS_FUNC postfix param_list; token ← next_token; postfix_loop fuel postfix token
      else finsh_token_replay;; mret postfix
  end.

Definition proc_postfix_expr : FM (option nat) :=
  postfix ← proc_primary_expr;
  token ← next_token;
  postfix_loop fuel postfix token.

Definition proc_unary_expr : FM (option nat) :=
  token ← next_token;
  if token =? finsh_token_type_add then proc_cast_expr
  else if token =? finsh_token_type_inc then cast ← proc_cast_expr; make_sys_node FINSH_NODE_SYS_PREINC cast None
  else if token =? finsh_token_type_sub then
    cast ← proc_cast_expr; zero ← finsh_node_new_long 0; make_sys_node FINSH_NODE_SYS_SUB zero cast
  else if token =? finsh_token_type_dec then cast ← proc_cast_expr; make_sys_node FINSH_NODE_SYS_PREDEC cast None
  else if token =? finsh_token_type_bitwise then cast ← proc_cast_expr; make_sys_node FINSH_NODE_SYS_BITWISE cast None
  else if token =? finsh_token_type_mul then cast ← proc_cast_expr; make_sys_node FINSH_NODE_SYS_GETVALUE cast None
  else if token =? finsh_token_type_and then cast ← proc_cast_expr; make_sys_node FINSH_NODE_SYS_GETADDR cast None
  else finsh_token_replay;; proc_postfix_expr.

(** The bodies of [proc_cast_expr] and [proc_assign_expr]. *)
Definition cast_expr : FM (option nat) :=
  token ← next_token;
  cast ← (if token =? finsh_token_type_left_paren then
            type ← proc_type;
            match_token finsh_token_type_right_paren;;
            cast ← proc_cast_expr;
            match cast with
            | Some i => upd_node i (set_nd_data_type type);; mret (Some i)
            | None => mret None
            end
          else mret None);
  match cast with
  | Some i => mret (Some i)
  | None => finsh_token_replay;; proc_unary_expr
  end.

Definition proc_multiplicative_expr : FM (option nat) := binary_expr proc_cast_expr multiplicative_operator fuel.
Definition proc_additive_expr : FM (option nat) := binary_expr proc_multiplicative_expr additive_operator fuel.
Definition proc_shift_expr : FM (option nat) := binary_expr proc_additive_expr shift_operator fuel.
Definition proc_and_expr : FM (option nat) := binary_expr proc_shift_expr and_operator fuel.
Definition proc_exclusive_or_expr : FM (option nat) := binary_expr proc_and_expr xor_operator fuel.
Definition proc_inclusive_or_expr : FM (option nat) := binary_expr proc_exclusive_or_expr or_operator fuel.

Definition assign_expr : FM (option nat) :=
  or ← proc_inclusive_or_expr;
  token ← next_token;
  if token =? finsh_token_type_assign then
    assign ← proc_assign_expr;
    make_sys_node FINSH_NODE_SYS_ASSIGN or assign
  else finsh_token_replay;; mret or.
End levels.

Fixpoint proc_cast_expr (fuel : nat) : FM (option nat) :=
  match fuel with O => rt_panic | S fuel => fun s => cast_expr fuel (proc_cast_expr fuel) (proc_assign_expr fuel) s end
with proc_assign_expr (fuel : nat) : FM (option nat) :=
  match fuel with O => rt_panic | S fuel => fun s => assign_expr fuel (proc_cast_expr fuel) (proc_assign_expr fuel) s end.

(** ** Declarations and statements *)

Section statements.
Context (fuel : nat).

Definition proc_expr : FM (option nat) := proc_assign_expr fuel.

Definition declare (type : Z) : FM (list Z) :=
  id ← proc_identifier;
  r ← finsh_var_insert id type;
  when (r <? 0) (finsh_error_set FINSH_ERROR_VARIABLE_EXIST);;
  mret id.

(** The assignment of a declaration; [None] if there is no expression. *)
Definition decl_assign (id : list Z) : FM (option (option nat)) :=
  assign ← proc_assign_expr fuel;
  match assign with
  | None => mret None
  | Some _ => idnode ← finsh_node_new_id id; n ← make_sys_node FINSH_NODE_SYS_ASSIGN idnode assign; mret (Some n)
  end.

(** [while (token == finsh_token_type_comma)]; the result is [node] and the last token. *)
Fixpoint decl_loop (n : nat) (type : Z) (node end_ : option nat) (token : Z) : FM (option nat * Z) :=
  match n with
  | O => rt_panic
  | S n =>
      if token =? finsh_token_type_comma then
        id ← declare type;
        token ← next_token;
        if token =? finsh_token_type_assign then
          a ← decl_assign id;
          match a with
          | None => decl_loop n type node end_ token
          | Some new =>
              node ← (match node with
                      | Some _ => match end_ with Some e => upd_node e (set_nd_sibling new);; mret node | None => rt_panic end
                      | None => mret new
                      end);
              token ← next_token;
              decl_loop n type node new token
          end
        else decl_loop n type node end_ token
      else mret (node, token)
  end.

Definition proc_variable_decl : FM (option nat) :=
  type ← proc_type;
  id ← declare type;
  token ← next_token;
  if token =? finsh_token_type_comma then
    r ← decl_loop fuel type None None token;
    check_token r.2 finsh_token_type_semicolon;;
    mret r.1
  else if token =? finsh_token_type_assign then
    a ← decl_assign id;
    r ← (match a with
         | None => mret (None, token)
         | Some node => token ← next_token; decl_loop fuel type node node token
         end);
    check_token r.2 finsh_token_type_semicolon;;
    mret r.1
  else if token =? finsh_token_type_semicolon then mret None
  else finsh_error_set FINSH_ERROR_EXPECT_TYPE;; mret None.

Definition proc_expr_statement : FM (option nat) :=
  token ← next_token;
  if negb (token =? finsh_token_type_semicolon) then
    finsh_token_replay;;
    expr ← proc_expr;
    match_token finsh_token_type_semicolon;;
    mret expr
  else mret None.

(** A statement behind the node [node]; the result is the last node. *)
Definition add_statement (proc : FM (option nat)) (node : option nat) : FM (option nat * bool) :=
  r ← gets root;
  match r with
  | Some _ =>
      new ← proc;
      match node with
      | None => rt_panic
      | Some i => upd_node i (set_nd_sibling new);; mret (match new with Some _ => (new, true) | None => (node, false) end)
      end
  | None => new ← proc; modify (set_root new);; mret (new, true)
  end.

Fixpoint parser_loop (n : nat) (node : option nat) (token : Z) : FM unit :=
  match n with
  | O => rt_panic
  | S n =>
      if (token =? finsh_token_type_eof) || (token =? finsh_token_type_bad) then mret tt
      else
        finsh_token_replay;;
        r ← (if negb (token =? finsh_token_type_identifier) && (is_base_type token || (token =? finsh_token_type_unsigned))
             then add_statement proc_variable_decl node
             else add_statement proc_expr_statement node);
        (* an empty statement that does not begin with an identifier skips a token *)
        when (negb (token =? finsh_token_type_identifier) && negb (is_base_type token || (token =? finsh_token_type_unsigned)) && negb r.2)
          (next_token;; mret tt);;
        root ← gets root;
        match root with
        | None => mret tt
        | Some _ => token ← next_token; parser_loop n r.1 token
        end
  end.

Definition finsh_parser_run (string : list Z) : FM unit :=
  finsh_token_init string;;
  token ← next_token;
  parser_loop fuel None token.
End statements.

Definition finsh_parser_init : FM unit := modify (fun s => set_token zero_token (set_root None s)).
End parser.
