(* ===== verification/FinshLex.v ===== *)
(** The tokenizer of the finsh shell recognises the lexical grammar of C: what the texts of the tokens are, and that it reads them. *)

From S2P Require Import Prelude ByteMem FinshDef FinshVm FinshSym FinshCompiler FinshToken.

(** ** Lexical grammar *)

Inductive tok := TId (x : list Z) | TInt (long : bool) (n : Z) | TChar (c : Z) | TWord (type : Z) | TOp (type : Z).

#[export] Instance tok_eq_dec : EqDecision tok.
Proof. solve_decision. Defined.

Definition kind (t : tok) : Z :=
  match t with
  | TId _ => finsh_token_type_identifier
  | TInt long _ => if long then finsh_token_type_value_long else finsh_token_type_value_int
  | TChar _ => finsh_token_type_value_char
  | TWord type | TOp type => type
  end.

Definition id_char (c : Z) : bool := negb (is_separator c).

(** The operators, their texts, and the character that must not follow them. *)
Definition operators : list (Z * list Z * option Z) :=
  [(finsh_token_type_left_paren, [CH_LEFT], None); (finsh_token_type_right_paren, [CH_RIGHT], None);
   (finsh_token_type_comma, [CH_COMMA], None); (finsh_token_type_semicolon, [CH_SEMICOLON], None);
   (finsh_token_type_and, [CH_AND], None); (finsh_token_type_mul, [CH_MUL], None); (finsh_token_type_or, [CH_OR], None);
   (finsh_token_type_mod, [CH_PERCENT], None); (finsh_token_type_bitwise, [CH_NOT], None); (finsh_token_type_xor, [CH_XOR], None);
   (finsh_token_type_assign, [CH_ASSIGN], None);
   (finsh_token_type_inc, [CH_ADD; CH_ADD], None); (finsh_token_type_dec, [CH_SUB; CH_SUB], None);
   (finsh_token_type_shl, [CH_LESS; CH_LESS], None); (finsh_token_type_shr, [CH_GREATER; CH_GREATER], None);
   (finsh_token_type_add, [CH_ADD], Some CH_ADD); (finsh_token_type_sub, [CH_SUB], Some CH_SUB); (finsh_token_type_div, [CH_DIV], Some CH_DIV)].

(** The number that digits stand for in a base. *)
Definition number (base : Z) (ds : list Z) : Z := foldl (fun v d => v * base + spec_digit d) 0 ds.

Definition suffix_of (long : bool) (suffix : list Z) : Prop := if long then suffix = [108] \/ suffix = [76] else suffix = [].

Definition octal_digit (c : Z) : bool := (48 <=? c) && (c <=? 55).
Definition binary_digit (c : Z) : bool := (c =? 48) || (c =? 49).
Definition hex_digit (c : Z) : bool := is_digit c || ((97 <=? c) && (c <=? 102)) || ((65 <=? c) && (c <=? 70)).

(** The literals of integers: decimal, 0, octal, binary and hexadecimal; the last has no suffix. *)
Inductive literal : bool -> list Z -> Z -> Prop :=
| literal_decimal long d ds suffix : is_digit d = true -> d ≠ CH_0 -> forallb is_digit ds = true -> suffix_of long suffix ->
    literal long (d :: ds ++ suffix) (number 10 (d :: ds))
| literal_zero : literal false [CH_0] 0
| literal_octal long d ds suffix : octal_digit d = true -> forallb octal_digit ds = true -> (length (d :: ds) < 128)%nat -> suffix_of long suffix ->
    literal long (CH_0 :: d :: ds ++ suffix) (number 8 (d :: ds))
| literal_binary long b ds suffix : b = 98 \/ b = 66 -> forallb binary_digit ds = true -> (length ds < 128)%nat -> suffix_of long suffix ->
    literal long (CH_0 :: b :: ds ++ suffix) (number 2 ds)
| literal_hex x ds : x = 120 \/ x = 88 -> forallb hex_digit ds = true -> (length ds < 128)%nat -> literal false (CH_0 :: x :: ds) (number 16 ds).

(** The characters behind a backslash. *)
Definition escape (c : Z) : option Z :=
  if c =? 110 then Some 10 else if c =? 116 then Some 9 else if c =? 118 then Some 11 else if c =? 98 then Some 8 else if c =? 114 then Some 13
  else if c =? CH_BACKSLASH then Some CH_BACKSLASH else if c =? CH_QUOTE then Some CH_QUOTE else None.

(** A name that is not a word of the language and fits into [id]. *)
Definition name_ok (x : list Z) : bool :=
  match x with
  | [] => false
  | c :: _ => negb (is_digit c) && forallb id_char x && (length x <? 16)%nat && negb (existsb (fun e => bool_decide (e.1 = x)) finsh_name_table)
  end.

(** The texts of a token. *)
Inductive spells : tok -> list Z -> Prop :=
| spells_id x : name_ok x = true -> spells (TId x) x
| spells_int long txt n : literal long txt n -> spells (TInt long n) txt
| spells_char c : c ≠ CH_BACKSLASH -> spells (TChar c) [CH_QUOTE; c; CH_QUOTE]
| spells_escape e c : escape e = Some c -> spells (TChar c) [CH_QUOTE; CH_BACKSLASH; e; CH_QUOTE]
| spells_word x type : (x, type) ∈ finsh_name_table -> spells (TWord type) x
| spells_op type txt no : (type, txt, no) ∈ operators -> spells (TOp type) txt.

(** What may follow the text of a token: words and numbers are ended by a character that belongs to neither, and an operator does not go on. *)
Definition ends (t : tok) (rest : list Z) : Prop :=
  match t with
  | TId _ | TInt _ _ | TWord _ => exists c l, rest = c :: l /\ is_separator c = true
  | TChar _ => True
  | TOp type => forall txt c, (type, txt, Some c) ∈ operators -> exists c' l, rest = c' :: l /\ c' ≠ c
  end.

Definition is_blank (c : Z) : bool := (c =? CH_SPACE) || (c =? CH_TAB) || (c =? CH_CR).

(** A text is a sequence of tokens. *)
Inductive lexes : list Z -> list tok -> Prop :=
| lexes_nil w : forallb is_blank w = true -> lexes w []
| lexes_cons w t txt rest ts : forallb is_blank w = true -> spells t txt -> ends t rest -> lexes rest ts -> lexes (w ++ txt ++ rest) (t :: ts).

(** ** The reader *)

Definition adv (k : Z) (tk : finsh_token) : finsh_token := set_tk_position (tk_position tk + k) tk.

(** The rest of the line is [l]. *)
Record reading (l : list Z) (tk : finsh_token) : Prop := {
  rd_eof : tk_eof tk = false;
  rd_pos : 0 <= tk_position tk <= Z.of_nat (length (tk_line tk));
  rd_rest : drop (Z.to_nat (tk_position tk)) (tk_line tk) = l;
  rd_string : length (tk_string tk) = 128%nat;
  rd_chars : Forall (fun c => 0 < c < 256 /\ c ≠ CH_NL) (tk_line tk);
}.

Lemma wp_tget {A} (f : finsh_token -> A) Q s : wp (tget f) Q s <-> Q (f (token s)) s.
Proof. done. Qed.
Lemma wp_tmod f Q s : wp (tmod f) Q s <-> Q tt (set_token (f (token s)) s).
Proof. done. Qed.
#[export] Hint Rewrite @wp_tget wp_tmod : wp.

Lemma reading_char c l tk : reading (c :: l) tk -> tk_line tk !! Z.to_nat (tk_position tk) = Some c /\ 0 < c < 256 /\ c ≠ CH_NL /\ tk_position tk < Z.of_nat (length (tk_line tk)).
Proof.
  intros [He Hp Hr Hs Hc]. assert (tk_line tk !! Z.to_nat (tk_position tk) = Some c) as Hl.
  { replace (Z.to_nat (tk_position tk)) with (Z.to_nat (tk_position tk) + 0)%nat by lia. rewrite <- lookup_drop, Hr. done. }
  pose proof (lookup_lt_Some _ _ _ Hl). rewrite Forall_lookup in Hc. pose proof (Hc _ _ Hl) as [? ?]. split_and!; [done|lia..|done|lia].
Qed.

Lemma reading_next c l tk : reading (c :: l) tk -> reading l (adv 1 tk).
Proof.
  intros Hrd. pose proof (reading_char _ _ _ Hrd) as (_ & _ & _ & Hlt). destruct Hrd as [He Hp Hr Hs Hc].
  split; cbn; [done|lia| |done|done]. replace (Z.to_nat (tk_position tk + 1)) with (Z.to_nat (tk_position tk) + 1)%nat by lia.
  by rewrite <- drop_drop, Hr.
Qed.

Lemma adv_adv a b tk : adv a (adv b tk) = adv (b + a) tk.
Proof. unfold adv, set_tk_position. cbn. f_equal. lia. Qed.
Lemma adv_0 tk : adv 0 tk = tk.
Proof. unfold adv. rewrite Z.add_0_r. by destruct tk. Qed.

Lemma reading_app l1 l2 tk : reading (l1 ++ l2) tk -> reading l2 (adv (Z.of_nat (length l1)) tk).
Proof.
  revert tk. induction l1 as [|c l1 IH]; intros tk Hr; [by rewrite adv_0|]. apply reading_next, IH in Hr. rewrite adv_adv in Hr.
  by replace (Z.of_nat (length (c :: l1))) with (1 + Z.of_nat (length l1)) by (simpl length; lia).
Qed.

Lemma reading_length l tk : reading l tk -> (length l <= length (tk_line tk))%nat.
Proof. intros [He Hp <- Hs Hc]. rewrite length_drop. lia. Qed.

(** ** Numbers *)

Lemma s32_step base v d : s32 (s32 v * base + d) = s32 (v * base + d).
Proof.
  apply (rd_ext DWORD). simpl bits. unfold uwrap. rewrite <- (Zplus_mod_idemp_l (s32 v * base)), <- Zmult_mod_idemp_l.
  fold (uwrap 32 (s32 v)). rewrite uwrap_swrap by lia. unfold uwrap. by rewrite Zmult_mod_idemp_l, Zplus_mod_idemp_l.
Qed.

Lemma u32_shift_step sh v d : 0 < sh < 32 -> 0 <= d < 2 ^ sh -> u32 (u32 (Z.shiftl (u32 v) sh) .| u32 d) = u32 (v * 2 ^ sh + d).
Proof.
  intros Hsh Hd. set (m := v mod 2 ^ (32 - sh)).
  assert (0 < 2 ^ sh) by (apply Z.pow_pos_nonneg; lia). assert (0 < 2 ^ (32 - sh)) by (apply Z.pow_pos_nonneg; lia).
  assert (2 ^ 32 = 2 ^ (32 - sh) * 2 ^ sh) as E32 by (rewrite <- Z.pow_add_r by lia; f_equal; lia).
  assert (0 <= m < 2 ^ (32 - sh)) as Hm by (apply Z.mod_pos_bound; lia).
  assert (u32 (Z.shiftl (u32 v) sh) = Z.shiftl m sh) as ->.
  { rewrite !Z.shiftl_mul_pow2 by lia. unfold uwrap. rewrite Zmult_mod_idemp_l, E32, Z.mul_mod_distr_r by lia. done. }
  assert (u32 d = d) as -> by (apply uwrap_small; nia).
  rewrite Z.lor_comm, lor_shiftl by lia. unfold uwrap, m. rewrite E32 at 1 2.
  rewrite <- Z.mul_mod_distr_r by lia. rewrite <- E32, Zplus_mod_idemp_r. f_equal. lia.
Qed.

Lemma spec_number_loop sh ds n w : 0 < sh < 32 -> Forall (fun c => 0 <= spec_digit c < 2 ^ sh) ds ->
  u32 (nth 0 (foldl (fun bn c => bn_shift sh (spec_digit c) bn) [u32 n; w] ds) 0) = u32 (foldl (fun v d => v * 2 ^ sh + spec_digit d) n ds).
Proof.
  intros Hsh Hds. revert n w. induction Hds as [|c ds Hc _ IH]; intros n w; [simpl; by rewrite uwrap_uwrap|].
  cbn [foldl bn_shift]. rewrite u32_shift_step by done. apply IH.
Qed.

(** The bit operations compute the number. *)
Lemma token_spec_number_spec b ds : b = 2 \/ b = 8 \/ b = 16 -> Forall (fun c => 0 <= spec_digit c < b) ds -> token_spec_number ds b = s32 (number b ds).
Proof.
  intros Hb Hds. unfold token_spec_number, number. apply (rd_ext DWORD). simpl bits.
  destruct Hb as [-> | [-> | ->]]; simpl; [exact (spec_number_loop 1 ds 0 0 ltac:(lia) Hds)|exact (spec_number_loop 3 ds 0 0 ltac:(lia) Hds)|
    exact (spec_number_loop 4 ds 0 0 ltac:(lia) Hds)].
Qed.

Lemma is_digit_spec c : is_digit c = true <-> 48 <= c <= 57.
Proof. unfold is_digit. rewrite andb_true_iff, !Z.leb_le. done. Qed.
Lemma octal_digit_spec c : octal_digit c = true <-> 48 <= c <= 55.
Proof. unfold octal_digit. rewrite andb_true_iff, !Z.leb_le. done. Qed.
Lemma binary_digit_spec c : binary_digit c = true <-> c = 48 \/ c = 49.
Proof. unfold binary_digit. rewrite orb_true_iff, !Z.eqb_eq. done. Qed.
Lemma hex_digit_spec c : hex_digit c = true <-> 48 <= c <= 57 \/ 97 <= c <= 102 \/ 65 <= c <= 70.
Proof. unfold hex_digit. rewrite !orb_true_iff, is_digit_spec, !andb_true_iff, !Z.leb_le. tauto. Qed.

Ltac digit_cases := unfold spec_digit; repeat match goal with |- context [?a <=? ?b] => destruct (Z.leb_spec a b) end; simpl; lia.
Lemma octal_value c : octal_digit c = true -> 0 <= spec_digit c < 8.
Proof. rewrite octal_digit_spec. intros. digit_cases. Qed.
Lemma binary_value c : binary_digit c = true -> 0 <= spec_digit c < 2.
Proof. rewrite binary_digit_spec. intros. digit_cases. Qed.
Lemma hex_value c : hex_digit c = true -> 0 <= spec_digit c < 16.
Proof. rewrite hex_digit_spec. intros. digit_cases. Qed.
Lemma decimal_value c : is_digit c = true -> spec_digit c = c - CH_0.
Proof. rewrite is_digit_spec. intros. digit_cases. Qed.

Lemma forallb_impl {A} (p : A -> bool) (P : A -> Prop) l : (forall x, p x = true -> P x) -> forallb p l = true -> Forall P l.
Proof. intros HP. induction l as [|x l IH]; simpl; [done|]. rewrite andb_true_iff. intros [Hx Hl]. constructor; auto. Qed.

(** A property of bytes is decided by looking at all of them. *)
Lemma byte_forall (p : Z -> bool) c : forallb p (seqZ 0 256) = true -> 0 <= c < 256 -> p c = true.
Proof. intros Hp Hc. rewrite forallb_forall in Hp. apply Hp, list_elem_of_In, elem_of_seqZ. lia. Qed.

Lemma separator_not_alpha c : 0 <= c < 256 -> is_separator c = true -> is_digit c || is_alpha c = false.
Proof.
  intros Hc Hs. pose proof (byte_forall (fun c => negb (is_separator c) || negb (is_digit c || is_alpha c)) c eq_refl Hc) as Hb.
  cbv beta in Hb. rewrite Hs in Hb. simpl in Hb. by apply negb_true_iff in Hb.
Qed.
Lemma hex_digit_alpha c : hex_digit c = true -> is_digit c || is_alpha c = true.
Proof.
  intros Hc. pose proof (proj1 (hex_digit_spec c) Hc). pose proof (byte_forall (fun c => negb (hex_digit c) || (is_digit c || is_alpha c)) c eq_refl ltac:(lia)) as Hb.
  cbv beta in Hb. by rewrite Hc in Hb.
Qed.

(** A separator is no digit of a kind, and no letter that goes on a number. *)
Lemma separator_spec c : is_separator c = true -> ~ (97 <= c <= 122) /\ ~ (65 <= c <= 90) /\ ~ (48 <= c <= 57) /\ c ≠ 95.
Proof. unfold is_separator. rewrite negb_true_iff, !orb_false_iff, !andb_false_iff, !Z.leb_gt, Z.eqb_neq. lia. Qed.

Section reader.
Context (s : finsh).
Local Abbreviation st tk := (set_token tk s).

Lemma wp_next_char c l tk (Q : Z -> finsh -> Prop) : reading (c :: l) tk -> Q c (st (adv 1 tk)) -> wp token_next_char Q (st tk).
Proof.
  intros Hrd HQ. destruct (reading_char _ _ _ Hrd) as (Hl & H0 & Hn & Hlt). unfold token_next_char. rewrite wp_bind, wp_tget.
  cbn [token set_token]. unfold id. rewrite (rd_eof _ _ Hrd). destruct (Z.eqb_spec (tk_position tk) (Z.of_nat (length (tk_line tk)))); [lia|].
  rewrite wp_bind, wp_getso. exists c. split; [destruct (Z.leb_spec 0 (tk_position tk)); [done|destruct Hrd; lia]|].
  destruct (Z.eqb_spec c CH_NL); [done|]. rewrite wp_bind, wp_tmod, wp_ret. exact HQ.
Qed.

(** The end of the line. *)
Definition at_end (tk : finsh_token) : finsh_token := set_tk_position 0 (set_tk_eof true tk).

Lemma wp_next_char_end tk (Q : Z -> finsh -> Prop) : reading [] tk -> Q 0 (st (at_end tk)) -> wp token_next_char Q (st tk).
Proof.
  intros Hrd HQ. unfold token_next_char. rewrite wp_bind, wp_tget. cbn [token set_token]. unfold id. rewrite (rd_eof _ _ Hrd).
  destruct (Z.eqb_spec (tk_position tk) (Z.of_nat (length (tk_line tk)))) as [|Hne]; [by rewrite wp_bind, wp_tmod, wp_ret|].
  destruct Hrd as [_ Hp Hr _ _]. apply (f_equal length) in Hr. rewrite length_drop in Hr. simpl in Hr. lia.
Qed.

Lemma wp_prev_char tk l (Q : unit -> finsh -> Prop) : reading l tk -> Q tt (st tk) -> wp token_prev_char Q (st (adv 1 tk)).
Proof.
  intros [He Hp _ _ _] HQ. unfold token_prev_char. rewrite wp_bind, wp_tget. cbn [token set_token]. unfold id.
  replace (tk_eof (adv 1 tk)) with false by done. destruct (Z.eqb_spec (tk_position (adv 1 tk)) 0); [cbn in *; lia|].
  rewrite wp_tmod. cbn [token set_token]. by replace (set_tk_position (tk_position (adv 1 tk) - 1) (adv 1 tk)) with tk
    by (destruct tk; unfold adv, set_tk_position; cbn; f_equal; lia).
Qed.

Lemma wp_trim_loop w c l fuel tk (Q : unit -> finsh -> Prop) :
  forallb is_blank w = true -> is_blank c = false -> reading (w ++ c :: l) tk -> (length w < fuel)%nat ->
  Q tt (st (adv (Z.of_nat (length w) + 1) tk)) -> wp (trim_loop fuel) Q (st tk).
Proof.
  revert fuel tk. induction w as [|x w IH]; intros [|fuel] tk Hw Hc Hrd Hf HQ; simpl in Hf; try lia; cbn [trim_loop]; rewrite wp_bind.
  - eapply wp_next_char; [exact Hrd|]. unfold is_blank in Hc. by rewrite Hc.
  - simpl in Hw. apply andb_true_iff in Hw as [Hx Hw]. eapply wp_next_char; [exact Hrd|]. unfold is_blank in Hx. rewrite Hx.
    apply IH; [done|done|by eapply reading_next|lia|]. rewrite adv_adv. simpl length in HQ.
    by replace (1 + (Z.of_nat (length w) + 1)) with (Z.of_nat (S (length w)) + 1) by lia.
Qed.

Lemma wp_trim w c l tk (Q : unit -> finsh -> Prop) :
  forallb is_blank w = true -> is_blank c = false -> reading (w ++ c :: l) tk -> Q tt (st (adv (Z.of_nat (length w)) tk)) -> wp token_trim_space Q (st tk).
Proof.
  intros Hw Hc Hrd HQ. unfold token_trim_space, token_fuel. rewrite wp_bind, wp_tget, wp_bind. eapply wp_trim_loop; [done|done|exact Hrd| |].
  { pose proof (reading_length _ _ Hrd) as Hl. rewrite length_app in Hl. cbn [token set_token]. lia. }
  rewrite <- adv_adv. eapply wp_prev_char; [by eapply reading_app|done].
Qed.

(** ** Words *)

Definition with_string (str : list Z) (tk : finsh_token) : finsh_token := set_tk_string str tk.

Lemma reading_string l str tk : length str = 128%nat -> reading l tk -> reading l (with_string str tk).
Proof. by intros Hl [He Hp Hr Hs Hc]. Qed.

Lemma wp_put_char i c tk (Q : unit -> finsh -> Prop) :
  0 <= i < 128 -> length (tk_string tk) = 128%nat -> Q tt (st (with_string (<[Z.to_nat i := u8 c]> (tk_string tk)) tk)) -> wp (put_char i c) Q (st tk).
Proof.
  intros Hi Hl HQ. unfold put_char. rewrite wp_bind, wp_tget, wp_bind, wp_getso. cbn [token set_token].
  destruct (lookup_lt_is_Some_2 (tk_string tk) (Z.to_nat i)) as [x Hx]; [lia|]. exists x. split; [done|]. by rewrite wp_tmod.
Qed.

Lemma take_insert_last (str : list Z) n c : (n < length str)%nat -> take (S n) (<[n := c]> str) = take n str ++ [c].
Proof.
  intros Hn. rewrite (take_S_r _ _ c) by (by apply list_lookup_insert_eq). by rewrite take_insert_ge by lia.
Qed.

Lemma wp_get_string_loop x c l fuel pre tk (Q : Z -> finsh -> Prop) :
  forallb id_char x = true -> is_separator c = true -> (length pre + length x < 128)%nat -> (length x < fuel)%nat ->
  reading (tail (x ++ c :: l)) tk -> take (length pre) (tk_string tk) = pre -> Forall (fun c => 0 < c < 256) x ->
  (forall str, length str = 128%nat -> take (length pre + length x) str = pre ++ x ->
     Q (Z.of_nat (length pre + length x)) (st (with_string str (adv (Z.of_nat (length x)) tk)))) ->
  wp (get_string_loop fuel (Z.of_nat (length pre)) (hd 0 (x ++ c :: l))) Q (st tk).
Proof.
  revert fuel pre tk. induction x as [|a x IH]; intros [|fuel] pre tk Hx Hc Hn Hf Hrd Hpre Hb HQ; simpl in Hf; try lia;
    cbn [get_string_loop hd app]; rewrite wp_bind, wp_tget; cbn [token set_token].
  - rewrite Hc. simpl. specialize (HQ (tk_string tk) (rd_string _ _ Hrd)). simpl in HQ. rewrite Nat.add_0_r, app_nil_r, adv_0 in HQ.
    replace tk with (with_string (tk_string tk) tk) by (by destruct tk). by apply HQ.
  - simpl in Hx. apply andb_true_iff in Hx as [Ha Hx]. unfold id_char in Ha. apply negb_true_iff in Ha. rewrite Ha, (rd_eof _ _ Hrd). simpl.
    apply Forall_cons in Hb as [Hab Hb]. simpl in Hn, Hrd. rewrite wp_bind. apply wp_put_char; [lia|apply Hrd|]. rewrite Nat2Z.id.
    set (str1 := <[length pre := u8 a]> (tk_string tk)).
    assert (length str1 = 128%nat) as Hl1 by (unfold str1; rewrite length_insert; apply Hrd).
    pose proof (reading_string _ str1 _ Hl1 Hrd) as Hrd1. rewrite wp_bind.
    assert (exists b m, x ++ c :: l = b :: m) as (b & m & Eb) by (destruct x; simpl; eauto).
    rewrite Eb in Hrd1. eapply wp_next_char; [exact Hrd1|].
    replace b with (hd 0 (x ++ c :: l)) by (by rewrite Eb). replace (Z.of_nat (length pre) + 1) with (Z.of_nat (length (pre ++ [a]))) by (rewrite length_app; simpl; lia).
    apply IH; [done|done|rewrite length_app; simpl; lia|lia| | |done|].
    + rewrite Eb. by apply reading_next in Hrd1.
    + cbn. rewrite length_app. simpl. rewrite Nat.add_1_r. unfold str1. rewrite take_insert_last by (rewrite (rd_string _ _ Hrd); lia).
      by rewrite Hpre, u8_small by lia.
    + intros str Hl Hs. rewrite length_app in *. simpl in *. rewrite <- !app_assoc in Hs. 
      replace (length pre + 1 + length x)%nat with (length pre + S (length x))%nat in * by lia.
      specialize (HQ str Hl Hs). eapply eq_ind; [exact HQ|]. unfold with_string, adv, set_tk_string, set_tk_position. cbn. do 2 f_equal. lia.
Qed.

(** Two descriptions of one token record. *)
Ltac tok_eq := unfold at_end, with_string, adv, set_tk_eof, set_tk_string, set_tk_position, set_tk_value, set_tk_current_token, set_tk_replay; cbn; f_equal; lia.

Lemma wp_prev_char_at tk tk' l (Q : unit -> finsh -> Prop) :
  tk' = adv 1 tk -> reading l tk -> Q tt (st tk) -> wp token_prev_char Q (st tk').
Proof. intros ->. apply wp_prev_char. Qed.

Lemma set_eof_same l tk : reading l tk -> set_tk_eof false tk = tk.
Proof. intros [He _ _ _ _]. destruct tk. cbn in He. by subst. Qed.

Lemma c_string_take str x : Forall (fun c => 0 < c < 256) x -> take (length x) str = x -> str !! length x = Some 0 -> c_string str = Some x.
Proof.
  revert str. induction x as [|c x IH]; intros [|b str] Hx Ht Hl; try done; simpl in *; [by injection Hl as ->|].
  injection Ht as -> Ht. apply Forall_cons in Hx as [Hc Hx]. destruct (Z.eqb_spec c 0); [lia|]. by rewrite (IH str).
Qed.

Lemma reading_forall l1 l2 tk : reading (l1 ++ l2) tk -> Forall (fun c => 0 < c < 256) l1.
Proof.
  intros [_ _ Hr _ Hc]. apply (Forall_drop _ (Z.to_nat (tk_position tk))) in Hc. rewrite Hr in Hc. apply Forall_app in Hc as [Hc _].
  eapply Forall_impl; [exact Hc|]. by intros ? [? _].
Qed.

Lemma wp_get_string_word a x c l tk (Q : Z -> finsh -> Prop) :
  forallb id_char (a :: x) = true -> is_digit a = false -> is_separator c = true -> (length (a :: x) < 128)%nat -> reading ((a :: x) ++ c :: l) tk ->
  (forall str, length str = 128%nat -> c_string str = Some (a :: x) -> str !! 0%nat = Some a -> Q 0 (st (with_string str (adv (Z.of_nat (length (a :: x))) tk)))) ->
  wp token_get_string Q (st tk).
Proof.
  intros Hx Ha Hc Hn Hrd HQ. pose proof (reading_forall _ _ _ Hrd) as Hb. unfold token_get_string. rewrite wp_bind.
  eapply wp_next_char; [exact Hrd|]. pose proof (reading_next _ _ _ Hrd) as Hrd1. rewrite wp_bind, wp_tget. cbn [token set_token].
  rewrite (rd_eof _ _ Hrd1), wp_bind. apply wp_put_char; [lia|apply Hrd1|]. rewrite Ha. set (str0 := <[Z.to_nat 0 := u8 0]> _).
  assert (length str0 = 128%nat) as Hl0 by (unfold str0; rewrite length_insert; apply Hrd1).
  apply (reading_string _ str0) in Hrd1; [|done]. unfold token_fuel. rewrite wp_bind, wp_tget, wp_bind.
  apply (wp_get_string_loop (a :: x) c l _ []); [done|done|simpl in *; lia| |exact Hrd1|done|done|].
  { pose proof (reading_length _ _ Hrd) as Hl. rewrite length_app in Hl. cbn. simpl in Hl. lia. }
  intros str Hl Hs. cbn [app] in Hs. rewrite wp_bind, wp_tmod. cbn [token set_token]. set (tk1 := set_tk_eof false _).
  set (n := length (a :: x)) in *. simpl length in Hs. replace (0 + n)%nat with n in * by lia.
  assert (length (with_string str tk).(tk_string) = 128%nat) as Hls by done.
  pose proof (reading_app _ _ _ Hrd) as Hrd2. fold n in Hrd2. apply (reading_string _ str) in Hrd2; [|done]. change (length []) with 0%nat. rewrite Nat.add_0_l.
  rewrite wp_bind. eapply (wp_prev_char_at (with_string str (adv (Z.of_nat n) tk))); [|exact Hrd2|].
  { pose proof (rd_eof _ _ Hrd) as He. unfold tk1. rewrite <- He. tok_eq. }
  rewrite wp_bind. apply wp_put_char; [lia|done|]. rewrite wp_ret, Nat2Z.id.
  apply HQ; [by rewrite length_insert| |].
  - apply c_string_take; [done| |].
    + by rewrite take_insert_ge by (fold n; lia).
    + fold n. rewrite list_lookup_insert_eq by (change (n < length str)%nat; lia). done.
  - rewrite list_lookup_insert_ne by (unfold n; simpl; lia). cbn [with_string tk_string set_tk_string].
    assert (take n str !! 0%nat = Some a) as Hh by (by rewrite Hs). by rewrite lookup_take in Hh by (unfold n; simpl; lia).
Qed.

Lemma wp_get_string_other c l tk (Q : Z -> finsh -> Prop) :
  is_separator c || is_digit c = true -> reading (c :: l) tk ->
  (forall str r, length str = 128%nat -> str !! 0%nat = Some 0 -> Q r (st (with_string str tk))) ->
  wp token_get_string Q (st tk).
Proof.
  intros Hc Hrd HQ. unfold token_get_string. rewrite wp_bind.
  eapply wp_next_char; [exact Hrd|]. pose proof (reading_next _ _ _ Hrd) as Hrd1. rewrite wp_bind, wp_tget. cbn [token set_token].
  rewrite (rd_eof _ _ Hrd1), wp_bind. apply wp_put_char; [lia|apply Hrd1|]. set (str0 := <[Z.to_nat 0 := u8 0]> _).
  assert (length str0 = 128%nat) as Hl0 by (unfold str0; rewrite length_insert; apply Hrd1).
  assert (str0 !! 0%nat = Some 0) as H0 by (unfold str0; rewrite list_lookup_insert_eq; [done|rewrite (rd_string _ _ Hrd1); simpl; lia]).
  pose proof (reading_string _ str0 _ Hl0 Hrd) as Hrd0.
  destruct (is_digit c) eqn:Ed.
  - rewrite wp_bind. eapply (wp_prev_char_at (with_string str0 tk)); [tok_eq|exact Hrd0|]. rewrite wp_ret. by apply HQ.
  - rewrite orb_false_r in Hc. unfold token_fuel. rewrite wp_bind, wp_tget, wp_bind. cbn [get_string_loop]. rewrite wp_bind, wp_tget. cbn [token set_token].
    rewrite Hc. simpl. rewrite wp_ret, wp_bind, wp_tmod. cbn [token set_token]. rewrite wp_bind.
    eapply (wp_prev_char_at (with_string str0 tk)); [|exact Hrd0|].
    { pose proof (rd_eof _ _ Hrd) as He. rewrite <- He. tok_eq. }
    rewrite wp_bind. apply wp_put_char; [lia|done|]. rewrite wp_ret. apply HQ; [cbn; by rewrite length_insert|].
    cbn. rewrite list_lookup_insert_eq by (simpl; lia). done.
Qed.

Lemma wp_get_string_end tk (Q : Z -> finsh -> Prop) : reading [] tk -> Q (-1) (st (at_end tk)) -> wp token_get_string Q (st tk).
Proof. intros Hrd HQ. unfold token_get_string. rewrite wp_bind. eapply wp_next_char_end; [done|]. done. Qed.

(** ** Literals *)

Lemma split_head (x : list Z) c l : exists a m, x ++ c :: l = a :: m /\ hd 0 (x ++ c :: l) = a /\ tail (x ++ c :: l) = m.
Proof. destruct x as [|a x]; simpl; eauto. Qed.

(** Reading goes on behind the first character of [x ++ c :: l]. *)
Lemma wp_next_char_hd x c l tk (Q : Z -> finsh -> Prop) :
  reading (x ++ c :: l) tk -> (reading (tail (x ++ c :: l)) (adv 1 tk) -> Q (hd 0 (x ++ c :: l)) (st (adv 1 tk))) -> wp token_next_char Q (st tk).
Proof.
  destruct (split_head x c l) as (a & m & E & -> & ->). rewrite E. intros Hrd HQ. eapply wp_next_char; [exact Hrd|]. by apply HQ, (reading_next a).
Qed.

Lemma wp_buf_loop p ds c l fuel buf tk (Q : list Z * Z -> finsh -> Prop) :
  forallb p ds = true -> p c = false -> (length buf + length ds < 128)%nat -> (length ds < fuel)%nat -> reading (tail (ds ++ c :: l)) tk ->
  Q (buf ++ ds, c) (st (adv (Z.of_nat (length ds)) tk)) -> wp (buf_loop fuel p buf (hd 0 (ds ++ c :: l))) Q (st tk).
Proof.
  revert fuel buf tk. induction ds as [|d ds IH]; intros [|fuel] buf tk Hds Hc Hn Hf Hrd HQ; simpl in Hf; try lia; cbn [buf_loop hd app].
  - rewrite Hc, wp_bind, wp_when. right. split; [simpl in Hn; apply Z.leb_gt; lia|]. rewrite wp_ret. rewrite app_nil_r, adv_0 in HQ. exact HQ.
  - simpl in Hds. apply andb_true_iff in Hds as [Hd Hds]. rewrite Hd, wp_bind, wp_when. right. split; [simpl in Hn; apply Z.leb_gt; lia|].
    rewrite wp_bind. cbn [tail app] in Hrd. eapply wp_next_char_hd; [exact Hrd|]. intros Hrd'. apply IH; [done|done|rewrite length_app; simpl in *; lia|lia|done|].
    rewrite <- app_assoc. rewrite adv_adv. by replace (1 + Z.of_nat (length ds)) with (Z.of_nat (length (d :: ds))) by (simpl length; lia).
Qed.

Lemma wp_decimal_loop ds c l fuel n tk (Q : Z * Z -> finsh -> Prop) :
  forallb is_digit ds = true -> is_digit c = false -> (length ds < fuel)%nat -> reading (tail (ds ++ c :: l)) tk ->
  Q (s32 (foldl (fun v d => v * 10 + spec_digit d) n ds), c) (st (adv (Z.of_nat (length ds)) tk)) ->
  wp (decimal_loop fuel (s32 n) (hd 0 (ds ++ c :: l))) Q (st tk).
Proof.
  revert fuel n tk. induction ds as [|d ds IH]; intros [|fuel] n tk Hds Hc Hf Hrd HQ; simpl in Hf; try lia; cbn [decimal_loop hd app].
  - rewrite Hc, wp_ret. rewrite adv_0 in HQ. exact HQ.
  - simpl in Hds. apply andb_true_iff in Hds as [Hd Hds]. rewrite Hd, wp_bind. cbn [tail app] in Hrd.
    eapply wp_next_char_hd; [exact Hrd|]. intros Hrd'. rewrite s32_step. apply IH; [done|done|lia|done|].
    cbn [foldl] in HQ. rewrite (decimal_value d Hd) in HQ. rewrite adv_adv.
    by replace (1 + Z.of_nat (length ds)) with (Z.of_nat (length (d :: ds))) by (simpl length; lia).
Qed.

Lemma reading_same l tk tk' :
  tk_eof tk' = tk_eof tk -> tk_position tk' = tk_position tk -> tk_line tk' = tk_line tk -> length (tk_string tk') = length (tk_string tk) ->
  reading l tk -> reading l tk'.
Proof. intros E1 E2 E3 E4 [He Hp Hr Hs Hc]. split; [congruence|by rewrite E2, E3|by rewrite E2, E3|congruence|by rewrite E3]. Qed.

Lemma wp_set_int_value v tk (Q : unit -> finsh -> Prop) : Q tt (st (set_tk_value (wr DWORD v (tk_value tk)) tk)) -> wp (set_int_value v) Q (st tk).
Proof. intros HQ. unfold set_int_value. rewrite wp_tmod. exact HQ. Qed.

(** The token of an integer literal. *)
Definition int_token (long : bool) (n : Z) (tk : finsh_token) : Prop :=
  tk_current_token tk = kind (TInt long n) /\ rd DWORD (tk_value tk) = s32 n.

(** The end of a number: its value, its type and its suffix. *)
Lemma wp_number_end long suffix e m rest c l n v tk (Q : unit -> finsh -> Prop) :
  suffix_of long suffix -> suffix ++ rest = e :: m -> rest = c :: l -> is_separator c = true -> reading (e :: m) tk -> v = s32 n ->
  (forall tk', reading rest tk' -> int_token long n tk' -> tk_replay tk' = tk_replay tk -> Q tt (st tk')) ->
  wp (set_int_value v;; tmod (set_tk_current_token finsh_token_type_value_int);; number_suffix e) Q (st (adv 1 tk)).
Proof.
  intros Hsuf Es Hrest Hc Hrd -> HQ. rewrite wp_bind. apply wp_set_int_value. rewrite wp_bind, wp_tmod. cbn [token set_token].
  change (set_token ?a (set_token ?b s)) with (set_token a s).
  set (tk1 := set_tk_current_token 27 (set_tk_value (wr DWORD (s32 n) (tk_value tk)) tk)).
  assert (reading (e :: m) tk1) as Hrd1 by (by eapply reading_same; [..|exact Hrd]).
  assert (forall b, rd DWORD (wr DWORD (s32 n) b) = s32 n) as Hv by (intros b; rewrite rd_wr; exact (rd_rd DWORD n)).
  unfold number_suffix. destruct long; simpl in Hsuf.
  - assert ((e =? 108) || (e =? 76) = true /\ m = rest) as [-> ->] by (destruct Hsuf as [-> | ->]; by injection Es as <- <-).
    rewrite wp_tmod. apply HQ; [|by split; [|apply Hv]|done]. eapply reading_same; [..|exact (reading_next _ _ _ Hrd)]; done.
  - subst suffix. simpl in Es. rewrite Hrest in Es. injection Es as <- <-.
    assert ((c =? 108) || (c =? 76) = false) as -> by (apply separator_spec in Hc; rewrite orb_false_iff, !Z.eqb_neq; lia).
    eapply (wp_prev_char_at tk1); [tok_eq|exact Hrd1|]. apply HQ; [by rewrite Hrest|by split; [|apply Hv]|done].
Qed.

Lemma suffix_head long suffix rest c l : suffix_of long suffix -> rest = c :: l -> is_separator c = true ->
  exists e m, suffix ++ rest = e :: m /\ (e = 108 \/ e = 76 \/ is_separator e = true).
Proof.
  intros Hsuf -> Hc. destruct long; simpl in Hsuf; [|subst suffix; simpl; eexists _, _; split; [reflexivity|tauto]]. destruct Hsuf as [-> | ->]; simpl; eexists _, _; (split; [reflexivity|tauto]).
Qed.

(** What may come behind digits is none of them. *)
Lemma not_digit e : e = 108 \/ e = 76 \/ is_separator e = true ->
  is_digit e = false /\ octal_digit e = false /\ binary_digit e = false.
Proof.
  intros He. assert (~ (48 <= e <= 57)) as Hn by (destruct He as [-> | [-> | He%separator_spec]]; lia).
  split_and!; apply not_true_is_false; rewrite ?is_digit_spec, ?octal_digit_spec, ?binary_digit_spec; lia.
Qed.

(** *** The cases of a literal *)

Local Abbreviation int_next long n rest tk Q :=
  (forall tk', reading rest tk' -> int_token long n tk' -> tk_replay tk' = tk_replay tk -> Q tt (st tk')).

(** Digits behind a prefix. *)
Lemma wp_digits p (b : Z) ds e m fuel tk (Q : option (Z * (list Z * Z)) -> finsh -> Prop) :
  forallb p ds = true -> p e = false -> (length ds < 128)%nat -> (length ds < fuel)%nat -> reading (ds ++ e :: m) tk ->
  Q (Some (b, (ds, e))) (st (adv 1 (adv (Z.of_nat (length ds)) tk))) ->
  wp (ch ← token_next_char; r ← buf_loop fuel p [] ch; mret (Some (b, r))) Q (st tk).
Proof.
  intros Hds Hp Hn Hf Hrd HQ. rewrite wp_bind. eapply wp_next_char_hd; [exact Hrd|]. intros Hrd'. rewrite wp_bind.
  apply wp_buf_loop; [done|done|simpl; lia|lia|done|]. rewrite wp_ret. rewrite adv_adv in *.
  by replace (1 + Z.of_nat (length ds)) with (Z.of_nat (length ds) + 1) by lia.
Qed.

(** A number in one of the bases 2, 8 and 16. *)
Lemma wp_based_end long suffix e m rest c l b ds tk (Q : unit -> finsh -> Prop) :
  suffix_of long suffix -> suffix ++ rest = e :: m -> rest = c :: l -> is_separator c = true -> reading (ds ++ e :: m) tk ->
  b = 2 \/ b = 8 \/ b = 16 -> Forall (fun c => 0 <= spec_digit c < b) ds -> int_next long (number b ds) rest tk Q ->
  wp (set_int_value (token_spec_number ds b);; tmod (set_tk_current_token finsh_token_type_value_int);; number_suffix e) Q (st (adv 1 (adv (Z.of_nat (length ds)) tk))).
Proof.
  intros Hsuf Ee Hrest Hc Hrd Hb Hv HQ.
  eapply (wp_number_end long suffix e m rest c l (number b ds)); [done|done|done|done|by apply (reading_app ds)|by apply token_spec_number_spec|].
  intros tk' H1 H2 H3. by apply HQ.
Qed.

Lemma reading_fuel l tk : reading l tk -> (length l < S (S (length (tk_line (token (st tk))))))%nat.
Proof. intros Hrd%reading_length. cbn [token set_token]. lia. Qed.

Lemma wp_proc_number long txt n rest c l tk (Q : unit -> finsh -> Prop) :
  literal long txt n -> rest = c :: l -> is_separator c = true -> reading (txt ++ rest) tk -> int_next long n rest tk Q -> wp token_proc_number Q (st tk).
Proof.
  intros Hlit Hrest Hc Hrd HQ. pose proof (reading_fuel _ _ Hrd) as Hf. unfold token_proc_number, token_fuel. rewrite wp_bind, wp_tget, wp_bind.
  destruct Hlit as [long d ds suffix Hd Hd0 Hds Hsuf| |long d ds suffix Hd Hds Hn Hsuf|long x ds suffix Hx Hds Hn Hsuf|x ds Hx Hds Hn].
  - destruct (suffix_head long suffix rest c l Hsuf Hrest Hc) as (e & m & Ee & He). change (reading ((d :: (ds ++ suffix)) ++ rest) tk) in Hrd.
    assert ((d :: ds ++ suffix) ++ rest = (d :: ds) ++ e :: m) as Et by (simpl; by rewrite <- app_assoc, Ee). rewrite Et in *.
    eapply wp_next_char_hd; [exact Hrd|]. intros Hrd'. cbn [hd app]. destruct (Z.eqb_spec d CH_0) as [|_]; [done|]. rewrite wp_bind.
    apply (wp_decimal_loop (d :: ds) e m _ 0); [simpl; by rewrite Hd|by apply not_digit|rewrite length_app in Hf; lia|done|]. cbn [fst snd].
    rewrite adv_adv. replace (1 + Z.of_nat (length (d :: ds))) with (Z.of_nat (length (d :: ds)) + 1) by lia. rewrite <- adv_adv.
    eapply (wp_number_end long suffix e m rest c l (number 10 (d :: ds))); [done..|by apply (reading_app (d :: ds))|done|].
    intros tk' H1 H2 H3. by apply HQ.
  - cbn [app] in Hrd. eapply wp_next_char; [exact Hrd|]. rewrite Z.eqb_refl, wp_bind. pose proof (reading_next _ _ _ Hrd) as Hrd1. rewrite Hrest in Hrd1.
    eapply wp_next_char; [exact Hrd1|]. pose proof (separator_spec c Hc) as Hs.
    rewrite wp_bind. replace ((c =? 120) || (c =? 88)) with false by (symmetry; rewrite orb_false_iff, !Z.eqb_neq; lia).
    replace ((c =? 98) || (c =? 66)) with false by (symmetry; rewrite orb_false_iff, !Z.eqb_neq; lia).
    replace ((48 <=? c) && (c <=? 55)) with false by (symmetry; rewrite andb_false_iff, !Z.leb_gt; lia).
    rewrite wp_ret, wp_bind. eapply wp_prev_char; [exact Hrd1|]. rewrite wp_bind. apply wp_set_int_value. rewrite wp_tmod. rewrite <- Hrest in Hrd1.
    apply HQ; [eapply reading_same; [..|exact Hrd1]; done|split; [done|exact (rd_wr DWORD 0 _)]|done].
  - destruct (suffix_head long suffix rest c l Hsuf Hrest Hc) as (e & m & Ee & He).
    assert ((CH_0 :: d :: ds ++ suffix) ++ rest = CH_0 :: (d :: ds) ++ e :: m) as Et by (simpl; by rewrite <- app_assoc, Ee). rewrite Et in *.
    eapply wp_next_char; [exact Hrd|]. rewrite Z.eqb_refl, wp_bind. pose proof (reading_next _ _ _ Hrd) as Hrd1.
    eapply wp_next_char_hd; [exact Hrd1|]. intros Hrd2. cbn [hd app]. pose proof (proj1 (octal_digit_spec d) Hd) as Hdr. rewrite wp_bind.
    replace ((d =? 120) || (d =? 88)) with false by (symmetry; rewrite orb_false_iff, !Z.eqb_neq; lia).
    replace ((d =? 98) || (d =? 66)) with false by (symmetry; rewrite orb_false_iff, !Z.eqb_neq; lia).
    change ((48 <=? d) && (d <=? 55)) with (octal_digit d). rewrite Hd, wp_bind.
    apply (wp_buf_loop octal_digit (d :: ds) e m _ []); [simpl; by rewrite Hd|by apply not_digit|simpl in *; lia|simpl in *; rewrite length_app in Hf; simpl in Hf; lia|done|].
    rewrite wp_ret. rewrite adv_adv. replace (1 + Z.of_nat (length (d :: ds))) with (Z.of_nat (length (d :: ds)) + 1) by lia. rewrite <- adv_adv.
    eapply (wp_based_end long suffix e m rest c l 8); [done..|by right; left| |].
    + constructor; [by apply octal_value|]. by apply (forallb_impl octal_digit _ _ octal_value).
    + intros tk' H1 H2 H3. by apply HQ.
  - destruct (suffix_head long suffix rest c l Hsuf Hrest Hc) as (e & m & Ee & He).
    assert ((CH_0 :: x :: ds ++ suffix) ++ rest = CH_0 :: x :: ds ++ e :: m) as Et by (simpl; by rewrite <- app_assoc, Ee). rewrite Et in *.
    eapply wp_next_char; [exact Hrd|]. rewrite Z.eqb_refl, wp_bind. pose proof (reading_next _ _ _ Hrd) as Hrd1.
    eapply wp_next_char; [exact Hrd1|]. pose proof (reading_next _ _ _ Hrd1) as Hrd2. rewrite wp_bind.
    replace ((x =? 120) || (x =? 88)) with false by (destruct Hx as [-> | ->]; done).
    replace ((x =? 98) || (x =? 66)) with true by (destruct Hx as [-> | ->]; done).
    apply (wp_digits binary_digit 2 ds e m); [done|by apply not_digit|done|simpl in *; rewrite length_app in Hf; lia|done|].
    eapply (wp_based_end long suffix e m rest c l 2); [done..|by left| |].
    + by apply (forallb_impl binary_digit _ _ binary_value).
    + intros tk' H1 H2 H3. by apply HQ.
  - assert ((CH_0 :: x :: ds) ++ rest = CH_0 :: x :: ds ++ c :: l) as Et by (simpl; by rewrite Hrest). rewrite Et in *.
    eapply wp_next_char; [exact Hrd|]. rewrite Z.eqb_refl, wp_bind. pose proof (reading_next _ _ _ Hrd) as Hrd1.
    eapply wp_next_char; [exact Hrd1|]. pose proof (reading_next _ _ _ Hrd1) as Hrd2. rewrite wp_bind.
    replace ((x =? 120) || (x =? 88)) with true by (destruct Hx as [-> | ->]; done).
    pose proof (reading_char _ _ _ (reading_app _ _ _ Hrd2)) as (_ & Hcb & _).
    apply (wp_digits (fun ch => is_digit ch || is_alpha ch) 16 ds c l); [| |done|simpl in *; rewrite length_app in Hf; lia|done|].
    + rewrite forallb_forall in Hds |- *. intros y Hy. by apply hex_digit_alpha, Hds.
    + apply separator_not_alpha; [lia|done].
    + eapply (wp_based_end false [] c l rest c l 16); [done|by rewrite Hrest|done|done|done|by right; right| |].
      * by apply (forallb_impl hex_digit _ _ hex_value).
      * intros tk' H1 H2 H3. by apply HQ.
Qed.

(** *** Characters *)

Lemma wp_proc_char_plain c rest tk (Q : Z -> finsh -> Prop) :
  c ≠ CH_BACKSLASH -> reading (c :: CH_QUOTE :: rest) tk -> Q c (st (adv 1 (adv 1 tk))) -> wp token_proc_char Q (st tk).
Proof.
  intros Hc Hrd HQ. unfold token_proc_char. rewrite wp_bind. eapply wp_next_char; [exact Hrd|]. pose proof (reading_next _ _ _ Hrd) as Hrd1.
  destruct (Z.eqb_spec c CH_BACKSLASH); [done|]. rewrite wp_bind, wp_ret, wp_bind. eapply wp_next_char; [exact Hrd1|]. exact HQ.
Qed.

Lemma wp_proc_char_escape e c rest tk (Q : Z -> finsh -> Prop) :
  escape e = Some c -> reading (CH_BACKSLASH :: e :: CH_QUOTE :: rest) tk -> Q c (st (adv 1 (adv 1 (adv 1 tk)))) -> wp token_proc_char Q (st tk).
Proof.
  intros He Hrd HQ. unfold token_proc_char. rewrite wp_bind. eapply wp_next_char; [exact Hrd|]. pose proof (reading_next _ _ _ Hrd) as Hrd1.
  rewrite Z.eqb_refl, wp_bind, wp_bind. eapply wp_next_char; [exact Hrd1|]. pose proof (reading_next _ _ _ Hrd1) as Hrd2.
  assert (forall m : FM Z, wp (if e =? 110 then mret 10 else if e =? 116 then mret 9 else if e =? 118 then mret 11 else if e =? 98 then mret 8
      else if e =? 114 then mret 13 else if e =? CH_BACKSLASH then mret CH_BACKSLASH else if e =? CH_QUOTE then mret CH_QUOTE else m)
      (fun v s' => v = c /\ s' = st (adv 1 (adv 1 tk))) (st (adv 1 (adv 1 tk)))) as Hm.
  { intros m. unfold escape in He. repeat match goal with |- context [if ?b then _ else _] => destruct b end; try (injection He as <-; done). done. }
  eapply wp_mono; [apply Hm|]. intros v s' [-> ->]. rewrite wp_bind. eapply wp_next_char; [exact Hrd2|]. exact HQ.
Qed.

(** ** Tokens *)

(** The token record holds the token. *)
Definition matches (t : tok) (tk : finsh_token) : Prop :=
  tk_current_token tk = kind t /\
  match t with
  | TId x => c_string (tk_string tk) = Some x /\ (length x < 16)%nat
  | TInt _ n => rd DWORD (tk_value tk) = s32 n
  | TChar c => rd BYTE (tk_value tk) = u8 c
  | _ => True
  end.

Local Abbreviation next_ok t rest tk Q :=
  (forall tk', reading rest tk' -> matches t tk' -> tk_replay tk' = tk_replay tk -> Q tt (st tk')).

Lemma wp_token_is t rest tk (Q : unit -> finsh -> Prop) type :
  type = kind t -> reading rest tk -> match t with TOp _ | TWord _ => True | _ => False end -> next_ok t rest tk Q -> wp (token_is type) Q (st tk).
Proof.
  intros -> Hrd Ht HQ. unfold token_is. rewrite wp_tmod. apply HQ; [eapply reading_same; [..|exact Hrd]; done| |done]. by destruct t.
Qed.

Lemma wp_token_double c double single rest tk t (Q : unit -> finsh -> Prop) :
  reading (c :: rest) tk -> kind t = double -> match t with TOp _ | TWord _ => True | _ => False end -> next_ok t rest tk Q ->
  wp (token_double c double single) Q (st tk).
Proof.
  intros Hrd Hk Ht HQ. unfold token_double. rewrite wp_bind. eapply wp_next_char; [exact Hrd|]. rewrite Z.eqb_refl.
  apply (wp_token_is t rest); [done|by eapply reading_next|done|]. intros tk' H1 H2 H3. by apply HQ.
Qed.

Lemma wp_token_single c double type c' rest tk t (Q : unit -> finsh -> Prop) :
  reading (c' :: rest) tk -> c' ≠ c -> kind t = type -> match t with TOp _ | TWord _ => True | _ => False end -> next_ok t (c' :: rest) tk Q ->
  wp (token_double c double (token_is type)) Q (st tk).
Proof.
  intros Hrd Hc Hk Ht HQ. unfold token_double. rewrite wp_bind. eapply wp_next_char; [exact Hrd|]. destruct (Z.eqb_spec c' c); [done|].
  rewrite wp_bind. eapply wp_prev_char; [exact Hrd|]. by apply (wp_token_is t (c' :: rest)).
Qed.

(** An operator, its first character having been read. *)
Lemma wp_operator type txt no rest c x tk (Q : unit -> finsh -> Prop) :
  (type, txt, no) ∈ operators -> ends (TOp type) rest -> txt = c :: x -> reading (x ++ rest) tk -> next_ok (TOp type) rest tk Q ->
  wp (token_operator c) Q (st tk).
Proof.
  intros Hin Hends Htxt Hrd HQ. assert (forall a, no = Some a -> exists c' l, rest = c' :: l /\ c' ≠ a) as Hno by (intros a ->; by eapply Hends).
  clear Hends. unfold operators in Hin. rewrite !elem_of_cons, elem_of_nil in Hin.
  repeat destruct Hin as [Hin|Hin]; [injection Hin as -> -> ->; injection Htxt as <- <-; cbn [app] in Hrd; unfold token_operator; simpl..|done].
  1-11: by eapply (wp_token_is (TOp _) rest).
  1-4: by eapply (wp_token_double _ _ _ rest _ (TOp _)).
  all: destruct (Hno _ eq_refl) as (c' & l & -> & Hc'); by eapply (wp_token_single _ _ _ c' l _ (TOp _)).
Qed.

Lemma operator_head type txt no : (type, txt, no) ∈ operators -> exists c x, txt = c :: x /\ is_separator c = true /\ is_digit c = false /\ is_blank c = false.
Proof.
  unfold operators. rewrite !elem_of_cons, elem_of_nil. intros Hin. repeat destruct Hin as [Hin|Hin]; [injection Hin as -> -> ->; by eexists _, _..|done].
Qed.

Lemma forallb_head {A} (p : A -> bool) c x : forallb p (c :: x) = true -> p c = true.
Proof. simpl. by intros [? _]%andb_true_iff. Qed.

Lemma id_char_blank c : id_char c = true -> is_blank c = false.
Proof.
  intros Hc%negb_true_iff. unfold is_blank. destruct (Z.eqb_spec c CH_SPACE) as [->|]; [done|]. destruct (Z.eqb_spec c CH_TAB) as [->|]; [done|].
  by destruct (Z.eqb_spec c CH_CR) as [->|].
Qed.

(** The words of the language. *)
Lemma word_head x type : (x, type) ∈ finsh_name_table -> exists c y, x = c :: y /\ forallb id_char (c :: y) = true /\ is_digit c = false /\
  (length (c :: y) < 128)%nat /\ token_match_name (c :: y) = (tmod (set_tk_current_token type);; mret true).
Proof.
  unfold finsh_name_table. rewrite !elem_of_cons, elem_of_nil. intros Hin.
  repeat destruct Hin as [Hin|Hin]; [injection Hin as -> ->; eexists _, _; split; [reflexivity|]; split_and!; [done|done|simpl; lia|done]..|done].
Qed.

(** The first character of the text of a token. *)
Lemma spells_head t txt : spells t txt -> exists c x, txt = c :: x /\ is_blank c = false.
Proof.
  intros [x Hx|long tx n Hl|c Hc|e c He|x type Hx|type tx no Ho].
  - unfold name_ok in Hx. destruct x as [|c x]; [done|]. exists c, x. split; [done|]. rewrite !andb_true_iff in Hx. destruct Hx as (((_ & Hx) & _) & _).
    by apply id_char_blank, (forallb_head _ _ x).
  - assert (forall d, is_digit d = true -> is_blank d = false) as Hb.
    { intros d Hd%is_digit_spec. unfold is_blank. by rewrite !orb_false_iff, !Z.eqb_neq; lia. }
    destruct Hl; eexists _, _; (split; [reflexivity|]); by apply Hb.
  - by eexists _, _.
  - by eexists _, _.
  - destruct (word_head _ _ Hx) as (c & y & -> & Hy & _). exists c, y. split; [done|]. by apply id_char_blank, (forallb_head _ _ y).
  - destruct (operator_head _ _ _ Ho) as (c & x & -> & _ & _ & Hb). by exists c, x.
Qed.

Lemma token_operator_digit d : is_digit d = true -> token_operator d = (token_prev_char;; token_proc_number).
Proof.
  intros Hd. unfold token_operator. pose proof (proj1 (is_digit_spec d) Hd).
  repeat match goal with |- context [d =? ?k] => destruct (Z.eqb_spec d k); [lia|] end. by rewrite Hd.
Qed.

Lemma literal_head long txt n : literal long txt n -> exists d x, txt = d :: x /\ is_digit d = true.
Proof. intros []; by eexists _, _. Qed.

(** A token that is not a word. *)
Lemma wp_token_run_other t w c x rest tk (Q : unit -> finsh -> Prop) :
  forallb is_blank w = true -> is_blank c = false -> is_separator c || is_digit c = true -> reading (w ++ (c :: x) ++ rest) tk ->
  (forall tk', reading ((c :: x) ++ rest) tk' -> tk_replay tk' = tk_replay tk -> next_ok t rest tk' Q -> wp (token_operator c) Q (st (adv 1 tk'))) ->
  next_ok t rest tk Q -> wp token_run Q (st tk).
Proof.
  intros Hw Hb Hc Hrd Hop HQ. unfold token_run. rewrite wp_bind. eapply (wp_trim w c (x ++ rest)); [done|done|exact Hrd|].
  pose proof (reading_app _ _ _ Hrd) as Hrd1. set (tk1 := adv _ tk) in *. rewrite wp_bind. eapply wp_get_string_other; [exact Hc|exact Hrd1|].
  intros str r Hl H0. pose proof (reading_string _ str _ Hl Hrd1) as Hrd2. set (tk2 := with_string str tk1) in *.
  rewrite wp_bind, wp_tget. cbn [token set_token]. rewrite (rd_eof _ _ Hrd2), wp_bind, wp_tget, wp_bind, wp_getso. exists 0. split; [exact H0|].
  rewrite Z.eqb_refl. cbn [negb]. rewrite wp_bind. eapply wp_next_char; [exact Hrd2|]. apply Hop; [exact Hrd2|done|].
  intros tk' H1 H2 H3. apply HQ; [done|done|by rewrite H3].
Qed.

(** A word. *)
Lemma wp_token_run_word w a x c l tk (Q : unit -> finsh -> Prop) :
  forallb is_blank w = true -> is_blank a = false -> forallb id_char (a :: x) = true -> is_digit a = false -> is_separator c = true -> (length (a :: x) < 128)%nat ->
  reading (w ++ (a :: x) ++ c :: l) tk ->
  (forall tk', reading (c :: l) tk' -> c_string (tk_string tk') = Some (a :: x) -> tk_replay tk' = tk_replay tk ->
     wp (found ← token_match_name (a :: x); if (found : bool) then mret tt else token_is finsh_token_type_identifier) Q (st tk')) ->
  wp token_run Q (st tk).
Proof.
  intros Hw Hb Hx Ha Hc Hn Hrd HQ. unfold token_run. rewrite wp_bind. eapply (wp_trim w a (x ++ c :: l)); [done|done|exact Hrd|].
  pose proof (reading_app _ _ _ Hrd) as Hrd1. pose proof (reading_app _ _ _ Hrd1) as Hrd2. pose proof (reading_forall _ _ _ Hrd1) as Hbytes.
  rewrite wp_bind. eapply wp_get_string_word; [exact Hx|done|exact Hc|done|exact Hrd1|]. intros str Hl Hs H0.
  apply (reading_string _ str) in Hrd2; [|done]. set (tk2 := with_string str _) in *.
  rewrite wp_bind, wp_tget. cbn [token set_token]. rewrite (rd_eof _ _ Hrd2), wp_bind, wp_tget, wp_bind, wp_getso. exists a. split; [exact H0|].
  apply Forall_cons in Hbytes as [Hab _]. destruct (Z.eqb_spec a 0); [lia|]. cbn [negb]. rewrite wp_bind, wp_getso. exists (a :: x). split; [exact Hs|].
  by apply HQ.
Qed.

Lemma match_name_none x : existsb (fun e => bool_decide (e.1 = x)) finsh_name_table = false -> token_match_name x = mret false.
Proof.
  intros Hx. unfold token_match_name. assert (filter (fun e => e.1 = x) finsh_name_table = []) as ->; [|done].
  revert Hx. generalize finsh_name_table. intros l. induction l as [|e l IH]; simpl; [done|]. intros [He Hl]%orb_false_iff.
  apply bool_decide_eq_false in He. rewrite filter_cons_False by done. by apply IH.
Qed.

(** The tokenizer reads the next token of a text. *)
Lemma wp_token_run t w txt rest tk (Q : unit -> finsh -> Prop) :
  forallb is_blank w = true -> spells t txt -> ends t rest -> reading (w ++ txt ++ rest) tk -> next_ok t rest tk Q -> wp token_run Q (st tk).
Proof.
  intros Hw Hsp Hends Hrd HQ. destruct (spells_head t txt Hsp) as (a & y & Etxt & Hb). destruct Hsp as [x Hx|long tx n Hl|c Hc|e c He|x type Hx|type tx no Ho].
  - subst x. destruct Hends as (c & l & -> & Hc). unfold name_ok in Hx. rewrite !andb_true_iff, !negb_true_iff, Nat.ltb_lt in Hx. destruct Hx as (((Ha & Hx) & Hn) & Hk).
    eapply wp_token_run_word; [done|done|done|done|exact Hc|lia|exact Hrd|]. intros tk' Hrd' Hs Hr. rewrite match_name_none by done.
    rewrite wp_bind, wp_ret. unfold token_is. rewrite wp_tmod. apply HQ; [eapply reading_same; [..|exact Hrd']; done|by split_and!|done].
  - subst tx. destruct Hends as (c & l & Hrest & Hc). destruct (literal_head _ _ _ Hl) as (d & x & [= <- <-] & Hd).
    eapply (wp_token_run_other (TInt long n)); [done|done|by rewrite Hd, orb_true_r|exact Hrd| |exact HQ]. intros tk' Hrd' _ HQ'.
    rewrite token_operator_digit by done. rewrite wp_bind. eapply wp_prev_char; [exact Hrd'|].
    eapply (wp_proc_number long (a :: y) n); [done|exact Hrest|exact Hc|exact Hrd'|]. intros tk2 H1 [H2 H3] H4. by apply HQ'.
  - injection Etxt as <- <-. eapply (wp_token_run_other (TChar c)); [done|done|done|exact Hrd| |exact HQ]. intros tk' Hrd' _ HQ'. cbn [app] in Hrd'.
    pose proof (reading_next _ _ _ Hrd') as Hrd1. pose proof (reading_next _ _ _ (reading_next _ _ _ Hrd1)) as Hrd3.
    unfold token_operator. simpl. rewrite wp_bind. eapply wp_proc_char_plain; [done|exact Hrd1|]. rewrite wp_bind, wp_tmod. cbn [token set_token].
    unfold token_is. rewrite wp_tmod. apply HQ'; [eapply reading_same; [..|exact Hrd3]; done| |done]. split; [done|]. exact (rd_wr BYTE c _).
  - injection Etxt as <- <-. eapply (wp_token_run_other (TChar c)); [done|done|done|exact Hrd| |exact HQ]. intros tk' Hrd' _ HQ'. cbn [app] in Hrd'.
    pose proof (reading_next _ _ _ Hrd') as Hrd1. pose proof (reading_next _ _ _ (reading_next _ _ _ (reading_next _ _ _ Hrd1))) as Hrd4.
    unfold token_operator. simpl. rewrite wp_bind. eapply wp_proc_char_escape; [done|exact Hrd1|]. rewrite wp_bind, wp_tmod. cbn [token set_token].
    unfold token_is. rewrite wp_tmod. apply HQ'; [eapply reading_same; [..|exact Hrd4]; done| |done]. split; [done|]. exact (rd_wr BYTE c _).
  - subst x. destruct Hends as (c & l & -> & Hc). destruct (word_head _ _ Hx) as (a' & y' & [= <- <-] & Hx1 & Ha & Hn & Hk).
    eapply wp_token_run_word; [done|done|done|done|exact Hc|lia|exact Hrd|]. intros tk' Hrd' Hs Hr. rewrite Hk.
    rewrite wp_bind, wp_bind, wp_tmod, wp_ret, wp_ret. apply HQ; [eapply reading_same; [..|exact Hrd']; done|by split|done].
  - destruct (operator_head _ _ _ Ho) as (c & x & E & Hs & Hd & _). rewrite E in Etxt. injection Etxt as <- <-. subst tx.
    eapply (wp_token_run_other (TOp type)); [done|done|by rewrite Hs|exact Hrd| |exact HQ]. intros tk' Hrd' _ HQ'.
    eapply wp_operator; [exact Ho|exact Hends|done|by eapply reading_next|]. intros tk2 H1 H2 H3. by apply HQ'.
Qed.

(** The end of the text. *)
Lemma wp_trim_loop_end w fuel tk (Q : unit -> finsh -> Prop) :
  forallb is_blank w = true -> reading w tk -> (length w < fuel)%nat -> (forall tk', tk_eof tk' = true -> tk_replay tk' = tk_replay tk -> Q tt (st tk')) ->
  wp (trim_loop fuel) Q (st tk).
Proof.
  revert fuel tk. induction w as [|x w IH]; intros [|fuel] tk Hw Hrd Hf HQ; simpl in Hf; try lia; cbn [trim_loop]; rewrite wp_bind.
  - eapply wp_next_char_end; [exact Hrd|]. by apply HQ.
  - simpl in Hw. apply andb_true_iff in Hw as [Hx Hw]. eapply wp_next_char; [exact Hrd|]. unfold is_blank in Hx. rewrite Hx.
    apply IH; [done|by eapply reading_next|lia|]. intros tk' H1 H2. by apply HQ.
Qed.

Lemma wp_token_run_end w tk (Q : unit -> finsh -> Prop) :
  forallb is_blank w = true -> reading w tk -> (forall tk', tk_current_token tk' = finsh_token_type_eof -> tk_replay tk' = tk_replay tk -> Q tt (st tk')) ->
  wp token_run Q (st tk).
Proof.
  intros Hw Hrd HQ. unfold token_run, token_trim_space, token_fuel. rewrite wp_bind, wp_bind, wp_tget, wp_bind.
  apply (wp_trim_loop_end w); [done|done|by apply reading_fuel|]. intros tk' He Hr.
  unfold token_prev_char. rewrite wp_bind, wp_tget. cbn [token set_token]. unfold id. rewrite He, wp_ret, wp_bind.
  unfold token_get_string, token_next_char. rewrite wp_bind, wp_bind, wp_tget. cbn [token set_token]. unfold id. rewrite He, wp_ret, wp_bind, wp_tget.
  cbn [token set_token]. rewrite He, wp_ret, wp_bind, wp_tget. cbn [token set_token]. rewrite He. unfold token_is. rewrite wp_tmod. by apply HQ.
Qed.
End reader.

(** ** Streams of tokens *)

(** The tokens [ts] are to come: the text stands before them, or the first one is to be read again. *)
Definition upcoming (ts : list tok) (tk : finsh_token) : Prop :=
  exists txt, reading txt tk /\
    ((tk_replay tk = false /\ lexes txt ts) \/
     (exists t ts', ts = t :: ts' /\ tk_replay tk = true /\ matches t tk /\ lexes txt ts')).

(** [t] has been read and [ts] are to come. *)
Definition current (t : tok) (ts : list tok) (tk : finsh_token) : Prop :=
  tk_replay tk = false /\ matches t tk /\ exists txt, reading txt tk /\ lexes txt ts.

Lemma current_upcoming t ts tk : current t ts tk -> upcoming ts tk.
Proof. intros (Hr & _ & txt & Hrd & Hl). exists txt. split; [done|]. by left. Qed.

Lemma set_token_same s : set_token (token s) s = s.
Proof. by destruct s. Qed.

Lemma wp_next t ts s (Q : Z -> finsh -> Prop) :
  upcoming (t :: ts) (token s) -> (forall tk, current t ts tk -> Q (kind t) (set_token tk s)) -> wp finsh_token_token Q s.
Proof.
  intros (txt & Hrd & [[Hr Hl]|(t' & ts' & [= <- <-] & Hr & Hm & Hl)]) HQ; unfold finsh_token_token; rewrite wp_bind, wp_tget, Hr, wp_bind.
  - inversion Hl as [|w t' txt' rest ts' Hw Hsp He Hlx]; subst. rewrite <- (set_token_same s) at 1. eapply wp_token_run; [done|done|done|exact Hrd|].
    intros tk' Hrd' Hm' Hr'. rewrite wp_tget. cbn [token set_token]. rewrite (proj1 Hm'). apply HQ. split; [by rewrite <- Hr|]. split; [done|]. by exists rest.
  - rewrite wp_tmod, wp_tget. cbn [token set_token]. replace (tk_current_token (set_tk_replay false (token s))) with (kind t) by (symmetry; apply Hm).
    apply HQ. split; [done|]. split; [exact Hm|]. exists txt. split; [|done]. eapply reading_same; [..|exact Hrd]; done.
Qed.

Lemma wp_next_end s (Q : Z -> finsh -> Prop) : upcoming [] (token s) -> (forall tk, Q finsh_token_type_eof (set_token tk s)) -> wp finsh_token_token Q s.
Proof.
  intros (txt & Hrd & [[Hr Hl]|(t' & ts' & E & _)]) HQ; [|done]. unfold finsh_token_token. rewrite wp_bind, wp_tget, Hr, wp_bind.
  inversion Hl as [w Hw|]; subst. rewrite <- (set_token_same s) at 1. eapply wp_token_run_end; [done|exact Hrd|]. intros tk' Hc _.
  rewrite wp_tget. cbn [token set_token]. rewrite Hc. apply HQ.
Qed.

Lemma wp_replay t ts s (Q : unit -> finsh -> Prop) :
  current t ts (token s) -> (forall tk, upcoming (t :: ts) tk -> Q tt (set_token tk s)) -> wp finsh_token_replay Q s.
Proof.
  intros (Hr & Hm & txt & Hrd & Hl) HQ. unfold finsh_token_replay. rewrite wp_tmod. apply HQ. exists txt.
  split; [eapply reading_same; [..|exact Hrd]; done|]. right. exists t, ts. by split_and!.
Qed.
