(* ===== verification/FinshParse.v ===== *)
(** The parser of the finsh shell builds the tree of every expression from its tokens. *)

From S2P Require Import Prelude ByteMem FinshDef FinshVm FinshSym FinshExpr FinshCompiler FinshTree FinshCode FinshHeap FinshToken FinshParser FinshLex.

(** ** Tokens of expressions *)

Definition binop_token (o : binop) : Z :=
  match o with
  | Add => finsh_token_type_add | Sub => finsh_token_type_sub | Mul => finsh_token_type_mul | Div => finsh_token_type_div | Mod => finsh_token_type_mod
  | And => finsh_token_type_and | Or => finsh_token_type_or | Xor => finsh_token_type_xor | Shl => finsh_token_type_shl | Shr => finsh_token_type_shr
  end.
Definition step_token (inc : bool) : Z := if inc then finsh_token_type_inc else finsh_token_type_dec.

(** An expression is written without parentheses. *)
Fixpoint tokens (e : expr) : list tok :=
  match e with
  | EInt long n => [TInt long n]
  | EChar c => [TChar c]
  | ENull => [TWord finsh_token_type_value_null]
  | EId x => [TId x]
  | EBin o e1 e2 => tokens e1 ++ TOp (binop_token o) :: tokens e2
  | ENot e => TOp finsh_token_type_bitwise :: tokens e
  | ENeg e => TOp finsh_token_type_sub :: tokens e
  | EPlus e => TOp finsh_token_type_add :: tokens e
  | EStep true inc x => [TOp (step_token inc); TId x]
  | EStep false inc x => [TId x; TOp (step_token inc)]
  | EAssign x e => TId x :: TOp finsh_token_type_assign :: tokens e
  | EStore p e => (TOp finsh_token_type_mul :: tokens p) ++ TOp finsh_token_type_assign :: tokens e
  | EDeref p => TOp finsh_token_type_mul :: tokens p
  | EAddr x => [TOp finsh_token_type_and; TId x]
  | ECall f l => TId f :: TOp finsh_token_type_left_paren :: args_tokens l ++ [TOp finsh_token_type_right_paren]
  end
with args_tokens (l : exprs) : list tok :=
  match l with
  | ANil => []
  | ACons e l => tokens e ++ match l with ANil => [] | ACons _ _ => TOp finsh_token_type_comma :: args_tokens l end
  end.

(** The levels of the grammar: 0 for postfix expressions, 1 for unary ones, then the six levels of binary operators, and 8 for assignments. *)
Definition binop_level (o : binop) : nat :=
  match o with Mul | Div | Mod => 2 | Add | Sub => 3 | Shl | Shr => 4 | And => 5 | Xor => 6 | Or => 7 end.

(** The tokens of [e] are an expression of the level [k] with the same tree. *)
Fixpoint parses (k : nat) (e : expr) {struct e} : bool :=
  match e with
  | EInt _ _ | EChar _ | ENull | EId _ | EStep false _ _ => true
  | EBin o e1 e2 => (binop_level o <=? k)%nat && parses (binop_level o) e1 && parses (binop_level o - 1) e2
  | ENot e | ENeg e | EPlus e | EDeref e => (1 <=? k)%nat && parses 1 e
  | EStep true _ _ | EAddr _ => (1 <=? k)%nat
  | EAssign _ e => (8 <=? k)%nat && parses 8 e
  | EStore p e => (8 <=? k)%nat && parses 1 p && parses 8 e
  | ECall _ l => args_parse l
  end
with args_parse (l : exprs) : bool :=
  match l with ANil => true | ACons e l => parses 8 e && args_parse l end.

(** The nodes of the tree. *)
Fixpoint nodes (e : expr) : nat :=
  match e with
  | EInt _ _ | EChar _ | ENull | EId _ => 1
  | EBin _ e1 e2 => nodes e1 + nodes e2 + 1
  | ENot e | EDeref e => nodes e + 1
  | ENeg e => nodes e + 2
  | EPlus e => nodes e
  | EStep _ _ _ | EAddr _ => 2
  | EAssign _ e => 1 + nodes e + 1
  | EStore p e => nodes p + 1 + nodes e + 1
  | ECall _ l => 1 + args_nodes l + 1
  end
with args_nodes (l : exprs) : nat := match l with ANil => 0 | ACons e l => nodes e + args_nodes l end.

(** The level at which the grammar goes on with a token behind an expression. *)
Definition stop_level (t : tok) : nat :=
  match t with
  | TOp type | TWord type =>
      if one_of type [finsh_token_type_inc; finsh_token_type_dec; finsh_token_type_left_paren] then 0
      else if one_of type [finsh_token_type_mul; finsh_token_type_div; finsh_token_type_mod] then 2
      else if one_of type [finsh_token_type_add; finsh_token_type_sub] then 3
      else if one_of type [finsh_token_type_shl; finsh_token_type_shr] then 4
      else if type =? finsh_token_type_and then 5
      else if type =? finsh_token_type_xor then 6
      else if type =? finsh_token_type_or then 7
      else if type =? finsh_token_type_assign then 8
      else 9
  | _ => 9
  end.

Section parse.
Context `{FinshLayout} (s0 : finsh).

(** Every name is one of a symbol. *)
Definition named (x : list Z) : Prop := (0 < length x)%nat /\ is_Some (resolve s0 x).
Fixpoint resolved (e : expr) : Prop :=
  match e with
  | EInt _ _ | EChar _ | ENull => True
  | EId x | EStep _ _ x | EAddr x => named x
  | EBin _ e1 e2 | EStore e1 e2 => resolved e1 /\ resolved e2
  | ENot e | ENeg e | EPlus e | EDeref e => resolved e
  | EAssign x e => named x /\ resolved e
  | ECall f l => named f /\ args_resolved l
  end
with args_resolved (l : exprs) : Prop := match l with ANil => True | ACons e l => resolved e /\ args_resolved l end.

(** ** The table of nodes *)

(** The first [n] nodes are in use, the others are blank. *)
Definition table_ok (tbl : list finsh_node) (n : nat) : Prop :=
  length tbl = 16%nat /\ (n <= 16)%nat /\
  (forall j, (j < n)%nat -> exists nd, tbl !! j = Some nd /\ nd_node_type nd ≠ FINSH_NODE_UNKNOWN) /\
  (forall j, (n <= j < 16)%nat -> tbl !! j = Some no_node).

(** The nodes of the forest are in the table, between [a] and [b]. *)
Definition holds (tbl : list finsh_node) (F : forest) (a b : nat) : Prop :=
  rep tbl F /\ NoDup (ids F) /\ (forall j, j ∈ ids F -> (a <= j < b)%nat).

(** Nodes below [a] are the same. *)
Definition same_below (a : nat) (tbl tbl' : list finsh_node) : Prop := forall j, (j < a)%nat -> tbl' !! j = tbl !! j.

#[export] Instance same_below_preorder a : PreOrder (same_below a).
Proof. split; [done|]. intros t1 t2 t3 H1 H2 j Hj. by rewrite H2, H1. Qed.

Lemma same_below_le a b tbl tbl' : (a <= b)%nat -> same_below b tbl tbl' -> same_below a tbl tbl'.
Proof. intros Hab Hs j Hj. apply Hs. lia. Qed.

Lemma holds_same tbl tbl' F a b : same_below b tbl tbl' -> holds tbl F a b -> holds tbl' F a b.
Proof. intros Hs (Hr & Hn & Hi). split; [|done]. eapply rep_agree; [|exact Hr]. intros j Hj. apply Hs, Hi, Hj. Qed.

Lemma holds_le tbl F a b a' b' : (a' <= a)%nat -> (b <= b')%nat -> holds tbl F a b -> holds tbl F a' b'.
Proof. intros Ha Hb (Hr & Hn & Hi). split_and!; [done..|]. intros j Hj. specialize (Hi j Hj). lia. Qed.

Definition st (tk : finsh_token) (tbl : list finsh_node) : finsh := set_token tk (set_global_node_table tbl s0).

Lemma find_index_app {A} (f : A -> bool) l1 x l2 : forallb (fun y => negb (f y)) l1 = true -> f x = true -> find_index f (l1 ++ x :: l2) = Some (length l1).
Proof. intros H1 Hx. induction l1 as [|y l1 IH]; simpl in *; [by rewrite Hx|]. apply andb_true_iff in H1 as [Hy H1]. apply negb_true_iff in Hy. rewrite Hy, IH by done. done. Qed.

Lemma table_find tbl n : table_ok tbl n -> (n < 16)%nat -> find_index (fun nd => nd_node_type nd =? FINSH_NODE_UNKNOWN) tbl = Some n.
Proof.
  intros (Hl & _ & Hu & Hf) Hn. rewrite <- (take_drop_middle tbl n no_node) by (apply Hf; lia).
  rewrite find_index_app; [f_equal; rewrite length_take; lia| |done].
  apply forallb_forall. intros nd Hin%list_elem_of_In. apply list_elem_of_lookup in Hin as [j Hj]. pose proof (lookup_lt_Some _ _ _ Hj) as Hlt.
  apply lookup_take_Some in Hj as [Hj Hjn]. destruct (Hu j Hjn) as (nd' & Hj' & Ht). rewrite Hj in Hj'. injection Hj' as <-.
  apply negb_true_iff, Z.eqb_neq, Ht.
Qed.

Lemma table_insert tbl n nd : table_ok tbl n -> (n < 16)%nat -> nd_node_type nd ≠ FINSH_NODE_UNKNOWN -> table_ok (<[n := nd]> tbl) (S n).
Proof.
  intros (Hl & _ & Hu & Hf) Hn Ht. split_and!; [by rewrite length_insert|lia| |].
  - intros j Hj. destruct (decide (j = n)) as [->|]; [exists nd; by rewrite list_lookup_insert_eq by lia|]. rewrite list_lookup_insert_ne by done. apply Hu. lia.
  - intros j Hj. rewrite list_lookup_insert_ne by lia. apply Hf. lia.
Qed.

Lemma table_update tbl n j nd : table_ok tbl n -> (j < n)%nat -> nd_node_type nd ≠ FINSH_NODE_UNKNOWN -> table_ok (<[j := nd]> tbl) n.
Proof.
  intros (Hl & Hn & Hu & Hf) Hj Ht. split_and!; [by rewrite length_insert|done| |].
  - intros k Hk. destruct (decide (k = j)) as [->|]; [exists nd; by rewrite list_lookup_insert_eq by lia|]. rewrite list_lookup_insert_ne by done. apply Hu. lia.
  - intros k Hk. rewrite list_lookup_insert_ne by lia. apply Hf. lia.
Qed.

Lemma table_blank tbl n : table_ok tbl n -> (n < 16)%nat -> tbl !! n = Some no_node.
Proof. intros (_ & _ & _ & Hf) Hn. apply Hf. lia. Qed.
Lemma table_used tbl n j nd : table_ok tbl n -> (j < n)%nat -> tbl !! j = Some nd -> nd_node_type nd ≠ FINSH_NODE_UNKNOWN.
Proof. intros (_ & _ & Hu & _) Hj Hnd. destruct (Hu j Hj) as (nd' & Hnd' & Ht). congruence. Qed.

Lemma wp_allocate type tk tbl n (Q : option nat -> finsh -> Prop) :
  table_ok tbl n -> (n < 16)%nat -> Q (Some n) (st tk (<[n := set_nd_node_type type no_node]> tbl)) -> wp (finsh_node_allocate type) Q (st tk tbl).
Proof.
  intros Ht Hn HQ. unfold finsh_node_allocate. rewrite wp_bind, wp_gets. cbn [st global_node_table set_token set_global_node_table].
  rewrite (table_find tbl n) by done. rewrite wp_bind. eapply wp_upd_node; [|exact HQ]. by apply table_blank.
Qed.

Lemma wp_new_value type f tk tbl n (Q : option nat -> finsh -> Prop) :
  table_ok tbl n -> (n < 16)%nat -> Q (Some n) (st tk (<[n := mkNode type 0 0 (f 0) None None None]> tbl)) -> wp (new_value type f) Q (st tk tbl).
Proof.
  intros Ht Hn HQ. pose proof (proj1 Ht) as Hl. unfold new_value. rewrite wp_bind. apply (wp_allocate _ _ _ n); [done|done|]. rewrite wp_bind. eapply wp_upd_node.
  - apply list_lookup_insert_eq. lia.
  - rewrite wp_ret. cbn [st global_node_table set_token set_global_node_table]. rewrite list_insert_insert_eq. exact HQ.
Qed.

Lemma wp_new_id x t p tk tbl n (Q : option nat -> finsh -> Prop) :
  resolve s0 x = Some (t, p) -> table_ok tbl n -> (n < 16)%nat ->
  Q (Some n) (st tk (<[n := mkNode FINSH_NODE_ID 0 t 0 (Some p) None None]> tbl)) -> wp (finsh_node_new_id x) Q (st tk tbl).
Proof.
  intros Hx Ht Hn HQ. pose proof (proj1 Ht) as Hl. unfold finsh_node_new_id.
  assert (forall (k : option (Z * id_ptr) -> FM (option nat)), wp (k (Some (t, p))) Q (st tk tbl) ->
    wp (var ← finsh_var_lookup x;
        symbol ← (match var with
                  | Some p => mret (Some (FINSH_IDTYPE_VAR, p))
                  | None => sysvar ← finsh_sysvar_lookup x;
                      match sysvar with
                      | Some p => mret (Some (FINSH_IDTYPE_SYSVAR, p))
                      | None => call ← finsh_syscall_lookup x; mret ((fun p => (FINSH_IDTYPE_SYSCALL, p)) <$> call)
                      end
                  end);
        k symbol) Q (st tk tbl)) as Hres.
  { intros k Hk. unfold resolve in Hx. unfold finsh_var_lookup, finsh_sysvar_lookup, finsh_syscall_lookup. wp_norm.
    cbn [st global_variable sysvar_table global_sysvar_list syscall_table global_syscall_list set_token set_global_node_table].
    destruct (find_index _ _) as [i|]; [injection Hx as <- <-; by wp_norm|]. cbn [fmap option_fmap option_map]. wp_norm.
    cbn [st global_variable sysvar_table global_sysvar_list syscall_table global_syscall_list set_token set_global_node_table].
    destruct (symbol_find sv_name _ _ _) as [q|]; [injection Hx as <- <-; by wp_norm|]. cbn [fmap option_fmap option_map]. wp_norm.
    cbn [st global_variable sysvar_table global_sysvar_list syscall_table global_syscall_list set_token set_global_node_table].
    destruct (symbol_find sc_name _ _ _) as [q|]; [injection Hx as <- <-; exact Hk|done]. }
  apply Hres. rewrite wp_bind. apply (wp_allocate _ _ _ n); [done|done|]. rewrite wp_bind. eapply wp_upd_node; [apply list_lookup_insert_eq; lia|].
  rewrite wp_ret. cbn [st global_node_table set_token set_global_node_table]. rewrite list_insert_insert_eq. exact HQ.
Qed.

(** One node more: the root of the first forest gets the siblings [F2]. *)
Lemma wp_make_sys_node_disjoint type tk tbl n a i nd ch F2 (Q : option nat -> finsh -> Prop) :
  type ≠ FINSH_NODE_UNKNOWN -> table_ok tbl n -> (n < 16)%nat -> holds tbl (FCons i nd ch FNil) a n -> holds tbl F2 a n ->
  (forall j, j ∈ ids (FCons i nd ch FNil) -> j ∉ ids F2) ->
  (forall tbl' nd', table_ok tbl' (S n) -> same_below a tbl tbl' -> fresh type nd' ->
     holds tbl' (FCons n nd' (FCons i (set_nd_sibling (root_of F2) nd) ch F2) FNil) a (S n) -> Q (Some n) (st tk tbl')) ->
  wp (make_sys_node type (Some i) (root_of F2)) Q (st tk tbl).
Proof.
  intros Htype Ht Hn (Hr1 & Hn1 & Hi1) (Hr2 & Hn2 & Hi2) Hdis HQ. pose proof (proj1 Ht) as Hl. unfold make_sys_node. rewrite wp_bind.
  apply (wp_allocate _ _ _ n); [done|done|]. destruct Hr1 as (Hi & Hc & _ & Hrc & _). pose proof (Hi1 i ltac:(by left)) as Hib.
  pose proof (Hdis i ltac:(by left)) as Hid. simpl in Hn1, Hi1, Hdis. rewrite app_nil_r in Hn1, Hi1, Hdis.
  rewrite wp_bind, wp_bind. eapply wp_upd_node; [apply list_lookup_insert_eq; lia|].
  cbn [st global_node_table set_token set_global_node_table]. rewrite list_insert_insert_eq.
  eapply wp_upd_node; [cbn; rewrite list_lookup_insert_ne by lia; exact Hi|]. rewrite wp_ret.
  set (nd' := set_nd_child (Some i) (set_nd_node_type type no_node)). set (nd1 := set_nd_sibling (root_of F2) nd).
  change (Q (Some n) (st tk (<[i := nd1]> (<[n := nd']> tbl)))). set (tbl' := <[i := nd1]> _).
  pose proof (table_used tbl n i nd Ht ltac:(lia) Hi) as Hty. apply NoDup_cons in Hn1 as [Hni Hnc].
  assert (forall j, j ≠ i -> (j < n)%nat -> tbl' !! j = tbl !! j) as Hsame by (intros j H1 H2; unfold tbl'; by rewrite !list_lookup_insert_ne by lia).
  assert (forall j, j ∈ ids ch -> (a <= j < n)%nat /\ j ≠ i) as Hch by (intros j Hj; split; [apply Hi1; by right|by intros ->]).
  assert (forall j, j ∈ ids F2 -> (a <= j < n)%nat /\ j ≠ i) as HF2 by (intros j Hj; split; [by apply Hi2|by intros ->]).
  apply (HQ tbl' nd').
  - apply table_update; [by apply table_insert|lia|done].
  - intros j Hj. apply Hsame; lia.
  - done.
  - split_and!.
    + simpl. split_and!; [unfold tbl'; rewrite list_lookup_insert_ne by lia; apply list_lookup_insert_eq; lia|done|done| |done|done| | |done].
      * unfold tbl'. apply list_lookup_insert_eq. rewrite length_insert. lia.
      * eapply rep_agree; [|exact Hrc]. intros j Hj. destruct (Hch j Hj). apply Hsame; [done|lia].
      * eapply rep_agree; [|exact Hr2]. intros j Hj. destruct (HF2 j Hj). apply Hsame; [done|lia].
    + simpl. rewrite app_nil_r. apply NoDup_cons. split.
      { rewrite elem_of_cons, elem_of_app. intros [?|[Hj|Hj]]; [lia|destruct (Hch _ Hj); lia|destruct (HF2 _ Hj); lia]. }
      apply NoDup_cons. split; [rewrite elem_of_app; intros [Hj|Hj]; [done|by destruct (HF2 _ Hj)]|].
      apply NoDup_app. split_and!; [done| |done]. intros j Hj. apply Hdis. by right.
    + simpl. rewrite app_nil_r. intros j. rewrite !elem_of_cons, elem_of_app. intros [->|[->|[Hj|Hj]]]; [lia|lia|destruct (Hch _ Hj); lia|destruct (HF2 _ Hj); lia].
Qed.

Lemma wp_make_sys_node type tk tbl n a i nd ch m F2 (Q : option nat -> finsh -> Prop) :
  type ≠ FINSH_NODE_UNKNOWN -> table_ok tbl n -> (n < 16)%nat -> (a <= m <= n)%nat -> holds tbl (FCons i nd ch FNil) a m -> holds tbl F2 m n ->
  (forall tbl' nd', table_ok tbl' (S n) -> same_below a tbl tbl' -> fresh type nd' ->
     holds tbl' (FCons n nd' (FCons i (set_nd_sibling (root_of F2) nd) ch F2) FNil) a (S n) -> Q (Some n) (st tk tbl')) ->
  wp (make_sys_node type (Some i) (root_of F2)) Q (st tk tbl).
Proof.
  intros Htype Ht Hn Hm H1 H2 HQ. eapply (wp_make_sys_node_disjoint _ _ _ _ a i nd ch); [done|done|done| | | |exact HQ].
  - eapply holds_le; [..|exact H1]; lia.
  - eapply holds_le; [..|exact H2]; lia.
  - intros j Hj Hj2. apply H1 in Hj. apply H2 in Hj2. lia.
Qed.

Lemma den_sibling e r nd ch : den s0 e nd ch -> den s0 e (set_nd_sibling r nd) ch.
Proof. revert nd ch. induction e; intros nd ch Hd; simpl in Hd |- *; try exact Hd. by apply IHe. Qed.

Lemma same_insert n nd tbl : table_ok tbl n -> same_below n tbl (<[n := nd]> tbl).
Proof. intros _ j Hj. rewrite list_lookup_insert_ne by lia. done. Qed.

Lemma holds_single n nd tbl : table_ok tbl n -> (n < 16)%nat -> nd_child nd = None -> nd_sibling nd = None -> holds (<[n := nd]> tbl) (FCons n nd FNil FNil) n (S n).
Proof.
  intros (Hl & _) Hn Hc Hs. split_and!.
  - simpl. split_and!; [apply list_lookup_insert_eq; lia|done..].
  - simpl. apply NoDup_singleton.
  - intros j. simpl. rewrite list_elem_of_singleton. lia.
Qed.

(** A tree gets its next sibling: what is below it and behind it stays, and the two become one forest. *)
Lemma link_sibling tbl a n k i nd ch i2 :
  table_ok tbl k -> (n <= k)%nat -> holds tbl (FCons i nd ch FNil) a n ->
  let tbl1 := <[i := set_nd_sibling (Some i2) nd]> tbl in
  tbl !! i = Some nd /\ table_ok tbl1 k /\ same_below a tbl tbl1 /\
  (forall F b, holds tbl F n b -> holds tbl1 F n b) /\
  (forall tbl' m nd2 ch2 F, same_below n tbl1 tbl' -> (n <= m)%nat -> holds tbl' (FCons i2 nd2 ch2 F) n m ->
     holds tbl' (FCons i (set_nd_sibling (Some i2) nd) ch (FCons i2 nd2 ch2 F)) a m).
Proof.
  intros Ht Hnk ((Hi & Hci & _ & Hrc & _) & Hnd & Hib). simpl in Hnd, Hib. rewrite app_nil_r in Hnd, Hib. pose proof Ht as (Hl & Hk & _).
  assert (a <= i < n)%nat as Hin by (apply Hib; by left).
  apply NoDup_cons in Hnd as [Hni Hnd]. intros tbl1. split_and!; [exact Hi| | | |].
  - apply table_update; [done|lia|]. exact (table_used tbl k i nd Ht ltac:(lia) Hi).
  - intros j Hj. unfold tbl1. by rewrite list_lookup_insert_ne by lia.
  - intros F b (Hrep & HndF & HiF). split; [|done]. eapply rep_agree; [|exact Hrep]. intros j Hj. apply HiF in Hj. unfold tbl1. by rewrite list_lookup_insert_ne by lia.
  - intros tbl' m nd2 ch2 F Hs Hm (Hrep3 & Hnd3 & Hib3). split_and!.
    + simpl. split_and!; [|done|done| |apply Hrep3..].
      * rewrite Hs by lia. apply list_lookup_insert_eq. lia.
      * eapply rep_agree; [|exact Hrc]. intros j Hj. rewrite Hs by (apply Hib; by right). unfold tbl1.
        rewrite list_lookup_insert_ne; [done|]. by intros <-.
    + apply NoDup_cons. split; [rewrite elem_of_app; intros [|Hj]; [done|apply Hib3 in Hj; lia]|].
      apply NoDup_app. split_and!; [done| |done]. intros j Hj Hj3. apply Hib3 in Hj3. assert (a <= j < n)%nat by (apply Hib; by right). lia.
    + intros j. simpl. rewrite elem_of_cons, elem_of_app. intros [->|[Hj|Hj]]; [lia| |apply Hib3 in Hj; lia].
      assert (a <= j < n)%nat by (apply Hib; by right). lia.
Qed.

(** ** Specifications *)

(** [m] parses the tokens of [e] in front of [t] to a tree of [e] in the next nodes of the table. *)
Definition parse_ok (m : FM (option nat)) (e : expr) (t : tok) : Prop :=
  forall tk tbl n rest (Q : option nat -> finsh -> Prop),
  upcoming (tokens e ++ t :: rest) tk -> table_ok tbl n -> (n + nodes e <= 16)%nat ->
  (forall tk' tbl' i nd ch, upcoming (t :: rest) tk' -> table_ok tbl' (n + nodes e) -> same_below n tbl tbl' ->
     holds tbl' (FCons i nd ch FNil) n (n + nodes e) -> den s0 e nd ch -> Q (Some i) (st tk' tbl')) ->
  wp m Q (st tk tbl).

(** It does so for all expressions of a level with up to [N] tokens. *)
Definition parses_level (N : nat) (m : FM (option nat)) (k : nat) : Prop :=
  forall e t, parses k e = true -> resolved e -> (length (tokens e) <= N)%nat -> (k < stop_level t)%nat -> parse_ok m e t.

Lemma wp_next_st t ts tk tbl (Q : Z -> finsh -> Prop) :
  upcoming (t :: ts) tk -> (forall tk', current t ts tk' -> Q (kind t) (st tk' tbl)) -> wp next_token Q (st tk tbl).
Proof. intros Hu HQ. eapply wp_next; [exact Hu|]. intros tk' Hc. exact (HQ tk' Hc). Qed.

Lemma wp_replay_st t ts tk tbl (Q : unit -> finsh -> Prop) :
  current t ts tk -> (forall tk', upcoming (t :: ts) tk' -> Q tt (st tk' tbl)) -> wp finsh_token_replay Q (st tk tbl).
Proof. intros Hc HQ. eapply (wp_replay t ts); [exact Hc|]. intros tk' Hu. exact (HQ tk' Hu). Qed.

Lemma wp_match t ts tk tbl type (Q : unit -> finsh -> Prop) :
  upcoming (t :: ts) tk -> kind t = type -> (forall tk', current t ts tk' -> Q tt (st tk' tbl)) -> wp (match_token type) Q (st tk tbl).
Proof.
  intros Hu Hk HQ. unfold match_token. rewrite wp_bind. eapply wp_next_st; [exact Hu|]. intros tk' Hc. unfold check_token. rewrite wp_when. right.
  split; [by rewrite Hk, Z.eqb_refl|by apply HQ].
Qed.

Lemma nodes_pos : (forall e, (0 < nodes e)%nat) /\ (forall l : exprs, True).
Proof. apply expr_ind2; simpl; intros; lia || done. Qed.
Lemma tokens_pos : (forall e, (0 < length (tokens e))%nat) /\ (forall l : exprs, True).
Proof.
  apply expr_ind2; simpl; intros; rewrite ?length_app; simpl; try lia; try done. destruct pre; simpl; lia.
Qed.

(** ** Binary operators *)

Lemma parses_down l e : (2 <= l <= 7)%nat -> parses l e = true -> (exists o e1 e2, e = EBin o e1 e2 /\ binop_level o = l) \/ parses (l - 1) e = true.
Proof.
  intros Hl Hp. assert (l = 2 \/ l = 3 \/ l = 4 \/ l = 5 \/ l = 6 \/ l = 7)%nat as Hcases by lia. clear Hl.
  destruct e as [| | | |o e1 e2|e|e|e|[] inc x|x e|p e|p|x|f args]; try (by right).
  - destruct (decide (binop_level o = l)); [left; by exists o, e1, e2|]. right.
    by repeat destruct Hcases as [->|Hcases]; [..|subst l]; destruct o.
  - right. by repeat destruct Hcases as [->|Hcases]; [..|subst l].
  - right. by repeat destruct Hcases as [->|Hcases]; [..|subst l].
  - right. by repeat destruct Hcases as [->|Hcases]; [..|subst l].
  - right. by repeat destruct Hcases as [->|Hcases]; [..|subst l].
  - exfalso. by repeat destruct Hcases as [->|Hcases]; [..|subst l].
  - exfalso. by repeat destruct Hcases as [->|Hcases]; [..|subst l].
  - right. by repeat destruct Hcases as [->|Hcases]; [..|subst l].
  - right. by repeat destruct Hcases as [->|Hcases]; [..|subst l].
Qed.

Section binary_levels.
Context (N l : nat) (operand : FM (option nat)) (operator : Z -> option Z).
Hypothesis Hl : (2 <= l <= 7)%nat.
Hypothesis Hoperand : parses_level N operand (l - 1).
Hypothesis Hop : forall o, binop_level o = l -> operator (binop_token o) = Some (binop_type o).
Hypothesis Hno : forall t, (l < stop_level t)%nat -> operator (kind t) = None.

Lemma stop_level_binop o : stop_level (TOp (binop_token o)) = binop_level o.
Proof. by destruct o. Qed.

(** The operators of the level, from the left: the loop is reached with the tree of what has been read. *)
Lemma wp_binary_spine e : forall fuel t tk tbl n rest (Q : option nat -> finsh -> Prop),
  parses l e = true -> resolved e -> (length (tokens e) <= N)%nat -> (length (tokens e) <= fuel)%nat -> (l <= stop_level t)%nat ->
  upcoming (tokens e ++ t :: rest) tk -> table_ok tbl n -> (n + nodes e <= 16)%nat ->
  (forall tk' tbl' i nd ch fuel', (fuel <= fuel' + length (tokens e))%nat -> (fuel' <= fuel)%nat -> upcoming (t :: rest) tk' -> table_ok tbl' (n + nodes e) -> same_below n tbl tbl' ->
     holds tbl' (FCons i nd ch FNil) n (n + nodes e) -> den s0 e nd ch ->
     wp (token ← next_token; binary_loop operand operator fuel' (Some i) token) Q (st tk' tbl')) ->
  wp (binary_expr operand operator fuel) Q (st tk tbl).
Proof.
  induction e as [long m|c| |x|o e1 IH1 e2 _|e _|e _|e _|pre inc x|x e _|p _ e _|p _|x|f args];
    intros fuel t tk tbl n rest Q Hp Hr HN Hf Ht Hu Htbl Hn HQ.
  5: destruct (decide (binop_level o = l)) as [Ho|Ho].
  5: { simpl in Hp, HN, Hf, Hn, Hu, HQ. rewrite !andb_true_iff in Hp. destruct Hp as [[_ Hp1] Hp2], Hr as [Hr1 Hr2]. rewrite Ho in Hp1, Hp2.
    rewrite length_app in *. simpl in HN, Hf. rewrite <- app_assoc in Hu. simpl in Hu.
    eapply (IH1 fuel (TOp (binop_token o))); [done|done|lia|lia|by rewrite stop_level_binop, Ho|exact Hu|exact Htbl|lia|].
    intros tk1 tbl1 i1 nd1 ch1 [|fuel1] Hf1 Hf1' Hu1 Htbl1 Hs1 Hh1 Hd1; [lia|]. rewrite wp_bind. eapply wp_next_st; [exact Hu1|]. intros tk2 Hc2.
    cbn [binary_loop]. change (kind (TOp (binop_token o))) with (binop_token o). rewrite (Hop o Ho). rewrite wp_bind.
    eapply (Hoperand e2 t); [done|done|lia|lia|by eapply current_upcoming|exact Htbl1|lia|].
    intros tk3 tbl3 i2 nd2 ch2 Hu3 Htbl3 Hs3 Hh2 Hd2. rewrite wp_bind. change (Some i2) with (root_of (FCons i2 nd2 ch2 FNil)).
    eapply (wp_make_sys_node _ _ _ _ n i1 nd1 ch1 (n + nodes e1)); [by destruct o|exact Htbl3|lia|lia|by eapply holds_same|exact Hh2|].
    intros tbl4 nd4 Htbl4 Hs4 Hfresh Hh4. eapply (HQ tk3 tbl4 _ _ _ fuel1); [rewrite ?length_app; simpl; lia|lia|exact Hu3| | | |].
    - by replace (n + (nodes e1 + nodes e2 + 1))%nat with (S (n + nodes e1 + nodes e2)) by lia.
    - etrans; [exact Hs1|]. etrans; [eapply same_below_le; [|exact Hs3]; lia|exact Hs4].
    - replace (n + (nodes e1 + nodes e2 + 1))%nat with (S (n + nodes e1 + nodes e2)) by lia. exact Hh4.
    - simpl. split; [exact Hfresh|]. eexists _, _, _, _, _, _. split; [reflexivity|]. split; [by apply den_sibling|done]. }
  all: unfold binary_expr; rewrite wp_bind.
  all: match type of Hp with parses l ?e = true => destruct (parses_down l e Hl Hp) as [(o' & e1' & e2' & [=] & Ho')|Hp'] end; subst; try done.
  all: eapply (Hoperand _ t); [exact Hp'|done|done|lia|exact Hu|exact Htbl|exact Hn|]; intros tk' tbl' i nd ch Hu' Htbl' Hs' Hh' Hd'.
  all: apply (HQ tk' tbl' i nd ch fuel); [lia|lia|done..].
Qed.

Lemma wp_binary fuel : (N < fuel)%nat -> parses_level N (binary_expr operand operator fuel) l.
Proof.
  intros Hf e t Hp Hr HN Ht tk tbl n rest Q Hu Htbl Hn HQ. eapply wp_binary_spine; [done|done|done|lia| |exact Hu|exact Htbl|exact Hn|]; [lia|].
  intros tk' tbl' i nd ch [|fuel'] Hf1 Hf2 Hu' Htbl' Hs' Hh' Hd'; [lia|]. rewrite wp_bind. eapply wp_next_st; [exact Hu'|]. intros tk2 Hc2.
  cbn [binary_loop]. rewrite (Hno t Ht), wp_bind. eapply wp_replay_st; [exact Hc2|]. intros tk3 Hu3. rewrite wp_ret. by eapply (HQ tk3 tbl').
Qed.
End binary_levels.

(** ** The levels of the grammar *)

Ltac operator_none :=
  intros t Hs; destruct t as [x|[] n|c|type|type]; try done; simpl in *;
  repeat match goal with |- context [?a =? ?b] => destruct (Z.eqb_spec a b); [subst; simpl in Hs; lia|] end; done.

Lemma multiplicative_none : forall t, (2 < stop_level t)%nat -> multiplicative_operator (kind t) = None.
Proof. unfold multiplicative_operator. operator_none. Qed.
Lemma additive_none : forall t, (3 < stop_level t)%nat -> additive_operator (kind t) = None.
Proof. unfold additive_operator. operator_none. Qed.
Lemma shift_none : forall t, (4 < stop_level t)%nat -> shift_operator (kind t) = None.
Proof. unfold shift_operator. operator_none. Qed.
Lemma and_none : forall t, (5 < stop_level t)%nat -> and_operator (kind t) = None.
Proof. unfold and_operator. operator_none. Qed.
Lemma xor_none : forall t, (6 < stop_level t)%nat -> xor_operator (kind t) = None.
Proof. unfold xor_operator. operator_none. Qed.
Lemma or_none : forall t, (7 < stop_level t)%nat -> or_operator (kind t) = None.
Proof. unfold or_operator. operator_none. Qed.
Lemma not_assign : forall t, (8 < stop_level t)%nat -> kind t =? finsh_token_type_assign = false.
Proof. operator_none. Qed.

Section levels.
Context (N fuel : nat) (pc pa : FM (option nat)).
Hypothesis Hfuel : (N < fuel)%nat.

Lemma inclusive_or_level : parses_level N pc 1 -> parses_level N (proc_inclusive_or_expr fuel pc) 7.
Proof.
  intros Hpc. apply (wp_binary N 7); [lia| |by intros []|apply or_none|done].
  apply (wp_binary N 6); [lia| |by intros []|apply xor_none|done].
  apply (wp_binary N 5); [lia| |by intros []|apply and_none|done].
  apply (wp_binary N 4); [lia| |by intros []|apply shift_none|done].
  apply (wp_binary N 3); [lia| |by intros []|apply additive_none|done].
  apply (wp_binary N 2); [lia|exact Hpc|by intros []|apply multiplicative_none|done].
Qed.

(** An assignment behind its left side. *)
Lemma wp_assign e1 e2 e t tk tbl n rest (Q : option nat -> finsh -> Prop) :
  parses_level N pc 1 -> parses_level (N - 1) pa 8 ->
  parses 7 e1 = true -> resolved e1 -> parses 8 e2 = true -> resolved e2 ->
  tokens e = tokens e1 ++ TOp finsh_token_type_assign :: tokens e2 -> nodes e = (nodes e1 + nodes e2 + 1)%nat -> (length (tokens e) <= N)%nat ->
  (forall nd i1 nd1 ch1 i2 nd2 ch2, fresh FINSH_NODE_SYS_ASSIGN nd -> den s0 e1 nd1 ch1 -> den s0 e2 nd2 ch2 -> den s0 e nd (FCons i1 nd1 ch1 (FCons i2 nd2 ch2 FNil))) ->
  (8 < stop_level t)%nat -> upcoming (tokens e ++ t :: rest) tk -> table_ok tbl n -> (n + nodes e <= 16)%nat ->
  (forall tk' tbl' i nd ch, upcoming (t :: rest) tk' -> table_ok tbl' (n + nodes e) -> same_below n tbl tbl' ->
     holds tbl' (FCons i nd ch FNil) n (n + nodes e) -> den s0 e nd ch -> Q (Some i) (st tk' tbl')) ->
  wp (assign_expr fuel pc pa) Q (st tk tbl).
Proof.
  intros Hpc Hpa Hp1 Hr1 Hp2 Hr2 Etok Enodes HN Hden Ht Hu Htbl Hn HQ. rewrite Etok, length_app in HN. simpl in HN.
  rewrite Etok, <- app_assoc in Hu. simpl in Hu. pose proof (proj1 tokens_pos e1). unfold assign_expr. rewrite wp_bind.
  eapply (inclusive_or_level Hpc e1 (TOp finsh_token_type_assign)); [done|done|lia|simpl; lia|exact Hu|exact Htbl|lia|].
  intros tk1 tbl1 i1 nd1 ch1 Hu1 Htbl1 Hs1 Hh1 Hd1. rewrite wp_bind. eapply wp_next_st; [exact Hu1|]. intros tk2 Hc2. simpl.
  rewrite wp_bind. eapply (Hpa e2 t); [done|done|lia|done|by eapply current_upcoming|exact Htbl1|lia|].
  intros tk3 tbl3 i2 nd2 ch2 Hu3 Htbl3 Hs3 Hh2 Hd2. change (Some i2) with (root_of (FCons i2 nd2 ch2 FNil)).
  eapply (wp_make_sys_node _ _ _ _ n i1 nd1 ch1 (n + nodes e1)); [done|exact Htbl3|lia|lia|by eapply holds_same|exact Hh2|].
  intros tbl4 nd4 Htbl4 Hs4 Hfresh Hh4. replace (n + nodes e)%nat with (S (n + nodes e1 + nodes e2)) in * by lia.
  eapply (HQ tk3 tbl4); [exact Hu3|exact Htbl4| |exact Hh4|].
  - etrans; [exact Hs1|]. etrans; [eapply same_below_le; [|exact Hs3]; lia|exact Hs4].
  - apply Hden; [done|by apply den_sibling|done].
Qed.

Lemma parses_assign e : parses 8 e = true ->
  (exists x e2, e = EAssign x e2 /\ parses 8 e2 = true) \/ (exists p e2, e = EStore p e2 /\ parses 1 p = true /\ parses 8 e2 = true) \/ parses 7 e = true.
Proof.
  intros Hp. destruct e as [| | | |o e1 e2|e|e|e|[] inc x|x e|p e|p|x|f args]; try (by right; right).
  - right; right. simpl in *. rewrite !andb_true_iff in *. destruct Hp as [[_ H1] H2]. split_and!; [by destruct o|done|done].
  - left. by exists x, e.
  - right; left. simpl in Hp. apply andb_true_iff in Hp as [H1 H2]. by exists p, e.
Qed.

Lemma assign_level : parses_level N pc 1 -> parses_level (N - 1) pa 8 -> parses_level N (assign_expr fuel pc pa) 8.
Proof.
  intros Hpc Hpa e t Hp Hr HN Ht tk tbl n rest Q Hu Htbl Hn HQ. destruct (parses_assign e Hp) as [(x & e2 & -> & Hp2)|[(p & e2 & -> & Hp1 & Hp2)|Hp7]].
  - destruct Hr as [Hx Hr2]. eapply (wp_assign (EId x) e2 (EAssign x e2)); [done|done|done|exact Hx|done|exact Hr2|done|simpl; lia|done| |exact Ht|exact Hu|exact Htbl|exact Hn|exact HQ].
    intros nd i1 nd1 ch1 i2 nd2 ch2 Hf Hd1 Hd2. pose proof Hd1 as (_ & _ & -> & _). simpl. split; [done|]. eexists _, _, _, _, _. by split_and!.
  - destruct Hr as [Hr1 Hr2]. eapply (wp_assign (EDeref p) e2 (EStore p e2)); [done|done|done|exact Hr1|done|exact Hr2|done|simpl; lia|done| |exact Ht|exact Hu|exact Htbl|exact Hn|exact HQ].
    intros nd i1 nd1 ch1 i2 nd2 ch2 Hf (Hf1 & i3 & nd3 & ch3 & -> & Hd3) Hd2. simpl. split; [done|]. eexists _, _, _, _, _, _, _, _. by split_and!.
  - unfold assign_expr. rewrite wp_bind. eapply (inclusive_or_level Hpc e t); [done|done|done|lia|exact Hu|exact Htbl|exact Hn|].
    intros tk1 tbl1 i nd ch Hu1 Htbl1 Hs1 Hh1 Hd1. rewrite wp_bind. eapply wp_next_st; [exact Hu1|]. intros tk2 Hc2. rewrite not_assign by done.
    rewrite wp_bind. eapply wp_replay_st; [exact Hc2|]. intros tk3 Hu3. rewrite wp_ret. by eapply HQ.
Qed.

(** ** Unary and postfix expressions *)

Definition leaf_expr (e : expr) : bool := match e with EInt _ _ | EChar _ | ENull | EId _ => true | _ => false end.

Lemma wp_token_string x tk tbl (Q : list Z -> finsh -> Prop) : c_string (tk_string tk) = Some x -> Q x (st tk tbl) -> wp token_string Q (st tk tbl).
Proof. intros Hx HQ. unfold token_string. rewrite wp_bind, wp_tget, wp_getso. by exists x. Qed.

Lemma wp_new_leaf type f e tk tbl n ts (Q : option nat -> finsh -> Prop) :
  table_ok tbl n -> (n < 16)%nat -> type ≠ FINSH_NODE_UNKNOWN -> upcoming ts tk -> den s0 e (mkNode type 0 0 (f 0) None None None) FNil ->
  (forall tk' tbl' nd, upcoming ts tk' -> table_ok tbl' (S n) -> same_below n tbl tbl' -> holds tbl' (FCons n nd FNil FNil) n (S n) -> den s0 e nd FNil ->
     Q (Some n) (st tk' tbl')) -> wp (new_value type f) Q (st tk tbl).
Proof.
  intros Ht Hn Hty Hu Hd HQ. apply (wp_new_value _ _ _ _ n); [done|done|].
  eapply HQ; [exact Hu|by apply table_insert|by apply same_insert|by apply holds_single|exact Hd].
Qed.

Lemma wp_primary e ts tk tbl n (Q : option nat -> finsh -> Prop) :
  leaf_expr e = true -> resolved e -> upcoming (tokens e ++ ts) tk -> table_ok tbl n -> (n < 16)%nat ->
  (forall tk' tbl' nd, upcoming ts tk' -> table_ok tbl' (S n) -> same_below n tbl tbl' -> holds tbl' (FCons n nd FNil FNil) n (S n) -> den s0 e nd FNil ->
     Q (Some n) (st tk' tbl')) -> wp (proc_primary_expr pa) Q (st tk tbl).
Proof.
  intros Hleaf Hr Hu Ht Hn HQ. unfold proc_primary_expr. rewrite wp_bind. destruct e as [long v|c| |x|o e1 e2|e|e|e|pre inc x|x e|p e|p|x|f args]; try done;
    (eapply wp_next_st; [exact Hu|]; intros tk1 Hc1; pose proof (current_upcoming _ _ _ Hc1) as Hu1; pose proof Hc1 as (_ & [_ Hm] & _)).
  - assert (forall type, wp (v ← tget tk_value; new_value type (wr DWORD (rd DWORD v))) Q (st tk1 tbl) <-> wp (new_value type (wr DWORD (rd DWORD (tk_value tk1)))) Q (st tk1 tbl)) as Hg
      by (intros; by rewrite wp_bind, wp_tget).
    destruct long; simpl; apply Hg; (eapply wp_new_leaf; [done|done|done|exact Hu1| |exact HQ]); (split; [done|split; [done|]]); change (u32 (wr DWORD (rd DWORD (tk_value tk1)) 0) = u32 v); rewrite Hm;
      exact (eq_trans (uwrap_wr DWORD _ 0) (uwrap_swrap 32 v ltac:(lia))).
  - simpl. rewrite wp_bind, wp_tget. eapply wp_new_leaf; [done|done|done|exact Hu1| |exact HQ]. simpl. split; [done|split; [done|]].
    change (u8 (wr BYTE (rd BYTE (tk_value tk1)) 0) = u8 c). rewrite Hm. exact (eq_trans (uwrap_wr BYTE _ 0) (uwrap_uwrap 8 c ltac:(lia))).
  - simpl. eapply wp_new_leaf; [done|done|done|exact Hu1| |exact HQ]. done.
  - simpl. destruct Hm as [Hm Hlen]. rewrite wp_bind. eapply wp_replay_st; [exact Hc1|]. intros tk2 Hu2. rewrite wp_bind. unfold proc_identifier.
    rewrite wp_bind. eapply wp_match; [exact Hu2|done|]. intros tk3 Hc3. pose proof (current_upcoming _ _ _ Hc3) as Hu3. pose proof Hc3 as (_ & [_ [Hm3 _]] & _).
    rewrite wp_bind. eapply wp_token_string; [exact Hm3|]. rewrite wp_ret. unfold strncpy. rewrite take_ge by (simpl; lia).
    simpl in Hr. destruct Hr as [_ [[t p] Hres]]. apply (wp_new_id x t p _ _ n); [done|done|done|].
    eapply HQ; [exact Hu3|by apply table_insert|by apply same_insert|by apply holds_single|]. simpl. split_and!; [done..|]. exists t, p. by split_and!.
Qed.

Lemma postfix_none t fuel' o tk ts tbl (Q : option nat -> finsh -> Prop) :
  (0 < fuel')%nat -> (0 < stop_level t)%nat -> current t ts tk -> (forall tk', upcoming (t :: ts) tk' -> Q o (st tk' tbl)) -> wp (postfix_loop fuel pa fuel' o (kind t)) Q (st tk tbl).
Proof.
  intros Hf Ht Hc HQ. destruct fuel' as [|fuel']; [lia|]. cbn [postfix_loop].
  assert (kind t =? finsh_token_type_inc = false /\ kind t =? finsh_token_type_dec = false /\ kind t =? finsh_token_type_left_paren = false) as (-> & -> & ->).
  { destruct t as [x|[] n|c|type|type]; try done; simpl in *; unfold one_of in Ht; simpl in Ht;
    destruct (Z.eqb_spec type 7), (Z.eqb_spec type 9), (Z.eqb_spec type 1); simpl in Ht; try lia. }
  rewrite wp_bind. eapply wp_replay_st; [exact Hc|]. intros tk' Hu. rewrite wp_ret. by apply HQ.
Qed.

(** The arguments behind the first one. *)
Definition more_tokens (l : exprs) : list tok := match l with ANil => [] | ACons _ _ => TOp finsh_token_type_comma :: args_tokens l end.

Lemma args_tokens_cons e l : args_tokens (ACons e l) = tokens e ++ more_tokens l.
Proof. by destruct l. Qed.

Hypothesis Hpa : parses_level (N - 1) pa 8.

Lemma wp_param_loop l : forall fuel' tk tbl n a i nd ch rest (Q : unit -> finsh -> Prop),
  args_parse l = true -> args_resolved l -> (length (args_tokens l) <= N - 1)%nat -> (args_length l < fuel')%nat ->
  upcoming (more_tokens l ++ TOp finsh_token_type_right_paren :: rest) tk -> table_ok tbl n -> (n + args_nodes l <= 16)%nat -> (a <= n)%nat ->
  holds tbl (FCons i nd ch FNil) a n ->
  (forall tk' tbl' F, upcoming (TOp finsh_token_type_right_paren :: rest) tk' -> table_ok tbl' (n + args_nodes l) -> same_below a tbl tbl' ->
     holds tbl' (FCons i (set_nd_sibling (root_of F) nd) ch F) a (n + args_nodes l) -> den_args s0 l F -> Q tt (st tk' tbl')) ->
  wp (token ← next_token; param_loop pa fuel' i token) Q (st tk tbl).
Proof.
  induction l as [|e l IH]; intros [|fuel'] tk tbl n a i nd ch rest Q Hp Hr HN Hf Hu Ht Hn Han Hh HQ; simpl in Hf; try lia; rewrite wp_bind.
  - eapply wp_next_st; [exact Hu|]. intros tk1 Hc1. cbn [param_loop]. simpl. eapply wp_replay_st; [exact Hc1|]. intros tk2 Hu2.
    simpl in Hn, HQ. rewrite Nat.add_0_r in *. apply (HQ tk2 tbl FNil); [done|done|done| |done].
    destruct Hh as (Hrep & Hrest). pose proof Hrep as (_ & _ & Hs & _). simpl. replace (set_nd_sibling None nd) with nd by (destruct nd; simpl in Hs; by subst). by split.
  - rewrite args_tokens_cons in HN. simpl in Hp, Hr, Hn. apply andb_true_iff in Hp as [Hp1 Hp2]. destruct Hr as [Hr1 Hr2]. rewrite length_app in HN.
    assert (upcoming (TOp finsh_token_type_comma :: tokens e ++ (more_tokens l ++ TOp finsh_token_type_right_paren :: rest)) tk) as Hu'.
    { cbn [more_tokens] in Hu. by rewrite args_tokens_cons, <- app_comm_cons, <- app_assoc in Hu. }
    eapply wp_next_st; [exact Hu'|]. intros tk1 Hc1. cbn [param_loop]. change (kind _ =? _) with true. cbv iota. rewrite wp_bind.
    assert (exists t ts, more_tokens l ++ TOp finsh_token_type_right_paren :: rest = t :: ts /\ (8 < stop_level t)%nat) as (t & ts & Ets & Hst)
      by (destruct l; simpl; eexists _, _; (split; [reflexivity|simpl; lia])).
    rewrite Ets in Hc1. eapply (Hpa e t); [done|done|lia|done|by eapply current_upcoming|exact Ht|lia|].
    intros tk2 tbl2 i2 nd2 ch2 Hu2 Ht2 Hs2 Hh2 Hd2. rewrite <- Ets in Hu2. rewrite wp_bind.
    destruct (link_sibling tbl2 a n (n + nodes e) i nd ch i2 Ht2 ltac:(lia) (holds_same _ _ _ _ _ Hs2 Hh)) as (Hi & Ht3 & Hsa & Hkeep & Hlink).
    eapply wp_upd_node; [exact Hi|]. change (set_global_node_table _ _) with (st tk2 (<[i := set_nd_sibling (Some i2) nd]> tbl2)).
    rewrite wp_bind, wp_ret. eapply (IH fuel' tk2 _ (n + nodes e)%nat n i2 nd2 ch2 rest);
      [done|done|destruct l; simpl in *; lia|lia|exact Hu2|exact Ht3|lia|lia|by apply Hkeep|].
    intros tk3 tbl3 F Hu3 Ht4 Hs3 Hh3 Hd3. simpl in HQ. rewrite Nat.add_assoc in HQ.
    apply (HQ tk3 tbl3 (FCons i2 (set_nd_sibling (root_of F) nd2) ch2 F)); [exact Hu3|exact Ht4| |apply Hlink; [exact Hs3|lia|exact Hh3]|].
    + etrans; [eapply same_below_le; [|exact Hs2]; lia|]. etrans; [exact Hsa|]. eapply same_below_le; [|exact Hs3]. lia.
    + simpl. eexists _, _, _, _. split; [reflexivity|]. split; [by apply den_sibling|done].
Qed.

Definition postfix_expr (e : expr) : bool := match e with EStep false _ _ | ECall _ _ => true | _ => leaf_expr e end.

(** An operator behind an expression, or the parentheses of a call: one round of the loop. *)
Lemma wp_postfix_end fuel' type e1 F2 e t tk tbl n m i nd ch n0 rest (Q : option nat -> finsh -> Prop) :
  (1 < fuel')%nat -> type ≠ FINSH_NODE_UNKNOWN -> (0 < stop_level t)%nat -> upcoming (t :: rest) tk -> table_ok tbl n -> (n < 16)%nat -> (n0 <= m <= n)%nat ->
  holds tbl (FCons i nd ch FNil) n0 m -> holds tbl F2 m n -> den s0 e1 nd ch ->
  (forall nd' nd1, fresh type nd' -> den s0 e1 nd1 ch -> nd_node_type nd1 = nd_node_type nd -> den s0 e nd' (FCons i nd1 ch F2)) ->
  (forall tk' tbl' nd', upcoming (t :: rest) tk' -> table_ok tbl' (S n) -> same_below n0 tbl tbl' ->
     holds tbl' (FCons n nd' (FCons i (set_nd_sibling (root_of F2) nd) ch F2) FNil) n0 (S n) ->
     den s0 e nd' (FCons i (set_nd_sibling (root_of F2) nd) ch F2) -> Q (Some n) (st tk' tbl')) ->
  wp (postfix ← make_sys_node type (Some i) (root_of F2); token ← next_token; postfix_loop fuel pa (fuel' - 1) postfix token) Q (st tk tbl).
Proof.
  intros Hf Hty Hst Hu Ht Hn Hm Hh1 Hh2 Hd Hden HQ. rewrite wp_bind.
  eapply (wp_make_sys_node _ _ _ _ n0 i nd ch m); [done|exact Ht|done|done|exact Hh1|exact Hh2|]. intros tbl2 nd2 Ht2 Hs2 Hfr Hh.
  rewrite wp_bind. eapply wp_next_st; [exact Hu|]. intros tk2 Hc2. eapply postfix_none; [lia|done|exact Hc2|]. intros tk3 Hu3.
  eapply HQ; [exact Hu3|exact Ht2|exact Hs2|exact Hh|]. apply Hden; [done|by apply den_sibling|done].
Qed.

Definition starts_expr (k : Z) : bool :=
  one_of k [finsh_token_type_mul; finsh_token_type_add; finsh_token_type_inc; finsh_token_type_sub; finsh_token_type_dec; finsh_token_type_and;
    finsh_token_type_bitwise; finsh_token_type_value_char; finsh_token_type_value_int; finsh_token_type_value_long; finsh_token_type_value_null; finsh_token_type_identifier].

Lemma first_token e : exists t ts, tokens e = t :: ts /\ starts_expr (kind t) = true.
Proof.
  induction e as [[] v|c| |x|o e1 IH1 e2 _|e _|e _|e _|[] [] x|x e _|p _ e _|p _|x|f args]; simpl; try (by eexists _, _).
  destruct IH1 as (t & ts & -> & Hs). by eexists _, _.
Qed.

Lemma starts_not k x : starts_expr k = true -> starts_expr x = false -> (k =? x) = false.
Proof. intros Hk Hx. destruct (Z.eqb_spec k x); congruence. Qed.

Lemma holds_nil tbl a b : holds tbl FNil a b.
Proof. split_and!; [done|apply NoDup_nil_2|]. intros j Hj. by apply elem_of_nil in Hj. Qed.

(** The parameters of a call between its parentheses. *)
Lemma wp_param_list e l tk tbl n rest (Q : option nat -> finsh -> Prop) :
  (N < fuel)%nat -> args_parse (ACons e l) = true -> args_resolved (ACons e l) -> (length (args_tokens (ACons e l)) <= N - 1)%nat -> (args_length (ACons e l) < fuel)%nat ->
  upcoming (args_tokens (ACons e l) ++ TOp finsh_token_type_right_paren :: rest) tk -> table_ok tbl n -> (n + args_nodes (ACons e l) <= 16)%nat ->
  (forall tk' tbl' F, upcoming (TOp finsh_token_type_right_paren :: rest) tk' -> table_ok tbl' (n + args_nodes (ACons e l)) -> same_below n tbl tbl' ->
     holds tbl' F n (n + args_nodes (ACons e l)) -> den_args s0 (ACons e l) F -> Q (root_of F) (st tk' tbl')) ->
  wp (proc_param_list fuel pa) Q (st tk tbl).
Proof.
  intros Hfu Hp Hr HN Hf Hu Ht Hn HQ. rewrite args_tokens_cons in HN, Hu. rewrite <- app_assoc in Hu. rewrite length_app in HN.
  simpl in Hp, Hr, Hn, Hf. apply andb_true_iff in Hp as [Hp1 Hp2]. destruct Hr as [Hr1 Hr2]. unfold proc_param_list. rewrite wp_bind.
  assert (exists t ts, more_tokens l ++ TOp finsh_token_type_right_paren :: rest = t :: ts /\ (8 < stop_level t)%nat) as (t & ts & Ets & Hst)
    by (destruct l; simpl; eexists _, _; (split; [reflexivity|simpl; lia])).
  rewrite Ets in Hu. eapply (Hpa e t); [done|done|lia|done|exact Hu|exact Ht|lia|].
  intros tk2 tbl2 i2 nd2 ch2 Hu2 Ht2 Hs2 Hh2 Hd2. rewrite <- Ets in Hu2.
  assert (forall Q', wp (token ← next_token; param_loop pa fuel i2 token) (fun _ => Q' (Some i2)) (st tk2 tbl2) ->
    wp (token ← next_token; param_loop pa fuel i2 token;; mret (Some i2)) Q' (st tk2 tbl2)) as Hseq.
  { intros Q'. rewrite !wp_bind. intros Hw. eapply wp_mono; [exact Hw|]. intros token s' Hs'. rewrite wp_bind. eapply wp_mono; [exact Hs'|]. intros [] s'' Hq. by rewrite wp_ret. }
  apply Hseq. eapply (wp_param_loop l fuel tk2 tbl2 (n + nodes e)%nat n i2 nd2 ch2 rest); [done|done| |lia|exact Hu2|exact Ht2|lia|lia|exact Hh2|].
  - destruct l; simpl in *; lia.
  - intros tk3 tbl3 F Hu3 Ht3 Hs3 Hh3 Hd3. simpl in HQ. rewrite Nat.add_assoc in HQ. apply (HQ tk3 tbl3 (FCons i2 (set_nd_sibling (root_of F) nd2) ch2 F)); [done|done| |done|].
    + by etrans.
    + eexists _, _, _, _. split; [reflexivity|]. split; [by apply den_sibling|done].
Qed.

Lemma args_length_tokens l : (args_length l <= length (args_tokens l))%nat.
Proof.
  induction l as [|e l IH]; [done|]. rewrite args_tokens_cons, length_app. pose proof (proj1 tokens_pos e). destruct l; simpl in *; lia.
Qed.

Lemma postfix_loop_step k inc o : (0 < k)%nat ->
  postfix_loop fuel pa k o (kind (TOp (step_token inc))) =
  (postfix ← make_sys_node (step_type false inc) o (root_of FNil); token ← next_token; postfix_loop fuel pa (k - 1) postfix token).
Proof. destruct k; [lia|]. intros _. simpl. rewrite Nat.sub_0_r. by destruct inc. Qed.

Lemma postfix_loop_call k o : (0 < k)%nat ->
  postfix_loop fuel pa k o finsh_token_type_left_paren =
  (token ← next_token;
   param_list ← (if negb (token =? finsh_token_type_right_paren) then
                   finsh_token_replay;; params ← proc_param_list fuel pa; match_token finsh_token_type_right_paren;; mret params
                 else mret None);
   postfix ← make_sys_node FINSH_NODE_SYS_FUNC o param_list; token ← next_token; postfix_loop fuel pa (k - 1) postfix token).
Proof. destruct k; [lia|]. intros _. simpl. by rewrite Nat.sub_0_r. Qed.

Lemma postfix_level e t : postfix_expr e = true -> parses 1 e = true -> resolved e -> (length (tokens e) <= N)%nat -> (0 < stop_level t)%nat ->
  parse_ok (proc_postfix_expr fuel pa) e t.
Proof.
  intros Hpost Hp Hr HN Hst tk tbl n rest Q Hu Ht Hn HQ. unfold proc_postfix_expr. rewrite wp_bind.
  destruct (leaf_expr e) eqn:Hleaf.
  { assert (nodes e = 1%nat) as Hne by (by destruct e). rewrite Hne in *. rewrite Nat.add_1_r in HQ. eapply (wp_primary e); [done|done|exact Hu|exact Ht|lia|].
    intros tk1 tbl1 nd1 Hu1 Ht1 Hs1 Hh1 Hd1. rewrite wp_bind. eapply wp_next_st; [exact Hu1|]. intros tk2 Hc2. eapply postfix_none; [lia|done|exact Hc2|].
    intros tk3 Hu3. by eapply HQ. }
  destruct e as [| | | | | | | |[] inc x| | | | |f args]; try done; simpl in Hu, Hn, HQ, HN, Hr, Hp.
  - change (TId x :: TOp (step_token inc) :: t :: rest) with (tokens (EId x) ++ TOp (step_token inc) :: t :: rest) in Hu.
    eapply (wp_primary (EId x)); [done|exact Hr|exact Hu|exact Ht|lia|]. intros tk1 tbl1 nd1 Hu1 Ht1 Hs1 Hh1 Hd1. rewrite wp_bind. eapply wp_next_st; [exact Hu1|].
    intros tk2 Hc2. pose proof (current_upcoming _ _ _ Hc2) as Hu2. rewrite postfix_loop_step by lia.
    replace (n + 2)%nat with (S (S n)) in HQ by lia.
    eapply (wp_postfix_end _ _ (EId x) FNil (EStep false inc x) t _ _ (S n) (S n) n nd1 FNil n); [lia|by destruct inc|exact Hst|exact Hu2|exact Ht1|lia|lia|exact Hh1|apply holds_nil|exact Hd1| |].
    + intros nd' nd2 Hfr Hd2 _. simpl. split; [done|]. by eexists _, _.
    + intros tk3 tbl3 nd' Hu3 Ht3 Hs3 Hh3 Hd3. eapply HQ; [exact Hu3|exact Ht3| |exact Hh3|exact Hd3]. by etrans.
  - destruct Hr as [Hrf Hra]. rewrite <- app_assoc in Hu. rewrite length_app in HN. simpl in HN.
    change (TId f :: ?l) with (tokens (EId f) ++ l) in Hu.
    eapply (wp_primary (EId f)); [done|exact Hrf|exact Hu|exact Ht|lia|]. intros tk1 tbl1 nd1 Hu1 Ht1 Hs1 Hh1 Hd1. rewrite wp_bind. eapply wp_next_st; [exact Hu1|].
    intros tk2 Hc2. pose proof (current_upcoming _ _ _ Hc2) as Hu2. change (kind (TOp finsh_token_type_left_paren)) with finsh_token_type_left_paren.
    rewrite postfix_loop_call by lia. rewrite wp_bind. simpl in Hu2.
    assert (forall tk3 tbl3 F, upcoming (t :: rest) tk3 -> table_ok tbl3 (S n + args_nodes args) -> same_below (S n) tbl1 tbl3 -> holds tbl3 F (S n) (S n + args_nodes args) ->
      den_args s0 args F ->
      wp (postfix ← make_sys_node FINSH_NODE_SYS_FUNC (Some n) (root_of F); token ← next_token; postfix_loop fuel pa (fuel - 1) postfix token) Q (st tk3 tbl3)) as Hend.
    { intros tk3 tbl3 F Hu3 Ht3 Hs3 Hh3 Hd3.
      eapply (wp_postfix_end _ _ (EId f) F (ECall f args) t _ _ _ (S n) n nd1 FNil n); [lia|done|exact Hst|exact Hu3|exact Ht3|lia|lia|by eapply holds_same|exact Hh3|exact Hd1| |].
      + intros nd' nd2 Hfr Hd2 _. simpl. split; [done|]. by eexists _, _, _.
      + intros tk4 tbl4 nd' Hu4 Ht4 Hs4 Hh4 Hd4. replace (n + S (args_nodes args + 1))%nat with (S (S n + args_nodes args)) in HQ by lia.
        eapply HQ; [exact Hu4|exact Ht4| |exact Hh4|exact Hd4]. etrans; [exact Hs1|]. etrans; [eapply same_below_le; [|exact Hs3]; lia|exact Hs4]. }
    destruct args as [|e args].
    + simpl in Hu2. eapply wp_next_st; [exact Hu2|]. intros tk3 Hc3. simpl. rewrite wp_bind, wp_ret.
      apply (Hend tk3 tbl1 FNil); [by eapply current_upcoming|simpl; by rewrite Nat.add_0_r|done|apply holds_nil|done].
    + destruct (first_token e) as (t1 & ts1 & Et1 & Hst1).
      assert (exists ts2, args_tokens (ACons e args) ++ TOp finsh_token_type_right_paren :: t :: rest = t1 :: ts2) as [ts2 Ets2]
        by (rewrite args_tokens_cons, Et1; simpl; eauto).
      pose proof Hu2 as Hu2'. cbn [app] in Hu2'. rewrite Ets2 in Hu2'. eapply wp_next_st; [exact Hu2'|]. intros tk3 Hc3.
      rewrite (starts_not _ finsh_token_type_right_paren Hst1 eq_refl). cbn [negb]. rewrite wp_bind, wp_bind. eapply wp_replay_st; [exact Hc3|]. intros tk4 Hu4.
      rewrite <- Ets2 in Hu4. rewrite wp_bind.
      eapply (wp_param_list e args); [done|done|done|lia| |exact Hu4|exact Ht1|lia|].
      { pose proof (args_length_tokens (ACons e args)). lia. }
      intros tk5 tbl5 F Hu5 Ht5 Hs5 Hh5 Hd5. rewrite wp_bind. eapply wp_match; [exact Hu5|done|]. intros tk6 Hc6. rewrite wp_ret.
      apply (Hend tk6 tbl5 F); [by eapply current_upcoming|done|done|done|done].
Qed.

Hypothesis Hpc : parses_level (N - 1) pc 1.

(** The operand of a prefix operator and its node. *)
Lemma wp_prefix type e1 e t tk tbl n rest (Q : option nat -> finsh -> Prop) :
  type ≠ FINSH_NODE_UNKNOWN -> parses 1 e1 = true -> resolved e1 -> (length (tokens e1) <= N - 1)%nat -> (1 < stop_level t)%nat ->
  nodes e = (nodes e1 + 1)%nat -> upcoming (tokens e1 ++ t :: rest) tk -> table_ok tbl n -> (n + nodes e <= 16)%nat ->
  (forall nd i nd1 ch1, fresh type nd -> den s0 e1 nd1 ch1 -> den s0 e nd (FCons i nd1 ch1 FNil)) ->
  (forall tk' tbl' i nd ch, upcoming (t :: rest) tk' -> table_ok tbl' (n + nodes e) -> same_below n tbl tbl' ->
     holds tbl' (FCons i nd ch FNil) n (n + nodes e) -> den s0 e nd ch -> Q (Some i) (st tk' tbl')) ->
  wp (cast ← pc; make_sys_node type cast None) Q (st tk tbl).
Proof.
  intros Hty Hp Hr HN Ht Hne Hu Htbl Hn Hden HQ. rewrite wp_bind. eapply (Hpc e1 t); [done|done|done|done|exact Hu|exact Htbl|lia|].
  intros tk1 tbl1 i nd ch Hu1 Htbl1 Hs1 Hh1 Hd1. change None with (root_of FNil). replace (n + nodes e)%nat with (S (n + nodes e1)) in * by lia.
  eapply (wp_make_sys_node _ _ _ _ n i nd ch (n + nodes e1) FNil); [done|exact Htbl1|lia|lia|exact Hh1|apply holds_nil|].
  intros tbl2 nd2 Htbl2 Hs2 Hfr Hh2. eapply HQ; [exact Hu1|exact Htbl2| |exact Hh2|]; [by etrans|]. apply Hden; [done|by apply den_sibling].
Qed.

Lemma parses_unary e : parses 1 e = true -> (postfix_expr e = true) \/
  (exists e1, (e = ENot e1 \/ e = ENeg e1 \/ e = EPlus e1 \/ e = EDeref e1) /\ parses 1 e1 = true) \/ (exists inc x, e = EStep true inc x) \/ (exists x, e = EAddr x).
Proof.
  destruct e as [| | | |o e1 e2|e|e|e|[] inc x|x e|p e|p|x|f args]; simpl; intros Hp; try (by left); try done; try (right; left; exists e; by eauto);
    try (right; left; exists p; by eauto); try (right; right; by eauto).
  by destruct o.
Qed.

Lemma first_postfix e : postfix_expr e = true -> exists t ts, tokens e = t :: ts /\
  one_of (kind t) [finsh_token_type_add; finsh_token_type_inc; finsh_token_type_sub; finsh_token_type_dec; finsh_token_type_bitwise; finsh_token_type_mul; finsh_token_type_and] = false.
Proof. destruct e as [[] v|c| |x|o e1 e2|e|e|e|[] inc x|x e|p e|p|x|f args]; try done; intros _; simpl; by eexists _, _. Qed.

Lemma unary_level e t : parses 1 e = true -> resolved e -> (length (tokens e) <= N)%nat -> (1 < stop_level t)%nat -> parse_ok (proc_unary_expr fuel pc pa) e t.
Proof.
  intros Hp Hr HN Hst tk tbl n rest Q Hu Ht Hn HQ. unfold proc_unary_expr. rewrite wp_bind.
  destruct (parses_unary e Hp) as [Hpost|[(e1 & He & Hp1)|[(inc & x & ->)|(x & ->)]]].
  - destruct (first_postfix e Hpost) as (t1 & ts & Et & Hs1). pose proof Hu as Hu'. rewrite Et in Hu'. cbn [app] in Hu'. eapply wp_next_st; [exact Hu'|]. intros tk1 Hc1.
    unfold one_of in Hs1. cbn [existsb] in Hs1. rewrite !orb_false_iff in Hs1. destruct Hs1 as (-> & -> & -> & -> & -> & -> & -> & _).
    rewrite wp_bind. eapply wp_replay_st; [exact Hc1|]. intros tk2 Hu2. change (t1 :: ts ++ t :: rest) with ((t1 :: ts) ++ t :: rest) in Hu2. rewrite <- Et in Hu2.
    eapply (postfix_level e t); [done|done|done|done|lia|exact Hu2|exact Ht|done|exact HQ].
  - destruct He as [-> | [-> | [-> | ->]]]; simpl in Hu, HN, Hr; (eapply wp_next_st; [exact Hu|]; intros tk1 Hc1; pose proof (current_upcoming _ _ _ Hc1) as Hu1; simpl).
    + eapply (wp_prefix _ e1 (ENot e1)); [done|exact Hp1|exact Hr|lia|exact Hst|done|exact Hu1|exact Ht|exact Hn| |exact HQ].
      intros. simpl. split; [done|]. by eexists _, _, _.
    + simpl in Hn, HQ. rewrite wp_bind. eapply (Hpc e1 t); [done|done|lia|done|exact Hu1|exact Ht|lia|].
      intros tk2 tbl2 i2 nd2 ch2 Hu2 Ht2 Hs2 Hh2 Hd2. rewrite wp_bind. apply (wp_new_value _ _ _ _ (n + nodes e1)); [done|lia|].
      set (zero := mkNode _ _ _ _ _ _ _). set (tbl3 := <[_ := zero]> tbl2).
      assert (table_ok tbl3 (S (n + nodes e1))) as Ht3 by (apply table_insert; [done|lia|done]).
      assert (same_below (n + nodes e1) tbl2 tbl3) as Hs3 by (by apply same_insert).
      assert (holds tbl3 (FCons (n + nodes e1) zero FNil FNil) (n + nodes e1) (S (n + nodes e1))) as Hh3 by (apply holds_single; [done|lia|done|done]).
      (* the zero is the first child, although its node is behind those of the operand *)
      change (Some i2) with (root_of (FCons i2 nd2 ch2 FNil)). pose proof (holds_same _ _ _ _ _ Hs3 Hh2) as Hh2'.
      eapply (wp_make_sys_node_disjoint _ _ _ _ n (n + nodes e1) zero FNil); [done|exact Ht3|lia| | | |].
      * eapply holds_le; [..|exact Hh3]; lia.
      * eapply holds_le; [..|exact Hh2']; lia.
      * intros j Hj Hj2. apply Hh3 in Hj. apply Hh2' in Hj2. lia.
      * intros tbl4 nd4 Ht4 Hs4 Hfr Hh4. replace (n + (nodes e1 + 2))%nat with (S (S (n + nodes e1))) in HQ by lia.
        eapply HQ; [exact Hu2|exact Ht4| |exact Hh4|].
        -- etrans; [exact Hs2|]. etrans; [eapply same_below_le; [|exact Hs3]; lia|exact Hs4].
        -- split; [exact Hfr|]. eexists _, _, _, _, _. split; [reflexivity|]. by split_and!.
    + eapply (Hpc e1 t); [done|done|lia|done|exact Hu1|exact Ht|done|exact HQ].
    + eapply (wp_prefix _ e1 (EDeref e1)); [done|exact Hp1|exact Hr|lia|exact Hst|done|exact Hu1|exact Ht|exact Hn| |exact HQ].
      intros. simpl. split; [done|]. by eexists _, _, _.
  - simpl in Hu, HN, Hr. eapply wp_next_st; [exact Hu|]. intros tk1 Hc1. pose proof (current_upcoming _ _ _ Hc1) as Hu1.
    assert (wp (cast ← pc; make_sys_node (step_type true inc) cast None) Q (st tk1 tbl)) as Hw.
    { eapply (wp_prefix _ (EId x) (EStep true inc x)); [by destruct inc|done|exact Hr|simpl; lia|exact Hst|done|exact Hu1|exact Ht|exact Hn| |exact HQ].
      intros nd i nd1 ch1 Hf Hd. pose proof Hd as (_ & _ & -> & _). simpl. split; [done|]. by eexists _, _. }
    destruct inc; exact Hw.
  - simpl in Hu, HN, Hr. eapply wp_next_st; [exact Hu|]. intros tk1 Hc1. pose proof (current_upcoming _ _ _ Hc1) as Hu1. simpl.
    eapply (wp_prefix _ (EId x) (EAddr x)); [done|done|exact Hr|simpl; lia|exact Hst|done|exact Hu1|exact Ht|exact Hn| |exact HQ].
    intros nd i nd1 ch1 Hf Hd. pose proof Hd as (_ & _ & -> & _). simpl. split; [done|]. by eexists _, _.
Qed.

Lemma cast_level : parses_level N (cast_expr fuel pc pa) 1.
Proof.
  intros e t Hp Hr HN Hst tk tbl n rest Q Hu Ht Hn HQ. unfold cast_expr. rewrite wp_bind. destruct (first_token e) as (t1 & ts & Et & Hs1).
  pose proof Hu as Hu'. rewrite Et in Hu'. cbn [app] in Hu'. eapply wp_next_st; [exact Hu'|]. intros tk1 Hc1.
  rewrite (starts_not _ finsh_token_type_left_paren Hs1 eq_refl). rewrite wp_bind, wp_ret, wp_bind. eapply wp_replay_st; [exact Hc1|]. intros tk2 Hu2.
  change (t1 :: ts ++ t :: rest) with ((t1 :: ts) ++ t :: rest) in Hu2. rewrite <- Et in Hu2.
  eapply (unary_level e t); [done|done|done|done|exact Hu2|exact Ht|done|exact HQ].
Qed.
End levels.

(** ** The recursion *)

Lemma cast_step N fuel : (N < fuel)%nat -> parses_level (N - 1) (proc_assign_expr fuel) 8 -> parses_level (N - 1) (proc_cast_expr fuel) 1 ->
  parses_level N (proc_cast_expr (S fuel)) 1.
Proof.
  intros Hf H2 H1 e t Hp Hr HN Hst tk tbl n rest Q Hu Ht Hn HQ. cbn [proc_cast_expr].
  by eapply (cast_level N fuel (proc_cast_expr fuel) (proc_assign_expr fuel) Hf H2 H1 e t).
Qed.

Lemma assign_step N fuel : (N < fuel)%nat -> parses_level N (proc_cast_expr fuel) 1 -> parses_level (N - 1) (proc_assign_expr fuel) 8 ->
  parses_level N (proc_assign_expr (S fuel)) 8.
Proof.
  intros Hf H1 H2 e t Hp Hr HN Hst tk tbl n rest Q Hu Ht Hn HQ. cbn [proc_assign_expr].
  by eapply (assign_level N fuel (proc_cast_expr fuel) (proc_assign_expr fuel) Hf H1 H2 e t).
Qed.

(** Two levels of the recursion take a token at least. *)
Lemma parser_levels N : (forall fuel, (2 * N + 2 <= fuel)%nat -> parses_level N (proc_cast_expr fuel) 1) /\
  (forall fuel, (2 * N + 3 <= fuel)%nat -> parses_level N (proc_assign_expr fuel) 8).
Proof.
  induction N as [|N [IHc IHa]].
  { split; intros fuel _ e t _ _ Hz; pose proof (proj1 tokens_pos e); lia. }
  assert (forall fuel, (2 * S N + 2 <= fuel)%nat -> parses_level (S N) (proc_cast_expr fuel) 1) as Hc.
  { intros [|fuel] Hf; [lia|]. apply cast_step; [lia|..]; replace (S N - 1)%nat with N by lia; [apply IHa|apply IHc]; lia. }
  split; [exact Hc|]. intros [|fuel] Hf; [lia|]. apply assign_step; [lia|apply Hc; lia|]. replace (S N - 1)%nat with N by lia. apply IHa. lia.
Qed.
End parse.
