(* ===== verification/FinshLine.v ===== *)
(** Lines of the finsh shell: declarations and expressions; the parser declares the variables and makes the trees of the statements, one behind the other. *)

From S2P Require Import Prelude ByteMem FinshDef FinshVm FinshSym FinshExpr FinshCompiler FinshTree FinshCode FinshHeap FinshToken FinshParser FinshLex FinshParse.

(** ** Statements *)

(** A type: a word of the language, with [unsigned] before it and [*] behind it. *)
Record ctype := mkType { ct_unsigned : bool; ct_base : Z; ct_pointer : bool }.
Inductive stmt := SExpr (e : expr) | SDecl (t : ctype) (x : list Z) (init : option expr).

Definition type_tokens (t : ctype) : list tok :=
  (if ct_unsigned t then [TWord finsh_token_type_unsigned] else []) ++ TWord (ct_base t) :: (if ct_pointer t then [TOp finsh_token_type_mul] else []).

Definition stmt_tokens (c : stmt) : list tok :=
  match c with
  | SExpr e => tokens e
  | SDecl t x None => type_tokens t ++ [TId x]
  | SDecl t x (Some e) => type_tokens t ++ TId x :: TOp finsh_token_type_assign :: tokens e
  end ++ [TOp finsh_token_type_semicolon].

Definition line_tokens (l : list stmt) : list tok := mjoin (stmt_tokens <$> l).

Lemma line_tokens_cons c l : line_tokens (c :: l) = stmt_tokens c ++ line_tokens l.
Proof. done. Qed.

(** The code of a type, if it is one. *)
Definition type_code (t : ctype) : option Z :=
  if is_base_type (ct_base t) then
    b ← if ct_unsigned t then unsigned_type (ct_base t) else Some (base_type (ct_base t));
    Some (if ct_pointer t then pointer_type b else b)
  else None.

Section line.
Context `{FinshLayout}.

(** A new variable; its name has no meaning yet, and there is room for it. *)
Definition add_var (x : list Z) (type : Z) (s : finsh) : option finsh :=
  match resolve s x with
  | Some _ => None
  | None =>
      k ← find_index (fun v => var_type v =? finsh_type_unknown) (global_variable s);
      Some (set_global_variable (<[k := mkVar (strncpy FINSH_NAME_MAX x) (u8 type)]> (global_variable s)) s)
  end.

(** The statements are well formed in [s]; they declare the variables of [s'] and evaluate the expressions [p]. A name is used behind its declaration. *)
Inductive elaborates : finsh -> list stmt -> finsh -> exprs -> Prop :=
| el_nil s : elaborates s [] s ANil
| el_expr s e l s' p : parses 8 e = true -> resolved s e -> elaborates s l s' p -> elaborates s (SExpr e :: l) s' (ACons e p)
| el_decl s t x type s1 l s' p : type_code t = Some type -> (0 < length x < 16)%nat -> add_var x type s = Some s1 ->
    elaborates s1 l s' p -> elaborates s (SDecl t x None :: l) s' p
| el_init s t x type e s1 l s' p : type_code t = Some type -> (0 < length x < 16)%nat -> add_var x type s = Some s1 ->
    parses 8 e = true -> resolved s1 e -> elaborates s1 l s' p -> elaborates s (SDecl t x (Some e) :: l) s' (ACons (EAssign x e) p).

(** ** Symbols stay *)

(** An entry that is not in use has no name. *)
Definition vars_ok (s : finsh) : Prop := Forall (fun v => var_type v = finsh_type_unknown -> var_name v = []) (global_variable s).

(** What is known in [s] is the same in [s']. *)
Definition extends (s s' : finsh) : Prop := forall x, named s x -> resolve s' x = resolve s x.

#[export] Instance extends_preorder : PreOrder extends.
Proof.
  split; [done|]. intros s1 s2 s3 H1 H2 x Hx. rewrite H2; [by apply H1|]. split; [apply Hx|]. rewrite H1 by done. apply Hx.
Qed.

Lemma named_extends s s' x : extends s s' -> named s x -> named s' x.
Proof. intros He Hx. split; [apply Hx|]. rewrite He by done. apply Hx. Qed.

Lemma den_id_extends s s' x nd ch : extends s s' -> named s x -> den_id s x nd ch -> den_id s' x nd ch.
Proof. intros He Hx. unfold den_id. by rewrite (He x Hx). Qed.

Lemma den_extends s s' : extends s s' ->
  (forall e nd ch, resolved s e -> den s e nd ch -> den s' e nd ch) /\ (forall l F, args_resolved s l -> den_args s l F -> den_args s' l F).
Proof.
  intros He. apply expr_ind2; simpl; intros; destruct_and?; eauto using den_id_extends; naive_solver eauto using den_id_extends.
Qed.

Lemma find_index_insert {A} (f : A -> bool) l k x y : l !! k = Some x -> f x = false -> f y = false -> find_index f (<[k := y]> l) = find_index f l.
Proof.
  intros Hk Hx Hy. revert k Hk. induction l as [|z l IH]; intros [|k] Hk; simpl in *; [done|done| |].
  - injection Hk as ->. by rewrite Hx, Hy.
  - by rewrite IH.
Qed.

Lemma find_index_new {A} (f : A -> bool) l k y : find_index f l = None -> (k < length l)%nat -> f y = true -> find_index f (<[k := y]> l) = Some k.
Proof.
  intros Hn Hk Hy. revert k Hk. induction l as [|z l IH]; intros [|k] Hk; simpl in *; [lia|lia| |]; destruct (f z) eqn:Hz; try done.
  - by rewrite Hy.
  - rewrite IH; [done| |lia]. by destruct (find_index f l).
Qed.

Lemma find_index_Some {A} (f : A -> bool) l k : find_index f l = Some k -> exists x, l !! k = Some x /\ f x = true.
Proof.
  revert k. induction l as [|z l IH]; intros k Hk; simpl in *; [done|]. destruct (f z) eqn:Hz; [injection Hk as <-; by exists z|].
  destruct (find_index f l) as [j|]; [|done]. injection Hk as <-. by apply IH.
Qed.

Lemma find_index_existsb {A} (f : A -> bool) l : find_index f l = None -> existsb f l = false.
Proof. induction l as [|z l IH]; simpl; [done|]. destruct (f z); [done|]. destruct (find_index f l); [done|]. by intros _; rewrite IH. Qed.

Lemma type_code_range t type : type_code t = Some type -> 0 < type < 256.
Proof.
  destruct t as [u b p]. unfold type_code. cbn [ct_unsigned ct_base ct_pointer]. destruct (is_base_type b) eqn:Hb; [|done].
  unfold is_base_type, one_of in Hb. cbn [existsb] in Hb. rewrite !orb_true_iff, !Z.eqb_eq in Hb.
  repeat destruct Hb as [->|Hb]; [destruct u, p; cbn; try done; by intros [= <-]..|done].
Qed.

(** The new variable is found, and the others are where they were. *)
Lemma add_var_spec x type s s1 : add_var x type s = Some s1 -> 0 < type < 256 -> (0 < length x < 16)%nat -> vars_ok s ->
  exists k, s1 = set_global_variable (<[k := mkVar x type]> (global_variable s)) s /\ (k < length (global_variable s))%nat /\
    existsb (same_name x) (global_variable s) = false /\ find_index (fun v => var_type v =? finsh_type_unknown) (global_variable s) = Some k /\
    resolve s1 x = Some (FINSH_IDTYPE_VAR, IdVar k) /\ vars_ok s1 /\ extends s s1.
Proof.
  unfold add_var. intros Ha Hty Hx Hok. destruct (resolve s x) eqn:Hr; [done|]. destruct (find_index _ _) as [k|] eqn:Hk in Ha; [|done]. injection Ha as <-.
  unfold strncpy. rewrite take_ge by (change (Z.to_nat FINSH_NAME_MAX) with 16%nat; lia).
  replace (u8 type) with type by (symmetry; apply uwrap_small; simpl; lia). exists k. pose proof (find_index_Some _ _ _ Hk) as (v & Hv & Hun). apply Z.eqb_eq in Hun.
  pose proof (lookup_lt_Some _ _ _ Hv) as Hlt. assert (find_index (same_name x) (global_variable s) = None) as Hnone by (unfold resolve in Hr; by destruct (find_index _ _)).
  split_and!; [done|exact Hlt|by apply find_index_existsb|exact Hk| | |].
  - unfold resolve. cbn [global_variable set_global_variable]. rewrite (find_index_new _ _ k); [done|exact Hnone|exact Hlt|].
    unfold same_name, strncmp_eq. by apply bool_decide_eq_true.
  - unfold vars_ok in *. cbn [global_variable set_global_variable]. apply Forall_insert; [done|]. cbn. lia.
  - intros y [Hy [r Hyr]]. unfold resolve. cbn [global_variable set_global_variable sysvar_table global_sysvar_list syscall_table global_syscall_list].
    rewrite (find_index_insert _ _ k v); [done|exact Hv| |]; unfold same_name, strncmp_eq; apply bool_decide_eq_false; cbn [var_name].
    + rewrite (Forall_lookup_1 _ _ _ _ Hok Hv Hun). change (Z.to_nat FINSH_NAME_MAX) with 16%nat. destruct y; simpl in *; [lia|done].
    + change (Z.to_nat FINSH_NAME_MAX) with 16%nat. rewrite (take_ge x) by lia. intros E. enough (x = y) as -> by congruence.
      destruct (decide (length y <= 16)%nat); [by rewrite take_ge in E by lia|]. apply (f_equal length) in E. rewrite length_take in E. lia.
Qed.

Lemma elaborates_extends s l s' p : elaborates s l s' p -> vars_ok s -> extends s s' /\ vars_ok s'.
Proof.
  induction 1 as [|s e l s' p _ _ _ IH|s t x type s1 l s' p Ht Hx Ha _ IH|s t x type e s1 l s' p Ht Hx Ha _ _ _ IH]; intros Hok; [done|by apply IH|..];
    destruct (add_var_spec _ _ _ _ Ha (type_code_range _ _ Ht) Hx Hok) as (k & _ & _ & _ & _ & _ & Hok1 & He1); destruct (IH Hok1) as [He Hok']; split; [by etrans|done|by etrans|done].
Qed.

(** ** Declarations *)

Lemma table_blank_init : table_ok (replicate (Z.to_nat FINSH_NODE_MAX) no_node) 0.
Proof. split_and!; [done|lia|intros j Hj; exfalso; lia|intros j Hj]. apply lookup_replicate_2. change (Z.to_nat FINSH_NODE_MAX) with 16%nat. lia. Qed.

Section statement.
Context (s : finsh) (fuel : nat).

Lemma wp_proc_type ty type t rest tk tbl (Q : Z -> finsh -> Prop) :
  type_code ty = Some type -> kind t ≠ finsh_token_type_mul -> upcoming (type_tokens ty ++ t :: rest) tk ->
  (forall tk', upcoming (t :: rest) tk' -> Q type (st s tk' tbl)) -> wp proc_type Q (st s tk tbl).
Proof.
  destruct ty as [u b p]. unfold type_code, type_tokens. cbn [ct_unsigned ct_base ct_pointer]. intros Hty Ht Hu HQ.
  destruct (is_base_type b) eqn:Hb; [|done]. destruct (if u then unsigned_type b else Some (base_type b)) as [ty|] eqn:Ety; [|done]. injection Hty as <-.
  assert (forall tk1, upcoming ((if p then [TOp finsh_token_type_mul] else []) ++ t :: rest) tk1 ->
    wp (token ← next_token; if token =? finsh_token_type_mul then mret (pointer_type ty) else finsh_token_replay;; mret ty) Q (st s tk1 tbl)) as Hend.
  { intros tk1 Hu1. rewrite wp_bind. destruct p; cbn [app] in Hu1.
    - eapply wp_next_st; [exact Hu1|]. intros tk2 Hc2. simpl. rewrite wp_ret. by apply HQ, (current_upcoming _ _ _ Hc2).
    - eapply wp_next_st; [exact Hu1|]. intros tk2 Hc2. destruct (Z.eqb_spec (kind t) finsh_token_type_mul); [done|].
      rewrite wp_bind. eapply wp_replay_st; [exact Hc2|]. intros tk3 Hu3. rewrite wp_ret. by apply HQ. }
  unfold proc_type. rewrite wp_bind. rewrite <- app_assoc in Hu. destruct u; cbn [app] in Hu; (eapply wp_next_st; [exact Hu|]; intros tk1 Hc1; cbn [kind]).
  - change (is_base_type finsh_token_type_unsigned) with false. cbv iota. rewrite Z.eqb_refl. rewrite wp_bind, wp_bind.
    eapply wp_next_st; [exact (current_upcoming _ _ _ Hc1)|]. intros tk2 Hc2. cbn [kind]. rewrite Hb, wp_ret, Ety. apply Hend, (current_upcoming _ _ _ Hc2).
  - rewrite Hb, wp_bind, wp_ret. injection Ety as ->. apply Hend, (current_upcoming _ _ _ Hc1).
Qed.

Lemma wp_proc_identifier x ts tk tbl (Q : list Z -> finsh -> Prop) :
  upcoming (TId x :: ts) tk -> (forall tk', upcoming ts tk' -> Q x (st s tk' tbl)) -> wp proc_identifier Q (st s tk tbl).
Proof.
  intros Hu HQ. unfold proc_identifier. rewrite wp_bind. eapply wp_match; [exact Hu|done|]. intros tk1 Hc1. pose proof Hc1 as (_ & [_ [Hm Hl]] & _).
  rewrite wp_bind. eapply wp_token_string; [exact Hm|]. rewrite wp_ret. unfold strncpy. rewrite take_ge by (change (Z.to_nat FINSH_NAME_MAX) with 16%nat; lia).
  apply HQ, (current_upcoming _ _ _ Hc1).
Qed.

(** The tokens of a declaration up to its name. *)
Lemma wp_declare x type s1 ts tk tbl (Q : list Z -> finsh -> Prop) :
  add_var x type s = Some s1 -> 0 < type < 256 -> (0 < length x < 16)%nat -> vars_ok s -> upcoming (TId x :: ts) tk ->
  (forall tk', upcoming ts tk' -> Q x (st s1 tk' tbl)) -> wp (declare type) Q (st s tk tbl).
Proof.
  intros Ha Hty Hx Hok Hu HQ. destruct (add_var_spec _ _ _ _ Ha Hty Hx Hok) as (k & -> & Hk & Hnew & Hfree & _). unfold declare. rewrite wp_bind.
  eapply wp_proc_identifier; [exact Hu|]. intros tk1 Hu1. rewrite wp_bind. unfold finsh_var_insert. rewrite wp_bind, wp_gets.
  change (global_variable (st s tk1 tbl)) with (global_variable s). rewrite Hnew, Hfree, wp_bind, wp_modify, wp_ret, wp_bind, wp_when. right.
  split; [apply Z.ltb_ge; lia|]. rewrite wp_ret. unfold strncpy. rewrite take_ge by (change (Z.to_nat FINSH_NAME_MAX) with 16%nat; lia).
  replace (u8 type) with type by (symmetry; apply uwrap_small; simpl; lia). by apply (HQ tk1).
Qed.

Lemma wp_variable_decl ty x type s1 rest tk tbl (Q : option nat -> finsh -> Prop) :
  type_code ty = Some type -> (0 < length x < 16)%nat -> add_var x type s = Some s1 -> vars_ok s ->
  upcoming (stmt_tokens (SDecl ty x None) ++ rest) tk -> (forall tk', upcoming rest tk' -> Q None (st s1 tk' tbl)) ->
  wp (proc_variable_decl fuel) Q (st s tk tbl).
Proof.
  intros Hty Hx Ha Hok Hu HQ. unfold stmt_tokens in Hu. rewrite <- !app_assoc in Hu. cbn [app] in Hu. unfold proc_variable_decl. rewrite wp_bind.
  eapply wp_proc_type; [exact Hty| |exact Hu|]; [done|]. intros tk1 Hu1. rewrite wp_bind.
  eapply wp_declare; [exact Ha|by eapply type_code_range|exact Hx|exact Hok|exact Hu1|]. intros tk2 Hu2.
  rewrite wp_bind. eapply wp_next_st; [exact Hu2|]. intros tk3 Hc3. simpl. rewrite wp_ret. by eapply HQ, current_upcoming.
Qed.

Lemma wp_variable_init ty x type e s1 rest tk tbl n (Q : option nat -> finsh -> Prop) :
  type_code ty = Some type -> (0 < length x < 16)%nat -> add_var x type s = Some s1 -> vars_ok s ->
  parses 8 e = true -> resolved s1 e -> (2 * length (tokens e) + 3 <= fuel)%nat ->
  upcoming (stmt_tokens (SDecl ty x (Some e)) ++ rest) tk -> table_ok tbl n -> (n + nodes (EAssign x e) <= 16)%nat ->
  (forall tk' tbl' i nd ch, upcoming rest tk' -> table_ok tbl' (n + nodes (EAssign x e)) -> same_below n tbl tbl' ->
     holds tbl' (FCons i nd ch FNil) n (n + nodes (EAssign x e)) -> den s1 (EAssign x e) nd ch -> Q (Some i) (st s1 tk' tbl')) ->
  wp (proc_variable_decl fuel) Q (st s tk tbl).
Proof.
  intros Hty Hx Ha Hok Hp Hr Hf Hu Ht Hn HQ. unfold stmt_tokens in Hu. rewrite <- !app_assoc in Hu. cbn [app] in Hu. simpl in Hn.
  unfold proc_variable_decl. rewrite wp_bind. eapply wp_proc_type; [exact Hty| |exact Hu|]; [done|]. intros tk1 Hu1. rewrite wp_bind.
  eapply wp_declare; [exact Ha|by eapply type_code_range|exact Hx|exact Hok|exact Hu1|]. intros tk2 Hu2.
  destruct (add_var_spec _ _ _ _ Ha (type_code_range _ _ Hty) Hx Hok) as (k & _ & _ & _ & _ & Hres & _ & _).
  rewrite wp_bind. eapply wp_next_st; [exact Hu2|]. intros tk3 Hc3. simpl (kind _ =? _). cbv iota. unfold decl_assign. rewrite wp_bind, wp_bind.
  eapply (proj2 (parser_levels s1 (length (tokens e))) fuel Hf e (TOp finsh_token_type_semicolon)); [done|done|done|simpl; lia|exact (current_upcoming _ _ _ Hc3)|exact Ht|lia|].
  intros tk4 tbl4 i nd ch Hu4 Ht4 Hs4 Hh4 Hd4. rewrite wp_bind. eapply (wp_new_id s1 x _ _ _ _ (n + nodes e)); [exact Hres|exact Ht4|lia|].
  set (idn := mkNode _ _ _ _ _ _ _). set (tbl5 := <[_ := idn]> tbl4).
  assert (table_ok tbl5 (S (n + nodes e))) as Ht5 by (apply table_insert; [done|lia|done]).
  assert (same_below (n + nodes e) tbl4 tbl5) as Hs5 by (by apply same_insert).
  assert (holds tbl5 (FCons (n + nodes e) idn FNil FNil) (n + nodes e) (S (n + nodes e))) as Hh5 by (apply holds_single; [done|lia|done|done]).
  pose proof (holds_same _ _ _ _ _ Hs5 Hh4) as Hh4'. rewrite wp_bind. change (Some i) with (root_of (FCons i nd ch FNil)).
  eapply (wp_make_sys_node_disjoint s1 _ _ _ _ n (n + nodes e) idn FNil); [done|exact Ht5|lia| | | |].
  - eapply holds_le; [..|exact Hh5]; lia.
  - eapply holds_le; [..|exact Hh4']; lia.
  - intros j Hj Hj2. apply Hh5 in Hj. apply Hh4' in Hj2. lia.
  - intros tbl6 nd6 Ht6 Hs6 Hfr Hh6. rewrite wp_ret. cbv iota beta. rewrite wp_bind, wp_bind. eapply wp_next_st; [exact Hu4|]. intros tk5 Hc5.
    destruct fuel as [|fuel']; [lia|]. cbn [decl_loop]. simpl (kind _ =? _). cbv iota. rewrite wp_ret. cbn [fst snd]. unfold check_token. rewrite wp_bind, wp_when. right.
    split; [done|]. rewrite wp_ret. cbn [nodes] in HQ. replace (n + (1 + nodes e + 1))%nat with (S (S (n + nodes e))) in HQ by lia.
    eapply HQ; [exact (current_upcoming _ _ _ Hc5)|exact Ht6| |exact Hh6|].
    + etrans; [exact Hs4|]. etrans; [eapply same_below_le; [|exact Hs5]; lia|exact Hs6].
    + simpl. split; [exact Hfr|]. eexists _, _, _, _, _. split; [reflexivity|]. split; [|exact Hd4]. split_and!; [done..|]. eexists _, _. by split_and!.
Qed.

(** ** Expressions *)

Lemma first_statement e : exists t ts, tokens e = t :: ts /\ (kind t =? finsh_token_type_semicolon) = false /\
  (kind t =? finsh_token_type_eof) || (kind t =? finsh_token_type_bad) = false /\ is_base_type (kind t) || (kind t =? finsh_token_type_unsigned) = false.
Proof.
  destruct (first_token e) as (t & ts & Et & Hs). exists t, ts. split; [done|].
  unfold is_base_type, one_of. cbn [existsb]. by rewrite !(starts_not _ _ Hs) by done.
Qed.

Lemma wp_expr_statement e tk tbl n rest (Q : option nat -> finsh -> Prop) :
  parses 8 e = true -> resolved s e -> (2 * length (tokens e) + 3 <= fuel)%nat ->
  upcoming (stmt_tokens (SExpr e) ++ rest) tk -> table_ok tbl n -> (n + nodes e <= 16)%nat ->
  (forall tk' tbl' i nd ch, upcoming rest tk' -> table_ok tbl' (n + nodes e) -> same_below n tbl tbl' ->
     holds tbl' (FCons i nd ch FNil) n (n + nodes e) -> den s e nd ch -> Q (Some i) (st s tk' tbl')) ->
  wp (proc_expr_statement fuel) Q (st s tk tbl).
Proof.
  intros Hp Hr Hf Hu Ht Hn HQ. unfold stmt_tokens in Hu. rewrite <- app_assoc in Hu. cbn [app] in Hu. unfold proc_expr_statement. rewrite wp_bind.
  destruct (first_statement e) as (t & ts & Et & Hk & _).
  pose proof Hu as Hu'. rewrite Et in Hu'. cbn [app] in Hu'. eapply wp_next_st; [exact Hu'|]. intros tk1 Hc1. rewrite Hk. cbn [negb].
  rewrite wp_bind. eapply wp_replay_st; [exact Hc1|]. intros tk2 Hu2. change (t :: ts ++ ?r) with ((t :: ts) ++ r) in Hu2. rewrite <- Et in Hu2.
  rewrite wp_bind. unfold proc_expr.
  eapply (proj2 (parser_levels s (length (tokens e))) fuel Hf e (TOp finsh_token_type_semicolon)); [done|done|done|simpl; lia|exact Hu2|exact Ht|exact Hn|].
  intros tk3 tbl3 i nd ch Hu3 Ht3 Hs3 Hh3 Hd3. rewrite wp_bind. eapply wp_match; [exact Hu3|done|]. intros tk4 Hc4. rewrite wp_ret.
  eapply HQ; [by eapply current_upcoming|done..].
Qed.

(** ** The loop *)

Definition is_decl (c : stmt) : bool := match c with SExpr _ => false | SDecl _ _ _ => true end.
Definition stmt_ok (c : stmt) : Prop := match c with SExpr _ => True | SDecl t _ _ => is_Some (type_code t) end.
Definition stmt_proc (c : stmt) : FM (option nat) := if is_decl c then proc_variable_decl fuel else proc_expr_statement fuel.

Lemma stmt_first c : stmt_ok c -> exists t ts, stmt_tokens c = t :: ts /\ (kind t =? finsh_token_type_eof) || (kind t =? finsh_token_type_bad) = false /\
  is_base_type (kind t) || (kind t =? finsh_token_type_unsigned) = is_decl c /\ (is_decl c = true -> (kind t =? finsh_token_type_identifier) = false).
Proof.
  destruct c as [e|[u b p] x init]; simpl; intros Hok.
  - destruct (first_statement e) as (t & ts & Et & _ & He & Hb). unfold stmt_tokens. rewrite Et. by exists t, (ts ++ [TOp finsh_token_type_semicolon]).
  - unfold type_code in Hok. cbn [ct_base] in Hok. destruct (is_base_type b) eqn:Hb; [|by destruct Hok]. clear Hok.
    pose proof Hb as Hb'. unfold is_base_type, one_of in Hb. cbn [existsb] in Hb. rewrite !orb_true_iff, !Z.eqb_eq in Hb.
    unfold stmt_tokens, type_tokens. cbn [ct_unsigned ct_base ct_pointer].
    destruct u; [destruct init; simpl; eexists _, _; split; [reflexivity|done|reflexivity|done]|].
    destruct init; simpl; (eexists _, _; split; [reflexivity|]; simpl; rewrite Hb'); repeat destruct Hb as [->|Hb]; done.
Qed.

(** A round of the loop. *)
Lemma wp_round c n0 node rest tk tbl (Q : unit -> finsh -> Prop) :
  stmt_ok c -> upcoming (stmt_tokens c ++ rest) tk ->
  (forall tk', upcoming (stmt_tokens c ++ rest) tk' ->
     wp (add_statement (stmt_proc c) node) (fun r s1 => is_decl c || r.2 = true /\
       match root s1 with None => Q tt s1 | Some _ => wp (token ← next_token; parser_loop fuel n0 r.1 token) Q s1 end) (st s tk' tbl)) ->
  wp (token ← next_token; parser_loop fuel (S n0) node token) Q (st s tk tbl).
Proof.
  intros Hok Hu HQ. destruct (stmt_first c Hok) as (t & ts & Et & He & Hd & Hi). pose proof Hu as Hu'. rewrite Et in Hu'. cbn [app] in Hu'.
  rewrite wp_bind. eapply wp_next_st; [exact Hu'|]. intros tk1 Hc1. cbn [parser_loop]. rewrite He.
  rewrite wp_bind. eapply wp_replay_st; [exact Hc1|]. intros tk2 Hu2. change (t :: ts ++ ?r) with ((t :: ts) ++ r) in Hu2. rewrite <- Et in Hu2.
  specialize (HQ tk2 Hu2). rewrite wp_bind. unfold stmt_proc in HQ. rewrite Hd.
  assert (negb (kind t =? finsh_token_type_identifier) && is_decl c = is_decl c) as -> by (destruct (is_decl c); [by rewrite Hi|apply andb_false_r]).
  match goal with |- wp (if _ then add_statement _ _ else add_statement _ _) ?Q' _ => assert (wp (add_statement (if is_decl c then proc_variable_decl fuel else proc_expr_statement fuel) node) Q' (st s tk2 tbl)) as Hw end.
  { eapply wp_mono; [exact HQ|]. intros r s1 [Hr Hk]. rewrite wp_bind, wp_when. right. split.
    - destruct (is_decl c); [by rewrite andb_false_r|]. simpl in Hr. by rewrite Hr, andb_false_r.
    - rewrite wp_bind, wp_gets. destruct (root s1); [exact Hk|by rewrite wp_ret]. }
  by destruct (is_decl c).
Qed.

Lemma wp_add_first proc node tk tbl (Q : option nat * bool -> finsh -> Prop) :
  root s = None -> wp proc (fun new s1 => Q (new, true) (set_root new s1)) (st s tk tbl) -> wp (add_statement proc node) Q (st s tk tbl).
Proof.
  intros Hr Hw. unfold add_statement. rewrite wp_bind, wp_gets. change (root (st s tk tbl)) with (root s). rewrite Hr, wp_bind.
  eapply wp_mono; [exact Hw|]. intros new s1 HQ. by rewrite wp_bind, wp_modify, wp_ret.
Qed.

Lemma wp_add_behind proc i tk tbl (Q : option nat * bool -> finsh -> Prop) :
  is_Some (root s) -> wp proc (fun new s1 => exists nd, global_node_table s1 !! i = Some nd /\
    Q (match new with Some _ => (new, true) | None => (Some i, false) end) (set_global_node_table (<[i := set_nd_sibling new nd]> (global_node_table s1)) s1)) (st s tk tbl) ->
  wp (add_statement proc (Some i)) Q (st s tk tbl).
Proof.
  intros [r Hr] Hw. unfold add_statement. rewrite wp_bind, wp_gets. change (root (st s tk tbl)) with (root s). rewrite Hr, wp_bind.
  eapply wp_mono; [exact Hw|]. intros new s1 (nd & Hi & HQ). rewrite wp_bind. eapply wp_upd_node; [exact Hi|]. by rewrite wp_ret.
Qed.
End statement.

Lemma add_var_st x type s s1 : add_var x type s = Some s1 -> root s1 = root s.
Proof. unfold add_var. destruct (resolve s x); [done|]. destruct (find_index _ _); [|done]. by intros [= <-]. Qed.

Lemma wp_set_sibling_none s (nd : finsh_node) tk tbl i (Q : finsh -> Prop) :
  tbl !! i = Some nd -> nd_sibling nd = None -> Q (st s tk tbl) -> Q (set_global_node_table (<[i := set_nd_sibling None nd]> tbl) (st s tk tbl)).
Proof.
  intros Hi Hn HQ. replace (set_nd_sibling None nd) with nd by (destruct nd; simpl in Hn; by subst). by rewrite list_insert_id.
Qed.

(** A tree behind the last one. *)
Lemma wp_tree_behind fuel n0 l s (root_node : is_Some (root s)) a n n1 i nd ch i2 nd2 ch2 tk tbl tbl2 (Q : unit -> finsh -> Prop) :
  holds tbl (FCons i nd ch FNil) a n -> table_ok tbl2 n1 -> (n <= n1)%nat -> same_below n tbl tbl2 -> holds tbl2 (FCons i2 nd2 ch2 FNil) n n1 ->
  (forall tbl3, table_ok tbl3 n1 -> same_below a tbl tbl3 -> holds tbl3 (FCons i2 nd2 ch2 FNil) n n1 ->
     (forall tbl' m F, same_below n tbl3 tbl' -> (n <= m)%nat -> holds tbl' (FCons i2 (set_nd_sibling (root_of F) nd2) ch2 F) n m ->
        holds tbl' (FCons i (set_nd_sibling (Some i2) nd) ch (FCons i2 (set_nd_sibling (root_of F) nd2) ch2 F)) a m) ->
     wp (token ← next_token; parser_loop fuel n0 (Some i2) token) Q (st s tk tbl3)) ->
  exists nd', global_node_table (st s tk tbl2) !! i = Some nd' /\
    (is_decl l || true = true /\ match root (set_global_node_table (<[i := set_nd_sibling (Some i2) nd']> tbl2) (st s tk tbl2)) with
     | None => Q tt (set_global_node_table (<[i := set_nd_sibling (Some i2) nd']> tbl2) (st s tk tbl2))
     | Some _ => wp (token ← next_token; parser_loop fuel n0 (Some i2) token) Q (set_global_node_table (<[i := set_nd_sibling (Some i2) nd']> tbl2) (st s tk tbl2)) end).
Proof.
  intros Hh Ht2 Hn Hs2 Hh2 HQ. destruct root_node as [r Hr].
  destruct (link_sibling tbl2 a n n1 i nd ch i2 Ht2 Hn (holds_same _ _ _ _ _ Hs2 Hh)) as (Hi & Ht3 & Hsa & Hkeep & Hlink).
  exists nd. split; [exact Hi|]. split; [by rewrite orb_true_r|]. change (root (set_global_node_table _ _)) with (root s). rewrite Hr.
  apply (HQ (<[i := set_nd_sibling (Some i2) nd]> tbl2)); [exact Ht3| |by apply Hkeep|].
  - etrans; [eapply same_below_le; [|exact Hs2]|exact Hsa]. destruct Hh as (_ & _ & Hib). specialize (Hib i ltac:(by left)). lia.
  - intros tbl' m F Hs Hm HF. by eapply Hlink.
Qed.

Lemma wp_parser_loop fuel s l s' p : elaborates s l s' p -> forall n0 tk tbl n a i nd ch (Q : unit -> finsh -> Prop),
  is_Some (root s) -> vars_ok s -> (2 * length (line_tokens l) + 3 <= fuel)%nat -> (length l < n0)%nat ->
  upcoming (line_tokens l) tk -> table_ok tbl n -> (n + args_nodes p <= 16)%nat -> holds tbl (FCons i nd ch FNil) a n ->
  (forall tk' tbl' F, same_below a tbl tbl' ->
     holds tbl' (FCons i (set_nd_sibling (root_of F) nd) ch F) a (n + args_nodes p) -> den_args s' p F -> Q tt (st s' tk' tbl')) ->
  wp (token ← next_token; parser_loop fuel n0 (Some i) token) Q (st s tk tbl).
Proof.
  intros He. induction He as [s|s e l s' p Hp Hr He IH|s t x type s1 l s' p Hty Hx Ha He IH|s t x type e s1 l s' p Hty Hx Ha Hp Hr He IH];
    intros [|n0] tk tbl n a i nd ch Q Hroot Hok Hf Hn0 Hu Ht Hn Hh HQ; simpl in Hn0; try lia;
    try (rewrite line_tokens_cons in Hf, Hu; rewrite length_app in Hf).
  - rewrite wp_bind. eapply wp_next_end; [exact Hu|]. intros tk1. cbn [parser_loop]. simpl. rewrite wp_ret. simpl in HQ. rewrite Nat.add_0_r in *.
    apply (HQ tk1 tbl FNil); [done| |done].
    destruct Hh as (Hrep & Hrest). pose proof Hrep as (_ & _ & Hs & _). simpl. replace (set_nd_sibling None nd) with nd by (destruct nd; simpl in Hs; by subst). by split.
  - cbn [args_nodes] in Hn, HQ. eapply (wp_round s fuel (SExpr e)); [done|exact Hu|]. intros tk2 Hu2. apply wp_add_behind; [exact Hroot|].
    eapply (wp_expr_statement s fuel e tk2 tbl n); [done|done| |exact Hu2|exact Ht|lia|].
    { unfold stmt_tokens in Hf. rewrite length_app in Hf. simpl in Hf. lia. }
    intros tk3 tbl3 i2 nd2 ch2 Hu3 Ht3 Hs3 Hh3 Hd3. eapply (wp_tree_behind fuel n0 (SExpr e)); [exact Hroot|exact Hh|exact Ht3|lia|exact Hs3|exact Hh3|].
    intros tbl4 Ht4 Hs4 Hh4 Hlink. eapply IH; [exact Hroot|exact Hok|lia|lia|exact Hu3|exact Ht4|lia|exact Hh4|].
    intros tk5 tbl5 F Hs5 Hh5 Hd5. rewrite Nat.add_assoc in HQ. apply (HQ tk5 tbl5 (FCons i2 (set_nd_sibling (root_of F) nd2) ch2 F)); [|apply Hlink; [exact Hs5| |exact Hh5]; lia|].
    + etrans; [exact Hs4|]. eapply same_below_le; [|exact Hs5]. destruct Hh as (_ & _ & Hib). specialize (Hib i ltac:(by left)). lia.
    + eexists _, _, _, _. split; [reflexivity|]. split; [|exact Hd5]. apply den_sibling. eapply den_extends; [|exact Hr|exact Hd3]. by eapply elaborates_extends.
  - destruct (add_var_spec _ _ _ _ Ha (type_code_range _ _ Hty) Hx Hok) as (_ & _ & _ & _ & _ & _ & Hok1 & _).
    eapply (wp_round s fuel (SDecl t x None)); [by eexists|exact Hu|]. intros tk2 Hu2. apply wp_add_behind; [exact Hroot|].
    eapply (wp_variable_decl s fuel t x type s1); [done|done|done|done|exact Hu2|]. intros tk3 Hu3.
    destruct Hh as (Hrep & Hnd & Hib). pose proof Hrep as (Hi & _ & Hsib & _). exists nd. split; [exact Hi|].
    apply (wp_set_sibling_none s1 nd tk3 tbl i (fun s2 => _ /\ match root s2 with None => Q tt s2 | Some _ => wp _ Q s2 end)); [exact Hi|exact Hsib|]. split; [done|].
    change (root (st s1 tk3 tbl)) with (root s1). pose proof (add_var_st _ _ _ _ Ha) as Er. destruct Hroot as [r Hroot]. rewrite Er, Hroot.
    eapply IH; [rewrite Er; by eexists|exact Hok1|lia|lia|exact Hu3|exact Ht|exact Hn|by split_and!|exact HQ].
  - destruct (add_var_spec _ _ _ _ Ha (type_code_range _ _ Hty) Hx Hok) as (k & _ & _ & _ & _ & Hres & Hok1 & _).
    cbn [args_nodes] in Hn, HQ. eapply (wp_round s fuel (SDecl t x (Some e))); [by eexists|exact Hu|]. intros tk2 Hu2. apply wp_add_behind; [exact Hroot|].
    assert (is_Some (root s1)) as Hroot1 by (by rewrite (add_var_st _ _ _ _ Ha)).
    eapply (wp_variable_init s fuel t x type e s1 _ tk2 tbl n); [done|done|done|done|done|done| |exact Hu2|exact Ht|lia|].
    { unfold stmt_tokens in Hf. rewrite !length_app in Hf. simpl in Hf. lia. }
    intros tk3 tbl3 i2 nd2 ch2 Hu3 Ht3 Hs3 Hh3 Hd3. eapply (wp_tree_behind fuel n0 (SDecl t x (Some e))); [exact Hroot1|exact Hh|exact Ht3|lia|exact Hs3|exact Hh3|].
    intros tbl4 Ht4 Hs4 Hh4 Hlink. eapply IH; [exact Hroot1|exact Hok1|lia|lia|exact Hu3|exact Ht4|lia|exact Hh4|].
    intros tk5 tbl5 F Hs5 Hh5 Hd5. rewrite Nat.add_assoc in HQ. apply (HQ tk5 tbl5 (FCons i2 (set_nd_sibling (root_of F) nd2) ch2 F)); [|apply Hlink; [exact Hs5| |exact Hh5]; lia|].
    + etrans; [exact Hs4|]. eapply same_below_le; [|exact Hs5]. destruct Hh as (_ & _ & Hib). specialize (Hib i ltac:(by left)). lia.
    + eexists _, _, _, _. split; [reflexivity|]. split; [|exact Hd5]. apply den_sibling. eapply den_extends; [| |exact Hd3]; [by eapply elaborates_extends|].
      split; [|exact Hr]. split; [lia|by eexists].
Qed.

(** ** The whole line *)

Lemma spells_nonempty t txt : spells t txt -> (0 < length txt)%nat.
Proof. intros (c & x & -> & _)%spells_head. simpl. lia. Qed.

Lemma lexes_length txt ts : lexes txt ts -> (length ts <= length txt)%nat.
Proof.
  induction 1 as [|w t txt rest ts Hw Hsp He Hl IH]; [simpl; lia|]. rewrite !length_app. apply spells_nonempty in Hsp. simpl. lia.
Qed.

Lemma line_length l : (length l <= length (line_tokens l))%nat.
Proof. induction l as [|c l IH]; [done|]. rewrite line_tokens_cons, length_app. unfold stmt_tokens. rewrite length_app. simpl. lia. Qed.

Lemma den_same s s' : (forall x, resolve s x = resolve s' x) ->
  (forall e nd ch, den s e nd ch -> den s' e nd ch) /\ (forall l F, den_args s l F -> den_args s' l F).
Proof.
  intros Hx. assert (forall x nd ch, den_id s x nd ch -> den_id s' x nd ch) as Hid by (intros x nd ch; unfold den_id; by rewrite Hx).
  apply expr_ind2; simpl; intros; naive_solver.
Qed.

Lemma elaborates_root r s l s' p : elaborates s l s' p -> elaborates (set_root r s) l (set_root r s') p.
Proof.
  induction 1 as [s|s e l s' p Hp Hr He IH|s t x type s1 l s' p Hty Hx Ha He IH|s t x type e s1 l s' p Hty Hx Ha Hp Hr He IH]; [constructor|by constructor|..];
    (assert (add_var x type (set_root r s) = Some (set_root r s1)) as Ha';
      [unfold add_var in *; change (resolve (set_root r s) x) with (resolve s x); destruct (resolve s x); [done|]; cbn [global_variable set_root];
       destruct (find_index _ _); [|done]; injection Ha as <-; done|]);
    by econstructor.
Qed.

Lemma few_ids l : NoDup l -> (forall j : nat, j ∈ l -> (0 <= j < 16)%nat) -> (length l <= 16)%nat.
Proof.
  intros Hn Hl. change 16%nat with (length (seq 0 16)). apply submseteq_length, NoDup_submseteq; [done|].
  intros j Hj. apply list_elem_of_In, in_seq. specialize (Hl j Hj). lia.
Qed.

(** A line that begins with a declaration without a value has no other statement: the parser stops there. *)
Definition line_form (l : list stmt) : bool := match l with SDecl _ _ None :: _ :: _ => false | _ => true end.

(** The characters of a line, in front of its NUL. *)
Definition line_chars (line : list Z) : Prop := Forall (fun c => 0 < c < 256 /\ c ≠ CH_NL) line.

(** Nothing is left of another line. *)
Definition idle (s : finsh) : Prop :=
  root s = None /\ global_node_table s = replicate (Z.to_nat FINSH_NODE_MAX) no_node /\ global_errno s = FINSH_ERROR_OK.

Lemma wp_first_tree fuel n0 c s l s' p tk2 tbl n i nd ch rest (Q : unit -> finsh -> Prop) :
  elaborates s l s' p -> vars_ok s -> rest = line_tokens l -> (2 * length (line_tokens l) + 3 <= fuel)%nat -> (length l < n0)%nat ->
  upcoming rest tk2 -> table_ok tbl n -> (n + args_nodes p <= 16)%nat -> holds tbl (FCons i nd ch FNil) 0 n ->
  (forall tk' tbl' F, holds tbl' (FCons i (set_nd_sibling (root_of F) nd) ch F) 0 (n + args_nodes p) -> den_args s' p F ->
     Q tt (set_root (Some i) (st s' tk' tbl'))) ->
  is_decl c || true = true /\ match root (set_root (Some i) (st s tk2 tbl)) with
    | None => Q tt (set_root (Some i) (st s tk2 tbl))
    | Some _ => wp (token ← next_token; parser_loop fuel n0 (Some i) token) Q (set_root (Some i) (st s tk2 tbl)) end.
Proof.
  intros He Hok -> Hf Hn0 Hu Ht Hn Hh HQ. split; [by rewrite orb_true_r|]. cbn [root set_root].
  change (set_root (Some i) (st s tk2 tbl)) with (st (set_root (Some i) s) tk2 tbl).
  eapply (wp_parser_loop fuel _ l); [by eapply elaborates_root|by eexists|exact Hok|exact Hf|exact Hn0|exact Hu|exact Ht|exact Hn|exact Hh|].
  intros tk3 tbl3 F _ Hh3 Hd3. apply (HQ tk3 tbl3 F); [exact Hh3|]. by eapply (den_same (set_root (Some i) s') s').
Qed.

Lemma wp_finsh_parser_run fuel line l s s' p (Q : unit -> finsh -> Prop) :
  idle s -> vars_ok s -> line_chars line -> lexes line (line_tokens l) -> (2 * length line + 3 <= fuel)%nat ->
  elaborates s l s' p -> line_form l = true -> (args_nodes p <= 16)%nat ->
  (forall tk tbl F, rep tbl F -> NoDup (ids F) -> (length (ids F) <= 16)%nat -> den_args s' p F ->
     Q tt (set_root (root_of F) (st s' tk tbl))) -> wp (finsh_parser_run fuel line) Q s.
Proof.
  intros (Hroot & Htbl & _) Hok Hline Hl Hf He Hform Hn HQ. unfold finsh_parser_run. rewrite wp_bind. unfold finsh_token_init. rewrite wp_tmod.
  set (s1 := set_token _ s). assert (s1 = st s (set_tk_line line zero_token) (replicate (Z.to_nat FINSH_NODE_MAX) no_node)) as -> by (unfold s1, st; rewrite <- Htbl; by destruct s).
  assert (upcoming (line_tokens l) (set_tk_line line zero_token)) as Hu by (exists line; split; [by split; [done|simpl; lia|..]|by left]).
  apply lexes_length in Hl. pose proof (line_length l) as Hlen. pose proof table_blank_init as Ht.
  generalize (set_tk_line line zero_token), (replicate (Z.to_nat FINSH_NODE_MAX) no_node), Hu, Ht. clear Hu Ht Htbl. intros tk tbl Hu Ht.
  destruct fuel as [|fuel']; [lia|]. set (fuel := S fuel') in *.
  assert (forall i nd ch F tbl' m, holds tbl' (FCons i nd ch F) 0 m -> (m <= 16)%nat -> rep tbl' (FCons i nd ch F) /\ NoDup (ids (FCons i nd ch F)) /\
    (length (ids (FCons i nd ch F)) <= 16)%nat) as Hfew.
  { intros i nd ch F tbl' m (Hrep & Hnd & Hib) Hm. split_and!; [done..|]. apply few_ids; [done|]. intros j Hj. apply Hib in Hj. lia. }
  destruct He as [s|s e l s' p Hp Hr He|s t x type s1 l s' p Hty Hx Ha He|s t x type e s1 l s' p Hty Hx Ha Hp Hr He]; cbn [args_nodes] in Hn;
    try (rewrite line_tokens_cons in Hl, Hu, Hlen; rewrite length_app in Hl, Hlen; simpl (length (_ :: _)) in Hlen).
  - rewrite wp_bind. eapply wp_next_end; [exact Hu|]. intros tk1. simpl. rewrite wp_ret.
    assert (set_token tk1 (st s tk tbl) = set_root (root_of FNil) (st s tk1 tbl)) as -> by (unfold st; simpl; rewrite <- Hroot; by destruct s).
    apply HQ; [done|apply NoDup_nil_2|simpl; lia|done].
  - eapply (wp_round s fuel (SExpr e)); [done|exact Hu|]. intros tk2 Hu2. apply wp_add_first; [exact Hroot|].
    eapply (wp_expr_statement s fuel e tk2 tbl 0); [done|done| |exact Hu2|exact Ht|lia|].
    { unfold stmt_tokens in Hl. rewrite length_app in Hl. simpl in Hl. lia. }
    intros tk3 tbl3 i nd ch Hu3 Ht3 Hs3 Hh3 Hd3. eapply (wp_first_tree fuel fuel' (SExpr e)); [exact He|exact Hok|done|lia|lia|exact Hu3|exact Ht3|lia|exact Hh3|].
    intros tk4 tbl4 F Hh4 Hd4. destruct (Hfew _ _ _ _ _ _ Hh4 ltac:(lia)) as (H1 & H2 & H3). eapply (HQ tk4 tbl4 (FCons i _ ch F)); [exact H1|exact H2|exact H3|].
    eexists _, _, _, _. split; [reflexivity|]. split; [|exact Hd4]. apply den_sibling. eapply den_extends; [|exact Hr|exact Hd3]. by eapply elaborates_extends.
  - destruct l as [|]; [|done]. inversion He; subst. eapply (wp_round s fuel (SDecl t x None)); [by eexists|exact Hu|]. intros tk2 Hu2. apply wp_add_first; [exact Hroot|].
    eapply (wp_variable_decl s fuel t x type); [done|done|exact Ha|done|exact Hu2|]. intros tk3 Hu3. split; [done|]. cbn [root set_root].
    apply (HQ tk3 tbl FNil); [done|apply NoDup_nil_2|simpl; lia|done].
  - eapply (wp_round s fuel (SDecl t x (Some e))); [by eexists|exact Hu|]. intros tk2 Hu2. apply wp_add_first; [exact Hroot|].
    destruct (add_var_spec _ _ _ _ Ha (type_code_range _ _ Hty) Hx Hok) as (k & _ & _ & _ & _ & Hres & Hok1 & _).
    eapply (wp_variable_init s fuel t x type e s1 _ tk2 tbl 0); [done|done|done|done|done|done| |exact Hu2|exact Ht|lia|].
    { unfold stmt_tokens in Hl. rewrite !length_app in Hl. simpl in Hl. lia. }
    intros tk3 tbl3 i nd ch Hu3 Ht3 Hs3 Hh3 Hd3. eapply (wp_first_tree fuel fuel' (SDecl t x (Some e))); [exact He|exact Hok1|done|lia|lia|exact Hu3|exact Ht3|lia|exact Hh3|].
    intros tk4 tbl4 F Hh4 Hd4. destruct (Hfew _ _ _ _ _ _ Hh4 ltac:(lia)) as (H1 & H2 & H3). eapply (HQ tk4 tbl4 (FCons i _ ch F)); [exact H1|exact H2|exact H3|].
    eexists _, _, _, _. split; [reflexivity|]. split; [|exact Hd4]. apply den_sibling. eapply den_extends; [| |exact Hd3]; [by eapply elaborates_extends|].
    split; [|exact Hr]. split; [lia|by eexists].
Qed.

Lemma elaborates_frame s l s' p : elaborates s l s' p -> exists vars, s' = set_global_variable vars s.
Proof.
  assert (forall x type s s1, add_var x type s = Some s1 -> exists vars, s1 = set_global_variable vars s) as Ha.
  { intros x type t t1. unfold add_var. destruct (resolve t x); [done|]. destruct (find_index _ _); [|done]. intros [= <-]. by eexists. }
  induction 1 as [s|s e l s' p _ _ _ IH|s t x type s1 l s' p _ _ H1 _ IH|s t x type e s1 l s' p _ _ H1 _ _ _ IH];
    [exists (global_variable s); by destruct s|exact IH|..]; destruct (Ha _ _ _ _ H1) as [vars ->], IH as [vars' ->]; by exists vars'.
Qed.

(** C35: The parser reads every well-formed line: from its characters it makes the trees of its expressions, one behind the other and each node once, declares
    its variables, and reports no error. *)
Theorem finsh_parser_run_trees fuel line l s s' p :
  idle s -> vars_ok s -> line_chars line -> lexes line (line_tokens l) -> (2 * length line + 3 <= fuel)%nat ->
  elaborates s l s' p -> line_form l = true -> (args_nodes p <= 16)%nat ->
  exists tk tbl F, finsh_parser_run fuel line s = Some (tt, set_root (root_of F) (set_token tk (set_global_node_table tbl s'))) /\
    rep tbl F /\ NoDup (ids F) /\ den_args s' p F /\ global_errno s' = FINSH_ERROR_OK.
Proof.
  intros Hi Hok Hc Hl Hf He Hform Hn.
  assert (wp (finsh_parser_run fuel line) (fun _ s2 => exists tk tbl F, s2 = set_root (root_of F) (set_token tk (set_global_node_table tbl s')) /\
    rep tbl F /\ NoDup (ids F) /\ den_args s' p F) s) as Hwp.
  { eapply (wp_finsh_parser_run fuel line l); [done|done|done|exact Hl|done|exact He|done|done|]. intros tk tbl F Hrep Hnd _ Hd. by exists tk, tbl, F. }
  apply wp_run in Hwp as ([] & s2 & E & tk & tbl & F & -> & H1 & H2 & H3). exists tk, tbl, F. split_and!; [done..|].
  destruct (elaborates_frame _ _ _ _ He) as [vars ->]. apply Hi.
Qed.
End line.

(** ** Concrete lines *)

Section example.
#[local] Existing Instances example_layout.

Definition text (s : String.string) : list Z := (fun a => Z.of_nat (Ascii.nat_of_ascii a)) <$> String.list_ascii_of_string s.
Definition start_state : finsh :=
  mkFinsh {[4116 := 0; 4117 := 0; 4118 := 0; 4119 := 0]} (replicate 128 0) (replicate 64 0) 0 0 0
    (replicate 16 no_node) (replicate 16 no_var) [] [] [] [] 0 0 FINSH_ERROR_OK zero_token None.
Definition with_x (d : bytes) : finsh := set_data d (set_global_variable (<[0%nat := mkVar [120] finsh_type_int]> (replicate 16 no_var)) start_state).
Definition memory_x (v : Z) : bytes := {[4116 := v; 4117 := 0; 4118 := 0; 4119 := 0]}.

Definition line1 : list Z := text "int x = 3;".
Definition stmts1 : list stmt := [SDecl (mkType false finsh_token_type_int false) [120] (Some (EInt false 3))].
Definition program1 : exprs := ACons (EAssign [120] (EInt false 3)) ANil.
Definition line2 : list Z := text "x = x + 4; x * 2;".
Definition program2 : exprs := ACons (EAssign [120] (EBin Add (EId [120]) (EInt false 4))) (ACons (EBin Mul (EId [120]) (EInt false 2)) ANil).
Definition stmts2 : list stmt := [SExpr (EAssign [120] (EBin Add (EId [120]) (EInt false 4))); SExpr (EBin Mul (EId [120]) (EInt false 2))].

(** The tokens of a concrete text. *)
Tactic Notation "lex_token" uconstr(blanks) constr(t) constr(txt) :=
  eapply (lexes_cons blanks t txt); [done| |cbn; intros; try (eexists _, _; by split)|].
Tactic Notation "lex_op" uconstr(blanks) constr(type) constr(txt) :=
  lex_token blanks (TOp type) txt;
  [eapply spells_op; unfold operators; rewrite !elem_of_cons; naive_solver
  |match goal with Hin : _ ∈ _ |- _ => unfold operators in Hin; rewrite !elem_of_cons, elem_of_nil in Hin; naive_solver end|].

Lemma line1_lexes : lexes line1 (line_tokens stmts1).
Proof.
  let l := eval vm_compute in line1 in change line1 with l. simpl.
  lex_token (@nil Z) (TWord finsh_token_type_int) [105; 110; 116]; [apply spells_word, (bool_decide_unpack _); by vm_compute|].
  lex_token [32] (TId [120]) [120]; [by constructor|].
  lex_op [32] finsh_token_type_assign [61].
  lex_token [32] (TInt false 3) [51]; [constructor; by apply (literal_decimal false 51 [] [])|].
  lex_op (@nil Z) finsh_token_type_semicolon [59].
  by constructor.
Qed.

Lemma line1_elaborates : elaborates start_state stmts1 (with_x (memory_x 0)) program1.
Proof. eapply el_init; [done|simpl; lia|done|done|done|]. constructor. Qed.

Lemma line2_lexes : lexes line2 (line_tokens stmts2).
Proof.
  let l := eval vm_compute in line2 in change line2 with l. simpl.
  lex_token (@nil Z) (TId [120]) [120]; [by constructor|]. lex_op [32] finsh_token_type_assign [61].
  lex_token [32] (TId [120]) [120]; [by constructor|]. lex_op [32] finsh_token_type_add [43].
  lex_token [32] (TInt false 4) [52]; [constructor; by apply (literal_decimal false 52 [] [])|]. lex_op (@nil Z) finsh_token_type_semicolon [59].
  lex_token [32] (TId [120]) [120]; [by constructor|]. lex_op [32] finsh_token_type_mul [42].
  lex_token [32] (TInt false 2) [50]; [constructor; by apply (literal_decimal false 50 [] [])|]. lex_op (@nil Z) finsh_token_type_semicolon [59].
  by constructor.
Qed.

Lemma line2_elaborates v : elaborates (with_x (memory_x v)) stmts2 (with_x (memory_x v)) program2.
Proof.
  assert (named (with_x (memory_x v)) [120]) as Hx by (split; [simpl; lia|by eexists]).
  apply el_expr; [done|by split_and!|]. apply el_expr; [done|by split_and!|]. constructor.
Qed.

Lemma finsh_parser_run_trees_witness : exists tk tbl F,
  finsh_parser_run 200 line1 start_state = Some (tt, set_root (root_of F) (set_token tk (set_global_node_table tbl (with_x (memory_x 0))))) /\
  rep tbl F /\ NoDup (ids F) /\ den_args (with_x (memory_x 0)) program1 F /\ global_errno (with_x (memory_x 0)) = FINSH_ERROR_OK.
Proof.
  apply (finsh_parser_run_trees 200 line1 stmts1 start_state (with_x (memory_x 0)) program1).
  - done.
  - by repeat constructor.
  - by repeat constructor.
  - exact line1_lexes.
  - vm_compute. lia.
  - exact line1_elaborates.
  - done.
  - vm_compute. lia.
Defined.
End example.
