(* ===== verification/FinshRun.v ===== *)
(** The finsh shell: a line of text is parsed, compiled and run (components/finsh/finsh_init.c, shell.c). *)

From S2P Require Import Prelude ByteMem FinshDef FinshVm FinshSym FinshExpr FinshCompiler FinshTree FinshCode FinshHeap FinshToken FinshParser FinshLex FinshParse FinshLine.

Section shell.
Context `{FinshLayout, Syscalls}.

Definition finsh_init : FM unit :=
  finsh_parser_init;;
  finsh_node_init;;
  finsh_var_init;;
  finsh_error_init;;
  finsh_heap_init.

Definition finsh_flush : FM unit :=
  finsh_parser_init;;
  finsh_node_init;;
  finsh_error_init.

(** What the shell prints: the error of the parser, and the value at the bottom of the stack. *)
Record output := mkOutput { out_error : option Z; out_value : option Z }.

(** The fuel is for the parser. *)
Definition finsh_run_line (fuel : nat) (line : list Z) : FM output :=
  finsh_parser_run fuel line;;
  errno ← finsh_errno;
  error ← (if errno =? 0 then node ← gets root; finsh_compiler_run node;; mret None else mret (Some errno));
  errno ← finsh_errno;
  value ← (if errno =? 0 then finsh_vm_run;; v ← finsh_stack_bottom; mret (Some v) else mret None);
  finsh_flush;;
  mret (mkOutput error value).

(** The lines one after the other. *)
Fixpoint run_lines (fuel : nat) (lines : list (list Z)) : FM (list output) :=
  match lines with
  | [] => mret []
  | line :: lines => o ← finsh_run_line fuel line; os ← run_lines fuel lines; mret (o :: os)
  end.

(** ** The meaning of a line *)

(** The width and the value of what a line prints: the value of the last expression, 0 if there is none. *)
Definition line_width (env : list Z -> option symbol) (p : exprs) : option width := match p with ANil => Some DWORD | _ => program_value env p end.
Definition eval_line (env : list Z -> option symbol) (p : exprs) : BM Z := match p with ANil => mret 0 | _ => eval_program env p end.

(** Between two lines. *)
Definition ready (s : finsh) : Prop := idle s /\ vars_ok s /\ length (finsh_vm_stack s) = 64%nat.

(** A text that the shell takes for the statements [l] in [s]: it leads to the symbols of [s1], the value [v] of the width [w] and the memory [d']. *)
Inductive line_means (s : finsh) (line : list Z) (s1 : finsh) (w : width) (v : Z) (d' : bytes) : Prop :=
| means l p : line_chars line -> lexes line (line_tokens l) -> line_form l = true -> elaborates s l s1 p -> (args_nodes p <= 16)%nat ->
    program_typed (env_of s1) p = true -> (length (program_code (env_of s1) p) <= 128)%nat ->
    line_width (env_of s1) p = Some w -> eval_line (env_of s1) p (data s) = Some (v, d') -> line_means s line s1 w v d'.

(** ** The shell implements it *)

Lemma depth_nodes : (forall e, (depth e <= 2 * nodes e)%nat) /\ (forall l, (args_depth l <= 2 * args_nodes l)%nat).
Proof.
  apply expr_ind2; simpl; intros; try lia.
  - by destruct pre; lia.
  - pose proof (proj1 nodes_pos e). lia.
Qed.

Lemma program_depth_nodes l : (program_depth l <= 2 * args_nodes l)%nat.
Proof. induction l as [|e l IH]; simpl; [lia|]. pose proof (proj1 depth_nodes e). lia. Qed.

Lemma rd_s32 w x : rd w (s32 x) = rd w x.
Proof. apply (rd_narrow w DWORD). by destruct w. Qed.

(** The compiler and the virtual machine on the nodes of a line. *)
Lemma wp_evaluate s F p w v d' (Q : finsh -> Prop) :
  rep (global_node_table s) F -> NoDup (ids F) -> (length (ids F) <= 16)%nat -> den_args s p F -> (args_nodes p <= 16)%nat ->
  program_typed (env_of s) p = true -> (length (program_code (env_of s) p) <= 128)%nat -> length (finsh_vm_stack s) = 64%nat ->
  line_width (env_of s) p = Some w -> eval_line (env_of s) p (data s) = Some (v, d') ->
  (forall tbl txt sp pc cpc x ρ, rd w x = v -> length (x :: ρ) = 64%nat ->
     Q (set_data d' (set_finsh_vm_stack (x :: ρ) (set_finsh_sp sp (set_finsh_pc pc (set_global_node_table tbl
          (set_text_segment txt (set_finsh_compile_pc cpc s)))))))) ->
  wp (finsh_compiler_run (root_of F)) (fun _ s' => global_errno s' = global_errno s /\ wp finsh_vm_run (fun _ s2 => Q s2) s') s.
Proof.
  intros Hrep Hnd Hsz Hden Hn Ht Hl Hstack Hw He HQ. pose proof (program_depth_nodes p) as Hd.
  destruct p as [|e p].
  - simpl in Hden. subst F. injection Hw as <-. injection He as <- <-.
    eapply (wp_finsh_compiler_run FNil FNil _ []); [done|done|simpl; lia|done|done|simpl; lia|]. intros s1 Hs1.
    destruct (compiled_text [] _ _ ltac:(simpl; lia) eq_refl Hs1) as (Htext & Hst & Hdata).
    destruct (finsh_vm_stack s) as [|x0 ρ] eqn:Es; [done|]. simpl in Hst.
    split; [by destruct Hs1 as [tbl ->]|]. eapply (wp_run_code s1 [] [] (0 :: ρ) (data s)); [simpl; lia|exact Htext| |].
    + rewrite Hst, Hdata. apply exec_nil.
    + destruct Hs1 as [tbl ->]. exact (HQ tbl _ _ _ _ 0 ρ eq_refl Hstack).
  - eapply wp_compile_run; [done|done|done|exact Hden|done|exact Hw|done|lia|exact He|]. intros tbl txt sp pc x ρ Hx Hlen. apply HQ; [done|congruence].
Qed.

Lemma wp_finsh_run_line fuel line s s1 w v d' (Q : output -> finsh -> Prop) :
  ready s -> line_means s line s1 w v d' -> (2 * length line + 3 <= fuel)%nat ->
  (forall x s2, rd w x = v -> data s2 = d' -> ready s2 -> same_symbols s1 s2 -> Q (mkOutput None (Some x)) s2) ->
  wp (finsh_run_line fuel line) Q s.
Proof.
  intros (Hidle & Hok & Hstack) [l p Hc Hl Hform He Hn Ht Hsz Hw Hv] Hf HQ. unfold finsh_run_line. rewrite wp_bind.
  destruct (elaborates_extends _ _ _ _ He Hok) as [_ Hok1]. destruct (elaborates_frame _ _ _ _ He) as [vars Es1]. pose proof Hidle as (_ & _ & Herr).
  eapply (wp_finsh_parser_run fuel line l); [done|done|done|exact Hl|exact Hf|exact He|done|exact Hn|]. intros tk tbl F Hrep Hnd Hids Hd.
  subst s1. set (sp := set_root _ _). assert (global_errno sp = FINSH_ERROR_OK) as Herr1 by exact Herr.
  rewrite wp_bind. unfold finsh_errno at 1. rewrite wp_gets, Herr1, Z.eqb_refl, wp_bind, wp_bind, wp_gets. change (root sp) with (root_of F). rewrite wp_bind.
  eapply wp_mono.
  - eapply (wp_evaluate sp F p w v d' (fun s2 => exists x, rd w x = v /\ finsh_vm_stack s2 !! 0%nat = Some x /\ data s2 = d' /\ global_errno s2 = FINSH_ERROR_OK /\ length (finsh_vm_stack s2) = 64%nat /\ same_symbols sp s2));
      [exact Hrep|exact Hnd|exact Hids| |exact Hn|exact Ht|exact Hsz|exact Hstack|exact Hw|exact Hv|].
    + by eapply (den_same (set_global_variable vars s) sp).
    + intros tbl2 txt vsp pc cpc x ρ Hx Hlen. exists x. by split_and!.
  - intros [] s2 [Herr2 Hrun]. rewrite wp_ret, wp_bind. unfold finsh_errno. rewrite wp_gets, Herr2, Herr1, Z.eqb_refl, wp_bind, wp_bind.
    eapply wp_mono; [exact Hrun|]. intros [] s3 (x & Hx & Hbot & Hdata & Herr3 & Hlen & Hsym). unfold finsh_stack_bottom. rewrite wp_bind, wp_bind, wp_getso.
    exists x. split; [exact Hbot|]. rewrite wp_ret, wp_ret, wp_bind. unfold finsh_flush, finsh_parser_init, finsh_node_init, finsh_error_init.
    rewrite wp_bind, wp_modify, wp_bind, wp_modify, wp_modify, wp_ret. apply HQ; [by rewrite rd_s32|exact Hdata| |by destruct Hsym].
    split; [done|]. split; [|exact Hlen]. unfold vars_ok. cbn [global_variable set_global_errno set_global_node_table set_token set_root].
    rewrite (ss_variable _ _ Hsym). exact Hok1.
Qed.

(** ** Sessions *)

Lemma same_symbols_resolve s t x : same_symbols s t -> resolve t x = resolve s x.
Proof. unfold resolve. by intros [-> -> -> -> ->]. Qed.

Lemma same_symbols_env s t : same_symbols s t -> env_of t = env_of s.
Proof. destruct s, t. intros [E1 E2 E3 E4 E5]. simpl in *. by subst. Qed.

Lemma resolved_extends s t : extends s t -> (forall e, resolved s e -> resolved t e) /\ (forall l, args_resolved s l -> args_resolved t l).
Proof. intros He. apply expr_ind2; simpl; intros; destruct_and?; split_and?; eauto using named_extends. Qed.

Lemma elaborates_same s l s' p : elaborates s l s' p -> forall t, same_symbols s t -> exists t', elaborates t l t' p /\ same_symbols s' t'.
Proof.
  assert (forall s t e, same_symbols s t -> resolved s e -> resolved t e) as Hres.
  { intros r t e Hst. apply resolved_extends. intros x _. by apply same_symbols_resolve. }
  assert (forall x type s t s1, same_symbols s t -> add_var x type s = Some s1 -> exists t1, add_var x type t = Some t1 /\ same_symbols s1 t1) as Hadd.
  { intros x type r t r1 Hst Ha. unfold add_var in *. rewrite (same_symbols_resolve _ _ _ Hst). destruct (resolve r x); [done|].
    destruct Hst as [Hg ? ? ? ?]. rewrite Hg. destruct (find_index _ _); [|done]. injection Ha as <-. eexists. split; [reflexivity|]. by split. }
  induction 1 as [s|s e l s' p Hp Hr He IH|s ty x type s1 l s' p Hty Hx Ha He IH|s ty x type e s1 l s' p Hty Hx Ha Hp Hr He IH]; intros t Hst.
  - exists t. split; [constructor|done].
  - destruct (IH t Hst) as (t' & Ht & Hs). exists t'. split; [constructor; [done|by eapply Hres|done]|done].
  - destruct (Hadd _ _ _ _ _ Hst Ha) as (t1 & Ha1 & Hs1), (IH t1 Hs1) as (t' & Ht & Hs). exists t'. split; [by econstructor|done].
  - destruct (Hadd _ _ _ _ _ Hst Ha) as (t1 & Ha1 & Hs1), (IH t1 Hs1) as (t' & Ht & Hs). exists t'. split; [econstructor; [done|done|done|done|by eapply Hres|done]|done].
Qed.

(** The meaning of a line depends on the symbols and the memory only. *)
Lemma line_means_same s line s1 w v d' t : line_means s line s1 w v d' -> same_symbols s t -> data t = data s ->
  exists t1, line_means t line t1 w v d' /\ same_symbols s1 t1.
Proof.
  intros [l p Hc Hl Hform He Hn Ht Hsz Hw Hv] Hst Hd. destruct (elaborates_same _ _ _ _ He t Hst) as (t1 & He1 & Hs1). exists t1. split; [|done].
  rewrite <- (same_symbols_env _ _ Hs1) in *. rewrite <- Hd in Hv. by econstructor.
Qed.

(** Lines one after the other, with the widths and the values of what they print. *)
Inductive session : finsh -> list (list Z) -> list (width * Z) -> finsh -> Prop :=
| session_nil s : session s [] [] s
| session_cons s line s1 w v d' lines vs s' : line_means s line s1 w v d' -> session (set_data d' s1) lines vs s' ->
    session s (line :: lines) ((w, v) :: vs) s'.

Definition prints_value (wv : width * Z) (o : output) : Prop := out_error o = None /\ exists x, out_value o = Some x /\ rd wv.1 x = wv.2.

(** C33: The shell implements the language of its lines: in a session, every line prints the value of its last expression without an error, the memory has
    what the lines assign and the symbols are those that they declare, and the shell is ready for the next line. *)
Theorem finsh_session_correct fuel s lines vs s' :
  ready s -> session s lines vs s' -> Forall (fun line => 2 * length line + 3 <= fuel)%nat lines ->
  exists os s2, run_lines fuel lines s = Some (os, s2) /\ Forall2 prints_value vs os /\ data s2 = data s' /\ ready s2 /\ same_symbols s' s2.
Proof.
  intros Hr Hs Hf. assert (forall t, ready t -> same_symbols s t -> data t = data s ->
    wp (run_lines fuel lines) (fun os s2 => Forall2 prints_value vs os /\ data s2 = data s' /\ ready s2 /\ same_symbols s' s2) t) as Hwp.
  2: { destruct (proj1 (wp_run _ _ _) (Hwp s Hr ltac:(done) eq_refl)) as (os & s2 & E & Hrest). by exists os, s2. }
  clear Hr. induction Hs as [s|s line s1 w v d' lines vs s' Hm Hs IH]; intros t Hr Hst Hd; cbn [run_lines].
  - by rewrite wp_ret.
  - apply Forall_cons in Hf as [Hf1 Hf]. destruct (line_means_same _ _ _ _ _ _ t Hm Hst Hd) as (t1 & Hmt & Hs1). rewrite wp_bind.
    eapply wp_finsh_run_line; [exact Hr|exact Hmt|done|]. intros x t2 Hx Hd2 Hr2 Hs2. rewrite wp_bind.
    eapply wp_mono; [apply (IH Hf t2 Hr2)|].
    + etrans; [|exact Hs2]. by destruct Hs1.
    + exact Hd2.
    + intros os s2 (H1 & H2). rewrite wp_ret. split; [|done]. constructor; [|done]. split; [done|]. by exists x.
Qed.
End shell.

(** ** A concrete session *)

Section example.
#[local] Existing Instances example_layout example_syscalls.

Lemma line1_means : line_means start_state line1 (with_x (memory_x 0)) DWORD 3 (memory_x 3).
Proof.
  apply (means _ _ _ _ _ _ stmts1 program1);
    [by repeat constructor|exact line1_lexes|done|exact line1_elaborates|vm_compute; lia|done|vm_compute; lia|done|by vm_compute].
Qed.

Lemma line2_means : line_means (with_x (memory_x 3)) line2 (with_x (memory_x 3)) DWORD 14 (memory_x 7).
Proof.
  apply (means _ _ _ _ _ _ stmts2 program2);
    [by repeat constructor|exact line2_lexes|done|apply line2_elaborates|vm_compute; lia|done|vm_compute; lia|done|by vm_compute].
Qed.

Lemma finsh_session_correct_witness :
  exists os s2, run_lines 200 [line1; line2] start_state = Some (os, s2) /\ Forall2 prints_value [(DWORD, 3); (DWORD, 14)] os /\ data s2 = memory_x 7 /\
    ready s2 /\ same_symbols (with_x (memory_x 7)) s2.
Proof.
  apply (finsh_session_correct 200 start_state [line1; line2] [(DWORD, 3); (DWORD, 14)] (with_x (memory_x 7))).
  - split; [done|]. split; [by repeat constructor|done].
  - eapply session_cons; [exact line1_means|]. eapply session_cons; [exact line2_means|]. constructor.
  - constructor; [vm_compute; lia|]. constructor; [vm_compute; lia|]. constructor.
Defined.

(** Lines outside of the language, with a system call [sum] and room for a second variable. *)
Definition example_shell : finsh :=
  mkFinsh (list_to_map ((fun i => (i, 0)) <$> seqZ 4112 32)) (replicate 128 0) (replicate 64 0) 0 0 0 (replicate 16 no_node) (replicate 16 no_var)
    [] [] [(100, mkSyscall (text "sum") 77)] [] 0 0 FINSH_ERROR_OK zero_token None.
Definition shell_prints (lines : list (list Z)) : option (list (option Z * option Z)) :=
  match run_lines 200 lines example_shell with Some (os, _) => Some (map (fun o => (out_error o, out_value o)) os) | None => None end.

(** The assignments behind the first one of a declaration are lost when there is another statement. *)
Example declaration_loses_initialisers :
  shell_prints [text "int a = 1, b = 2; a + b;"; text "b;"] = Some [(None, Some 1); (None, Some 0)].
Proof. by vm_compute. Qed.

(** The operator behind a call is dropped, that in front of it is not. *)
Example call_drops_operator : shell_prints [text "sum(1) + 2;"; text "2 + sum(1);"] = Some [(None, Some 1); (None, Some 3)].
Proof. by vm_compute. Qed.

(** A parenthesis at the beginning of an operand is taken for a cast. *)
Example parentheses_are_rejected : shell_prints [text "(1 + 2);"] = Some [(Some FINSH_ERROR_INVALID_TOKEN, None)].
Proof. by vm_compute. Qed.

(** The rest of a line behind a declaration without a value is not read. *)
Example declaration_ends_line : shell_prints [text "int a; a = 3;"; text "a;"] = Some [(None, Some 0); (None, Some 0)].
Proof. by vm_compute. Qed.

(** The octal escape of a character is read behind its digits. *)
Example octal_escape_is_zero : shell_prints [text "'\101';"; text "'A';"] = Some [(None, Some 0); (None, Some 65)].
Proof. by vm_compute. Qed.

(** The suffix of a hexadecimal number is a digit of the number. *)
Example hexadecimal_suffix : shell_prints [text "0x10L;"] = Some [(None, Some 284)].
Proof. by vm_compute. Qed.

(** A character that is assigned is printed with what the stack held before. *)
Example stale_bytes_are_printed : shell_prints [text "char c = 'b';"; text "c = 'd';"] = Some [(None, Some 4194); (None, Some 4196)].
Proof. by vm_compute. Qed.
End example.
