(* ===== verification/Mem.v ===== *)
(** The heap (src/mem.c with [RT_USING_SMALL_MEM]): a first-fit allocator over a doubly linked list of
    blocks with headers in the memory it manages, guarded by the semaphore [heap_sem]. *)

From S2P Require Import Prelude RtDef Object Scheduler Timer Thread Kernel Ipc Sem.

(** ** State *)

Abbreviation HEAP_MAGIC := 7840.
Abbreviation MIN_SIZE := 12.
Abbreviation MIN_SIZE_ALIGNED := 12.
Abbreviation SIZEOF_STRUCT_MEM := 12.
Abbreviation RT_NULL := 0.

(** [struct heap_mem]; [next] and [prev] are offsets from [heap_ptr]. *)
Record heap_mem := mkHeapMem {
  hm_magic : Z;
  hm_used : Z;
  hm_next : Z;
  hm_prev : Z }.
Definition set_hm_magic (v : Z) (m : heap_mem) : heap_mem := mkHeapMem v (hm_used m) (hm_next m) (hm_prev m).
Definition set_hm_used (v : Z) (m : heap_mem) : heap_mem := mkHeapMem (hm_magic m) v (hm_next m) (hm_prev m).
Definition set_hm_next (v : Z) (m : heap_mem) : heap_mem := mkHeapMem (hm_magic m) (hm_used m) v (hm_prev m).
Definition set_hm_prev (v : Z) (m : heap_mem) : heap_mem := mkHeapMem (hm_magic m) (hm_used m) (hm_next m) v.

(** The file-scope variables of src/mem.c; [hp_mem] is the memory as the headers in it by their
    address, [hp_bytes] the content of the blocks. *)
Record hvars := mkVars {
  hp_mem : gmap Z heap_mem;
  hp_bytes : gmap Z Z;
  heap_ptr : Z;
  heap_end : Z;
  lfree : Z;
  mem_size_aligned : Z;
  used_mem : Z;
  max_mem : Z }.
Definition set_hp_mem (v : gmap Z heap_mem) (h : hvars) : hvars :=
  mkVars v (hp_bytes h) (heap_ptr h) (heap_end h) (lfree h) (mem_size_aligned h) (used_mem h) (max_mem h).
Definition set_hp_bytes (v : gmap Z Z) (h : hvars) : hvars :=
  mkVars (hp_mem h) v (heap_ptr h) (heap_end h) (lfree h) (mem_size_aligned h) (used_mem h) (max_mem h).
Definition set_heap_ptr (v : Z) (h : hvars) : hvars :=
  mkVars (hp_mem h) (hp_bytes h) v (heap_end h) (lfree h) (mem_size_aligned h) (used_mem h) (max_mem h).
Definition set_heap_end (v : Z) (h : hvars) : hvars :=
  mkVars (hp_mem h) (hp_bytes h) (heap_ptr h) v (lfree h) (mem_size_aligned h) (used_mem h) (max_mem h).
Definition set_lfree (v : Z) (h : hvars) : hvars :=
  mkVars (hp_mem h) (hp_bytes h) (heap_ptr h) (heap_end h) v (mem_size_aligned h) (used_mem h) (max_mem h).
Definition set_mem_size_aligned (v : Z) (h : hvars) : hvars :=
  mkVars (hp_mem h) (hp_bytes h) (heap_ptr h) (heap_end h) (lfree h) v (used_mem h) (max_mem h).
Definition set_used_mem (v : Z) (h : hvars) : hvars :=
  mkVars (hp_mem h) (hp_bytes h) (heap_ptr h) (heap_end h) (lfree h) (mem_size_aligned h) v (max_mem h).
Definition set_max_mem (v : Z) (h : hvars) : hvars :=
  mkVars (hp_mem h) (hp_bytes h) (heap_ptr h) (heap_end h) (lfree h) (mem_size_aligned h) (used_mem h) v.

(** The heap and the rest of the kernel. *)
Record heap := mkHeap {
  hp_vars :> hvars;
  hp_kernel : kernel }.
Definition set_hp_vars (v : hvars) (h : heap) : heap := mkHeap v (hp_kernel h).
Definition set_hp_kernel (v : kernel) (h : heap) : heap := mkHeap (hp_vars h) v.

(** ** Programs

    The functions of src/mem.c run with interrupts enabled: a thread can lose the CPU between any two accesses to the
    variables above, and only [heap_sem] keeps the others out. So a function is the program of its accesses: a tree whose nodes are an
    access to the variables of the heap (a read or a write of one variable or of one header; a whole copy of [rt_memcpy] or [rt_memset] counts as one), a call of the kernel, and the two operations on [heap_sem]. [run] below executes a program that nobody
    interrupts; [HeapSystem] interleaves the programs of several threads. *)
Inductive prog (A : Type) : Type :=
| Return (a : A)
| Access {B : Set} (m : stM hvars B) (k : B -> prog A)
| InKernel {B : Set} (m : M B) (k : B -> prog A)
| TakeSem (k : Z -> prog A)
| ReleaseSem (k : Z -> prog A).
#[global] Arguments Return {A} a.
#[global] Arguments Access {A B} m k.
#[global] Arguments InKernel {A B} m k.
#[global] Arguments TakeSem {A} k.
#[global] Arguments ReleaseSem {A} k.

Fixpoint prog_bind {A B} (f : A -> prog B) (p : prog A) : prog B :=
  match p with
  | Return a => f a
  | Access m k => Access m (fun b => prog_bind f (k b))
  | InKernel m k => InKernel m (fun b => prog_bind f (k b))
  | TakeSem k => TakeSem (fun v => prog_bind f (k v))
  | ReleaseSem k => ReleaseSem (fun v => prog_bind f (k v))
  end.
#[global] Instance prog_mret : MRet prog := fun A a => Return a.
#[global] Instance prog_mbind : MBind prog := fun A B f p => prog_bind f p.

Definition hget {B : Set} (f : hvars -> B) : prog B := Access (gets f) Return.
Definition hset (f : hvars -> hvars) : prog unit := Access (modify f) Return.
Definition hassert (b : bool) : prog unit := Access (RT_ASSERT b) Return.
Definition hwhen (b : bool) (p : prog unit) : prog unit := if b then p else mret tt.
(** A kernel routine called from here. *)
Definition kcall {B : Set} (m : M B) : prog B := InKernel m Return.

(** [&heap_ptr[off]], and the offset of an address. *)
Definition block_at (off : Z) : prog Z := hget (fun h => u32 (heap_ptr h + off)).
Definition offset_of (p : Z) : prog Z := hget (fun h => u32 (p - heap_ptr h)).

Definition get_mem (p : Z) : prog heap_mem := Access (getso (fun h => hp_mem h !! p)) Return.
Definition put_mem (p : Z) (m : heap_mem) : prog unit := hset (fun h => set_hp_mem (<[p := m]> (hp_mem h)) h).
Definition upd_mem (p : Z) (f : heap_mem -> heap_mem) : prog unit := m ← get_mem p; put_mem p (f m).

(** Bound on the length of the walks over the blocks: each has a header. *)
Definition heap_fuel : prog nat := hget (fun h => Z.to_nat (mem_size_aligned h / SIZEOF_STRUCT_MEM + 2)).

(** ** Critical sections *)

(** The block [c] becomes a part of the block [b] in front of it; [nx] is the offset of the block behind:
    what [plug_holes] does with [mem] and [nmem] and then with [pmem] and [mem]. *)
Definition join (b c nx : Z) : prog unit :=
  lf ← hget lfree;
  hwhen (lf =? c) (hset (set_lfree b));;
  upd_mem b (set_hm_next nx);;
  p ← block_at nx;
  o ← offset_of b;
  upd_mem p (set_hm_prev o).

Definition plug_holes (mem : Z) : prog unit :=
  hp ← hget heap_ptr;
  hassert (hp <=? mem);;
  he ← hget heap_end;
  hassert (mem <? he);;
  m ← get_mem mem;
  hassert (hm_used m =? 0);;
  (* plug hole forward *)
  nmem ← block_at (hm_next m);
  n ← get_mem nmem;
  hwhen (negb (mem =? nmem) && (hm_used n =? 0) && negb (nmem =? he)) (join mem nmem (hm_next n));;
  (* plug hole backward *)
  m ← get_mem mem;
  pmem ← block_at (hm_prev m);
  p ← get_mem pmem;
  hwhen (negb (pmem =? mem) && (hm_used p =? 0)) (join pmem mem (hm_next m)).

(** The statistics of [RT_MEM_STATS]. *)
Definition stat_alloc (n : Z) : prog unit :=
  u ← hget used_mem; hset (set_used_mem (u32 (u + n)));;
  m ← hget max_mem; u ← hget used_mem;
  hwhen (m <? u) (u ← hget used_mem; hset (set_max_mem u)).
Definition stat_free (n : Z) : prog unit := u ← hget used_mem; hset (set_used_mem (u32 (u - n))).

(** [while (lfree->used && lfree != heap_end)] *)
Fixpoint lfree_loop (fuel : nat) : prog unit :=
  match fuel with
  | O => Access rt_panic Return
  | S fuel =>
      lf ← hget lfree;
      m ← get_mem lf;
      he ← hget heap_end;
      if negb (hm_used m =? 0) && negb (lf =? he) then
        p ← block_at (hm_next m);
        hset (set_lfree p);;
        lfree_loop fuel
      else mret tt
  end.

(** The block [mem] at the offset [ptr] ends at [ptr2], where a new free block begins: the splitting of
    [rt_malloc] and [rt_realloc], with what they assign to [mem]. *)
Definition split_block (ptr mem ptr2 : Z) (f : heap_mem -> heap_mem) : prog unit :=
  m ← get_mem mem;
  mem2 ← block_at ptr2;
  put_mem mem2 (mkHeapMem HEAP_MAGIC 0 (hm_next m) ptr);;
  upd_mem mem f;;
  m2 ← get_mem mem2;
  ms ← hget mem_size_aligned;
  hwhen (negb (hm_next m2 =? u32 (ms + SIZEOF_STRUCT_MEM)))
    (p ← block_at (hm_next m2); upd_mem p (set_hm_prev ptr2)).

(** The body of the [if] of [rt_malloc]'s loop up to the release of the semaphore: the block [mem] at
    the offset [ptr] becomes a used one of [size] bytes, split if the rest can hold a block. *)
Definition malloc_take (ptr mem size : Z) : prog unit :=
  m ← get_mem mem;
  (if u32 (size + SIZEOF_STRUCT_MEM + MIN_SIZE_ALIGNED) <=? u32 (hm_next m - (ptr + SIZEOF_STRUCT_MEM)) then
     let ptr2 := u32 (ptr + SIZEOF_STRUCT_MEM + size) in
     split_block ptr mem ptr2 (fun m => set_hm_used 1 (set_hm_next ptr2 m));;
     stat_alloc (size + SIZEOF_STRUCT_MEM)
   else
     upd_mem mem (set_hm_used 1);;
     o ← offset_of mem;
     stat_alloc (hm_next m - o));;
  upd_mem mem (set_hm_magic HEAP_MAGIC);;
  lf ← hget lfree;
  hwhen (mem =? lf) (
    fuel ← heap_fuel;
    lfree_loop fuel;;
    lf ← hget lfree;
    he ← hget heap_end;
    m ← get_mem lf;
    hassert ((lf =? he) || (hm_used m =? 0))).

(** The loop of [rt_malloc]; the result is the block it takes. *)
Fixpoint malloc_loop (fuel : nat) (ptr size : Z) : prog (option Z) :=
  match fuel with
  | O => Access rt_panic Return
  | S fuel =>
      ms ← hget mem_size_aligned;
      if ptr <? u32 (ms - size) then
        mem ← block_at ptr;
        m ← get_mem mem;
        if (hm_used m =? 0) && (size <=? u32 (hm_next m - (ptr + SIZEOF_STRUCT_MEM))) then
          malloc_take ptr mem size;;
          mret (Some mem)
        else malloc_loop fuel (hm_next m) size
      else mret None
  end.

Definition malloc_locked (size : Z) : prog (option Z) :=
  lf ← hget lfree;
  ptr ← offset_of lf;
  fuel ← heap_fuel;
  malloc_loop fuel ptr size.

Definition free_locked (mem : Z) : prog unit :=
  m ← get_mem mem;
  hassert (negb (hm_used m =? 0));;
  hassert (hm_magic m =? HEAP_MAGIC);;
  upd_mem mem (fun m => set_hm_magic HEAP_MAGIC (set_hm_used 0 m));;
  lf ← hget lfree;
  hwhen (mem <? lf) (hset (set_lfree mem));;
  o ← offset_of mem;
  stat_free (hm_next m - o);;
  plug_holes mem.

(** [rt_realloc] between its own [rt_sem_take] and [rt_sem_release]: [Some p] is what it returns,
    [None n] that it goes on to copy the [n] bytes of the block into a new one. *)
Definition realloc_locked (rmem newsize : Z) : prog (option Z * Z) :=
  hp ← hget heap_ptr;
  he ← hget heap_end;
  if (rmem <? hp) || (rmem >=? he) then mret (Some rmem, 0)
  else
    let mem := u32 (rmem - SIZEOF_STRUCT_MEM) in
    ptr ← offset_of mem;
    m ← get_mem mem;
    let size := u32 (hm_next m - ptr - SIZEOF_STRUCT_MEM) in
    if size =? newsize then mret (Some rmem, 0)
    else if u32 (newsize + SIZEOF_STRUCT_MEM + MIN_SIZE) <? size then
      stat_free (size - newsize);;
      let ptr2 := u32 (ptr + SIZEOF_STRUCT_MEM + newsize) in
      split_block ptr mem ptr2 (set_hm_next ptr2);;
      mem2 ← block_at ptr2;
      plug_holes mem2;;
      mret (Some rmem, 0)
    else mret (None, size).

(** ** The functions of the interface *)

(** The semaphore's number. *)
Definition heap_sem : nat := 0.

(** [rt_sem_take(&heap_sem, RT_WAITING_FOREVER)], whose result is not looked at, and [rt_sem_release(&heap_sem)]: the thread that was waiting may
    run at once. *)
Definition take_heap_sem : prog Z := TakeSem Return.
Definition release_heap_sem : prog Z := ReleaseSem Return.

Definition rt_system_heap_init (begin_addr end_addr : Z) : prog unit :=
  let begin_align := RT_ALIGN begin_addr RT_ALIGN_SIZE in
  let end_align := RT_ALIGN_DOWN end_addr RT_ALIGN_SIZE in
  kcall RT_DEBUG_NOT_IN_INTERRUPT;;
  if (end_align >? 2 * SIZEOF_STRUCT_MEM) && (end_align - 2 * SIZEOF_STRUCT_MEM >=? begin_align) then
    hset (set_mem_size_aligned (u32 (end_align - begin_align - 2 * SIZEOF_STRUCT_MEM)));;
    hset (set_heap_ptr begin_align);;
    ms ← hget mem_size_aligned;
    let e := u32 (ms + SIZEOF_STRUCT_MEM) in
    put_mem begin_align (mkHeapMem HEAP_MAGIC 0 e 0);;
    p ← block_at e;
    hset (set_heap_end p);;
    put_mem p (mkHeapMem HEAP_MAGIC 1 e e);;
    kcall (rt_sem_init heap_sem "heap" 1 RT_IPC_FLAG_FIFO);;
    hset (set_lfree begin_align)
  else mret tt.

Definition rt_malloc (size : Z) : prog Z :=
  if size =? 0 then mret RT_NULL
  else
    kcall RT_DEBUG_NOT_IN_INTERRUPT;;
    let size := RT_ALIGN size RT_ALIGN_SIZE in
    ms ← hget mem_size_aligned;
    if size >? ms then mret RT_NULL
    else
      let size := if size <? MIN_SIZE_ALIGNED then MIN_SIZE_ALIGNED else size in
      take_heap_sem;;
      r ← malloc_locked size;
      release_heap_sem;;
      match r with
      | Some mem =>
          he ← hget heap_end;
          hassert (u32 (mem + SIZEOF_STRUCT_MEM + size) <=? he);;
          hassert (u32 (mem + SIZEOF_STRUCT_MEM) mod RT_ALIGN_SIZE =? 0);;
          hassert (mem .& (RT_ALIGN_SIZE - 1) =? 0);;
          mret (u32 (mem + SIZEOF_STRUCT_MEM))
      | None => mret RT_NULL
      end.

Definition rt_free (rmem : Z) : prog unit :=
  if rmem =? RT_NULL then mret tt
  else
    kcall RT_DEBUG_NOT_IN_INTERRUPT;;
    hassert (rmem .& (RT_ALIGN_SIZE - 1) =? 0);;
    hp ← hget heap_ptr;
    he ← hget heap_end;
    hassert ((hp <=? rmem) && (rmem <? he));;
    if (rmem <? hp) || (rmem >=? he) then mret tt
    else
      let mem := u32 (rmem - SIZEOF_STRUCT_MEM) in
      take_heap_sem;;
      free_locked mem;;
      release_heap_sem;;
      mret tt.

(** The effect of [rt_memcpy] on the [n] bytes at [dst] for a source that does not overlap them. *)
Fixpoint copy_bytes (dst src : Z) (n : nat) (m : gmap Z Z) : gmap Z Z :=
  match n with
  | O => m
  | S n => partial_alter (fun _ => m !! (src + Z.of_nat n)) (dst + Z.of_nat n) (copy_bytes dst src n m)
  end.

(** The effect of [rt_memset] on the [n] bytes at [dst]. *)
Fixpoint set_bytes (dst v : Z) (n : nat) (m : gmap Z Z) : gmap Z Z :=
  match n with
  | O => m
  | S n => <[dst + Z.of_nat n := v]> (set_bytes dst v n m)
  end.

Definition rt_realloc (rmem newsize : Z) : prog Z :=
  kcall RT_DEBUG_NOT_IN_INTERRUPT;;
  let newsize := RT_ALIGN newsize RT_ALIGN_SIZE in
  ms ← hget mem_size_aligned;
  if newsize >? ms then mret RT_NULL
  else if newsize =? 0 then rt_free rmem;; mret RT_NULL
  else if rmem =? RT_NULL then rt_malloc newsize
  else
    take_heap_sem;;
    r ← realloc_locked rmem newsize;
    release_heap_sem;;
    match r with
    | (Some p, _) => mret p
    | (None, size) =>
        nmem ← rt_malloc newsize;
        if nmem =? RT_NULL then mret nmem
        else
          hset (fun h => set_hp_bytes
            (copy_bytes nmem rmem (Z.to_nat (if size <? newsize then size else newsize)) (hp_bytes h)) h);;
          rt_free rmem;;
          mret nmem
    end.

Definition rt_calloc (count size : Z) : prog Z :=
  p ← rt_malloc (u32 (count * size));
  (if p =? RT_NULL then mret tt
   else hset (fun h => set_hp_bytes (set_bytes p 0 (Z.to_nat (u32 (count * size))) (hp_bytes h)) h));;
  mret p.

Definition rt_memory_info : prog (Z * Z * Z) :=
  hget (fun h => (mem_size_aligned h, used_mem h, max_mem h)).

(** ** Runs without interference *)

(** Accesses and kernel routines as steps on the heap and the kernel. *)
Definition in_vars {A} (m : stM hvars A) : stM heap A := fun h =>
  match m (hp_vars h) with Some (a, v) => Some (a, set_hp_vars v h) | None => None end.
Definition in_kernel {A} (m : M A) : stM heap A := fun h =>
  match m (hp_kernel h) with Some (a, s) => Some (a, set_hp_kernel s h) | None => None end.

(** The program runs to its end; [None] if an assertion fails, or if it has to wait for [heap_sem] or loses the CPU to a thread that did. *)
Fixpoint run {A} (p : prog A) : stM heap A :=
  match p with
  | Return a => mret a
  | Access m k => b ← in_vars m; run (k b)
  | InKernel m k => b ← in_kernel m; run (k b)
  | TakeSem k =>
      r ← in_kernel (rt_sem_take heap_sem RT_WAITING_FOREVER);
      match r with Ret v => run (k v) | Block _ => rt_panic end
  | ReleaseSem k =>
      c ← gets (fun h => rt_current_thread (hp_kernel h));
      v ← in_kernel (rt_sem_release heap_sem);
      c' ← gets (fun h => rt_current_thread (hp_kernel h));
      if decide (c = c') then run (k v) else rt_panic
  end.

(** [p] runs alone to its end and its result satisfies [Q]. *)
Definition runs_to {A} (p : prog A) (Q : A -> heap -> Prop) (h : heap) : Prop := wp (run p) Q h.

(** The same for a critical section, which is made of accesses alone. *)
Fixpoint pwp {A} (p : prog A) (Q : A -> hvars -> Prop) (h : hvars) : Prop :=
  match p with
  | Return a => Q a h
  | Access m k => wp m (fun b h' => pwp (k b) Q h') h
  | _ => False
  end.

Section programs.
Context {A B : Type}.

Lemma pwp_mono (p : prog A) (Q R : A -> hvars -> Prop) h : pwp p Q h -> (forall a h', Q a h' -> R a h') -> pwp p R h.
Proof.
  intros H HQ. revert h H. induction p as [a|C m k IH|C m k IH|k IH|k IH]; intros h H; simpl in *; try done; [auto|].
  eapply wp_mono; [exact H|]. intros b h' Hb. by apply IH.
Qed.

Lemma pwp_ret (a : A) Q h : pwp (mret a) Q h <-> Q a h.
Proof. done. Qed.

Lemma pwp_bind (p : prog A) (f : A -> prog B) Q h : pwp (p ≫= f) Q h <-> pwp p (fun a h' => pwp (f a) Q h') h.
Proof.
  unfold mbind, prog_mbind. revert h. induction p as [a|C m k IH|C m k IH|k IH|k IH]; intros h; simpl; try done.
  split; intros H; (eapply wp_mono; [exact H|]); intros b h' Hb; by apply IH.
Qed.

Lemma runs_to_ret (a : A) Q h : runs_to (mret a) Q h <-> Q a h.
Proof. done. Qed.

Lemma runs_to_bind (p : prog A) (f : A -> prog B) Q h : runs_to (p ≫= f) Q h <-> runs_to p (fun a h' => runs_to (f a) Q h') h.
Proof.
  unfold runs_to, mbind, prog_mbind. revert h. induction p as [a|C m k IH|C m k IH|k IH|k IH]; intros h; simpl; autorewrite with wp; [done|..].
  - split; intros H; (eapply wp_mono; [exact H|]); intros b h' Hb; by apply IH.
  - split; intros H; (eapply wp_mono; [exact H|]); intros b h' Hb; by apply IH.
  - split; intros H; (eapply wp_mono; [exact H|]); intros [v|u] h' Hb; by try apply IH.
  - split; intros H; (eapply wp_mono; [exact H|]); intros v h' Hb; autorewrite with wp in Hb |- *; case_decide; by try apply IH.
Qed.

Lemma runs_to_mono (p : prog A) (Q R : A -> heap -> Prop) h : runs_to p Q h -> (forall a h', Q a h' -> R a h') -> runs_to p R h.
Proof. intros H HQ. eapply wp_mono; [exact H|]. naive_solver. Qed.

(** A program of accesses alone leaves the kernel as it is. *)
Lemma runs_to_accesses (p : prog A) (Q : A -> heap -> Prop) h :
  pwp p (fun a v => Q a (set_hp_vars v h)) (hp_vars h) -> runs_to p Q h.
Proof.
  unfold runs_to. revert h. induction p as [a|C m k IH|C m k IH|k IH|k IH]; intros h H; simpl in *; try done; [by destruct h|].
  autorewrite with wp. unfold wp, in_vars in *. destruct (m (hp_vars h)) as [[b v]|]; [|done]. by apply IH.
Qed.
End programs.

Lemma runs_to_kcall {B : Set} (m : M B) Q h : runs_to (kcall m) Q h <-> wp m (fun b s => Q b (set_hp_kernel s h)) (hp_kernel h).
Proof.
  unfold runs_to, kcall. cbn [run]. rewrite wp_bind. unfold wp, in_kernel. by destruct (m (hp_kernel h)) as [[b s]|].
Qed.

Lemma runs_to_hget {B : Set} (f : hvars -> B) Q h : runs_to (hget f) Q h <-> Q (f h) h.
Proof. unfold runs_to, hget. cbn [run]. rewrite wp_bind. by destruct h. Qed.
Lemma runs_to_hset f Q h : runs_to (hset f) Q h <-> Q tt (set_hp_vars (f h) h).
Proof. done. Qed.
Lemma runs_to_hassert b Q h : runs_to (hassert b) Q h <-> b = true /\ Q tt h.
Proof.
  unfold runs_to, hassert. cbn [run]. rewrite wp_bind. unfold wp at 1, in_vars, RT_ASSERT. destruct b; [|by naive_solver].
  destruct h. rewrite wp_ret. naive_solver.
Qed.

(** The semaphore is had at once, and released to nobody that runs at once. *)
Lemma runs_to_take Q h :
  runs_to take_heap_sem Q h <->
  wp (rt_sem_take heap_sem RT_WAITING_FOREVER) (fun r s => exists v, r = Ret v /\ Q v (set_hp_kernel s h)) (hp_kernel h).
Proof.
  unfold runs_to, take_heap_sem. cbn [run]. rewrite wp_bind. unfold wp at 1 3, in_kernel.
  destruct (rt_sem_take _ _ _) as [[[v|u] s]|]; [rewrite wp_ret; naive_solver| |done]. split; [done|]. by intros (? & ? & _).
Qed.
Lemma runs_to_release Q h :
  runs_to release_heap_sem Q h <->
  wp (rt_sem_release heap_sem) (fun v s => rt_current_thread s = rt_current_thread (hp_kernel h) /\ Q v (set_hp_kernel s h)) (hp_kernel h).
Proof.
  unfold runs_to, release_heap_sem. cbn [run]. rewrite wp_bind, wp_gets, wp_bind. unfold wp at 1 3, in_kernel.
  destruct (rt_sem_release _ _) as [[v s]|]; [|done]. rewrite wp_bind, wp_gets. simpl. case_decide; [rewrite wp_ret|]; naive_solver.
Qed.

Section accesses.
Context {B : Set}.
Implicit Types (h : hvars).

Lemma pwp_access (m : stM hvars B) Q h : pwp (Access m Return) Q h <-> wp m Q h.
Proof. done. Qed.
Lemma pwp_hget (f : hvars -> B) Q h : pwp (hget f) Q h <-> Q (f h) h.
Proof. done. Qed.
Lemma pwp_hset (f : hvars -> hvars) Q h : pwp (hset f) Q h <-> Q tt (f h).
Proof. done. Qed.
Lemma pwp_hassert b Q h : pwp (hassert b) Q h <-> b = true /\ Q tt h.
Proof. exact (wp_assert _ _ _). Qed.
Lemma pwp_hwhen b p Q h : pwp (hwhen b p) Q h <-> (b = true /\ pwp p Q h \/ b = false /\ Q tt h).
Proof. unfold hwhen. destruct b; rewrite ?pwp_ret; naive_solver. Qed.
Lemma pwp_get_mem p Q h : pwp (get_mem p) Q h <-> exists m, hp_mem h !! p = Some m /\ Q m h.
Proof. exact (wp_getso _ _ _). Qed.
Lemma pwp_put_mem p m Q h : pwp (put_mem p m) Q h <-> Q tt (set_hp_mem (<[p := m]> (hp_mem h)) h).
Proof. done. Qed.
Lemma pwp_upd_mem p f Q h :
  pwp (upd_mem p f) Q h <-> exists m, hp_mem h !! p = Some m /\ Q tt (set_hp_mem (<[p := f m]> (hp_mem h)) h).
Proof. unfold upd_mem. by rewrite pwp_bind, pwp_get_mem. Qed.
Lemma pwp_block_at o Q h : pwp (block_at o) Q h <-> Q (u32 (heap_ptr h + o)) h.
Proof. done. Qed.
Lemma pwp_offset_of p Q h : pwp (offset_of p) Q h <-> Q (u32 (p - heap_ptr h)) h.
Proof. done. Qed.
Lemma pwp_heap_fuel Q h : pwp heap_fuel Q h <-> Q (Z.to_nat (mem_size_aligned h / SIZEOF_STRUCT_MEM + 2)) h.
Proof. done. Qed.
End accesses.
#[global] Hint Rewrite @pwp_ret @pwp_bind @pwp_hget pwp_hset pwp_hassert pwp_get_mem pwp_put_mem pwp_upd_mem pwp_block_at pwp_offset_of
  pwp_heap_fuel @runs_to_ret @runs_to_bind @runs_to_kcall @runs_to_hget runs_to_hset runs_to_hassert : wp.
#[global] Arguments pwp : simpl never.
#[global] Arguments run : simpl never.
#[global] Arguments mbind {_ _ _ _} _ _ : simpl never.
