(* ===== verification/Dynamic.v ===== *)
(** Dynamic objects: the functions of src/object.c, src/thread.c, src/timer.c and src/ipc.c that create an
    object in memory of the heap and that give it back. [RT_KERNEL_MALLOC] and [RT_KERNEL_FREE] are
    [rt_malloc] and [rt_free] of src/mem.c (include/rtthread.h), so they are programs as those are. *)

From S2P Require Import Prelude RtDef Object Scheduler Timer Thread Kernel Ipc Sem Mutex Event Mailbox MsgQueue Mem.

(** ** Addresses *)

(** An object in the heap is numbered by its address. *)
Definition addr_of (o : obj_id) : Z :=
  match o with
  | OThread n | OThreadTimer n | OTimer n | OSem n | OMutex n | OEvent n | OMailBox n | OMsgQueue n | OMemPool n => Z.of_nat n
  end.

(** The words of an object of the kernel that has been given back are no longer an object. *)
Definition forget_object (o : obj_id) (s : kernel) : kernel :=
  let s := set_objects (delete o (objects s)) s in
  match o with
  | OThread t =>
      set_timers (delete (OThreadTimer t) (timers s))
        (set_objects (delete (OThreadTimer t) (objects s)) (set_threads (delete t (threads s)) s))
  | OThreadTimer _ | OTimer _ => set_timers (delete o (timers s)) s
  | OSem n => set_sems (delete n (sems s)) s
  | OMutex n => set_mutexes (delete n (mutexes s)) s
  | OEvent n => set_events (delete n (events s)) s
  | OMailBox n => set_mailboxes (delete n (mailboxes s)) s
  | OMsgQueue n => set_msgqueues (delete n (msgqueues s)) s
  | OMemPool _ => s
  end.

(** The content of the [n] bytes and of the [n] words (little endian) at [a]. *)
Definition byte_at (h : hvars) (a : Z) : Z := default 0 (hp_bytes h !! a).
Definition bytes_at (a n : Z) (h : hvars) : list Z := (fun i => byte_at h (a + i)) <$> seqZ 0 n.
Definition word_at (h : hvars) (a : Z) : Z :=
  byte_at h a + 256 * (byte_at h (a + 1) + 256 * (byte_at h (a + 2) + 256 * byte_at h (a + 3))).
Definition words_at (a n : Z) (h : hvars) : list Z := (fun i => word_at h (a + 4 * i)) <$> seqZ 0 n.

(** ** src/object.c *)

Section create.
(** [object_size] of the class in [rt_object_container], the [sizeof] of its structure. *)
Context (object_size : Z -> Z).

(** [C] is the constructor of the class: what the caller casts the result to. *)
Definition rt_object_allocate (C : nat -> obj_id) (type : Z) (name : string) : prog (option nat) :=
  kcall RT_DEBUG_NOT_IN_INTERRUPT;;
  kcall (rt_object_get_information type);;
  p ← rt_malloc (object_size type);
  if p =? RT_NULL then mret None
  else
    let n := Z.to_nat p in
    hset (fun h => set_hp_bytes (set_bytes p 0 (Z.to_nat (object_size type)) (hp_bytes h)) h);;
    kcall (modify (fun s => set_objects (<[C n := mkObject (object_name name) type 0]> (objects s)) s));;
    kcall (l ← rt_object_get_information type; object_link (C n) type l);;
    mret (Some n).

(** The state's maps lose the object before its memory goes back to the heap: from then on any access to
    it is undefined. *)
Definition rt_object_delete (o : obj_id) : prog unit :=
  kcall (x ← get_object o; RT_ASSERT (obj_type x .& RT_Object_Class_Static =? 0));;
  kcall (upd_object o (set_obj_type 0));;
  kcall (object_unlink o);;
  kcall (modify (forget_object o));;
  rt_free (addr_of o).

(** The checks of the [..._delete] functions: the class, and that the object is dynamic. *)
Definition assert_dynamic (o : obj_id) (type : Z) : M unit :=
  assert_type o type;;
  b ← rt_object_is_systemobject o;
  RT_ASSERT (negb b).

(** ** src/timer.c *)

Definition rt_timer_create (name : string) (timeout : callback) (time flag : Z) : prog (option nat) :=
  r ← rt_object_allocate OTimer RT_Object_Class_Timer name;
  match r with
  | None => mret None
  | Some n => kcall (_rt_timer_init (OTimer n) timeout time flag);; mret (Some n)
  end.

Definition rt_timer_delete (n : nat) : prog Z :=
  kcall (assert_dynamic (OTimer n) RT_Object_Class_Timer);;
  kcall (_rt_timer_remove (OTimer n));;
  rt_object_delete (OTimer n);;
  mret RT_EOK.

(** ** src/thread.c *)

(** [rt_thread_exit_addr] is the address of [rt_thread_exit]. *)
Definition rt_thread_create (rt_thread_exit_addr : Z) (name : string)
    (entry parameter stack_size priority tick : Z) : prog (option nat) :=
  r ← rt_object_allocate OThread RT_Object_Class_Thread name;
  match r with
  | None => mret None
  | Some t =>
      stack_start ← rt_malloc stack_size;
      if stack_start =? RT_NULL then rt_object_delete (OThread t);; mret None
      else
        guard ← hget (fun h => byte_at h stack_start);
        kcall (_rt_thread_init rt_thread_exit_addr t name entry parameter stack_start stack_size (u8 priority) tick guard);;
        mret (Some t)
  end.

(** ** src/ipc.c *)

Definition rt_sem_create (name : string) (value flag : Z) : prog (option nat) :=
  kcall RT_DEBUG_NOT_IN_INTERRUPT;;
  r ← rt_object_allocate OSem RT_Object_Class_Semaphore name;
  match r with
  | None => mret None
  | Some n =>
      kcall (rt_ipc_object_init (sem_q n));;
      kcall (put_sem n (mkSem (u16 value)));;
      kcall (upd_object (OSem n) (set_obj_flag flag));;
      mret (Some n)
  end.

Definition rt_sem_delete (n : nat) : prog Z :=
  kcall RT_DEBUG_NOT_IN_INTERRUPT;;
  kcall (assert_dynamic (OSem n) RT_Object_Class_Semaphore);;
  kcall (rt_ipc_list_resume_all (sem_q n));;
  rt_object_delete (OSem n);;
  mret RT_EOK.

Definition rt_mutex_create (name : string) (flag : Z) : prog (option nat) :=
  kcall RT_DEBUG_NOT_IN_INTERRUPT;;
  r ← rt_object_allocate OMutex RT_Object_Class_Mutex name;
  match r with
  | None => mret None
  | Some n =>
      kcall (rt_ipc_object_init (mutex_q n));;
      kcall (put_mutex n (mkMutex 1 255 0 None));;
      kcall (upd_object (OMutex n) (set_obj_flag flag));;
      mret (Some n)
  end.

Definition rt_mutex_delete (n : nat) : prog Z :=
  kcall RT_DEBUG_NOT_IN_INTERRUPT;;
  kcall (assert_dynamic (OMutex n) RT_Object_Class_Mutex);;
  kcall (rt_ipc_list_resume_all (mutex_q n));;
  rt_object_delete (OMutex n);;
  mret RT_EOK.

Definition rt_event_create (name : string) (flag : Z) : prog (option nat) :=
  kcall RT_DEBUG_NOT_IN_INTERRUPT;;
  r ← rt_object_allocate OEvent RT_Object_Class_Event name;
  match r with
  | None => mret None
  | Some n =>
      kcall (upd_object (OEvent n) (set_obj_flag flag));;
      kcall (rt_ipc_object_init (event_q n));;
      kcall (put_event n (mkEvent 0));;
      mret (Some n)
  end.

Definition rt_event_delete (n : nat) : prog Z :=
  kcall (assert_dynamic (OEvent n) RT_Object_Class_Event);;
  kcall RT_DEBUG_NOT_IN_INTERRUPT;;
  kcall (rt_ipc_list_resume_all (event_q n));;
  rt_object_delete (OEvent n);;
  mret RT_EOK.

Definition rt_mb_create (name : string) (size flag : Z) : prog (option nat) :=
  kcall RT_DEBUG_NOT_IN_INTERRUPT;;
  r ← rt_object_allocate OMailBox RT_Object_Class_MailBox name;
  match r with
  | None => mret None
  | Some n =>
      kcall (upd_object (OMailBox n) (set_obj_flag flag));;
      kcall (rt_ipc_object_init (mb_q n));;
      let size := u16 size in
      msgpool ← rt_malloc (size * 4);
      if msgpool =? RT_NULL then rt_object_delete (OMailBox n);; mret None
      else
        words ← hget (words_at msgpool size);
        kcall (put_mb n (mkMailbox words size 0 0 0 msgpool));;
        kcall (rt_ipc_object_init (mb_sender_q n));;
        mret (Some n)
  end.

Definition rt_mb_delete (n : nat) : prog Z :=
  kcall RT_DEBUG_NOT_IN_INTERRUPT;;
  kcall (assert_dynamic (OMailBox n) RT_Object_Class_MailBox);;
  kcall (rt_ipc_list_resume_all (mb_q n));;
  kcall (rt_ipc_list_resume_all (mb_sender_q n));;
  mb ← kcall (get_mb n);
  rt_free (mb_pool_addr mb);;
  rt_object_delete (OMailBox n);;
  mret RT_EOK.

Definition rt_mq_delete (n : nat) : prog Z :=
  kcall RT_DEBUG_NOT_IN_INTERRUPT;;
  kcall (assert_dynamic (OMsgQueue n) RT_Object_Class_MessageQueue);;
  kcall (rt_ipc_list_resume_all (mq_q n));;
  mq ← kcall (get_mq n);
  rt_free (mq_pool_addr mq);;
  rt_object_delete (OMsgQueue n);;
  mret RT_EOK.

Definition rt_mq_create (name : string) (msg_size max_msgs flag : Z) : prog (option nat) :=
  kcall RT_DEBUG_NOT_IN_INTERRUPT;;
  r ← rt_object_allocate OMsgQueue RT_Object_Class_MessageQueue name;
  match r with
  | None => mret None
  | Some n =>
      kcall (upd_object (OMsgQueue n) (set_obj_flag flag));;
      kcall (rt_ipc_object_init (mq_q n));;
      let size := u16 (RT_ALIGN msg_size RT_ALIGN_SIZE) in
      let max := u16 max_msgs in
      kcall (put_mq n (mkMq size max 0 None None None ∅ ∅ RT_NULL));;
      msgpool ← rt_malloc (u32 ((size + 4) * max));
      if msgpool =? RT_NULL then rt_mq_delete n;; mret None
      else
        bytes ← hget (bytes_at msgpool ((size + 4) * max));
        kcall (put_mq n (mq_fresh msgpool bytes size max));;
        mret (Some n)
  end.
End create.
