(* ===== verification/Blocks.v ===== *)
(** The heap as a list of blocks: the abstract state of the allocator of [Mem], what allocation and
    release mean there, and how the headers in memory represent it. *)

From S2P Require Import Prelude RtDef Mem.

(** ** Lists of blocks *)

(** A block with its header; the first one is at offset 0 and each one begins where the last one ends. *)
Record block := mkBlock {
  b_used : bool;
  b_size : Z }.

Definition block_ok (b : block) : Prop := SIZEOF_STRUCT_MEM < b_size b /\ (4 | b_size b).

Fixpoint total (l : list block) : Z :=
  match l with [] => 0 | b :: l => b_size b + total l end.

(** The statistics: bytes in used blocks. *)
Fixpoint used_total (l : list block) : Z :=
  match l with [] => 0 | b :: l => (if b_used b then b_size b else 0) + used_total l end.

(** The free blocks' offsets; the first block of [l] is at [off]. *)
Fixpoint free_offs (off : Z) (l : list block) : list Z :=
  match l with
  | [] => []
  | b :: l => (if b_used b then [] else [off]) ++ free_offs (off + b_size b) l
  end.

(** The used blocks as offset and size. *)
Fixpoint used_blocks (off : Z) (l : list block) : list (Z * Z) :=
  match l with
  | [] => []
  | b :: l => (if b_used b then [(off, b_size b)] else []) ++ used_blocks (off + b_size b) l
  end.

(** No two neighbours are free. *)
Fixpoint no_adj (l : list block) : Prop :=
  match l with
  | [] => True
  | b :: l' => match l' with c :: _ => b_used b = true \/ b_used c = true | [] => True end /\ no_adj l'
  end.

(** ** Allocation and release *)

(** A free block taken for [size] bytes; the rest is split off if it can hold a block. *)
Definition carve (size : Z) (b : block) : list block :=
  if size + SIZEOF_STRUCT_MEM + MIN_SIZE_ALIGNED <=? b_size b - SIZEOF_STRUCT_MEM then
    [mkBlock true (size + SIZEOF_STRUCT_MEM); mkBlock false (b_size b - size - SIZEOF_STRUCT_MEM)]
  else [mkBlock true (b_size b)].

(** First fit among the free blocks at the offsets from [lf] to [bound]. *)
Fixpoint alloc_blocks (bound size lf off : Z) (l : list block) : option (Z * list block) :=
  match l with
  | [] => None
  | b :: l' =>
      if (lf <=? off) && (off <? bound) && negb (b_used b) && (size <=? b_size b - SIZEOF_STRUCT_MEM) then
        Some (off, carve size b ++ l')
      else prod_map id (cons b) <$> alloc_blocks bound size lf (off + b_size b) l'
  end.

(** The block at the offset [o] becomes free. *)
Fixpoint mark_free (o off : Z) (l : list block) : list block :=
  match l with
  | [] => []
  | b :: l' => if off =? o then mkBlock false (b_size b) :: l' else b :: mark_free o (off + b_size b) l'
  end.

(** The used block at the offset [o] keeps its first [k] bytes. *)
Fixpoint shrink_block (o k off : Z) (l : list block) : list block :=
  match l with
  | [] => []
  | b :: l' =>
      if off =? o then mkBlock true k :: mkBlock false (b_size b - k) :: l'
      else b :: shrink_block o k (off + b_size b) l'
  end.

(** Neighbouring free blocks become one. *)
Fixpoint coalesce (l : list block) : list block :=
  match l with
  | [] => []
  | b :: l' =>
      match coalesce l' with
      | c :: l'' =>
          if negb (b_used b) && negb (b_used c) then mkBlock false (b_size b + b_size c) :: l''
          else b :: c :: l''
      | [] => [b]
      end
  end.

(** The first free block at [lf] or above, or the end. *)
Definition first_free (lf : Z) (l : list block) : Z :=
  hd (total l) (filter (fun o => lf <= o) (free_offs 0 l)).

(** The block that the offset [x] is in. *)
Fixpoint start_of (x off : Z) (l : list block) : Z :=
  match l with
  | [] => off
  | b :: l' => if x <? off + b_size b then off else start_of x (off + b_size b) l'
  end.

(** ** Lemmas on lists of blocks *)

Section lists.
Implicit Types (l : list block) (b c : block).

Lemma total_app l1 l2 : total (l1 ++ l2) = total l1 + total l2.
Proof. induction l1; simpl; lia. Qed.

Lemma used_total_app l1 l2 : used_total (l1 ++ l2) = used_total l1 + used_total l2.
Proof. induction l1; simpl; lia. Qed.

Lemma free_offs_app off l1 l2 :
  free_offs off (l1 ++ l2) = free_offs off l1 ++ free_offs (off + total l1) l2.
Proof.
  revert off. induction l1 as [|b l1 IH]; intros off; simpl; [by rewrite Z.add_0_r|].
  rewrite IH, <- app_assoc. do 3 f_equal. lia.
Qed.

Lemma used_blocks_app off l1 l2 :
  used_blocks off (l1 ++ l2) = used_blocks off l1 ++ used_blocks (off + total l1) l2.
Proof.
  revert off. induction l1 as [|b l1 IH]; intros off; simpl; [by rewrite Z.add_0_r|].
  rewrite IH, <- app_assoc. do 3 f_equal. lia.
Qed.

Lemma total_nonneg l : Forall block_ok l -> 0 <= total l.
Proof. induction 1 as [|b l [Hb _] _ IH]; simpl; lia. Qed.

Lemma total_length l : Forall block_ok l -> SIZEOF_STRUCT_MEM * Z.of_nat (length l) <= total l.
Proof. induction 1 as [|b l [Hb _] _ IH]; simpl length; simpl total; lia. Qed.

Lemma total_aligned l : Forall block_ok l -> (4 | total l).
Proof. induction 1 as [|b l [_ Hb] _ IH]; simpl; [apply Z.divide_0_r|by apply Z.divide_add_r]. Qed.

Lemma used_total_le l : Forall block_ok l -> 0 <= used_total l <= total l.
Proof. induction 1 as [|b l [Hb _] _ IH]; simpl; [lia|]. destruct (b_used b); lia. Qed.

Lemma free_offs_bound o off l :
  Forall block_ok l -> o ∈ free_offs off l -> off <= o < off + total l.
Proof.
  intros Hl. revert off. induction Hl as [|b l [Hb _] Hl IH]; intros off; simpl; [by intros ?%elem_of_nil|].
  intros [Ho|Ho%IH]%elem_of_app; [|lia]. pose proof (total_nonneg l Hl).
  destruct (b_used b); [by apply elem_of_nil in Ho|]. apply list_elem_of_singleton in Ho. lia.
Qed.

Lemma used_blocks_bound o n off l :
  Forall block_ok l -> (o, n) ∈ used_blocks off l -> off <= o /\ SIZEOF_STRUCT_MEM < n /\ o + n <= off + total l.
Proof.
  intros Hl. revert off. induction Hl as [|b l [Hb _] Hl IH]; intros off; simpl; [by intros ?%elem_of_nil|].
  intros [Ho|Ho%IH]%elem_of_app; [|lia]. pose proof (total_nonneg l Hl).
  destruct (b_used b); [|by apply elem_of_nil in Ho]. apply list_elem_of_singleton in Ho. simplify_eq. lia.
Qed.

Lemma used_blocks_disjoint o n o' n' off l :
  Forall block_ok l -> (o, n) ∈ used_blocks off l -> (o', n') ∈ used_blocks off l ->
  (o = o' /\ n = n') \/ o + n <= o' \/ o' + n' <= o.
Proof.
  intros Hl. revert off. induction Hl as [|b l [Hb _] Hl IH]; intros off; simpl; [by intros ?%elem_of_nil|].
  rewrite !elem_of_app. intros [H1|H1] [H2|H2]; [| | |by eapply IH].
  - destruct (b_used b); [|by apply elem_of_nil in H1].
    apply list_elem_of_singleton in H1, H2. simplify_eq. auto.
  - apply used_blocks_bound in H2; [|done]. destruct (b_used b); [|by apply elem_of_nil in H1].
    apply list_elem_of_singleton in H1. simplify_eq. lia.
  - apply used_blocks_bound in H1; [|done]. destruct (b_used b); [|by apply elem_of_nil in H2].
    apply list_elem_of_singleton in H2. simplify_eq. lia.
Qed.

Lemma used_blocks_NoDup off l : Forall block_ok l -> NoDup (used_blocks off l).
Proof.
  intros Hl. revert off. induction Hl as [|b l [Hb _] Hl IH]; intros off; simpl; [constructor|].
  destruct (b_used b); [|apply IH]. constructor; [|apply IH]. intros Hin. apply used_blocks_bound in Hin; [lia|done].
Qed.

Lemma used_blocks_split o n off l :
  (o, n) ∈ used_blocks off l ->
  exists l1 l2, l = l1 ++ mkBlock true n :: l2 /\ o = off + total l1.
Proof.
  revert off. induction l as [|b l IH]; intros off; simpl; [by intros ?%elem_of_nil|].
  intros [H|H]%elem_of_app.
  - destruct b as [[] sz]; simpl in H; [|by apply elem_of_nil in H].
    apply list_elem_of_singleton in H. simplify_eq. exists [], l. split; [done|]. simpl. lia.
  - destruct (IH _ H) as (l1 & l2 & -> & ->). exists (b :: l1), l2. split; [done|]. simpl. lia.
Qed.

Lemma no_adj_cons b l :
  no_adj (b :: l) <-> (forall c l', l = c :: l' -> b_used b = true \/ b_used c = true) /\ no_adj l.
Proof.
  destruct l as [|c l]; simpl; [naive_solver|]. split.
  - intros [H1 H2]. split; [|done]. intros ?? [= -> ->]. done.
  - intros [H1 H2]. split; [|done]. by eapply H1.
Qed.

Lemma no_adj_app l1 l2 :
  no_adj (l1 ++ l2) <->
  no_adj l1 /\ no_adj l2 /\ (forall l1' b c l2', l1 = l1' ++ [b] -> l2 = c :: l2' -> b_used b = true \/ b_used c = true).
Proof.
  induction l1 as [|a l1 IH].
  - simpl. split; [|naive_solver]. intros H. split_and!; [done|done|]. intros [|]; done.
  - simpl app. rewrite !no_adj_cons, IH. split.
    + intros (Ha & H1 & H2 & H). split_and!; [| |done|].
      * intros c l' ->. by eapply Ha.
      * done.
      * intros [|a' l1'] b c l2' E E2; simplify_eq/=; [|by eapply H]. by eapply Ha.
    + intros ((Ha & H1) & H2 & H). split_and!; [|done|done|].
      * intros c l' E. destruct l1 as [|c' l1]; simplify_eq/=; [|by eapply Ha]. by eapply (H []).
      * intros l1' b c l2' -> E2. by eapply (H (a :: l1')).
Qed.
End lists.

(** ** Coalescing *)

Section coalesce.
Implicit Types (l : list block) (b c : block).

Lemma coalesce_cons b l :
  coalesce (b :: l) =
  match coalesce l with
  | c :: l' => if negb (b_used b) && negb (b_used c) then mkBlock false (b_size b + b_size c) :: l' else b :: c :: l'
  | [] => [b]
  end.
Proof. done. Qed.

Lemma coalesce_id l : no_adj l -> coalesce l = l.
Proof.
  induction l as [|b l IH]; [done|]. rewrite no_adj_cons. intros [Hb Hl]. rewrite coalesce_cons, IH by done.
  destruct l as [|c l]; [done|]. destruct (Hb c l eq_refl) as [->| ->]; [done|]. by rewrite andb_false_r.
Qed.

(** [n] bytes more in front of the first block. *)
Lemma no_adj_head b c l : b_used b = b_used c -> no_adj (b :: l) -> no_adj (c :: l).
Proof. rewrite !no_adj_cons. intros ->. done. Qed.

Lemma no_adj_coalesce l : no_adj (coalesce l).
Proof.
  induction l as [|b l IH]; [done|]. rewrite coalesce_cons. destruct (coalesce l) as [|c l']; [done|].
  destruct (b_used b) eqn:Eb; [|destruct (b_used c) eqn:Ec]; cbn [negb andb].
  - rewrite no_adj_cons. auto.
  - rewrite no_adj_cons. split; [|done]. intros ?? [= <- <-]. by right.
  - by eapply (no_adj_head c).
Qed.

Lemma coalesce_app l1 l2 : coalesce (l1 ++ l2) = coalesce (l1 ++ coalesce l2).
Proof.
  induction l1 as [|b l1 IH]; simpl app; [symmetry; apply coalesce_id, no_adj_coalesce|].
  by rewrite !coalesce_cons, IH.
Qed.

Lemma total_coalesce l : total (coalesce l) = total l.
Proof.
  induction l as [|b l IH]; [done|]. rewrite coalesce_cons. destruct (coalesce l) as [|c l']; simpl in *; [lia|].
  destruct (_ && _); simpl; lia.
Qed.

Lemma coalesce_ok l : Forall block_ok l -> Forall block_ok (coalesce l).
Proof.
  induction 1 as [|b l Hb Hl IH]; [done|]. rewrite coalesce_cons. destruct (coalesce l) as [|c l']; [auto|].
  destruct (_ && _); [|auto]. inversion IH as [|?? Hc]; subst. constructor; [|done].
  destruct Hb, Hc. split; simpl; [lia|]. by apply Z.divide_add_r.
Qed.

Lemma used_blocks_coalesce off l : used_blocks off (coalesce l) = used_blocks off l.
Proof.
  revert off. induction l as [|b l IH]; intros off; [done|]. rewrite coalesce_cons. simpl used_blocks at 2.
  rewrite <- IH. destruct (coalesce l) as [|c l']; [done|].
  destruct (b_used b) eqn:Eb; simpl; [by rewrite Eb|]. destruct (b_used c) eqn:Ec; simpl; rewrite ?Eb, ?Ec; [done|].
  by rewrite Z.add_assoc.
Qed.

Lemma used_total_coalesce l : used_total (coalesce l) = used_total l.
Proof.
  induction l as [|b l IH]; [done|]. rewrite coalesce_cons. simpl used_total at 2. rewrite <- IH.
  destruct (coalesce l) as [|c l']; [done|].
  destruct (b_used b) eqn:Eb; simpl; [by rewrite Eb|]. destruct (b_used c) eqn:Ec; simpl; rewrite ?Eb, ?Ec; lia.
Qed.

(** The block after [b] joins it if it is free. *)
Definition merge_next b l : list block :=
  match l with
  | c :: l' => if b_used c then b :: l else mkBlock false (b_size b + b_size c) :: l'
  | [] => [b]
  end.

Lemma coalesce_free b l : b_used b = false -> no_adj l -> coalesce (b :: l) = merge_next b l.
Proof.
  intros Hb Hl. rewrite coalesce_cons, coalesce_id by done. destruct l as [|c l]; [done|]. simpl.
  rewrite Hb. simpl. by destruct (b_used c).
Qed.

Lemma merge_next_spec b l : b_used b = false -> no_adj l -> exists n l', merge_next b l = mkBlock false n :: l' /\ no_adj (mkBlock false n :: l').
Proof.
  intros Hb Hl. rewrite <- coalesce_free by done. pose proof (no_adj_coalesce (b :: l)) as H.
  rewrite coalesce_free in * by done. destruct b as [u n]; simpl in Hb; subst. unfold merge_next in *.
  destruct l as [|c l]; [by eauto|]. destruct (b_used c); eauto.
Qed.

(** Behind a used block (or at the start) a free block only joins the next one. *)
Lemma coalesce_next l1 b l2 :
  no_adj l1 -> (forall l a, l1 = l ++ [a] -> b_used a = true) -> b_used b = false -> no_adj l2 ->
  coalesce (l1 ++ b :: l2) = l1 ++ merge_next b l2.
Proof.
  intros H1 Ha Hb H2. rewrite coalesce_app, coalesce_free by done.
  destruct (merge_next_spec b l2 Hb H2) as (n & l' & -> & H). apply coalesce_id, no_adj_app. split_and!; [done|done|].
  intros l a c l2' -> _. left. by eapply Ha.
Qed.

(** Behind a free block it joins this one too. *)
Lemma coalesce_prev l1 a b l2 n l' :
  no_adj (l1 ++ [a]) -> b_used a = false -> b_used b = false -> no_adj l2 -> merge_next b l2 = mkBlock false n :: l' ->
  coalesce (l1 ++ a :: b :: l2) = l1 ++ mkBlock false (b_size a + n) :: l'.
Proof.
  intros H1 Ha Hb H2 E. change (a :: b :: l2) with ([a] ++ b :: l2). rewrite app_assoc, coalesce_app, coalesce_free by done.
  destruct (merge_next_spec b l2 Hb H2) as (n' & l'' & E' & H). rewrite E' in *. simplify_eq.
  rewrite <- app_assoc, coalesce_app. change ([a] ++ mkBlock false n :: l') with (a :: mkBlock false n :: l').
  rewrite (coalesce_cons a), (coalesce_id (mkBlock false n :: l')) by done. cbn [b_used b_size]. rewrite Ha. cbn [negb andb]. apply coalesce_id, no_adj_app. apply no_adj_app in H1 as (H1 & _ & Hadj). split_and!; [done|by eapply (no_adj_head (mkBlock false n))|].
  intros l0 x c l3 -> E3. simplify_eq/=. left. destruct (Hadj l0 x a [] eq_refl eq_refl); congruence.
Qed.
End coalesce.

(** ** Offsets of free blocks *)

Section offsets.
Implicit Types (l : list block) (b c : block).

(** Where [lfree] may point. *)
Definition lf_ok (lf : Z) l : Prop := lf = total l \/ lf ∈ free_offs 0 l.

Lemma start_of_app_lt x off l1 l2 :
  Forall block_ok l1 -> off <= x < off + total l1 -> start_of x off (l1 ++ l2) = start_of x off l1.
Proof.
  intros H. revert off. induction H as [|b l1 [Hb _] Hl IH]; intros off; simpl; [lia|]. intros Hx.
  case_if; [done|]. apply IH. lia.
Qed.

Lemma start_of_app_ge x off l1 l2 :
  Forall block_ok l1 -> off + total l1 <= x -> start_of x off (l1 ++ l2) = start_of x (off + total l1) l2.
Proof.
  intros H. revert off. induction H as [|b l1 [Hb _] Hl IH]; intros off; simpl; [by rewrite Z.add_0_r|].
  intros Hx. pose proof (total_nonneg l1 Hl). rewrite (proj2 (Z.ltb_ge _ _)) by lia. rewrite IH by lia.
  f_equal. lia.
Qed.

Lemma start_of_free x off l : Forall block_ok l -> x ∈ free_offs off l -> start_of x off l = x.
Proof.
  intros H. revert off. induction H as [|b l [Hb _] Hl IH]; intros off; simpl; [by intros ?%elem_of_nil|].
  intros [Hx|Hx]%elem_of_app.
  - destruct (b_used b); [by apply elem_of_nil in Hx|]. apply list_elem_of_singleton in Hx. subst.
    by rewrite (proj2 (Z.ltb_lt _ _)) by lia.
  - pose proof (free_offs_bound _ _ _ Hl Hx). rewrite (proj2 (Z.ltb_ge _ _)) by lia. by apply IH.
Qed.

Lemma start_of_total off l : Forall block_ok l -> start_of (off + total l) off l = off + total l.
Proof.
  intros Hl. pose proof (start_of_app_ge (off + total l) off l [] Hl) as E. rewrite app_nil_r in E. rewrite E by lia. done.
Qed.

Lemma start_of_ok lf l : Forall block_ok l -> lf_ok lf l -> start_of lf 0 l = lf.
Proof. intros Hl [->|Hf]; [by apply (start_of_total 0)|by apply start_of_free]. Qed.

(** Replacing a part of a list by one of the same total. *)
Lemma start_of_replace x l1 m m' l2 :
  Forall block_ok l1 -> Forall block_ok m -> Forall block_ok m' -> total m' = total m -> 0 <= x ->
  (x < total l1 \/ total l1 + total m <= x) -> start_of x 0 (l1 ++ m' ++ l2) = start_of x 0 (l1 ++ m ++ l2).
Proof.
  intros H1 Hm Hm' Et Hx [Hlt|Hge].
  - by rewrite !start_of_app_lt by (done || lia).
  - pose proof (total_nonneg _ Hm). rewrite !(start_of_app_ge x 0 l1) by (done || lia). rewrite !start_of_app_ge by (done || lia). by rewrite Et.
Qed.

Lemma free_offs_replace o l1 m m' l2 :
  Forall block_ok l1 -> Forall block_ok m -> total m' = total m ->
  o ∈ free_offs 0 (l1 ++ m ++ l2) -> (o < total l1 \/ total l1 + total m <= o) -> o ∈ free_offs 0 (l1 ++ m' ++ l2).
Proof.
  intros H1 Hm Et. rewrite !free_offs_app, !elem_of_app, Et. intros [H|[H|H]] Ho; [auto| |auto].
  apply free_offs_bound in H; [lia|done].
Qed.

Lemma first_free_ok lf l : lf_ok (first_free lf l) l.
Proof.
  unfold first_free, lf_ok. destruct (filter _ _) as [|o os] eqn:E; [by left|]. right. simpl.
  assert (o ∈ filter (fun o => lf <= o) (free_offs 0 l)) as Ho by (rewrite E; by left). by apply list_elem_of_filter in Ho as [_ ?].
Qed.

Lemma filter_low lf off l :
  Forall block_ok l -> off + total l <= lf -> filter (fun o => lf <= o) (free_offs off l) = [].
Proof.
  intros Hl Ho. destruct (filter _ _) as [|o os] eqn:E; [done|].
  assert (o ∈ filter (fun o => lf <= o) (free_offs off l)) as H by (rewrite E; by left).
  apply list_elem_of_filter in H as [? H]. apply free_offs_bound in H; [lia|done].
Qed.

Lemma filter_high lf off l :
  Forall block_ok l -> lf <= off -> filter (fun o => lf <= o) (free_offs off l) = free_offs off l.
Proof.
  intros Hl. revert off. induction Hl as [|b l [Hb _] Hl IH]; intros off Ho; simpl; [done|].
  rewrite filter_app, IH by lia. destruct (b_used b); [done|].
  by rewrite filter_cons_True, filter_nil by done.
Qed.

Lemma first_free_app lf l1 l2 :
  Forall block_ok l1 -> Forall block_ok l2 -> lf = total l1 ->
  first_free lf (l1 ++ l2) = hd (lf + total l2) (free_offs lf l2).
Proof.
  intros H1 H2 ->. unfold first_free. rewrite free_offs_app, filter_app, filter_low, filter_high, total_app by (done || lia).
  done.
Qed.

Lemma first_free_ge lf l : lf <= total l -> lf <= first_free lf l.
Proof.
  intros Hlf. unfold first_free. destruct (filter _ _) as [|o os] eqn:E; [done|].
  assert (o ∈ filter (fun o => lf <= o) (free_offs 0 l)) as Ho by (rewrite E; by left). by apply list_elem_of_filter in Ho as [? _].
Qed.

(** A free block is the first one at its own offset. *)
Lemma first_free_self lf l : Forall block_ok l -> lf_ok lf l -> first_free lf l = lf.
Proof.
  intros Hl [->|Hf]; unfold first_free; [by rewrite filter_low by (done || lia)|].
  assert (forall off, lf ∈ free_offs off l -> forall d, hd d (filter (fun o => lf <= o) (free_offs off l)) = lf) as H; [|by apply H].
  clear Hf. induction Hl as [|b l [Hb _] Hl IH]; intros off; simpl; [by intros ?%elem_of_nil|]. intros Ho d.
  rewrite filter_app. destruct (b_used b); [by apply IH|]. apply elem_of_app in Ho as [Ho|Ho].
  - apply list_elem_of_singleton in Ho. subst. by rewrite filter_cons_True.
  - pose proof (free_offs_bound _ _ _ Hl Ho). rewrite filter_cons_False, filter_nil by lia. by apply IH.
Qed.

(** A free block at [lf] cuts the list. *)
Lemma lf_ok_split lf l : lf_ok lf l -> exists l1 l2, l = l1 ++ l2 /\ lf = total l1 /\ (l2 = [] \/ exists n l2', l2 = mkBlock false n :: l2').
Proof.
  intros [->|Hf]; [exists l, []; rewrite app_nil_r; auto|].
  cut (forall off, lf ∈ free_offs off l -> exists l1 l2, l = l1 ++ l2 /\ lf = off + total l1 /\ exists n l2', l2 = mkBlock false n :: l2').
  { intros H. destruct (H 0 Hf) as (l1 & l2 & -> & -> & ?). eauto 10. }
  clear Hf. induction l as [|[u n] l IH]; intros off; simpl; [by intros ?%elem_of_nil|]. intros [Ho|Ho]%elem_of_app.
  - destruct u; [by apply elem_of_nil in Ho|]. apply list_elem_of_singleton in Ho as ->. exists [], (mkBlock false n :: l).
    simpl. split_and!; [done|lia|eauto].
  - destruct (IH _ Ho) as (l1 & l2 & -> & -> & ?). exists (mkBlock u n :: l1), l2. simpl. split_and!; [done|lia|done].
Qed.
End offsets.

(** ** First fit *)

Section alloc.
Implicit Types (l : list block) (b c : block).

Lemma alloc_skip bound size lf off l1 l2 :
  Forall block_ok l1 -> off + total l1 <= lf ->
  alloc_blocks bound size lf off (l1 ++ l2) =
    prod_map id (app l1) <$> alloc_blocks bound size lf (off + total l1) l2.
Proof.
  intros Hl. revert off. induction Hl as [|b l1 [Hb _] Hl IH]; intros off; simpl.
  - rewrite Z.add_0_r. by destruct (alloc_blocks _ _ _ _ _) as [[]|].
  - intros Ho. pose proof (total_nonneg _ Hl). rewrite (proj2 (Z.leb_gt lf off)) by lia. simpl. rewrite IH by lia.
    rewrite Z.add_assoc. by destruct (alloc_blocks _ _ _ _ _) as [[]|].
Qed.

Lemma alloc_bound bound size lf off l : Forall block_ok l -> bound <= off -> alloc_blocks bound size lf off l = None.
Proof.
  intros Hl. revert off. induction Hl as [|b l [Hb _] Hl IH]; intros off Ho; simpl; [done|].
  rewrite (proj2 (Z.ltb_ge off bound)) by lia. rewrite andb_false_r. simpl. by rewrite IH by lia.
Qed.

Lemma alloc_blocks_spec bound size lf off l o l' :
  alloc_blocks bound size lf off l = Some (o, l') ->
  exists l1 n l2, l = l1 ++ mkBlock false n :: l2 /\ o = off + total l1 /\ l' = l1 ++ carve size (mkBlock false n) ++ l2 /\
    size <= n - SIZEOF_STRUCT_MEM /\ lf <= o < bound.
Proof.
  revert off l'. induction l as [|b l IH]; intros off l'; simpl; [done|].
  destruct (_ && _) eqn:E.
  - intros [= <- <-]. destruct b as [u n]. simpl in E. exists [], n, l. destruct u; [by rewrite andb_false_r in E|].
    simpl. split_and!; [done|lia|done|lia..].
  - destruct (alloc_blocks _ _ _ _ l) as [[o1 l3]|] eqn:E1; [|done]. intros [= <- <-].
    destruct (IH _ _ E1) as (l1 & n & l2 & -> & -> & -> & ?). exists (b :: l1), n, l2. simpl. split_and!; [done|lia|done|lia..].
Qed.

(** No free block is passed over. *)
Lemma alloc_blocks_none bound size lf off l :
  alloc_blocks bound size lf off l = None ->
  forall l1 n l2, l = l1 ++ mkBlock false n :: l2 -> lf <= off + total l1 < bound -> n - SIZEOF_STRUCT_MEM < size.
Proof.
  revert off. induction l as [|b l IH]; intros off E [|c l1] n l2 El Hb; simplify_eq/=.
  - destruct (Z.lt_ge_cases (n - SIZEOF_STRUCT_MEM) size); [done|].
    rewrite (proj2 (Z.leb_le lf off)), (proj2 (Z.ltb_lt off bound)), (proj2 (Z.leb_le size _)) in E by lia. done.
  - destruct (_ && _); [done|]. apply fmap_None in E. apply (IH _ E l1 n l2 eq_refl). lia.
Qed.

Section carve.
Context (size n : Z).
Hypotheses (Hs : MIN_SIZE_ALIGNED <= size) (Ha : (4 | size)) (Hn : (4 | n)) (Hfit : size <= n - SIZEOF_STRUCT_MEM).

Lemma carve_total : total (carve size (mkBlock false n)) = n.
Proof. unfold carve. simpl. case_if; simpl; lia. Qed.

Lemma carve_ok : Forall block_ok (carve size (mkBlock false n)).
Proof using Ha Hfit Hn Hs.
  assert (4 | SIZEOF_STRUCT_MEM) by (by exists 3). unfold carve. simpl.
  case_if; repeat constructor; simpl; try lia; try done; auto using Z.divide_add_r, Z.divide_sub_r.
Qed.

Lemma carve_no_adj l1 l2 :
  no_adj (l1 ++ mkBlock false n :: l2) -> no_adj (l1 ++ carve size (mkBlock false n) ++ l2).
Proof.
  rewrite !no_adj_app, no_adj_cons. intros (H1 & (H2 & H3) & H). split_and!; [done| |done| |].
  - unfold carve. simpl. case_if; simpl; auto.
  - intros l1' b c l2' E ->. unfold carve in E. destruct (_ <=? _).
    + right. by destruct (H2 c l2').
    + destruct l1' as [|? []]; simplify_eq/=. by left.
  - intros l1' b c l2' -> E. right. unfold carve in E. destruct (_ <=? _); by simplify_eq/=.
Qed.

(** The new used block. *)
Lemma carve_used off : exists m, used_blocks off (carve size (mkBlock false n)) = [(off, m)] /\
  size + SIZEOF_STRUCT_MEM <= m <= n /\ used_total (carve size (mkBlock false n)) = m.
Proof. unfold carve. simpl. case_if; simpl; eexists; (split; [done|]); lia. Qed.

(** [lfree] at another free block stays valid. *)
Lemma lf_ok_carve lf l1 l2 :
  Forall block_ok l1 -> Forall block_ok l2 -> lf ≠ total l1 ->
  lf_ok lf (l1 ++ mkBlock false n :: l2) -> lf_ok lf (l1 ++ carve size (mkBlock false n) ++ l2).
Proof using Ha Hfit Hn Hs.
  intros H1 H2 Hne [Hlf|Hlf]; [left; rewrite !total_app, carve_total in *; simpl in *; lia|]. right.
  apply (free_offs_replace lf l1 [mkBlock false n]); [done| |simpl; rewrite carve_total; lia|done|].
  { constructor; [|done]. split; simpl; [lia|done]. }
  rewrite free_offs_app in Hlf. apply elem_of_app in Hlf as [Hlf|Hlf]; simpl in Hlf.
  - apply free_offs_bound in Hlf; [lia|done].
  - apply elem_of_cons in Hlf as [->|Hlf]; [done|]. apply free_offs_bound in Hlf; [simpl; lia|done].
Qed.

(** Releasing it gives the old list back. *)
Lemma carve_free off l1 l2 :
  Forall block_ok l1 -> no_adj (l1 ++ mkBlock false n :: l2) ->
  coalesce (mark_free (off + total l1) off (l1 ++ carve size (mkBlock false n) ++ l2)) = l1 ++ mkBlock false n :: l2.
Proof.
  intros Hl1 Hadj.
  assert (forall b l, mark_free (off + total l1) off (l1 ++ b :: l) = l1 ++ mkBlock false (b_size b) :: l) as Em.
  { intros b l. clear Hadj. revert off. induction Hl1 as [|a l1 [Hb _] Hl IH]; intros off; simpl.
    - by rewrite (proj2 (Z.eqb_eq _ _)) by lia.
    - pose proof (total_nonneg _ Hl). rewrite (proj2 (Z.eqb_neq _ _)) by lia. by rewrite Z.add_assoc, IH. }
  unfold carve. simpl b_size. case_if; simpl app; rewrite Em; simpl b_size; [|by apply coalesce_id].
  pose proof Hadj as Hadj'. apply no_adj_app in Hadj' as (_ & [H2 H3]%no_adj_cons & _).
  set (r := mkBlock false _ :: l2). assert (coalesce r = r) as Er.
  { apply coalesce_id. by eapply (no_adj_head (mkBlock false n)), no_adj_cons. }
  rewrite coalesce_app, coalesce_cons, Er. unfold r. cbn [b_used b_size negb andb].
  replace (size + 12 + (n - size - 12)) with n by lia. by apply coalesce_id.
Qed.
End carve.
End alloc.
