(* ===== verification/HeapRep.v ===== *)
(** How the headers in memory represent the blocks of the heap ([Blocks]), and the critical sections of
    [Mem] against that representation. *)

From S2P Require Import Prelude RtDef Mem Blocks.

(** ** Headers *)

Definition header (prev off : Z) (b : block) : heap_mem :=
  mkHeapMem HEAP_MAGIC (Z.b2z (b_used b)) (off + b_size b) prev.

(** The headers of the blocks [l], the first of which is at [off] behind the block at [prev]. *)
Fixpoint seg_at (m : gmap Z heap_mem) (base prev off : Z) (l : list block) : Prop :=
  match l with
  | [] => True
  | b :: l => m !! (base + off) = Some (header prev off b) /\ seg_at m base off (off + b_size b) l
  end.

(** The same with [heap_end] behind them, whose [prev] is not looked at. *)
Fixpoint rest_at (m : gmap Z heap_mem) (base prev off : Z) (l : list block) : Prop :=
  match l with
  | [] => exists p, m !! (base + off) = Some (mkHeapMem HEAP_MAGIC 1 off p)
  | b :: l => m !! (base + off) = Some (header prev off b) /\ rest_at m base off (off + b_size b) l
  end.

Fixpoint last_off (prev off : Z) (l : list block) : Z :=
  match l with [] => prev | b :: l => last_off off (off + b_size b) l end.

Section headers.
Implicit Types (m : gmap Z heap_mem) (l : list block) (b c : block).

Lemma last_off_snoc prev off l b : last_off prev off (l ++ [b]) = off + total l.
Proof. revert prev off. induction l as [|a l IH]; intros prev off; simpl; [lia|]. rewrite IH. lia. Qed.

Lemma rest_at_app m base prev off l1 l2 :
  rest_at m base prev off (l1 ++ l2) <->
  seg_at m base prev off l1 /\ rest_at m base (last_off prev off l1) (off + total l1) l2.
Proof.
  revert prev off. induction l1 as [|b l1 IH]; intros prev off; simpl; [rewrite Z.add_0_r; naive_solver|].
  rewrite IH, Z.add_assoc. tauto.
Qed.

Lemma seg_at_ext m m' base prev off l :
  Forall block_ok l -> (forall a, base + off <= a < base + off + total l -> m' !! a = m !! a) ->
  seg_at m base prev off l -> seg_at m' base prev off l.
Proof.
  intros Hl. revert prev off. induction Hl as [|b l [Hb _] Hl IH]; intros prev off Hm; simpl in *; [done|].
  pose proof (total_nonneg _ Hl). intros [H1 H2]. rewrite Hm by lia. split; [done|]. apply IH; [|done]. intros. apply Hm. lia.
Qed.

Lemma rest_at_ext m m' base prev off l :
  Forall block_ok l -> (forall a, base + off <= a -> m' !! a = m !! a) ->
  rest_at m base prev off l -> rest_at m' base prev off l.
Proof.
  intros Hl. revert prev off. induction Hl as [|b l [Hb _] Hl IH]; intros prev off Hm; simpl in *.
  - by rewrite Hm by lia.
  - intros [H1 H2]. rewrite Hm by lia. split; [done|]. apply IH; [|done]. intros. apply Hm. lia.
Qed.

(** The header at the beginning of [l]. *)
Lemma rest_at_head m base prev off l :
  rest_at m base prev off l -> exists h, m !! (base + off) = Some h /\
    hm_used h = match l with b :: _ => Z.b2z (b_used b) | [] => 1 end /\
    hm_next h = match l with b :: _ => off + b_size b | [] => off end /\ hm_magic h = HEAP_MAGIC.
Proof. destruct l as [|b l]; simpl; [intros (p & Hp)|intros [Hp _]]; rewrite Hp; eauto 10. Qed.

(** Its link back may be changed. *)
Lemma rest_at_set_prev m base prev off l h p :
  Forall block_ok l -> rest_at m base prev off l -> m !! (base + off) = Some h ->
  rest_at (<[base + off := set_hm_prev p h]> m) base p off l.
Proof.
  intros Hl. destruct l as [|b l]; simpl.
  - intros (q & Hq) E. rewrite lookup_insert_eq. simplify_eq. eexists. done.
  - intros [H1 H2] E. rewrite lookup_insert_eq. simplify_eq. split; [done|]. inversion Hl as [|?? [Hb _] Hl']; subst.
    eapply rest_at_ext; [done| |done]. intros a Ha. apply lookup_insert_ne. lia.
Qed.

(** A change behind the blocks [l1]. *)
Lemma rest_at_suffix m m' base prev off l1 l2 l2' :
  Forall block_ok l1 -> rest_at m base prev off (l1 ++ l2) ->
  (forall a, a < base + off + total l1 -> m' !! a = m !! a) ->
  rest_at m' base (last_off prev off l1) (off + total l1) l2' -> rest_at m' base prev off (l1 ++ l2').
Proof.
  intros Hl H Hm H'. apply rest_at_app in H as [H _]. apply rest_at_app. split; [|done].
  eapply seg_at_ext; [done| |done]. intros a Ha. apply Hm. lia.
Qed.

(** Two neighbours become one block. *)
Lemma rest_at_merge m base prev off b c l h h' q :
  block_ok b -> block_ok c -> Forall block_ok l -> rest_at m base prev off (b :: c :: l) ->
  m !! (base + off) = Some h -> q = off + b_size b + b_size c ->
  <[base + off := set_hm_next q h]> m !! (base + q) = Some h' ->
  rest_at (<[base + q := set_hm_prev off h']> (<[base + off := set_hm_next q h]> m)) base prev off
    (mkBlock (b_used b) (b_size b + b_size c) :: l).
Proof.
  intros [Hb _] [Hc _] Hl (H1 & H2 & H3) E Eq E'. simplify_eq. simpl. split.
  - rewrite lookup_insert_ne by lia. rewrite lookup_insert_eq. unfold header, set_hm_next. simpl. do 2 f_equal. lia.
  - replace (off + (b_size b + b_size c)) with (off + b_size b + b_size c) by lia. eapply rest_at_set_prev; [done| |done]. eapply rest_at_ext; [done| |exact H3].
    intros a Ha. apply lookup_insert_ne. lia.
Qed.

(** A block is split in two, and the block behind it links back to the second part. *)
Lemma rest_at_split m base prev off b l n u q h :
  block_ok b -> Forall block_ok l -> rest_at m base prev off (b :: l) ->
  SIZEOF_STRUCT_MEM <= n -> n + SIZEOF_STRUCT_MEM <= b_size b -> q = off + b_size b ->
  let m1 := <[base + off := mkHeapMem HEAP_MAGIC (Z.b2z u) (off + n) prev]>
    (<[base + (off + n) := mkHeapMem HEAP_MAGIC 0 q off]> m) in
  m1 !! (base + q) = Some h ->
  rest_at (match l with [] => m1 | _ => <[base + q := set_hm_prev (off + n) h]> m1 end) base prev off
    (mkBlock u n :: mkBlock false (b_size b - n) :: l).
Proof.
  intros [Hb _] Hl [H1 H2] Hn Hn' -> m1 E.
  assert (rest_at m1 base off (off + b_size b) l) as Hm1.
  { eapply rest_at_ext; [done| |exact H2]. intros a Ha. unfold m1. by rewrite !lookup_insert_ne by lia. }
  set (m2 := match l with [] => _ | _ => _ end).
  assert (rest_at m2 base (off + n) (off + b_size b) l) as Hm2.
  { unfold m2. destruct l as [|c l]; [done|]. by eapply rest_at_set_prev. }
  assert (forall a, a < base + (off + b_size b) -> m2 !! a = m1 !! a) as Hlow.
  { intros a Ha. unfold m2. destruct l; [done|]. rewrite lookup_insert_ne by lia. done. }
  simpl. rewrite !Hlow by lia. unfold m1. rewrite lookup_insert_eq, lookup_insert_ne, lookup_insert_eq by lia.
  unfold header. simpl. split_and!; [done|do 2 f_equal; lia|]. by replace (off + n + (b_size b - n)) with (off + b_size b) by lia.
Qed.

(** The used flag of a block. *)
Lemma rest_at_used m base prev off b l u h :
  block_ok b -> Forall block_ok l -> rest_at m base prev off (b :: l) -> m !! (base + off) = Some h ->
  rest_at (<[base + off := set_hm_magic HEAP_MAGIC (set_hm_used (Z.b2z u) h)]> m) base prev off (mkBlock u (b_size b) :: l).
Proof.
  intros [Hb _] Hl [H1 H2] E. simplify_eq. simpl. rewrite lookup_insert_eq. split; [done|].
  eapply rest_at_ext; [done| |exact H2]. intros a Ha. apply lookup_insert_ne. lia.
Qed.
End headers.

(** ** The representation *)

(** The geometry, and the headers of the blocks [l]. *)
Record heap_shape (l : list block) (h : hvars) : Prop := {
  hs_base : 0 <= heap_ptr h;
  hs_align : (4 | heap_ptr h);
  hs_size : MIN_SIZE_ALIGNED <= mem_size_aligned h;
  hs_top : heap_ptr h + mem_size_aligned h + 2 * SIZEOF_STRUCT_MEM < 2 ^ 32;
  hs_end : heap_end h = heap_ptr h + mem_size_aligned h + SIZEOF_STRUCT_MEM;
  hs_total : total l = mem_size_aligned h + SIZEOF_STRUCT_MEM;
  hs_blocks : Forall block_ok l;
  hs_rest : rest_at (hp_mem h) (heap_ptr h) 0 0 l;
}.

(** The heap consists of the blocks [l], and [lfree] is at the offset [lf]. *)
Record heap_rep (l : list block) (lf : Z) (h : hvars) : Prop := {
  hr_shape : heap_shape l h;
  hr_adj : no_adj l;
  hr_lfree : lfree h = heap_ptr h + lf;
  hr_lf : lf_ok lf l;
  hr_used : used_mem h = used_total l;
  hr_max : used_mem h <= max_mem h;
}.

(** What a critical section leaves alone. *)
Record vars_frame (h h' : hvars) : Prop := {
  hf_bytes : hp_bytes h' = hp_bytes h;
  hf_ptr : heap_ptr h' = heap_ptr h;
  hf_end : heap_end h' = heap_end h;
  hf_size : mem_size_aligned h' = mem_size_aligned h;
}.

#[export] Instance vars_frame_preorder : PreOrder vars_frame.
Proof. split; [by split|]. intros h1 h2 h3 [] []. split; congruence. Qed.

Lemma shape_update l l' h h' :
  heap_shape l h -> vars_frame h h' -> total l' = total l -> Forall block_ok l' ->
  rest_at (hp_mem h') (heap_ptr h) 0 0 l' -> heap_shape l' h'.
Proof. intros [] [E1 E2 E3 E4] Et Hl Hr. split; rewrite ?E2, ?E3, ?E4, ?Et; done. Qed.

Section shape.
Context {l1 l2 : list block} {h : hvars}.
Hypothesis Hs : heap_shape (l1 ++ l2) h.

Lemma shape_blocks : Forall block_ok l1 /\ Forall block_ok l2.
Proof. apply Forall_app, (hs_blocks _ _ Hs). Qed.

(** The offset behind [l1] and its address are below the end. *)
Lemma shape_bounds :
  0 <= total l1 /\ total l1 + total l2 = mem_size_aligned h + SIZEOF_STRUCT_MEM /\ 0 <= total l2 /\ 0 <= heap_ptr h /\
  heap_ptr h + mem_size_aligned h + 2 * SIZEOF_STRUCT_MEM < 2 ^ 32.
Proof.
  destruct shape_blocks as [H1 H2]. pose proof (total_nonneg _ H1). pose proof (total_nonneg _ H2).
  pose proof (hs_total _ _ Hs) as Ht. rewrite total_app in Ht. pose proof (hs_top _ _ Hs). pose proof (hs_base _ _ Hs). auto.
Qed.

Lemma shape_head : exists m, hp_mem h !! (heap_ptr h + total l1) = Some m /\
  hm_used m = match l2 with b :: _ => Z.b2z (b_used b) | [] => 1 end /\
  hm_next m = match l2 with b :: _ => total l1 + b_size b | [] => total l1 end /\ hm_magic m = HEAP_MAGIC.
Proof.
  pose proof (hs_rest _ _ Hs) as H. apply rest_at_app in H as [_ H]. by apply rest_at_head in H.
Qed.
End shape.

Lemma shape_header l1 b l2 h :
  heap_shape (l1 ++ b :: l2) h -> hp_mem h !! (heap_ptr h + total l1) = Some (header (last_off 0 0 l1) (total l1) b).
Proof. intros Hs. pose proof (hs_rest _ _ Hs) as H. by apply rest_at_app in H as (_ & ? & _). Qed.

(** The block in front of the offset [total l1]. *)
Lemma shape_prev l1 b l2 h :
  heap_shape (l1 ++ b :: l2) h ->
  0 <= last_off 0 0 l1 <= total l1 /\ exists p, hp_mem h !! (heap_ptr h + last_off 0 0 l1) = Some p.
Proof.
  intros Hs. destruct l1 as [|a l1 _] using rev_ind; [split; [simpl; lia|]; eexists; exact (shape_header [] _ _ _ Hs)|].
  pose proof (shape_blocks Hs) as [[H1 Ha]%Forall_app _]. inversion_clear Ha as [|?? [Has _] _].
  pose proof (total_nonneg _ H1). rewrite last_off_snoc, total_app. simpl. split; [lia|].
  rewrite <- app_assoc in Hs. eexists. exact (shape_header _ _ _ _ Hs).
Qed.

(** ** Offsets of merged blocks *)

Lemma start_of_bound x off l : Forall block_ok l -> off <= x -> off <= start_of x off l <= x.
Proof.
  intros Hl. revert off. induction Hl as [|b l [Hb _] Hl IH]; intros off Hx; simpl; [lia|].
  case_if; [lia|]. pose proof (IH (off + b_size b)). lia.
Qed.

Lemma start_of_idem x off l : Forall block_ok l -> off <= x -> start_of (start_of x off l) off l = start_of x off l.
Proof.
  intros Hl. revert off. induction Hl as [|b l [Hb _] Hl IH]; intros off Hx; simpl; [done|].
  destruct (Z.ltb_spec x (off + b_size b)).
  - by rewrite (proj2 (Z.ltb_lt _ _)) by lia.
  - pose proof (start_of_bound x (off + b_size b) l Hl). rewrite (proj2 (Z.ltb_ge _ _)) by lia. apply IH. lia.
Qed.

Lemma lf_ok_nonneg lf l : Forall block_ok l -> lf_ok lf l -> 0 <= lf.
Proof. intros Hl [->|Hf]; [by apply total_nonneg|]. apply free_offs_bound in Hf; [lia|done]. Qed.

Section merge.
Context (l1 l2 : list block) (b c : block).
Hypotheses (H1 : Forall block_ok l1) (H2 : Forall block_ok (b :: c :: l2)).
Let d := mkBlock false (b_size b + b_size c).

Lemma merged_ok : block_ok d.
Proof.
  inversion_clear H2 as [|?? [Hb Hb4] H]. inversion_clear H as [|?? [Hc Hc4] _].
  split; simpl; [lia|]. by apply Z.divide_add_r.
Qed.

Lemma start_of_merge x : 0 <= x ->
  start_of (start_of x 0 (l1 ++ b :: c :: l2)) 0 (l1 ++ d :: l2) = start_of x 0 (l1 ++ d :: l2).
Proof.
  intros Hx. inversion_clear H2 as [|?? [Hb _] H]. inversion_clear H as [|?? [Hc _] Hl2]. pose proof (total_nonneg _ H1).
  destruct (Z.lt_ge_cases x (total l1)).
  - rewrite !(start_of_app_lt x) by (done || lia). pose proof (start_of_bound x 0 l1 H1 Hx).
    rewrite start_of_app_lt by (done || lia). by apply start_of_idem.
  - rewrite !(start_of_app_ge x) by (done || lia). rewrite Z.add_0_l. cbn [start_of b_size d].
    rewrite !Z.add_assoc. destruct (Z.ltb_spec x (total l1 + b_size b)); [|destruct (Z.ltb_spec x (total l1 + b_size b + b_size c))].
    + rewrite (proj2 (Z.ltb_lt x _)) by lia. rewrite start_of_app_ge by (done || lia). simpl.
      by rewrite (proj2 (Z.ltb_lt _ _)) by lia.
    + rewrite start_of_app_ge by (done || lia). simpl. by rewrite (proj2 (Z.ltb_lt _ _)) by lia.
    + pose proof (start_of_bound x (total l1 + b_size b + b_size c) l2 Hl2).
      rewrite start_of_app_ge by (done || lia). simpl. rewrite (proj2 (Z.ltb_ge _ _)) by lia. rewrite !Z.add_assoc.
      apply start_of_idem; [done|lia].
Qed.

(** [lfree] when the block behind it or the one it designates is merged. *)
Lemma merge_lf lf :
  b_used b = false -> lf_ok lf (l1 ++ b :: c :: l2) ->
  let lf' := if lf =? total l1 + b_size b then total l1 else lf in
  lf' = start_of lf 0 (l1 ++ d :: l2) /\ lf_ok lf' (l1 ++ d :: l2).
Proof.
  intros Hb Hlf. pose proof merged_ok as Hd. inversion_clear H2 as [|?? [Hb' _] H]. inversion_clear H as [|?? [Hc _] Hl2].
  pose proof (total_nonneg _ H1). pose proof (total_nonneg _ Hl2).
  assert (Forall block_ok (l1 ++ d :: l2)) as Hall by (apply Forall_app; auto).
  assert (total (l1 ++ d :: l2) = total (l1 ++ b :: c :: l2)) as Et by (rewrite !total_app; simpl; lia).
  assert (total l1 ∈ free_offs 0 (l1 ++ d :: l2)) as Hd1 by (rewrite free_offs_app, elem_of_app; right; by left).
  cbv zeta. case_if.
  { subst lf. split; [|by right]. rewrite start_of_app_ge by (done || lia). simpl. by rewrite (proj2 (Z.ltb_lt _ _)) by lia. }
  assert (lf_ok lf (l1 ++ d :: l2)) as Hok; [|by rewrite start_of_ok].
  destruct Hlf as [->|Hin]; [left; done|]. rewrite free_offs_app in Hin. apply elem_of_app in Hin as [Hin|Hin].
  - right. rewrite free_offs_app. apply elem_of_app. by left.
  - simpl in Hin. rewrite Hb in Hin. apply elem_of_cons in Hin as [->|[Hin|Hin]%elem_of_app]; [by right| |].
    + destruct (b_used c); [by apply elem_of_nil in Hin|]. by apply list_elem_of_singleton in Hin.
    + right. rewrite free_offs_app. apply elem_of_app. right. simpl. apply elem_of_cons. right. by rewrite Z.add_assoc.
Qed.
End merge.

(** ** [plug_holes] *)

Lemma wp_join l1 b c l2 lf h Q :
  heap_shape (l1 ++ b :: c :: l2) h -> b_used b = false -> lfree h = heap_ptr h + lf -> lf_ok lf (l1 ++ b :: c :: l2) ->
  (forall h' l', l' = l1 ++ mkBlock false (b_size b + b_size c) :: l2 -> heap_shape l' h' -> vars_frame h h' ->
     used_mem h' = used_mem h -> max_mem h' = max_mem h ->
     lfree h' = heap_ptr h + start_of lf 0 l' -> lf_ok (start_of lf 0 l') l' -> Q tt h') ->
  pwp (join (heap_ptr h + total l1) (heap_ptr h + (total l1 + b_size b)) (total l1 + b_size b + b_size c)) Q h.
Proof.
  intros Hs Hb Elf Hlf HQ. pose proof (shape_bounds Hs) as Hbd. pose proof (shape_blocks Hs) as [H1 H2].
  pose proof (merge_lf l1 l2 b c H1 H2 lf Hb Hlf) as [Estart Hok]. pose proof (merged_ok l2 b c H2) as Hd.
  inversion_clear H2 as [|?? Hb' H]. inversion_clear H as [|?? Hc Hl2].
  pose proof Hb' as [Hbs _]. pose proof Hc as [Hcs _]. pose proof (total_nonneg _ Hl2). simpl in Hbd.
  pose proof Hs as [B1 B2 B3 B4 B5 B6 B7 B8].
  pose proof (proj1 (rest_at_app _ _ _ _ _ _) B8) as [Hseg Hrest]. simpl in Hrest. destruct Hrest as (E1 & E2 & E3).
  set (q := total l1 + b_size b + b_size c) in *. rewrite Z.add_0_l in *.
  set (lf' := if lf =? total l1 + b_size b then total l1 else lf) in *.
  destruct (rest_at_head _ _ _ _ _ E3) as (hn & En & _). fold q in En, E3.
  unfold join. wp_norm.
  set (h1 := if lf =? total l1 + b_size b then set_lfree (heap_ptr h + total l1) h else h).
  cut (pwp (upd_mem (heap_ptr h + total l1) (set_hm_next q);; p ← block_at q; o ← offset_of (heap_ptr h + total l1); upd_mem p (set_hm_prev o)) Q h1).
  { rewrite pwp_hwhen. rewrite Elf. intros Hw. destruct (Z.eqb_spec lf (total l1 + b_size b)) as [->|Hne].
    - left. split; [apply Z.eqb_refl|]. by rewrite pwp_hset.
    - right. split; [apply Z.eqb_neq; lia|done]. }
  assert (hp_mem h1 = hp_mem h /\ vars_frame h h1 /\ used_mem h1 = used_mem h /\ max_mem h1 = max_mem h /\
    lfree h1 = heap_ptr h + lf') as (Em & Hf & Eu & Ex & El).
  { unfold h1, lf'. destruct (lf =? _); done. }
  wp_norm. rewrite Em. eexists. split; [exact E1|]. wp_norm. rewrite !u32_small by (simpl; rewrite (hf_ptr _ _ Hf); lia).
  simpl. rewrite (hf_ptr _ _ Hf), Z.add_simpl_l. exists hn. split; [by rewrite lookup_insert_ne by lia|].
  eapply HQ; [reflexivity| |by destruct Hf|done|done|by rewrite <- Estart|by rewrite <- Estart].
  apply (shape_update (l1 ++ b :: c :: l2) _ h); [done|by destruct Hf|by rewrite !total_app; simpl; lia| |].
  - apply Forall_app. auto.
  - eapply rest_at_suffix; [done|exact B8| |].
    + intros a Ha. simpl. rewrite !lookup_insert_ne by lia. done.
    + simpl hp_mem. rewrite <- Hb. rewrite !Z.add_0_l. eapply rest_at_merge; [done|done|done|by split_and!|exact E1|done|].
      by rewrite lookup_insert_ne by lia.
Qed.

Lemma wp_when_false (b : bool) m Q (h : hvars) : b = false -> Q tt h -> pwp (hwhen b m) Q h.
Proof. by intros ->. Qed.
Lemma wp_when_true (b : bool) m Q (h : hvars) : b = true -> pwp m Q h -> pwp (hwhen b m) Q h.
Proof. by intros ->. Qed.

(** The first half: the block behind the free block [b] joins it if it is free. *)
Lemma wp_plug_forward l1 b l2 lf h m n Q :
  heap_shape (l1 ++ b :: l2) h -> b_used b = false -> lfree h = heap_ptr h + lf -> lf_ok lf (l1 ++ b :: l2) ->
  hp_mem h !! (heap_ptr h + total l1) = Some m -> hp_mem h !! (heap_ptr h + (total l1 + b_size b)) = Some n ->
  (forall h' l', l' = l1 ++ merge_next b l2 -> heap_shape l' h' -> vars_frame h h' ->
     used_mem h' = used_mem h -> max_mem h' = max_mem h ->
     lfree h' = heap_ptr h + start_of lf 0 l' -> lf_ok (start_of lf 0 l') l' -> Q tt h') ->
  let mem := heap_ptr h + total l1 in
  let nmem := heap_ptr h + (total l1 + b_size b) in
  pwp (hwhen (negb (mem =? nmem) && (hm_used n =? 0) && negb (nmem =? heap_end h)) (join mem nmem (hm_next n))) Q h.
Proof.
  intros Hs Hb Elf Hlf Em En HQ mem nmem. pose proof (shape_blocks Hs) as [H1 H2].
  inversion H2 as [|?? [Hbs _] Hl2]; subst.
  assert (heap_shape ((l1 ++ [b]) ++ l2) h) as Hs' by (by rewrite <- app_assoc).
  destruct (shape_head Hs') as (n' & En' & Hu & Hnx & _).
  assert (total (l1 ++ [b]) = total l1 + b_size b) as Et by (rewrite total_app; simpl; lia).
  rewrite Et in *. simplify_eq. pose proof (shape_bounds Hs') as (_ & Htot & Hpos & _). rewrite Et in Htot.
  rewrite (hs_end _ _ Hs). unfold merge_next in HQ. destruct l2 as [|c l2].
  - apply wp_when_false; [rewrite Hu; by rewrite andb_false_r|].
    eapply HQ; [reflexivity|done..| |]; by rewrite start_of_ok by (done || apply Hs).
  - inversion Hl2 as [|?? [Hcs _] Hl3]; subst. pose proof (total_nonneg _ Hl3). simpl in Htot.
    destruct (b_used c) eqn:Hc.
    + apply wp_when_false; [rewrite Hu; by rewrite andb_false_r|].
      eapply HQ; [reflexivity|done..| |]; by rewrite start_of_ok by (done || apply Hs).
    + apply wp_when_true.
      { rewrite Hu. subst mem nmem. rewrite (proj2 (Z.eqb_neq (_ + _) (_ + (_ + _)))) by lia.
        by rewrite (proj2 (Z.eqb_neq _ (_ + _))) by lia. }
      rewrite Hnx. by eapply wp_join.
Qed.

(** The second half. *)
Lemma wp_plug_backward l1 b l2 lf h m p Q :
  heap_shape (l1 ++ b :: l2) h -> b_used b = false -> lfree h = heap_ptr h + lf -> lf_ok lf (l1 ++ b :: l2) ->
  hp_mem h !! (heap_ptr h + total l1) = Some m -> hp_mem h !! (heap_ptr h + last_off 0 0 l1) = Some p ->
  (forall h' l', (l' = l1 ++ b :: l2 /\ (forall l a, l1 = l ++ [a] -> b_used a = true) \/
       exists l a, l1 = l ++ [a] /\ b_used a = false /\ l' = l ++ mkBlock false (b_size a + b_size b) :: l2) ->
     heap_shape l' h' -> vars_frame h h' -> used_mem h' = used_mem h -> max_mem h' = max_mem h ->
     lfree h' = heap_ptr h + start_of lf 0 l' -> lf_ok (start_of lf 0 l') l' -> Q tt h') ->
  let mem := heap_ptr h + total l1 in
  let pmem := heap_ptr h + last_off 0 0 l1 in
  pwp (hwhen (negb (pmem =? mem) && (hm_used p =? 0)) (join pmem mem (hm_next m))) Q h.
Proof.
  cbv zeta. intros Hs Hb Elf Hlf Em Ep HQ. pose proof (shape_blocks Hs) as [H1 H2].
  destruct (shape_head Hs) as (m' & Em' & _ & Hnx & _). simplify_eq.
  destruct l1 as [|a l1 _] using rev_ind.
  - apply wp_when_false; [simpl; by rewrite Z.eqb_refl|].
    eapply HQ; [left; split; [reflexivity|by intros [] ?]|done..| |]; by rewrite start_of_ok by (done || apply Hs).
  - assert (heap_shape (l1 ++ a :: b :: l2) h) as Hs' by (by rewrite <- app_assoc in Hs).
    assert (lf_ok lf (l1 ++ a :: b :: l2)) as Hlf' by (by rewrite <- app_assoc in Hlf).
    destruct (shape_head Hs') as (p' & Ep' & Hu & _). apply Forall_app in H1 as [H1 Ha]. inversion_clear Ha as [|?? [Has _] _].
    rewrite last_off_snoc, Z.add_0_l in *. simplify_eq. rewrite total_app in *. simpl total in *. rewrite Z.add_0_r in *.
    destruct (b_used a) eqn:Hua.
    + apply wp_when_false; [rewrite Hu; by rewrite andb_false_r|].
      eapply HQ; [left; split; [reflexivity|]|done..| |]; [|by rewrite start_of_ok by (done || apply Hs)..].
      intros l a' E. simplify_list_eq. done.
    + apply wp_when_true; [rewrite Hu; by rewrite (proj2 (Z.eqb_neq (_ + _) (_ + (_ + _)))) by lia|].
      rewrite Hnx. eapply wp_join; [done|done|done|done|]. intros h' l' El'. apply HQ. right. eauto 10.
Qed.

Lemma wp_plug_holes l1 b l2 lf h Q :
  heap_shape (l1 ++ b :: l2) h -> b_used b = false -> no_adj l1 -> no_adj l2 ->
  lfree h = heap_ptr h + lf -> lf_ok lf (l1 ++ b :: l2) ->
  (forall h' l', l' = coalesce (l1 ++ b :: l2) -> heap_shape l' h' -> vars_frame h h' ->
     used_mem h' = used_mem h -> max_mem h' = max_mem h ->
     lfree h' = heap_ptr h + start_of lf 0 l' -> lf_ok (start_of lf 0 l') l' -> Q tt h') ->
  pwp (plug_holes (heap_ptr h + total l1)) Q h.
Proof.
  intros Hs Hb Ha1 Ha2 Elf Hlf HQ. pose proof (shape_bounds Hs) as Hbd. pose proof (shape_blocks Hs) as [H1 H2].
  inversion H2 as [|?? [Hbs _] Hl2]; subst. pose proof (total_nonneg _ Hl2). simpl total in Hbd.
  destruct (shape_head Hs) as (m & Em & Hu & Hnx & _). rewrite Hb in Hu.
  destruct (shape_head (l1 := l1 ++ [b]) (l2 := l2) (h := h)) as (n & En & _); [by rewrite <- app_assoc|].
  rewrite total_app in En. simpl total in En. rewrite Z.add_0_r in En.
  unfold plug_holes. wp_norm. split; [lia|]. wp_norm. rewrite (hs_end _ _ Hs). split; [lia|]. wp_norm.
  exists m. split; [done|]. wp_norm. rewrite Hu. split; [done|]. wp_norm. rewrite Hnx, u32_small by lia.
  exists n. split; [done|]. wp_norm. rewrite <- (hs_end _ _ Hs). eapply wp_plug_forward; [done..|].
  intros h1 l' -> Hs1 Hf1 Eu1 Ex1 Elf1 Hlf1. wp_norm.
  destruct (merge_next_spec b l2 Hb Ha2) as (k & l2' & Emg & Hadj). rewrite Emg in *.
  rewrite <- (hf_ptr _ _ Hf1) in Elf1 |- *.
  pose proof (shape_header _ _ _ _ Hs1) as Em1. eexists. split; [exact Em1|]. wp_norm.
  destruct (shape_prev _ _ _ _ Hs1) as [Hlo (p & Ep)]. pose proof (hf_ptr _ _ Hf1) as E1. simpl hm_prev.
  rewrite u32_small by lia. exists p. split; [done|].
  eapply wp_plug_backward; [done..|]. intros h2 l3 Hl3 Hs2 Hf2 Eu2 Ex2 Elf2 Hlf2.
  assert (l3 = coalesce (l1 ++ b :: l2) /\ start_of (start_of lf 0 (l1 ++ mkBlock false k :: l2')) 0 l3 = start_of lf 0 l3) as [-> Est].
  { pose proof (lf_ok_nonneg _ _ (hs_blocks _ _ Hs) Hlf) as Hlf0. destruct Hl3 as [(-> & Hu1)|(l & a & -> & Hua & ->)].
    - rewrite coalesce_next, Emg by done. split; [done|]. by apply start_of_idem; [apply Hs1|].
    - rewrite <- app_assoc in Hs1. rewrite <- !app_assoc. cbn [app] in *. erewrite coalesce_prev by done.
      split; [done|]. pose proof (shape_blocks Hs1) as []. by apply (start_of_merge l l2' a (mkBlock false k)). }
  rewrite Est in *. eapply HQ; [done|done|by etrans|congruence|congruence|by rewrite Elf2, E1|done].
Qed.

(** ** The loops of [rt_malloc] *)

Definition fuel_for (h : hvars) : nat := Z.to_nat (mem_size_aligned h / SIZEOF_STRUCT_MEM + 2).

(** The fuel is more than the number of blocks. *)
Lemma shape_fuel l h : heap_shape l h -> (length l < fuel_for h)%nat.
Proof.
  intros Hs. pose proof (total_length _ (hs_blocks _ _ Hs)) as H. rewrite (hs_total _ _ Hs) in H.
  unfold fuel_for. pose proof (hs_size _ _ Hs). Z.to_euclidean_division_equations. lia.
Qed.

Lemma set_lfree_same p h : lfree h = p -> set_lfree p h = h.
Proof. intros <-. by destruct h. Qed.

(** The walk from the offset [total l1] to the first free block of [l2]. *)
Lemma wp_lfree_loop fuel l1 l2 h Q :
  heap_shape (l1 ++ l2) h -> lfree h = heap_ptr h + total l1 -> (length l2 < fuel)%nat ->
  Q tt (set_lfree (heap_ptr h + hd (total l1 + total l2) (free_offs (total l1) l2)) h) ->
  pwp (lfree_loop fuel) Q h.
Proof.
  revert l1 fuel h. induction l2 as [|b l2 IH]; intros l1 fuel h Hs El Hfuel HQ;
    (destruct fuel as [|fuel]; [simpl in Hfuel; lia|]); pose proof (shape_bounds Hs) as Hbd; destruct (shape_head Hs) as (m & Em & Hu & Hnx & _);
    cbn [lfree_loop]; wp_norm; rewrite El; exists m; (split; [done|]); wp_norm; rewrite (hs_end _ _ Hs), Hu.
  - rewrite (proj2 (Z.eqb_eq (_ + _) _)) by (simpl in *; lia). rewrite andb_false_r. wp_norm.
    simpl in HQ. by rewrite Z.add_0_r, set_lfree_same in HQ.
  - pose proof (shape_blocks Hs) as [_ H2]. inversion_clear H2 as [|?? [Hbs _] Hl2]. pose proof (total_nonneg _ Hl2).
    simpl in Hbd, HQ, Hfuel. destruct (b_used b).
    + rewrite (proj2 (Z.eqb_neq (_ + _) _)) by lia. simpl. wp_norm. rewrite Hnx, u32_small by lia.
      assert (total (l1 ++ [b]) = total l1 + b_size b) as Et by (rewrite total_app; simpl; lia).
      eapply (IH (l1 ++ [b])); [rewrite <- app_assoc|by rewrite Et|lia|by rewrite Et, <- Z.add_assoc].
      apply (shape_update (l1 ++ b :: l2) _ h); [done|done|done|apply Hs|apply Hs].
    + simpl. wp_norm. simpl in HQ. by rewrite <- El, set_lfree_same in HQ.
Qed.

Lemma wp_stat_alloc k h Q :
  (forall h', vars_frame h h' -> hp_mem h' = hp_mem h -> lfree h' = lfree h ->
     used_mem h' = u32 (used_mem h + k) -> used_mem h' <= max_mem h' -> Q tt h') -> pwp (stat_alloc k) Q h.
Proof.
  intros HQ. unfold stat_alloc. wp_norm. rewrite pwp_hwhen. simpl.
  destruct (Z.ltb_spec (max_mem h) (u32 (used_mem h + k))); [left|right]; (split; [done|]); wp_norm; apply HQ; simpl; (done || lia || by split).
Qed.

(** A block is cut at [n]; the rest is a free block. *)
Lemma wp_split_block l1 b l2 n u f h (Q : unit -> hvars -> Prop) :
  heap_shape (l1 ++ b :: l2) h -> SIZEOF_STRUCT_MEM < n -> (4 | n) -> n + SIZEOF_STRUCT_MEM < b_size b ->
  (forall p o, f (header p o b) = mkHeapMem HEAP_MAGIC (Z.b2z u) (total l1 + n) p) ->
  (forall h', heap_shape (l1 ++ mkBlock u n :: mkBlock false (b_size b - n) :: l2) h' -> vars_frame h h' ->
     lfree h' = lfree h -> used_mem h' = used_mem h -> max_mem h' = max_mem h -> Q tt h') ->
  pwp (split_block (total l1) (heap_ptr h + total l1) (total l1 + n) f) Q h.
Proof.
  intros Hs Hn1 Ha Hn Hfb HQ. pose proof (shape_bounds Hs) as Hbd. pose proof (shape_blocks Hs) as [H1 H2].
  inversion_clear H2 as [|?? [Hbs Hb4] Hl2]. pose proof (total_nonneg _ Hl2). simpl total in Hbd.
  pose proof (shape_header _ _ _ _ Hs) as Eh. unfold split_block. wp_norm. eexists. split; [exact Eh|].
  wp_norm. rewrite u32_small by lia. simpl. eexists. split; [by rewrite lookup_insert_ne by lia|].
  wp_norm. simpl. eexists. split; [by rewrite lookup_insert_ne, lookup_insert_eq by lia|]. wp_norm. simpl.
  destruct (shape_head (l1 := l1 ++ [b]) (l2 := l2) (h := h)) as (hn & En & _); [by rewrite <- app_assoc|].
  rewrite total_app in En. simpl in En. rewrite Z.add_0_r in En.
  pose proof (proj1 (rest_at_app _ _ _ _ _ _) (hs_rest _ _ Hs)) as [_ Hrest]. rewrite Z.add_0_l in Hrest.
  pose proof (rest_at_split _ _ _ _ b l2 n u (total l1 + b_size b) hn
    (conj Hbs Hb4) Hl2 Hrest ltac:(lia) ltac:(lia) eq_refl ltac:(by rewrite !lookup_insert_ne by lia)) as Hsp.
  rewrite Hfb. set (l' := l1 ++ _ :: _) in HQ.
  assert (forall h', rest_at (hp_mem h') (heap_ptr h) (last_off 0 0 l1) (total l1) (mkBlock u n :: mkBlock false (b_size b - n) :: l2) ->
    (forall a, a < heap_ptr h + total l1 -> hp_mem h' !! a = hp_mem h !! a) -> vars_frame h h' -> heap_shape l' h') as Hnew.
  { intros h' Hm1 Hlow Hf. apply (shape_update (l1 ++ b :: l2) _ h); [done|done| | |].
    - unfold l'. rewrite !total_app. simpl. lia.
    - unfold l'. apply Forall_app. split; [done|].
      repeat constructor; simpl; try lia; try done; auto using Z.divide_sub_r.
    - unfold l'. eapply rest_at_suffix; [done|apply Hs|intros a Hlt; apply Hlow; lia|by rewrite Z.add_0_l]. }
  destruct l2 as [|c l2].
  - simpl in Hbd. apply wp_when_false; [rewrite u32_small by lia; apply negb_false_iff, Z.eqb_eq; lia|].
    apply HQ; [|done..]. apply Hnew; [exact Hsp| |done]. intros a Hlt. simpl. by rewrite !lookup_insert_ne by lia.
  - inversion_clear Hl2 as [|?? [Hcs _] Hl3]. pose proof (total_nonneg _ Hl3). simpl in Hbd.
    apply wp_when_true; [rewrite u32_small by lia; apply negb_true_iff, Z.eqb_neq; lia|].
    wp_norm. simpl. rewrite u32_small by lia. eexists. split; [by rewrite !lookup_insert_ne by lia|].
    apply HQ; [|done..]. apply Hnew; [exact Hsp| |done]. intros a Hlt. simpl. by rewrite !lookup_insert_ne by lia.
Qed.

(** The used flag and the magic number of a block. *)
Lemma shape_mark l1 b l2 u h m h' :
  heap_shape (l1 ++ b :: l2) h -> hp_mem h !! (heap_ptr h + total l1) = Some m -> vars_frame h h' ->
  hp_mem h' = <[heap_ptr h + total l1 := set_hm_magic HEAP_MAGIC (set_hm_used (Z.b2z u) m)]> (hp_mem h) ->
  heap_shape (l1 ++ mkBlock u (b_size b) :: l2) h'.
Proof.
  intros Hs Em Hf E. pose proof (shape_blocks Hs) as [H1 H2]. inversion_clear H2 as [|?? Hb Hl2].
  apply (shape_update (l1 ++ b :: l2) _ h); [done|done|by rewrite !total_app|apply Forall_app; split; [done|by constructor]|].
  rewrite E. pose proof (hs_rest _ _ Hs) as Hr. eapply rest_at_suffix; [done|exact Hr| |].
  - intros a Ha. apply lookup_insert_ne. lia.
  - apply rest_at_app in Hr as [_ Hr]. rewrite Z.add_0_l in *. by eapply rest_at_used.
Qed.

Lemma carve_cases size n :
  (size + SIZEOF_STRUCT_MEM + MIN_SIZE_ALIGNED <= n - SIZEOF_STRUCT_MEM /\
   carve size (mkBlock false n) = [mkBlock true (size + SIZEOF_STRUCT_MEM); mkBlock false (n - (size + SIZEOF_STRUCT_MEM))]) \/
  (n - SIZEOF_STRUCT_MEM < size + SIZEOF_STRUCT_MEM + MIN_SIZE_ALIGNED /\ carve size (mkBlock false n) = [mkBlock true n]).
Proof. unfold carve. simpl. case_if; [left|right]; (split; [done|]); [|done]. by rewrite Z.sub_add_distr. Qed.

(** The block is taken and its size added to the statistics; [lfree] has not moved. *)
Lemma wp_take_block l1 n l2 size h (k : prog unit) Q :
  heap_shape (l1 ++ mkBlock false n :: l2) h -> MIN_SIZE_ALIGNED <= size -> (4 | size) -> size <= n - SIZEOF_STRUCT_MEM ->
  (forall h' m, used_total (carve size (mkBlock false n)) = m -> heap_shape (l1 ++ carve size (mkBlock false n) ++ l2) h' ->
     vars_frame h h' -> lfree h' = lfree h -> used_mem h' = u32 (used_mem h + m) -> used_mem h' <= max_mem h' -> pwp k Q h') ->
  let mem := heap_ptr h + total l1 in
  pwp (m ← get_mem mem;
      (if u32 (size + SIZEOF_STRUCT_MEM + MIN_SIZE_ALIGNED) <=? u32 (hm_next m - (total l1 + SIZEOF_STRUCT_MEM)) then
         let ptr2 := u32 (total l1 + SIZEOF_STRUCT_MEM + size) in
         split_block (total l1) mem ptr2 (fun m => set_hm_used 1 (set_hm_next ptr2 m));;
         stat_alloc (size + SIZEOF_STRUCT_MEM)
       else
         upd_mem mem (set_hm_used 1);;
         o ← offset_of mem;
         stat_alloc (hm_next m - o));;
      upd_mem mem (set_hm_magic HEAP_MAGIC);; k) Q h.
Proof.
  intros Hs Hsize Ha Hfit HQ mem. pose proof (shape_bounds Hs) as Hbd. pose proof (shape_blocks Hs) as [H1 H2].
  inversion_clear H2 as [|?? [Hbs Hb4] Hl2]. simpl in Hbs. pose proof (total_nonneg _ Hl2). simpl total in Hbd.
  pose proof (shape_header _ _ _ _ Hs) as Eh. wp_norm. eexists. split; [exact Eh|]. wp_norm. simpl hm_next.
  rewrite !u32_small by lia.
  assert (4 | SIZEOF_STRUCT_MEM) as H12 by (by exists 3).
  destruct (carve_cases size n) as [[Hc Ec]|[Hc Ec]]; rewrite Ec in HQ.
  - rewrite (proj2 (Z.leb_le _ _)) by lia. wp_norm.
    replace (total l1 + SIZEOF_STRUCT_MEM + size) with (total l1 + (size + SIZEOF_STRUCT_MEM)) by lia.
    eapply (wp_split_block _ _ _ _ true); [exact Hs|lia|by apply Z.divide_add_r|simpl; lia|done|].
    intros h1 Hs1 Hf1 El1 Eu1 Ex1. wp_norm. apply wp_stat_alloc. intros h2 Hf2 Em2 El2 Eu2 Ex2. wp_norm.
    pose proof (shape_header _ _ _ _ Hs1) as Eh1. rewrite (hf_ptr _ _ Hf1) in Eh1. rewrite Em2. unfold mem.
    eexists. split; [exact Eh1|]. eapply HQ; [done| |by etrans; [|etrans]; [done|exact Hf2|]|simpl; congruence|simpl; rewrite Eu2, Eu1|done].
    + eapply (shape_mark l1 (mkBlock true (size + SIZEOF_STRUCT_MEM)) (mkBlock false (n - (size + SIZEOF_STRUCT_MEM)) :: l2) true h1); [exact Hs1|by rewrite (hf_ptr _ _ Hf1)|by destruct Hf2|]. simpl. by rewrite (hf_ptr _ _ Hf1).
    + simpl. f_equal. lia.
  - rewrite (proj2 (Z.leb_gt _ _)) by lia. wp_norm. unfold mem. eexists. split; [exact Eh|]. wp_norm. simpl heap_ptr.
    rewrite Z.add_simpl_l, u32_small by lia. apply wp_stat_alloc. intros h2 Hf2 Em2 El2 Eu2 Ex2. wp_norm.
    simpl in Em2. rewrite Em2. eexists. split; [by rewrite lookup_insert_eq|].
    eapply HQ; [done| |by destruct Hf2|exact El2|simpl; rewrite Eu2|done].
    + eapply (shape_mark l1 (mkBlock false n) l2 true h); [exact Hs|exact Eh|by destruct Hf2|]. simpl. by rewrite insert_insert_eq.
    + simpl. f_equal. lia.
Qed.

(** [lfree] designates a free block or the end. *)
Lemma lfree_designates l lf h :
  heap_rep l lf h -> exists m, hp_mem h !! lfree h = Some m /\ (lfree h =? heap_end h) || (hm_used m =? 0) = true.
Proof.
  intros [Hs _ -> Hlf _ _]. destruct (lf_ok_split _ _ Hlf) as (l1 & l2 & -> & -> & Hl2).
  destruct (shape_head Hs) as (m & Em & Hu & _). exists m. split; [done|]. rewrite Hu.
  destruct Hl2 as [->|(n & l3 & ->)]; [|by rewrite orb_true_r].
  rewrite (hs_end _ _ Hs). pose proof (hs_total _ _ Hs) as Ht. rewrite app_nil_r in Ht. apply orb_true_iff. left. lia.
Qed.

(** [malloc_take] on the free block at the offset [total l1]. *)
Lemma wp_malloc_take l1 n l2 lf size h Q :
  heap_rep (l1 ++ mkBlock false n :: l2) lf h -> MIN_SIZE_ALIGNED <= size -> (4 | size) -> size <= n - SIZEOF_STRUCT_MEM ->
  (forall h' l', l' = l1 ++ carve size (mkBlock false n) ++ l2 -> heap_rep l' (first_free lf l') h' -> vars_frame h h' -> Q tt h') ->
  pwp (malloc_take (total l1) (heap_ptr h + total l1) size) Q h.
Proof.
  intros [Hs Hadj Elf Hlf Eu Ex] Hsize Ha Hfit HQ. pose proof (shape_bounds Hs) as Hbd. pose proof (shape_blocks Hs) as [H1 H2].
  inversion_clear H2 as [|?? [Hbs Hb4] Hl2]. simpl in Hbs, Hb4. pose proof (total_nonneg _ Hl2). simpl total in Hbd.
  pose proof (carve_no_adj size n l1 l2 Hadj) as Hadj'. pose proof (carve_ok size n Hsize Ha Hb4 Hfit) as Hok.
  pose proof (carve_total size n) as Ect.
  unfold malloc_take. apply (wp_take_block l1 n l2); [done..|]. intros h1 m Em Hs1 Hf1 El1 Eu1 Ex1.
  set (l' := l1 ++ carve size (mkBlock false n) ++ l2) in *.
  assert (used_mem h1 = used_total l') as Eu'.
  { rewrite Eu1, Eu, u32_small; unfold l'; rewrite !used_total_app; simpl; rewrite ?Em.
    - lia.
    - pose proof (used_total_le _ H1). pose proof (used_total_le _ Hl2). pose proof (used_total_le _ Hok). lia. }
  assert (forall lf', lf' = first_free lf l' -> heap_rep l' lf' (set_lfree (heap_ptr h + lf') h1)) as Hrep.
  { intros lf' ->. split; [|done|by simpl; rewrite (hf_ptr _ _ Hf1)|apply first_free_ok|done|done].
    apply (shape_update l' _ h1); [done|by split|done|apply Hs1|apply Hs1]. }
  wp_norm. rewrite El1, Elf. destruct (Z.eqb_spec (heap_ptr h + total l1) (heap_ptr h + lf)) as [E|Hne].
  - assert (lf = total l1) as -> by lia. apply wp_when_true; [done|]. wp_norm.
    pose proof (shape_fuel _ _ Hs1) as Hfuel. unfold fuel_for in Hfuel. unfold l' in Hfuel. rewrite length_app in Hfuel.
    apply (wp_lfree_loop _ l1 (carve size (mkBlock false n) ++ l2)); [done|by rewrite El1, Elf, (hf_ptr _ _ Hf1)|lia|].
    rewrite <- (first_free_app (total l1) l1) by (done || by apply Forall_app). fold l'. rewrite (hf_ptr _ _ Hf1).
    specialize (Hrep _ eq_refl). destruct (lfree_designates _ _ _ Hrep) as (ml & Eml & Hml). simpl in Eml, Hml.
    wp_norm. simpl. exists ml. split; [done|]. wp_norm. split; [done|]. by eapply HQ; [|exact Hrep|destruct Hf1].
  - apply wp_when_false; [done|]. assert (lf ≠ total l1) as Hne' by lia.
    assert (first_free lf l' = lf) as Eff.
    { apply first_free_self; [apply Hs1|]. by apply lf_ok_carve. }
    specialize (Hrep lf ltac:(congruence)). rewrite set_lfree_same in Hrep by congruence. rewrite <- Eff in Hrep. by eapply HQ.
Qed.

Lemma wp_malloc_loop fuel l1 l2 lf size h Q :
  heap_rep (l1 ++ l2) lf h -> MIN_SIZE_ALIGNED <= size <= mem_size_aligned h -> (4 | size) ->
  lf <= total l1 -> (length l2 < fuel)%nat ->
  match alloc_blocks (mem_size_aligned h - size) size lf (total l1) l2 with
  | Some (o, l2') => forall h', heap_rep (l1 ++ l2') (first_free lf (l1 ++ l2')) h' -> vars_frame h h' -> Q (Some (heap_ptr h + o)) h'
  | None => Q None h
  end -> pwp (malloc_loop fuel (total l1) size) Q h.
Proof.
  revert l1 fuel. induction l2 as [|b l2 IH]; intros l1 fuel Hr Hsize Ha Hlf Hfuel HQ;
    (destruct fuel as [|fuel]; [simpl in Hfuel; lia|]); pose proof (hr_shape _ _ _ Hr) as Hs; pose proof (shape_bounds Hs) as Hbd;
    cbn [malloc_loop]; wp_norm; rewrite (u32_small (_ - _)) by lia.
  { simpl in Hbd, HQ. rewrite (proj2 (Z.ltb_ge _ _)) by lia. done. }
  pose proof (shape_blocks Hs) as [H1 H2]. inversion_clear H2 as [|?? [Hbs _] Hl2]. pose proof (total_nonneg _ Hl2).
  simpl total in Hbd. simpl in Hfuel. cbn [alloc_blocks] in HQ. rewrite (proj2 (Z.leb_le lf _)) in HQ by lia. simpl in HQ.
  destruct (Z.ltb_spec (total l1) (mem_size_aligned h - size)) as [Hlt|Hge]; simpl in HQ; cycle 1.
  { wp_norm. rewrite alloc_bound in HQ by (done || lia). done. }
  pose proof (shape_header _ _ _ _ Hs) as Eh. wp_norm. rewrite u32_small by lia. eexists. split; [exact Eh|]. simpl.
  rewrite u32_small by lia. replace (total l1 + b_size b - (total l1 + 12)) with (b_size b - 12) by lia.
  destruct b as [u n]. destruct u; simpl in *; [|destruct (Z.leb_spec size (n - 12)) as [Hfit|Hnofit]].
  - pose proof (IH (l1 ++ [mkBlock true n]) fuel) as IH'. rewrite <- app_assoc, total_app in IH'. simpl in IH'. rewrite Z.add_0_r in IH'.
    apply IH'; [done|done|done|lia|lia|]. destruct (alloc_blocks _ _ _ _ l2) as [[o l2']|]; simpl in HQ; [|done].
    intros h'. rewrite <- app_assoc. apply HQ.
  - wp_norm. eapply wp_malloc_take; [done|lia|done|done|]. intros h' l' -> Hr' Hf'. wp_norm. by apply HQ.
  - pose proof (IH (l1 ++ [mkBlock false n]) fuel) as IH'. rewrite <- app_assoc, total_app in IH'. simpl in IH'. rewrite Z.add_0_r in IH'.
    apply IH'; [done|done|done|lia|lia|]. destruct (alloc_blocks _ _ _ _ l2) as [[o l2']|]; simpl in HQ; [|done].
    intros h'. rewrite <- app_assoc. apply HQ.
Qed.

(** The critical section of [rt_malloc] is first fit over the list of blocks. *)
Lemma wp_malloc_locked l lf size h Q :
  heap_rep l lf h -> MIN_SIZE_ALIGNED <= size <= mem_size_aligned h -> (4 | size) ->
  match alloc_blocks (mem_size_aligned h - size) size lf 0 l with
  | Some (o, l') => forall h', heap_rep l' (first_free lf l') h' -> vars_frame h h' -> Q (Some (heap_ptr h + o)) h'
  | None => Q None h
  end -> pwp (malloc_locked size) Q h.
Proof.
  intros Hr Hsize Ha HQ. pose proof (hr_shape _ _ _ Hr) as Hs. destruct (lf_ok_split _ _ (hr_lf _ _ _ Hr)) as (l1 & l2 & -> & -> & _).
  pose proof (shape_bounds Hs) as Hbd. pose proof (shape_blocks Hs) as [H1 H2].
  unfold malloc_locked. wp_norm. rewrite (hr_lfree _ _ _ Hr), Z.add_simpl_l, u32_small by lia.
  pose proof (shape_fuel _ _ Hs) as Hfuel. unfold fuel_for in Hfuel. rewrite length_app in Hfuel.
  eapply wp_malloc_loop; [exact Hr|done|done|lia|lia|]. rewrite alloc_skip in HQ by (done || lia).
  rewrite Z.add_0_l in HQ. by destruct (alloc_blocks _ _ _ _ l2) as [[o l2']|].
Qed.

(** ** [rt_free] *)

Lemma mark_free_app l1 b l2 :
  Forall block_ok l1 -> mark_free (total l1) 0 (l1 ++ b :: l2) = l1 ++ mkBlock false (b_size b) :: l2.
Proof.
  intros Hl. enough (forall off, mark_free (off + total l1) off (l1 ++ b :: l2) = l1 ++ mkBlock false (b_size b) :: l2) as H by exact (H 0).
  induction Hl as [|a l1 [Hb _] Hl IH]; intros off; simpl.
  - by rewrite (proj2 (Z.eqb_eq _ _)) by lia.
  - pose proof (total_nonneg _ Hl). rewrite (proj2 (Z.eqb_neq _ _)) by lia. by rewrite Z.add_assoc, IH.
Qed.

(** The critical section of [rt_free] on a used block: it becomes free and joins its neighbours. *)
Lemma wp_free_locked l lf o n h (Q : unit -> hvars -> Prop) :
  heap_rep l lf h -> (o, n) ∈ used_blocks 0 l ->
  (forall h' l', l' = coalesce (mark_free o 0 l) -> heap_rep l' (start_of (o `min` lf) 0 l') h' -> vars_frame h h' -> Q tt h') ->
  pwp (free_locked (heap_ptr h + o)) Q h.
Proof.
  intros [Hs Hadj Elf Hlf Eu Ex] Hin HQ. destruct (used_blocks_split _ _ _ _ Hin) as (l1 & l2 & -> & ->).
  rewrite !Z.add_0_l in *. pose proof (shape_bounds Hs) as Hbd. pose proof (shape_blocks Hs) as [H1 H2].
  inversion H2 as [|?? [Hbs _] Hl2]; subst. simpl in Hbs. pose proof (total_nonneg _ Hl2). simpl total in Hbd.
  rewrite mark_free_app in HQ by done. simpl in HQ. set (l' := l1 ++ mkBlock false n :: l2) in *.
  pose proof (shape_header _ _ _ _ Hs) as Eh.
  assert (lf_ok (total l1 `min` lf) l') as Hlf'.
  { unfold l'. destruct (Z.min_spec (total l1) lf) as [[Hlt ->]|[Hge ->]].
    - right. rewrite free_offs_app. apply elem_of_app. right. by left.
    - destruct Hlf as [Hlf|Hlf]; [rewrite total_app in Hlf; simpl in Hlf; lia|]. right.
      rewrite free_offs_app in Hlf |- *. apply elem_of_app in Hlf as [Hlf|Hlf]; apply elem_of_app; [by left|].
      simpl in Hlf. apply free_offs_bound in Hlf; [lia|done]. }
  apply no_adj_app in Hadj as (Ha1 & [_ Ha2]%no_adj_cons & _).
  unfold free_locked. wp_norm. eexists. split; [exact Eh|]. wp_norm. split; [done|]. wp_norm. split; [done|]. wp_norm.
  eexists. split; [exact Eh|]. wp_norm. simpl. rewrite Elf.
  set (h1 := set_hp_mem _ h). assert (heap_shape l' h1) as Hs1 by (eapply (shape_mark l1 (mkBlock true n) l2 false h); [exact Hs|exact Eh|by split|done]).
  cut (pwp (o ← offset_of (heap_ptr h + total l1); stat_free (total l1 + n - o);; plug_holes (heap_ptr h + total l1)) Q
    (set_lfree (heap_ptr h + total l1 `min` lf) h1)).
  { intros Hw. rewrite pwp_hwhen, pwp_hset. destruct (Z.ltb_spec (heap_ptr h + total l1) (heap_ptr h + lf)).
    - left. split; [done|]. by rewrite Z.min_l in Hw by lia.
    - right. split; [done|]. rewrite Z.min_r in Hw by lia. by rewrite set_lfree_same in Hw. }
  unfold stat_free. wp_norm. simpl. rewrite Z.add_simpl_l, (u32_small (total l1)) by lia.
  set (h2 := set_used_mem _ _). replace (heap_ptr h) with (heap_ptr h2) by done.
  assert (heap_shape l' h2) as Hs2 by (apply (shape_update l' _ h1); [done|by split|done|apply Hs1|apply Hs1]).
  eapply (wp_plug_holes l1 _ l2); [exact Hs2|done|done|done|reflexivity|done|].
  intros h3 l3 El3 Hs3 Hf3 Eu3 Ex3 Elf3 Hlf3.
  pose proof (used_total_le _ (hs_blocks _ _ Hs)) as Hut. rewrite used_total_app in Hut, Eu. simpl in Hut, Eu.
  pose proof (used_total_le _ H1). pose proof (used_total_le _ Hl2).
  assert (used_mem h3 = used_total l3) as Eu3'.
  { rewrite Eu3, El3, used_total_coalesce. simpl. rewrite used_total_app. simpl. rewrite u32_small by lia. lia. }
  eapply HQ; [exact El3| |destruct Hf3; by split]. split; [done|rewrite El3; apply no_adj_coalesce| |done|done|].
  - by rewrite Elf3, (hf_ptr _ _ Hf3).
  - rewrite Eu3', Ex3, El3, used_total_coalesce, used_total_app. simpl. lia.
Qed.

(** ** [rt_realloc] *)

Lemma shrink_block_app l1 k b l2 :
  Forall block_ok l1 ->
  shrink_block (total l1) k 0 (l1 ++ b :: l2) = l1 ++ mkBlock true k :: mkBlock false (b_size b - k) :: l2.
Proof.
  intros Hl. enough (forall off, shrink_block (off + total l1) k off (l1 ++ b :: l2) =
    l1 ++ mkBlock true k :: mkBlock false (b_size b - k) :: l2) as H by exact (H 0).
  induction Hl as [|a l1 [Hb _] Hl IH]; intros off; simpl.
  - by rewrite (proj2 (Z.eqb_eq _ _)) by lia.
  - pose proof (total_nonneg _ Hl). rewrite (proj2 (Z.eqb_neq _ _)) by lia. by rewrite Z.add_assoc, IH.
Qed.

Lemma wp_realloc_locked l lf o n newsize h (Q : option Z * Z -> hvars -> Prop) :
  heap_rep l lf h -> (o, n) ∈ used_blocks 0 l -> 0 < newsize <= mem_size_aligned h -> (4 | newsize) ->
  (if n =? newsize + SIZEOF_STRUCT_MEM then Q (Some (heap_ptr h + o + SIZEOF_STRUCT_MEM), 0) h
   else if newsize + 2 * SIZEOF_STRUCT_MEM + MIN_SIZE <? n then
     forall h' l', l' = coalesce (shrink_block o (newsize + SIZEOF_STRUCT_MEM) 0 l) ->
       heap_rep l' (start_of lf 0 l') h' -> vars_frame h h' -> Q (Some (heap_ptr h + o + SIZEOF_STRUCT_MEM), 0) h'
   else Q (None, n - SIZEOF_STRUCT_MEM) h) ->
  pwp (realloc_locked (heap_ptr h + o + SIZEOF_STRUCT_MEM) newsize) Q h.
Proof.
  intros [Hs Hadj Elf Hlf Eu Ex] Hin Hnew Ha HQ. destruct (used_blocks_split _ _ _ _ Hin) as (l1 & l2 & -> & ->).
  rewrite !Z.add_0_l in *. pose proof (shape_bounds Hs) as Hbd. pose proof (shape_blocks Hs) as [H1 H2].
  inversion H2 as [|?? [Hbs _] Hl2]; subst. simpl in Hbs. pose proof (total_nonneg _ Hl2). simpl total in Hbd.
  assert (4 | SIZEOF_STRUCT_MEM) as H12 by (by exists 3).
  rewrite shrink_block_app in HQ by done. cbn [b_size] in HQ. pose proof (shape_header _ _ _ _ Hs) as Eh.
  set (rmem := heap_ptr h + total l1 + SIZEOF_STRUCT_MEM) in *.
  unfold realloc_locked. wp_norm. rewrite (hs_end _ _ Hs). unfold rmem at 1 2 3.
  rewrite (proj2 (Z.ltb_ge _ (heap_ptr h))), Z.geb_leb, (proj2 (Z.leb_gt _ _)) by lia. simpl.
  replace (u32 (rmem - SIZEOF_STRUCT_MEM)) with (heap_ptr h + total l1) by (unfold rmem; rewrite u32_small; lia).
  wp_norm. rewrite Z.add_simpl_l, (u32_small (total l1)) by lia. eexists. split; [exact Eh|]. simpl hm_next.
  rewrite (u32_small (_ - _ - _)), (u32_small (newsize + _ + _)) by lia.
  replace (total l1 + n - total l1 - SIZEOF_STRUCT_MEM) with (n - SIZEOF_STRUCT_MEM) by lia.
  replace (n =? newsize + SIZEOF_STRUCT_MEM) with (n - SIZEOF_STRUCT_MEM =? newsize) in HQ by (apply eq_true_iff_eq; lia).
  replace (newsize + 2 * SIZEOF_STRUCT_MEM + MIN_SIZE <? n) with (newsize + SIZEOF_STRUCT_MEM + MIN_SIZE <? n - SIZEOF_STRUCT_MEM) in HQ by (apply eq_true_iff_eq; lia).
  destruct (Z.eqb_spec (n - SIZEOF_STRUCT_MEM) newsize) as [Heq|Hne]; [done|].
  destruct (Z.ltb_spec (newsize + SIZEOF_STRUCT_MEM + MIN_SIZE) (n - SIZEOF_STRUCT_MEM)) as [Hlt|Hge]; [|done].
  unfold stat_free. wp_norm. rewrite (u32_small (total l1 + _ + _)) by lia.
  set (h1 := set_used_mem _ h). replace (heap_ptr h) with (heap_ptr h1) by done.
  assert (heap_shape (l1 ++ mkBlock true n :: l2) h1) as Hs1 by (apply (shape_update (l1 ++ mkBlock true n :: l2) _ h); [done|by split|done|apply Hs|apply Hs]).
  replace (total l1 + SIZEOF_STRUCT_MEM + newsize) with (total l1 + (newsize + SIZEOF_STRUCT_MEM)) by lia.
  eapply (wp_split_block l1 (mkBlock true n) l2 _ true); [exact Hs1|lia|by apply Z.divide_add_r|simpl; lia|done|].
  intros h2 Hs2 Hf2 El2 Eu2 Ex2. wp_norm. rewrite u32_small by (rewrite (hf_ptr _ _ Hf2); simpl; lia).
  set (k := newsize + SIZEOF_STRUCT_MEM) in *. cbn [b_size] in Hs2.
  assert (lf_ok lf (l1 ++ mkBlock true k :: mkBlock false (n - k) :: l2)) as Hlf2.
  { destruct Hlf as [Hlf|Hlf]; [left; rewrite !total_app in *; simpl in *; lia|]. right.
    rewrite free_offs_app in Hlf |- *. apply elem_of_app in Hlf as [Hlf|Hlf]; apply elem_of_app; [by left|]. right.
    simpl in Hlf |- *. apply elem_of_cons. right. by replace (0 + total l1 + k + (n - k)) with (0 + total l1 + n) by lia. }
  apply no_adj_app in Hadj as (Ha1 & [_ Ha2]%no_adj_cons & Ha3).
  assert (total (l1 ++ [mkBlock true k]) = total l1 + k) as Etk by (rewrite total_app; simpl; lia).
  rewrite <- Etk. eapply (wp_plug_holes (l1 ++ [mkBlock true k]) (mkBlock false (n - k)) l2 lf);
    [by rewrite <- app_assoc|done| |done|by rewrite El2, (hf_ptr _ _ Hf2)|by rewrite <- app_assoc|].
  { apply no_adj_app. split_and!; [done|done|]. intros l' a c l'' E E'. simplify_eq. by right. }
  rewrite <- app_assoc. cbn [app]. intros h3 l3 El3 Hs3 Hf3 Eu3 Ex3 Elf3 Hlf3. wp_norm.
  pose proof (used_total_le _ (hs_blocks _ _ Hs)) as Hut. rewrite used_total_app in Hut, Eu. simpl in Hut, Eu.
  pose proof (used_total_le _ H1). pose proof (used_total_le _ Hl2).
  assert (used_mem h3 = used_total l3) as Eu3'.
  { rewrite Eu3, Eu2, El3, used_total_coalesce. simpl. rewrite used_total_app. simpl. rewrite u32_small by lia. lia. }
  eapply HQ; [exact El3| |etrans; [|etrans; [exact Hf2|exact Hf3]]; by split].
  split; [done|rewrite El3; apply no_adj_coalesce| |done|done|].
  - by rewrite Elf3, (hf_ptr _ _ Hf3).
  - rewrite Eu3', Ex3, Ex2, El3, used_total_coalesce, used_total_app. simpl. lia.
Qed.
