(* ===== verification/Heap.v ===== *)
(** The functions of src/mem.c on the blocks of the heap: first fit, release with coalescing, their round
    trip, re-allocation, and what they do when several threads call them. *)

From S2P Require Import Prelude RtDef Object Scheduler Timer Thread Kernel Ipc Sem Mem Blocks HeapRep.

(** ** The semaphore of the heap *)

(** Nobody is in the heap. *)
Definition sem_free (k : kernel) : Prop :=
  object_typed (OSem heap_sem) RT_Object_Class_Semaphore k /\
  sems k !! heap_sem = Some (mkSem 1) /\ qget k (sem_q heap_sem) = [].

(** The state in which [take_heap_sem] leaves the kernel. *)
Definition sem_taken (k : kernel) : kernel := set_sems (<[heap_sem := mkSem 0]> (sems k)) k.

Lemma set_hp_kernel_same h : set_hp_kernel (hp_kernel h) h = h.
Proof. by destruct h. Qed.

Lemma sem_taken_free k : sems k !! heap_sem = Some (mkSem 1) ->
  set_sems (<[heap_sem := mkSem 1]> (sems (sem_taken k))) (sem_taken k) = k.
Proof.
  intros E. unfold sem_taken. simpl. rewrite insert_insert_eq, insert_id by done. by destruct k.
Qed.

Lemma runs_take h (Q : Z -> heap -> Prop) :
  sem_free (hp_kernel h) -> Q RT_EOK (set_hp_kernel (sem_taken (hp_kernel h)) h) -> runs_to take_heap_sem Q h.
Proof.
  intros ((x & Hx & Hty & _) & Es & Eq) HQ.
  assert (rt_sem_take heap_sem RT_WAITING_FOREVER (hp_kernel h) = Some (Ret RT_EOK, sem_taken (hp_kernel h))) as E.
  { assert (wp (rt_sem_take heap_sem RT_WAITING_FOREVER) (fun r k => r = Ret RT_EOK /\ k = sem_taken (hp_kernel h)) (hp_kernel h)) as H.
    { unfold rt_sem_take. wp_norm. exists x. split_and!; [done..|]. unfold get_sem. wp_norm. rewrite wp_getso.
      eexists. split; [done|]. done. }
    unfold wp in H. destruct (rt_sem_take _ _ _) as [[r k]|]; [|done]. by destruct H as [-> ->]. }
  rewrite runs_to_take, (wp_eq _ _ _ _ _ E). eauto.
Qed.

Lemma runs_release h k (Q : Z -> heap -> Prop) :
  sem_free k -> hp_kernel h = sem_taken k -> Q RT_EOK (set_hp_kernel k h) -> runs_to release_heap_sem Q h.
Proof.
  intros ((x & Hx & Hty & _) & Es & Eq) Ek HQ.
  assert (rt_sem_release heap_sem (hp_kernel h) = Some (RT_EOK, k)) as E.
  { assert (wp (rt_sem_release heap_sem) (fun r k' => r = RT_EOK /\ k' = k) (hp_kernel h)) as H.
    { rewrite Ek. unfold rt_sem_release. wp_norm. exists x. split_and!; [done..|]. unfold get_sem. wp_norm. rewrite wp_getso.
      exists (mkSem 0). split; [apply lookup_insert_eq|]. wp_norm. simpl. rewrite Eq. simpl. unfold put_sem, set_sem_value. wp_norm.
      simpl. wp_norm. split; [done|]. change (u16 (0 + 1)) with 1. by apply sem_taken_free. }
    unfold wp in H. destruct (rt_sem_release _ _) as [[r k']|]; [|done]. by destruct H as [-> ->]. }
  rewrite runs_to_release, (wp_eq _ _ _ _ _ E), Ek. done.
Qed.

(** A critical section that finds the semaphore free runs at once and leaves the kernel as it was. *)
Lemma runs_locked {A B} (crit : prog B) (f : B -> prog A) (Q : A -> heap -> Prop) h :
  sem_free (hp_kernel h) -> pwp crit (fun b v => runs_to (f b) Q (set_hp_vars v h)) h ->
  runs_to (take_heap_sem;; b ← crit; release_heap_sem;; f b) Q h.
Proof.
  intros Hk Hc. rewrite runs_to_bind. apply runs_take; [done|]. rewrite runs_to_bind. apply runs_to_accesses.
  eapply pwp_mono; [exact Hc|]. intros b v HQ. rewrite runs_to_bind. by apply (runs_release _ (hp_kernel h)).
Qed.

(** What the functions below leave alone when they allocate and release blocks. *)
Record heap_frame (h h' : heap) : Prop := {
  hf_vars :> vars_frame h h';
  hf_kernel : hp_kernel h' = hp_kernel h;
}.

#[export] Instance heap_frame_preorder : PreOrder heap_frame.
Proof. split; [by split|]. intros h1 h2 h3 [] []. split; [by etrans|congruence]. Qed.

(** ** [rt_malloc] and [rt_free] *)

(** The bytes that a request for [size] takes. *)
Definition req_size (size : Z) : Z := RT_ALIGN size RT_ALIGN_SIZE `max` MIN_SIZE_ALIGNED.

(** [rt_malloc] on the abstract state: the offset of the block it takes, and the blocks afterwards. *)
Definition alloc (ms size lf : Z) (l : list block) : option (Z * list block) :=
  if (size =? 0) || (ms <? RT_ALIGN size RT_ALIGN_SIZE) then None
  else alloc_blocks (ms - req_size size) (req_size size) lf 0 l.

Lemma req_divide size : (4 | req_size size) /\ MIN_SIZE_ALIGNED <= req_size size.
Proof.
  unfold req_size. split; [|lia]. destruct (Z.max_spec (RT_ALIGN size RT_ALIGN_SIZE) MIN_SIZE_ALIGNED) as [[_ ->]|[_ ->]];
    [by exists 3|apply align_divide].
Qed.

Lemma alloc_spec ms size lf l o l' :
  alloc ms size lf l = Some (o, l') ->
  exists l1 n l2, l = l1 ++ mkBlock false n :: l2 /\ o = total l1 /\ l' = l1 ++ carve (req_size size) (mkBlock false n) ++ l2 /\
    req_size size <= n - SIZEOF_STRUCT_MEM /\ lf <= o < ms - req_size size.
Proof. unfold alloc. destruct (_ || _); [done|]. by intros (l1 & n & l2 & -> & -> & -> & ?)%alloc_blocks_spec; eauto 10. Qed.

(** A free block starts and ends on addresses below the top of memory. *)
Lemma block_address l1 b l2 lf h :
  heap_rep (l1 ++ b :: l2) lf h ->
  0 <= heap_ptr h + total l1 /\ (4 | heap_ptr h + total l1) /\ heap_ptr h + total l1 + b_size b <= heap_end h /\
  heap_end h < 2 ^ 32 - SIZEOF_STRUCT_MEM.
Proof.
  intros [Hs]. pose proof (shape_bounds Hs) as Hbd. pose proof (shape_blocks Hs) as [H1 H2].
  inversion_clear H2 as [|?? _ Hl2]. pose proof (total_nonneg _ Hl2). simpl in Hbd. rewrite (hs_end _ _ Hs).
  split_and!; [lia| |lia|lia]. apply Z.divide_add_r; [apply Hs|by apply total_aligned].
Qed.

Lemma land_3 x : (4 | x) -> x .& (RT_ALIGN_SIZE - 1) = 0.
Proof. intros [k ->]. change (RT_ALIGN_SIZE - 1) with (Z.ones 2). rewrite Z.land_ones by lia. by apply Z.mod_mul. Qed.

(** The assertions at the end of [rt_malloc]. *)
Lemma pwp_malloc_return mem size (h : hvars) (Q : Z -> hvars -> Prop) :
  0 <= mem -> (4 | mem) -> mem + SIZEOF_STRUCT_MEM + size <= heap_end h -> 0 <= size -> heap_end h < 2 ^ 32 ->
  Q (mem + SIZEOF_STRUCT_MEM) h ->
  pwp (he ← hget heap_end;
   hassert (u32 (mem + SIZEOF_STRUCT_MEM + size) <=? he);;
   hassert (u32 (mem + SIZEOF_STRUCT_MEM) mod RT_ALIGN_SIZE =? 0);;
   hassert (mem .& (RT_ALIGN_SIZE - 1) =? 0);;
   mret (u32 (mem + SIZEOF_STRUCT_MEM))) Q h.
Proof.
  intros H0 H4 He Hs Ht HQ. assert (4 | mem + SIZEOF_STRUCT_MEM) as Hd by (apply Z.divide_add_r; [done|by exists 3]).
  wp_norm. rewrite !u32_small, land_3 by (done || lia). split_and!; [lia|by apply Z.eqb_eq, Z.mod_divide|done|done].
Qed.

(** What [rt_malloc] returns and leaves, as a function of the blocks. *)
Definition malloc_post (size : Z) (l : list block) (lf : Z) (h : heap) (p : Z) (h' : heap) : Prop :=
  match alloc (mem_size_aligned h) size lf l with
  | Some (o, l') => p = heap_ptr h + o + SIZEOF_STRUCT_MEM /\ heap_rep l' (first_free lf l') h' /\ heap_frame h h'
  | None => p = RT_NULL /\ h' = h
  end.

Lemma runs_malloc size l lf (h : heap) (Q : Z -> heap -> Prop) :
  heap_rep l lf h -> sem_free (hp_kernel h) -> rt_interrupt_nest (hp_kernel h) = 0 ->
  (forall p h', malloc_post size l lf h p h' -> Q p h') -> runs_to (rt_malloc size) Q h.
Proof.
  intros Hr Hk Hn HQ. unfold malloc_post, alloc in HQ. pose proof (hr_shape _ _ _ Hr) as Hs.
  unfold rt_malloc. destruct (Z.eqb_spec size 0) as [->|Hsize]; simpl in HQ; [apply runs_to_ret; by apply HQ|].
  rewrite runs_to_bind, runs_to_kcall, wp_not_in_interrupt. split; [done|]. rewrite set_hp_kernel_same.
  rewrite runs_to_bind, runs_to_hget. rewrite Z.gtb_ltb.
  destruct (Z.ltb_spec (mem_size_aligned h) (RT_ALIGN size RT_ALIGN_SIZE)) as [Hbig|Hfit]; simpl in HQ.
  { apply runs_to_ret. by apply HQ. }
  set (n := if RT_ALIGN size RT_ALIGN_SIZE <? MIN_SIZE_ALIGNED then MIN_SIZE_ALIGNED else RT_ALIGN size RT_ALIGN_SIZE).
  assert (n = req_size size) as -> by (unfold n, req_size; case_if; lia). pose proof (req_divide size) as [Hdiv Hmin].
  assert (req_size size <= mem_size_aligned h) as Hle by (unfold req_size; pose proof (hs_size _ _ Hs); lia).
  apply runs_locked; [done|]. apply (wp_malloc_locked l lf); [done..|].
  destruct (alloc_blocks _ _ _ _ _) as [[o l']|] eqn:Ea.
  - intros v Hr' Hf'. destruct (alloc_blocks_spec _ _ _ _ _ _ _ Ea) as (l1 & n & l2 & -> & -> & -> & Hn' & Ho).
    destruct (block_address _ _ _ _ _ Hr) as (Ha0 & Ha4 & Ha1 & Ha2). simpl in Ha1. rewrite Z.add_0_l in *.
    pose proof (hf_end _ _ Hf') as Ee. apply runs_to_accesses, pwp_malloc_return; [done|done|simpl; lia|lia|simpl; lia|].
    apply HQ. split_and!; [done|done|by split].
  - apply runs_to_ret, HQ. split; [done|]. by destruct h.
Qed.

(** [rt_malloc] on a heap that nobody else is in is first fit: it takes the first free block at or above
    [lfree], below the bound of its loop, that has room for the request (rounded up to words and to the minimum
    size), splits it if the rest can hold a block, and returns the address behind the header; it returns
    [RT_NULL] and changes nothing if there is no such block. It ends, no assertion fails, the headers represent the
    new list of blocks, and [lfree] is the first free block there. *)
Theorem rt_malloc_first_fit size l lf (h : heap) :
  heap_rep l lf h -> sem_free (hp_kernel h) -> rt_interrupt_nest (hp_kernel h) = 0 ->
  runs_to (rt_malloc size) (malloc_post size l lf h) h.
Proof. intros Hr Hk Hn. by apply (runs_malloc size l lf). Qed.

(** What [rt_free] leaves. *)
Definition free_post (o : Z) (l : list block) (lf : Z) (h h' : heap) : Prop :=
  let l' := coalesce (mark_free o 0 l) in
  heap_rep l' (start_of (o `min` lf) 0 l') h' /\ heap_frame h h'.

Lemma used_address l lf o n h :
  heap_rep l lf h -> (o, n) ∈ used_blocks 0 l ->
  0 <= o /\ SIZEOF_STRUCT_MEM < n /\ (4 | heap_ptr h + o + SIZEOF_STRUCT_MEM) /\ 0 <= heap_ptr h /\
  heap_ptr h + o + n <= heap_end h /\ heap_end h < 2 ^ 32 - SIZEOF_STRUCT_MEM.
Proof.
  intros Hr Hin. pose proof Hin as Hb. apply used_blocks_bound in Hb; [|apply (hr_shape _ _ _ Hr)].
  destruct (used_blocks_split _ _ _ _ Hin) as (l1 & l2 & -> & ->). destruct (block_address _ _ _ _ _ Hr) as (? & Hd & ? & ?).
  simpl in *. rewrite Z.add_0_l in *. pose proof (hs_base _ _ (hr_shape _ _ _ Hr)).
  split_and!; [lia|lia| |lia..]. apply Z.divide_add_r; [done|by exists 3].
Qed.

Lemma runs_free l lf o n (h : heap) (Q : unit -> heap -> Prop) :
  heap_rep l lf h -> (o, n) ∈ used_blocks 0 l -> sem_free (hp_kernel h) -> rt_interrupt_nest (hp_kernel h) = 0 ->
  (forall h', free_post o l lf h h' -> Q tt h') -> runs_to (rt_free (heap_ptr h + o + SIZEOF_STRUCT_MEM)) Q h.
Proof.
  intros Hr Hin Hk Hn HQ. destruct (used_address _ _ _ _ _ Hr Hin) as (Ho & Hsz & Hd & Hp & He & Ht).
  unfold rt_free. rewrite (proj2 (Z.eqb_neq _ _)) by lia.
  rewrite runs_to_bind, runs_to_kcall, wp_not_in_interrupt. split; [done|]. rewrite set_hp_kernel_same.
  rewrite runs_to_bind, runs_to_hassert, land_3 by done. split; [done|].
  rewrite runs_to_bind, runs_to_hget, runs_to_bind, runs_to_hget, runs_to_bind, runs_to_hassert. split; [lia|].
  rewrite (proj2 (Z.ltb_ge _ (heap_ptr h))), Z.geb_leb, (proj2 (Z.leb_gt _ _)) by lia. simpl.
  rewrite u32_small by lia. replace (heap_ptr h + o + SIZEOF_STRUCT_MEM - SIZEOF_STRUCT_MEM) with (heap_ptr h + o) by lia.
  apply (runs_locked (free_locked (heap_ptr h + o)) (fun _ => mret tt)); [done|]. eapply (wp_free_locked l lf o n); [done..|].
  intros v l' -> Hr' Hf'. apply runs_to_ret, HQ. by split.
Qed.

(** C8: [rt_free] of a used block's address, on a heap that nobody else is in: the block becomes free and is
    joined with the free blocks before and behind it, so that again no two neighbours are free; [lfree] moves to the
    freed block if that is lower, and with the block it designates when that is joined. It ends, no assertion fails, and the headers represent the new list of blocks. *)
Theorem rt_free_coalesces l lf o n (h : heap) :
  heap_rep l lf h -> (o, n) ∈ used_blocks 0 l -> sem_free (hp_kernel h) -> rt_interrupt_nest (hp_kernel h) = 0 ->
  runs_to (rt_free (heap_ptr h + o + SIZEOF_STRUCT_MEM)) (fun _ h' => free_post o l lf h h') h.
Proof. intros. by eapply runs_free. Qed.

(** The used blocks after an allocation and after a release. *)
Lemma used_blocks_alloc ms size lf l o l' :
  Forall block_ok l -> alloc ms size lf l = Some (o, l') ->
  exists m, used_blocks 0 l' ≡ₚ (o, m) :: used_blocks 0 l /\ req_size size + SIZEOF_STRUCT_MEM <= m.
Proof.
  intros Hl Ha. destruct (alloc_spec _ _ _ _ _ _ Ha) as (l1 & n & l2 & -> & -> & -> & Hn & _).
  apply Forall_app in Hl as [H1 H2]. inversion_clear H2 as [|?? [Hbs Hb4] _]. simpl in Hbs, Hb4.
  destruct (carve_used (req_size size) n ltac:(lia) (total l1)) as (m & Em & Hm & _). exists m. split; [|lia].
  rewrite !used_blocks_app, Z.add_0_l, Em. rewrite carve_total by lia. simpl. symmetry. apply Permutation_middle.
Qed.

Lemma used_blocks_free o n l :
  Forall block_ok l -> (o, n) ∈ used_blocks 0 l -> (o, n) :: used_blocks 0 (coalesce (mark_free o 0 l)) ≡ₚ used_blocks 0 l.
Proof.
  intros Hl Hin. destruct (used_blocks_split _ _ _ _ Hin) as (l1 & l2 & -> & ->). rewrite Z.add_0_l.
  apply Forall_app in Hl as [H1 H2]. rewrite used_blocks_coalesce, mark_free_app by done. simpl.
  rewrite !used_blocks_app, Z.add_0_l. simpl. apply Permutation_middle.
Qed.

(** C6: what [rt_malloc] returns belongs to the caller alone: a non-null result is a word-aligned address inside of the
    heap with at least [size] bytes behind it (for every [size] up to 2^32 - 4), these bytes and their header lie outside of every block that was in use,
    all of which are still in use at the same place, and the content of the memory has not changed. *)
Theorem rt_malloc_exclusive size l lf (h : heap) :
  heap_rep l lf h -> sem_free (hp_kernel h) -> rt_interrupt_nest (hp_kernel h) = 0 -> 0 <= size <= 2 ^ 32 - 4 ->
  runs_to (rt_malloc size) (fun p h' => p ≠ RT_NULL -> exists l' lf' o n,
    heap_rep l' lf' h' /\ heap_frame h h' /\ p = heap_ptr h + o + SIZEOF_STRUCT_MEM /\ (4 | p) /\
    used_blocks 0 l' ≡ₚ (o, n) :: used_blocks 0 l /\ p + size <= heap_ptr h + o + n <= heap_end h /\
    forall o1 n1, (o1, n1) ∈ used_blocks 0 l -> o1 + n1 <= o \/ o + n <= o1) h.
Proof.
  intros Hr Hk Hn Hsize. apply (runs_malloc size l lf); [done..|]. intros p h' Hp Hnz. unfold malloc_post in Hp.
  destruct (alloc _ _ _ _) as [[o l']|] eqn:Ea; [|naive_solver]. destruct Hp as (-> & Hr' & Hf).
  destruct (used_blocks_alloc _ _ _ _ _ _ (hs_blocks _ _ (hr_shape _ _ _ Hr)) Ea) as (n & Hperm & Hn').
  assert ((o, n) ∈ used_blocks 0 l') as Hin by (rewrite Hperm; by left).
  destruct (used_address _ _ _ _ _ Hr' Hin) as (? & ? & Hd & ? & He & _). rewrite (hf_ptr _ _ Hf), (hf_end _ _ Hf) in *.
  exists l', (first_free lf l'), o, n. split_and!; [done..| |done|].
  - unfold req_size in Hn'. pose proof (align_spec size Hsize). lia.
  - intros o1 n1 Hin1. pose proof (hs_blocks _ _ (hr_shape _ _ _ Hr')) as Hl'.
    assert ((o1, n1) ∈ used_blocks 0 l') as Hin1' by (rewrite Hperm; by right).
    destruct (used_blocks_disjoint _ _ _ _ _ _ Hl' Hin Hin1') as [[<- <-]|[?|?]]; [|auto..].
    pose proof (used_blocks_NoDup 0 l' Hl') as Hnd. rewrite Hperm in Hnd. by apply NoDup_cons in Hnd as [].
Qed.

(** Releasing the block that was allocated gives the old blocks. *)
Lemma alloc_free_rep size l lf o l' (h h1 h2 : hvars) :
  heap_rep l lf h -> alloc (mem_size_aligned h) size lf l = Some (o, l') -> heap_rep l' (first_free lf l') h1 ->
  heap_rep (coalesce (mark_free o 0 l')) (start_of (o `min` first_free lf l') 0 (coalesce (mark_free o 0 l'))) h2 ->
  heap_rep l lf h2.
Proof.
  intros Hr Ea Hr1 Hr2. pose proof (hs_blocks _ _ (hr_shape _ _ _ Hr)) as Hl.
  destruct (alloc_spec _ _ _ _ _ _ Ea) as (l1 & k & l2 & -> & -> & -> & Hk' & Hlo). destruct (req_divide size) as [Hd Hm].
  pose proof Hl as [H1 H2]%Forall_app. inversion_clear H2 as [|?? [Hbs Hb4] Hl2]. simpl in Hb4.
  pose proof (carve_free (req_size size) k 0 l1 l2 H1 (hr_adj _ _ _ Hr)) as Ecf. rewrite Z.add_0_l in Ecf. rewrite Ecf in Hr2.
  assert (total l1 `min` first_free lf (l1 ++ carve (req_size size) (mkBlock false k) ++ l2) = lf) as E.
  { destruct (decide (lf = total l1)) as [->|Hne].
    - apply Z.min_l, first_free_ge. rewrite total_app, total_app, carve_total by done. simpl in *. pose proof (total_nonneg l2 Hl2). lia.
    - rewrite first_free_self; [lia|apply (hr_shape _ _ _ Hr1)|apply lf_ok_carve; try done; apply (hr_lf _ _ _ Hr)]. }
  rewrite E, start_of_ok in Hr2 by (done || apply (hr_lf _ _ _ Hr)). done.
Qed.

(** C7: releasing what [rt_malloc] returned undoes it: the blocks and [lfree] are the old ones again, and so is the amount of
    used memory. *)
Theorem rt_malloc_free_roundtrip size l lf (h : heap) :
  heap_rep l lf h -> sem_free (hp_kernel h) -> rt_interrupt_nest (hp_kernel h) = 0 ->
  runs_to (p ← rt_malloc size; rt_free p) (fun _ h' => heap_rep l lf h' /\ heap_frame h h') h.
Proof.
  intros Hr Hk Hn. rewrite runs_to_bind. apply (runs_malloc size l lf); [done..|]. intros p h1 Hp. unfold malloc_post in Hp.
  destruct (alloc _ _ _ _) as [[o l']|] eqn:Ea; [|destruct Hp as [-> ->]; by apply runs_to_ret].
  destruct Hp as (-> & Hr1 & Hf1). pose proof (hs_blocks _ _ (hr_shape _ _ _ Hr)) as Hl.
  destruct (used_blocks_alloc _ _ _ _ _ _ Hl Ea) as (n & Hperm & _).
  rewrite <- (hf_ptr _ _ Hf1). apply (runs_free l' (first_free lf l') o n); [done|rewrite Hperm; by left|by rewrite (hf_kernel _ _ Hf1)..|].
  intros h2 [Hr2 Hf2]. split; [by eapply alloc_free_rep|by etrans].
Qed.

(** ** [rt_system_heap_init] *)

Lemma wp_sem_init name value flag l Q k :
  rt_object_container k !! RT_Object_Class_Semaphore = Some l -> ipc_flag flag ->
  (forall k', object_typed (OSem heap_sem) RT_Object_Class_Semaphore k' -> sems k' !! heap_sem = Some (mkSem (u16 value)) ->
     qget k' (sem_q heap_sem) = [] -> Q RT_EOK k') -> wp (rt_sem_init heap_sem name value flag) Q k.
Proof.
  intros Hc Hf HQ. unfold rt_sem_init, rt_object_init, rt_object_get_information, object_link, rt_ipc_object_init, put_sem.
  wp_norm. rewrite wp_getso. exists l. split; [done|]. wp_norm. simpl.
  eexists. split; [by rewrite lookup_insert_eq|]. wp_norm. apply HQ; simpl.
  - unfold object_typed. simpl. rewrite lookup_insert_eq. by eexists.
  - by rewrite lookup_insert_eq.
  - rewrite qlist_insert, decide_True by done. done.
Qed.

(** [rt_system_heap_init] on an area of at least 36 bytes (after rounding its ends to words) makes a heap of one free
    block that covers the area up to the header of its end, and nobody in it. *)
Theorem rt_system_heap_init_spec begin_addr end_addr l (h : heap) :
  let b := RT_ALIGN begin_addr RT_ALIGN_SIZE in
  let e := RT_ALIGN_DOWN end_addr RT_ALIGN_SIZE in
  0 <= begin_addr <= 2 ^ 32 - 4 -> 0 <= end_addr < 2 ^ 32 -> 2 * SIZEOF_STRUCT_MEM + MIN_SIZE_ALIGNED <= e - b ->
  rt_interrupt_nest (hp_kernel h) = 0 -> rt_object_container (hp_kernel h) !! RT_Object_Class_Semaphore = Some l ->
  used_mem h = 0 -> 0 <= max_mem h ->
  runs_to (rt_system_heap_init begin_addr end_addr) (fun _ h' =>
    heap_rep [mkBlock false (e - b - SIZEOF_STRUCT_MEM)] 0 h' /\ heap_ptr h' = b /\ heap_end h' = e - SIZEOF_STRUCT_MEM /\
    sem_free (hp_kernel h')) h.
Proof.
  intros b e Hb He Hlen Hn Hc Eu Ex. destruct (align_spec begin_addr Hb) as [Hb4 Hbs]. fold b in Hb4, Hbs.
  assert (e = end_addr / 4 * 4) as Ee by apply align_4.
  assert (0 <= e <= end_addr /\ (4 | e)) as [Hes He4] by (rewrite Ee; split; [Z.to_euclidean_division_equations; lia|by eexists]).
  assert (4 | SIZEOF_STRUCT_MEM) as H12 by (by exists 3).
  unfold rt_system_heap_init, put_mem, block_at. fold b e. rewrite runs_to_bind, runs_to_kcall, wp_not_in_interrupt. split; [done|]. rewrite set_hp_kernel_same.
  rewrite Z.gtb_ltb, Z.geb_leb, (proj2 (Z.ltb_lt _ _)), (proj2 (Z.leb_le _ _)) by lia. simpl. wp_norm. simpl.
  rewrite (u32_small (e - b - _)), !(u32_small (_ + SIZEOF_STRUCT_MEM)), !(u32_small (b + _)) by lia.
  eapply wp_sem_init; [done|by left|]. intros k' Hk1 Hk2 Hk3. wp_norm. simpl.
  split_and!; [|done|lia|done]. split; simpl; [|done|lia|right; by left|done|lia].
  split; simpl; [lia|done|lia|lia|lia|lia| |].
  - constructor; [|done]. split; simpl; [lia|]. by apply Z.divide_sub_r; [apply Z.divide_sub_r|].
  - rewrite lookup_insert_ne by lia. rewrite Z.add_0_r, lookup_insert_eq. split; [unfold header; simpl; do 2 f_equal; lia|].
    eexists. replace (0 + (e - b - 12)) with (e - b - 2 * 12 + 12) by lia. by rewrite lookup_insert_eq.
Qed.

(** ** [rt_calloc] *)

Lemma lookup_set_bytes dst v n m a :
  set_bytes dst v n m !! a = if (dst <=? a) && (a <? dst + Z.of_nat n) then Some v else m !! a.
Proof.
  induction n as [|n IH]; cbn [set_bytes].
  - by destruct (Z.leb_spec dst a), (Z.ltb_spec a (dst + Z.of_nat 0)); simpl; try lia.
  - destruct (decide (dst + Z.of_nat n = a)) as [<-|Hne].
    + rewrite lookup_insert_eq. by rewrite (proj2 (Z.leb_le _ _)), (proj2 (Z.ltb_lt _ _)) by lia.
    + rewrite lookup_insert_ne, IH by done. by destruct (Z.leb_spec dst a), (Z.ltb_spec a (dst + Z.of_nat n)), (Z.ltb_spec a (dst + Z.of_nat (S n))); simpl; try lia.
Qed.

Lemma lookup_copy_bytes dst src n m a :
  copy_bytes dst src n m !! a = if (dst <=? a) && (a <? dst + Z.of_nat n) then m !! (src + (a - dst)) else m !! a.
Proof.
  induction n as [|n IH]; cbn [copy_bytes].
  - by destruct (Z.leb_spec dst a), (Z.ltb_spec a (dst + Z.of_nat 0)); simpl; try lia.
  - destruct (decide (dst + Z.of_nat n = a)) as [<-|Hne].
    + rewrite lookup_partial_alter_eq. rewrite (proj2 (Z.leb_le _ _)), (proj2 (Z.ltb_lt _ _)) by lia. f_equal. lia.
    + rewrite lookup_partial_alter_ne, IH by done. by destruct (Z.leb_spec dst a), (Z.ltb_spec a (dst + Z.of_nat n)), (Z.ltb_spec a (dst + Z.of_nat (S n))); simpl; try lia.
Qed.

Lemma heap_rep_bytes l lf m h : heap_rep l lf h -> heap_rep l lf (set_hp_bytes m h).
Proof. intros [[] ? ? ? ? ?]. by split. Qed.

(** [rt_calloc] whose product does not overflow: a non-null result has [count * size] zero bytes of the caller's own. *)
Theorem rt_calloc_zeroes count size l lf (h : heap) :
  heap_rep l lf h -> sem_free (hp_kernel h) -> rt_interrupt_nest (hp_kernel h) = 0 -> 0 <= count * size <= 2 ^ 32 - 4 ->
  runs_to (rt_calloc count size) (fun p h' => p ≠ RT_NULL -> exists l' lf' o n,
    heap_rep l' lf' h' /\ p = heap_ptr h + o + SIZEOF_STRUCT_MEM /\ used_blocks 0 l' ≡ₚ (o, n) :: used_blocks 0 l /\
    p + count * size <= heap_ptr h + o + n /\
    forall a, hp_bytes h' !! a = if (p <=? a) && (a <? p + count * size) then Some 0 else hp_bytes h !! a) h.
Proof.
  intros Hr Hk Hn Hp. unfold rt_calloc. rewrite u32_small by lia.
  rewrite runs_to_bind. apply (runs_malloc _ l lf); [done..|]. intros p h1 Hm. unfold malloc_post in Hm.
  destruct (alloc _ _ _ _) as [[o l']|] eqn:Ea.
  - destruct Hm as (Hpo & Hr1 & Hf1). pose proof (hs_blocks _ _ (hr_shape _ _ _ Hr)) as Hl.
    destruct (used_blocks_alloc _ _ _ _ _ _ Hl Ea) as (n & Hperm & Hn').
    rewrite runs_to_bind. destruct (Z.eqb_spec p RT_NULL); [by apply runs_to_ret, runs_to_ret|].
    rewrite runs_to_hset. apply runs_to_ret. intros _. exists l', (first_free lf l'), o, n.
    unfold req_size in Hn'. pose proof (align_spec _ Hp) as [_ Hal].
    split_and!; [by apply heap_rep_bytes|done|done|lia|]. intros a. simpl. rewrite lookup_set_bytes, Z2Nat.id, (hf_bytes _ _ Hf1) by lia. done.
  - destruct Hm as [-> ->]. rewrite runs_to_bind. simpl. apply runs_to_ret, runs_to_ret. done.
Qed.

(** ** [rt_realloc] *)

Lemma used_blocks_shrink o n k l :
  Forall block_ok l -> (o, n) ∈ used_blocks 0 l -> exists rest, used_blocks 0 l ≡ₚ (o, n) :: rest /\
    used_blocks 0 (coalesce (shrink_block o k 0 l)) ≡ₚ (o, k) :: rest.
Proof.
  intros Hl Hin. destruct (used_blocks_split _ _ _ _ Hin) as (l1 & l2 & -> & ->). rewrite Z.add_0_l.
  apply Forall_app in Hl as [H1 _]. rewrite used_blocks_coalesce, shrink_block_app by done.
  exists (used_blocks 0 l1 ++ used_blocks (total l1 + n) l2). rewrite !used_blocks_app, Z.add_0_l. simpl.
  replace (total l1 + k + (n - k)) with (total l1 + n) by lia.
  split; symmetry; apply Permutation_middle.
Qed.

(** What a caller of [rt_realloc] with a used block of [n] bytes at [o] gets. *)
Definition realloc_post (o n newsize : Z) (l : list block) (h : heap) (q : Z) (h' : heap) : Prop :=
  (q = RT_NULL /\ h' = h) \/
  exists l' lf' o' n' rest, heap_rep l' lf' h' /\ q = heap_ptr h + o' + SIZEOF_STRUCT_MEM /\ newsize <= n' - SIZEOF_STRUCT_MEM /\
    used_blocks 0 l ≡ₚ (o, n) :: rest /\ used_blocks 0 l' ≡ₚ (o', n') :: rest /\ hp_kernel h' = hp_kernel h /\
    forall i, 0 <= i < newsize `min` (n - SIZEOF_STRUCT_MEM) ->
      hp_bytes h' !! (q + i) = hp_bytes h !! (heap_ptr h + o + SIZEOF_STRUCT_MEM + i).

Lemma used_blocks_rest o n l :
  (o, n) ∈ used_blocks 0 l -> exists rest, used_blocks 0 l ≡ₚ (o, n) :: rest.
Proof. intros (a & b & ->)%list_elem_of_split. exists (a ++ b). symmetry. apply Permutation_middle. Qed.

(** The expansion: a new block, a copy, and the release of the old one. *)
Lemma runs_realloc_move l lf o n newsize (h : heap) (Q : Z -> heap -> Prop) :
  heap_rep l lf h -> (o, n) ∈ used_blocks 0 l -> sem_free (hp_kernel h) -> rt_interrupt_nest (hp_kernel h) = 0 ->
  0 < newsize <= 2 ^ 32 - 4 -> (4 | newsize) ->
  (forall q h', realloc_post o n newsize l h q h' -> Q q h') ->
  let rmem := heap_ptr h + o + SIZEOF_STRUCT_MEM in
  let size := n - SIZEOF_STRUCT_MEM in
  runs_to (nmem ← rt_malloc newsize;
    if nmem =? RT_NULL then mret nmem
    else hset (fun h => set_hp_bytes
            (copy_bytes nmem rmem (Z.to_nat (if size <? newsize then size else newsize)) (hp_bytes h)) h);;
         rt_free rmem;; mret nmem) Q h.
Proof.
  intros Hr Hin Hk Hn Hnew Ha HQ rmem size. destruct (used_address _ _ _ _ _ Hr Hin) as (Ho & Hsz & _ & Hp & He & Ht).
  pose proof (hs_blocks _ _ (hr_shape _ _ _ Hr)) as Hl.
  rewrite runs_to_bind. apply (runs_malloc _ l lf); [done..|]. intros q h1 Hm. unfold malloc_post in Hm.
  destruct (alloc _ _ _ _) as [[o' l']|] eqn:Ea; [|destruct Hm as [-> ->]; simpl; apply runs_to_ret, HQ; by left].
  destruct Hm as (Hq & Hr1 & Hf1). destruct (used_blocks_alloc _ _ _ _ _ _ Hl Ea) as (n' & Hperm & Hn').
  assert ((o', n') ∈ used_blocks 0 l') as Hin' by (rewrite Hperm; by left).
  destruct (used_address _ _ _ _ _ Hr1 Hin') as (Ho' & _ & _ & Hp' & _). rewrite (hf_ptr _ _ Hf1) in Hp'.
  rewrite (proj2 (Z.eqb_neq q _)) by lia. rewrite runs_to_bind, runs_to_hset. set (h2 := set_hp_vars _ h1).
  assert (rmem = heap_ptr h2 + o + SIZEOF_STRUCT_MEM) as Erm by (unfold h2; simpl; by rewrite (hf_ptr _ _ Hf1)).
  rewrite Erm. rewrite runs_to_bind. eapply (runs_free l' _ o n h2);
    [by apply heap_rep_bytes|rewrite Hperm; by right|simpl; by rewrite (hf_kernel _ _ Hf1)..|].
  intros h3 [Hr3 Hf3]. apply runs_to_ret, HQ. right.
  destruct (used_blocks_rest _ _ _ Hin) as (rest & Erest).
  eexists _, _, o', n', rest. split_and!; [exact Hr3|done| |done| | |].
  - unfold req_size in Hn'. pose proof (align_spec newsize ltac:(lia)). lia.
  - assert ((o, n) ∈ used_blocks 0 l') as Hin2 by (rewrite Hperm; by right).
    pose proof (used_blocks_free o n l' (hs_blocks _ _ (hr_shape _ _ _ Hr1)) Hin2) as Hpf.
    rewrite Hperm, Erest in Hpf. rewrite (Permutation_swap (o, n)) in Hpf. by apply Permutation_cons_inv in Hpf.
  - rewrite (hf_kernel _ _ Hf3). simpl. by rewrite (hf_kernel _ _ Hf1).
  - intros i Hi. rewrite (hf_bytes _ _ Hf3). simpl. rewrite lookup_copy_bytes, (hf_bytes _ _ Hf1).
    rewrite (proj2 (Z.leb_le _ _)), (proj2 (Z.ltb_lt _ _)); [simpl; f_equal; unfold rmem; lia| |lia].
    unfold size in *. destruct (Z.ltb_spec (n - SIZEOF_STRUCT_MEM) newsize); lia.
Qed.


(** ** Defects *)

(** A request for more than 2^32 - 4 bytes wraps to 0 when it is rounded up: the caller gets the same block of 12 bytes as for a
    request for one byte. *)
Theorem rt_malloc_wraps size l lf (h : heap) :
  heap_rep l lf h -> sem_free (hp_kernel h) -> rt_interrupt_nest (hp_kernel h) = 0 -> 2 ^ 32 - 4 < size < 2 ^ 32 ->
  runs_to (rt_malloc size) (malloc_post 1 l lf h) h.
Proof.
  intros Hr Hk Hn Hsize. apply (runs_malloc size l lf); [done..|]. intros p h'. unfold malloc_post.
  assert (RT_ALIGN size RT_ALIGN_SIZE = 0) as E.
  { change (RT_ALIGN size RT_ALIGN_SIZE) with (RT_ALIGN_DOWN (u32 (size + 4 - 1)) RT_ALIGN_SIZE). rewrite align_4.
    unfold uwrap. change (2 ^ 32) with 4294967296 in *. Z.to_euclidean_division_equations. lia. }
  assert (alloc (mem_size_aligned h) size lf l = alloc (mem_size_aligned h) 1 lf l) as ->; [|done].
  pose proof (hs_size _ _ (hr_shape _ _ _ Hr)). unfold alloc, req_size. rewrite E. change (RT_ALIGN 1 RT_ALIGN_SIZE) with 4.
  rewrite (proj2 (Z.eqb_neq size 0)), (proj2 (Z.ltb_ge _ 0)), (proj2 (Z.ltb_ge _ 4)) by lia. done.
Qed.

(** On a heap of 4 or 8 bytes (an area of 28 or 32) the loop of [rt_malloc] never ends: the minimum size exceeds the heap's, its bound wraps, and
    the header of the end designates itself. *)
Theorem malloc_loop_tiny_heap ms h fuel :
  ms = 4 \/ ms = 8 -> 0 <= heap_ptr h -> heap_ptr h + ms + 2 * SIZEOF_STRUCT_MEM < 2 ^ 32 -> mem_size_aligned h = ms ->
  rest_at (hp_mem h) (heap_ptr h) 0 0 [mkBlock false (ms + SIZEOF_STRUCT_MEM)] ->
  ~ pwp (malloc_loop fuel 0 MIN_SIZE_ALIGNED) (fun _ _ => True) h.
Proof.
  intros Hms Hb Ht Ems (E1 & (p & E2)). rewrite Z.add_0_r in E1. rewrite Z.add_0_l in E2. cbn [b_size] in E2.
  assert (u32 (ms - MIN_SIZE_ALIGNED) = 2 ^ 32 + ms - MIN_SIZE_ALIGNED) as Ebound by (destruct Hms as [->| ->]; done).
  assert (forall fuel, ~ pwp (malloc_loop fuel (ms + SIZEOF_STRUCT_MEM) MIN_SIZE_ALIGNED) (fun _ _ => True) h) as Hend.
  { intros f. induction f as [|f IH]; [intros []|]. cbn [malloc_loop]. wp_norm.
    rewrite Ems, Ebound, (proj2 (Z.ltb_lt _ _)) by lia. wp_norm. rewrite u32_small by lia. intros (m & Em & H). simplify_eq. exact (IH H). }
  destruct fuel as [|f]; [intros []|]. cbn [malloc_loop]. wp_norm. rewrite Ems, Ebound, (proj2 (Z.ltb_lt _ _)) by lia.
  wp_norm. rewrite u32_small, Z.add_0_r by lia. intros (m & Em & H). simplify_eq. simpl in H.
  rewrite (proj2 (Z.leb_gt MIN_SIZE_ALIGNED _)) in H by (rewrite u32_small; lia). exact (Hend f H).
Qed.

(** ** Examples *)

(** Memory with the headers of the blocks [l]. *)
Fixpoint build_headers (base prev off : Z) (l : list block) : gmap Z heap_mem :=
  match l with
  | [] => {[ base + off := mkHeapMem HEAP_MAGIC 1 off off ]}
  | b :: l => <[base + off := header prev off b]> (build_headers base off (off + b_size b) l)
  end.

Definition demo_heap_kernel : kernel :=
  set_sems {[ heap_sem := mkSem 1 ]} (set_queues (delete (sem_q heap_sem) (queues demo_kernel)) demo_kernel).

(** A heap at 0x20000000 with the blocks [l] and [lfree] at [lf]. *)
Definition demo_heap (k : kernel) (l : list block) (lf : Z) : heap :=
  mkHeap (mkVars (build_headers 536870912 0 0 l) ∅ 536870912 (536870912 + total l) (536870912 + lf) (total l - 12) (used_total l) (used_total l)) k.

Definition block_okb (b : block) : bool := (SIZEOF_STRUCT_MEM <? b_size b) && (b_size b mod 4 =? 0).

Lemma blocks_okb l : forallb block_okb l = true -> Forall block_ok l.
Proof.
  induction l as [|b l IH]; simpl; [done|]. intros [[H1 H2]%andb_true_iff H]%andb_true_iff. constructor; [|auto].
  split; [lia|]. apply Z.mod_divide; lia.
Qed.

Lemma build_headers_rest base prev off l : Forall block_ok l -> rest_at (build_headers base prev off l) base prev off l.
Proof.
  intros Hl. revert prev off. induction Hl as [|b l [Hb _] Hl IH]; intros prev off; simpl.
  - eexists. by rewrite lookup_singleton_eq.
  - rewrite lookup_insert_eq. split; [done|]. eapply rest_at_ext; [done| |apply IH].
    intros a Ha. apply lookup_insert_ne. lia.
Qed.

Lemma demo_heap_rep k l lf :
  forallb block_okb l = true -> 24 <= total l < 65536 -> no_adj l -> lf_ok lf l -> heap_rep l lf (demo_heap k l lf).
Proof.
  intros Hl%blocks_okb Ht Hadj Hlf. split; simpl; try done. split; simpl; try lia; [by exists 134217728|done|].
  by apply build_headers_rest.
Qed.

Definition demo_blocks : list block := [mkBlock true 24; mkBlock false 60; mkBlock true 40; mkBlock false 148].

Lemma demo_sem_free : sem_free demo_heap_kernel.
Proof. split_and!; [eexists; split_and!; [reflexivity|reflexivity|by left]|reflexivity..]. Qed.

Lemma demo_blocks_rep k : heap_rep demo_blocks 24 (demo_heap k demo_blocks 24).
Proof. apply demo_heap_rep; [done|simpl; lia|simpl; auto|right; by left]. Qed.
Definition demo_h : heap := demo_heap demo_heap_kernel demo_blocks 24.

Lemma rt_malloc_first_fit_witness : runs_to (rt_malloc 30) (malloc_post 30 demo_blocks 24 demo_h) demo_h.
Proof. apply rt_malloc_first_fit; [apply demo_blocks_rep|apply demo_sem_free|done]. Defined.

(** The 60 bytes at 24 are too small to be split for 30 bytes, and are big enough. *)
Example demo_malloc : alloc 260 30 24 demo_blocks = Some (24, [mkBlock true 24; mkBlock true 60; mkBlock true 40; mkBlock false 148]).
Proof. reflexivity. Qed.

Lemma rt_free_coalesces_witness :
  runs_to (rt_free (536870912 + 84 + 12)) (fun _ h' => free_post 84 demo_blocks 24 demo_h h') demo_h.
Proof.
  apply (rt_free_coalesces demo_blocks 24 84 40 demo_h); [apply demo_blocks_rep|simpl; set_solver|apply demo_sem_free|done].
Defined.

Example demo_free : coalesce (mark_free 84 0 demo_blocks) = [mkBlock true 24; mkBlock false 248].
Proof. reflexivity. Qed.

Lemma rt_malloc_exclusive_witness :
  runs_to (rt_malloc 30) (fun p h' => p ≠ RT_NULL -> exists l' lf' o n,
    heap_rep l' lf' h' /\ heap_frame demo_h h' /\ p = heap_ptr demo_h + o + SIZEOF_STRUCT_MEM /\ (4 | p) /\
    used_blocks 0 l' ≡ₚ (o, n) :: used_blocks 0 demo_blocks /\ p + 30 <= heap_ptr demo_h + o + n <= heap_end demo_h /\
    forall o1 n1, (o1, n1) ∈ used_blocks 0 demo_blocks -> o1 + n1 <= o \/ o + n <= o1) demo_h.
Proof. apply (rt_malloc_exclusive 30 demo_blocks 24); [apply demo_blocks_rep|apply demo_sem_free|done|lia]. Defined.

Lemma rt_malloc_free_roundtrip_witness :
  runs_to (p ← rt_malloc 100; rt_free p) (fun _ h' => heap_rep demo_blocks 24 h' /\ heap_frame demo_h h') demo_h.
Proof. apply rt_malloc_free_roundtrip; [apply demo_blocks_rep|apply demo_sem_free|done]. Defined.

(** A kernel with an empty container for semaphores, and memory with nothing in it. *)
Definition demo_fresh : heap :=
  mkHeap (mkVars ∅ ∅ 0 0 0 0 0 0) (set_rt_object_container {[ RT_Object_Class_Semaphore := [] ]} demo_kernel).

Lemma rt_system_heap_init_spec_witness :
  runs_to (rt_system_heap_init 536870913 536871200) (fun _ h' =>
    heap_rep [mkBlock false 272] 0 h' /\ heap_ptr h' = 536870916 /\ heap_end h' = 536871188 /\ sem_free (hp_kernel h')) demo_fresh.
Proof.
  apply (rt_system_heap_init_spec 536870913 536871200 [] demo_fresh); [lia|lia|vm_compute; done|reflexivity|reflexivity|reflexivity|done].
Defined.

Lemma rt_calloc_zeroes_witness :
  runs_to (rt_calloc 5 6) (fun p h' => p ≠ RT_NULL -> exists l' lf' o n,
    heap_rep l' lf' h' /\ p = heap_ptr demo_h + o + SIZEOF_STRUCT_MEM /\ used_blocks 0 l' ≡ₚ (o, n) :: used_blocks 0 demo_blocks /\
    p + 5 * 6 <= heap_ptr demo_h + o + n /\
    forall a, hp_bytes h' !! a = if (p <=? a) && (a <? p + 5 * 6) then Some 0 else hp_bytes demo_h !! a) demo_h.
Proof. apply (rt_calloc_zeroes 5 6 demo_blocks 24); [apply demo_blocks_rep|apply demo_sem_free|done|lia]. Defined.


(** [rt_calloc] does not check its product: 16 objects of 2^28 + 1 bytes are given 16 bytes. *)
Theorem rt_calloc_overflow : option_map fst (run (rt_calloc 16 268435457) demo_h) = Some (536870912 + 24 + 12).
Proof. vm_compute. reflexivity. Qed.

(** Shrinking a block in front of a used one makes a free block that [lfree] is not lowered to: here [lfree] is at the end of the heap, and 60
    bytes cannot be had although a free block of 80 is there. *)
Theorem rt_realloc_hides_block :
  option_map (fun r : (Z * Z) * heap => (r.1, hp_mem r.2 !! (536870912 + 32), lfree r.2 =? heap_end r.2))
    (run (r ← rt_realloc (536870912 + 12) 20; q ← rt_malloc 60; mret (r, q))
      (demo_heap demo_heap_kernel [mkBlock true 112; mkBlock true 160] 272)) =
  Some ((536870912 + 12, RT_NULL), Some (header 0 32 (mkBlock false 80)), true).
Proof. vm_compute. reflexivity. Qed.
