(* ===== verification/DynamicSpec.v ===== *)
(** The dynamic objects of [Dynamic] on the heap of [Heap], when nobody else is in it: what allocation and deletion of an object do, and that
    a semaphore that is created and deleted leaves nothing behind. *)

From S2P Require Import Prelude RtDef Object Scheduler Timer Thread Kernel Ipc Sem Mem Dynamic Blocks HeapRep Heap.

(** A step of the kernel within a program. *)
Lemma runs_kcall {A} {B : Set} (m : M B) (f : B -> prog A) (Q : A -> heap -> Prop) s h :
  wp m (fun b s' => runs_to (f b) Q (set_hp_kernel s' h)) s -> runs_to (kcall m ≫= f) Q (set_hp_kernel s h).
Proof. intros H. rewrite runs_to_bind, runs_to_kcall. exact H. Qed.

(** ** Allocation and deletion *)

(** The kernel with a new object [o] in front of the others [os] of its class. *)
Definition allocated (o : obj_id) (type : Z) (name : string) (os : list obj_id) (s : kernel) : kernel :=
  set_rt_object_container (<[type := o :: os]> (rt_object_container s))
    (set_objects (<[o := mkObject (object_name name) type 0]> (objects s)) s).

(** Neither the kernel nor the heap changes if there is no memory; otherwise the object is at the beginning of the first block that fits. *)
Lemma runs_allocate (object_size : Z -> Z) C type name os l lf (h : heap) (Q : option nat -> heap -> Prop) :
  heap_rep l lf h -> sem_free (hp_kernel h) -> rt_interrupt_nest (hp_kernel h) = 0 -> rt_object_container (hp_kernel h) !! type = Some os ->
  match alloc (mem_size_aligned h) (object_size type) lf l with
  | None => Q None h
  | Some (o, l') => let p := heap_ptr h + o + SIZEOF_STRUCT_MEM in
      p ≠ RT_NULL -> forall h' : heap, heap_rep l' (first_free lf l') h' -> vars_frame h (set_hp_bytes (hp_bytes h) h') ->
      hp_kernel h' = allocated (C (Z.to_nat p)) type name os (hp_kernel h) -> Q (Some (Z.to_nat p)) h'
  end ->
  runs_to (rt_object_allocate object_size C type name) Q h.
Proof.
  intros Hr Hsf Hn Hos HQ. unfold rt_object_allocate. rewrite runs_to_bind, runs_to_kcall, wp_not_in_interrupt. split; [done|].
  rewrite set_hp_kernel_same, runs_to_bind, runs_to_kcall. unfold rt_object_get_information at 1. rewrite wp_getso. exists os. split; [done|].
  rewrite set_hp_kernel_same, runs_to_bind. apply (runs_malloc _ l lf); [done..|]. intros p h1 Hm. unfold malloc_post in Hm.
  destruct (alloc _ _ _ _) as [[o l']|] eqn:Ea; [|destruct Hm as [-> ->]; by apply runs_to_ret].
  destruct Hm as (-> & Hr1 & Hf1). destruct (used_blocks_alloc _ _ _ _ _ _ (hs_blocks _ _ (hr_shape _ _ _ Hr)) Ea) as (n & Hperm & _).
  destruct (used_address l' _ o n _ Hr1) as (H1 & H2 & H3 & H4 & _); [rewrite Hperm; by left|]. rewrite (hf_ptr _ _ Hf1) in *.
  rewrite (proj2 (Z.eqb_neq _ _)) by lia. cbv zeta. rewrite runs_to_bind, runs_to_hset.
  rewrite <- (set_hp_kernel_same (set_hp_vars _ h1)). cbn [hp_kernel set_hp_vars]. rewrite (hf_kernel _ _ Hf1).
  apply runs_kcall. rewrite wp_modify. apply runs_kcall. wp_norm. unfold rt_object_get_information. rewrite wp_getso. exists os. split; [done|].
  unfold object_link. wp_norm. apply runs_to_ret, (HQ ltac:(lia)); [by apply heap_rep_bytes| |done].
  destruct Hf1 as [Hv _]. destruct h1 as [[] ?], Hv. by split.
Qed.

(** An object leaves the kernel, up to the release of its memory. *)
Lemma runs_object_delete o x s (h : heap) (Q : unit -> heap -> Prop) :
  objects s !! o = Some x -> static_obj x = false ->
  runs_to (rt_free (addr_of o)) Q
    (set_hp_kernel (set_rt_object_container (list_del o <$> rt_object_container s) (forget_object o s)) h) ->
  runs_to (rt_object_delete o) Q (set_hp_kernel s h).
Proof.
  intros Hx Hsx HQ. unfold rt_object_delete. apply runs_kcall. wp_norm. exists x. split; [done|]. wp_norm.
  split; [by apply negb_false_iff in Hsx|]. exists x. split; [done|]. wp_norm.
  match goal with |- runs_to _ _ ?st => match type of HQ with runs_to _ _ ?st' => replace st with st'; [done|] end end.
  unfold forget_object, set_hp_kernel. destruct o; simpl; by rewrite delete_insert_eq.
Qed.

(** ** A semaphore that comes and goes *)

(** The container without the object that was put in front. *)
Lemma container_restored o type os (c : gmap Z (list obj_id)) :
  c !! type = Some os -> (forall ty l, c !! ty = Some l -> o ∉ l) -> list_del o <$> <[type := o :: os]> c = c.
Proof.
  intros Hos Hno. apply map_eq. intros ty. rewrite lookup_fmap. destruct (decide (ty = type)) as [->|Hne].
  - rewrite lookup_insert_eq, Hos. simpl. f_equal. apply list_del_head. by eapply Hno.
  - rewrite lookup_insert_ne by done. destruct (c !! ty) as [l|] eqn:E; [|done]. simpl. f_equal. apply list_del_notin. by eapply Hno.
Qed.

(** No semaphore is in the memory of the heap [h] where there is none. *)
Definition no_sem_at (n : nat) (s : kernel) : Prop :=
  objects s !! OSem n = None /\ sems s !! n = None /\ qget s (sem_q n) = [] /\
  forall ty l, rt_object_container s !! ty = Some l -> OSem n ∉ l.

Definition sem_create_delete (object_size : Z -> Z) (name : string) (value flag : Z) : prog bool :=
  r ← rt_sem_create object_size name value flag;
  match r with Some n => rt_sem_delete n;; mret true | None => mret false end.

(** What such a semaphore leaves of the kernel: the entries of its waiting list apart, everything. *)
Record nothing_left (s s' : kernel) : Prop := {
  nl_objects : objects s' = objects s;
  nl_container : rt_object_container s' = rt_object_container s;
  nl_sems : sems s' = sems s;
  nl_threads : threads s' = threads s;
  nl_queues : forall q, qget s' q = qget s q;
  nl_current : rt_current_thread s' = rt_current_thread s;
}.

(** [rt_sem_delete] of a semaphore that nobody waits for. *)
Lemma runs_sem_delete n x s (h : heap) (Q : Z -> heap -> Prop) :
  rt_interrupt_nest s = 0 -> objects s !! OSem n = Some x -> obj_type x = RT_Object_Class_Semaphore -> qget s (sem_q n) = [] ->
  runs_to (rt_free (addr_of (OSem n))) (fun _ => Q RT_EOK)
    (set_hp_kernel (set_rt_object_container (list_del (OSem n) <$> rt_object_container s) (forget_object (OSem n) s)) h) ->
  runs_to (rt_sem_delete n) Q (set_hp_kernel s h).
Proof.
  intros Hn Hx Ht Hq HQ. unfold rt_sem_delete. apply runs_kcall. rewrite wp_not_in_interrupt. split; [done|].
  apply runs_kcall. unfold assert_dynamic, rt_object_is_systemobject. rewrite wp_bind, wp_assert_type. exists x. split_and!; [done|by rewrite Ht|].
  rewrite wp_bind. wp_norm. exists x. split; [done|]. rewrite Ht. wp_norm. split; [done|].
  change (hp_kernel (set_hp_kernel s h)) with s. unfold rt_ipc_list_resume_all. rewrite wp_bind, wp_gets, Hq. cbn [length resume_all_loop]. rewrite wp_bind, wp_tlist_isempty, Hq, bool_decide_eq_true_2 by done.
  rewrite wp_ret. rewrite runs_to_bind. apply (runs_object_delete (OSem n) x); [done|by unfold static_obj; rewrite Ht|].
  eapply runs_to_mono; [exact HQ|]. intros ? h' HQ'. by apply runs_to_ret.
Qed.


(** ** Example *)

Definition low_sem (o : obj_id) : bool := match o with OSem n => (n <? 2)%nat | _ => true end.
Definition low_sem_q (q : qid) : bool := match q with QSuspend o => low_sem o | _ => true end.

Definition demo_create_kernel : kernel := set_rt_object_container {[ RT_Object_Class_Semaphore := [OSem 0] ]} demo_heap_kernel.
Definition demo_create : heap := demo_heap demo_create_kernel demo_blocks 24.

Lemma demo_no_sem n : (2 <= n)%nat -> no_sem_at n demo_create_kernel.
Proof.
  intros Hn. assert (low_sem (OSem n) = false) as Hl by (simpl; by apply Nat.ltb_ge). split_and!.
  - destruct (objects demo_create_kernel !! OSem n) as [x|] eqn:E; [|done].
    assert (map_Forall (fun o _ => low_sem o = true) (objects demo_create_kernel)) as Hall by (apply (bool_decide_unpack _); vm_compute; exact I).
    specialize (Hall _ _ E). simpl in Hall, Hl. congruence.
  - simpl. apply lookup_singleton_ne. unfold heap_sem. lia.
  - unfold qlist. destruct (queues demo_create_kernel !! sem_q n) as [q|] eqn:E; [|done].
    assert (map_Forall (fun q _ => low_sem_q q = true) (queues demo_create_kernel)) as Hall by (apply (bool_decide_unpack _); vm_compute; exact I).
    specialize (Hall _ _ E). simpl in Hall, Hl. congruence.
  - intros ty l E. change (({[ RT_Object_Class_Semaphore := [OSem 0] ]} : gmap Z (list obj_id)) !! ty = Some l) in E. apply lookup_singleton_Some in E as [<- <-]. rewrite list_elem_of_singleton. intros [= ->]. lia.
Qed.

