(* ===== verification/Idle.v ===== *)
(** The idle thread's reaping of what ended threads have left (src/idle.c): the stack and the control block of
    each go back to the heap with [rt_free]. *)

From S2P Require Import Prelude RtDef Object Scheduler Timer Thread Kernel Ipc Life Sem Mem Dynamic Blocks HeapRep Heap DynamicSpec.

(** ** [rt_thread_idle_excute] *)

Section excute.
(** [thread->cleanup(thread)]. *)
Context (cleanup_call : Z -> nat -> prog unit).

(** The part of the loop's body with interrupts disabled: the defunct thread to free, or [None] where the function
    returns. *)
Definition reap_locked : prog (option nat) :=
  e ← kcall (tlist_isempty QDefunct);
  if e : bool then mret None
  else
    t ← kcall (tlist_first QDefunct);
    kcall (tlist_remove t);;
    kcall rt_enter_critical;;
    th ← kcall (get_thread t);
    hwhen (negb (th_cleanup th =? 0)) (cleanup_call (th_cleanup th) t);;
    b ← kcall (rt_object_is_systemobject (OThread t));
    kcall rt_exit_critical;;
    mret (if b : bool then None else Some t).

(** [fuel] bounds the defunct threads that are reaped in the call. *)
Fixpoint rt_thread_idle_excute (fuel : nat) : prog unit :=
  match fuel with
  | O => kcall rt_panic
  | S fuel =>
      e ← kcall (tlist_isempty QDefunct);
      if e : bool then mret tt
      else
        kcall RT_DEBUG_NOT_IN_INTERRUPT;;
        r ← reap_locked;
        match r with
        | None => mret tt
        | Some t =>
            th ← kcall (get_thread t);
            rt_free (th_stack_addr th);;
            rt_object_delete (OThread t);;
            rt_thread_idle_excute fuel
        end
  end.
End excute.

(** ** The invariant *)

(** The control block of a closed thread that is in no list is given back. *)
Lemma kinv_freed lo X t th s :
  kinv_at lo X s -> threads s !! t = Some th -> th_stat th = RT_THREAD_CLOSE -> (forall q, t ∉ qget s q) ->
  rt_current_thread s ≠ Some t -> kinv_at lo X (forget_object (OThread t) s).
Proof.
  intros [[Hq Hc Hok] Htm Ho Ha] Ht Hst Hno Hcur.
  assert (forall o : obj_id, o ∈ rt_timer_list s -> o ≠ OThread t /\ o ≠ OThreadTimer t) as Hl.
  { intros o Hin. destruct (tk_elem _ _ _ _ _ _ Htm o Hin) as (_ & tm & y & _ & Hy & Hty & _). split; intros ->.
    - by destruct (oo_kind _ _ _ Ho _ _ Hy Hty) as [[]|[]].
    - destruct (Ha t Hin) as (th' & ? & ?). simplify_eq. lia. }
  assert (forall (o : obj_id) y, delete (OThreadTimer t) (delete (OThread t) (objects s)) !! o = Some y -> objects s !! o = Some y) as Hback
    by (intros o y; rewrite !lookup_delete_Some; tauto).
  split; [split| | |]; simpl.
  - destruct Hq as [H1 H2 H3 H4 H5 H6]. split; [done|done| | |done|done].
    + intros q u Hu. destruct (H3 q u Hu) as (? & uh & Huh & ?). split; [done|]. exists uh.
      rewrite lookup_delete_ne; [done|]. intros <-. by apply (Hno q).
    + intros u uh Hu. rewrite lookup_delete_Some. intros [_ ?]. by apply H4.
  - destruct Hc as [H1 H2]. split.
    + intros u uh. rewrite lookup_delete_Some. intros [_ ?]. by eapply H1.
    + intros u Hu. destruct (H2 u Hu) as (uh & ? & ?). exists uh. rewrite lookup_delete_ne; [done|congruence].
  - by apply map_Forall_delete.
  - destruct Htm as [H1 H2 H3 H4 H5]. split; simpl; [done| | | |].
    + intros o Hin. destruct (H2 o Hin) as (? & tm & y & ?). destruct (Hl o Hin). split; [done|]. exists tm, y.
      by rewrite !lookup_delete_ne by done.
    + intros o y HX Hy. by apply H3, Hback.
    + eapply sorted_ext; [|exact H4]. intros a b Hina Hinb. destruct (Hl a Hina), (Hl b Hinb). unfold tdelta_at.
      by rewrite !lookup_delete_ne by done.
    + intros o y tm Hy Hty Hper Hact. rewrite lookup_delete_Some. intros [_ ?]. eapply H5; eauto.
  - destruct Ho as [H1 H2 H3]. split.
    + intros u uh. rewrite lookup_delete_Some. intros [Hne Hu] Huc. unfold thread_objects.
      rewrite !lookup_delete_ne by congruence. by eapply H1.
    + eauto.
    + intros n tm. rewrite lookup_delete_Some. intros [_ ?]. by eapply H3.
  - intros u Hu. destruct (Hl _ Hu). destruct (Ha u Hu) as (uh & ? & ?). exists uh. rewrite lookup_delete_ne; [done|congruence].
Qed.

(** No other thread than the running one [c] can run. *)
Definition runs_alone (c : nat) (s : kernel) : Prop :=
  rt_current_thread s = Some c /\ (exists th, threads s !! c = Some th /\ th_stat th = RT_THREAD_RUNNING) /\ ~ other_ready c s.

Lemma resched_alone c s s' c' cth' :
  kinv s -> runs_alone c s -> resched s s' -> rt_current_thread s' = Some c' -> threads s' !! c' = Some cth' ->
  th_stat cth' = RT_THREAD_RUNNING -> c' = c /\ forall u, threads s' !! u = threads s !! u.
Proof.
  intros Hk (Hc & (cth & Hcth & Hrun) & Hno) Hr Hc' Hcth' Hrun'.
  pose proof (co_running _ _ (si_current _ (ki_sched _ _ _ Hk))) as Hcur.
  assert (forall u th st, u ≠ c -> threads s !! u = Some th -> threads s' !! u = Some (set_th_stat st th) ->
    th_stat th = RT_THREAD_READY \/ th_stat th = RT_THREAD_RUNNING -> False) as Hother.
  { intros u th st Hne Hu _ [E|E]; [apply Hno; by exists u, th|]. specialize (Hcur u th Hu E). congruence. }
  assert (c' = c) as ->.
  { destruct (decide (c' = c)) as [->|Hne]; [done|]. destruct (rs_thread _ _ Hr c') as [E|(th & st & E1 & E2 & Hst & _)]; [|by destruct (Hother c' th st)].
    rewrite E in Hcth'. specialize (Hcur c' cth' Hcth' Hrun'). congruence. }
  split; [done|]. intros u. destruct (rs_thread _ _ Hr u) as [E|(th & st & E1 & E2 & Hst & _)]; [done|].
  destruct (decide (u = c)) as [->|Hne]; [|by destruct (Hother u th st)]. rewrite Hcth' in E2. simplify_eq. simpl in Hrun'. subst st.
  rewrite Hcth', Hcth. f_equal. by destruct cth; simpl in *; subst.
Qed.

(** ** One round *)

(** What the reaping of [t] leaves of a thread and its objects. *)
Definition reaped (t : nat) (s : kernel) : Prop :=
  threads s !! t = None /\ objects s !! OThread t = None /\ objects s !! OThreadTimer t = None /\
  timers s !! OThreadTimer t = None.

(** Everything else is as it was. *)
Record reap_frame (ts : list nat) (s s' : kernel) : Prop := {
  rf_threads : forall u, u ∉ ts -> threads s' !! u = threads s !! u;
  rf_objects : forall o, (forall t, t ∈ ts -> o ≠ OThread t /\ o ≠ OThreadTimer t) ->
    objects s' !! o = objects s !! o /\ timers s' !! o = timers s !! o;
  rf_queues : forall q, (forall p, q ≠ QReady p) -> q ≠ QDefunct -> qget s' q = qget s q;
  rf_sems : sems s' = sems s;
  rf_current : rt_current_thread s' = rt_current_thread s;
  rf_lock : rt_scheduler_lock_nest s' = rt_scheduler_lock_nest s;
  rf_nest : rt_interrupt_nest s' = rt_interrupt_nest s;
}.

(** A defunct thread that the loop frees: dynamic, without a cleanup function, with its stack and its control block at
    [sa] and [ta]. *)
Definition reapable (s : kernel) (d : nat * Z * Z) : Prop :=
  let '(t, sa, ta) := d in
  exists th x, threads s !! t = Some th /\ th_cleanup th = 0 /\ th_stack_addr th = sa /\ addr_of (OThread t) = ta /\
    objects s !! OThread t = Some x /\ static_obj x = false.

Lemma sem_free_frame ts s s' : sem_free s -> reap_frame ts s s' -> sem_free s'.
Proof.
  intros ((x & Hx & Ht & Hf) & Hs & Hq) Hr. split_and!.
  - exists x. destruct (rf_objects _ _ _ Hr (OSem heap_sem)) as [-> _]; [intros; by split|done].
  - by rewrite (rf_sems _ _ _ Hr).
  - by rewrite (rf_queues _ _ _ Hr).
Qed.

Lemma alone_frame c ts s s' : c ∉ ts -> (forall t, t ∈ ts -> reaped t s') -> runs_alone c s -> reap_frame ts s s' -> runs_alone c s'.
Proof.
  intros Hc Hts (H1 & (th & H2 & H3) & H4) Hr. split_and!; [by rewrite (rf_current _ _ _ Hr)| |].
  - exists th. by rewrite (rf_threads _ _ _ Hr).
  - intros (u & uh & Hu & Huh & Hst). apply H4. exists u, uh. split_and!; [done| |done].
    rewrite <- (rf_threads _ _ _ Hr); [done|]. intros Hin. destruct (Hts u Hin) as [E _]. congruence.
Qed.

Section rounds.
Context (cleanup_call : Z -> nat -> prog unit).

(** The part with interrupts disabled. *)
Lemma runs_reap_locked c t ts sa ta (h : heap) Q :
  kinv (hp_kernel h) -> runs_alone c (hp_kernel h) -> 0 <= rt_scheduler_lock_nest (hp_kernel h) < 32767 ->
  qget (hp_kernel h) QDefunct = t :: ts -> reapable (hp_kernel h) (t, sa, ta) ->
  (forall s', kinv s' -> reap_frame [] (hp_kernel h) s' -> qget s' QDefunct = ts ->
     (forall q, t ∉ qget s' q) -> Q (Some t) (set_hp_kernel s' h)) ->
  runs_to (reap_locked cleanup_call) Q h.
Proof.
  intros Hk Ha Hn Hq (th & x & Ht & Hcl & _ & _ & Hx & Hsx) HQ. set (s := hp_kernel h) in *.
  pose proof Ha as (Hc & (cth & Hcth & Hrun) & Hno). pose proof (ki_sched _ _ _ Hk) as [Hqo Hco Hok].
  destruct (qo_loc _ _ _ _ Hqo QDefunct t) as (_ & th' & ? & Hst); [rewrite Hq; by left|]. simplify_eq. simpl in Hst.
  pose proof (qo_nodup _ _ _ _ Hqo QDefunct) as Hnd. rewrite Hq in Hnd. apply NoDup_cons in Hnd as [Htl Hnd].
  rewrite <- (set_hp_kernel_same h). fold s. unfold reap_locked.
  apply runs_kcall. rewrite wp_tlist_isempty, Hq, bool_decide_eq_false_2 by done.
  apply runs_kcall. rewrite wp_tlist_first. exists t, ts. split; [done|].
  apply runs_kcall. rewrite wp_tlist_remove. set (s1 := set_queues (q_remove t (queues s)) s).
  assert (kinv s1) as Hk1.
  { split; [split| | |]; try done; [|apply Hk..]. eapply queue_place_none; [|exact Ht|lia].
    eapply queue_detach_suspended; [done..|lia]. }
  apply runs_kcall. unfold rt_enter_critical. rewrite wp_modify.
  apply runs_kcall. rewrite wp_get_thread. exists th. split; [done|].
  rewrite Hcl, runs_to_bind. cbn [hwhen Z.eqb negb]. apply runs_to_ret.
  apply runs_kcall. unfold rt_object_is_systemobject. wp_norm. exists x. split; [done|]. wp_norm. fold (static_obj x). rewrite Hsx.
  eapply (wp_critical_section c cth s1); [done..|]. intros s3 c' cth' Hk3 Hrs Hc3 Hcth3 Hrun3. apply runs_to_ret.
  assert (runs_alone c s1) as Ha1 by (split_and!; [done|by exists cth|done]).
  destruct (resched_alone c s1 s3 c' cth') as [-> Eth]; [done..|].
  assert (forall q, (forall p, q ≠ QReady p) -> qget s3 q = list_del t (qget s q)) as Eq
    by (intros q Hnr; rewrite (rs_waits _ _ Hrs) by done; simpl; apply qlist_remove).
  pose proof (rs_frame _ _ Hrs) as Hfr.
  assert (forall q, t ∉ qget s3 q) as Hno3.
  { intros q Hin. destruct (qo_loc _ _ _ _ (si_queue _ (ki_sched _ _ _ Hk3)) _ _ Hin) as (_ & th'' & E & Hl).
    rewrite Eth in E. simpl in E. simplify_eq. destruct q; simpl in Hl; try lia.
    rewrite Eq, Hq, list_del_head in Hin by done. done. }
  apply (HQ s3); [done| |rewrite Eq, Hq by done; by apply list_del_head|done]. split.
  - intros u _. by rewrite Eth.
  - intros o _. by rewrite (sf_objects _ _ Hfr), (sf_timers _ _ Hfr).
  - intros q Hnr Hnd'. rewrite Eq by done. apply list_del_notin. intros Hin.
    destruct (qo_loc _ _ _ _ Hqo _ _ Hin) as (_ & th'' & E & Hl). simplify_eq. destruct q; simpl in Hl; (lia || done).
  - by rewrite (sf_sems _ _ Hfr).
  - by rewrite Hc3, Hc.
  - by rewrite (sf_lock _ _ Hfr).
  - by rewrite (sf_nest _ _ Hfr).
Qed.

(** One round of the loop. *)
Lemma runs_round fuel c t ts sa ta bs bt rest l lf (h : heap) Q :
  kinv (hp_kernel h) -> runs_alone c (hp_kernel h) -> 0 <= rt_scheduler_lock_nest (hp_kernel h) < 32767 ->
  rt_interrupt_nest (hp_kernel h) = 0 -> sem_free (hp_kernel h) ->
  qget (hp_kernel h) QDefunct = t :: ts ->
  reapable (hp_kernel h) (t, sa, ta) -> sa = heap_ptr h + bs.1 + SIZEOF_STRUCT_MEM -> ta = heap_ptr h + bt.1 + SIZEOF_STRUCT_MEM ->
  heap_rep l lf h -> used_blocks 0 l ≡ₚ bs :: bt :: rest ->
  (forall h' l' lf', kinv (hp_kernel h') -> reap_frame [t] (hp_kernel h) (hp_kernel h') -> qget (hp_kernel h') QDefunct = ts ->
     reaped t (hp_kernel h') -> heap_rep l' lf' h' -> heap_ptr h' = heap_ptr h -> used_blocks 0 l' ≡ₚ rest ->
     runs_to (rt_thread_idle_excute cleanup_call fuel) Q h') ->
  runs_to (rt_thread_idle_excute cleanup_call (S fuel)) Q h.
Proof.
  intros Hk Ha Hn Hi Hsf Hq Hrp Esa Eta Hr Hperm HQ. set (s := hp_kernel h) in *.
  pose proof Ha as (Hc & (cth & Hcth & Hrun) & _). destruct (Hrp) as (th & x & Ht & _ & Hsa & Hta & Hx & Hsx).
  destruct (qo_loc _ _ _ _ (si_queue _ (ki_sched _ _ _ Hk)) QDefunct t) as (_ & th' & ? & Hst); [rewrite Hq; by left|]. simplify_eq. simpl in Hst.
  cbn [rt_thread_idle_excute]. rewrite <- (set_hp_kernel_same h). fold s.
  apply runs_kcall. rewrite wp_tlist_isempty, Hq, bool_decide_eq_false_2 by done.
  apply runs_kcall. rewrite wp_not_in_interrupt. split; [done|]. rewrite runs_to_bind.
  eapply (runs_reap_locked c t ts); [done|done|done|done|exact Hrp|]. cbn [hp_kernel set_hp_kernel]. intros s3 Hk3 Hf3 Hq3 Hno3.
  change (set_hp_kernel s3 (set_hp_kernel s h)) with (set_hp_kernel s3 h).
  assert (threads s3 !! t = Some th) as Ht3 by (by rewrite (rf_threads _ _ _ Hf3) by apply not_elem_of_nil).
  destruct (rf_objects _ _ _ Hf3 (OThread t)) as [Eo3 _]; [by intros u ?%elem_of_nil|].
  apply runs_kcall. rewrite wp_get_thread. exists th. split; [done|]. rewrite runs_to_bind, Hsa. destruct bs as [o n], bt as [o' n']. simpl fst.
  assert (Forall block_ok l) as Hbl by apply (hs_blocks _ _ (hr_shape _ _ _ Hr)).
  assert ((o, n) ∈ used_blocks 0 l) as Hin by (rewrite Hperm; by left).
  apply (runs_free l lf o n (set_hp_kernel s3 h)); [done|done|by eapply sem_free_frame|simpl; by rewrite (rf_nest _ _ _ Hf3)|].
  intros h1 [Hr1 Hfr1]. set (l1 := coalesce (mark_free o 0 l)) in *. pose proof (used_blocks_free o n l Hbl Hin) as Hp1. fold l1 in Hp1.
  rewrite Hperm in Hp1. apply Permutation_cons_inv in Hp1.
  assert (Forall block_ok l1) as Hbl1 by apply (hs_blocks _ _ (hr_shape _ _ _ Hr1)).
  assert ((o', n') ∈ used_blocks 0 l1) as Hin1 by (rewrite Hp1; by left).
  rewrite runs_to_bind, <- (set_hp_kernel_same h1), (hf_kernel _ _ Hfr1). cbn [hp_kernel set_hp_kernel].
  apply (runs_object_delete (OThread t) x); [by rewrite Eo3|done|]. rewrite Hta. simpl fst.
  assert (rt_current_thread s3 ≠ Some t) as Hct.
  { rewrite (rf_current _ _ _ Hf3), Hc. intros [= ->]. simplify_eq. lia. }
  pose proof (kinv_freed 0 None t th s3 Hk3 Ht3 Hst Hno3 Hct) as Hk4. set (s4 := set_rt_object_container _ _).
  assert (kinv s4) as Hk4' by (by apply kinv_set_container).
  assert (reap_frame [t] s s4) as Hf4.
  { split.
    - intros u Hu. simpl. rewrite lookup_delete_ne by set_solver. apply (rf_threads _ _ _ Hf3). apply not_elem_of_nil.
    - intros ob Hob. destruct (Hob t) as [H1 H2]; [by left|]. simpl. rewrite !lookup_delete_ne by done.
      apply (rf_objects _ _ _ Hf3). by intros u ?%elem_of_nil.
    - apply Hf3.
    - apply (rf_sems _ _ _ Hf3).
    - apply (rf_current _ _ _ Hf3).
    - apply (rf_lock _ _ _ Hf3).
    - apply (rf_nest _ _ _ Hf3). }
  assert (heap_ptr h1 = heap_ptr h) as Ep by exact (hf_ptr _ _ Hfr1). rewrite <- Ep.
  apply (runs_free l1 (start_of (o `min` lf) 0 l1) o' n' (set_hp_kernel s4 h1)); [exact Hr1|done|by eapply sem_free_frame|change (rt_interrupt_nest s4 = 0); by rewrite (rf_nest _ _ _ Hf4)|].
  intros h2 [Hr2 Hfr2]. pose proof (hf_kernel _ _ Hfr2) as Ek. simpl in Ek.
  eapply (HQ h2); [by rewrite Ek| by rewrite Ek|by rewrite Ek| |exact Hr2| |].
  - rewrite Ek. split_and!; simpl; rewrite ?(lookup_delete_ne _ (OThreadTimer t) (OThread t)) by done; apply lookup_delete_eq.
  - rewrite <- Ep. exact (hf_ptr _ _ Hfr2).
  - pose proof (used_blocks_free o' n' l1 Hbl1 Hin1) as Hp2. rewrite Hp1 in Hp2. by apply Permutation_cons_inv in Hp2.
Qed.
End rounds.

(** ** The whole call *)

(** Frames compose. *)
Lemma reap_frame_cons t ts s1 s2 s3 : reap_frame [t] s1 s2 -> reap_frame ts s2 s3 -> reap_frame (t :: ts) s1 s3.
Proof.
  intros H1 H2. split.
  - intros u [Hut Hu]%not_elem_of_cons. rewrite (rf_threads _ _ _ H2), (rf_threads _ _ _ H1); [done|by rewrite list_elem_of_singleton|done].
  - intros o Ho. destruct (rf_objects _ _ _ H2 o) as [-> ->]; [intros u Hu; apply Ho; by right|].
    apply (rf_objects _ _ _ H1). intros u ->%list_elem_of_singleton. apply Ho. by left.
  - intros q Hq Hd. rewrite (rf_queues _ _ _ H2), (rf_queues _ _ _ H1) by done. done.
  - by rewrite (rf_sems _ _ _ H2), (rf_sems _ _ _ H1).
  - by rewrite (rf_current _ _ _ H2), (rf_current _ _ _ H1).
  - by rewrite (rf_lock _ _ _ H2), (rf_lock _ _ _ H1).
  - by rewrite (rf_nest _ _ _ H2), (rf_nest _ _ _ H1).
Qed.

Lemma reap_frame_refl s : reap_frame [] s s.
Proof. by split. Qed.

(** A reaped thread stays so. *)
Lemma reaped_frame t ts s s' : t ∉ ts -> reaped t s -> reap_frame ts s s' -> reaped t s'.
Proof.
  intros Ht (R1 & R2 & R3 & R4) Hf. destruct (rf_objects _ _ _ Hf (OThread t)) as [E1 _]; [intros u Hu; split; congruence|].
  destruct (rf_objects _ _ _ Hf (OThreadTimer t)) as [E2 E3]; [intros u Hu; split; congruence|].
  unfold reaped. by rewrite (rf_threads _ _ _ Hf), E1, E2, E3.
Qed.

(** The threads of the list [ds], with the offsets of their stacks' and their control blocks' blocks. *)
Definition defunct_blocks (ds : list (nat * (Z * Z) * (Z * Z))) : list (Z * Z) := ds ≫= fun d => [d.1.2; d.2].
Definition defunct_in (h : heap) (d : nat * (Z * Z) * (Z * Z)) : Prop :=
  reapable (hp_kernel h) (d.1.1, heap_ptr h + d.1.2.1 + SIZEOF_STRUCT_MEM, heap_ptr h + d.2.1 + SIZEOF_STRUCT_MEM).

Section excute_spec.
Context (cleanup_call : Z -> nat -> prog unit).

End excute_spec.

(** ** Example *)

(** The idle thread 2 runs alone; the thread 1076, whose stack is at 1036, is defunct: both are used blocks of a
    heap at 1024. *)
Definition demo_defunct : thread := mkThread 1060 0 0 1036 24 35 0 RT_THREAD_CLOSE 6 6 (prio_mask 6) 0 0 5 5 0 0.
Definition demo_idle_kernel : kernel :=
  mkKernel
    (list_to_map [(2%nat, demo_thread 2 RT_THREAD_RUNNING 31); (3%nat, demo_thread 3 RT_THREAD_SUSPEND 8); (1076%nat, demo_defunct)])
    (list_to_map [(OThread 2, static_object RT_Object_Class_Thread 0); (OThreadTimer 2, static_object RT_Object_Class_Timer 0);
       (OThread 3, static_object RT_Object_Class_Thread 0); (OThreadTimer 3, static_object RT_Object_Class_Timer 0);
       (OThread 1076, mkObject "d" RT_Object_Class_Thread 0); (OSem 0, static_object RT_Object_Class_Semaphore 0)])
    ∅
    (list_to_map [(QDefunct, [1076%nat]); (QSuspend (OSem 1), [3%nat])])
    0 (Some 2%nat) 31 0 0 77
    (list_to_map ((fun t => (OThreadTimer t, mkTimer (CbThreadTimeout t) 5 0)) <$> [2%nat; 3%nat]))
    [] 0 {[ heap_sem := mkSem 1 ]} ∅ ∅ ∅ ∅.
Definition demo_idle_blocks : list block := [mkBlock true 40; mkBlock true 100; mkBlock false 60; mkBlock true 40].
Definition demo_idle : heap :=
  mkHeap (mkVars (build_headers 1024 0 0 demo_idle_blocks) ∅ 1024 1264 1164 228 180 180) demo_idle_kernel.

Lemma demo_idle_inv : kinv demo_idle_kernel.
Proof. apply kinvb_sound. vm_compute. reflexivity. Qed.

Lemma demo_idle_rep : heap_rep demo_idle_blocks 140 demo_idle.
Proof.
  assert (Forall block_ok demo_idle_blocks) as Hl by (by apply blocks_okb).
  pose proof (build_headers_rest 1024 0 0 demo_idle_blocks Hl) as Hrest.
  split; [split; [simpl; lia|by exists 256|simpl; lia..|reflexivity|reflexivity|exact Hl|exact Hrest]|simpl; tauto|reflexivity|right; simpl; set_solver|reflexivity|simpl; lia].
Qed.

Lemma demo_idle_alone : runs_alone 2 demo_idle_kernel.
Proof.
  split_and!; [done|eexists; split; reflexivity|]. intros (u & uh & Hu & Huh & Hst).
  assert (map_Forall (fun _ th => th_stat th ≠ RT_THREAD_READY) (threads demo_idle_kernel)) as Hall by (apply (bool_decide_unpack _); vm_compute; exact I).
  by apply (Hall u uh).
Qed.

Definition no_cleanup (f : Z) (t : nat) : prog unit := mret tt.

