(* ===== verification/HeapSystem.v ===== *)
(** The heap used by several threads: the programs of [rt_malloc] and [rt_free] ([Mem]), interleaved access by access, against a heap whose operations
    are atomic. Only [heap_sem] keeps the threads apart. *)

From S2P Require Import Prelude RtDef Object Scheduler Timer Thread Kernel Ipc Sem Mem Blocks HeapRep Heap.

(** ** The system *)

(** A call of the interface, and what it executes; the result of [rt_free] does not count. *)
Inductive heap_call := CMalloc (size : Z) | CFree (p : Z).
Definition call_prog (c : heap_call) : prog Z :=
  match c with CMalloc size => p ← rt_malloc size; mret p | CFree p => rt_free p;; mret 0 end.

(** A thread in a call: it executes [p], or it waits for [heap_sem] and then goes on with [k] and the result. *)
Inductive task := Runs (p : prog Z) | Waits (k : Z -> prog Z).

(** One step of the thread [t] in its call: a single access, or a single call of the kernel. A returned call has none. *)
Definition task_step (t : nat) (x : task) : stM heap task :=
  match x with
  | Runs (Return _) => rt_panic
  | Runs (Access m k) => b ← in_vars m; mret (Runs (k b))
  | Runs (InKernel m k) => b ← in_kernel m; mret (Runs (k b))
  | Runs (TakeSem k) =>
      r ← in_kernel (rt_sem_take heap_sem RT_WAITING_FOREVER);
      mret (match r with Ret v => Runs (k v) | Block _ => Waits k end)
  | Runs (ReleaseSem k) => v ← in_kernel (rt_sem_release heap_sem); mret (Runs (k v))
  | Waits k => v ← in_kernel (rt_sem_take_resume t); mret (Runs (k v))
  end.

(** The heap and the kernel, the threads that are in a call, and the addresses that have been returned by [rt_malloc] and not yet given to [rt_free]. *)
Record config := mkConfig {
  cf_heap : heap;
  cf_tasks : gmap nat (heap_call * task);
  cf_owned : gset Z;
}.

(** The thread [t] has the CPU, outside of interrupts. *)
Definition runs (t : nat) (k : kernel) : Prop :=
  rt_current_thread k = Some t /\ (exists th, threads k !! t = Some th /\ th_stat th = RT_THREAD_RUNNING) /\ rt_interrupt_nest k = 0.

(** What everything else may do at any time: interrupts, context switches, and the calls of the other objects keep the kernel sound, and leave the
    value and the waiting list of [heap_sem] alone. *)
Definition others (k k' : kernel) : Prop :=
  kinv k' /\ sem_ok heap_sem k' /\ sems k' !! heap_sem = sems k !! heap_sem /\ qget k' (sem_q heap_sem) = qget k (sem_q heap_sem).

(** The beginning and the end of a call are visible. A caller gives to [rt_free] what it owns, and a non-null result of [rt_malloc] is owned from then on. *)
Inductive label := LCall (t : nat) (c : heap_call) | LReturn (t : nat) (c : heap_call) (r : Z).

Definition owns (c : heap_call) (owned : gset Z) : Prop := match c with CMalloc _ => True | CFree p => p ∈ owned end.
Definition gives (c : heap_call) (owned : gset Z) : gset Z := match c with CMalloc _ => owned | CFree p => owned ∖ {[p]} end.
Definition gets_back (c : heap_call) (r : Z) (owned : gset Z) : gset Z :=
  match c with CMalloc _ => if r =? RT_NULL then owned else {[r]} ∪ owned | CFree _ => owned end.

Inductive cstep (cf : config) : option label -> config -> Prop :=
| cstep_call t c :
    runs t (hp_kernel (cf_heap cf)) -> cf_tasks cf !! t = None -> owns c (cf_owned cf) ->
    cstep cf (Some (LCall t c)) (mkConfig (cf_heap cf) (<[t := (c, Runs (call_prog c))]> (cf_tasks cf)) (gives c (cf_owned cf)))
| cstep_task t c x x' h' :
    runs t (hp_kernel (cf_heap cf)) -> cf_tasks cf !! t = Some (c, x) -> task_step t x (cf_heap cf) = Some (x', h') ->
    cstep cf None (mkConfig h' (<[t := (c, x')]> (cf_tasks cf)) (cf_owned cf))
| cstep_return t c r :
    runs t (hp_kernel (cf_heap cf)) -> cf_tasks cf !! t = Some (c, Runs (Return r)) ->
    cstep cf (Some (LReturn t c r)) (mkConfig (cf_heap cf) (delete t (cf_tasks cf)) (gets_back c r (cf_owned cf)))
| cstep_others k :
    others (hp_kernel (cf_heap cf)) k -> cstep cf None (mkConfig (set_hp_kernel k (cf_heap cf)) (cf_tasks cf) (cf_owned cf)).

(** A run, with what is visible of it. *)
Definition visible (l : option label) (tr : list label) : list label := match l with Some a => a :: tr | None => tr end.
Inductive csteps (cf : config) : list label -> config -> Prop :=
| csteps_refl : csteps cf [] cf
| csteps_step l tr cf1 cf2 : cstep cf l cf1 -> csteps cf1 tr cf2 -> csteps cf (visible l tr) cf2.

(** ** The specification: a heap whose operations are atomic *)

(** The blocks and the offset of [lfree]. *)
Abbreviation X := (list block * Z)%type.

(** What the call does to the blocks, and its result. *)
Definition malloc_op (base ms size : Z) (x : X) (p : Z) (y : X) : Prop :=
  match alloc ms size x.2 x.1 with
  | Some (o, l') => p = base + o + SIZEOF_STRUCT_MEM /\ y = (l', first_free x.2 l')
  | None => p = RT_NULL /\ y = x
  end.
Definition free_op (base a : Z) (x : X) (p : Z) (y : X) : Prop :=
  let o := a - SIZEOF_STRUCT_MEM - base in
  let l' := coalesce (mark_free o 0 x.1) in p = 0 /\ y = (l', start_of (o `min` x.2) 0 l').
Definition heap_op (base ms : Z) (c : heap_call) : X -> Z -> X -> Prop :=
  match c with CMalloc size => malloc_op base ms size | CFree a => free_op base a end.

(** A call that has been made: [None] before its operation, [Some r] after it. *)
Record aconfig := mkAconfig {
  ac_blocks : X;
  ac_calls : gmap nat (heap_call * option Z);
  ac_owned : gset Z;
}.

Inductive astep (base ms : Z) (ac : aconfig) : option label -> aconfig -> Prop :=
| astep_call t c :
    ac_calls ac !! t = None -> owns c (ac_owned ac) ->
    astep base ms ac (Some (LCall t c)) (mkAconfig (ac_blocks ac) (<[t := (c, None)]> (ac_calls ac)) (gives c (ac_owned ac)))
| astep_op t c r y :
    ac_calls ac !! t = Some (c, None) -> heap_op base ms c (ac_blocks ac) r y ->
    astep base ms ac None (mkAconfig y (<[t := (c, Some r)]> (ac_calls ac)) (ac_owned ac))
| astep_return t c r :
    ac_calls ac !! t = Some (c, Some r) ->
    astep base ms ac (Some (LReturn t c r)) (mkAconfig (ac_blocks ac) (delete t (ac_calls ac)) (gets_back c r (ac_owned ac))).
Inductive asteps (base ms : Z) (ac : aconfig) : list label -> aconfig -> Prop :=
| asteps_refl : asteps base ms ac [] ac
| asteps_step l tr ac1 ac2 : astep base ms ac l ac1 -> asteps base ms ac1 tr ac2 -> asteps base ms ac (visible l tr) ac2.

Lemma asteps_trans base ms ac1 tr1 ac2 tr2 ac3 :
  asteps base ms ac1 tr1 ac2 -> asteps base ms ac2 tr2 ac3 -> asteps base ms ac1 (tr1 ++ tr2) ac3.
Proof. intros H H2. induction H as [|ac l tr ac1 ac2 H1 _ IH]; [done|]. destruct l; by apply (asteps_step _ _ _ _ _ _ _ H1 (IH H2)). Qed.

(** ** Programs of the functions *)

Section programs.
Context (base ms : Z).

(** What no call changes. *)
Record geo (v : hvars) : Prop := {
  geo_ptr : heap_ptr v = base;
  geo_size : mem_size_aligned v = ms;
  geo_end : heap_end v = base + ms + SIZEOF_STRUCT_MEM;
}.

Definition rep (x : X) (v : hvars) : Prop := heap_rep x.1 x.2 v /\ geo v.

(** After its operation a call computes the result [r] from what does not change. *)
Fixpoint after (r : Z) (p : prog Z) : Prop :=
  match p with
  | Return a => a = r
  | Access m k => forall v, geo v -> wp m (fun b v' => v' = v /\ after r (k b)) v
  | _ => False
  end.

(** In the critical section the rest [p] of the call, on the variables [v], does the operation on the blocks [x]. *)
Fixpoint inside (c : heap_call) (x : X) (p : prog Z) (v : hvars) : Prop :=
  match p with
  | Access m k => wp m (fun b v' => geo v' /\ inside c x (k b) v') v
  | ReleaseSem k => exists r y, heap_op base ms c x r y /\ rep y v /\ forall z, after r (k z)
  | _ => False
  end.

(** The caller of [rt_free] has a block. *)
Definition used_addr (x : X) (a : Z) : Prop := exists o n, (o, n) ∈ used_blocks 0 x.1 /\ a = base + o + SIZEOF_STRUCT_MEM.
Definition owner (c : heap_call) (x : X) : Prop := match c with CMalloc _ => True | CFree a => used_addr x a end.

(** Before it, nothing has happened. *)
Fixpoint before (c : heap_call) (p : prog Z) : Prop :=
  match p with
  | Return r => forall x, heap_op base ms c x r x
  | Access m k => forall v, geo v -> wp m (fun b v' => v' = v /\ before c (k b)) v
  | InKernel m k => forall s, rt_interrupt_nest s = 0 -> wp m (fun b s' => s' = s /\ before c (k b)) s
  | TakeSem k => forall z x v, rep x v -> owner c x -> inside c x (k z) v
  | ReleaseSem _ => False
  end.

(** A critical section is made of accesses that keep the geometry. *)
Fixpoint keeps {A} (p : prog A) : Prop :=
  match p with
  | Return _ => True
  | Access m k => (forall v b v', geo v -> m v = Some (b, v') -> geo v') /\ forall b, keeps (k b)
  | _ => False
  end.

Lemma kept_bind {A B} (p : prog A) (f : A -> prog B) : keeps p -> (forall a, keeps (f a)) -> keeps (p ≫= f).
Proof.
  intros Hp Hf. unfold mbind, prog_mbind. induction p as [a|C m k IH|C m k IH|k IH|k IH]; simpl in *; [auto| |done..].
  destruct Hp. split; [done|]. auto.
Qed.
Lemma kept_ret {A} (a : A) : keeps (mret a).
Proof. done. Qed.
Lemma keeps_panic {B : Set} : keeps (Access (B := B) rt_panic Return).
Proof. by split. Qed.
Lemma keeps_hget {B : Set} (f : hvars -> B) : keeps (hget f).
Proof. split; [|done]. by intros v b v' Hv [= _ <-]. Qed.
Lemma keeps_hassert b : keeps (hassert b).
Proof. split; [|done]. intros v a v' Hv. unfold RT_ASSERT. destruct b; [|done]. by intros [= _ <-]. Qed.
Lemma keeps_hset f : (forall v, geo v -> geo (f v)) -> keeps (hset f).
Proof. intros Hf. split; [|done]. intros v b v' Hv [= _ <-]. auto. Qed.
Lemma keeps_get_mem p : keeps (get_mem p).
Proof. split; [|done]. intros v b v' Hv. unfold getso. destruct (hp_mem v !! p); [|done]. by intros [= _ <-]. Qed.
Lemma keeps_put_mem p m : keeps (put_mem p m).
Proof. apply keeps_hset. by intros v []. Qed.
Lemma keeps_hwhen b p : keeps p -> keeps (hwhen b p).
Proof. by destruct b. Qed.
End programs.

(** ** The critical sections *)

Section critical.
Context (base ms : Z).
Abbreviation keeps := (keeps base ms).

Ltac solve_keeps :=
  repeat first [apply kept_ret | apply keeps_panic | apply keeps_hget | apply keeps_hassert | apply keeps_get_mem | apply keeps_put_mem
    | apply keeps_hwhen | apply kept_bind; [|intros] | apply keeps_hset; intros ? []; try case_match; by split
    | case_match].

Lemma keeps_join b c nx : keeps (join b c nx).
Proof. unfold join, upd_mem, block_at, offset_of. solve_keeps. Qed.
Lemma keeps_plug_holes mem : keeps (plug_holes mem).
Proof. unfold plug_holes, block_at. solve_keeps; apply keeps_join. Qed.
Lemma keeps_stat_alloc n : keeps (stat_alloc n).
Proof. unfold stat_alloc. solve_keeps. Qed.
Lemma keeps_split_block ptr mem ptr2 f : keeps (split_block ptr mem ptr2 f).
Proof. unfold split_block, upd_mem, block_at. solve_keeps. Qed.
Lemma keeps_lfree_loop fuel : keeps (lfree_loop fuel).
Proof. induction fuel as [|fuel IH]; cbn [lfree_loop]; unfold block_at; solve_keeps. apply IH. Qed.

Lemma keeps_malloc_loop fuel ptr size : keeps (malloc_loop fuel ptr size).
Proof.
  revert ptr. induction fuel as [|fuel IH]; intros ptr; cbn [malloc_loop]; unfold block_at, malloc_take, upd_mem, offset_of, heap_fuel; solve_keeps;
    first [apply keeps_split_block|apply keeps_stat_alloc|apply keeps_lfree_loop|apply IH].
Qed.
Lemma keeps_malloc_locked size : keeps (malloc_locked size).
Proof. unfold malloc_locked, offset_of, heap_fuel. solve_keeps. apply keeps_malloc_loop. Qed.
Lemma keeps_free_locked mem : keeps (free_locked mem).
Proof. unfold free_locked, upd_mem, offset_of, stat_free. solve_keeps. Qed.

(** A critical section that does the operation when it runs alone does it access by access; [g] is what the caller does with the result of the call. *)
Lemma inside_bind {A B} c x (p : prog B) (f : B -> prog A) (g : A -> prog Z) v :
  geo base ms v -> keeps p -> pwp p (fun b v' => geo base ms v' -> inside base ms c x (f b ≫= g) v') v -> inside base ms c x ((p ≫= f) ≫= g) v.
Proof.
  unfold mbind, prog_mbind. revert v. induction p as [b|C m k IH|C m k IH|k IH|k IH]; intros v Hg Hk H; simpl in *; try done; [by apply H|].
  destruct Hk as [Hm Hk]. unfold pwp in H; fold (@pwp B) in H. unfold wp in *. destruct (m v) as [[b v']|] eqn:E; [|done].
  specialize (Hm _ _ _ Hg E). split; [done|]. by apply IH.
Qed.

Lemma after_malloc (r : option Z) size p :
  match r with
  | Some mem => p = mem + SIZEOF_STRUCT_MEM /\ 0 <= mem /\ (4 | mem) /\ 0 <= size /\ mem + SIZEOF_STRUCT_MEM + size <= base + ms + SIZEOF_STRUCT_MEM < 2 ^ 32
  | None => p = RT_NULL
  end ->
  after base ms p (match r with
      | Some mem =>
          he ← hget heap_end;
          hassert (u32 (mem + SIZEOF_STRUCT_MEM + size) <=? he);;
          hassert (u32 (mem + SIZEOF_STRUCT_MEM) mod RT_ALIGN_SIZE =? 0);;
          hassert (mem .& (RT_ALIGN_SIZE - 1) =? 0);;
          mret (u32 (mem + SIZEOF_STRUCT_MEM))
      | None => mret RT_NULL
      end ≫= mret).
Proof.
  destruct r as [mem|]; [|done]. intros (-> & H0 & H4 & Hs & He). unfold mbind, prog_mbind. cbn [after prog_bind hget hassert].
  intros v Hv. rewrite wp_gets. split; [done|]. intros v1 _. rewrite wp_assert, (geo_end _ _ _ Hv), u32_small by lia. split_and!; [lia|done|].
  assert (4 | mem + SIZEOF_STRUCT_MEM) as Hd by (apply Z.divide_add_r; [done|by exists 3]).
  intros v2 _. rewrite wp_assert, u32_small by lia. split_and!; [by apply Z.eqb_eq, Z.mod_divide|done|].
  intros v3 _. rewrite wp_assert, land_3 by done. done.
Qed.

Lemma before_malloc size : before base ms (CMalloc size) (call_prog (CMalloc size)).
Proof.
  unfold call_prog, rt_malloc, mbind, prog_mbind. destruct (Z.eqb_spec size 0) as [->|Hsize]; [by intros x|].
  cbn [before prog_bind kcall hget take_heap_sem]. intros s Hs. apply wp_not_in_interrupt. split_and!; [done|done|].
  intros v Hv. rewrite wp_gets, (geo_size _ _ _ Hv), Z.gtb_ltb. split; [done|]. clear v Hv.
  destruct (Z.ltb_spec ms (RT_ALIGN size RT_ALIGN_SIZE)) as [Hbig|Hfit].
  { intros x. unfold heap_op, malloc_op, alloc. by rewrite (proj2 (Z.ltb_lt _ _)), orb_true_r by done. }
  set (n := if RT_ALIGN size RT_ALIGN_SIZE <? MIN_SIZE_ALIGNED then MIN_SIZE_ALIGNED else RT_ALIGN size RT_ALIGN_SIZE).
  assert (n = req_size size) as -> by (unfold n, req_size; case_if; lia). pose proof (req_divide size) as [Hdiv Hmin].
  cbn [before prog_bind]. intros _ [l lf] v [Hr Hg] _. simpl in Hr. pose proof (hr_shape _ _ _ Hr) as Hs'. pose proof (geo_size _ _ _ Hg) as Ems.
  assert (req_size size <= ms) as Hle by (rewrite <- Ems; unfold req_size; pose proof (hs_size _ _ Hs'); lia).
  apply (inside_bind _ _ (malloc_locked (req_size size))); [done|apply keeps_malloc_locked|].
  apply (wp_malloc_locked l lf); [done|by rewrite Ems|done|]. rewrite Ems.
  assert (forall r p y v', geo base ms v' -> heap_op base ms (CMalloc size) (l, lf) p y -> rep base ms y v' ->
    match r with
    | Some mem => p = mem + SIZEOF_STRUCT_MEM /\ 0 <= mem /\ (4 | mem) /\ 0 <= req_size size /\
        mem + SIZEOF_STRUCT_MEM + req_size size <= base + ms + SIZEOF_STRUCT_MEM < 2 ^ 32
    | None => p = RT_NULL
    end -> inside base ms (CMalloc size) (l, lf) ((release_heap_sem;; match r with
      | Some mem =>
          he ← hget heap_end;
          hassert (u32 (mem + SIZEOF_STRUCT_MEM + req_size size) <=? he);;
          hassert (u32 (mem + SIZEOF_STRUCT_MEM) mod RT_ALIGN_SIZE =? 0);;
          hassert (mem .& (RT_ALIGN_SIZE - 1) =? 0);;
          mret (u32 (mem + SIZEOF_STRUCT_MEM))
      | None => mret RT_NULL
      end) ≫= mret) v') as Hrel.
  { intros r p y v' Hg' Hop Hy Hp. exists p, y. split_and!; [done|done|]. intros z. by apply after_malloc. }
  destruct (alloc_blocks _ _ _ _ _) as [[o l']|] eqn:Ea.
  - intros v' Hr' Hf' Hg'. destruct (alloc_blocks_spec _ _ _ _ _ _ _ Ea) as (l1 & k & l2 & -> & -> & -> & Hn' & Ho).
    destruct (block_address _ _ _ _ _ Hr) as (Ha0 & Ha4 & Ha1 & Ha2). simpl in Ha1. rewrite Z.add_0_l in *.
    rewrite (geo_ptr _ _ _ Hg) in *. rewrite (geo_end _ _ _ Hg) in *.
    set (l' := l1 ++ carve (req_size size) (mkBlock false k) ++ l2) in *.
    apply (Hrel (Some (base + total l1)) (base + total l1 + SIZEOF_STRUCT_MEM) (l', first_free lf l'));
      [done| |by split|split_and!; [done|done|done|lia|lia|lia]].
    unfold heap_op, malloc_op, alloc. simpl. rewrite (proj2 (Z.eqb_neq _ _)), (proj2 (Z.ltb_ge _ _)) by done. simpl. by rewrite Ea.
  - intros Hg'. apply (Hrel None RT_NULL (l, lf)); [done| |done|done].
    unfold heap_op, malloc_op, alloc. simpl. rewrite (proj2 (Z.eqb_neq _ _)), (proj2 (Z.ltb_ge _ _)) by done. simpl. by rewrite Ea.
Qed.

(** The programs of [rt_free] need the address of a block only where they access its header. *)
Lemma before_free a :
  0 <= base -> base + ms + 2 * SIZEOF_STRUCT_MEM < 2 ^ 32 -> base < a < base + ms + SIZEOF_STRUCT_MEM -> (4 | a) -> SIZEOF_STRUCT_MEM <= a ->
  before base ms (CFree a) (call_prog (CFree a)).
Proof.
  intros Hb0 Htop Ha Hd Ha12. unfold call_prog, rt_free, mbind, prog_mbind. rewrite (proj2 (Z.eqb_neq a RT_NULL)) by lia.
  cbn [before prog_bind kcall hget hassert take_heap_sem]. intros s Hs. apply wp_not_in_interrupt. split_and!; [done|done|].
  intros v0 _. rewrite wp_assert, land_3 by done. split_and!; [done|done|].
  intros v1 Hv1. rewrite wp_gets, (geo_ptr _ _ _ Hv1). split; [done|].
  intros v2 Hv2. rewrite wp_gets, (geo_end _ _ _ Hv2). split; [done|].
  intros v3 _. rewrite wp_assert. split_and!; [lia|done|].
  assert ((a <? base) || (a >=? base + ms + SIZEOF_STRUCT_MEM) = false) as -> by lia. cbn [before prog_bind].
  intros _ [l lf] v [Hr Hg] (o & n & Hin & ->). simpl in Hr, Hin.
  assert (u32 (base + o + SIZEOF_STRUCT_MEM - SIZEOF_STRUCT_MEM) = base + o) as -> by (rewrite u32_small; lia).
  apply (inside_bind _ _ (free_locked (base + o))); [done|apply keeps_free_locked|].
  rewrite <- (geo_ptr _ _ _ Hg) at 1. eapply (wp_free_locked l lf o n); [done|done|]. intros v' l' El' Hr' Hf' Hg'.
  exists 0, (l', start_of (o `min` lf) 0 l'). split_and!; [|by split|done].
  unfold heap_op, free_op. replace (base + o + SIZEOF_STRUCT_MEM - SIZEOF_STRUCT_MEM - base) with o by lia. by rewrite El'.
Qed.
End critical.

(** ** Who has which block *)

Section claims.
Context (base ms : Z).
Abbreviation used_addr := (used_addr base).

Lemma used_malloc size x v r y :
  rep base ms x v -> malloc_op base ms size x r y ->
  (r = RT_NULL /\ y = x) \/ (r ≠ RT_NULL /\ ~ used_addr x r /\ forall a, used_addr y a <-> a = r \/ used_addr x a).
Proof.
  intros [Hr Hg] Hop. unfold malloc_op in Hop. destruct (alloc _ _ _ _) as [[o l']|] eqn:Ea; [right|by left].
  destruct Hop as [-> ->]. pose proof (hr_shape _ _ _ Hr) as Hs. destruct (used_blocks_alloc _ _ _ _ _ _ (hs_blocks _ _ Hs) Ea) as (m & Hperm & _).
  assert (forall n, (o, n) ∉ used_blocks 0 x.1) as Hnew.
  { intros n Hin. destruct (alloc_spec _ _ _ _ _ _ Ea) as (l1 & k & l2 & E & -> & _). rewrite E in Hin.
    destruct (used_blocks_split _ _ _ _ Hin) as (l3 & l4 & E2 & E3). pose proof (hs_blocks _ _ Hs) as Hl. rewrite E in Hl.
    pose proof Hl as [H1 H2]%Forall_app. inversion_clear H2 as [|?? [Hk _] _]. simpl in Hk.
    rewrite used_blocks_app in Hin. apply elem_of_app in Hin as [Hin|Hin].
    - apply used_blocks_bound in Hin; [lia|done].
    - simpl in Hin. apply used_blocks_bound in Hin; [lia|]. apply Forall_app in Hl as [_ Hl]. by inversion Hl. }
  assert (0 <= o) as Ho.
  { destruct (alloc_spec _ _ _ _ _ _ Ea) as (l1 & k & l2 & E & -> & _). apply total_nonneg.
    pose proof (hs_blocks _ _ Hs) as Hl. rewrite E in Hl. by apply Forall_app in Hl as [? _]. }
  pose proof (hs_base _ _ Hs) as Hb. rewrite (geo_ptr _ _ _ Hg) in Hb. split_and!; [lia| |].
  - intros (o' & n & Hin & E). replace o' with o in Hin by lia. by eapply Hnew.
  - intros a. split.
    + intros (o' & n & Hin & ->). simpl in Hin. rewrite Hperm in Hin. apply elem_of_cons in Hin as [[= -> ->]|Hin]; [by left|right; by exists o', n].
    + intros [->|(o' & n & Hin & ->)]; [exists o, m|exists o', n]; (split; [|done]); simpl; rewrite Hperm; [by left|by right].
Qed.

Lemma used_free a x v r y :
  rep base ms x v -> used_addr x a -> free_op base a x r y -> r = 0 /\ forall b, used_addr y b <-> used_addr x b /\ b ≠ a.
Proof.
  intros [Hr Hg] (o & n & Hin & ->) [-> ->]. split; [done|].
  replace (base + o + SIZEOF_STRUCT_MEM - SIZEOF_STRUCT_MEM - base) with o by lia.
  pose proof (hs_blocks _ _ (hr_shape _ _ _ Hr)) as Hl. pose proof (used_blocks_free o n _ Hl Hin) as Hperm. intros b. split.
  - intros (o' & n' & Hin' & ->). simpl in Hin'.
    assert ((o', n') ∈ used_blocks 0 x.1) as Hx by (rewrite <- Hperm; by right). split; [by exists o', n'|]. intros E.
    assert (o' = o) as -> by lia. destruct (used_blocks_disjoint _ _ _ _ _ _ Hl Hin Hx) as [[_ <-]|H].
    + pose proof (used_blocks_NoDup 0 _ Hl) as Hnd. rewrite <- Hperm in Hnd. by apply NoDup_cons in Hnd as [].
    + apply used_blocks_bound in Hin, Hx; [|done..]. lia.
  - intros [(o' & n' & Hin' & ->) Hne]. exists o', n'. split; [|done]. simpl. rewrite <- Hperm in Hin'.
    apply elem_of_cons in Hin' as [[= -> ->]|]; [done|done].
Qed.

(** The address that a call has in its hands. *)
Definition claim (b : heap_call * option Z) : option Z :=
  match b with
  | (CFree a, None) => Some a
  | (CMalloc _, Some r) => if r =? RT_NULL then None else Some r
  | _ => None
  end.

Record claims_ok (x : X) (owned : gset Z) (calls : gmap nat (heap_call * option Z)) : Prop := {
  cl_owned : forall a, a ∈ owned -> used_addr x a;
  cl_call : forall t b a, calls !! t = Some b -> claim b = Some a ->
    used_addr x a /\ a ∉ owned /\ forall u b', u ≠ t -> calls !! u = Some b' -> claim b' ≠ Some a;
}.

Lemma claims_call x owned calls t c :
  calls !! t = None -> owns c owned -> claims_ok x owned calls -> claims_ok x (gives c owned) (<[t := (c, None)]> calls).
Proof.
  intros Ht Hc [Ho Hcl]. split.
  - intros a Ha. apply Ho. destruct c; simpl in Ha; set_solver.
  - intros u b a Hu Hb. apply lookup_insert_Some in Hu as [[<- <-]|[Hne Hu]].
    + destruct c as [|p]; simpl in *; simplify_eq. split_and!; [by apply Ho|set_solver|].
      intros u' b' Hne Hu' Hb'. rewrite lookup_insert_ne in Hu' by done. by destruct (Hcl u' b' a Hu' Hb') as (_ & ? & _).
    + destruct (Hcl u b a Hu Hb) as (H1 & H2 & H3). split_and!; [done|destruct c; simpl; set_solver|].
      intros u' b' Hne' Hu' Hb'. apply lookup_insert_Some in Hu' as [[<- <-]|[_ Hu']]; [|by eapply H3].
      destruct c; simpl in *; simplify_eq.
Qed.

Lemma claims_op x v y owned calls t c r :
  rep base ms x v -> calls !! t = Some (c, None) -> heap_op base ms c x r y -> claims_ok x owned calls ->
  claims_ok y owned (<[t := (c, Some r)]> calls).
Proof.
  intros Hx Ht Hop [Ho Hcl]. destruct c as [size|p]; simpl in Hop.
  - destruct (used_malloc _ _ _ _ _ Hx Hop) as [[-> ->]|(Hr & Hnew & Hy)]; (split; [|intros u b a Hu Hb; apply lookup_insert_Some in Hu as [[<- <-]|[Hne Hu]]]).
    + done.
    + done.
    + destruct (Hcl u b a Hu Hb) as (H1 & H2 & H3). split_and!; [done|done|]. intros u' b' Hne' Hu'.
      apply lookup_insert_Some in Hu' as [[<- <-]|[_ Hu']]; [done|by eapply H3].
    + intros a Ha. apply Hy. right. by apply Ho.
    + simpl in Hb. rewrite (proj2 (Z.eqb_neq _ _)) in Hb by done. simplify_eq. split_and!; [apply Hy; by left|intros Ha; by apply Hnew, Ho|].
      intros u b' Hne Hu Hb'. rewrite lookup_insert_ne in Hu by done. by destruct (Hcl u b' a Hu Hb') as (? & _).
    + destruct (Hcl u b a Hu Hb) as (H1 & H2 & H3). split_and!; [apply Hy; by right|done|]. intros u' b' Hne' Hu' Hb'.
      apply lookup_insert_Some in Hu' as [[<- <-]|[_ Hu']]; [|by eapply H3].
      simpl in Hb'. rewrite (proj2 (Z.eqb_neq _ _)) in Hb' by done. by simplify_eq.
  - destruct (Hcl t _ p Ht eq_refl) as (Hp & Hno & Hothers). destruct (used_free _ _ _ _ _ Hx Hp Hop) as [-> Hy]. split.
    + intros a Ha. apply Hy. split; [by apply Ho|]. by intros ->.
    + intros u b a Hu Hb. apply lookup_insert_Some in Hu as [[<- <-]|[Hne Hu]]; [done|].
      destruct (Hcl u b a Hu Hb) as (H1 & H2 & H3). split_and!; [apply Hy; split; [done|]; intros ->; by eapply Hothers|done|].
      intros u' b' Hne' Hu'. apply lookup_insert_Some in Hu' as [[<- <-]|[_ Hu']]; [done|by eapply H3].
Qed.

Lemma claims_return x owned calls t c r :
  calls !! t = Some (c, Some r) -> claims_ok x owned calls -> claims_ok x (gets_back c r owned) (delete t calls).
Proof.
  intros Ht [Ho Hcl]. assert (forall a, a ∈ gets_back c r owned -> a ∈ owned \/ claim (c, Some r) = Some a) as Hgb.
  { intros a. destruct c; simpl; [|by left]. destruct (r =? RT_NULL); [by left|]. intros [->%elem_of_singleton|]%elem_of_union; auto. }
  split.
  - intros a [Ha|Ha]%Hgb; [by apply Ho|]. by destruct (Hcl t _ a Ht Ha) as (? & _).
  - intros u b a Hu Hb. apply lookup_delete_Some in Hu as [Hne Hu]. destruct (Hcl u b a Hu Hb) as (H1 & H2 & H3). split_and!; [done| |].
    + intros [Ha|Ha]%Hgb; [done|]. by eapply (H3 t).
    + intros u' b' Hne' [_ Hu']%lookup_delete_Some. by eapply H3.
Qed.
End claims.

(** ** The simulation *)

Section simulation.
Context (base ms : Z).
Abbreviation rep := (rep base ms).
Abbreviation inside := (inside base ms).
Abbreviation before := (before base ms).
Abbreviation after := (after base ms).
Abbreviation waiters k := (qget k (sem_q heap_sem)).

(** What a thread in a call has before it; [holder] has [heap_sem], and [q] are the threads that wait for it. *)
Definition task_ok (x : X) (v : hvars) (q : list nat) (holder : option nat) (t : nat) (a : heap_call * task) (b : heap_call * option Z) : Prop :=
  a.1 = b.1 /\
  match a.2, b.2 with
  | Waits k, None => before a.1 (TakeSem k) /\ (t ∈ q \/ holder = Some t)
  | Waits _, Some _ => False
  | Runs p, None => if decide (holder = Some t) then inside a.1 x p v else before a.1 p
  | Runs p, Some r => holder ≠ Some t /\ after r p
  end.

Definition tasks_ok x v q holder (tasks : gmap nat (heap_call * task)) (calls : gmap nat (heap_call * option Z)) : Prop :=
  forall t, match tasks !! t, calls !! t with
            | Some a, Some b => task_ok x v q holder t a b
            | None, None => True
            | _, _ => False
            end.

(** The value of [heap_sem] is 1 if nobody has it. A thread that has it got it by taking it, and is in its critical section, or was given it by the thread that
    released it, and has not run since. *)
Record lock_ok (x : X) (v : hvars) (holder : option nat) (tasks : gmap nat (heap_call * task)) (k : kernel) : Prop := {
  lk_value : sems k !! heap_sem = Some (mkSem (if holder then 0 else 1));
  lk_waiters : forall u, u ∈ waiters k -> holder ≠ Some u /\ exists c f, tasks !! u = Some (c, Waits f);
  lk_holder : match holder with
              | None => rep x v
              | Some u => exists c a, tasks !! u = Some (c, a) /\ (forall f, a = Waits f -> rep x v)
              end;
}.

Record inv (holder : option nat) (cf : config) (ac : aconfig) : Prop := {
  iv_kinv : kinv (hp_kernel (cf_heap cf));
  iv_sem : sem_ok heap_sem (hp_kernel (cf_heap cf));
  iv_geo : geo base ms (cf_heap cf);
  iv_rep : exists v, rep (ac_blocks ac) v;
  iv_lock : lock_ok (ac_blocks ac) (cf_heap cf) holder (cf_tasks cf) (hp_kernel (cf_heap cf));
  iv_tasks : tasks_ok (ac_blocks ac) (cf_heap cf) (waiters (hp_kernel (cf_heap cf))) holder (cf_tasks cf) (ac_calls ac);
  iv_owned : ac_owned ac = cf_owned cf;
  iv_claims : claims_ok base (ac_blocks ac) (cf_owned cf) (ac_calls ac);
}.

Lemma tasks_lookup {x v q holder tasks calls t a} :
  tasks_ok x v q holder tasks calls -> tasks !! t = Some a -> exists b, calls !! t = Some b /\ task_ok x v q holder t a b.
Proof. intros H Ht. specialize (H t). rewrite Ht in H. destruct (calls !! t) as [b|]; [eauto|done]. Qed.

(** The other threads when [t] has taken a step: whoever has the semaphore after it had it before or waited for it. *)
Lemma tasks_step x v q h x' v' q' h' tasks calls t a b :
  tasks_ok x v q h tasks calls -> task_ok x' v' q' h' t a b ->
  (forall u, u ≠ t -> u ∈ q -> u ∈ q' \/ h' = Some u) ->
  (forall u c p, u ≠ t -> tasks !! u = Some (c, Runs p) -> h' = Some u -> h = Some u /\ x' = x /\ v' = v) ->
  (forall u, u ≠ t -> h = Some u -> h' = Some u) ->
  tasks_ok x' v' q' h' (<[t := a]> tasks) (<[t := b]> calls).
Proof.
  intros H Hab Hq Hr Hh u. destruct (decide (u = t)) as [->|Hne]; [by rewrite !lookup_insert_eq|]. rewrite !lookup_insert_ne by done.
  specialize (H u). destruct (tasks !! u) as [[c tk]|] eqn:Et, (calls !! u) as [[c' o]|]; try done.
  destruct H as [E H]. split; [exact E|]. simpl in *. destruct tk as [p|k], o as [r|]; simpl in *; [| |done|].
  - destruct H as [Hhu Ha]. split; [|done]. intros E'. by destruct (Hr u c p Hne Et E').
  - destruct (decide (h' = Some u)) as [E'|E'].
    + destruct (Hr u c p Hne Et E') as (Eh & -> & ->). by rewrite decide_True in H.
    + by rewrite decide_False in H by (intros E2; by apply E', Hh).
  - destruct H as [Hb [Hin|Eh]]; (split; [exact Hb|]); [by apply Hq|right; by apply Hh].
Qed.

Lemma waiter_suspended k u : kinv k -> u ∈ waiters k -> exists th, threads k !! u = Some th /\ th_stat th = RT_THREAD_SUSPEND.
Proof.
  intros Hk Hu. destruct (qo_loc _ _ _ _ (si_queue _ (ki_sched _ _ _ Hk)) _ _ Hu) as (_ & th & Ht & Hl). simpl in Hl. naive_solver.
Qed.

Lemma running_no_waiter k u : kinv k -> runs u k -> u ∉ waiters k.
Proof.
  intros Hk (_ & (th & Ht & Hs) & _) Hu. destruct (waiter_suspended _ _ Hk Hu) as (th' & Ht' & Hs'). simplify_eq. lia.
Qed.

(** A step of [t] that does not touch the semaphore. *)
Lemma lock_runs x v v' h tasks k t c p :
  lock_ok x v h tasks k -> t ∉ waiters k -> (h ≠ Some t -> v' = v) -> lock_ok x v' h (<[t := (c, Runs p)]> tasks) k.
Proof.
  intros [H1 H2 H3] Ht Hv. split; [done| |].
  - intros u Hu. rewrite lookup_insert_ne by (intros ->; done). by apply H2.
  - destruct h as [u|]; [|by rewrite Hv]. destruct (decide (u = t)) as [->|Hne].
    + exists c, (Runs p). by rewrite lookup_insert_eq.
    + rewrite lookup_insert_ne by done. rewrite Hv by congruence. done.
Qed.

Lemma inv_quiet h cf ac t c p o v' :
  inv h cf ac -> runs t (hp_kernel (cf_heap cf)) -> ac_calls ac !! t = Some (c, o) -> geo base ms v' -> (h ≠ Some t -> v' = hp_vars (cf_heap cf)) ->
  task_ok (ac_blocks ac) v' (waiters (hp_kernel (cf_heap cf))) h t (c, Runs p) (c, o) ->
  inv h (mkConfig (set_hp_vars v' (cf_heap cf)) (<[t := (c, Runs p)]> (cf_tasks cf)) (cf_owned cf)) ac.
Proof.
  intros [I1 I2 I3 I4 I5 I6 I7 I8] Hrun Hb Hg Hv Hok. pose proof (running_no_waiter _ _ I1 Hrun) as Hnw.
  split; simpl; try done; [by eapply lock_runs|]. rewrite <- (insert_id (ac_calls ac) t (c, o)) by done.
  eapply tasks_step; [exact I6|exact Hok|by left| |done]. intros u c' p' Hne _ Hu. split_and!; [done|done|]. apply Hv. congruence.
Qed.

(** The thread takes the semaphore, which nobody had, or waits for it. *)
Lemma inv_take h cf ac t c k :
  inv h cf ac -> runs t (hp_kernel (cf_heap cf)) -> cf_tasks cf !! t = Some (c, Runs (TakeSem k)) -> ac_calls ac !! t = Some (c, None) ->
  h ≠ Some t -> before c (TakeSem k) ->
  exists (x' : task) (hp : heap) (h' : option nat), task_step t (Runs (TakeSem k)) (cf_heap cf) = Some (x', hp) /\
    inv h' (mkConfig hp (<[t := (c, x')]> (cf_tasks cf)) (cf_owned cf)) ac.
Proof.
  intros [I1 I2 I3 I4 I5 I6 I7 I8] Hrun Ht Hb Hh Hbef. pose proof (running_no_waiter _ _ I1 Hrun) as Hnw.
  pose proof Hrun as (Hc & (th & Hth & Hst) & Hn). set (s := hp_kernel (cf_heap cf)) in *. destruct I5 as [L1 L2 L3].
  pose proof (wp_sem_take heap_sem RT_WAITING_FOREVER t th s I1 I2 Hc Hth Hst Hn ltac:(done)) as H.
  apply wp_run in H as (r & s' & E & Hk' & Hs' & Hres). unfold task_step, mbind, stM_bind, in_kernel. fold s. rewrite E.
  destruct Hres as [sem Es Hpos|sem Es Hz Hti|sem th' s' Es Hz Hti Hth' Hbl]; [|done|]; rewrite L1 in Es; injection Es as <-; simpl in *.
  - destruct h as [u|]; [simpl in Hpos; lia|]. pose proof (so_sem _ _ I2) as (sem & E2 & _ & Hemp). rewrite L1 in E2. injection E2 as <-. specialize (Hemp Hpos).
    eexists _, _, (Some t). split; [done|]. split; simpl; try done.
    + split; simpl; [by rewrite lookup_insert_eq| |]; [intros u Hu; exfalso; change (u ∈ waiters s) in Hu; by rewrite Hemp in Hu; apply elem_of_nil in Hu|].
      exists c, (Runs (k RT_EOK)). by rewrite lookup_insert_eq.
    + rewrite <- (insert_id (ac_calls ac) t (c, None)) by done. eapply tasks_step; [exact I6| |by left| |done].
      * split; [done|]. simpl. rewrite decide_True by done. apply Hbef; [exact L3|]. destruct c as [|a]; [done|]. simpl.
        by destruct (cl_call _ _ _ _ I8 t _ a Hb eq_refl) as (? & _).
      * intros u c' p' Hne _ [= ->]. done.
  - destruct h as [u|]; [|done]. pose proof (gw_frame _ _ _ _ (bo_gone _ _ _ _ _ _ _ Hbl)) as Hfr. pose proof (kf_sems _ _ Hfr) as Esems. simpl in Esems.
    pose proof (joined_perm _ _ _ _ _ _ (bo_joined _ _ _ _ _ _ _ Hbl)) as Hperm. change (waiters (set_threads _ s)) with (waiters s) in Hperm.
    eexists _, _, (Some u). split; [done|]. split; simpl; try done.
    + split; simpl; [by rewrite Esems| |].
      * intros w. rewrite Hperm. intros [->|Hw]%elem_of_cons; [split; [done|]; exists c, k; by rewrite lookup_insert_eq|].
        rewrite lookup_insert_ne by (intros ->; done). by apply L2.
      * rewrite lookup_insert_ne by congruence. done.
    + rewrite <- (insert_id (ac_calls ac) t (c, None)) by done. eapply tasks_step; [exact I6| | |by auto|done].
      * split; [done|]. simpl. split; [done|]. left. rewrite Hperm. by left.
      * intros w _ Hw. left. rewrite Hperm. by right.
Qed.

(** The thread that was given the semaphore goes on. *)
Lemma inv_resume h cf ac t c k :
  inv h cf ac -> runs t (hp_kernel (cf_heap cf)) -> cf_tasks cf !! t = Some (c, Waits k) -> ac_calls ac !! t = Some (c, None) ->
  h = Some t -> before c (TakeSem k) ->
  exists (x' : task) (hp : heap), task_step t (Waits k) (cf_heap cf) = Some (x', hp) /\
    inv h (mkConfig hp (<[t := (c, x')]> (cf_tasks cf)) (cf_owned cf)) ac.
Proof.
  intros I Hrun Ht Hb Hh Hbef. pose proof Hrun as (Hc & (th & Hth & _) & _). pose proof I as [_ _ I3 _ [_ _ L3] _ _ I8].
  assert (exists v, rt_sem_take_resume t (hp_kernel (cf_heap cf)) = Some (v, hp_kernel (cf_heap cf))) as (v & E).
  { unfold rt_sem_take_resume, mbind, stM_bind, get_thread, getso. rewrite Hth. destruct (negb _); by eexists. }
  unfold task_step, mbind, stM_bind, in_kernel. rewrite E. eexists _, _. split; [done|].
  rewrite Hh in L3. destruct L3 as (c' & a & Ha & Hrep). rewrite Ht in Ha. injection Ha as <- <-. specialize (Hrep _ eq_refl).
  eapply (inv_quiet h cf ac t c (k v) None (hp_vars (cf_heap cf))); [done|done|done|done|done|].
  split; [done|]. simpl. rewrite decide_True by done. apply Hbef; [exact Hrep|]. destruct c as [|a]; [done|]. simpl.
  by destruct (cl_call _ _ _ _ I8 t _ a Hb eq_refl) as (? & _).
Qed.

(** The release: the operation is done, and the semaphore is free or has been given to the first thread that waits. *)
Lemma inv_release h cf ac t c k :
  inv h cf ac -> runs t (hp_kernel (cf_heap cf)) -> cf_tasks cf !! t = Some (c, Runs (ReleaseSem k)) -> ac_calls ac !! t = Some (c, None) ->
  h = Some t -> inside c (ac_blocks ac) (ReleaseSem k) (cf_heap cf) ->
  exists (x' : task) (hp : heap) h' ac', task_step t (Runs (ReleaseSem k)) (cf_heap cf) = Some (x', hp) /\
    inv h' (mkConfig hp (<[t := (c, x')]> (cf_tasks cf)) (cf_owned cf)) ac' /\ astep base ms ac None ac'.
Proof.
  intros [I1 I2 I3 I4 I5 I6 I7 I8] Hrun Ht Hb Hh (r & y & Hop & Hy & Haft). pose proof (running_no_waiter _ _ I1 Hrun) as Hnw.
  pose proof Hrun as (Hc & _ & _). set (s := hp_kernel (cf_heap cf)) in *. destruct I5 as [L1 L2 L3]. rewrite Hh in *.
  pose proof (wp_sem_release heap_sem t s I1 I2 Hc) as H. apply wp_run in H as (v & s' & E & _ & Hk' & Hs' & Hres).
  assert (exists h', lock_ok y (cf_heap cf) h' (<[t := (c, Runs (k v))]> (cf_tasks cf)) s' /\ h' ≠ Some t /\
    (forall u, u ≠ t -> u ∈ waiters s -> u ∈ waiters s' \/ h' = Some u) /\ forall u, h' = Some u -> u ∈ waiters s) as (h' & HL & Hne & Hq & Hh').
  { destruct Hres as [t' th' l Eq Hth' Hwk Eq' _|sem Eq Es ->].
    - exists (Some t'). assert (t' ∈ waiters s) as Hin by (rewrite Eq; by left). assert (t' ≠ t) as Htt by (intros ->; done).
      destruct (L2 t' Hin) as (_ & c' & f & Hf). split_and!; [split| | |].
      + by rewrite (kf_sems _ _ (wk_frame _ _ _ _ Hwk)).
      + intros u Hu. rewrite Eq' in Hu. assert (u ∈ waiters s) as Hu' by (rewrite Eq; by right).
        pose proof (qo_nodup _ _ _ _ (si_queue _ (ki_sched _ _ _ I1)) (sem_q heap_sem)) as Hnd. rewrite Eq in Hnd. apply NoDup_cons in Hnd as [Hnd _].
        split; [intros [= ->]; done|]. rewrite lookup_insert_ne by (intros ->; done). by apply L2.
      + exists c', (Waits f). by rewrite lookup_insert_ne.
      + congruence.
      + intros u Hu. rewrite Eq, Eq'. intros [->|]%elem_of_cons; auto.
      + by intros u [= <-].
    - exists None. rewrite L1 in Es. injection Es as <-. split_and!; [split| | |]; try done.
      + simpl. by rewrite lookup_insert_eq.
      + intros u Hu. change (u ∈ waiters s) in Hu. rewrite Eq in Hu. by apply elem_of_nil in Hu.
      + intros u _. rewrite Eq. by intros ?%elem_of_nil. }
  unfold task_step, mbind, stM_bind, in_kernel. fold s. rewrite E. eexists _, _, h', (mkAconfig y (<[t := (c, Some r)]> (ac_calls ac)) (ac_owned ac)).
  split; [done|]. split; [|by econstructor]. split; simpl; [done|done|done|by exists (hp_vars (cf_heap cf))|done| |done|].
  - eapply tasks_step; [exact I6| |exact Hq| |congruence].
    + split; [done|]. simpl. split; [done|]. apply Haft.
    + intros u c' p Hu Hup Eh. destruct (L2 u (Hh' u Eh)) as (_ & c2 & f & Hf). rewrite Hup in Hf. done.
  - destruct I4 as (v0 & Hv0). by eapply (claims_op base ms _ _ _ _ _ _ _ _ Hv0 Hb Hop I8).
Qed.

(** A thread in a call can take its next step, and the step is one of the specification's. *)
Lemma inv_task h cf ac t c a :
  inv h cf ac -> runs t (hp_kernel (cf_heap cf)) -> cf_tasks cf !! t = Some (c, a) -> (forall r, a ≠ Runs (Return r)) ->
  exists (x' : task) (hp : heap) h' ac', task_step t a (cf_heap cf) = Some (x', hp) /\
    inv h' (mkConfig hp (<[t := (c, x')]> (cf_tasks cf)) (cf_owned cf)) ac' /\ asteps base ms ac [] ac'.
Proof.
  intros I Hrun Ht Hna. pose proof I as [I1 _ I3 _ _ I6 _ _]. pose proof (running_no_waiter _ _ I1 Hrun) as Hnw.
  destruct (tasks_lookup I6 Ht) as ([c' o] & Hb & E & Hok). simpl in E. subst c'.
  destruct a as [p|k], o as [r|]; simpl in Hok; [| |done|].
  - destruct Hok as [Hh Ha]. destruct p as [r'|C m k|C m k|k|k]; [by destruct (Hna r')| |done..].
    specialize (Ha _ I3). apply wp_run in Ha as (b & v & Em & -> & Ha). unfold task_step, mbind, stM_bind, in_vars. rewrite Em.
    eexists _, _, h, ac. split; [done|]. split; [|constructor]. eapply inv_quiet; [done..|]. by split.
  - destruct (decide (h = Some t)) as [Eh|Eh].
    + destruct p as [r'|C m k|C m k|k|k]; [done| |done|done|].
      * simpl in Hok. apply wp_run in Hok as (b & v & Em & Hg & Hin). unfold task_step, mbind, stM_bind, in_vars. rewrite Em.
        eexists _, _, h, ac. split; [done|]. split; [|constructor]. eapply (inv_quiet _ _ _ t c (k b) None v); [done..|].
        split; [done|]. simpl. by rewrite decide_True.
      * destruct (inv_release h cf ac t c k I Hrun Ht Hb Eh Hok) as (x' & hp & h' & ac' & E & HI & Hs).
        exists x', hp, h', ac'. split_and!; [done|done|]. exact (asteps_step _ _ _ None [] _ _ Hs (asteps_refl _ _ _)).
    + destruct p as [r'|C m k|C m k|k|k]; [by destruct (Hna r')| | | |done].
      * specialize (Hok _ I3). apply wp_run in Hok as (b & v & Em & -> & Hok). unfold task_step, mbind, stM_bind, in_vars. rewrite Em.
        eexists _, _, h, ac. split; [done|]. split; [|constructor]. eapply inv_quiet; [done..|]. split; [done|]. simpl. by rewrite decide_False.
      * destruct Hrun as (Hr1 & Hr2 & Hr3). specialize (Hok _ Hr3). apply wp_run in Hok as (b & s & Em & -> & Hok).
        unfold task_step, mbind, stM_bind, in_kernel. rewrite Em. eexists _, _, h, ac. split; [done|]. split; [|constructor].
        eapply (inv_quiet _ _ _ t c (k b) None (hp_vars (cf_heap cf))); [done|by split_and!|done..|]. split; [done|]. simpl. by rewrite decide_False.
      * destruct (inv_take h cf ac t c k I Hrun Ht Hb Eh Hok) as (x' & hp & h' & E & HI). exists x', hp, h', ac. split_and!; [done|done|constructor].
  - destruct Hok as [Hbef [?|Eh]]; [done|]. destruct (inv_resume h cf ac t c k I Hrun Ht Hb Eh Hbef) as (x' & hp & E & HI).
    exists x', hp, h, ac. split_and!; [done|done|constructor].
Qed.

Lemma call_before x v c : rep x v -> owner base c x -> before c (call_prog c).
Proof.
  intros [Hr Hg] Hc. destruct c as [size|a]; [apply before_malloc|]. destruct Hc as (o & n & Hin & ->).
  destruct (used_address _ _ _ _ _ Hr Hin) as (? & ? & Hd & ? & He & ?). rewrite (geo_ptr _ _ _ Hg), (geo_end _ _ _ Hg) in *.
  apply before_free; (done || lia).
Qed.

Lemma inv_call h cf ac t c :
  inv h cf ac -> cf_tasks cf !! t = None -> owns c (cf_owned cf) ->
  let cf' := mkConfig (cf_heap cf) (<[t := (c, Runs (call_prog c))]> (cf_tasks cf)) (gives c (cf_owned cf)) in
  exists ac', inv h cf' ac' /\ astep base ms ac (Some (LCall t c)) ac'.
Proof.
  intros [I1 I2 I3 [v0 I4] [L1 L2 L3] I6 I7 I8] Ht Hc. assert (ac_calls ac !! t = None) as Hb.
  { specialize (I6 t). rewrite Ht in I6. by destruct (ac_calls ac !! t). }
  eexists. split; [|constructor; [done|by rewrite I7]]. assert (h ≠ Some t) as Hh.
  { intros ->. destruct L3 as (c' & a & E & _). by rewrite Ht in E. }
  split; simpl; [done|done|done|by exists v0| | |by rewrite I7|by apply claims_call].
  - split; [done| |].
    + intros u Hu. destruct (L2 u Hu) as (? & c' & f & Hf). split; [done|]. rewrite lookup_insert_ne by (intros ->; congruence). eauto.
    + destruct h as [u|]; [|done]. by rewrite lookup_insert_ne by congruence.
  - eapply tasks_step; [exact I6| |by left| |done].
    + split; [done|]. simpl. rewrite decide_False by done. eapply call_before; [exact I4|]. destruct c; [done|]. by apply (cl_owned _ _ _ _ I8).
    + done.
Qed.

Lemma inv_return h cf ac t c r :
  inv h cf ac -> runs t (hp_kernel (cf_heap cf)) -> cf_tasks cf !! t = Some (c, Runs (Return r)) ->
  exists ac', inv h (mkConfig (cf_heap cf) (delete t (cf_tasks cf)) (gets_back c r (cf_owned cf))) ac' /\ asteps base ms ac [LReturn t c r] ac'.
Proof.
  intros I Hrun Ht. pose proof I as [I1 I2 I3 [v0 I4] [L1 L2 L3] I6 I7 I8]. pose proof (running_no_waiter _ _ I1 Hrun) as Hnw.
  destruct (tasks_lookup I6 Ht) as ([c' o] & Hb & E & Hok). simpl in E. subst c'.
  assert (h ≠ Some t /\ exists ac1, asteps base ms ac [] ac1 /\ ac_blocks ac1 = ac_blocks ac /\ ac_owned ac1 = ac_owned ac /\
    ac_calls ac1 = <[t := (c, Some r)]> (ac_calls ac)) as (Hh & ac1 & Hs & E1 & E2 & E3).
  { destruct o as [r'|]; simpl in Hok.
    - destruct Hok as [Hh Ha]. simpl in Ha. subst r'. split; [done|]. exists ac. split_and!; [constructor|done|done|]. by rewrite insert_id.
    - destruct (decide (h = Some t)); [done|]. split; [done|].
      exists (mkAconfig (ac_blocks ac) (<[t := (c, Some r)]> (ac_calls ac)) (ac_owned ac)). split_and!; [|done..].
      eapply (asteps_step _ _ _ None []); [|constructor]. eapply astep_op; [exact Hb|exact (Hok (ac_blocks ac))]. }
  exists (mkAconfig (ac_blocks ac1) (delete t (ac_calls ac1)) (gets_back c r (ac_owned ac1))). split.
  - assert (claims_ok base (ac_blocks ac) (cf_owned cf) (<[t := (c, Some r)]> (ac_calls ac))) as Hcl.
    { destruct o as [r'|]; simpl in Hok; [destruct Hok as [_ <-]; by rewrite insert_id|]. destruct (decide (h = Some t)); [done|].
      eapply (claims_op base ms _ _ _ _ _ _ _ _ I4 Hb (Hok (ac_blocks ac)) I8). }
    split; simpl; rewrite ?E1, ?E2, ?E3, ?I7; [done|done|done|by exists v0| | |done|by apply claims_return; [apply lookup_insert_eq|]].
    + split; [done| |].
      * intros u Hu. rewrite lookup_delete_ne by (intros ->; done). by apply L2.
      * destruct h as [u|]; [|done]. by rewrite lookup_delete_ne by congruence.
    + intros u. destruct (decide (u = t)) as [->|Hne]; [by rewrite !lookup_delete_eq|].
      rewrite !lookup_delete_ne, lookup_insert_ne by done. exact (I6 u).
  - apply (asteps_trans _ _ _ [] ac1); [done|]. eapply (asteps_step _ _ _ (Some (LReturn t c r)) []); [|constructor].
    apply astep_return. by rewrite E3, lookup_insert_eq.
Qed.

Lemma inv_step h cf ac l cf' :
  inv h cf ac -> cstep cf l cf' -> exists h' ac', inv h' cf' ac' /\ asteps base ms ac (visible l []) ac'.
Proof.
  intros I Hs. destruct Hs as [t c Hrun Ht Hc|t c a x' hp Hrun Ht Hs|t c r Hrun Ht|k (Hk & Hsem & Ev & Eq)].
  - destruct (inv_call h cf ac t c I Ht Hc) as (ac' & HI & Hs). exists h, ac'. split; [done|]. eapply asteps_step; [exact Hs|constructor].
  - destruct (inv_task h cf ac t c a I Hrun Ht) as (x2 & hp2 & h' & ac' & E & HI & Has); [by intros r ->|].
    rewrite Hs in E. injection E as <- <-. eauto.
  - destruct (inv_return h cf ac t c r I Hrun Ht) as (ac' & HI & Has). eauto.
  - exists h, ac. split; [|constructor]. destruct I as [I1 I2 I3 I4 [L1 L2 L3] I6 I7 I8].
    split; simpl; try done; [split; [by rewrite Ev|by rewrite Eq|done]|by rewrite Eq].
Qed.

Lemma inv_steps cf tr cf' : csteps cf tr cf' -> forall h ac, inv h cf ac -> exists h' ac', inv h' cf' ac' /\ asteps base ms ac tr ac'.
Proof.
  induction 1 as [cf|cf l tr cf1 cf2 Hs _ IH]; intros h ac I; [exists h, ac; split; [done|constructor]|].
  destruct (inv_step h cf ac l cf1 I Hs) as (h1 & ac1 & I1 & Has1). destruct (IH h1 ac1 I1) as (h2 & ac2 & I2 & Has2).
  exists h2, ac2. split; [done|]. replace (visible l tr) with (visible l [] ++ tr) by (by destruct l). by eapply asteps_trans.
Qed.
End simulation.

(** ** The theorems *)

(** No thread is in the heap, whose blocks are those of [x], and what is owned are blocks. *)
Record initial (x : X) (cf : config) : Prop := {
  in_kinv : kinv (hp_kernel (cf_heap cf));
  in_sem : sem_free (hp_kernel (cf_heap cf));
  in_tasks : cf_tasks cf = ∅;
  in_rep : heap_rep x.1 x.2 (cf_heap cf);
  in_owned : forall a, a ∈ cf_owned cf -> used_addr (heap_ptr (cf_heap cf)) x a;
}.

Lemma initial_inv x cf :
  initial x cf -> inv (heap_ptr (cf_heap cf)) (mem_size_aligned (cf_heap cf)) None cf (mkAconfig x ∅ (cf_owned cf)).
Proof.
  intros [I1 (Ho & Es & Eq) I3 I4 I5]. assert (geo (heap_ptr (cf_heap cf)) (mem_size_aligned (cf_heap cf)) (cf_heap cf)) as Hg.
  { split; [done|done|]. apply (hs_end _ _ (hr_shape _ _ _ I4)). }
  split; simpl; [done| |done|by exists (hp_vars (cf_heap cf))| | |done|].
  - split; [done|]. exists (mkSem 1). by split_and!.
  - split; [done| |by split]. intros u Hu. rewrite Eq in Hu. by apply elem_of_nil in Hu.
  - intros t. by rewrite I3, !lookup_empty.
  - split; [done|]. intros t b a Hb. by rewrite lookup_empty in Hb.
Qed.

Lemma run_inv x cf tr cf' :
  initial x cf -> csteps cf tr cf' -> exists h ac,
    inv (heap_ptr (cf_heap cf)) (mem_size_aligned (cf_heap cf)) h cf' ac /\
    asteps (heap_ptr (cf_heap cf)) (mem_size_aligned (cf_heap cf)) (mkAconfig x ∅ (cf_owned cf)) tr ac.
Proof.
  intros Hin Hs. eapply inv_steps; [exact Hs|by apply initial_inv].
Qed.

(** C4: the heap is linearizable: any number of threads call [rt_malloc] and [rt_free], each in its own blocks, and are interleaved access by access with each other and with
    whatever interrupts and the scheduler do to the kernel. What can be seen, the calls, their results and their order, is a run of a heap of blocks whose operations are atomic: each call takes
    effect at one moment between its beginning and its end, as first fit over the blocks there are then, or as the release of the block with coalescing. And
    whenever no thread is in a call, the headers in memory represent those blocks and the semaphore is free. *)
Theorem heap_linearizable x cf tr cf' :
  initial x cf -> csteps cf tr cf' -> exists ac,
    asteps (heap_ptr (cf_heap cf)) (mem_size_aligned (cf_heap cf)) (mkAconfig x ∅ (cf_owned cf)) tr ac /\
    ac_owned ac = cf_owned cf' /\ (forall t, cf_tasks cf' !! t = None <-> ac_calls ac !! t = None) /\
    (cf_tasks cf' = ∅ -> heap_rep (ac_blocks ac).1 (ac_blocks ac).2 (cf_heap cf') /\ sem_free (hp_kernel (cf_heap cf'))).
Proof.
  intros Hin Hs. destruct (run_inv _ _ _ _ Hin Hs) as (h & ac & [I1 I2 I3 I4 [L1 L2 L3] I6 I7 I8] & Has).
  exists ac. split_and!; [done|done| |].
  - intros t. specialize (I6 t). by destruct (cf_tasks cf' !! t), (ac_calls ac !! t).
  - intros Ht. rewrite Ht in *. destruct h as [u|]; [by destruct L3 as (? & ? & ? & _)|]. destruct L3 as [L3 _]. split; [done|].
    pose proof I2 as [Ho (sem & Es & _ & Hemp)]. split_and!; [done|done|]. rewrite L1 in Es. injection Es as <-. by apply Hemp.
Qed.

(** The bytes behind the address [a] that are its block's. *)
Definition size_at (base : Z) (l : list block) (a : Z) : Z :=
  match find (fun p : Z * Z => base + p.1 + SIZEOF_STRUCT_MEM =? a) (used_blocks 0 l) with
  | Some (_, n) => n - SIZEOF_STRUCT_MEM
  | None => 0
  end.

Lemma size_at_used base x a :
  Forall block_ok x.1 -> used_addr base x a -> exists o n, (o, n) ∈ used_blocks 0 x.1 /\ a = base + o + SIZEOF_STRUCT_MEM /\ size_at base x.1 a = n - SIZEOF_STRUCT_MEM.
Proof.
  intros Hl (o & n & Hin & ->). exists o, n. split_and!; [done|done|]. unfold size_at.
  destruct (find _ _) as [[o' n']|] eqn:Ef.
  - apply find_some in Ef as [Hin' E]. apply list_elem_of_In in Hin'. simpl in E. assert (o' = o) as -> by lia.
    destruct (used_blocks_disjoint _ _ _ _ _ _ Hl Hin Hin') as [[_ <-]|H]; [done|]. apply used_blocks_bound in Hin, Hin'; [lia|done..].
  - eapply find_none in Ef; [|by apply list_elem_of_In]. simpl in Ef. lia.
Qed.

(** C5: the calls are safe in every interleaving: the thread that has the CPU in a call can take its next step (no assertion of the code
    fails, and nothing outside of the headers is accessed), and at any time the blocks that threads own are aligned, inside of the heap, and disjoint from each other with
    their headers. *)
Theorem heap_calls_safe x cf tr cf' :
  initial x cf -> csteps cf tr cf' ->
  (forall t c a, runs t (hp_kernel (cf_heap cf')) -> cf_tasks cf' !! t = Some (c, a) ->
    (exists r, a = Runs (Return r)) \/ exists a' h', task_step t a (cf_heap cf') = Some (a', h')) /\
  exists size : Z -> Z, forall a, a ∈ cf_owned cf' ->
    (4 | a) /\ 0 < size a /\ heap_ptr (cf_heap cf') + SIZEOF_STRUCT_MEM <= a /\ a + size a <= heap_end (cf_heap cf') /\
    forall b, b ∈ cf_owned cf' -> b ≠ a -> a + size a <= b - SIZEOF_STRUCT_MEM \/ b + size b <= a - SIZEOF_STRUCT_MEM.
Proof.
  intros Hin Hs. destruct (run_inv _ _ _ _ Hin Hs) as (h & ac & I & Has). split.
  - intros t c a Hrun Ht. assert ((exists r, a = Runs (Return r)) \/ forall r, a ≠ Runs (Return r)) as [|Hna]
      by (destruct a as [[]|]; eauto; right; by intros).
    { by left. }
    right. destruct (inv_task _ _ _ _ _ _ _ _ I Hrun Ht Hna) as (a' & h' & _ & _ & E & _). eauto.
  - destruct I as [_ _ [G1 G2 G3] [v [Hr Hg]] _ _ _ I8]. exists (size_at (heap_ptr (cf_heap cf)) (ac_blocks ac).1). intros a Ha.
    pose proof (hs_blocks _ _ (hr_shape _ _ _ Hr)) as Hl.
    destruct (size_at_used _ _ _ Hl (cl_owned _ _ _ _ I8 a Ha)) as (o & n & Ho & -> & ->).
    destruct (used_address _ _ _ _ _ Hr Ho) as (? & ? & Hd & ? & He & ?). rewrite (geo_ptr _ _ _ Hg), (geo_end _ _ _ Hg) in *. rewrite G1, G3.
    split_and!; [done|lia|lia|lia|]. intros b Hb Hne.
    destruct (size_at_used _ _ _ Hl (cl_owned _ _ _ _ I8 b Hb)) as (o' & n' & Ho' & -> & ->).
    destruct (used_blocks_disjoint _ _ _ _ _ _ Hl Ho Ho') as [[<- <-]|[?|?]]; [done|left; lia|right; lia].
Qed.

(** ** Example: a run with two threads *)

(** The choices of a run, and the run that they make. *)
Inductive choice := DoCall (t : nat) (c : heap_call) | DoSteps (t : nat) (n : nat) | DoReturn (t : nat) | DoOthers (m : M unit).

Definition runsb (t : nat) (k : kernel) : bool :=
  bool_decide (rt_current_thread k = Some t) &&
  match threads k !! t with Some th => th_stat th =? RT_THREAD_RUNNING | None => false end && (rt_interrupt_nest k =? 0).
Lemma runsb_sound t k : runsb t k = true -> runs t k.
Proof.
  unfold runsb. rewrite !andb_true_iff, bool_decide_eq_true, Z.eqb_eq. intros [[H1 H2] H3]. split_and!; [done| |done].
  destruct (threads k !! t) as [th|]; [|done]. exists th. split; [done|lia].
Qed.

Definition sem_okb (k : kernel) : bool :=
  match objects k !! OSem heap_sem, sems k !! heap_sem with
  | Some o, Some sem => (obj_type o .&~ RT_Object_Class_Static =? RT_Object_Class_Semaphore) && ((obj_flag o =? 0) || (obj_flag o =? 1)) &&
      (0 <=? sem_value sem) && (sem_value sem <? 65536) && (negb (0 <? sem_value sem) || bool_decide (qget k (sem_q heap_sem) = []))
  | _, _ => false
  end.
Lemma sem_okb_sound k : sem_okb k = true -> sem_ok heap_sem k.
Proof.
  unfold sem_okb. destruct (objects k !! OSem heap_sem) as [o|] eqn:Eo, (sems k !! heap_sem) as [sem|] eqn:Es; try done.
  rewrite !andb_true_iff, !orb_true_iff, !Z.eqb_eq, bool_decide_eq_true. intros [[[[H1 H2] H3] H4] H5]. split.
  - exists o. split_and!; [done|done|]. unfold ipc_flag. destruct H2; auto.
  - exists sem. split_and!; [done|lia|lia|]. intros Hp. destruct H5; [lia|done].
Qed.

Definition othersb (k k' : kernel) : bool :=
  kinvb k' && sem_okb k' && bool_decide (sem_value <$> sems k' !! heap_sem = sem_value <$> sems k !! heap_sem) &&
  bool_decide (qget k' (sem_q heap_sem) = qget k (sem_q heap_sem)).
Lemma othersb_sound k k' : othersb k k' = true -> others k k'.
Proof.
  unfold othersb. rewrite !andb_true_iff, !bool_decide_eq_true. intros [[[H1 H2] H3] H4].
  split_and!; [by apply kinvb_sound|by apply sem_okb_sound| |done].
  destruct (sems k' !! heap_sem) as [[v']|], (sems k !! heap_sem) as [[v]|]; simpl in H3; congruence.
Qed.

Definition ownsb (c : heap_call) (owned : gset Z) : bool := match c with CMalloc _ => true | CFree p => bool_decide (p ∈ owned) end.
Lemma ownsb_sound c owned : ownsb c owned = true -> owns c owned.
Proof. destruct c; simpl; [done|]. by rewrite bool_decide_eq_true. Qed.

Fixpoint task_steps (t n : nat) (cf : config) : option config :=
  match n with
  | O => Some cf
  | S n =>
      match cf_tasks cf !! t with
      | Some (c, a) =>
          match task_step t a (cf_heap cf) with
          | Some (a', h') =>
              if runsb t (hp_kernel (cf_heap cf)) then task_steps t n (mkConfig h' (<[t := (c, a')]> (cf_tasks cf)) (cf_owned cf)) else None
          | None => None
          end
      | None => None
      end
  end.

Definition choose (d : choice) (cf : config) : option (list label * config) :=
  let k := hp_kernel (cf_heap cf) in
  match d with
  | DoCall t c =>
      if runsb t k && bool_decide (fst <$> cf_tasks cf !! t = None) && ownsb c (cf_owned cf)
      then Some ([LCall t c], mkConfig (cf_heap cf) (<[t := (c, Runs (call_prog c))]> (cf_tasks cf)) (gives c (cf_owned cf))) else None
  | DoSteps t n => pair [] <$> task_steps t n cf
  | DoReturn t =>
      match cf_tasks cf !! t with
      | Some (c, Runs (Return r)) =>
          if runsb t k then Some ([LReturn t c r], mkConfig (cf_heap cf) (delete t (cf_tasks cf)) (gets_back c r (cf_owned cf))) else None
      | _ => None
      end
  | DoOthers m =>
      match m k with
      | Some (_, k') => if othersb k k' then Some ([], mkConfig (set_hp_kernel k' (cf_heap cf)) (cf_tasks cf) (cf_owned cf)) else None
      | None => None
      end
  end.

Fixpoint run_choices (l : list choice) (cf : config) : option (list label * config) :=
  match l with
  | [] => Some ([], cf)
  | d :: l =>
      match choose d cf with
      | Some (tr, cf1) => match run_choices l cf1 with Some (tr', cf2) => Some (tr ++ tr', cf2) | None => None end
      | None => None
      end
  end.

Lemma csteps_trans cf tr cf1 tr' cf2 : csteps cf tr cf1 -> csteps cf1 tr' cf2 -> csteps cf (tr ++ tr') cf2.
Proof. intros H H2. induction H as [|cf l tr cf1 cf3 H1 _ IH]; [done|]. destruct l; by apply (csteps_step _ _ _ _ _ H1 (IH H2)). Qed.

Lemma task_steps_sound t n cf cf' : task_steps t n cf = Some cf' -> csteps cf [] cf'.
Proof.
  revert cf. induction n as [|n IH]; intros cf; simpl; [intros [= <-]; constructor|].
  destruct (cf_tasks cf !! t) as [[c a]|] eqn:Et; [|done].
  destruct (task_step t a (cf_heap cf)) as [[a' h']|] eqn:E; [|done]. destruct (runsb _ _) eqn:Er; [|done]. intros H%IH.
  eapply (csteps_step _ None []); [|exact H]. eapply cstep_task; [by apply runsb_sound|done|done].
Qed.

Lemma choose_sound d cf tr cf' : choose d cf = Some (tr, cf') -> csteps cf tr cf'.
Proof.
  destruct d as [t c|t n|t|m]; simpl.
  - destruct (runsb _ _ && _ && _) eqn:E; [|done]. intros [= <- <-]. rewrite !andb_true_iff, bool_decide_eq_true in E. destruct E as [[E1 E2] E3].
    eapply (csteps_step _ (Some _) []); [|constructor]. apply cstep_call; [by apply runsb_sound| |by apply ownsb_sound].
    by destruct (cf_tasks cf !! t).
  - destruct (task_steps t n cf) as [cf1|] eqn:E; [|done]. intros [= <- <-]. by eapply task_steps_sound.
  - destruct (cf_tasks cf !! t) as [[c [[r| | | |]|]]|] eqn:Et; try done. destruct (runsb _ _) eqn:Er; [|done]. intros [= <- <-].
    eapply (csteps_step _ (Some _) []); [|constructor]. apply cstep_return; [by apply runsb_sound|done].
  - destruct (m _) as [[[] k']|] eqn:Em; [|done]. destruct (othersb _ _) eqn:Eo; [|done]. intros [= <- <-].
    eapply (csteps_step _ None []); [|constructor]. by apply cstep_others, othersb_sound.
Qed.

Lemma run_choices_sound l cf tr cf' : run_choices l cf = Some (tr, cf') -> csteps cf tr cf'.
Proof.
  revert cf tr. induction l as [|d l IH]; intros cf tr; simpl; [intros [= <- <-]; constructor|].
  destruct (choose d cf) as [[tr1 cf1]|] eqn:E1; [|done]. simpl. destruct (run_choices l cf1) as [[tr2 cf2]|] eqn:E2; [|done].
  intros [= <- <-]. eapply csteps_trans; [by eapply choose_sound|by eapply IH].
Qed.

(** The thread 0 has taken [heap_sem] for 30 bytes when an interrupt wakes the thread 7, which is more urgent and releases a block: it has to wait, and the thread 0 goes on until
    it releases the semaphore to it. *)
Definition demo_config : config := mkConfig demo_h ∅ {[536870912 + 12; 536870912 + 84 + 12]}.
Definition wake_up (t : nat) : M unit := rt_thread_resume t;; rt_schedule.
Definition lie_down (t : nat) : M unit := rt_thread_suspend t;; rt_schedule.
Definition demo_choices : list choice :=
  [DoCall 0 (CMalloc 30); DoSteps 0 7; DoOthers (wake_up 7); DoCall 7 (CFree (536870912 + 84 + 12)); DoSteps 7 6; DoSteps 0 34; DoSteps 7 30; DoReturn 7;
   DoOthers (lie_down 7); DoSteps 0 4; DoReturn 0].
Definition demo_blocks_x : X := (demo_blocks, 24).

Lemma demo_initial : initial demo_blocks_x demo_config.
Proof.
  split; [apply kinvb_sound; vm_compute; reflexivity|apply demo_sem_free|done|apply demo_blocks_rep|].
  intros a [->%elem_of_singleton| ->%elem_of_singleton]%elem_of_union; [exists 0, 24|exists 84, 40]; (split; [set_solver|done]).
Qed.

Lemma heap_linearizable_witness :
  option_map fst (run_choices demo_choices demo_config) =
    Some [LCall 0 (CMalloc 30); LCall 7 (CFree 536871008); LReturn 7 (CFree 536871008) 0; LReturn 0 (CMalloc 30) 536870948] /\
  forall tr cf', run_choices demo_choices demo_config = Some (tr, cf') -> exists ac,
    asteps (heap_ptr demo_h) (mem_size_aligned demo_h) (mkAconfig demo_blocks_x ∅ (cf_owned demo_config)) tr ac /\
    ac_owned ac = cf_owned cf' /\ (forall t, cf_tasks cf' !! t = None <-> ac_calls ac !! t = None) /\
    (cf_tasks cf' = ∅ -> heap_rep (ac_blocks ac).1 (ac_blocks ac).2 (cf_heap cf') /\ sem_free (hp_kernel (cf_heap cf'))).
Proof.
  split; [vm_compute; reflexivity|]. intros tr cf' H. exact (heap_linearizable demo_blocks_x demo_config tr cf' demo_initial (run_choices_sound _ _ _ _ H)).
Defined.

(** The same run, stopped when both threads are in their calls. *)
Lemma heap_calls_safe_witness :
  option_map (fun r => (fun t => match cf_tasks r.2 !! t with Some (_, Waits _) => true | _ => false end) <$> [0%nat; 7%nat]) (run_choices (firstn 5 demo_choices) demo_config) =
    Some [false; true] /\
  forall tr cf', run_choices (firstn 5 demo_choices) demo_config = Some (tr, cf') ->
  (forall t c a, runs t (hp_kernel (cf_heap cf')) -> cf_tasks cf' !! t = Some (c, a) ->
    (exists r, a = Runs (Return r)) \/ exists a' h', task_step t a (cf_heap cf') = Some (a', h')) /\
  exists size : Z -> Z, forall a, a ∈ cf_owned cf' ->
    (4 | a) /\ 0 < size a /\ heap_ptr (cf_heap cf') + SIZEOF_STRUCT_MEM <= a /\ a + size a <= heap_end (cf_heap cf') /\
    forall b, b ∈ cf_owned cf' -> b ≠ a -> a + size a <= b - SIZEOF_STRUCT_MEM \/ b + size b <= a - SIZEOF_STRUCT_MEM.
Proof.
  split; [vm_compute; reflexivity|]. intros tr cf' H. exact (heap_calls_safe demo_blocks_x demo_config tr cf' demo_initial (run_choices_sound _ _ _ _ H)).
Defined.
