(* ===== verification/System.v ===== *)
(** The kernel under interleaved threads and interrupts: every thread calls the semaphores, the mutexes, sleeps
    and yields in any order, waits are resumed when the thread has the CPU again, and the clock and other
    interrupts come between the calls. *)

From S2P Require Import Prelude RtDef Object Scheduler Timer Thread Kernel Tick Ipc Life Sem Mutex.

(** ** The system *)

(** The kernel calls of a thread. *)
Inductive call :=
| CallSemTake (n : nat) (time : Z)
| CallSemRelease (n : nat)
| CallMutexTake (n : nat) (time : Z)
| CallMutexRelease (n : nat)
| CallSleep (tick : Z)
| CallYield.

(** A call that waits in its [rt_schedule()]. *)
Inductive pending :=
| PendSem (n t : nat)
| PendMutex (f : mutex_frame)
| PendSleep (t : nat).

(** The kernel, the calls that threads have not returned from, and how often each thread holds each mutex by
    the results it has seen: the takes that returned [RT_EOK] less the releases that did. *)
Record system := mkSystem {
  sy_kernel : kernel;
  sy_pending : gmap nat pending;
  sy_held : gmap (nat * nat) Z }.

Definition outcome_map {A F G} (f : F -> G) (r : outcome A F) : outcome A G :=
  match r with Ret a => Ret a | Block x => Block (f x) end.

Definition run_call (c : call) : M (outcome Z pending) :=
  match c with
  | CallSemTake n time => r ← rt_sem_take n time; mret (outcome_map (PendSem n) r)
  | CallSemRelease n => e ← rt_sem_release n; mret (Ret e)
  | CallMutexTake n time => r ← rt_mutex_take n time; mret (outcome_map PendMutex r)
  | CallMutexRelease n => e ← rt_mutex_release n; mret (Ret e)
  | CallSleep tick => t ← self; rt_thread_sleep tick;; mret (Block (PendSleep t))
  | CallYield => e ← rt_thread_yield; mret (Ret e)
  end.

Definition run_pending (p : pending) : M (outcome Z pending) :=
  match p with
  | PendSem n t => e ← rt_sem_take_resume t; mret (Ret e)
  | PendMutex f => r ← rt_mutex_take_resume f; mret (outcome_map PendMutex r)
  | PendSleep t => e ← rt_thread_sleep_resume t; mret (Ret e)
  end.

Definition held (h : gmap (nat * nat) Z) (n t : nat) : Z := default 0 (h !! (n, t)).
Definition hold_more (n t : nat) (d : Z) (h : gmap (nat * nat) Z) : gmap (nat * nat) Z :=
  <[(n, t) := held h n t + d]> h.

(** What the thread [t] learns from the result [e] of a call. *)
Definition call_returns (c : call) (t : nat) (e : Z) (h : gmap (nat * nat) Z) : gmap (nat * nat) Z :=
  match c with
  | CallMutexTake n _ => if e =? RT_EOK then hold_more n t 1 h else h
  | CallMutexRelease n => if e =? RT_EOK then hold_more n t (-1) h else h
  | _ => h
  end.
Definition pending_returns (p : pending) (t : nat) (e : Z) (h : gmap (nat * nat) Z) : gmap (nat * nat) Z :=
  match p with
  | PendMutex f => if e =? RT_EOK then hold_more (mf_mutex f) t 1 h else h
  | _ => h
  end.

(** The system when the kernel has run a call, or the rest of one, of [t] up to its return or its wait. *)
Definition call_done (c : call) (t : nat) (σ : system) (r : outcome Z pending) (k' : kernel) : system :=
  match r with
  | Ret e => mkSystem k' (sy_pending σ) (call_returns c t e (sy_held σ))
  | Block p => mkSystem k' (<[t := p]> (sy_pending σ)) (sy_held σ)
  end.
Definition pending_done (p : pending) (t : nat) (σ : system) (r : outcome Z pending) (k' : kernel) : system :=
  match r with
  | Ret e => mkSystem k' (delete t (sy_pending σ)) (pending_returns p t e (sy_held σ))
  | Block p => mkSystem k' (<[t := p]> (sy_pending σ)) (sy_held σ)
  end.

(** What happens next: the running thread makes a call or goes on with the one it waited in, or an interrupt
    comes (the clock's, or one whose handler releases a semaphore). *)
Inductive sys_event :=
| EvCall (c : call)
| EvResume
| EvTick
| EvIsrRelease (n : nat).

Definition in_interrupt {A} (m : M A) : M unit := rt_interrupt_enter;; m;; rt_interrupt_leave.

Definition step `{UserTimeouts} (e : sys_event) (σ : system) : option system :=
  let k := sy_kernel σ in
  match e with
  | EvCall c =>
      t ← rt_current_thread k;
      match sy_pending σ !! t with
      | Some _ => None
      | None => '(r, k') ← run_call c k; Some (call_done c t σ r k')
      end
  | EvResume =>
      t ← rt_current_thread k;
      p ← sy_pending σ !! t;
      '(r, k') ← run_pending p k;
      Some (pending_done p t σ r k')
  | EvTick =>
      '(_, k') ← in_interrupt (rt_tick_increase (S (length (due (ticked k))))) k;
      Some (mkSystem k' (sy_pending σ) (sy_held σ))
  | EvIsrRelease n =>
      '(_, k') ← in_interrupt (rt_sem_release n) k;
      Some (mkSystem k' (sy_pending σ) (sy_held σ))
  end.

(** ** What a thread may do *)

Section system.
(** The idle thread: it never waits. *)
Context (idle : nat).

(** The arguments are objects that exist and times the timer can hold, and a mutex is not nested deeper than
    its 8-bit counter. *)
Definition call_ok (c : call) (t : nat) (σ : system) : Prop :=
  match c with
  | CallSemTake n time => is_Some (sems (sy_kernel σ) !! n) /\ time < TIMER_MAX /\ (t = idle -> time = 0)
  | CallSemRelease n => is_Some (sems (sy_kernel σ) !! n)
  | CallMutexTake n time => is_Some (mutexes (sy_kernel σ) !! n) /\ time < TIMER_MAX /\ (t = idle -> time = 0) /\
      held (sy_held σ) n t < 255
  | CallMutexRelease n => is_Some (mutexes (sy_kernel σ) !! n)
  | CallSleep tick => 0 <= tick < TIMER_MAX /\ t ≠ idle
  | CallYield => True
  end.

Definition enabled (e : sys_event) (σ : system) : Prop :=
  match e with
  | EvCall c => exists t, rt_current_thread (sy_kernel σ) = Some t /\ sy_pending σ !! t = None /\ call_ok c t σ
  | EvResume => exists t, rt_current_thread (sy_kernel σ) = Some t /\ is_Some (sy_pending σ !! t)
  | EvTick => True
  | EvIsrRelease n => is_Some (sems (sy_kernel σ) !! n)
  end.

(** ** The invariant *)

Definition awake (th : thread) : Prop := th_stat th = RT_THREAD_READY \/ th_stat th = RT_THREAD_RUNNING.

Definition owns (k : kernel) (n t : nat) : Prop := exists m, mutexes k !! n = Some m /\ mx_owner m = Some t.

(** A thread that waits for a mutex is in its list; awake again, it owns the mutex or its wait has timed
    out. *)
Definition waits_mutex (k : kernel) (n t : nat) (th : thread) : Prop :=
  th_error th = RT_EOK /\ th_stat th = RT_THREAD_SUSPEND /\ t ∈ qget k (mutex_q n) \/
  th_error th = RT_EOK /\ awake th /\ owns k n t \/
  th_error th = - RT_ETIMEOUT /\ awake th /\ ~ owns k n t.

Definition pending_ok (k : kernel) (t : nat) (p : pending) : Prop :=
  exists th, threads k !! t = Some th /\
    match p with
    | PendMutex f => mf_thread f = t /\ waits_mutex k (mf_mutex f) t th
    | PendSem _ u | PendSleep u => u = t
    end.

Record system_ok (pend : gmap nat pending) (k : kernel) : Prop := {
  sy_unlocked : rt_scheduler_lock_nest k = 0;
  sy_running : exists c th, rt_current_thread k = Some c /\ threads k !! c = Some th /\ th_stat th = RT_THREAD_RUNNING;
  sy_idle : exists th, threads k !! idle = Some th /\ awake th;
  sy_sems : forall n, is_Some (sems k !! n) -> sem_ok n k;
  sy_mutexes : forall n, is_Some (mutexes k !! n) -> mutex_ok n k;
  sy_pends : forall t p, pend !! t = Some p -> pending_ok k t p;
  sy_waiters : forall n t, t ∈ qget k (mutex_q n) -> exists f, pend !! t = Some (PendMutex f) /\ mf_mutex f = n;
}.

Definition waits_for (pend : gmap nat pending) (n t : nat) : bool :=
  match pend !! t with Some (PendMutex f) => bool_decide (mf_mutex f = n) | _ => false end.

(** What the threads know to hold is what the mutex records, but for an owner that has not yet returned from
    its take. *)
Definition held_ok (pend : gmap nat pending) (h : gmap (nat * nat) Z) (n : nat) (m : rt_mutex) : Prop :=
  forall t, held h n t = (if bool_decide (mx_owner m = Some t) && negb (waits_for pend n t) then mx_hold m else 0) /\
    (mx_owner m = Some t -> waits_for pend n t = true -> mx_hold m = 1).

Record system_inv (σ : system) : Prop := {
  sv_kernel : kinv (sy_kernel σ);
  sv_nest : rt_interrupt_nest (sy_kernel σ) = 0;
  sv_ok : system_ok (sy_pending σ) (sy_kernel σ);
  sv_idle : sy_pending σ !! idle = None;
  sv_held : forall n m, mutexes (sy_kernel σ) !! n = Some m -> held_ok (sy_pending σ) (sy_held σ) n m;
}.
(** ** What a step leaves alone *)

(** The thread [u] is at most switched between READY and RUNNING, or given another priority. *)
Record quiet (u : nat) (k k' : kernel) : Prop := {
  qu_thread : forall th, threads k !! u = Some th -> exists th', threads k' !! u = Some th' /\
    th_error th' = th_error th /\ (th_stat th' = th_stat th \/ awake th /\ awake th');
  qu_queues : forall q, (forall p, q ≠ QReady p) -> u ∈ qget k' q <-> u ∈ qget k q;
}.

Lemma quiet_trans u k1 k2 k3 : quiet u k1 k2 -> quiet u k2 k3 -> quiet u k1 k3.
Proof.
  intros [T1 Q1] [T2 Q2]. split.
  - intros th Ht. destruct (T1 th Ht) as (th2 & Ht2 & He2 & Hs2). destruct (T2 th2 Ht2) as (th3 & Ht3 & He3 & Hs3).
    exists th3. split; [done|]. split; [congruence|]. unfold awake in *. destruct Hs2, Hs3; intuition congruence.
  - intros q Hq. by rewrite Q2, Q1.
Qed.

Lemma quiet_shuffled u k k' :
  shuffled (threads k !! u) (threads k' !! u) -> (forall q, (forall p, q ≠ QReady p) -> u ∈ qget k' q <-> u ∈ qget k q) ->
  quiet u k k'.
Proof.
  intros Hs Hq. split; [|done]. intros th Ht. rewrite Ht in Hs.
  destruct Hs as [E|(th0 & st & [= <-] & E & Ho & Hn)]; eexists; (split; [exact E|]); (split; [done|]); [by left|].
  right. by split.
Qed.

Lemma quiet_eq u k k' :
  threads k' !! u = threads k !! u -> (forall q, (forall p, q ≠ QReady p) -> qget k' q = qget k q) -> quiet u k k'.
Proof. intros Ht Hq. apply quiet_shuffled; [by left|]. intros q Hnr. by rewrite Hq. Qed.

Lemma resched_quiet u k k' : resched k k' -> quiet u k k'.
Proof. intros [_ Ht Hw]. apply quiet_shuffled; [apply Ht|]. intros q Hnr. by rewrite Hw. Qed.

Lemma woken_quiet u t th k k' : u ≠ t -> woken t th k k' -> quiet u k k'.
Proof.
  intros Hne [_ Ho Hq _]. apply quiet_shuffled; [by apply Ho|]. intros q Hnr. rewrite Hq by done.
  rewrite elem_of_list_del. naive_solver.
Qed.

Lemma blocked_quiet u q flag time t th k k' : u ≠ t -> blocked_on q flag time t th k k' -> quiet u k k'.
Proof.
  intros Hne [Hg Hj Hq _ _]. apply quiet_shuffled; [by apply Hg|]. intros q' Hnr.
  destruct (decide (q' = q)) as [->|Hd]; [|by rewrite Hq].
  rewrite (joined_perm _ _ _ _ _ _ Hj), elem_of_cons. naive_solver.
Qed.

Section preserve.
Context {pend pend' : gmap nat pending} {k k' : kernel} {A : list nat}.
Hypotheses (Hok : system_ok pend k)
  (Hobj : forall n, objects k' !! OSem n = objects k !! OSem n /\ objects k' !! OMutex n = objects k !! OMutex n)
  (Hquiet : forall u, u ∉ A -> quiet u k k')
  (Halive : forall u, u ∈ A -> exists th, threads k' !! u = Some th /\ th_stat th ≠ RT_THREAD_CLOSE).

Lemma queue_empties q :
  (forall p, q ≠ QReady p) -> qget k q = [] -> (forall u, u ∈ A -> u ∉ qget k' q) -> qget k' q = [].
Proof.
  intros Hq E HA. destruct (qget k' q) as [|u l] eqn:E'; [done|]. exfalso.
  destruct (decide (u ∈ A)) as [Hu|Hu]; [apply (HA u Hu); by left|].
  assert (u ∈ qget k q) as Hin by (apply (qu_queues _ _ _ (Hquiet u Hu) q Hq); rewrite E'; by left).
  rewrite E in Hin. by apply elem_of_nil in Hin.
Qed.

Lemma sem_ok_unchanged n :
  sem_ok n k -> sems k' !! n = sems k !! n -> (forall u, u ∈ A -> u ∉ qget k' (sem_q n)) -> sem_ok n k'.
Proof.
  intros [Ho (sem & Hs & Hv & Hw)] Es HA. split.
  - eapply object_typed_eq; [|exact Ho]. apply Hobj.
  - exists sem. rewrite Es. split_and!; [done|lia|lia|]. intros Hp. apply queue_empties; auto.
Qed.

Lemma mutex_ok_unchanged n :
  mutex_ok n k -> mutexes k' !! n = mutexes k !! n -> (forall u, u ∈ A -> u ∉ qget k' (mutex_q n)) -> mutex_ok n k'.
Proof.
  intros [Ho (m & Hm & Hst)] Em HA. split.
  { eapply object_typed_eq; [|exact Ho]. apply Hobj. }
  exists m. rewrite Em. split; [done|]. unfold mutex_state_ok in *. destruct (mx_owner m) as [o|].
  - destruct Hst as (Hv & Hh & Hp & Hnq & oth & Hoth & Hcl). destruct (decide (o ∈ A)) as [HoA|HoA].
    + destruct (Halive o HoA) as (th & Hth & Hc). split_and!; [done|lia|lia|exact Hp|by apply HA|by exists th].
    + destruct (Hquiet o HoA) as [HT HQ]. destruct (HT oth Hoth) as (th & Hth & _ & Hs).
      split_and!; [done|lia|lia|exact Hp|rewrite HQ; [done|done]|exists th].
      split; [done|]. unfold awake in Hs. destruct Hs; lia.
  - destruct Hst as (Hv & Hh & Hq). split_and!; [done|done|]. apply queue_empties; auto.
Qed.

Lemma pending_ok_quiet u p :
  u ∉ A -> (forall n, owns k' n u <-> owns k n u) -> pending_ok k u p -> pending_ok k' u p.
Proof.
  intros Hu Hown (th & Ht & Hp). destruct (Hquiet u Hu) as [HT HQ]. destruct (HT th Ht) as (th' & Ht' & He & Hs).
  exists th'. split; [done|]. destruct p as [| f|]; [done| |done]. destruct Hp as [Hf Hw]. split; [done|].
  unfold waits_mutex, awake in *. rewrite He, Hown, (HQ (mutex_q (mf_mutex f))) by done.
  destruct Hw as [(? & ? & ?)|[(? & ? & ?)|(? & ? & ?)]]; [left|right; left|right; right];
    (split; [done|]); (split; [|done]); destruct Hs as [E|[? ?]]; try (rewrite E; done); try done; lia.
Qed.

(** The invariant after a step that concerns the threads of [A]. *)
Lemma system_ok_step :
  rt_scheduler_lock_nest k' = 0 ->
  (exists c th, rt_current_thread k' = Some c /\ threads k' !! c = Some th /\ th_stat th = RT_THREAD_RUNNING) ->
  (idle ∈ A -> exists th, threads k' !! idle = Some th /\ awake th) ->
  (forall n, is_Some (sems k' !! n) -> sem_ok n k' \/
     sems k' !! n = sems k !! n /\ forall u, u ∈ A -> u ∉ qget k' (sem_q n)) ->
  (forall n, is_Some (mutexes k' !! n) -> mutex_ok n k' \/
     mutexes k' !! n = mutexes k !! n /\ forall u, u ∈ A -> u ∉ qget k' (mutex_q n)) ->
  (forall n u, u ∉ A -> is_Some (pend !! u) -> owns k' n u <-> owns k n u) ->
  (forall u, u ∉ A -> pend' !! u = pend !! u) ->
  (forall u p, u ∈ A -> pend' !! u = Some p -> pending_ok k' u p) ->
  (forall n u, u ∈ A -> u ∈ qget k' (mutex_q n) -> exists f, pend' !! u = Some (PendMutex f) /\ mf_mutex f = n) ->
  system_ok pend' k'.
Proof.
  intros Hl Hr Hi Hs Hm Hown Hpend HpA HwA. split; [done|done| | | | |].
  - destruct (decide (idle ∈ A)) as [?|HA]; [auto|]. destruct (sy_idle _ _ Hok) as (th & Ht & Ha).
    destruct (qu_thread _ _ _ (Hquiet idle HA) th Ht) as (th' & Ht' & _ & Hs'). exists th'. split; [done|].
    unfold awake in *. destruct Hs' as [E|[_ ?]]; [by rewrite E|done].
  - intros n Hn. destruct (Hs n Hn) as [?|[E HA]]; [done|]. apply sem_ok_unchanged; [|done..].
    apply (sy_sems _ _ Hok). by rewrite <- E.
  - intros n Hn. destruct (Hm n Hn) as [?|[E HA]]; [done|]. apply mutex_ok_unchanged; [|done..].
    apply (sy_mutexes _ _ Hok). by rewrite <- E.
  - intros u p Hu. destruct (decide (u ∈ A)) as [?|HA]; [auto|]. rewrite Hpend in Hu by done.
    apply pending_ok_quiet; [done|eauto|]. by apply (sy_pends _ _ Hok).
  - intros n u Hin. destruct (decide (u ∈ A)) as [?|HA]; [auto|]. rewrite Hpend by done.
    apply (sy_waiters _ _ Hok). by apply (qu_queues _ _ _ (Hquiet u HA) (mutex_q n)).
Qed.
End preserve.

(** ** The kinds of steps *)

Section steps.
Context {pend : gmap nat pending} {k : kernel} {t : nat} {th : thread}.
Hypotheses (Hk : kinv k) (Hok : system_ok pend k) (Hc : rt_current_thread k = Some t)
  (Ht : threads k !! t = Some th) (Hst : th_stat th = RT_THREAD_RUNNING).

Lemma running_nowhere q : wait_q q -> t ∉ qget k q.
Proof.
  intros Hq Hin. destruct (waiting_thread 0 None k q t Hk Hq Hin) as (th' & Ht' & Hs). simplify_eq. lia.
Qed.

Lemma idle_ready : t ≠ idle -> exists ih, threads k !! idle = Some ih /\ th_stat ih = RT_THREAD_READY.
Proof.
  intros Hne. destruct (sy_idle _ _ Hok) as (ih & Hi & [Hs|Hs]); [by exists ih|].
  pose proof (co_running _ _ (si_current _ (ki_sched _ _ _ Hk)) idle ih Hi Hs). congruence.
Qed.

(** The running thread changes itself, and maybe a mutex. *)
Lemma self_ok pend' k' th' :
  rt_scheduler_lock_nest k' = rt_scheduler_lock_nest k -> rt_current_thread k' = Some t ->
  (forall o, (forall u, o ≠ OThreadTimer u) -> objects k' !! o = objects k !! o) -> 
  threads k' = <[t := th']> (threads k) -> th_stat th' = RT_THREAD_RUNNING ->
  (forall q, (forall p, q ≠ QReady p) -> qget k' q = qget k q) ->
  (forall n, is_Some (sems k' !! n) -> sem_ok n k' \/ sems k' !! n = sems k !! n) ->
  (forall n, is_Some (mutexes k' !! n) -> mutex_ok n k' \/ mutexes k' !! n = mutexes k !! n) ->
  (forall n u, u ≠ t -> is_Some (pend !! u) -> owns k' n u <-> owns k n u) ->
  (forall p, pend' !! t = Some p -> pending_ok k' t p) -> (forall u, u ≠ t -> pend' !! u = pend !! u) ->
  system_ok pend' k'.
Proof.
  intros Hl Hc' Hobj Eth Hst' Hq Hs Hm Hown Hpt Hpend.
  assert (threads k' !! t = Some th') as Ht' by (rewrite Eth; apply lookup_insert_eq).
  assert (forall q u, wait_q q -> u ∈ [t] -> u ∉ qget k' q) as Hno.
  { intros q u Hw ->%list_elem_of_singleton. rewrite Hq by (by apply wait_q_not_ready). by apply running_nowhere. }
  eapply (system_ok_step (k := k) (A := [t])); [exact Hok|intros n; split; by apply Hobj| | | | | | | | | | |].
  - intros u Hu. apply quiet_eq; [|done]. rewrite Eth. apply lookup_insert_ne. set_solver.
  - intros u ->%list_elem_of_singleton. exists th'. split; [done|lia].
  - rewrite Hl. apply Hok.
  - by exists t, th'.
  - intros ->%list_elem_of_singleton. exists th'. split; [done|by right].
  - intros n Hn. destruct (Hs n Hn); [by left|right]. split; [done|]. intros u. apply Hno. auto with ipc.
  - intros n Hn. destruct (Hm n Hn); [by left|right]. split; [done|]. intros u. apply Hno. auto with ipc.
  - intros n u Hu. apply Hown. set_solver.
  - intros u Hu. apply Hpend. set_solver.
  - intros u p ->%list_elem_of_singleton. apply Hpt.
  - intros n u Hu Hin. exfalso. eapply Hno; [|exact Hu|exact Hin]. auto with ipc.
Qed.

(** The running thread goes to wait, in [oq] or in no list; [k1] is the kernel when it leaves the CPU. *)
Lemma gone_ok (oq : option qid) p th1 k1 k' :
  t ≠ idle ->
  (forall u uh, u ≠ t -> threads k !! u = Some uh -> exists uh', threads k1 !! u = Some uh' /\
     th_stat uh' = th_stat uh /\ th_error uh' = th_error uh) ->
  kframe k k1 -> gone_waiting t th1 k1 k' -> highest_running k' ->
  (forall q u, (forall p, q ≠ QReady p) -> u ≠ t -> u ∈ qget k' q <-> u ∈ qget k q) ->
  (forall q, wait_q q -> Some q ≠ oq -> t ∉ qget k' q) ->
  (forall n, oq = Some (sem_q n) -> sem_ok n k') ->
  (forall n, oq = Some (mutex_q n) -> mutex_ok n k' /\ exists f, p = PendMutex f /\ mf_mutex f = n) ->
  pending_ok k' t p ->
  system_ok (<[t := p]> pend) k'.
Proof.
  intros Hidle H1 Hf1 Hg Hh Hq Hno Hs Hm Hp. pose proof (gw_frame _ _ _ _ Hg) as Hf2.
  assert (kframe k k') as Hf by (by etrans).
  eapply (system_ok_step (k := k) (A := [t])); [exact Hok|intros n; split; by apply Hf| | | | | | | | | | |].
  - intros u Hu. assert (u ≠ t) as Hne by set_solver. split; [|intros q Hnr; by apply Hq]. intros uh Huh.
    destruct (H1 u uh Hne Huh) as (uh1 & Huh1 & Es & Ee).
    pose proof (gw_others _ _ _ _ Hg u Hne) as Hsh. rewrite Huh1 in Hsh.
    destruct Hsh as [E|(x & st & [= <-] & E & Ho & Hn)]; eexists; (split; [exact E|]); (split; [done|]); [by left|].
    right. unfold awake. rewrite <- Es. by split.
  - intros u ->%list_elem_of_singleton. eexists. split; [apply Hg|]. simpl. lia.
  - rewrite (kf_lock _ _ Hf). apply Hok.
  - destruct Hh as (c & ch & ? & ? & ? & _). by exists c, ch.
  - by intros ->%list_elem_of_singleton.
  - intros n Hn. destruct (decide (oq = Some (sem_q n))) as [E|E]; [left; by apply Hs|right].
    rewrite (kf_sems _ _ Hf). split; [done|]. intros u ->%list_elem_of_singleton. apply Hno; [auto with ipc|congruence].
  - intros n Hn. destruct (decide (oq = Some (mutex_q n))) as [E|E]; [left; by apply Hm|right].
    rewrite (kf_mutexes _ _ Hf). split; [done|]. intros u ->%list_elem_of_singleton. apply Hno; [auto with ipc|congruence].
  - intros n u _ _. unfold owns. by rewrite (kf_mutexes _ _ Hf).
  - intros u Hu. apply lookup_insert_ne. set_solver.
  - intros u p' ->%list_elem_of_singleton. rewrite lookup_insert_eq. by intros [= <-].
  - intros n u ->%list_elem_of_singleton Hin. rewrite lookup_insert_eq.
    destruct (decide (oq = Some (mutex_q n))) as [E|E].
    + destruct (Hm n E) as (_ & f & -> & Ef). by exists f.
    + exfalso. apply (Hno (mutex_q n)); [auto with ipc|congruence|done].
Qed.
End steps.

Lemma resched_ok pend k k' :
  system_ok pend k -> resched k k' -> (rt_scheduler_lock_nest k = 0 -> highest_running k') -> system_ok pend k'.
Proof.
  intros Hok Hr Hh. pose proof (resched_kframe _ _ Hr) as Hfr.
  eapply (system_ok_step (k := k) (A := [])); [exact Hok|intros n; split; by apply Hfr| | | | | | | | | | |].
  - intros u _. by apply resched_quiet.
  - by intros u ?%elem_of_nil.
  - rewrite (kf_lock _ _ Hfr). apply Hok.
  - destruct (Hh (sy_unlocked _ _ Hok)) as (c & ch & ? & ? & ? & _). by exists c, ch.
  - by intros ?%elem_of_nil.
  - intros n _. right. rewrite (kf_sems _ _ Hfr). split; [done|]. by intros u ?%elem_of_nil.
  - intros n _. right. rewrite (kf_mutexes _ _ Hfr). split; [done|]. by intros u ?%elem_of_nil.
  - intros n u _ _. unfold owns. by rewrite (kf_mutexes _ _ Hfr).
  - done.
  - by intros u p ?%elem_of_nil.
  - by intros n u ?%elem_of_nil.
Qed.

(** A waiting thread [w] is woken; [k1] is the kernel when it leaves its list. *)
Lemma woken_ok pend k w wth k1 k' :
  system_ok pend k -> (forall u, u ≠ w -> quiet u k k1) ->
  rt_scheduler_lock_nest k' = rt_scheduler_lock_nest k ->
  (forall n, objects k' !! OSem n = objects k !! OSem n /\ objects k' !! OMutex n = objects k !! OMutex n) ->
  woken w wth k1 k' -> highest_running k' ->
  (forall n, is_Some (sems k' !! n) -> sem_ok n k' \/ sems k' !! n = sems k !! n) ->
  (forall n, is_Some (mutexes k' !! n) -> mutex_ok n k' \/ mutexes k' !! n = mutexes k !! n) ->
  (forall n u, u ≠ w -> is_Some (pend !! u) -> owns k' n u <-> owns k n u) ->
  (forall p, pend !! w = Some p -> pending_ok k' w p) ->
  system_ok pend k'.
Proof.
  intros Hok Hqu Hl Hobj Hwk Hh Hs Hm Hown Hp. destruct (wk_self _ _ _ _ Hwk) as (st & Est & Hsts).
  assert (forall q u, (forall p, q ≠ QReady p) -> u ∈ [w] -> u ∉ qget k' q) as Hno.
  { intros q u Hnr ->%list_elem_of_singleton. rewrite (wk_queues _ _ _ _ Hwk) by done. rewrite elem_of_list_del. naive_solver. }
  eapply (system_ok_step (k := k) (A := [w])); [exact Hok|exact Hobj| | | | | | | | | | |].
  - intros u Hu. assert (u ≠ w) as Hne by set_solver.
    eapply quiet_trans; [by apply Hqu|]. by eapply woken_quiet.
  - intros u ->%list_elem_of_singleton. eexists. split; [exact Est|]. simpl. lia.
  - rewrite Hl. apply Hok.
  - destruct Hh as (c & ch & ? & ? & ? & _). by exists c, ch.
  - intros ->%list_elem_of_singleton. by eexists.
  - intros n Hn. destruct (Hs n Hn); [by left|right]. split; [done|]. intros u. by apply Hno.
  - intros n Hn. destruct (Hm n Hn); [by left|right]. split; [done|]. intros u. by apply Hno.
  - intros n u Hu. apply Hown. set_solver.
  - done.
  - intros u p ->%list_elem_of_singleton. apply Hp.
  - intros n u Hu Hin. exfalso. eapply (Hno (mutex_q n) u); [done|exact Hu|exact Hin].
Qed.

(** ** What threads know to hold *)

Lemma held_hold_more h n t d n' u :
  held (hold_more n t d h) n' u = if bool_decide (n' = n /\ u = t) then held h n t + d else held h n' u.
Proof.
  unfold hold_more. case_bool_decide as E.
  - destruct E as [-> ->]. unfold held at 1. by rewrite lookup_insert_eq.
  - unfold held at 1. rewrite lookup_insert_ne by naive_solver. done.
Qed.

Lemma held_ok_pend pend pend' h n m :
  (forall u, mx_owner m = Some u -> waits_for pend' n u = waits_for pend n u) ->
  held_ok pend h n m -> held_ok pend' h n m.
Proof.
  intros Hw H u. destruct (H u) as [H1 H2]. destruct (decide (mx_owner m = Some u)) as [E|E].
  - rewrite bool_decide_eq_true_2 in * by done. rewrite (Hw u E). done.
  - rewrite bool_decide_eq_false_2 in * by done. done.
Qed.

(** The count of the owner that changes with the mutex. *)
Lemma held_ok_more pend pend' h n t d m m' :
  held_ok pend h n m -> waits_for pend' n t = false ->
  (forall u, u ≠ t -> mx_owner m ≠ Some u) ->
  (mx_owner m' = Some t /\ mx_hold m' = held h n t + d \/
   held h n t + d = 0 /\ mx_owner m' ≠ Some t /\
     forall u, mx_owner m' = Some u -> waits_for pend' n u = true /\ mx_hold m' = 1) ->
  held_ok pend' (hold_more n t d h) n m'.
Proof.
  intros H Hwt Hno Hm' u. rewrite held_hold_more. destruct (decide (u = t)) as [->|Hne].
  - rewrite bool_decide_eq_true_2 by done. rewrite Hwt, andb_true_r. destruct Hm' as [[Ho Eh]|(Eh & Ho & _)].
    + rewrite bool_decide_eq_true_2 by done. by split.
    + by rewrite bool_decide_eq_false_2.
  - rewrite bool_decide_eq_false_2 by naive_solver. destruct (H u) as [E _].
    rewrite bool_decide_eq_false_2 in E by (by apply Hno). simpl in E. rewrite E.
    destruct Hm' as [[Ho Eh]|(_ & _ & Ho)].
    + rewrite bool_decide_eq_false_2 by congruence. split; [done|congruence].
    + case_bool_decide as Eo; [|done]. destruct (Ho u Eo) as [-> ?]. done.
Qed.

Lemma held_ok_other pend h n t d n' m : n' ≠ n -> held_ok pend h n' m -> held_ok pend (hold_more n t d h) n' m.
Proof.
  intros Hne H u. rewrite held_hold_more, bool_decide_eq_false_2 by naive_solver. apply H.
Qed.

Lemma waits_for_insert_other pend t p n u :
  u ≠ t \/ (forall f, p = PendMutex f -> mf_mutex f ≠ n) /\ waits_for pend n u = false ->
  waits_for (<[t := p]> pend) n u = waits_for pend n u.
Proof.
  intros Hu. unfold waits_for at 1. destruct (decide (u = t)) as [->|Hne].
  - destruct Hu as [?|[Hp E]]; [done|]. rewrite lookup_insert_eq, E. destruct p as [|f|]; [done| |done].
    apply bool_decide_eq_false_2. by apply Hp.
  - by rewrite lookup_insert_ne by done.
Qed.

Lemma waits_for_none pend n t : pend !! t = None -> waits_for pend n t = false.
Proof. unfold waits_for. by intros ->. Qed.

(** ** Releasing a semaphore, from a thread or an interrupt *)

Lemma waits_in_one k pend t f q :
  kinv k -> system_ok pend k -> pend !! t = Some (PendMutex f) -> t ∈ qget k q -> wait_q q -> q = mutex_q (mf_mutex f).
Proof.
  intros Hk Hok Hp Hin Hq. destruct (waiting_thread 0 None k q t Hk Hq Hin) as (th & Ht & Hs).
  destruct (sy_pends _ _ Hok t _ Hp) as (th' & Ht' & _ & Hw). simplify_eq. unfold waits_mutex, awake in Hw.
  destruct Hw as [(_ & _ & Hin')|[(_ & ? & _)|(_ & ? & _)]]; [|lia|lia].
  eapply (qo_uniq _ _ _ _ (si_queue _ (ki_sched _ _ _ Hk))); [exact Hin|exact Hin'].
Qed.

Lemma wp_sem_release_ok pend k t n :
  kinv k -> system_ok pend k -> rt_current_thread k = Some t -> is_Some (sems k !! n) ->
  wp (rt_sem_release n) (fun _ k' => kinv k' /\ system_ok pend k' /\ mutexes k' = mutexes k /\
    rt_interrupt_nest k' = rt_interrupt_nest k) k.
Proof.
  intros Hk Hok Hc Hn. eapply wp_mono; [apply (wp_sem_release n t k); [done|by apply Hok|done]|].
  intros r k' (_ & Hk' & Hs & Hres). destruct Hres as [w wth l Eq Hw Hwk _ Hh|sem Eq Hsem ->].
  - pose proof (wk_frame _ _ _ _ Hwk) as Hfr. split_and!; [done| |apply Hfr|apply Hfr].
    assert (w ∈ qget k (sem_q n)) as Hin by (rewrite Eq; by left).
    eapply (woken_ok pend k w wth k k'); [done|intros u _; by apply quiet_eq|apply Hfr|intros n'; split; by apply Hfr|
      done|apply Hh; apply Hok| | | |].
    + intros n' _. rewrite (kf_sems _ _ Hfr). by right.
    + intros n' _. rewrite (kf_mutexes _ _ Hfr). by right.
    + intros n' u _ _. unfold owns. by rewrite (kf_mutexes _ _ Hfr).
    + intros p Hp. destruct (wk_self _ _ _ _ Hwk) as (st & Est & _). eexists. split; [exact Est|].
      destruct (sy_pends _ _ Hok w p Hp) as (wth' & Hw' & Hpk). destruct p as [|f|]; [done| |done].
      pose proof (waits_in_one k pend w f _ Hk Hok Hp Hin ltac:(auto with ipc)). congruence.
  - destruct (sy_running _ _ Hok) as (c & th & Hc' & Ht & Hst). rewrite Hc in Hc'. injection Hc' as <-.
    split_and!; [done| |done|done]. eapply (self_ok Hk Hok Hc Ht Hst pend _ th); simpl; try done.
    + by rewrite insert_id.
    + intros n' _. destruct (decide (n' = n)) as [->|]; [by left|right]. by rewrite lookup_insert_ne.
    + by right.
    + intros p Hp. exact (sy_pends _ _ Hok t p Hp).
Qed.

(** ** Every call keeps the invariant *)

Section calls.
Context {σ : system} {t : nat} {th : thread}.
Let k := sy_kernel σ.
Let pend := sy_pending σ.
Hypotheses (Hi : system_inv σ) (Hc : rt_current_thread k = Some t) (Ht : threads k !! t = Some th)
  (Hst : th_stat th = RT_THREAD_RUNNING).
Let Hk := sv_kernel _ Hi.
Let Hok := sv_ok _ Hi.

Lemma unlocked_other_ready k1 :
  t ≠ idle -> rt_scheduler_lock_nest k1 = rt_scheduler_lock_nest k -> 
  (forall u uh, u ≠ t -> threads k !! u = Some uh -> exists uh', threads k1 !! u = Some uh' /\ th_stat uh' = th_stat uh) ->
  rt_scheduler_lock_nest k1 = 0 /\ other_ready t k1.
Proof.
  intros Hne Hl H1. split; [rewrite Hl; apply Hok|].
  destruct (idle_ready Hk Hok Hc Hne) as (ih & Hih & Hs). destruct (H1 idle ih ltac:(done) Hih) as (ih' & Hih' & Hs').
  exists idle, ih'. split_and!; [done|done|congruence].
Qed.

Lemma wp_call_sem_take n time :
  pend !! t = None -> call_ok (CallSemTake n time) t σ ->
  wp (run_call (CallSemTake n time)) (fun r k' => system_inv (call_done (CallSemTake n time) t σ r k')) k.
Proof.
  intros Hp (Hn & Hti & Hidle). unfold run_call. rewrite wp_bind. eapply wp_mono.
  { apply (wp_sem_take n time t th k); [done|by apply Hok|done|done|done|apply Hi|done]. }
  intros r k' (Hk' & Hs & Hres). rewrite wp_ret.
  assert (forall p m n' u, waits_for (<[t := PendSem p m]> pend) n' u = waits_for pend n' u) as Hwait.
  { intros p m n' u. apply waits_for_insert_other. destruct (decide (u = t)) as [->|]; [right|by left].
    split; [done|by apply waits_for_none]. }
  destruct Hres as [sem Hsem Hpos|sem Hsem Hz Ht0|sem th0 k' Hsem Hz Ht0 Ht' Hb]; simpl.
  - split; [done|apply Hi| |apply Hi|apply Hi]. simpl.
    eapply (self_ok Hk Hok Hc Ht Hst pend _ th); simpl; try done.
    + by rewrite insert_id.
    + intros n' _. destruct (decide (n' = n)) as [->|]; [by left|right]. by rewrite lookup_insert_ne.
    + by right.
    + intros p. fold pend. by rewrite Hp.
  - by destruct σ.
  - simplify_eq. assert (t ≠ idle) as Hne by (intros E; by apply Ht0, Hidle).
    set (th1 := set_th_error RT_EOK th) in *. set (k1 := set_threads _ k) in *.
    pose proof (gw_frame _ _ _ _ (bo_gone _ _ _ _ _ _ _ Hb)) as Hfr.
    assert (forall u uh, u ≠ t -> threads k !! u = Some uh -> exists uh', threads k1 !! u = Some uh' /\
      th_stat uh' = th_stat uh /\ th_error uh' = th_error uh) as H1.
    { intros u uh Hu Huh. exists uh. simpl. by rewrite lookup_insert_ne. }
    split; simpl; [done|rewrite (kf_nest _ _ Hfr); apply Hi| | |].
    + assert (forall q u, (forall p, q ≠ QReady p) -> u ≠ t -> u ∈ qget k' q <-> u ∈ qget k q) as Hqs.
      { intros q u Hnr Hu. exact (qu_queues _ _ _ (blocked_quiet u _ _ _ _ _ _ _ Hu Hb) q Hnr). }
      eapply (gone_ok Hk Hok Hc Ht Hst (Some (sem_q n)) _ th1 k1); [done|done|by split|apply Hb| |exact Hqs| | |done|].
      * apply Hb; apply unlocked_other_ready; [done|done|naive_solver..].
      * intros q Hq Hne'. rewrite (bo_queues _ _ _ _ _ _ _ Hb) by (congruence || by apply wait_q_not_ready).
        by apply (running_nowhere Hk Ht Hst).
      * by intros n' [= ->].
      * eexists. split; [apply Hb|done].
    + rewrite lookup_insert_ne by done. apply Hi.
    + intros n' m. rewrite (kf_mutexes _ _ Hfr). intros Hm. eapply held_ok_pend; [|by apply (sv_held _ Hi)].
      intros u _. apply Hwait.
Qed.

Lemma wp_call_sem_release n :
  pend !! t = None -> call_ok (CallSemRelease n) t σ ->
  wp (run_call (CallSemRelease n)) (fun r k' => system_inv (call_done (CallSemRelease n) t σ r k')) k.
Proof.
  intros Hp Hn. unfold run_call. rewrite wp_bind. eapply wp_mono; [by apply (wp_sem_release_ok pend k t n)|].
  intros r k' (Hk' & Hok' & Em & En). rewrite wp_ret. simpl. split; simpl; [done|rewrite En; apply Hi|done|apply Hi|].
  rewrite Em. apply Hi.
Qed.

Lemma wp_call_yield :
  wp (run_call CallYield) (fun r k' => system_inv (call_done CallYield t σ r k')) k.
Proof.
  unfold run_call, rt_thread_yield. rewrite !wp_bind. eapply (wp_schedule 0 None t); [exact Hk|done|].
  intros k' Hk' Hr _ Hh. rewrite !wp_ret. simpl. pose proof (resched_kframe _ _ Hr) as Hfr.
  split; simpl; [done|rewrite (kf_nest _ _ Hfr); apply Hi| |apply Hi|rewrite (kf_mutexes _ _ Hfr); apply Hi].
  eapply resched_ok; [exact Hok|done|]. intros Hl. apply Hh; [done|]. exists t, th. split; [done|by right].
Qed.

Lemma wp_call_sleep tick :
  pend !! t = None -> call_ok (CallSleep tick) t σ ->
  wp (run_call (CallSleep tick)) (fun r k' => system_inv (call_done (CallSleep tick) t σ r k')) k.
Proof.
  intros Hp [Hti Hne]. unfold run_call. rewrite wp_bind, wp_self. exists t. split; [done|]. rewrite wp_bind.
  eapply wp_mono; [by apply (wp_thread_sleep t th tick k)|]. intros [] k' [Hk' Ha]. rewrite wp_ret. simpl.
  pose proof (gw_frame _ _ _ _ (as_gone _ _ _ _ _ Ha)) as Hfr.
  split; simpl; [done|rewrite (kf_nest _ _ Hfr); apply Hi| | |].
  - eapply (gone_ok Hk Hok Hc Ht Hst None _ th k); [done| |reflexivity|apply Ha| | | |done|done|].
    + intros u uh _ Huh. by exists uh.
    + apply Ha; apply unlocked_other_ready; [done|done|naive_solver..].
    + intros q u Hnr _. by rewrite (as_queues _ _ _ _ _ Ha).
    + intros q _ _. apply Ha.
    + eexists. split; [apply Ha|done].
  - rewrite lookup_insert_ne by done. apply Hi.
  - intros n m. rewrite (kf_mutexes _ _ Hfr). intros Hm. eapply held_ok_pend; [|by apply (sv_held _ Hi)].
    intros u _. apply waits_for_insert_other. destruct (decide (u = t)) as [->|]; [right|by left].
    split; [done|by apply waits_for_none].
Qed.

(** *** Mutexes *)

Lemma owns_insert k' n m m' u n' :
  mutexes k !! n = Some m -> mutexes k' = <[n := m']> (mutexes k) -> (mx_owner m' = Some u <-> mx_owner m = Some u) ->
  owns k' n' u <-> owns k n' u.
Proof.
  intros Hm E Ho. unfold owns. rewrite E. destruct (decide (n' = n)) as [->|].
  - rewrite lookup_insert_eq, Hm. naive_solver.
  - by rewrite lookup_insert_ne.
Qed.

Lemma held_owner n m : pend !! t = None -> mutexes k !! n = Some m -> mx_owner m = Some t -> held (sy_held σ) n t = mx_hold m.
Proof.
  intros Hp Hm Ho. destruct (sv_held _ Hi n m Hm t) as [E _]. fold pend in E. rewrite bool_decide_eq_true_2 in E by done.
  by rewrite waits_for_none in E.
Qed.

Lemma held_not_owner n m : mutexes k !! n = Some m -> mx_owner m ≠ Some t -> held (sy_held σ) n t = 0.
Proof.
  intros Hm Ho. destruct (sv_held _ Hi n m Hm t) as [E _]. by rewrite bool_decide_eq_false_2 in E.
Qed.

(** The running thread [t] has changed the mutex [n] that it owns before or after, and counts [d] more. *)
Lemma mutex_self_inv n m m' d k' :
  pend !! t = None -> mutexes k !! n = Some m -> (forall u, u ≠ t -> mx_owner m ≠ Some u) -> 
  kinv k' -> mutex_ok n k' -> rt_interrupt_nest k' = 0 -> system_ok pend k' ->
  mutexes k' = <[n := m']> (mutexes k) ->
  (mx_owner m' = Some t /\ mx_hold m' = held (sy_held σ) n t + d \/
   held (sy_held σ) n t + d = 0 /\ mx_owner m' ≠ Some t /\
     forall u, mx_owner m' = Some u -> waits_for pend n u = true /\ mx_hold m' = 1) ->
  system_inv (mkSystem k' pend (hold_more n t d (sy_held σ))).
Proof.
  intros Hp Hm Ho Hk' Hmok Hn Hok' Em Hm'. split; simpl; [done..|apply Hi|]. intros n' m2. rewrite Em.
  destruct (decide (n' = n)) as [->|Hne].
  - rewrite lookup_insert_eq. intros [= <-]. eapply held_ok_more; [by apply (sv_held _ Hi)|by apply waits_for_none|done|done].
  - rewrite lookup_insert_ne by done. intros Hm2. apply held_ok_other; [done|]. by apply (sv_held _ Hi).
Qed.

Lemma mutex_self_ok n m m' k' th' :
  pend !! t = None -> mutexes k !! n = Some m -> (forall u, u ≠ t -> mx_owner m ≠ Some u) -> 
  (forall u, u ≠ t -> mx_owner m' ≠ Some u) -> mutex_ok n k' -> 
  mutexes k' = <[n := m']> (mutexes k) -> threads k' = <[t := th']> (threads k) -> th_stat th' = RT_THREAD_RUNNING ->
  mutex_frame_ok k k' -> system_ok pend k'.
Proof.
  intros Hp Hm Ho Ho' Hmok Em Eth Hst' [Hfr Hq Hcur].
  eapply (self_ok Hk Hok Hc Ht Hst pend _ th'); [apply Hfr|congruence|exact (kf_objects _ _ Hfr)|done|done|done| | | | |done].
  - intros n' _. right. by rewrite (kf_sems _ _ Hfr).
  - intros n' _. destruct (decide (n' = n)) as [->|]; [by left|right]. rewrite Em. by rewrite lookup_insert_ne.
  - intros n' u Hu _. eapply (owns_insert _ n m m'); [done|done|]. split; intros E; exfalso; naive_solver.
  - intros p. fold pend. by rewrite Hp.
Qed.

Lemma wp_call_mutex_take n time :
  pend !! t = None -> call_ok (CallMutexTake n time) t σ ->
  wp (run_call (CallMutexTake n time)) (fun r k' => system_inv (call_done (CallMutexTake n time) t σ r k')) k.
Proof.
  intros Hp (Hn & Hti & Hidle & Hh). unfold run_call. rewrite wp_bind. eapply wp_mono.
  { apply (wp_mutex_take n time t th k); [done|by apply Hok|done|done|done|apply Hi|done|].
    intros m Hm Ho. by rewrite (held_owner n m Hp Hm Ho) in Hh. }
  intros r k' (Hk' & Hmok & Hres). rewrite wp_ret.
  destruct Hres as [m k' Hm Ho Ek|m k' Hm Ho Ek|m o k' Hm Ho Hne Ht0 Ek|m o oth k1 k' Hm Ho Hne Ht0 Hoth Eth [Hf1 Hq1 Hc1] Hb Em _];
    cbn [outcome_map call_done call_returns].
  - change (RT_EOK =? RT_EOK) with true. cbn iota.
    eapply (mutex_self_inv n m _ 1); try done.
    + intros u Hu. congruence.
    + subst k'. apply Hi.
    + subst k'. apply (mutex_self_ok n m (set_mx_hold (mx_hold m + 1) m) _ (set_th_error RT_EOK th));
        [done|done|intros; congruence|simpl; intros; congruence|done|reflexivity|reflexivity|done|].
      split; [by split|done|done].
    + by subst k'.
    + left. split; [done|]. simpl. by rewrite (held_owner n m).
  - change (RT_EOK =? RT_EOK) with true. cbn iota.
    eapply (mutex_self_inv n m _ 1); try done.
    + intros u Hu. congruence.
    + subst k'. apply Hi.
    + subst k'. apply (mutex_self_ok n m (mkMutex 0 (th_current_priority th) 1 (Some t)) _ (set_th_error RT_EOK th));
        [done|done|intros; congruence|simpl; intros; congruence|done|reflexivity|reflexivity|done|].
      split; [by split|done|done].
    + by subst k'.
    + left. split; [done|]. simpl. rewrite (held_not_owner n m) by congruence. done.
  - change (- RT_ETIMEOUT =? RT_EOK) with false. cbn iota. subst k'.
    split; simpl; [done|apply Hi| |apply Hi|apply Hi].
    eapply (self_ok Hk Hok Hc Ht Hst pend _ (set_th_error (- RT_ETIMEOUT) th)); try done; [by right|by right|].
    intros p. fold pend. by rewrite Hp.
  - assert (t ≠ idle) as Hni by (intros E; by apply Ht0, Hidle).
    pose proof (gw_frame _ _ _ _ (bo_gone _ _ _ _ _ _ _ Hb)) as Hf2.
    assert (mutexes k1 = mutexes k) as Em1 by (rewrite <- Em; symmetry; apply Hf2).
    assert (kframe k k1) as Hfk.
    { destruct Hf1 as [F1 F2 F3 F4 F5 _ F6 F7 F8]. split; try done. }
    assert (kframe k k') as Hfr by (by etrans).
    assert (forall u uh, u ≠ t -> threads k !! u = Some uh -> exists uh', threads k1 !! u = Some uh' /\
      th_stat uh' = th_stat uh /\ th_error uh' = th_error uh) as H1.
    { intros u uh Hu Huh. rewrite Eth, lookup_insert_ne by done. case_match; [|by exists uh].
      destruct (decide (u = o)) as [->|]; [|exists uh; by rewrite lookup_insert_ne].
      rewrite lookup_insert_eq. simplify_eq. by eexists. }
    assert (forall q, wait_q q -> q ≠ mutex_q n -> t ∉ qget k' q) as Hno.
    { intros q Hq Hd. rewrite (bo_queues _ _ _ _ _ _ _ Hb) by (done || by apply wait_q_not_ready).
      rewrite Hq1 by (by apply wait_q_not_ready). by apply (running_nowhere Hk Ht Hst). }
    split; simpl; [done|rewrite (kf_nest _ _ Hfr); apply Hi| | |].
    + eapply (gone_ok Hk Hok Hc Ht Hst (Some (mutex_q n)) _ (set_th_error RT_EOK th) k1);
        [done|done|done|apply Hb| | | |done| |].
      * apply Hb; apply unlocked_other_ready; [done|apply Hfk|naive_solver|done|apply Hfk|naive_solver].
      * intros q u Hnr Hu. rewrite (qu_queues _ _ _ (blocked_quiet u _ _ _ _ _ _ _ Hu Hb) q Hnr). by rewrite Hq1.
      * intros q Hq Hd. apply Hno; [done|congruence].
      * intros n' [= ->]. split; [done|]. by eexists.
      * eexists. split; [apply Hb|]. split; [done|]. left. simpl. split_and!; [done|done|].
        rewrite (joined_perm _ _ _ _ _ _ (bo_joined _ _ _ _ _ _ _ Hb)). by left.
    + rewrite lookup_insert_ne by done. apply Hi.
    + intros n' m'. rewrite Em. intros Hm'. eapply held_ok_pend; [|by apply (sv_held _ Hi)].
      intros u Hu. apply waits_for_insert_other. destruct (decide (u = t)) as [->|]; [right|by left].
      split; [|by apply waits_for_none]. intros f [= <-]. simpl. intros ->. fold k in Hm'. congruence.
Qed.

(** The handing over of a mutex to its first waiter. *)
Lemma handover_ok n m w l wth k1 k' :
  pend !! t = None -> mutexes k !! n = Some m -> mx_owner m = Some t -> qget k (mutex_q n) = w :: l ->
  threads k !! w = Some wth -> w ≠ t -> mutex_ok n k' ->
  mutexes k1 = <[n := mkMutex 0 (th_current_priority wth) 1 (Some w)]> (mutexes k) ->
  threads k1 = <[t := restored m th]> (threads k) -> mutex_frame_ok k k1 -> woken w wth k1 k' ->
  (rt_scheduler_lock_nest k = 0 -> highest_running k') -> waits_for pend n w = true /\ system_ok pend k'.
Proof.
  intros Hp Hm Ho Eq Hw Hne Hmok Em1 Eth1 [Hf1 Hq1 Hc1] Hwk Hh.
  pose proof (wk_frame _ _ _ _ Hwk) as Hf2. assert (w ∈ qget k (mutex_q n)) as Hin by (rewrite Eq; by left).
  assert (mutexes k' = <[n := mkMutex 0 (th_current_priority wth) 1 (Some w)]> (mutexes k)) as Em
    by (by rewrite (kf_mutexes _ _ Hf2)).
  destruct (sy_waiters _ _ Hok n w Hin) as (f & Hf & Ef). fold pend in Hf.
  split; [unfold waits_for; rewrite Hf; by apply bool_decide_eq_true_2|].
  eapply (woken_ok pend k w wth k1 k'); [exact Hok| | | |exact Hwk|apply Hh; apply Hok| | | |].
  - intros u _. split; [|intros q Hnr; by rewrite Hq1]. intros uh Huh. rewrite Eth1.
    destruct (decide (u = t)) as [->|]; [|exists uh; rewrite lookup_insert_ne by done; by auto].
    rewrite lookup_insert_eq. simplify_eq. eexists. split; [done|]. rewrite restored_stat.
    split; [unfold restored; by case_match|by left].
  - rewrite (kf_lock _ _ Hf2). apply Hf1.
  - intros n'. split; rewrite (kf_objects _ _ Hf2) by done; by apply Hf1.
  - intros n' _. right. rewrite (kf_sems _ _ Hf2). by rewrite (kf_sems _ _ Hf1).
  - intros n' _. destruct (decide (n' = n)) as [->|]; [by left|right]. by rewrite Em, lookup_insert_ne.
  - intros n' u Hu [p Hpu]. assert (u ≠ t) by (intros ->; fold pend in Hp; congruence).
    eapply (owns_insert _ n m); [done|done|]. simpl. split; intros E; exfalso; congruence.
  - intros p Hpw. fold pend in Hpw. rewrite Hf in Hpw. injection Hpw as <-.
    destruct (sy_pends _ _ Hok w _ Hf) as (wth' & Hw' & Hft & Hwm).
    destruct (waiting_thread 0 None k (mutex_q n) w Hk ltac:(auto with ipc) Hin) as (wth2 & Hw2 & Hws).
    change (threads (sy_kernel σ)) with (threads k) in Hw'.
    assert (wth' = wth) as -> by congruence. assert (wth2 = wth) as -> by congruence.
    unfold waits_mutex, awake in Hwm. destruct Hwm as [(He & _ & _)|[(_ & ? & _)|(_ & ? & _)]]; [|lia|lia].
    destruct (wk_self _ _ _ _ Hwk) as (st & Est & Hsts). eexists. split; [exact Est|]. split; [done|].
    right; left. split_and!; [done|done|]. unfold owns. rewrite Em, Ef, lookup_insert_eq. by eexists.
Qed.

Lemma wp_call_mutex_release n :
  pend !! t = None -> call_ok (CallMutexRelease n) t σ ->
  wp (run_call (CallMutexRelease n)) (fun r k' => system_inv (call_done (CallMutexRelease n) t σ r k')) k.
Proof.
  intros Hp Hn. unfold run_call. rewrite wp_bind. eapply wp_mono.
  { apply (wp_mutex_release n t th k); [done|by apply Hok|done|done|done|apply Hi]. }
  intros r k' (Hk' & Hmok & Hres). rewrite wp_ret. cbn [call_done call_returns].
  destruct Hres as [m Hm Ho|m Hm Ho Hh|m k' Hm Ho Hh Eq Em Eth Hfr|m w l wth k1 k' Hm Ho Hh Eq Hw Hne Em1 Eth1 Hfr1 Hwk Eq' Hhr].
  - change (- RT_ERROR =? RT_EOK) with false. cbn iota.
    split; simpl; [done|apply Hi| |apply Hi|apply Hi].
    eapply (self_ok Hk Hok Hc Ht Hst pend _ (set_th_error (- RT_ERROR) th)); try done; [by right|by right|].
    intros p. fold pend. by rewrite Hp.
  - change (RT_EOK =? RT_EOK) with true. cbn iota.
    eapply (mutex_self_inv n m (set_mx_hold (mx_hold m - 1) m) (-1)); try done.
    + intros u Hu. congruence.
    + apply Hi.
    + apply (mutex_self_ok n m (set_mx_hold (mx_hold m - 1) m) _ th);
        [done|done|intros; congruence|simpl; intros; congruence|done|reflexivity|simpl; by rewrite insert_id|done|].
      split; [by split|done|done].
    + left. split; [done|]. simpl. rewrite (held_owner n m) by done. lia.
  - change (RT_EOK =? RT_EOK) with true. cbn iota.
    eapply (mutex_self_inv n m (mkMutex 1 255 0 None) (-1)); try done.
    + intros u Hu. congruence.
    + rewrite (kf_nest _ _ (mfo_frame _ _ Hfr)). apply Hi.
    + apply (mutex_self_ok n m (mkMutex 1 255 0 None) _ (restored m th));
        [done|done|intros; congruence|done|done|done|done|by rewrite restored_stat|done].
    + right. rewrite (held_owner n m) by done. split; [lia|done].
  - change (RT_EOK =? RT_EOK) with true. cbn iota.
    destruct (handover_ok n m w l wth k1 k') as [Hwt Hok']; [done..|].
    eapply (mutex_self_inv n m (mkMutex 0 (th_current_priority wth) 1 (Some w)) (-1)); try done.
    + intros u Hu. congruence.
    + rewrite (kf_nest _ _ (wk_frame _ _ _ _ Hwk)), (kf_nest _ _ (mfo_frame _ _ Hfr1)). apply Hi.
    + by rewrite (kf_mutexes _ _ (wk_frame _ _ _ _ Hwk)).
    + right. rewrite (held_owner n m) by done. simpl. split; [lia|]. split; [congruence|]. by intros u [= <-].
Qed.

Lemma wp_call c :
  pend !! t = None -> call_ok c t σ -> wp (run_call c) (fun r k' => system_inv (call_done c t σ r k')) k.
Proof.
  intros Hp Hcall. destruct c; [by apply wp_call_sem_take|by apply wp_call_sem_release|by apply wp_call_mutex_take|
    by apply wp_call_mutex_release|by apply wp_call_sleep|apply wp_call_yield].
Qed.

(** *** The rest of a call that has waited *)

Lemma resumed_ok th' k' :
  rt_scheduler_lock_nest k' = rt_scheduler_lock_nest k -> rt_current_thread k' = rt_current_thread k -> 
  objects k' = objects k -> queues k' = queues k -> sems k' = sems k -> mutexes k' = mutexes k ->
  threads k' = <[t := th']> (threads k) -> th_stat th' = RT_THREAD_RUNNING -> system_ok (delete t pend) k'.
Proof.
  intros El Ec Eo Eq Es Em Eth Hst'.
  eapply (self_ok Hk Hok Hc Ht Hst _ _ th'); [done|congruence|intros; by rewrite Eo|done|done|intros; by rewrite Eq| | | | |].
  - intros n _. right. by rewrite Es.
  - intros n _. right. by rewrite Em.
  - intros n u _ _. unfold owns. by rewrite Em.
  - intros p. by rewrite lookup_delete_eq.
  - intros u Hu. by rewrite lookup_delete_ne.
Qed.

Lemma waits_for_delete n u : u ≠ t \/ waits_for pend n u = false -> waits_for (delete t pend) n u = waits_for pend n u.
Proof.
  intros Hu. unfold waits_for at 1. destruct (decide (u = t)) as [->|].
  - rewrite lookup_delete_eq. destruct Hu as [?|E]; [done|by rewrite E].
  - by rewrite lookup_delete_ne.
Qed.

Lemma resumed_inv th' k' h :
  kinv k' -> rt_scheduler_lock_nest k' = rt_scheduler_lock_nest k -> rt_current_thread k' = rt_current_thread k ->
  objects k' = objects k -> queues k' = queues k -> sems k' = sems k -> mutexes k' = mutexes k ->
  threads k' = <[t := th']> (threads k) -> th_stat th' = RT_THREAD_RUNNING ->
  rt_interrupt_nest k' = rt_interrupt_nest k ->
  (forall n m, mutexes k !! n = Some m -> held_ok (delete t pend) h n m) ->
  system_inv (mkSystem k' (delete t pend) h).
Proof.
  intros Hk' El Ec Eo Eq Es Em Eth Hst' En Hh.
  split; simpl; [done|rewrite En; apply Hi|by eapply resumed_ok| |rewrite Em; exact Hh].
  destruct (decide (t = idle)) as [->|]; [apply lookup_delete_eq|]. rewrite lookup_delete_ne by done. apply Hi.
Qed.

(** A return that tells the thread nothing. *)
Lemma held_ok_returned n m :
  mutexes k !! n = Some m -> (waits_for pend n t = true -> mx_owner m ≠ Some t) ->
  held_ok (delete t pend) (sy_held σ) n m.
Proof.
  intros Hm Hw. eapply held_ok_pend; [|by apply (sv_held _ Hi)]. intros u Hu. apply waits_for_delete.
  destruct (decide (u = t)) as [->|]; [right|by left]. destruct (waits_for pend n t); [by destruct Hw|done].
Qed.

Lemma wp_pending_mutex f :
  pend !! t = Some (PendMutex f) ->
  wp (run_pending (PendMutex f)) (fun r k' => system_inv (pending_done (PendMutex f) t σ r k')) k.
Proof.
  intros Hp. destruct (sy_pends _ _ Hok t _ Hp) as (th' & Ht' & Hft & Hw).
  change (threads (sy_kernel σ)) with (threads k) in Ht'. rewrite Ht in Ht'. injection Ht' as <-.
  assert (forall n, waits_for pend n t = bool_decide (mf_mutex f = n)) as Hwf by (intros n; unfold waits_for; by rewrite Hp).
  unfold run_pending, rt_mutex_take_resume. rewrite Hft, wp_bind, wp_bind, wp_get_thread. exists th. split; [done|].
  unfold waits_mutex, awake in Hw. destruct Hw as [(_ & ? & _)|[(He & _ & Hown)|(He & _ & Hown)]]; [lia| |]; rewrite He.
  - simpl. rewrite !wp_ret. simpl. change (RT_EOK =? RT_EOK) with true. cbn iota.
    apply (resumed_inv th); try done; [by rewrite insert_id|]. intros n m Hm.
    destruct (decide (n = mf_mutex f)) as [->|Hne].
    + destruct Hown as (m' & Hm' & Ho). change (mutexes (sy_kernel σ)) with (mutexes k) in Hm'.
      assert (m' = m) as -> by congruence. eapply held_ok_more; [by apply (sv_held _ Hi)|by apply waits_for_none, lookup_delete_eq|congruence|].
      left. split; [done|]. destruct (sv_held _ Hi _ m Hm t) as [Eh E1]. fold pend in Eh, E1.
      rewrite Hwf, bool_decide_eq_true_2 in Eh, E1 by done. rewrite bool_decide_eq_true_2 in Eh by done.
      rewrite Eh, E1 by done. done.
    + apply held_ok_other; [done|]. apply held_ok_returned; [done|]. rewrite Hwf, bool_decide_eq_true. congruence.
  - simpl. rewrite !wp_ret. simpl. change (- RT_ETIMEOUT =? RT_EOK) with false. cbn iota.
    apply (resumed_inv th); try done; [by rewrite insert_id|]. intros n m Hm. apply held_ok_returned; [done|].
    rewrite Hwf, bool_decide_eq_true. intros <- Ho. apply Hown. by exists m.
Qed.

Lemma wp_pending p :
  pend !! t = Some p -> wp (run_pending p) (fun r k' => system_inv (pending_done p t σ r k')) k.
Proof.
  intros Hp. destruct p as [n u|f|u]; [|by apply wp_pending_mutex|];
    (assert (forall n m, mutexes k !! n = Some m -> held_ok (delete t pend) (sy_held σ) n m) as Hh
      by (intros n' m Hm; apply held_ok_returned; [done|unfold waits_for; by rewrite Hp]));
    destruct (sy_pends _ _ Hok t _ Hp) as (th' & Ht' & ->);
    change (threads (sy_kernel σ)) with (threads k) in Ht'; rewrite Ht in Ht'; injection Ht' as <-;
    unfold run_pending, rt_sem_take_resume, rt_thread_sleep_resume; rewrite wp_bind, wp_bind, wp_get_thread;
    exists th; (split; [done|]).
  - destruct (th_error th =? RT_EOK); cbn [negb]; rewrite !wp_ret; simpl;
      (apply (resumed_inv th); try done; by rewrite insert_id).
  - rewrite wp_bind, wp_when. destruct (th_error th =? - RT_ETIMEOUT); [left|right]; (split; [done|]).
    + rewrite wp_upd_thread. exists th. split; [done|]. rewrite !wp_ret. simpl.
      apply (resumed_inv (set_th_error RT_EOK th)); try done. by apply (kinv_update_same 0 None k t th).
    + rewrite !wp_ret. simpl. apply (resumed_inv th); try done. by rewrite insert_id.
Qed.
End calls.

(** ** Interrupts *)

Lemma system_ok_tick_frame pend k k' : system_ok pend k -> tick_frame k k' -> system_ok pend k'.
Proof.
  intros Hok []. assert (forall u, quiet u k k') as Hqu.
  { intros u. split; [|intros q _; by rewrite kt_queues]. intros th Ht.
    destruct (kt_threads u) as [E|(th0 & v & E & E')].
    - exists th. rewrite E. auto.
    - simplify_eq. eexists. split; [exact E'|]. simpl. auto. }
  eapply (system_ok_step (k := k) (A := [])); [exact Hok|intros n; by rewrite kt_objects|by intros| | | | | | | | | |].
  - by intros u ?%elem_of_nil.
  - rewrite kt_lock. apply Hok.
  - destruct (sy_running _ _ Hok) as (c & th & Hc & Ht & Hst). rewrite kt_current.
    destruct (kt_threads c) as [E|(th0 & v & E & E')]; [exists c, th; by rewrite E|].
    simplify_eq. exists c. eexists. by split_and!.
  - by intros ?%elem_of_nil.
  - intros n _. right. rewrite kt_sems. split; [done|]. by intros u ?%elem_of_nil.
  - intros n _. right. rewrite kt_mutexes. split; [done|]. by intros u ?%elem_of_nil.
  - intros n u _ _. unfold owns. by rewrite kt_mutexes.
  - done.
  - by intros u p ?%elem_of_nil.
  - by intros n u ?%elem_of_nil.
Qed.

Lemma woken_timed_out t th k :
  let th1 := set_th_error (- RT_ETIMEOUT) th in
  woken t th1 (set_threads (<[t := th1]> (threads k)) k) (timed_out t th k).
Proof.
  intros th1. unfold timed_out, inserted. case_bool_decide; (split; [| | |by split]); simpl.
  - eexists. rewrite lookup_insert_eq. split; [done|by right].
  - intros u Hu. by rewrite !lookup_insert_ne.
  - intros q Hq. by rewrite qlist_remove.
  - eexists. rewrite lookup_insert_eq. split; [done|by left].
  - intros u Hu. by rewrite !lookup_insert_ne.
  - intros q Hq. rewrite qlist_push_back, decide_False by (intros <-; by eapply Hq). by rewrite qlist_remove.
Qed.

(** The wait of the thread [t] is over. *)
Lemma system_ok_timeout pend k k' t th :
  system_ok pend k -> threads k !! t = Some th -> th_stat th = RT_THREAD_SUSPEND ->
  resched (timed_out t th k) k' -> highest_running k' -> system_ok pend k'.
Proof.
  intros Hok Ht Hst Hr Hh. pose proof (woken_resched _ _ _ _ _ (woken_timed_out t th k) Hr) as Hwk.
  set (th1 := set_th_error (- RT_ETIMEOUT) th) in *. set (k1 := set_threads _ k) in *.
  pose proof (wk_frame _ _ _ _ Hwk) as Hfr.
  eapply (woken_ok pend k t th1 k1 k'); [exact Hok| |apply Hfr|intros n; split; by apply Hfr|exact Hwk|exact Hh| | | |].
  - intros u Hu. apply quiet_eq; [by apply lookup_insert_ne|done].
  - intros n _. right. by rewrite (kf_sems _ _ Hfr).
  - intros n _. right. by rewrite (kf_mutexes _ _ Hfr).
  - intros n u _ _. unfold owns. by rewrite (kf_mutexes _ _ Hfr).
  - intros p Hp. destruct (wk_self _ _ _ _ Hwk) as (st & Est & Hsts). eexists. split; [exact Est|].
    destruct (sy_pends _ _ Hok t p Hp) as (th0 & Ht0 & Hpk). simplify_eq.
    destruct p as [|f|]; [done| |done]. destruct Hpk as [Hft Hw]. split; [done|]. right; right.
    split_and!; [done|done|]. unfold owns. rewrite (kf_mutexes _ _ Hfr). intros (m & Hm & Ho). simpl in Hm.
    unfold waits_mutex, awake in Hw. destruct Hw as [(_ & _ & Hin)|[(_ & ? & _)|(_ & ? & _)]]; [|lia|lia].
    destruct (sy_mutexes _ _ Hok (mf_mutex f) ltac:(by exists m)) as [_ (m' & Hm' & Hmok)].
    unfold mutex_state_ok in Hmok. assert (m' = m) as -> by congruence. rewrite Ho in Hmok. naive_solver.
Qed.

(** The lists of the timers and their records are of no interest. *)
Lemma system_ok_same pend k k' :
  threads k' = threads k -> queues k' = queues k -> rt_current_thread k' = rt_current_thread k ->
  rt_scheduler_lock_nest k' = rt_scheduler_lock_nest k -> sems k' = sems k -> mutexes k' = mutexes k ->
  (forall n, objects k' !! OSem n = objects k !! OSem n /\ objects k' !! OMutex n = objects k !! OMutex n) ->
  system_ok pend k -> system_ok pend k'.
Proof.
  intros Et Eq Ec El Es Em Eo Hok.
  eapply (system_ok_step (k := k) (A := [])); [exact Hok|done|intros u _; by apply quiet_eq; [rewrite Et|rewrite Eq]| | | | | | | | | |].
  - by intros u ?%elem_of_nil.
  - rewrite El. apply Hok.
  - rewrite Ec, Et. apply Hok.
  - by intros ?%elem_of_nil.
  - intros n _. right. rewrite Es. split; [done|]. by intros u ?%elem_of_nil.
  - intros n _. right. rewrite Em. split; [done|]. by intros u ?%elem_of_nil.
  - intros n u _ _. unfold owns. by rewrite Em.
  - done.
  - by intros u p ?%elem_of_nil.
  - by intros n u ?%elem_of_nil.
Qed.

(** What the clock interrupt keeps of the system. *)
Definition system_during (pend : gmap nat pending) (ms : gmap nat rt_mutex) (_ : option obj_id) (k : kernel) : Prop :=
  system_ok pend k /\ rt_interrupt_nest k = 1 /\ mutexes k = ms.

#[export] Instance system_tick_inv pend ms : TickInv (system_during pend ms).
Proof.
  split.
  - intros s s' Hf (Hok & Hn & Hm). split_and!; [by eapply system_ok_tick_frame| |];
      destruct Hf; congruence.
  - intros s s' _ Hr Hh (Hok & Hn & Hm). pose proof (resched_kframe _ _ Hr) as Hfr.
    split_and!; [|by rewrite (kf_nest _ _ Hfr)|by rewrite (kf_mutexes _ _ Hfr)].
    eapply resched_ok; [exact Hok|exact Hr|]. intros Hl. apply Hh; [done|].
    destruct (sy_running _ _ Hok) as (c & th & _ & Ht & Hst). exists c, th. split; [done|by right].
  - intros s o l _ (Hok & Hn & Hm). split_and!; [by eapply (system_ok_same pend s)|done|done].
  - intros X t th s s' _ Ht Hst _ Hr _ Hh (Hok & Hn & Hm).
    pose proof (wk_frame _ _ _ _ (woken_resched _ _ _ _ _ (woken_timed_out t th s) Hr)) as Hfr.
    split_and!; [|by rewrite (kf_nest _ _ Hfr)|by rewrite (kf_mutexes _ _ Hfr)].
    eapply system_ok_timeout; [done..|]. apply Hh, Hok.
  - intros o x tm s s1 Ho Hf (Hok & Hn & Hm).
    assert (forall p, (forall t, p ≠ OThreadTimer t) -> (forall n, p ≠ OTimer n) -> o ≠ p) as Hne by naive_solver.
    destruct Hf; (split_and!; [|done|done]); (eapply (system_ok_same pend s); [done..| |done]);
      intros n; simpl; rewrite !lookup_insert_ne by (by apply Hne); done.
Qed.

Lemma kinv_nest v k : kinv k -> kinv (set_rt_interrupt_nest v k).
Proof. by apply kinv_same. Qed.

Lemma system_ok_nest pend v k : system_ok pend k -> system_ok pend (set_rt_interrupt_nest v k).
Proof.
  intros [H1 H2 H3 H4 H5 H6 H7]. split; try done.
  - intros n Hn. destruct (H4 n Hn). by split.
  - intros n Hn. destruct (H5 n Hn). by split.
Qed.

(** An interrupt whose handler keeps what the system needs, and achieves [R]. *)
Lemma wp_in_interrupt {A} (m : M A) σ (R : kernel -> Prop) :
  system_inv σ ->
  (let k := set_rt_interrupt_nest 1 (sy_kernel σ) in
   kinv k -> system_during (sy_pending σ) (mutexes (sy_kernel σ)) None k ->
   wp m (fun _ k' => kinv k' /\ system_during (sy_pending σ) (mutexes (sy_kernel σ)) None k' /\ R k') k) ->
  wp (in_interrupt m) (fun _ k' => system_inv (mkSystem k' (sy_pending σ) (sy_held σ)) /\
    exists k1, k' = set_rt_interrupt_nest 0 k1 /\ R k1) (sy_kernel σ).
Proof.
  intros Hi Hm. unfold in_interrupt, rt_interrupt_enter, rt_interrupt_leave. rewrite wp_bind, wp_modify.
  rewrite (sv_nest _ Hi). change (u8 (0 + 1)) with 1. rewrite wp_bind. eapply wp_mono.
  { apply Hm; [by apply kinv_nest, Hi|]. split_and!; [by apply system_ok_nest, Hi|done|done]. }
  intros a k' (Hk' & (Hok' & Hn' & Em) & HR). rewrite wp_modify, Hn'. change (u8 (1 - 1)) with 0.
  split; [|by exists k']. split; simpl; [by apply kinv_nest|done|by apply system_ok_nest|apply Hi|rewrite Em; apply Hi].
Qed.
End system.

(** ** The end of a bounded wait *)

(** The thread [t] is awake, or waits with the record [tm] of its timer on the list (or just taken off it to
    fire). *)
Definition waits_until (t : nat) (otm : option rt_timer) (X : option obj_id) (k : kernel) : Prop :=
  exists th, threads k !! t = Some th /\
    (awake th \/ th_stat th = RT_THREAD_SUSPEND /\ is_Some otm /\ timers k !! OThreadTimer t = otm /\
       (X = Some (OThreadTimer t) \/ OThreadTimer t ∈ rt_timer_list k)).

Lemma waits_until_shuffled t otm X X' k k' :
  shuffled (threads k !! t) (threads k' !! t) ->
  timers k' !! OThreadTimer t = timers k !! OThreadTimer t ->
  (X = Some (OThreadTimer t) \/ OThreadTimer t ∈ rt_timer_list k ->
   X' = Some (OThreadTimer t) \/ OThreadTimer t ∈ rt_timer_list k') ->
  waits_until t otm X k -> waits_until t otm X' k'.
Proof.
  intros Hs Ht Hin (th & Hth & Hw). rewrite Hth in Hs. destruct Hw as [Ha|(Hst & Hsome & Htm & Hl)].
  - destruct Hs as [E|(th0 & st & _ & E & _ & Hn)]; eexists; (split; [exact E|]); left; [done|exact Hn].
  - exists th. split; [by apply shuffled_wait|]. right. rewrite Ht. auto.
Qed.

#[export] Instance waits_until_tick_inv t otm : TickInv (waits_until t otm).
Proof.
  split.
  - intros s s' [] (th & Hth & Hw). unfold waits_until. rewrite kt_timers, kt_timer_list.
    destruct (kt_threads t) as [E|(th0 & v & E & E')]; [exists th; by rewrite E|].
    simplify_eq. eexists. split; [exact E'|exact Hw].
  - intros s s' _ Hr _. pose proof (rs_frame _ _ Hr) as Hf.
    apply waits_until_shuffled; [apply Hr|by rewrite (sf_timers _ _ Hf)|by rewrite (sf_timer_list _ _ Hf)].
  - intros s o l El. apply waits_until_shuffled; [by left|done|]. simpl. rewrite El. set_solver.
  - intros X u uh s s' _ Hu Hus _ Hr [Ets Els _ _] _ Hw.
    pose proof (woken_resched _ _ _ _ _ (woken_timed_out u uh s) Hr) as Hwk.
    destruct (decide (t = u)) as [->|Hne].
    + destruct (wk_self _ _ _ _ Hwk) as (st & Est & Hsts). eexists. split; [exact Est|by left].
    + pose proof (wk_others _ _ _ _ Hwk t Hne) as Hsh. simpl in Hsh. rewrite lookup_insert_ne in Hsh by done.
      eapply waits_until_shuffled; [exact Hsh|by rewrite Ets| |exact Hw]. rewrite Els. naive_solver.
  - intros o x tm' s s1 Ho Hf.
    assert (periodic x = true -> o ≠ OThreadTimer t) as Hne by (intros Hp; destruct Ho as [[_ ?]|[n ->]]; [congruence|done]).
    apply waits_until_shuffled; [left; by destruct Hf| |]; destruct Hf as [Hp|l1 l2 Hp El]; simpl; try done.
    + by rewrite lookup_insert_ne by auto.
    + rewrite El. set_solver.
Qed.

(** ** Runs *)

Section runs.
Context (idle : nat) `{UserTimeouts} {user_ok : forall pend ms, UserTimeoutsOk (system_during idle pend ms)}.

Lemma tick_step (J : option obj_id -> kernel -> Prop) `{TickInv J} σ c :
  (forall pend ms, UserTimeoutsOk (fun X k => system_during idle pend ms X k /\ J X k)) ->
  system_inv idle σ -> rt_current_thread (sy_kernel σ) = Some c ->
  (let k := set_rt_interrupt_nest 1 (sy_kernel σ) in J None k) ->
  exists k1, let σ' := mkSystem (set_rt_interrupt_nest 0 k1) (sy_pending σ) (sy_held σ) in
    step EvTick σ = Some σ' /\ system_inv idle σ' /\ J None k1 /\
    rt_tick k1 = u32 (rt_tick (sy_kernel σ) + 1) /\
    forall o, o ∈ rt_timer_list k1 -> 0 < tdelta_at (timers k1) (rt_tick k1) o.
Proof.
  intros Hu Hi Hc HJ. unfold step.
  destruct (proj1 (wp_run _ _ _) (wp_in_interrupt idle (rt_tick_increase (S (length (due (ticked (sy_kernel σ)))))) σ
    (fun k1 => J None k1 /\ rt_tick k1 = u32 (rt_tick (sy_kernel σ) + 1) /\
      forall o, o ∈ rt_timer_list k1 -> 0 < tdelta_at (timers k1) (rt_tick k1) o) Hi
    ltac:(intros k Hk Hd; eapply wp_mono;
      [apply (wp_tick_increase (fun X k => system_during idle (sy_pending σ) (mutexes (sy_kernel σ)) X k /\ J X k) c k); done|];
      intros [] k' (? & [? ?] & _ & ? & ?); done)))
    as ([] & k' & Er & Hi' & k1 & -> & HJ1 & Ht1 & Hdue).
  rewrite Er. by exists k1.
Qed.

(** Every event that can happen has its step, and the invariant is kept. *)
Lemma step_inv σ e : system_inv idle σ -> enabled idle e σ -> exists σ', step e σ = Some σ' /\ system_inv idle σ'.
Proof.
  intros Hi He. destruct (sy_running _ _ _ (sv_ok _ _ Hi)) as (c & th & Hc & Ht & Hst).
  destruct e as [call| | |n]; simpl in He.
  - destruct He as (t & Hc' & Hp & Hcall). assert (t = c) as -> by congruence. unfold step. rewrite Hc.
    cbn [mbind option_bind]. rewrite Hp.
    destruct (proj1 (wp_run _ _ _) (wp_call idle Hi Hc Ht Hst call Hp Hcall)) as (r & k' & Er & Hr).
    rewrite Er. by eexists.
  - destruct He as (t & Hc' & [p Hp]). assert (t = c) as -> by congruence. unfold step. rewrite Hc.
    cbn [mbind option_bind]. rewrite Hp. cbn [mbind option_bind].
    destruct (proj1 (wp_run _ _ _) (wp_pending idle Hi Hc Ht Hst p Hp)) as (r & k' & Er & Hr).
    rewrite Er. by eexists.
  - unfold step.
    destruct (proj1 (wp_run _ _ _) (wp_in_interrupt idle (rt_tick_increase (S (length (due (ticked (sy_kernel σ)))))) σ
      (fun _ => True) Hi
      ltac:(intros k Hk Hd; eapply wp_mono;
        [apply (wp_tick_increase (system_during idle (sy_pending σ) (mutexes (sy_kernel σ))) c k); done|];
        intros [] k' (? & ? & _); done))) as ([] & k' & Er & Hr & _). rewrite Er. by eexists.
  - unfold step. 
    destruct (proj1 (wp_run _ _ _) (wp_in_interrupt idle (rt_sem_release n) σ (fun _ => True) Hi
      ltac:(intros k Hk (Hok & Hn & Hm); eapply wp_mono;
        [by apply (wp_sem_release_ok idle (sy_pending σ) k c n)|];
        intros r k' (? & Hok' & Em & En); split; [done|]; split; [|done];
        split; [exact Hok'|]; split; [by rewrite En|by rewrite Em]))) as ([] & k' & Er & Hr & _).
    rewrite Er. by eexists.
Qed.

(** The states that events in any order lead to. *)
Inductive reachable (σ0 : system) : system -> Prop :=
| reachable_start : reachable σ0 σ0
| reachable_step σ e σ' : reachable σ0 σ -> enabled idle e σ -> step e σ = Some σ' -> reachable σ0 σ'.

Lemma reachable_inv σ0 σ : system_inv idle σ0 -> reachable σ0 σ -> system_inv idle σ.
Proof.
  intros H0 Hr. induction Hr as [|σ e σ' Hr IH He Hs]; [done|].
  destruct (step_inv σ e IH He) as (σ2 & E & Hi). by rewrite Hs in E; injection E as <-.
Qed.

(** C1: Whatever the threads and the interrupts do, in any order, the kernel never gets stuck: in every
    reachable state, every call that a thread may make, every return from a wait and every interrupt runs to
    its end (no assertion fails, no list is corrupted, no loop runs on), the running thread has such a step, and
    the invariants of the kernel, the semaphores and the mutexes hold again behind it. *)
Theorem system_never_stuck σ0 σ :
  system_inv idle σ0 -> reachable σ0 σ ->
  system_inv idle σ /\ (enabled idle (EvCall CallYield) σ \/ enabled idle EvResume σ) /\
  forall e, enabled idle e σ -> exists σ', step e σ = Some σ' /\ system_inv idle σ'.
Proof.
  intros H0 Hr. pose proof (reachable_inv σ0 σ H0 Hr) as Hi. split; [done|]. split; [|intros e; by apply step_inv].
  destruct (sy_running _ _ _ (sv_ok _ _ Hi)) as (c & th & Hc & _).
  destruct (sy_pending σ !! c) as [p|] eqn:Hp; [right|left]; exists c; (split; [done|]); [by exists p|done].
Qed.

(** C2: Mutual exclusion: at most one thread holds a mutex by the results it has seen (takes that returned
    [RT_EOK], at once or after any wait, less releases), however calls, hand-overs, timeouts and
    interrupts interleave; the kernel records it as the owner, with the same depth of nesting. *)
Theorem mutual_exclusion σ0 σ n m t u :
  system_inv idle σ0 -> reachable σ0 σ -> mutexes (sy_kernel σ) !! n = Some m ->
  0 < held (sy_held σ) n t -> 0 < held (sy_held σ) n u ->
  t = u /\ mx_owner m = Some t /\ mx_hold m = held (sy_held σ) n t.
Proof.
  intros H0 Hr Hm Ht Hu. pose proof (sv_held _ _ (reachable_inv σ0 σ H0 Hr) n m Hm) as Hh.
  destruct (Hh t) as [Et _]. destruct (Hh u) as [Eu _].
  destruct (bool_decide_reflect (mx_owner m = Some t)), (bool_decide_reflect (mx_owner m = Some u)); simpl in *; try lia.
  split_and!; [congruence|done|]. destruct (negb _); lia.
Qed.

Fixpoint ticks (d : nat) (σ : system) : option system :=
  match d with O => Some σ | S d => σ' ← step EvTick σ; ticks d σ' end.

(** A thread that is awake stays awake. *)
Lemma ticks_awake d t otm σ :
  (forall pend ms otm, UserTimeoutsOk (fun X k => system_during idle pend ms X k /\ waits_until t otm X k)) ->
  system_inv idle σ -> waits_until t otm None (sy_kernel σ) ->
  (forall tm, otm = Some tm -> 0 < tdelta (rt_tick (sy_kernel σ)) tm <= Z.of_nat d /\
     tdelta (rt_tick (sy_kernel σ)) tm < TIMER_MAX) ->
  exists σ', ticks d σ = Some σ' /\ system_inv idle σ' /\ exists th, threads (sy_kernel σ') !! t = Some th /\ awake th.
Proof.
  intros Hu. revert σ otm. induction d as [|d IH]; intros σ otm Hi Hw Hd.
  { exists σ. split_and!; [done|done|]. destruct Hw as (th & Hth & [Ha|(_ & [tm Htm] & _)]); [by exists th|].
    specialize (Hd tm Htm). lia. }
  destruct (sy_running _ _ _ (sv_ok _ _ Hi)) as (c & cth & Hc & _).
  destruct (tick_step (waits_until t otm) σ c (fun p m => Hu p m otm) Hi Hc Hw) as (k1 & Es & Hi' & Hw' & Et & Hdue).
  cbn [ticks]. rewrite Es. cbn [mbind option_bind].
  destruct Hw' as (th & Hth & [Ha|(Hst & [tm ->] & Htm & [?|Hin])]); [| done|].
  - apply (IH _ None); [done|exists th; by auto|done].
  - apply (IH _ (Some tm)); [done| |].
    + exists th. split; [done|]. right. split_and!; [done|by eexists|done|by right].
    + intros tm' [= <-]. simpl. specialize (Hdue _ Hin). unfold tdelta_at in Hdue. rewrite Htm in Hdue.
      specialize (Hd tm eq_refl).
      assert (tdelta (rt_tick k1) tm = tdelta (rt_tick (sy_kernel σ)) tm - 1) as E
        by (rewrite Et; apply tdelta_tick; lia). lia.
Qed.

(** C3: A bounded wait ends: a thread whose timer is to expire in [d] ticks is awake after [d] clock interrupts,
    whatever it waits for and whatever other timers expire on the way. *)
Theorem wait_ends σ t th d :
  (forall pend ms otm, UserTimeoutsOk (fun X k => system_during idle pend ms X k /\ waits_until t otm X k)) ->
  system_inv idle σ -> threads (sy_kernel σ) !! t = Some th -> th_stat th = RT_THREAD_SUSPEND ->
  timer_armed t (Z.of_nat d) (sy_kernel σ) -> (0 < d)%nat ->
  exists σ', ticks d σ = Some σ' /\ system_inv idle σ' /\ exists th', threads (sy_kernel σ') !! t = Some th' /\ awake th'.
Proof.
  intros Hu Hi Ht Hst [Hin Hd] Hpos.
  destruct (tk_elem _ _ _ _ _ _ (ki_timer _ _ _ (sv_kernel _ _ Hi)) _ Hin) as (_ & tm & _ & Htm & _ & _ & _ & Hb).
  unfold tdelta_at in Hd. rewrite Htm in Hd.
  apply (ticks_awake d t (Some tm)); [done|done| |intros tm' [= <-]; lia].
  exists th. split; [done|]. right. split_and!; [done|by eexists|done|by right].
Qed.
End runs.

(** ** An example *)

(** The thread 0 runs and owns the mutex 1, for which 4 waits; 1 owns the mutex 0; 3 waits for the semaphore 0 for at
    most five ticks; 2 is the idle thread. *)
Definition demo_system : system :=
  mkSystem
    (set_sems (list_to_map [(0%nat, mkSem 0); (1%nat, mkSem 2)])
      (set_mutexes (list_to_map [(0%nat, mkMutex 0 15 1 (Some 1%nat)); (1%nat, mkMutex 0 22 1 (Some 0%nat))]) demo_kernel))
    (list_to_map [(3%nat, PendSem 0 3); (4%nat, PendMutex (mkMutexFrame 1 4 (-1)))])
    (list_to_map [((0%nat, 1%nat), 1); ((1%nat, 0%nat), 1)]).

Lemma demo_dom {A} (x y v : A) n : (list_to_map [(0%nat, x); (1%nat, y)] : gmap nat A) !! n = Some v -> (n < 2)%nat.
Proof.
  intros Hl%elem_of_list_to_map_2. rewrite !elem_of_cons in Hl. destruct Hl as [[= ->]|[[= ->]|[]%elem_of_nil]]; lia.
Qed.

Lemma demo_queue q t :
  t ∈ qget demo_kernel q -> (q, t) ∈ [(QReady 15, 1%nat); (QReady 31, 2%nat); (QSuspend (OSem 0), 3%nat);
    (QSuspend (OMutex 1), 4%nat); (QSuspend (OEvent 0), 5%nat); (QSuspend (OMailBox 0), 6%nat); (QSuspend (OMsgQueue 0), 7%nat)].
Proof.
  intros (l & Hl & Hin)%qlist_elem_lookup. apply (elem_of_list_to_map_2 (M := gmap qid)) in Hl.
  repeat (apply elem_of_cons in Hl as [[= -> ->]|Hl]; [apply list_elem_of_singleton in Hin as ->; set_solver|]).
  by apply elem_of_nil in Hl.
Qed.

Lemma demo_system_ok : system_ok 2 (sy_pending demo_system) (sy_kernel demo_system).
Proof.
  split.
  - done.
  - by exists 0%nat, (demo_thread 0 RT_THREAD_RUNNING 10).
  - exists (demo_thread 2 RT_THREAD_READY 31). split; [done|by left].
  - intros n [sem Hs]. pose proof (demo_dom _ _ _ _ Hs) as Hn.
    destruct (demo_sem_ok n Hn). by split.
  - intros n [m Hm]. pose proof (demo_dom _ _ _ _ Hm) as Hn.
    destruct (demo_mutex_ok n Hn). by split.
  - intros t p Hp%elem_of_list_to_map_2. rewrite !elem_of_cons in Hp.
    destruct Hp as [[= -> ->]|[[= -> ->]|[]%elem_of_nil]]; (eexists; split; [reflexivity|]); [done|]. split; [done|]. left. split_and!; [done|done|]. by left.
  - intros n t Hin%demo_queue. simpl in Hin. rewrite !elem_of_cons, elem_of_nil in Hin.
    destruct Hin as [?|[?|[?|[[= -> ->]|[?|[?|[?|[]]]]]]]]; try discriminate. by eexists.
Qed.

Lemma demo_system_inv : system_inv 2 demo_system.
Proof.
  split; [by apply kinv_set_sems, kinv_set_mutexes, demo_kernel_inv|done|apply demo_system_ok|done|].
  intros n m Hm%elem_of_list_to_map_2. rewrite !elem_of_cons in Hm.
  destruct Hm as [[= -> ->]|[[= -> ->]|[]%elem_of_nil]]; intros t;
    (destruct (decide (t = 0%nat)) as [->|H0]; [by vm_compute|]); (destruct (decide (t = 1%nat)) as [->|H1]; [by vm_compute|]);
    unfold held; simpl; rewrite !lookup_insert_ne by congruence; (rewrite bool_decide_eq_false_2 by congruence);
    (split; [done|congruence]).
Qed.

Lemma idle_timeouts_system idle pend ms : @UserTimeoutsOk (system_during idle pend ms) idle_timeouts.
Proof. by apply idle_timeouts_ok. Qed.

Lemma idle_timeouts_wait idle t pend ms otm :
  @UserTimeoutsOk (fun X k => system_during idle pend ms X k /\ waits_until t otm X k) idle_timeouts.
Proof.
  apply idle_timeouts_ok. intros n s [H1 (th & Ht & Hw)]. split; [exact H1|]. exists th. split; [done|].
  destruct Hw as [?|(? & ? & ? & [?|?])]; [by left|done|right; auto].
Qed.

Lemma system_never_stuck_witness :
  exists σ, @step idle_timeouts (EvCall (CallMutexRelease 1)) demo_system = Some σ /\
    (enabled 2 (EvCall CallYield) σ \/ enabled 2 EvResume σ).
Proof.
  destruct (@step_inv 2 idle_timeouts (idle_timeouts_system 2) demo_system (EvCall (CallMutexRelease 1)) demo_system_inv)
    as (σ & E & _).
  { exists 0%nat. split_and!; [done|done|]. by eexists. }
  exists σ. split; [exact E|].
  apply (@system_never_stuck 2 idle_timeouts (idle_timeouts_system 2) demo_system σ demo_system_inv).
  eapply reachable_step; [apply reachable_start| |exact E]. exists 0%nat. split_and!; [done|done|]. by eexists.
Defined.

Lemma mutual_exclusion_witness :
  exists m, mutexes (sy_kernel demo_system) !! 0%nat = Some m /\ mx_owner m = Some 1%nat /\
    held (sy_held demo_system) 0 1 = 1.
Proof.
  exists (mkMutex 0 15 1 (Some 1%nat)). split_and!; [reflexivity| |reflexivity].
  apply (@mutual_exclusion 2 idle_timeouts (idle_timeouts_system 2) demo_system demo_system 0%nat _ 1%nat 1%nat demo_system_inv);
    [apply reachable_start|reflexivity|vm_compute; reflexivity|vm_compute; reflexivity].
Defined.

Lemma wait_ends_witness :
  exists σ', @ticks idle_timeouts 5 demo_system = Some σ' /\
    exists th', threads (sy_kernel σ') !! 3%nat = Some th' /\ awake th'.
Proof.
  destruct (@wait_ends 2 idle_timeouts demo_system 3%nat (demo_thread 3 RT_THREAD_SUSPEND 8) 5%nat) as (σ' & E & _ & H);
    [exact (idle_timeouts_wait 2 3)|apply demo_system_inv|reflexivity|reflexivity|split; [by right; left|reflexivity]|lia|].
  by exists σ'.
Defined.
