(* ===== verification/Shell.v ===== *)
(** The line editor of the shell (components/finsh/shell.c): keys, the line and its history, and what is printed on the console. *)

From S2P Require Import Prelude FinshDef FinshToken.

(** ** State *)

Abbreviation FINSH_CMD_SIZE := 80.
Abbreviation FINSH_HISTORY_LINES := 5.
Abbreviation CONSOLEBUF_SIZE := 128.

Inductive input_stat := WAIT_NORMAL | WAIT_SPEC_KEY | WAIT_FUNC_KEY.

#[export] Instance input_stat_eq_dec : EqDecision input_stat.
Proof. solve_decision. Defined.

(** [struct finsh_shell] without its device and its parser, with [finsh_prompt_custom], [__msh_state], the working directory of the file system, and what
    has been printed, one string for each call of [rt_kprintf]. *)
Record finsh_shell := mkShell {
  stat : input_stat;
  echo_mode : bool;
  prompt_mode : bool;
  current_history : Z;
  history_count : Z;
  cmd_history : list (list Z);
  line : list Z;
  line_position : Z;
  line_curpos : Z;
  finsh_prompt_custom : option (list Z);
  msh_state : bool;
  working_directory : list Z;
  console : list (list Z) }.

Abbreviation SM := (stM finsh_shell).

Definition set_stat (v : input_stat) (s : finsh_shell) : finsh_shell :=
  mkShell v (echo_mode s) (prompt_mode s) (current_history s) (history_count s) (cmd_history s) (line s) (line_position s) (line_curpos s)
    (finsh_prompt_custom s) (msh_state s) (working_directory s) (console s).
Definition set_echo_mode (v : bool) (s : finsh_shell) : finsh_shell :=
  mkShell (stat s) v (prompt_mode s) (current_history s) (history_count s) (cmd_history s) (line s) (line_position s) (line_curpos s)
    (finsh_prompt_custom s) (msh_state s) (working_directory s) (console s).
Definition set_current_history (v : Z) (s : finsh_shell) : finsh_shell :=
  mkShell (stat s) (echo_mode s) (prompt_mode s) v (history_count s) (cmd_history s) (line s) (line_position s) (line_curpos s)
    (finsh_prompt_custom s) (msh_state s) (working_directory s) (console s).
Definition set_history_count (v : Z) (s : finsh_shell) : finsh_shell :=
  mkShell (stat s) (echo_mode s) (prompt_mode s) (current_history s) v (cmd_history s) (line s) (line_position s) (line_curpos s)
    (finsh_prompt_custom s) (msh_state s) (working_directory s) (console s).
Definition set_cmd_history (v : list (list Z)) (s : finsh_shell) : finsh_shell :=
  mkShell (stat s) (echo_mode s) (prompt_mode s) (current_history s) (history_count s) v (line s) (line_position s) (line_curpos s)
    (finsh_prompt_custom s) (msh_state s) (working_directory s) (console s).
Definition set_line (v : list Z) (s : finsh_shell) : finsh_shell :=
  mkShell (stat s) (echo_mode s) (prompt_mode s) (current_history s) (history_count s) (cmd_history s) v (line_position s) (line_curpos s)
    (finsh_prompt_custom s) (msh_state s) (working_directory s) (console s).
Definition set_line_position (v : Z) (s : finsh_shell) : finsh_shell :=
  mkShell (stat s) (echo_mode s) (prompt_mode s) (current_history s) (history_count s) (cmd_history s) (line s) v (line_curpos s)
    (finsh_prompt_custom s) (msh_state s) (working_directory s) (console s).
Definition set_line_curpos (v : Z) (s : finsh_shell) : finsh_shell :=
  mkShell (stat s) (echo_mode s) (prompt_mode s) (current_history s) (history_count s) (cmd_history s) (line s) (line_position s) v
    (finsh_prompt_custom s) (msh_state s) (working_directory s) (console s).
Definition set_msh_state (v : bool) (s : finsh_shell) : finsh_shell :=
  mkShell (stat s) (echo_mode s) (prompt_mode s) (current_history s) (history_count s) (cmd_history s) (line s) (line_position s) (line_curpos s)
    (finsh_prompt_custom s) v (working_directory s) (console s).
Definition set_console (v : list (list Z)) (s : finsh_shell) : finsh_shell :=
  mkShell (stat s) (echo_mode s) (prompt_mode s) (current_history s) (history_count s) (cmd_history s) (line s) (line_position s) (line_curpos s)
    (finsh_prompt_custom s) (msh_state s) (working_directory s) v.

(** ** Printing *)

(** The buffer of [rt_kprintf] takes 126 characters and a NUL, which is printed with a longer text. *)
Definition log_text (l : list Z) : list Z := if (length l <=? 126)%nat then l else take 126 l ++ [0].
Definition kprintf (l : list Z) : SM unit := modify (fun s => set_console (console s ++ [log_text l]) s).

(** A text as the format: a conversion in it would have no argument. *)
Definition kprintf_format (l : list Z) : SM unit := getso (fun _ => if existsb (Z.eqb 37) l then None else Some tt);; kprintf l.

(** The cursor goes back by [n] characters. *)
Fixpoint backspaces (n : nat) : SM unit := match n with O => mret tt | S n => kprintf [8];; backspaces n end.

Definition PROMPT_MSH : list Z := [109; 115; 104; 32].
Definition PROMPT_FINSH : list Z := [102; 105; 110; 115; 104; 32].

(** [getcwd] copies [size] bytes; a longer path leaves the prompt without its NUL. *)
Definition prompt_text (s : finsh_shell) : option (list Z) :=
  if negb (prompt_mode s) then Some []
  else match finsh_prompt_custom s with
  | Some custom => Some (take (Z.to_nat CONSOLEBUF_SIZE) custom)
  | None =>
      let prompt := if msh_state s then PROMPT_MSH else PROMPT_FINSH in
      if Z.of_nat (length (working_directory s)) <? CONSOLEBUF_SIZE - Z.of_nat (length prompt) then Some (prompt ++ working_directory s ++ [62]) else None
  end.
Definition finsh_get_prompt : SM (list Z) := getso prompt_text.

(** ** The line *)

Definition line_get (i : Z) : SM Z := getso (fun s => if 0 <=? i then line s !! Z.to_nat i else None).
Definition line_put (i c : Z) : SM unit := line_get i;; modify (fun s => set_line (<[Z.to_nat i := c]> (line s)) s).

(** The string at [&shell->line[i]]; there is none behind the array. *)
Definition line_string (i : Z) : SM (list Z) := getso (fun s => if 0 <=? i then c_string (drop (Z.to_nat i) (line s)) else None).

(** [rt_memmove(&shell->line[dst], &shell->line[src], n)] *)
Definition line_move (dst src n : Z) : SM unit :=
  l ← gets line;
  getso (fun _ => if (0 <=? dst) && (0 <=? src) && (0 <=? n) && (dst + n <=? FINSH_CMD_SIZE) && (src + n <=? FINSH_CMD_SIZE) then Some tt else None);;
  modify (set_line (take (Z.to_nat dst) l ++ take (Z.to_nat n) (drop (Z.to_nat src) l) ++ drop (Z.to_nat (dst + n)) l)).

Definition no_line : list Z := replicate (Z.to_nat FINSH_CMD_SIZE) 0.

(** ** History *)

Definition shell_handle_history : SM unit :=
  kprintf [27; 91; 50; 75; 13];;
  prompt ← finsh_get_prompt;
  l ← line_string 0;
  kprintf (prompt ++ l).

Definition history_get (i : Z) : SM (list Z) := getso (fun s => if 0 <=? i then cmd_history s !! Z.to_nat i else None).

(** [memset] and [memcpy] of the first [line_position] characters *)
Definition history_put (i : Z) : SM unit :=
  history_get i;;
  s ← gets id;
  modify (set_cmd_history (<[Z.to_nat i := take (Z.to_nat (line_position s)) (line s) ++ replicate (Z.to_nat (FINSH_CMD_SIZE - line_position s)) 0]> (cmd_history s))).

Definition shell_push_history : SM unit :=
  s ← gets id;
  when (negb (line_position s =? 0))
    (if FINSH_HISTORY_LINES <=? history_count s then
       last ← history_get (FINSH_HISTORY_LINES - 1);
       when (negb (bool_decide (last = line s)))
         (modify (fun s => set_cmd_history (drop 1 (cmd_history s) ++ drop (Z.to_nat (FINSH_HISTORY_LINES - 1)) (cmd_history s)) s);;
          history_put (FINSH_HISTORY_LINES - 1);;
          modify (set_history_count FINSH_HISTORY_LINES))
     else
       same ← (if history_count s =? 0 then mret false else last ← history_get (history_count s - 1); mret (bool_decide (last = line s)));
       when (negb same)
         (modify (set_current_history (history_count s));;
          history_put (history_count s);;
          modify (set_history_count (u16 (history_count s + 1)))));;
  modify (fun s => set_current_history (history_count s) s).

(** The line of the history becomes the line. *)
Definition history_to_line : SM unit :=
  i ← gets current_history;
  l ← history_get i;
  modify (set_line l);;
  str ← line_string 0;
  modify (fun s => set_line_curpos (u8 (Z.of_nat (length str))) (set_line_position (u8 (Z.of_nat (length str))) s));;
  shell_handle_history.

(** ** Keys *)

(** A call that the thread makes when a line is complete: [msh_exec] on the array, or [finsh_run_line] on the string in it. *)
Inductive shell_call := CallMsh (cmd : list Z) (length : Z) | CallFinsh (text : list Z) | CallNone.

Definition key_up : SM unit :=
  c ← gets current_history;
  if 0 <? c then modify (set_current_history (c - 1));; history_to_line
  else modify (set_current_history 0).

Definition key_down : SM unit :=
  c ← gets current_history;
  n ← gets history_count;
  if c <? n - 1 then modify (set_current_history (c + 1));; history_to_line
  else if negb (n =? 0) then modify (set_current_history (n - 1));; history_to_line
  else mret tt.

Definition key_left : SM unit :=
  p ← gets line_curpos;
  if negb (p =? 0) then kprintf [8];; modify (set_line_curpos (u8 (p - 1))) else mret tt.

Definition key_right : SM unit :=
  p ← gets line_curpos;
  n ← gets line_position;
  if p <? n then c ← line_get p; kprintf [c];; modify (set_line_curpos (u8 (p + 1))) else mret tt.

Definition key_backspace : SM unit :=
  p ← gets line_curpos;
  if p =? 0 then mret tt
  else
    n ← gets line_position;
    let n := u8 (n - 1) in let p := u8 (p - 1) in
    modify (fun s => set_line_curpos p (set_line_position n s));;
    if p <? n then
      line_move p (p + 1) (n - p);;
      line_put n 0;;
      str ← line_string p;
      kprintf ([8] ++ str ++ [32; 32; 8]);;
      backspaces (Z.to_nat (n - p + 1))
    else
      kprintf [8; 32; 8];;
      line_put n 0.

Definition key_enter : SM (option shell_call) :=
  shell_push_history;;
  s ← gets id;
  if msh_state s then
    when (echo_mode s) (kprintf [10]);;
    mret (Some (CallMsh (line s) (line_position s)))
  else
    line_put (line_position s) 59;;
    if negb (line_position s =? 0) then str ← line_string 0; mret (Some (CallFinsh str))
    else when (echo_mode s) (kprintf [10]);; mret (Some CallNone).

Definition key_char (ch : Z) : SM unit :=
  n ← gets line_position;
  when (FINSH_CMD_SIZE <=? n) (modify (set_line_position 0));;
  n ← gets line_position;
  p ← gets line_curpos;
  echo ← gets echo_mode;
  (if p <? n then
     line_move (p + 1) p (n - p);;
     line_put p ch;;
     when echo (str ← line_string p; kprintf str);;
     backspaces (Z.to_nat (n - p))
   else
     line_put n ch;;
     when echo (kprintf [ch]));;
  let n := u8 (n + 1) in
  modify (fun s => set_line_curpos (u8 (p + 1)) (set_line_position n s));;
  when (FINSH_CMD_SIZE <=? n) (modify (fun s => set_line_curpos 0 (set_line_position 0 s))).

Section shell.
(** [shell_auto_complete] on the line. *)
Context (shell_auto_complete : SM unit).

Definition key_tab : SM unit :=
  p ← gets line_curpos;
  backspaces (Z.to_nat p);;
  shell_auto_complete;;
  str ← line_string 0;
  modify (fun s => set_line_curpos (u8 (Z.of_nat (length str))) (set_line_position (u8 (Z.of_nat (length str))) s)).

(** A character that is no part of the sequence of a control key. *)
Definition key_normal (ch : Z) : SM (option shell_call) :=
  if (ch =? 0) || (ch =? 255) then mret None
  else if ch =? 9 then key_tab;; mret None
  else if (ch =? 127) || (ch =? 8) then key_backspace;; mret None
  else if (ch =? 13) || (ch =? 10) then key_enter
  else key_char ch;; mret None.

(** One round of the loop of [finsh_thread_entry], up to the call for a complete line; [char] is unsigned. *)
Definition finsh_key (ch : Z) : SM (option shell_call) :=
  st ← gets stat;
  if ch =? 27 then modify (set_stat WAIT_SPEC_KEY);; mret None
  else match st with
  | WAIT_NORMAL => key_normal ch
  | WAIT_SPEC_KEY =>
      if ch =? 91 then modify (set_stat WAIT_FUNC_KEY);; mret None
      else modify (set_stat WAIT_NORMAL);; key_normal ch
  | WAIT_FUNC_KEY =>
      modify (set_stat WAIT_NORMAL);;
      if ch =? 65 then key_up;; mret None
      else if ch =? 66 then key_down;; mret None
      else if ch =? 68 then key_left;; mret None
      else if ch =? 67 then key_right;; mret None
      else key_normal ch
  end.

(** The rest of the round behind the call. *)
Definition finsh_line_done : SM unit :=
  prompt ← finsh_get_prompt;
  kprintf_format prompt;;
  modify (set_line no_line);;
  modify (fun s => set_line_curpos 0 (set_line_position 0 s)).

Context (exec : shell_call -> SM unit).

Definition finsh_call (c : shell_call) : SM unit := match c with CallNone => mret tt | c => exec c end.

(** The loop of [finsh_thread_entry] over the characters that come in; the calls that it makes. *)
Fixpoint finsh_loop (l : list Z) : SM (list shell_call) :=
  match l with
  | [] => mret []
  | ch :: l =>
      r ← finsh_key ch;
      match r with
      | None => finsh_loop l
      | Some c => finsh_call c;; finsh_line_done;; cs ← finsh_loop l; mret (c :: cs)
      end
  end.

Definition finsh_thread_entry (l : list Z) : SM (list shell_call) :=
  modify (set_echo_mode true);;
  prompt ← finsh_get_prompt;
  kprintf_format prompt;;
  finsh_loop l.
End shell.
