(* ===== verification/ShellEdit.v ===== *)
(** The line editor of the shell is an editor: its keys edit a text with a cursor, and the console shows that text. *)

From S2P Require Import Prelude FinshDef FinshToken Shell.

(** ** The editor *)

(** The text before and behind the cursor, the lines of the history, and the place in it. *)
Record editor := mkEditor { before : list Z; after : list Z; history : list (list Z); recalled : nat }.
Inductive key := KChar (c : Z) | KBackspace | KLeft | KRight | KUp | KDown.

Definition text_of (e : editor) : list Z := before e ++ after e.
Definition recall (i : nat) (e : editor) : editor := mkEditor (nth i (history e) []) [] (history e) i.

Definition edit (e : editor) (k : key) : editor :=
  match k with
  | KChar c => mkEditor (before e ++ [c]) (after e) (history e) (recalled e)
  | KBackspace => mkEditor (removelast (before e)) (after e) (history e) (recalled e)
  | KLeft => match before e with [] => e | b => mkEditor (removelast b) (List.last b 0 :: after e) (history e) (recalled e) end
  | KRight => match after e with [] => e | c :: a => mkEditor (before e ++ [c]) a (history e) (recalled e) end
  | KUp => match recalled e with O => e | S i => recall i e end
  | KDown => match history e with [] => e | h => recall (Nat.min (S (recalled e)) (length h - 1)) e end
  end.

(** A complete line goes to the history, unless it is empty or the last one again; there are five at most. *)
Definition push (e : editor) : list (list Z) :=
  if bool_decide (text_of e = []) || bool_decide (last (history e) = Some (text_of e)) then history e
  else let h := history e ++ [text_of e] in drop (length h - 5) h.

(** The characters that a terminal sends for a key. *)
Definition encode (k : key) : list Z :=
  match k with
  | KChar c => [c]
  | KBackspace => [8]
  | KUp => [27; 91; 65] | KDown => [27; 91; 66] | KRight => [27; 91; 67] | KLeft => [27; 91; 68]
  end.

Definition printable (c : Z) : bool := (32 <=? c) && (c <=? 126).

(** A key that the line has room for; with 80 characters it would be full. *)
Definition key_ok (e : editor) (k : key) : bool :=
  match k with KChar c => printable c && (length (text_of e) <? 79)%nat | _ => true end.

(** ** The terminal *)

(** The row of the cursor and its column. *)
Record terminal := mkTerm { row : list Z; col : nat }.

Definition put (c : Z) (t : terminal) : terminal :=
  if c =? 8 then mkTerm (row t) (col t - 1)
  else if c =? 13 then mkTerm (row t) 0
  else if c =? 10 then mkTerm [] 0
  else mkTerm (take (col t) (row t) ++ c :: drop (S (col t)) (row t)) (S (col t)).

(** The sequence [ESC [ 2 K] erases the row. *)
Fixpoint display (l : list Z) (t : terminal) : terminal :=
  match l with
  | 27 :: 91 :: 50 :: 75 :: l => display l (mkTerm [] (col t))
  | c :: l => display l (put c t)
  | [] => t
  end.

Definition screen (c : list (list Z)) : terminal := foldl (fun t l => display l t) (mkTerm [] 0) c.

(** ** The shell has the state of the editor *)

Definition padded (l : list Z) : list Z := l ++ replicate (80 - length l) 0.

(** A text that fits into the line with its NUL. *)
Definition text_ok (l : list Z) : Prop := (length l < 80)%nat /\ forallb printable l = true.

Record holds_editor (e : editor) (s : finsh_shell) : Prop := {
  he_stat : stat s = WAIT_NORMAL;
  he_echo : echo_mode s = true;
  he_text : text_ok (text_of e);
  he_line : line s = padded (text_of e);
  he_position : line_position s = Z.of_nat (length (text_of e));
  he_curpos : line_curpos s = Z.of_nat (length (before e));
  he_history : Forall text_ok (history e);
  he_rows : exists rest, cmd_history s = (padded <$> history e) ++ rest /\ length (cmd_history s) = 5%nat;
  he_count : history_count s = Z.of_nat (length (history e));
  he_current : current_history s = Z.of_nat (recalled e);
  he_recalled : (recalled e <= length (history e))%nat;
}.

(** Behind the prompt [p], the console shows the text with its cursor, and blanks. *)
Definition shows (p : list Z) (e : editor) (s : finsh_shell) : Prop :=
  exists k, screen (console s) = mkTerm (p ++ text_of e ++ replicate k 32) (length p + length (before e)).

(** The prompt, short enough for one call of [rt_kprintf] with a line, and a format without conversions; [m] is the mode of the shell. *)
Definition prompts (p : list Z) (m : bool) (s : finsh_shell) : Prop := prompt_text s = Some p /\ forallb printable p = true /\ existsb (Z.eqb 37) p = false /\ (length p <= 46)%nat /\ msh_state s = m.

(** ** Strings and rows *)

Lemma printable_range c : printable c = true -> 32 <= c <= 126.
Proof. unfold printable. intros [?%Z.leb_le ?%Z.leb_le]%andb_true_iff. lia. Qed.

Lemma c_string_padded l : forallb printable l = true -> (length l < 80)%nat -> c_string (padded l) = Some l.
Proof.
  unfold padded. intros Hl Hn. replace (80 - length l)%nat with (S (79 - length l)) by lia. cbn [replicate]. clear Hn.
  generalize (replicate (79 - length l) 0). intros r. induction l as [|c l IH]; [done|]. simpl in *. apply andb_true_iff in Hl as [Hc%printable_range Hl].
  destruct (Z.eqb_spec c 0); [lia|]. by rewrite (IH Hl).
Qed.

Lemma length_padded l : (length l < 80)%nat -> length (padded l) = 80%nat.
Proof. intros Hl. unfold padded. rewrite length_app, length_replicate. lia. Qed.

Lemma drop_padded b a : (length (b ++ a) < 80)%nat -> exists r, drop (length b) (padded (b ++ a)) = a ++ 0 :: r.
Proof.
  intros Hl. unfold padded. rewrite <- app_assoc, drop_app_length. rewrite length_app in Hl. rewrite length_app.
  replace (80 - (length b + length a))%nat with (S (79 - (length b + length a))) by lia. by eexists.
Qed.

Lemma c_string_end a r : forallb printable a = true -> c_string (a ++ 0 :: r) = Some a.
Proof.
  induction a as [|c a IH]; [done|]. simpl. intros [Hc%printable_range Ha]%andb_true_iff. destruct (Z.eqb_spec c 0); [lia|]. by rewrite IH.
Qed.

Lemma put_plain c t : printable c = true -> (col t <= length (row t))%nat ->
  put c t = mkTerm (take (col t) (row t) ++ c :: drop (S (col t)) (row t)) (S (col t)).
Proof.
  intros Hc%printable_range _. unfold put. destruct (Z.eqb_spec c 8); [lia|]. destruct (Z.eqb_spec c 13); [lia|]. by destruct (Z.eqb_spec c 10); [lia|].
Qed.

Lemma display_cons c l t : c ≠ 27 -> display (c :: l) t = display l (put c t).
Proof.
  intros Hc. destruct c as [|c|c]; try done.
  do 6 (destruct c as [c|c|]; try done).
Qed.

Lemma take_end {A} (r x : list A) : take (length r) (r ++ x) = r.
Proof. by rewrite take_app_length. Qed.
Lemma drop_end {A} n (r x : list A) : drop (length r + n) (r ++ x) = drop n x.
Proof. by rewrite drop_app_add. Qed.

(** A text is written over the row. *)
Lemma display_text l r x rest : forallb printable l = true ->
  display (l ++ rest) (mkTerm (r ++ x) (length r)) = display rest (mkTerm (r ++ l ++ drop (length l) x) (length r + length l)).
Proof.
  revert r x. induction l as [|c l IH]; intros r x Hl; simpl in Hl; [by rewrite Nat.add_0_r|].
  apply andb_true_iff in Hl as [Hc Hl]. cbn [app]. rewrite display_cons by (apply printable_range in Hc; lia).
  rewrite put_plain by (simpl; rewrite ?length_app; done || lia). cbn [row col]. rewrite take_end. rewrite <- Nat.add_1_r, drop_end.
  change (c :: drop 1 x) with ([c] ++ drop 1 x). rewrite (app_assoc r). replace (length r + 1)%nat with (length (r ++ [c])) by (rewrite length_app; simpl; lia).
  rewrite IH by done. rewrite length_app, <- app_assoc, drop_drop. simpl. do 2 f_equal. lia.
Qed.

(** The cursor goes back. *)
Lemma screen_backspaces n c : foldl (fun t l => display l t) c (replicate n [8]) = mkTerm (row c) (col c - n).
Proof.
  revert c. induction n as [|n IH]; intros [r k]; simpl; [by rewrite Nat.sub_0_r|]. rewrite IH. simpl. f_equal. lia.
Qed.

Lemma screen_app a b : screen (a ++ b) = foldl (fun t l => display l t) (screen a) b.
Proof. unfold screen. by rewrite foldl_app. Qed.

(** ** The operations on the line *)

Section operations.
Implicit Types (Q : unit -> finsh_shell -> Prop).

Lemma wp_kprintf l s Q : (length l <= 126)%nat -> Q tt (set_console (console s ++ [l]) s) -> wp (kprintf l) Q s.
Proof. intros Hl HQ. unfold kprintf. rewrite wp_modify. unfold log_text. by rewrite (proj2 (Nat.leb_le _ _) Hl). Qed.

Lemma wp_backspaces n s Q : Q tt (set_console (console s ++ replicate n [8]) s) -> wp (backspaces n) Q s.
Proof.
  revert s. induction n as [|n IH]; intros s HQ; simpl; [rewrite wp_ret; rewrite app_nil_r in HQ; by destruct s|].
  rewrite wp_bind. apply wp_kprintf; [simpl; lia|]. apply IH. cbn [console set_console]. by rewrite <- app_assoc.
Qed.

Lemma wp_line_string i str s (Q : list Z -> finsh_shell -> Prop) : c_string (drop i (line s)) = Some str -> Q str s -> wp (line_string (Z.of_nat i)) Q s.
Proof.
  intros Hs HQ. unfold line_string. rewrite wp_getso. rewrite (proj2 (Z.leb_le 0 _)) by lia. rewrite Nat2Z.id. by exists str.
Qed.

Lemma wp_line_put i c s Q : (i < length (line s))%nat -> Q tt (set_line (<[i := c]> (line s)) s) -> wp (line_put (Z.of_nat i) c) Q s.
Proof.
  intros Hi HQ. unfold line_put, line_get. rewrite wp_bind, wp_getso. rewrite (proj2 (Z.leb_le 0 _)) by lia. rewrite Nat2Z.id.
  destruct (lookup_lt_is_Some_2 _ _ Hi) as [x Hx]. exists x. split; [done|]. by rewrite wp_modify.
Qed.

Lemma wp_line_move dst src n s Q : (dst + n <= 80)%nat -> (src + n <= 80)%nat ->
  Q tt (set_line (take dst (line s) ++ take n (drop src (line s)) ++ drop (dst + n) (line s)) s) ->
  wp (line_move (Z.of_nat dst) (Z.of_nat src) (Z.of_nat n)) Q s.
Proof.
  intros H1 H2 HQ. unfold line_move. rewrite wp_bind, wp_gets, wp_bind, wp_getso. exists tt. split.
  - rewrite !(proj2 (Z.leb_le _ _)) by lia. done.
  - rewrite wp_modify. replace (Z.of_nat dst + Z.of_nat n) with (Z.of_nat (dst + n)) by lia. by rewrite !Nat2Z.id.
Qed.

Lemma wp_handle_history p m text s Q : prompts p m s -> forallb printable text = true -> (length text < 80)%nat -> line s = padded text ->
  Q tt (set_console (console s ++ [[27; 91; 50; 75; 13]; p ++ text]) s) -> wp shell_handle_history Q s.
Proof.
  intros (Hp & _ & _ & Hlen & _) Ht Hn Hl HQ. unfold shell_handle_history. rewrite wp_bind. apply wp_kprintf; [simpl; lia|].
  rewrite wp_bind. unfold finsh_get_prompt. rewrite wp_getso. exists p. split; [exact Hp|]. rewrite wp_bind. apply (wp_line_string 0 text).
  - cbn [line set_console drop]. rewrite Hl. by apply c_string_padded.
  - apply wp_kprintf; [rewrite length_app; lia|]. cbn [console set_console]. by rewrite <- app_assoc.
Qed.
End operations.

(** ** The line as an array *)

Lemma padded_room l : (length l < 80)%nat -> padded l = l ++ 0 :: replicate (79 - length l) 0.
Proof. intros Hl. unfold padded. by replace (80 - length l)%nat with (S (79 - length l)) by lia. Qed.

Lemma padded_snoc l c : (length l < 80)%nat -> <[length l := c]> (padded l) = padded (l ++ [c]).
Proof.
  intros Hl. rewrite padded_room by done. rewrite <- (Nat.add_0_r (length l)), insert_app_r. unfold padded. rewrite length_app, <- app_assoc. simpl.
  do 3 f_equal. lia.
Qed.

(** A character is inserted: the rest of the text is moved. *)
Lemma move_on (b a z : list Z) c y : a ≠ [] ->
  <[length b := c]> (take (length b + 1) (b ++ a ++ y :: z) ++ take (length a) (drop (length b) (b ++ a ++ y :: z)) ++
    drop (length b + 1 + length a) (b ++ a ++ y :: z)) = b ++ c :: a ++ z.
Proof.
  intros Ha. rewrite take_app_add, drop_app_length, take_app_length. replace (length b + 1 + length a)%nat with (length b + (length a + 1))%nat by lia.
  rewrite !drop_app_add. destruct a as [|x a]; [done|]. cbn [app take drop]. rewrite <- app_assoc. cbn [app].
  rewrite <- (Nat.add_0_r (length b)), insert_app_r. done.
Qed.

Lemma padded_insert b a c : a ≠ [] -> (length (b ++ a) < 80)%nat -> let l := padded (b ++ a) in
  <[length b := c]> (take (length b + 1) l ++ take (length a) (drop (length b) l) ++ drop (length b + 1 + length a) l) = padded (b ++ c :: a).
Proof.
  intros Ha Hl l. subst l. rewrite padded_room by done. rewrite <- app_assoc, move_on by done. unfold padded. rewrite <- app_assoc, !length_app in *. simpl.
  do 4 f_equal. lia.
Qed.

(** A character is deleted: the rest of the text is moved back, and a NUL put behind it. *)
Lemma move_back (b a z : list Z) x :
  <[(length b + length a)%nat := 0]> (take (length b) (b ++ x :: a ++ z) ++ take (length a) (drop (length b + 1) (b ++ x :: a ++ z)) ++
    drop (length b + length a) (b ++ x :: a ++ z)) = b ++ a ++ 0 :: z.
Proof.
  assert (exists y, drop (length a) (x :: a ++ z) = y :: z) as [y Hy].
  { destruct (exists_last (l := x :: a)) as (f & y & E); [done|]. exists y. change (x :: a ++ z) with ((x :: a) ++ z). rewrite E, <- app_assoc.
    replace (length a) with (length f) by (apply (f_equal length) in E; rewrite length_app in E; simpl in E; lia). by rewrite drop_app_length. }
  rewrite take_app_length, !drop_app_add, Hy. change (drop 1 (x :: a ++ z)) with (a ++ z). rewrite take_app_length, insert_app_r.
  f_equal. rewrite <- (Nat.add_0_r (length a)), insert_app_r. done.
Qed.

Lemma padded_delete b x a : (length (b ++ x :: a) < 80)%nat -> let l := padded (b ++ x :: a) in
  <[(length b + length a)%nat := 0]> (take (length b) l ++ take (length a) (drop (length b + 1) l) ++ drop (length b + length a) l) = padded (b ++ a).
Proof.
  intros Hl l. subst l. unfold padded. rewrite <- !app_assoc. cbn [app]. rewrite move_back. rewrite !length_app in *. simpl in *.
  do 2 f_equal. by replace (80 - (length b + length a))%nat with (S (80 - (length b + S (length a)))) by lia.
Qed.

Lemma padded_last b x : (length (b ++ [x]) < 80)%nat -> <[length b := 0]> (padded (b ++ [x])) = padded b.
Proof.
  rewrite length_app. intros Hl. unfold padded. rewrite <- app_assoc. rewrite <- (Nat.add_0_r (length b)) at 1. rewrite insert_app_r, length_app.
  simpl in *. replace (80 - length b)%nat with (S (80 - (length b + 1))) by lia. done.
Qed.

(** ** The row *)

Lemma drop_blanks n k : drop n (replicate k 32) = replicate (k - n) (32 : Z).
Proof. by rewrite drop_replicate. Qed.

(** A text printed at the cursor. *)
Lemma row_text (p b l x rest : list Z) : forallb printable l = true ->
  display (l ++ rest) (mkTerm (p ++ b ++ x) (length p + length b)) =
  display rest (mkTerm (p ++ b ++ l ++ drop (length l) x) (length p + length b + length l)).
Proof. intros Hl. rewrite (app_assoc p), <- (length_app p b), display_text by done. by rewrite <- app_assoc. Qed.

Lemma screen_insert c p b a k x : printable x = true -> forallb printable a = true ->
  screen c = mkTerm (p ++ b ++ a ++ replicate k 32) (length p + length b) ->
  screen (c ++ [x :: a] ++ replicate (length a) [8]) = mkTerm (p ++ b ++ x :: a ++ replicate (k - 1) 32) (length p + length b + 1).
Proof.
  intros Hx Ha Hs. rewrite !screen_app, Hs. cbn [foldl app]. rewrite <- (app_nil_r (x :: a)), row_text by (simpl; by rewrite Hx, Ha). cbn [display]. rewrite screen_backspaces. cbn [row col].
  f_equal; [|simpl; lia]. cbn [app]. do 4 f_equal. change (length (x :: a)) with (1 + length a)%nat. rewrite Nat.add_comm, <- drop_drop, drop_app_length.
  apply drop_blanks.
Qed.

Lemma screen_delete c p b x a k : forallb printable a = true ->
  screen c = mkTerm (p ++ b ++ x :: a ++ replicate k 32) (length p + length b + 1) ->
  screen (c ++ [[8] ++ a ++ [32; 32; 8]] ++ replicate (length a + 1) [8]) = mkTerm (p ++ b ++ a ++ replicate (k - 1 + 2) 32) (length p + length b).
Proof.
  intros Ha Hs. rewrite !screen_app, Hs. cbn [foldl app]. cbn [display]. unfold put. cbn [row col]. simpl (8 =? 8). cbv iota.
  rewrite Nat.add_sub. change (a ++ [32; 32; 8]) with (a ++ [32; 32] ++ [8]). rewrite app_assoc, row_text by (rewrite forallb_app, Ha; done).
  cbn [display put row col]. unfold put. simpl (8 =? 8). cbv iota. cbn [row col]. rewrite screen_backspaces. cbn [row col]. rewrite length_app. simpl (length [32; 32]).
  f_equal; [|lia]. rewrite <- app_assoc. do 3 f_equal. change (x :: a ++ replicate k 32) with ((x :: a) ++ replicate k 32).
  replace (length a + 2)%nat with (length (x :: a) + 1)%nat by (simpl; lia). rewrite <- drop_drop, drop_app_length, drop_blanks.
  rewrite Nat.add_comm. done.
Qed.

Lemma screen_delete_last c p b x k : 
  screen c = mkTerm (p ++ b ++ x :: replicate k 32) (length p + length b + 1) ->
  screen (c ++ [[8; 32; 8]]) = mkTerm (p ++ b ++ replicate (k + 1) 32) (length p + length b).
Proof.
  intros Hs. rewrite screen_app, Hs. cbn [foldl display]. unfold put. simpl (8 =? 8). cbv iota. cbn [row col]. rewrite Nat.add_sub.
  simpl. f_equal; [|lia]. rewrite app_assoc, <- length_app, take_end. rewrite <- app_assoc. do 2 f_equal.
  rewrite <- Nat.add_1_r, drop_end. rewrite Nat.add_1_r. done.
Qed.

Lemma screen_left c r n : screen c = mkTerm r n -> screen (c ++ [[8]]) = mkTerm r (n - 1).
Proof. intros Hs. by rewrite screen_app, Hs. Qed.

(** The row is erased and the line printed again. *)
Lemma screen_again c r n p l : forallb printable p = true -> forallb printable l = true -> screen c = mkTerm r n ->
  screen (c ++ [[27; 91; 50; 75; 13]; p ++ l]) = mkTerm (p ++ l) (length p + length l).
Proof.
  intros Hp Hl Hs. rewrite screen_app, Hs. cbn [foldl display]. unfold put. simpl. rewrite <- (app_nil_r (p ++ l)).
  pose proof (display_text (p ++ l) [] [] [] ltac:(by rewrite forallb_app, Hp, Hl)) as E. cbn [app length] in E. rewrite E. cbn [display].
  rewrite drop_nil, !app_nil_r, length_app. done.
Qed.

(** ** The keys *)

Definition shown (p : list Z) (m : bool) (e : editor) (s : finsh_shell) : Prop := holds_editor e s /\ shows p e s /\ prompts p m s.

Section keys.
Context (p : list Z) (m : bool).

Lemma text_length e : length (text_of e) = (length (before e) + length (after e))%nat.
Proof. apply length_app. Qed.

Lemma u8_nat n : (n < 256)%nat -> u8 (Z.of_nat n) = Z.of_nat n.
Proof. intros Hn. apply uwrap_small. simpl. lia. Qed.

Lemma text_ok_change e e' s : holds_editor e s -> history e' = history e -> recalled e' = recalled e -> text_ok (text_of e') ->
  forall c, holds_editor e' (set_console c (set_line_curpos (Z.of_nat (length (before e'))) (set_line_position (Z.of_nat (length (text_of e')))
    (set_line (padded (text_of e')) s)))).
Proof. intros [] Hh Hr Ht c. split; cbn; rewrite ?Hh, ?Hr; done. Qed.

(** The state behind a change of the text, with what has been printed. *)
Lemma shown_change e e' s c k : shown p m e s -> history e' = history e -> recalled e' = recalled e -> text_ok (text_of e') ->
  screen c = mkTerm (p ++ before e' ++ after e' ++ replicate k 32) (length p + length (before e')) ->
  shown p m e' (set_console c (set_line_curpos (Z.of_nat (length (before e'))) (set_line_position (Z.of_nat (length (text_of e')))
    (set_line (padded (text_of e')) s)))).
Proof.
  intros (He & _ & Hp) Hh Hr Ht Hs. split; [by eapply text_ok_change|]. split; [|exact Hp]. exists k. cbn [console set_console]. rewrite Hs.
  unfold text_of. by rewrite <- app_assoc.
Qed.

Lemma shows_screen e s : shows p e s -> exists k, screen (console s) = mkTerm (p ++ before e ++ after e ++ replicate k 32) (length p + length (before e)).
Proof. intros [k Hs]. exists k. unfold text_of in Hs. by rewrite <- app_assoc in Hs. Qed.

Lemma wp_key_char c e s : shown p m e s -> key_ok e (KChar c) = true -> wp (key_char c) (fun _ => shown p m (edit e (KChar c))) s.
Proof.
  intros Hsh Hk. pose proof Hsh as (He & [k Hs]%shows_screen & _). simpl in Hk. apply andb_true_iff in Hk as [Hc Hn%Nat.ltb_lt].
  destruct He as [Hst Hecho [Hlen Hpr] Hl Hpos Hcur _ _ _ _ _].
  pose proof (text_length e) as Htl. unfold key_char. rewrite wp_bind, wp_gets, wp_bind, wp_when. right. split; [apply Z.leb_gt; lia|].
  rewrite wp_bind, wp_gets, wp_bind, wp_gets, wp_bind, wp_gets, wp_bind, Hpos, Hcur, Hecho.
  pose proof (shown_change e (edit e (KChar c)) s) as Hend. destruct e as [b a h i]. unfold text_of in *. cbn [edit before after history recalled] in *.
  rewrite forallb_app in Hpr. apply andb_true_iff in Hpr as [Hb Ha]. rewrite <- app_assoc in Hend. cbn [app] in Hend.
  assert (text_ok (b ++ c :: a)) as Ht by (split; [rewrite !length_app in *; simpl; lia|rewrite forallb_app, Hb; simpl; by rewrite Hc]).
  assert (length (b ++ c :: a) = length (b ++ a) + 1)%nat as Hlen' by (rewrite !length_app; simpl; lia). rewrite Hlen' in Hend.
  assert (forall cs, screen cs = mkTerm (p ++ b ++ c :: a ++ replicate (k - 1) 32) (length p + length b + 1) ->
    wp (let n := u8 (Z.of_nat (length (b ++ a)) + 1) in
        modify (fun s => set_line_curpos (u8 (Z.of_nat (length b) + 1)) (set_line_position n s));;
        when (FINSH_CMD_SIZE <=? n) (modify (fun s => set_line_curpos 0 (set_line_position 0 s))))
       (fun _ => shown p m (mkEditor (b ++ [c]) a h i)) (set_console cs (set_line (padded (b ++ c :: a)) s))) as Hrest.
  { intros cs Hcs. cbv zeta. change 1 with (Z.of_nat 1). rewrite <- !Nat2Z.inj_add, !u8_nat by lia. rewrite wp_bind, wp_modify, wp_when. right.
    split; [apply Z.leb_gt; lia|]. rewrite length_app in Hend. apply (Hend cs (k - 1)%nat); [done|done|done|exact Ht|].
    rewrite Hcs. f_equal; [|simpl; lia]. by rewrite <- (app_assoc b). }
  destruct a as [|y a].
  - rewrite (proj2 (Z.ltb_ge _ _)) by (rewrite app_nil_r; lia). rewrite app_nil_r in *. rewrite wp_bind. apply wp_line_put; [rewrite Hl, length_padded; lia|].
    rewrite wp_when. left. split; [done|]. apply wp_kprintf; [simpl; lia|]. rewrite Hl, padded_snoc by lia.
    apply (Hrest (console s ++ [[c]])). pose proof (screen_insert (console s) p b [] k c Hc eq_refl Hs) as E. exact E.
  - rewrite (proj2 (Z.ltb_lt _ _)) by (rewrite length_app; simpl; lia). rewrite wp_bind. rewrite length_app in *. assert (y :: a ≠ []) as Hne by done. set (a' := y :: a) in *. clearbody a'.
    change 1 with (Z.of_nat 1) at 1. rewrite <- Nat2Z.inj_add. replace (Z.of_nat (length b + length a') - Z.of_nat (length b)) with (Z.of_nat (length a')) by lia.
    apply wp_line_move; [lia|lia|]. rewrite wp_bind. apply wp_line_put.
    { cbn [line set_line]. rewrite !length_app, length_take, length_take, !length_drop, Hl, length_padded by (rewrite length_app; lia). lia. }
    cbn [line set_line]. rewrite Hl, padded_insert by (done || rewrite length_app; lia). rewrite wp_bind, wp_when. left. split; [done|]. rewrite wp_bind.
    pose proof (proj1 Ht) as Hlt. destruct (drop_padded b (c :: a') Hlt) as [r Hr].
    apply (wp_line_string _ (c :: a')).
    { cbn [line set_line]. rewrite Hr. apply c_string_end. simpl. by rewrite Hc, Ha. }
    apply wp_kprintf; [simpl; lia|]. apply wp_backspaces. rewrite Nat2Z.id. cbn [console set_console set_line].
    apply (Hrest ((console s ++ [c :: a']) ++ replicate (length a') [8])). rewrite <- app_assoc. by apply screen_insert.
Qed.

Lemma wp_key_backspace e s : shown p m e s -> wp key_backspace (fun _ => shown p m (edit e KBackspace)) s.
Proof.
  intros Hsh. pose proof Hsh as (He & [k Hs]%shows_screen & _). destruct He as [Hst Hecho [Hlen Hpr] Hl Hpos Hcur _ _ _ _ _].
  unfold key_backspace. rewrite wp_bind, wp_gets, Hcur. pose proof (shown_change e (edit e KBackspace) s) as Hend.
  destruct e as [b a h i]. unfold text_of in *. cbn [edit before after history recalled] in *. destruct (Z.eqb_spec (Z.of_nat (length b)) 0) as [Hb0|Hb0].
  { destruct b; [|simpl in Hb0; lia]. by rewrite wp_ret. }
  destruct (exists_last (l := b)) as (b' & x & ->); [by intros ->|]. rewrite removelast_last in *. rewrite <- !app_assoc in *. cbn [app] in *.
  rewrite forallb_app in Hpr. apply andb_true_iff in Hpr as [Hb Ha]. simpl in Ha. apply andb_true_iff in Ha as [Hx Ha].
  assert (text_ok (b' ++ a)) as Ht by (split; [rewrite !length_app in *; simpl in *; lia|by rewrite forallb_app, Hb]).
  rewrite wp_bind, wp_gets, Hpos. cbv zeta. rewrite !length_app in *. simpl (length (x :: a)) in *. simpl (length [x]) in *.
  replace (Z.of_nat (length b' + S (length a)) - 1) with (Z.of_nat (length b' + length a)) by lia. replace (Z.of_nat (length b' + 1) - 1) with (Z.of_nat (length b')) by lia.
  rewrite !u8_nat by lia. rewrite wp_bind, wp_modify. destruct a as [|y a].
  - rewrite (proj2 (Z.ltb_ge _ _)) by (simpl; lia). rewrite wp_bind. apply wp_kprintf; [simpl; lia|]. simpl (length []) in *.
    apply wp_line_put; [cbn; rewrite Hl, length_padded; [lia|rewrite length_app; simpl; lia]|]. cbn [line set_line set_console set_line_curpos set_line_position console].
    rewrite Hl, Nat.add_0_r, padded_last by (rewrite length_app; simpl; lia). rewrite Nat.add_0_r, app_nil_r in Hend. rewrite app_nil_r in Ht.
    apply (Hend _ (k + 1)%nat); [exact Hsh|done|done|exact Ht|]. apply (screen_delete_last _ _ _ x). rewrite Hs. f_equal. lia.
  - rewrite (proj2 (Z.ltb_lt _ _)) by (simpl; lia). assert (y :: a ≠ []) as Hne by done. set (a' := y :: a) in *. clearbody a'. rewrite wp_bind.
    change 1 with (Z.of_nat 1) at 1. rewrite <- Nat2Z.inj_add. replace (Z.of_nat (length b' + length a') - Z.of_nat (length b')) with (Z.of_nat (length a')) by lia.
    apply wp_line_move; [lia|lia|]. rewrite wp_bind. assert (length (b' ++ x :: a') < 80)%nat as Hlt by (rewrite length_app; simpl; lia). apply wp_line_put.
    { cbn [line set_line set_line_curpos set_line_position]. rewrite !length_app, length_take, length_take, !length_drop, Hl, length_padded by done. lia. }
    cbn [line set_line set_line_curpos set_line_position]. rewrite Hl, (padded_delete b' x a' Hlt).
    rewrite wp_bind. destruct (drop_padded b' a' (proj1 Ht)) as [r Hr]. apply (wp_line_string _ a'); [cbn; rewrite Hr; by apply c_string_end|].
    rewrite wp_bind. apply wp_kprintf; [cbn [app length]; rewrite length_app; simpl; lia|]. apply wp_backspaces.
    replace (Z.to_nat (Z.of_nat (length a') + 1)) with (length a' + 1)%nat by lia. cbn [console set_console set_line set_line_curpos set_line_position]. rewrite <- app_assoc.
    apply (Hend _ (k - 1 + 2)%nat); [exact Hsh|done|done|exact Ht|]. apply (screen_delete _ _ _ x); [done|]. rewrite Hs. f_equal. lia.
Qed.

Lemma wp_key_left e s : shown p m e s -> wp key_left (fun _ => shown p m (edit e KLeft)) s.
Proof.
  intros Hsh. pose proof Hsh as (He & [k Hs]%shows_screen & _). destruct He as [Hst Hecho [Hlen Hpr] Hl Hpos Hcur _ _ _ _ _].
  unfold key_left. rewrite wp_bind, wp_gets, Hcur. pose proof (shown_change e (edit e KLeft) s) as Hend.
  destruct e as [b a h i]. cbn [edit before after history recalled] in *. destruct b as [|x0 b0]; [by simpl; rewrite wp_ret|].
  destruct (exists_last (l := x0 :: b0)) as (b & x & E); [done|]. rewrite E in *. rewrite removelast_last, last_last in *. unfold text_of in *.
  cbn [before after history recalled] in *. rewrite <- app_assoc in *. cbn [app] in *. rewrite !length_app in *. simpl (length [x]) in *.
  rewrite (proj2 (Z.eqb_neq _ _)) by lia. cbn [negb]. rewrite wp_bind. apply wp_kprintf; [simpl; lia|]. rewrite wp_modify.
  replace (Z.of_nat (length b + 1) - 1) with (Z.of_nat (length b)) by lia. simpl (length (x :: a)) in *. rewrite u8_nat by lia.
  assert (set_line_curpos (Z.of_nat (length b)) (set_console (console s ++ [[8]]) s) =
    set_console (console s ++ [[8]]) (set_line_curpos (Z.of_nat (length b)) (set_line_position (Z.of_nat (length b + S (length a))) (set_line (padded (b ++ x :: a)) s)))) as ->
    by (destruct s; simpl in *; by subst).
  apply (Hend _ k); [exact Hsh|done|done|split; [rewrite length_app; simpl; lia|done]|]. rewrite (screen_left _ _ _ Hs). cbn [app]. f_equal. lia.
Qed.

Lemma wp_key_right e s : shown p m e s -> wp key_right (fun _ => shown p m (edit e KRight)) s.
Proof.
  intros Hsh. pose proof Hsh as (He & [k Hs]%shows_screen & _). destruct He as [Hst Hecho [Hlen Hpr] Hl Hpos Hcur _ _ _ _ _].
  unfold key_right. rewrite wp_bind, wp_gets, wp_bind, wp_gets, Hcur, Hpos. pose proof (shown_change e (edit e KRight) s) as Hend.
  destruct e as [b a h i]. unfold text_of in *. cbn [edit before after history recalled] in *. rewrite length_app in *. destruct a as [|x a].
  { rewrite (proj2 (Z.ltb_ge _ _)) by (simpl; lia). by rewrite wp_ret. }
  cbn [before after history recalled] in *. rewrite <- app_assoc in Hend. cbn [app] in *. simpl (length (x :: a)) in *. rewrite (proj2 (Z.ltb_lt _ _)) by lia.
  assert (length (b ++ x :: a) < 80)%nat as Hlt by (rewrite length_app; simpl; lia).
  rewrite wp_bind. unfold line_get. rewrite wp_getso. exists x. split.
  { rewrite (proj2 (Z.leb_le 0 _)) by lia. rewrite Nat2Z.id, Hl. unfold padded. rewrite <- app_assoc. cbn [app]. by rewrite list_lookup_middle. }
  rewrite wp_bind. apply wp_kprintf; [simpl; lia|]. rewrite wp_modify.
  change 1 with (Z.of_nat 1). rewrite <- Nat2Z.inj_add, u8_nat by lia. rewrite !length_app in Hend. simpl (length [x]) in Hend. simpl (length (x :: a)) in Hend.
  assert (set_line_curpos (Z.of_nat (length b + 1)) (set_console (console s ++ [[x]]) s) =
    set_console (console s ++ [[x]]) (set_line_curpos (Z.of_nat (length b + 1)) (set_line_position (Z.of_nat (length b + 1 + length a)) (set_line (padded (b ++ x :: a)) s)))) as ->
    by (destruct s; simpl in *; subst; unfold set_line_curpos, set_line_position, set_console, set_line; simpl; f_equal; lia).
  apply (Hend _ k); [exact Hsh|done|done|by split|]. rewrite screen_app, Hs. cbn [foldl]. rewrite <- (app_nil_r [x]).
  rewrite forallb_app in Hpr. apply andb_true_iff in Hpr as [_ Ha]. simpl in Ha. apply andb_true_iff in Ha as [Hx _].
  rewrite row_text by (simpl; by rewrite Hx). cbn [display]. rewrite <- (app_assoc b). f_equal. simpl. lia.
Qed.
(** *** The history *)

Lemma history_row e s i : holds_editor e s -> (i < length (history e))%nat ->
  cmd_history s !! i = Some (padded (nth i (history e) [])) /\ text_ok (nth i (history e) []).
Proof.
  intros [_ _ _ _ _ _ Hok (rest & Hr & _) _ _ _] Hi. rewrite Hr, lookup_app_l by (by rewrite length_fmap). rewrite list_lookup_fmap.
  destruct (lookup_lt_is_Some_2 _ _ Hi) as [t Ht]. rewrite (nth_lookup_Some _ _ [] _ Ht), Ht. split; [done|]. by eapply Forall_lookup_1.
Qed.

Lemma wp_history_to_line e s i : shown p m e s -> (i < length (history e))%nat ->
  wp history_to_line (fun _ => shown p m (recall i e)) (set_current_history (Z.of_nat i) s).
Proof.
  intros (He & [k Hs] & Hp) Hi. destruct (history_row e s i He Hi) as [Hrow Hok]. unfold recall. set (t := nth i (history e) []) in *.
  destruct Hok as [Hlen Hpr]. unfold history_to_line. rewrite wp_bind, wp_gets, wp_bind. unfold history_get. rewrite wp_getso. exists (padded t). split.
  { cbn [current_history set_current_history]. rewrite (proj2 (Z.leb_le 0 _)) by lia. rewrite Nat2Z.id. exact Hrow. }
  rewrite wp_bind, wp_modify, wp_bind. apply (wp_line_string 0 t); [by apply c_string_padded|].
  rewrite wp_bind, wp_modify. rewrite !u8_nat by lia. apply (wp_handle_history p m t); [exact Hp|done|done|done|]. destruct He. destruct Hp as (Hp1 & Hp2 & Hp3).
  split; [|split; [|done]].
  - split; unfold text_of; cbn; rewrite ?app_nil_r; try done. lia.
  - exists O. unfold text_of. cbn. rewrite !app_nil_r.
    eapply screen_again; [done|done|exact Hs].
Qed.

Lemma wp_key_up e s : shown p m e s -> wp key_up (fun _ => shown p m (edit e KUp)) s.
Proof.
  intros Hsh. pose proof Hsh as (He & _). unfold key_up. rewrite wp_bind, wp_gets, (he_current _ _ He). pose proof (he_recalled _ _ He) as Hrec. cbn [edit].
  destruct (recalled e) as [|i] eqn:Hi.
  - simpl. rewrite wp_modify. assert (set_current_history 0 s = s) as -> by (pose proof (he_current _ _ He) as Hc; rewrite Hi in Hc; destruct s; simpl in *; by subst). done.
  - rewrite (proj2 (Z.ltb_lt _ _)) by lia. rewrite wp_bind, wp_modify. replace (Z.of_nat (S i) - 1) with (Z.of_nat i) by lia. apply wp_history_to_line; [done|lia].
Qed.

Lemma wp_key_down e s : shown p m e s -> wp key_down (fun _ => shown p m (edit e KDown)) s.
Proof.
  intros Hsh. pose proof Hsh as (He & _). unfold key_down. rewrite wp_bind, wp_gets, wp_bind, wp_gets, (he_current _ _ He), (he_count _ _ He).
  assert (edit e KDown = if (length (history e) =? 0)%nat then e else recall (Nat.min (S (recalled e)) (length (history e) - 1)) e) as ->.
  { simpl. by destruct (history e). }
  destruct (Z.ltb_spec (Z.of_nat (recalled e)) (Z.of_nat (length (history e)) - 1)).
  - rewrite (proj2 (Nat.eqb_neq _ _)) by lia. rewrite wp_bind, wp_modify. replace (Z.of_nat (recalled e) + 1) with (Z.of_nat (S (recalled e))) by lia.
    rewrite Nat.min_l by lia. apply wp_history_to_line; [done|lia].
  - destruct (Nat.eqb_spec (length (history e)) 0) as [E|E]; [rewrite E; simpl; by rewrite wp_ret|].
    rewrite (proj2 (Z.eqb_neq _ _)) by lia. cbn [negb]. rewrite wp_bind, wp_modify. rewrite Nat.min_r by lia.
    replace (Z.of_nat (length (history e)) - 1) with (Z.of_nat (length (history e) - 1)) by lia. apply wp_history_to_line; [done|lia].
Qed.
End keys.
