(* ===== verification/ShellSession.v ===== *)
(** A session of the shell: the calls that its thread makes are the lines that the editor has been given. *)

From S2P Require Import Prelude FinshDef FinshToken Shell ShellEdit.

(** ** Sessions of the editor *)

(** An empty line behind a history. *)
Definition fresh_line (h : list (list Z)) : editor := mkEditor [] [] h (length h).

(** The keys of a line and the end of it. *)
Definition typed (ks : list key) : list Z := flat_map encode ks ++ [13].

Definition line_call (m : bool) (t : list Z) : shell_call :=
  if m then CallMsh (padded t) (Z.of_nat (length t)) else match t with [] => CallNone | _ => CallFinsh (t ++ [59]) end.

Fixpoint lines_calls (m : bool) (h : list (list Z)) (lines : list (list key)) : list shell_call :=
  match lines with
  | [] => []
  | ks :: lines => let e := foldl edit (fresh_line h) ks in line_call m (text_of e) :: lines_calls m (push e) lines
  end.

Fixpoint lines_history (h : list (list Z)) (lines : list (list key)) : list (list Z) :=
  match lines with [] => h | ks :: lines => lines_history (push (foldl edit (fresh_line h) ks)) lines end.

Fixpoint keys_ok (e : editor) (ks : list key) : bool := match ks with [] => true | k :: ks => key_ok e k && keys_ok (edit e k) ks end.

(** A line of finsh needs room for its semicolon. *)
Definition line_ok (m : bool) (h : list (list Z)) (ks : list key) : bool :=
  keys_ok (fresh_line h) ks && (m || (length (text_of (foldl edit (fresh_line h) ks)) <? 79)%nat).

Fixpoint lines_ok (m : bool) (h : list (list Z)) (lines : list (list key)) : bool :=
  match lines with [] => true | ks :: lines => line_ok m h ks && lines_ok m (push (foldl edit (fresh_line h) ks)) lines end.

(** The state behind a complete line, with the history. *)
Record entered (h : list (list Z)) (s : finsh_shell) : Prop := {
  en_stat : stat s = WAIT_NORMAL;
  en_echo : echo_mode s = true;
  en_history : Forall text_ok h;
  en_rows : exists rest, cmd_history s = (padded <$> h) ++ rest /\ length (cmd_history s) = 5%nat;
  en_count : history_count s = Z.of_nat (length h);
  en_current : current_history s = Z.of_nat (length h);
}.

(** What a command leaves as it is. *)
Definition kept (s s' : finsh_shell) : Prop :=
  stat s' = stat s /\ echo_mode s' = echo_mode s /\ cmd_history s' = cmd_history s /\ history_count s' = history_count s /\ current_history s' = current_history s.

(** What the thread promises to the callee: [msh_exec] begins on a new row, with the line. *)
Definition call_pre (m : bool) (c : shell_call) (s : finsh_shell) : Prop :=
  match c with
  | CallMsh cmd n => m = true /\ (exists t, text_ok t /\ cmd = padded t /\ n = Z.of_nat (length t)) /\ line s = cmd /\ screen (console s) = mkTerm [] 0
  | CallFinsh _ => m = false
  | CallNone => screen (console s) = mkTerm [] 0
  end.

(** A command ends with a row of its own, and the mode stays. *)
Definition exec_ok (m : bool) (exec : shell_call -> SM unit) : Prop :=
  forall c s, (exists p, prompts p m s) -> call_pre m c s ->
    wp (exec c) (fun _ s' => kept s s' /\ screen (console s') = mkTerm [] 0 /\ exists p, prompts p m s') s.

(** ** The end of a line *)

Section enter.
Context (m : bool).

Lemma padded_inj t u : text_ok t -> text_ok u -> padded t = padded u -> t = u.
Proof.
  intros [Ht1 Ht2] [Hu1 Hu2] E. pose proof (c_string_padded t Ht2 Ht1) as E1. rewrite E, (c_string_padded u Hu2 Hu1) in E1. by simplify_eq.
Qed.

Lemma same_row t u : text_ok t -> text_ok u -> bool_decide (padded t = padded u) = bool_decide (t = u).
Proof. intros Ht Hu. apply bool_decide_ext. split; [by apply padded_inj|by intros ->]. Qed.

Lemma take_padded t : take (length t) (padded t) = t.
Proof. unfold padded. by rewrite take_app_length. Qed.

Lemma rows_history e s i : holds_editor e s -> (S i = length (history e))%nat ->
  exists t, last (history e) = Some t /\ cmd_history s !! i = Some (padded t) /\ text_ok t.
Proof.
  intros He Hi. destruct (history_row e s i He ltac:(lia)) as [Hr Ht]. exists (nth i (history e) []). split; [|done].
  rewrite last_lookup, <- Hi. simpl. destruct (lookup_lt_is_Some_2 (history e) i ltac:(lia)) as [t Hl]. by rewrite (nth_lookup_Some _ _ _ _ Hl).
Qed.

(** A line is put into the row behind [rows]. *)
Lemma wp_history_put i t rows x rest s (Q : unit -> finsh_shell -> Prop) :
  i = Z.of_nat (length rows) -> text_ok t -> line s = padded t -> line_position s = Z.of_nat (length t) -> cmd_history s = rows ++ x :: rest ->
  Q tt (set_cmd_history (rows ++ padded t :: rest) s) -> wp (history_put i) Q s.
Proof.
  intros -> [Hlen _] Hl Hp Hr HQ. unfold history_put, history_get. rewrite wp_bind, wp_getso. exists x. split.
  - rewrite (proj2 (Z.leb_le 0 _)) by lia. rewrite Nat2Z.id, Hr. by apply list_lookup_middle.
  - rewrite wp_bind, wp_gets, wp_modify. cbn [id]. rewrite Hl, Hp, !Nat2Z.id, take_padded, Hr.
    replace (Z.to_nat (FINSH_CMD_SIZE - Z.of_nat (length t))) with (80 - length t)%nat by lia.
    rewrite <- (Nat.add_0_r (length rows)), insert_app_r in *. exact HQ.
Qed.

Definition set_history (c n : Z) (rows : list (list Z)) (s : finsh_shell) : finsh_shell := set_current_history c (set_history_count n (set_cmd_history rows s)).

Lemma set_history_id s : s = set_history (current_history s) (history_count s) (cmd_history s) s.
Proof. by destruct s. Qed.

Lemma push_new e : text_of e ≠ [] -> last (history e) ≠ Some (text_of e) -> (length (history e) <= 5)%nat ->
  push e = drop (length (history e) - 4) (history e) ++ [text_of e].
Proof.
  intros Ht Hl Hn. unfold push. rewrite !bool_decide_eq_false_2 by done. simpl. rewrite length_app. simpl.
  replace (length (history e) + 1 - 5)%nat with (length (history e) - 4)%nat by lia. rewrite drop_app_le by lia. done.
Qed.

(** The state before [current_history] is set to the end of the history. *)
Definition pushed (e : editor) (s s' : finsh_shell) : Prop :=
  entered (push e) (set_current_history (history_count s') s') /\ exists c n rows, s' = set_history c n rows s.

Lemma pushed_intro e s h rest c n rows s' : stat s = WAIT_NORMAL -> echo_mode s = true -> Forall text_ok h -> rows = (padded <$> h) ++ rest -> length rows = 5%nat ->
  push e = h -> n = Z.of_nat (length h) -> s' = set_history c n rows s -> pushed e s s'.
Proof. intros ? ? ? ? ? Hh -> ->. subst h. split; [|by do 3 eexists]. split; try done. by exists rest. Qed.

Lemma pushed_same e s : holds_editor e s -> push e = history e -> pushed e s s.
Proof. intros [? ? _ _ _ _ ? (rest & ? & ?) ? _ _] E. by eapply pushed_intro, set_history_id. Qed.

Lemma history_most e s : holds_editor e s -> (length (history e) <= 5)%nat.
Proof. intros [_ _ _ _ _ _ _ (rest & E & H5) _ _ _]. rewrite E, length_app, length_fmap in H5. lia. Qed.

(** There is room for one row more. *)
Lemma wp_push_room e s : holds_editor e s -> (length (history e) < 5)%nat -> push e = history e ++ [text_of e] ->
  wp (modify (set_current_history (history_count s));; history_put (history_count s);; modify (set_history_count (u16 (history_count s + 1)))) (fun _ => pushed e s) s.
Proof.
  intros [? ? ? ? ? _ ? (rest & Hr & H5) Hcnt _ _] Hroom Epush. destruct rest as [|x rest]; [rewrite Hr, length_app, length_fmap in H5; simpl in H5; lia|].
  rewrite wp_bind, wp_modify, wp_bind. apply (wp_history_put _ (text_of e) (padded <$> history e) x rest); [by rewrite length_fmap|done..|].
  rewrite wp_modify. eapply (pushed_intro e s (history e ++ [text_of e]) rest (history_count s) (u16 (history_count s + 1)) ((padded <$> history e) ++ padded (text_of e) :: rest)); [done|done| | | |exact Epush| |reflexivity].
  - apply Forall_app. split; [done|by constructor].
  - by rewrite fmap_app, <- app_assoc.
  - by rewrite <- H5, Hr, !length_app.
  - rewrite Hcnt, length_app. change 1 with (Z.of_nat 1). rewrite <- Nat2Z.inj_add. apply uwrap_small. simpl. lia.
Qed.

(** The rows are moved, and the oldest line is lost. *)
Lemma wp_push_full e s : holds_editor e s -> length (history e) = 5%nat -> push e = drop 1 (history e) ++ [text_of e] ->
  wp (modify (fun s => set_cmd_history (drop 1 (cmd_history s) ++ drop (Z.to_nat (FINSH_HISTORY_LINES - 1)) (cmd_history s)) s);;
      history_put (FINSH_HISTORY_LINES - 1);; modify (set_history_count FINSH_HISTORY_LINES)) (fun _ => pushed e s) s.
Proof.
  intros [? ? ? ? ? _ ? (rest & Hr & H5) Hcnt _ _] E5 Epush. rewrite wp_bind, wp_modify, wp_bind.
  assert (length (drop 1 (cmd_history s)) = 4%nat) as E4 by (rewrite length_drop; lia).
  assert (exists x, drop (Z.to_nat (FINSH_HISTORY_LINES - 1)) (cmd_history s) = [x]) as [x ->].
  { clear -H5. by destruct (cmd_history s) as [|? [|? [|? [|? [|x []]]]]]; [..|exists x|]. }
  apply (wp_history_put _ (text_of e) (drop 1 (cmd_history s)) x []); [by rewrite E4|done..|]. rewrite wp_modify.
  eapply (pushed_intro e s (drop 1 (history e) ++ [text_of e]) [] (current_history s) 5 (drop 1 (cmd_history s) ++ [padded (text_of e)])); [done|done| | | |exact Epush| |reflexivity].
  - apply Forall_app. split; [by apply Forall_drop|by constructor].
  - assert (rest = []) as -> by (rewrite Hr, length_app, length_fmap in H5; destruct rest; [done|simpl in H5; lia]).
    by rewrite Hr, fmap_app, fmap_drop, !app_nil_r.
  - by rewrite length_app, E4.
  - by rewrite length_app, length_drop, E5.
Qed.

(** The row of the last line tells whether it is the same. *)
Lemma wp_last_row {A} e s i (f : list Z -> SM A) Q : holds_editor e s -> (S i = length (history e))%nat ->
  (forall t, last (history e) = Some t -> text_ok t -> wp (f (padded t)) Q s) -> wp (l ← history_get (Z.of_nat i); f l) Q s.
Proof.
  intros He Hi H. destruct (rows_history e s i He Hi) as (t & Hlast & Hrow & Ht). rewrite wp_bind. unfold history_get. rewrite wp_getso.
  exists (padded t). split; [by rewrite (proj2 (Z.leb_le 0 _)), Nat2Z.id by lia|]. by apply H.
Qed.

Lemma push_same e : last (history e) = Some (text_of e) -> push e = history e.
Proof. intros E. unfold push. by rewrite E, (bool_decide_eq_true_2 (Some _ = _)), orb_true_r. Qed.

Lemma wp_push e s : holds_editor e s -> text_of e ≠ [] ->
  wp (if FINSH_HISTORY_LINES <=? history_count s then
       last ← history_get (FINSH_HISTORY_LINES - 1);
       when (negb (bool_decide (last = line s)))
         (modify (fun s => set_cmd_history (drop 1 (cmd_history s) ++ drop (Z.to_nat (FINSH_HISTORY_LINES - 1)) (cmd_history s)) s);;
          history_put (FINSH_HISTORY_LINES - 1);;
          modify (set_history_count FINSH_HISTORY_LINES))
     else
       same ← (if history_count s =? 0 then mret false else last ← history_get (history_count s - 1); mret (bool_decide (last = line s)));
       when (negb same)
         (modify (set_current_history (history_count s));;
          history_put (history_count s);;
          modify (set_history_count (u16 (history_count s + 1))))) (fun _ => pushed e s) s.
Proof.
  intros He Ht. pose proof He as [_ _ Htok Hl _ _ _ _ Hcnt _ _]. pose proof (history_most e s He) as Hle. pose proof (push_new e Ht) as Hpush.
  destruct (Z.leb_spec FINSH_HISTORY_LINES (history_count s)) as [Hfull|Hroom].
  - apply (wp_last_row e s 4); [done|lia|]. intros t Hlast Htok'. rewrite wp_when, Hl, same_row by done. destruct (decide (t = text_of e)) as [->|Hne].
    + right. split; [by rewrite bool_decide_eq_true_2|]. by apply pushed_same, push_same.
    + left. split; [by rewrite bool_decide_eq_false_2|]. apply wp_push_full; [done|lia|]. rewrite Hpush; [|congruence|lia]. by replace (length (history e)) with 5%nat by lia.
  - assert (last (history e) ≠ Some (text_of e) -> push e = history e ++ [text_of e]) as Hnew.
    { intros Hne. rewrite Hpush by (done || lia). by replace (length (history e) - 4)%nat with O by lia. }
    rewrite wp_bind. destruct (Z.eqb_spec (history_count s) 0) as [E|E].
    + rewrite wp_ret, wp_when. left. split; [done|]. apply wp_push_room; [done|lia|]. apply Hnew. by destruct (history e); [|simpl in Hcnt; lia].
    + replace (history_count s - 1) with (Z.of_nat (length (history e) - 1)) by lia. apply (wp_last_row e s); [done|lia|]. intros t Hlast Htok'.
      rewrite wp_ret, wp_when, Hl, same_row by done. destruct (decide (t = text_of e)) as [->|Hne].
      * right. split; [by rewrite bool_decide_eq_true_2|]. by apply pushed_same, push_same.
      * left. split; [by rewrite bool_decide_eq_false_2|]. apply wp_push_room; [done|lia|]. apply Hnew. congruence.
Qed.

Lemma wp_push_history e s : holds_editor e s ->
  wp shell_push_history (fun _ s' => entered (push e) s' /\ exists c n rows, s' = set_history c n rows s) s.
Proof.
  intros He. unfold shell_push_history. rewrite wp_bind, wp_gets, wp_bind. cbn [id]. apply wp_mono with (fun _ => pushed e s).
  - rewrite wp_when, (he_position _ _ He). destruct (decide (text_of e = [])) as [Ht|Ht].
    + right. rewrite Ht. split; [done|]. apply pushed_same; [done|]. unfold push. by rewrite Ht.
    + left. split; [|by apply wp_push]. destruct (text_of e); [done|]. by rewrite (proj2 (Z.eqb_neq _ _)) by (simpl; lia).
  - intros _ s' [Hen (c & n & rows & ->)]. rewrite wp_modify. split; [exact Hen|by do 3 eexists].
Qed.

(** The shell_call of a complete line, with the history behind it; the cursor is on a new row for [msh_exec], and for the next prompt. *)
Lemma wp_key_enter p e s : shown p m e s -> (m = true \/ length (text_of e) < 79)%nat ->
  wp key_enter (fun r s' => r = Some (line_call m (text_of e)) /\ entered (push e) s' /\ prompts p m s' /\
    call_pre m (line_call m (text_of e)) s') s.
Proof.
  intros (He & [k Hs] & Hp) Hm. pose proof (he_text _ _ He) as Htext. unfold key_enter. rewrite wp_bind. eapply wp_mono; [by apply wp_push_history|]. cbv beta.
  intros _ s' [Hen (c & n & rows & ->)]. pose proof He as [_ Hecho [Hlen Hpr] Hl Hpos _ _ _ _ _ _]. set (s' := set_history c n rows s) in *.
  assert (prompts p m s') as Hp' by exact Hp. assert (line s' = padded (text_of e)) as Hl' by exact Hl.
  assert (echo_mode s' = true) as Hecho' by exact Hecho. assert (line_position s' = Z.of_nat (length (text_of e))) as Hpos' by exact Hpos.
  assert (screen (console s' ++ [[10]]) = mkTerm [] 0) as Hnl by (rewrite screen_app; done). clearbody s'.
  rewrite wp_bind, wp_gets. cbn [id]. rewrite (proj2 (proj2 (proj2 (proj2 Hp')))), Hecho', Hl', Hpos'. clear Hs Hp.
  assert (forall s'', s'' = set_console (console s' ++ [[10]]) s' -> entered (push e) s'' /\ prompts p m s'' /\ line s'' = line s' /\ screen (console s'') = mkTerm [] 0) as Hnew.
  { intros s'' ->. destruct Hen. done. }
  destruct m.
  - rewrite wp_bind, wp_when. left. split; [done|]. apply wp_kprintf; [simpl; lia|]. rewrite wp_ret. split; [done|]. destruct (Hnew _ eq_refl) as (H1 & H2 & H3 & H4).
    split; [exact H1|]. split; [exact H2|]. split; [done|]. split; [by exists (text_of e)|]. split; [by rewrite H3|exact H4].
  - destruct Hm as [|Hm]; [done|]. rewrite wp_bind. apply wp_line_put; [rewrite Hl', length_padded; lia|]. rewrite Hl', padded_snoc by done.
    unfold line_call. destruct (text_of e) as [|c0 t] eqn:Et.
    + simpl (negb _). cbv iota. rewrite wp_bind, wp_when. left. split; [done|]. apply wp_kprintf; [simpl; lia|]. rewrite wp_ret. split; [done|].
      destruct Hen. done.
    + rewrite <- Et in *. rewrite (proj2 (Z.eqb_neq _ _)) by (rewrite Et; simpl; lia). cbn [negb]. rewrite wp_bind. apply (wp_line_string 0 (text_of e ++ [59])).
      { cbn [drop line set_line]. apply c_string_padded; [by rewrite forallb_app, Hpr|rewrite length_app; simpl; lia]. }
      rewrite wp_ret. split; [done|]. destruct Hen. done.
Qed.

Lemma shown_fresh p h s s' : entered h s -> prompts p m s -> screen (console s) = mkTerm [] 0 ->
  s' = set_line_curpos 0 (set_line_position 0 (set_line no_line (set_console (console s ++ [p]) s))) -> shown p m (fresh_line h) s'.
Proof.
  intros [] Hp Hs ->. split; [|split; [|exact Hp]].
  - split; try done. split; [simpl; lia|done].
  - exists O. cbn. rewrite screen_app, Hs. cbn [foldl]. pose proof (display_text p [] [] [] (proj1 (proj2 Hp))) as E. cbn [app length] in E.
    rewrite <- (app_nil_r p) at 1. rewrite E, drop_nil. simpl. by rewrite Nat.add_0_r.
Qed.

Lemma wp_prompt {A} p (f : SM A) s Q : prompts p m s -> wp f Q (set_console (console s ++ [p]) s) ->
  wp (prompt ← finsh_get_prompt; kprintf_format prompt;; f) Q s.
Proof.
  intros (Hp & _ & Hfmt & Hlen & _) HQ. rewrite wp_bind. unfold finsh_get_prompt. rewrite wp_getso. exists p. split; [done|].
  unfold kprintf_format. rewrite wp_bind, wp_bind, wp_getso, Hfmt. exists tt. split; [done|]. apply wp_kprintf; [lia|done].
Qed.

Lemma wp_line_done p h s : entered h s -> prompts p m s -> screen (console s) = mkTerm [] 0 -> wp finsh_line_done (fun _ => shown p m (fresh_line h)) s.
Proof.
  intros Hen Hp Hs. unfold finsh_line_done. apply (wp_prompt p); [done|].
  rewrite wp_bind, !wp_modify. by apply (shown_fresh p h s).
Qed.

(** ** The loop *)

Context (shell_auto_complete : SM unit) (exec : shell_call -> SM unit).
Notation loop := (finsh_loop shell_auto_complete exec).

Lemma wp_loop_cons ch l Q s :
  wp (finsh_key shell_auto_complete ch) (fun r s' => wp (match r with None => loop l | Some c => finsh_call exec c;; finsh_line_done;; cs ← loop l; mret (c :: cs) end) Q s') s ->
  wp (loop (ch :: l)) Q s.
Proof. cbn [finsh_loop]. by rewrite wp_bind. Qed.

(** The three characters of a control key. *)
Lemma wp_loop_control ch (op : SM unit) l Q s :
  (ch, op) ∈ [(65, key_up); (66, key_down); (68, key_left); (67, key_right)] -> stat s = WAIT_NORMAL ->
  wp op (fun _ => wp (loop l) Q) s -> wp (loop (27 :: 91 :: ch :: l)) Q s.
Proof.
  intros Hin Hst Hop.
  assert (set_stat WAIT_NORMAL (set_stat WAIT_FUNC_KEY (set_stat WAIT_SPEC_KEY s)) = s) as E by (destruct s; simpl in *; by subst).
  apply wp_loop_cons. unfold finsh_key at 1. rewrite wp_bind, wp_gets. simpl (27 =? 27). cbv iota. rewrite wp_bind, wp_modify, wp_ret.
  apply wp_loop_cons. unfold finsh_key at 1. rewrite wp_bind, wp_gets. cbn [stat set_stat]. simpl (91 =? _). cbv iota. rewrite wp_bind, wp_modify, wp_ret.
  apply wp_loop_cons. unfold finsh_key at 1. rewrite wp_bind, wp_gets. cbn [stat set_stat].
  repeat (apply elem_of_cons in Hin as [Hin|Hin]; [injection Hin as -> ->; simpl (_ =? _); cbv iota; rewrite wp_bind, wp_modify, E, wp_bind;
    eapply wp_mono; [exact Hop|]; intros [] s' H; by rewrite wp_ret|]).
  by apply elem_of_nil in Hin.
Qed.

Lemma wp_loop_normal ch l Q s : stat s = WAIT_NORMAL -> ch ≠ 27 ->
  wp (key_normal shell_auto_complete ch) (fun r s' => wp (match r with None => loop l | Some c => finsh_call exec c;; finsh_line_done;; cs ← loop l; mret (c :: cs) end) Q s') s ->
  wp (loop (ch :: l)) Q s.
Proof.
  intros Hst Hch H. apply wp_loop_cons. unfold finsh_key. rewrite wp_bind, wp_gets, Hst. destruct (Z.eqb_spec ch 27); [done|exact H].
Qed.

Lemma key_normal_printable ch : printable ch = true -> key_normal shell_auto_complete ch = (key_char ch;; mret None).
Proof.
  intros H%printable_range. unfold key_normal.
  repeat match goal with |- context [ch =? ?n] => rewrite (proj2 (Z.eqb_neq ch n)) by lia end. done.
Qed.

Lemma wp_loop_key p e k l Q s : shown p m e s -> key_ok e k = true -> (forall s', shown p m (edit e k) s' -> wp (loop l) Q s') -> wp (loop (encode k ++ l)) Q s.
Proof.
  intros Hsh Hok HQ. pose proof (he_stat _ _ (proj1 Hsh)) as Hst.
  destruct k; cbn [encode app].
  - apply wp_loop_normal; [done|simpl in Hok; apply andb_true_iff in Hok as [H%printable_range _]; lia|].
    rewrite key_normal_printable by (by apply andb_true_iff in Hok as [? _]). rewrite wp_bind. eapply wp_mono; [by apply wp_key_char|].
    intros [] s' H. rewrite wp_ret. by apply HQ.
  - apply wp_loop_normal; [done|lia|]. unfold key_normal. simpl (8 =? _). cbn [orb]. cbv iota. rewrite wp_bind. eapply wp_mono; [by apply wp_key_backspace|].
    intros [] s' H. rewrite wp_ret. by apply HQ.
  - apply (wp_loop_control 68 key_left); [set_solver|done|]. eapply wp_mono; [by apply wp_key_left|]. intros [] s' H. by apply HQ.
  - apply (wp_loop_control 67 key_right); [set_solver|done|]. eapply wp_mono; [by apply wp_key_right|]. intros [] s' H. by apply HQ.
  - apply (wp_loop_control 65 key_up); [set_solver|done|]. eapply wp_mono; [by apply wp_key_up|]. intros [] s' H. by apply HQ.
  - apply (wp_loop_control 66 key_down); [set_solver|done|]. eapply wp_mono; [by apply wp_key_down|]. intros [] s' H. by apply HQ.
Qed.

Lemma wp_loop_keys p ks e l Q s : shown p m e s -> keys_ok e ks = true -> (forall s', shown p m (foldl edit e ks) s' -> wp (loop l) Q s') ->
  wp (loop (flat_map encode ks ++ l)) Q s.
Proof.
  revert e s. induction ks as [|k ks IH]; intros e s Hsh Hok HQ; [by apply HQ|]. simpl in Hok. apply andb_true_iff in Hok as [Hk Hks].
  cbn [flat_map]. rewrite <- app_assoc. eapply wp_loop_key; [exact Hsh|exact Hk|]. intros s' Hsh'. by eapply IH.
Qed.

Lemma wp_loop_enter p e l (Q : list shell_call -> finsh_shell -> Prop) s : exec_ok m exec -> shown p m e s -> (m = true \/ length (text_of e) < 79)%nat ->
  (forall p' s', shown p' m (fresh_line (push e)) s' -> wp (loop l) (fun cs => Q (line_call m (text_of e) :: cs)) s') -> wp (loop (13 :: l)) Q s.
Proof.
  intros Hexec Hsh Hm HQ. apply wp_loop_normal; [exact (he_stat _ _ (proj1 Hsh))|done|]. unfold key_normal. simpl (13 =? _). cbn [orb]. cbv iota.
  eapply wp_mono; [by apply (wp_key_enter p e)|]. intros r s1 (-> & Hen & Hp & Hpre). rewrite wp_bind.
  assert (forall p' s2, entered (push e) s2 -> prompts p' m s2 -> screen (console s2) = mkTerm [] 0 ->
    wp (finsh_line_done;; cs ← loop l; mret (line_call m (text_of e) :: cs)) Q s2) as Hdone.
  { intros p' s2 Hen2 Hp2 Hscr2. rewrite wp_bind. eapply wp_mono; [by apply (wp_line_done p' (push e))|]. intros [] s3 Hsh3. rewrite wp_bind.
    eapply wp_mono; [by eapply HQ|]. intros cs s4 HQ4. by rewrite wp_ret. }
  assert (line_call m (text_of e) ≠ CallNone -> wp (exec (line_call m (text_of e))) (fun _ s2 => wp (finsh_line_done;; cs ← loop l; mret (line_call m (text_of e) :: cs)) Q s2) s1) as Hcall.
  { intros _. eapply wp_mono; [by apply (Hexec _ s1); [exists p|]|]. intros [] s2 ((K1 & K2 & K3 & K4 & K5) & Hs2 & p' & Hp').
    apply (Hdone p'); [|done|done]. destruct Hen. split; congruence || (rewrite K3; done). }
  unfold finsh_call. destruct (line_call m (text_of e)); [by apply Hcall|by apply Hcall|]. rewrite wp_ret. by apply (Hdone p).
Qed.

Lemma wp_loop_lines lines h ks p s : exec_ok m exec -> shown p m (fresh_line h) s -> lines_ok m h lines = true -> keys_ok (fresh_line (lines_history h lines)) ks = true ->
  wp (loop (flat_map typed lines ++ flat_map encode ks))
    (fun cs s' => cs = lines_calls m h lines /\ exists p', shown p' m (foldl edit (fresh_line (lines_history h lines)) ks) s') s.
Proof.
  intros Hexec. revert h p s. induction lines as [|ks0 lines IH]; intros h p s Hsh Hok Hks.
  - cbn [flat_map app]. rewrite <- (app_nil_r (flat_map encode ks)). eapply wp_loop_keys; [exact Hsh|exact Hks|]. intros s' Hsh'. cbn [finsh_loop]. rewrite wp_ret.
    split; [done|by exists p].
  - simpl in Hok. unfold line_ok in Hok. apply andb_true_iff in Hok as [[Hk0 Hlen]%andb_true_iff Hlines]. cbn [flat_map]. unfold typed at 1. rewrite <- !app_assoc.
    eapply wp_loop_keys; [exact Hsh|exact Hk0|]. intros s1 Hsh1. cbn [app]. eapply wp_loop_enter; [exact Hexec|exact Hsh1| |].
    { apply orb_true_iff in Hlen as [Hm|Hm]; [by left|right; by apply Nat.ltb_lt]. }
    intros p' s2 Hsh2. eapply wp_mono; [by apply (IH (push (foldl edit (fresh_line h) ks0)) p')|]. intros cs s3 [-> H]. by split.
Qed.
End enter.

(** ** The thread *)

(** The shell before its thread runs: [finsh_system_init] clears it. *)
Record initial (p : list Z) (m : bool) (s : finsh_shell) : Prop := {
  in_stat : stat s = WAIT_NORMAL;
  in_rows : cmd_history s = replicate 5 no_line;
  in_count : history_count s = 0;
  in_current : current_history s = 0;
  in_line : line s = no_line;
  in_position : line_position s = 0;
  in_curpos : line_curpos s = 0;
  in_console : screen (console s) = mkTerm [] 0;
  in_prompts : prompts p m s;
}.

(** The calls of the thread, for any [exec]. *)
Lemma wp_thread_entry shell_auto_complete exec p m lines ks s :
  initial p m s -> exec_ok m exec -> lines_ok m [] lines = true -> keys_ok (fresh_line (lines_history [] lines)) ks = true ->
  wp (finsh_thread_entry shell_auto_complete exec (flat_map typed lines ++ flat_map encode ks))
    (fun cs s' => cs = lines_calls m [] lines /\ exists p', shown p' m (foldl edit (fresh_line (lines_history [] lines)) ks) s') s.
Proof.
  intros [] Hexec Hlines Hks. unfold finsh_thread_entry. rewrite wp_bind, wp_modify. apply (wp_prompt m p); [exact in_prompts0|]. apply (wp_loop_lines _ _ _ _ _ _ p); try done.
  assert (entered [] (set_echo_mode true s)) as Hen by (split; try done; exists (replicate 5 no_line); cbn; by rewrite in_rows0).
  apply (shown_fresh m p [] (set_echo_mode true s)); [done|exact in_prompts0|done|]. destruct s; simpl in *; by subst.
Qed.

(** ** Sessions *)

Definition start (m : bool) : finsh_shell :=
  mkShell WAIT_NORMAL false true 0 0 (replicate 5 no_line) no_line 0 0 None m [47] [].

Definition keys_of (l : list Z) : list key := KChar <$> l.

(** A command that prints an empty line. *)
Definition silent : shell_call -> SM unit := fun _ => kprintf [10].

(** A line of 79 characters has no room for its semicolon and a NUL: [finsh_run_line] reads behind the array. *)
Example finsh_line_without_nul : finsh_thread_entry (mret tt) silent (replicate 79 97 ++ [13]) (start false) = None.
Proof. vm_compute. reflexivity. Qed.

(** The 80th character makes the line empty, but not the array: the next line of finsh has the characters behind it. *)
Example finsh_line_stale : finsh_thread_entry (mret tt) silent (replicate 80 97 ++ [98; 13]) (start false) = None.
Proof. vm_compute. reflexivity. Qed.

Example msh_line_stale : option_map fst (finsh_thread_entry (mret tt) silent (replicate 80 97 ++ [98; 13]) (start true)) = Some [CallMsh (98 :: replicate 79 97) 1].
Proof. vm_compute. reflexivity. Qed.

(** A path of 124 characters is not followed by a NUL in the prompt. *)
Example prompt_overrun (p : list Z) : length p = 124%nat -> prompt_text (mkShell WAIT_NORMAL true true 0 0 [] [] 0 0 None true p []) = None.
Proof. intros Hp. unfold prompt_text. simpl. by rewrite Hp. Qed.

(** A per cent sign in the path is a conversion of the format. *)
Example prompt_conversion : finsh_line_done (mkShell WAIT_NORMAL true true 0 0 [] no_line 0 0 None true [47; 97; 37; 100] []) = None.
Proof. vm_compute. reflexivity. Qed.
