(* ===== verification/Msh.v ===== *)
(** The commands of the module shell (components/finsh/msh.c): the arguments of a line, the command that it names, and the completion of its name. *)

From S2P Require Import Prelude FinshDef FinshToken Shell.

Abbreviation FINSH_ARG_MAX := 8.

(** [struct finsh_syscall] of the table, with the text of its description. *)
Record msh_syscall := mkCommand { cmd_name : list Z; cmd_func : Z; cmd_desc : list Z }.

Definition CMD_PREFIX : list Z := [95; 95; 99; 109; 100; 95].
Definition TOO_MANY_ARGS : list Z :=
  [84; 111; 111; 32; 109; 97; 110; 121; 32; 97; 114; 103; 115; 32; 33; 32; 87; 101; 32; 111; 110; 108; 121; 32; 85; 115; 101; 58; 10].
Definition NOT_FOUND : list Z := [58; 32; 99; 111; 109; 109; 97; 110; 100; 32; 110; 111; 116; 32; 102; 111; 117; 110; 100; 46; 10].
Definition HELP : list Z :=
  [82; 84; 45; 84; 104; 114; 101; 97; 100; 32; 115; 104; 101; 108; 108; 32; 99; 111; 109; 109; 97; 110; 100; 115; 58; 10].

Definition blank_char (c : Z) : bool := (c =? 32) || (c =? 9).

(** The compared parts of [strncmp(a, b, n) == 0], for [a] with its NUL; [None] is a read behind one of them. *)
Fixpoint strncmp_same (n : nat) (a b : list Z) : option bool :=
  match n, a, b with
  | O, _, _ => Some true
  | S n, x :: a, y :: b => if x =? y then if x =? 0 then Some true else strncmp_same n a b else Some false
  | _, _, _ => None
  end.

(** ** The arguments

    [cmd] is the index of the command in the line of the shell. *)

(** [cmd[pos]] *)
Definition cmd_get (cmd pos : Z) : SM Z := line_get (cmd + pos).

Fixpoint strip_blanks (fuel : nat) (cmd pos length : Z) : SM Z :=
  match fuel with
  | O => rt_panic
  | S fuel =>
      c ← cmd_get cmd pos;
      if blank_char c && (pos <? length) then line_put (cmd + pos) 0;; strip_blanks fuel cmd (pos + 1) length else mret pos
  end.

Fixpoint skip_string (fuel : nat) (cmd pos length : Z) : SM Z :=
  match fuel with
  | O => rt_panic
  | S fuel =>
      c ← cmd_get cmd pos;
      if negb (c =? 34) && (pos <? length) then
        pos ← (if c =? 92 then c' ← cmd_get cmd (pos + 1); mret (if c' =? 34 then pos + 1 else pos) else mret pos);
        skip_string fuel cmd (pos + 1) length
      else mret pos
  end.

Fixpoint skip_word (fuel : nat) (cmd pos length : Z) : SM Z :=
  match fuel with
  | O => rt_panic
  | S fuel =>
      c ← cmd_get cmd pos;
      if negb (blank_char c) && (pos <? length) then skip_word fuel cmd (pos + 1) length else mret pos
  end.

Fixpoint print_args (argv : list Z) : SM unit :=
  match argv with [] => mret tt | a :: argv => str ← line_string a; kprintf (str ++ [32]);; print_args argv end.

(** The loop of [msh_split]; [argv] holds the indices of the arguments. *)
Fixpoint split_loop (fuel : nat) (cmd pos length : Z) (argv : list Z) : SM (list Z) :=
  match fuel with
  | O => rt_panic
  | S fuel =>
      n ← gets (fun s => S (List.length (line s)));
      if pos <? length then
        pos ← strip_blanks n cmd pos length;
        if FINSH_ARG_MAX <=? Z.of_nat (List.length argv) then
          kprintf TOO_MANY_ARGS;; print_args argv;; kprintf [10];; mret argv
        else if length <=? pos then mret argv
        else
          c ← cmd_get cmd pos;
          if c =? 34 then
            let argv := argv ++ [cmd + (pos + 1)] in
            pos ← skip_string n cmd (pos + 1) length;
            if length <=? pos then mret argv
            else line_put (cmd + pos) 0;; split_loop fuel cmd (pos + 1) length argv
          else
            let argv := argv ++ [cmd + pos] in
            pos ← skip_word n cmd pos length;
            if length <=? pos then mret argv else split_loop fuel cmd pos length argv
      else mret argv
  end.

(** A round of the loop passes a character. *)
Definition msh_split (cmd length : Z) : SM (list Z) :=
  n ← gets (fun s => S (List.length (line s)));
  split_loop n cmd 0 length [].

(** ** Commands *)

Section commands.
Context (syscall_table : list msh_syscall).

Definition is_command (sc : msh_syscall) : option bool := strncmp_same 6 (cmd_name sc ++ [0]) (CMD_PREFIX ++ [0]).

(** [strncmp(&index->name[6], cmd, size) == 0 && index->name[6 + size] == '\0'] *)
Definition is_named (cmd : list Z) (size : Z) (sc : msh_syscall) : option bool :=
  let name := drop 6 (cmd_name sc) ++ [0] in
  same ← strncmp_same (Z.to_nat size) name cmd;
  if (same : bool) then c ← name !! Z.to_nat size; Some (c =? 0) else Some false.

(** The function of the first command of the name. *)
Fixpoint get_cmd (table : list msh_syscall) (cmd : list Z) (size : Z) : option (option Z) :=
  match table with
  | [] => Some None
  | sc :: table =>
      b ← is_command sc;
      if (b : bool) then
        found ← is_named cmd size sc;
        if (found : bool) then Some (Some (cmd_func sc)) else get_cmd table cmd size
      else get_cmd table cmd size
  end.

Definition msh_get_cmd (cmd size : Z) : SM (option Z) := getso (fun s => get_cmd syscall_table (drop (Z.to_nat cmd) (line s)) size).

(** The function of a command, with the strings of its arguments; [msh_exec_script] of the file system. *)
Context (cmd_call : Z -> list (list Z) -> SM Z) (msh_exec_script : Z -> Z -> SM Z).

Fixpoint arg_strings (argv : list Z) : SM (list (list Z)) :=
  match argv with [] => mret [] | a :: argv => str ← line_string a; l ← arg_strings argv; mret (str :: l) end.

(** [Some ret] is the result 0 of [_msh_exec_cmd] and [*retp]. *)
Definition _msh_exec_cmd (cmd length : Z) : SM (option Z) :=
  n ← gets (fun s => S (List.length (line s)));
  cmd0_size ← skip_word n cmd 0 length;
  if cmd0_size =? 0 then mret None
  else
    cmd_func ← msh_get_cmd cmd cmd0_size;
    match cmd_func with
    | None => mret None
    | Some f =>
        argv ← msh_split cmd length;
        if Z.of_nat (List.length argv) =? 0 then mret None
        else args ← arg_strings argv; r ← cmd_call f args; mret (Some r)
    end.

(** The blanks in front of a command; they are not counted against the length. *)
Fixpoint strip_front (fuel : nat) (cmd length : Z) : SM (Z * Z) :=
  match fuel with
  | O => rt_panic
  | S fuel => c ← line_get cmd; if blank_char c then strip_front fuel (cmd + 1) (u32 (length - 1)) else mret (cmd, length)
  end.

(** The first space or NUL. *)
Fixpoint first_space (fuel : nat) (p : Z) : SM Z :=
  match fuel with
  | O => rt_panic
  | S fuel => c ← line_get p; if negb (c =? 32) && negb (c =? 0) then first_space fuel (p + 1) else mret p
  end.

Definition msh_exec (cmd length : Z) : SM Z :=
  n ← gets (fun s => S (List.length (line s)));
  '(cmd, length) ← strip_front n cmd length;
  if length =? 0 then mret 0
  else
    ret ← _msh_exec_cmd cmd length;
    match ret with
    | Some ret => mret ret
    | None =>
        ret ← msh_exec_script cmd length;
        if (ret : Z) =? 0 then mret 0
        else
          tcmd ← first_space n cmd;
          line_put tcmd 0;;
          str ← line_string cmd;
          kprintf (str ++ NOT_FOUND);;
          mret (-1)
    end.

(** ** Completion *)

Fixpoint str_common (str1 str2 : list Z) : nat :=
  match str1, str2 with x :: str1, y :: str2 => if x =? y then S (str_common str1 str2) else O | _, _ => O end.

(** [%-16s - %s\n] *)
Definition help_line (sc : msh_syscall) : list Z :=
  let name := drop 6 (cmd_name sc) in name ++ replicate (16 - List.length name) 32 ++ [32; 45; 32] ++ cmd_desc sc ++ [10].

Fixpoint help_lines (table : list msh_syscall) : SM unit :=
  match table with
  | [] => mret tt
  | sc :: table => b ← getso (fun _ => is_command sc); when b (kprintf (help_line sc));; help_lines table
  end.

Definition msh_help : SM unit := kprintf HELP;; help_lines syscall_table;; kprintf [10].

(** The file system: [msh_auto_complete_path] on the string at an index. *)
Context (msh_auto_complete_path : Z -> SM unit).

(** The last space, behind the first character, and the end of the prefix. *)
Fixpoint complete_path (n : nat) : SM unit :=
  match n with
  | O => mret tt
  | S n' => c ← line_get (Z.of_nat n); if c =? 32 then msh_auto_complete_path (Z.of_nat n + 1) else complete_path n'
  end.

(** The commands with the prefix: the name of the first one, and the length of what all of them share with it. *)
Fixpoint complete_names (table : list msh_syscall) (prefix : list Z) (found : option (list Z * nat)) : SM (option (list Z * nat)) :=
  match table with
  | [] => mret found
  | sc :: table =>
      b ← getso (fun _ => is_command sc);
      if (b : bool) then
        let name := drop 6 (cmd_name sc) in
        same ← getso (fun _ => strncmp_same (List.length prefix) (prefix ++ [0]) (name ++ [0]));
        if (same : bool) then
          let '(name_ptr, min_length) := match found with Some (p, S n) => (p, S n) | _ => (name, List.length name) end in
          kprintf (name ++ [10]);;
          complete_names table prefix (Some (name_ptr, Nat.min (str_common name_ptr name) min_length))
        else complete_names table prefix found
      else complete_names table prefix found
  end.

(** [rt_strncpy(prefix, name_ptr, min_length)] of a string that is as long. *)
Definition line_copy (l : list Z) : SM unit :=
  getso (fun s => if (List.length l <=? List.length (line s))%nat then Some tt else None);;
  modify (fun s => set_line (l ++ drop (List.length l) (line s)) s).

Definition msh_auto_complete : SM unit :=
  prefix ← line_string 0;
  match prefix with
  | [] => msh_help
  | _ =>
      complete_path (List.length prefix);;
      prefix ← line_string 0;
      found ← complete_names syscall_table prefix None;
      match found with Some (name_ptr, min_length) => line_copy (take min_length name_ptr) | None => mret tt end
  end.

(** The symbols of finsh: [list_prefix] of cmd.c. *)
Context (list_prefix : SM unit).

Definition shell_auto_complete : SM unit :=
  kprintf [10];;
  msh ← gets msh_state;
  (if (msh : bool) then msh_auto_complete else list_prefix);;
  prompt ← finsh_get_prompt;
  str ← line_string 0;
  kprintf (prompt ++ str).
End commands.

Definition msh_exit : SM Z := modify (set_msh_state false);; mret 0.
Definition msh_enter : SM Z := modify (set_msh_state true);; mret 0.
