(* ===== verification/MshSpec.v ===== *)
(** What the module shell makes of a line: its words, the command that the first of them names, and what a tab completes. *)

From S2P Require Import Prelude FinshDef FinshToken Shell ShellEdit Msh.

(** ** Words *)

Fixpoint skip_blanks (t : list Z) : list Z := match t with c :: t' => if blank_char c then skip_blanks t' else t | [] => [] end.

(** Up to a blank. *)
Fixpoint span_word (t : list Z) : list Z * list Z :=
  match t with [] => ([], []) | c :: t' => if blank_char c then ([], t) else let '(w, r) := span_word t' in (c :: w, r) end.

(** Up to a quote without a backslash, which is dropped; without one, the string is the rest. *)
Fixpoint span_string (t : list Z) : list Z * option (list Z) :=
  match t with
  | [] => ([], None)
  | 34 :: t => ([], Some t)
  | 92 :: 34 :: t => let '(w, r) := span_string t in (92 :: 34 :: w, r)
  | c :: t => let '(w, r) := span_string t in (c :: w, r)
  end.

Fixpoint words_fuel (n : nat) (t : list Z) : list (list Z) :=
  match n with
  | O => []
  | S n =>
      match skip_blanks t with
      | [] => []
      | c :: t =>
          if c =? 34 then let '(w, r) := span_string t in w :: match r with Some r => words_fuel n r | None => [] end
          else let '(w, r) := span_word (c :: t) in w :: words_fuel n r
      end
  end.

(** Every word takes a character. *)
Definition msh_words (t : list Z) : list (list Z) := words_fuel (length t) t.

(** The command that a line names is the one of its first characters up to a blank. *)
Definition command_of (table : list msh_syscall) (t : list Z) : option Z :=
  cmd_func <$> List.find (fun sc => bool_decide (cmd_name sc = CMD_PREFIX ++ fst (span_word (skip_blanks t)))) table.

Definition names_ok (table : list msh_syscall) : Prop := Forall (fun sc => forallb printable (cmd_name sc) = true) table.

(** ** The parts of a line *)

Lemma skip_blanks_length t : (length (skip_blanks t) <= length t)%nat.
Proof. induction t as [|c t IH]; simpl; [lia|]. destruct (blank_char c); simpl; lia. Qed.

Lemma skip_blanks_suffix t : exists b, t = b ++ skip_blanks t.
Proof.
  induction t as [|c t [b E]]; [by exists []|]. simpl. destruct (blank_char c); [|by exists []]. exists (c :: b). simpl. by rewrite <- E.
Qed.

(** Behind a word there is a blank or the end. *)
Definition stops (t : list Z) : Prop := match t with [] => True | c :: _ => blank_char c = true end.

Lemma span_word_spec t : t = fst (span_word t) ++ snd (span_word t) /\ stops (snd (span_word t)) /\ forallb (fun c => negb (blank_char c)) (fst (span_word t)) = true.
Proof.
  induction t as [|c t (E & Hs & Hw)]; [done|]. simpl. destruct (blank_char c) eqn:Ec; [by simpl; rewrite Ec|]. destruct (span_word t) as [w r]. simpl in *.
  rewrite <- E, Ec. done.
Qed.

Lemma span_string_spec t : t = fst (span_string t) ++ match snd (span_string t) with Some r => 34 :: r | None => [] end.
Proof.
  assert (forall n t, (length t <= n)%nat -> t = fst (span_string t) ++ match snd (span_string t) with Some r => 34 :: r | None => [] end) as H; [|by eapply H].
  clear t. intros n. induction n as [|n IH]; intros [|c t] Hn; simpl in Hn; [done|lia|done|].
  destruct (decide (c = 34)) as [->|H34]; [done|]. destruct (decide (c = 92)) as [->|H92].
  - destruct t as [|c t]; [done|]. destruct (decide (c = 34)) as [->|Hc].
    + simpl. pose proof (IH t ltac:(simpl in *; lia)) as E. destruct (span_string t) as [w r]. simpl in *. by rewrite <- E.
    + assert (span_string (92 :: c :: t) = let '(w, r) := span_string (c :: t) in (92 :: w, r)) as ->.
      { destruct c as [|c|c]; try done. do 6 (destruct c as [c|c|]; try done). }
      pose proof (IH (c :: t) ltac:(simpl in *; lia)) as E. destruct (span_string (c :: t)) as [w r]. simpl in *. by rewrite <- E.
  - assert (span_string (c :: t) = let '(w, r) := span_string t in (c :: w, r)) as ->.
    { destruct c as [|c|c]; try done. do 7 (destruct c as [c|c|]; try done). }
    pose proof (IH t ltac:(lia)) as E. destruct (span_string t) as [w r]. simpl in *. by rewrite <- E.
Qed.

Lemma span_word_length c t : blank_char c = false -> (length (snd (span_word (c :: t))) <= length t)%nat.
Proof.
  intros Hc. pose proof (proj1 (span_word_spec t)) as E. simpl. rewrite Hc. destruct (span_word t) as [w r]. simpl in *. rewrite E, length_app. lia.
Qed.

Lemma span_string_length t r : snd (span_string t) = Some r -> (length r < length t)%nat.
Proof. intros Hr. pose proof (span_string_spec t) as E. rewrite Hr in E. apply (f_equal length) in E. rewrite length_app in E. simpl in E. lia. Qed.

Lemma skip_blanks_head t c r : skip_blanks t = c :: r -> blank_char c = false.
Proof. induction t as [|d t IH]; [done|]. simpl. destruct (blank_char d) eqn:E; [done|]. by intros [= <- _]. Qed.

Lemma skip_blanks_idem t : skip_blanks (skip_blanks t) = skip_blanks t.
Proof. induction t as [|d t IH]; [done|]. simpl. destruct (blank_char d) eqn:E; [done|]. simpl. by rewrite E. Qed.

Lemma words_fuel_enough n m t : (length t <= n)%nat -> (length t <= m)%nat -> words_fuel n t = words_fuel m t.
Proof.
  revert m t. induction n as [|n IH]; intros [|m] t Hn Hm; [done|by destruct t; [|simpl in *; lia]|by destruct t; [|simpl in *; lia]|].
  cbn [words_fuel]. pose proof (skip_blanks_length t) as Hl. pose proof (skip_blanks_head t) as Hh. destruct (skip_blanks t) as [|c r]; [done|]. simpl in Hl.
  destruct (c =? 34).
  - pose proof (span_string_length r) as Hs. destruct (span_string r) as [w [o|]]; [|done]. f_equal. apply IH; specialize (Hs _ eq_refl); lia.
  - pose proof (span_word_length c r (Hh _ _ eq_refl)) as Hs. destruct (span_word (c :: r)) as [w o]. simpl in Hs. f_equal. apply IH; lia.
Qed.

Lemma msh_words_eq t : msh_words t =
  match skip_blanks t with
  | [] => []
  | c :: t =>
      if c =? 34 then fst (span_string t) :: match snd (span_string t) with Some r => msh_words r | None => [] end
      else fst (span_word (c :: t)) :: msh_words (snd (span_word (c :: t)))
  end.
Proof.
  unfold msh_words. pose proof (skip_blanks_length t) as Hl. pose proof (skip_blanks_head t) as Hh. destruct t as [|d t]; [done|].
  change (words_fuel (length (d :: t))) with (words_fuel (S (length t))). cbn [words_fuel].
  destruct (skip_blanks (d :: t)) as [|c r]; [done|]. simpl in Hl. destruct (c =? 34).
  - pose proof (span_string_length r) as Hs. destruct (span_string r) as [w [o|]]; [|done]. simpl. f_equal. apply words_fuel_enough; specialize (Hs _ eq_refl); lia.
  - pose proof (span_word_length c r (Hh _ _ eq_refl)) as Hs. destruct (span_word (c :: r)) as [w o]. cbn [fst snd] in *. f_equal. apply words_fuel_enough; lia.
Qed.

Lemma forallb_skip p t : forallb p t = true -> forallb p (skip_blanks t) = true.
Proof. destruct (skip_blanks_suffix t) as [b E]. rewrite E at 1. rewrite forallb_app. by intros [_ ?]%andb_true_iff. Qed.

Lemma msh_words_printable t : forallb printable t = true -> forallb (forallb printable) (msh_words t) = true.
Proof.
  assert (forall n t, (length t <= n)%nat -> forallb printable t = true -> forallb (forallb printable) (msh_words t) = true) as H; [|by eapply H].
  clear t. intros n. induction n as [|n IH]; intros t Hn Ht; [by destruct t; [|simpl in Hn; lia]|]. rewrite msh_words_eq.
  pose proof (skip_blanks_length t) as Hl. pose proof (skip_blanks_head t) as Hh. apply forallb_skip in Ht. destruct (skip_blanks t) as [|c r]; [done|].
  simpl in Hl, Ht. destruct (c =? 34).
  - apply andb_true_iff in Ht as [_ Ht]. rewrite (span_string_spec r), forallb_app in Ht. apply andb_true_iff in Ht as [Hw Hr]. cbn [forallb]. rewrite Hw.
    pose proof (span_string_length r) as Hs. destruct (snd (span_string r)) as [o|]; [|done]. simpl in Hr. apply IH; [|done]. specialize (Hs _ eq_refl). lia.
  - pose proof (span_word_length c r (Hh _ _ eq_refl)) as Hs. change (printable c && forallb printable r) with (forallb printable (c :: r)) in Ht.
    rewrite (proj1 (span_word_spec (c :: r))), forallb_app in Ht. apply andb_true_iff in Ht as [Hw Hr]. cbn [forallb]. rewrite Hw. apply IH; [lia|done].
Qed.

(** ** Names *)

Lemma strncmp_same_sym n a b : strncmp_same n a b = strncmp_same n b a.
Proof.
  revert a b. induction n as [|n IH]; intros [|x a] [|y b]; try done. simpl. destruct (Z.eqb_spec x y) as [->|Hne].
  - by rewrite Z.eqb_refl, IH.
  - by rewrite (proj2 (Z.eqb_neq _ _)).
Qed.

Lemma strncmp_prefix w a y : forallb printable w = true -> strncmp_same (length w) (a ++ [0]) (w ++ y) = Some (bool_decide (w `prefix_of` a)).
Proof.
  revert a. induction w as [|c w IH]; intros a Hw.
  - destruct (a ++ [0]); by rewrite bool_decide_eq_true_2 by apply prefix_nil.
  - simpl in Hw. apply andb_true_iff in Hw as [Hc%printable_range Hw]. destruct a as [|x a]; cbn [strncmp_same app length].
    + destruct (Z.eqb_spec 0 c); [lia|]. rewrite bool_decide_eq_false_2; [done|]. apply prefix_nil_not.
    + destruct (Z.eqb_spec x c) as [->|Hne].
      * destruct (Z.eqb_spec c 0); [lia|]. rewrite IH by done. f_equal. apply bool_decide_ext. split; [apply prefix_cons|apply prefix_cons_inv_2].
      * rewrite bool_decide_eq_false_2; [done|]. intros E%prefix_cons_inv_1. by subst.
Qed.

Lemma is_command_spec sc : is_command sc = Some (bool_decide (CMD_PREFIX `prefix_of` cmd_name sc)).
Proof. unfold is_command. apply (strncmp_prefix CMD_PREFIX _ [0]). done. Qed.

Lemma command_name sc : CMD_PREFIX `prefix_of` cmd_name sc -> cmd_name sc = CMD_PREFIX ++ drop 6 (cmd_name sc).
Proof. intros [l ->]. done. Qed.

Lemma is_named_spec w y sc : forallb printable w = true -> forallb printable (drop 6 (cmd_name sc)) = true ->
  is_named (w ++ y) (Z.of_nat (length w)) sc = Some (bool_decide (drop 6 (cmd_name sc) = w)).
Proof.
  intros Hw Hn. unfold is_named. rewrite Nat2Z.id, strncmp_prefix by done. cbn [mbind option_bind]. generalize dependent (drop 6 (cmd_name sc)). intros name Hn.
  case_bool_decide as Hp.
  - destruct Hp as [z ->]. rewrite <- app_assoc. rewrite lookup_app_r, Nat.sub_diag by done. rewrite forallb_app in Hn. apply andb_true_iff in Hn as [_ Hz].
    destruct z as [|c z]; simpl; f_equal.
    + by rewrite app_nil_r, bool_decide_eq_true_2.
    + simpl in Hz. apply andb_true_iff in Hz as [Hc%printable_range _]. rewrite bool_decide_eq_false_2; [by apply Z.eqb_neq; lia|].
      intros E. apply (f_equal length) in E. rewrite length_app in E. simpl in E. lia.
  - rewrite bool_decide_eq_false_2; [done|]. by intros ->; apply Hp.
Qed.

Lemma get_cmd_spec table w y : names_ok table -> forallb printable w = true ->
  get_cmd table (w ++ y) (Z.of_nat (length w)) = Some (cmd_func <$> List.find (fun sc => bool_decide (cmd_name sc = CMD_PREFIX ++ w)) table).
Proof.
  intros Ht Hw. induction Ht as [|sc table Hsc Ht IH]; [done|]. cbn [get_cmd List.find]. rewrite is_command_spec. cbn [mbind option_bind]. case_bool_decide as Hp.
  - pose proof (command_name sc Hp) as E. rewrite E, forallb_app in Hsc. apply andb_true_iff in Hsc as [_ Hsc]. rewrite is_named_spec by done. cbn [mbind option_bind].
    assert (bool_decide (cmd_name sc = CMD_PREFIX ++ w) = bool_decide (drop 6 (cmd_name sc) = w)) as ->.
    { apply bool_decide_ext. rewrite E at 1. split; [by intros ?%app_inv_head|by intros ->]. }
    by case_bool_decide.
  - rewrite (bool_decide_eq_false_2 (cmd_name sc = _)); [done|]. intros E. apply Hp. by exists w.
Qed.

(** ** The loops *)

(** The line is [P ++ rest ++ 0 :: post]: [P] is behind the position, and [rest] up to the length. *)
Definition at_rest (P rest post : list Z) (cmd pos length : Z) (s : finsh_shell) : Prop :=
  line s = P ++ rest ++ 0 :: post /\ cmd + pos = Z.of_nat (List.length P) /\ length = pos + Z.of_nat (List.length rest).

Section loops.
Context (post : list Z) (cmd length : Z).

Lemma wp_cmd_get P rest pos s (Q : Z -> finsh_shell -> Prop) : at_rest P rest post cmd pos length s ->
  Q (List.hd 0 rest) s -> wp (cmd_get cmd pos) Q s.
Proof.
  intros (Hl & Hp & _) HQ. unfold cmd_get, line_get. rewrite wp_getso, Hp. rewrite (proj2 (Z.leb_le 0 _)) by lia. rewrite Nat2Z.id, Hl.
  exists (List.hd 0 rest). split; [|done]. destruct rest as [|c r]; cbn [app]; by rewrite list_lookup_middle.
Qed.

Lemma at_rest_next P c rest pos s : at_rest P (c :: rest) post cmd pos length s -> at_rest (P ++ [c]) rest post cmd (pos + 1) length s.
Proof. intros (Hl & Hp & Hlen). split; [by rewrite Hl, <- app_assoc|]. rewrite length_app. simpl in *. lia. Qed.

Lemma at_rest_more P c rest pos s : at_rest P (c :: rest) post cmd pos length s -> (pos <? length) = true.
Proof. intros (_ & _ & Hlen). simpl in Hlen. apply Z.ltb_lt. lia. Qed.

Lemma at_rest_end P pos s : at_rest P [] post cmd pos length s -> (pos <? length) = false /\ (length <=? pos) = true.
Proof. intros (_ & _ & Hlen). simpl in Hlen. split; [apply Z.ltb_ge|apply Z.leb_le]; lia. Qed.

Lemma wp_put_rest P c rest pos s (Q : unit -> finsh_shell -> Prop) : at_rest P (c :: rest) post cmd pos length s ->
  (forall s', s' = set_line (P ++ 0 :: rest ++ 0 :: post) s -> at_rest (P ++ [0]) rest post cmd (pos + 1) length s' -> Q tt s') -> wp (line_put (cmd + pos) 0) Q s.
Proof.
  intros (Hl & Hp & Hlen) HQ. rewrite Hp. apply wp_line_put; [rewrite Hl, length_app; simpl; lia|].
  apply HQ; [by rewrite Hl, <- (Nat.add_0_r (List.length P)), insert_app_r|]. split; [|split]; [|rewrite ?length_app; simpl in *; lia..].
  cbn [line set_line]. rewrite Hl, <- (Nat.add_0_r (List.length P)), insert_app_r, <- app_assoc. done.
Qed.

(** The blanks become NULs. *)
Lemma wp_strip_blanks fuel P rest pos s (Q : Z -> finsh_shell -> Prop) : (List.length rest < fuel)%nat -> at_rest P rest post cmd pos length s ->
  (forall pos' P' l', at_rest P' (skip_blanks rest) post cmd pos' length (set_line l' s) ->
    (P' = P /\ rest = skip_blanks rest \/ exists y, P' = (P ++ [0]) ++ y) -> List.length l' = List.length (line s) -> Q pos' (set_line l' s)) ->
  wp (strip_blanks fuel cmd pos length) Q s.
Proof.
  revert P rest pos s. induction fuel as [|fuel IH]; intros P rest pos s Hf Hr HQ; [lia|]. cbn [strip_blanks]. rewrite wp_bind. eapply wp_cmd_get; [exact Hr|].
  assert (rest = skip_blanks rest -> Q pos s) as Hstop.
  { intros E. specialize (HQ pos P (line s)). rewrite <- E in HQ. assert (set_line (line s) s = s) as Es by (by destruct s). rewrite Es in HQ. apply HQ; [done|by left|done]. }
  destruct rest as [|c rest]; simpl hd.
  { change (blank_char 0) with false. rewrite andb_false_l, wp_ret. by apply Hstop. }
  rewrite (at_rest_more _ _ _ _ _ Hr), andb_true_r. cbn [skip_blanks] in *. destruct (blank_char c); [|rewrite wp_ret; by apply Hstop].
  rewrite wp_bind. eapply wp_put_rest; [exact Hr|]. intros s' -> Hr'. apply (IH (P ++ [0]) rest); [simpl in Hf; lia|exact Hr'|].
  intros pos' P' l' Hr2 HP Hlen. apply (HQ pos' P' l'); [exact Hr2| |].
  - right. destruct HP as [[-> _]|[y ->]]; [exists []; by rewrite app_nil_r|by exists ([0] ++ y); rewrite app_assoc].
  - rewrite Hlen. cbn [line set_line]. destruct Hr as (-> & _). rewrite !length_app. simpl. rewrite !length_app. done.
Qed.

Lemma wp_skip_word fuel P rest pos s (Q : Z -> finsh_shell -> Prop) : (List.length rest < fuel)%nat -> at_rest P rest post cmd pos length s ->
  (forall pos', pos' = pos + Z.of_nat (List.length (fst (span_word rest))) ->
    at_rest (P ++ fst (span_word rest)) (snd (span_word rest)) post cmd pos' length s -> Q pos' s) -> wp (skip_word fuel cmd pos length) Q s.
Proof.
  revert P rest pos. induction fuel as [|fuel IH]; intros P rest pos Hf Hr HQ; [lia|]. cbn [skip_word]. rewrite wp_bind. eapply wp_cmd_get; [exact Hr|].
  destruct rest as [|c rest]; simpl hd.
  { rewrite (proj1 (at_rest_end _ _ _ Hr)), andb_false_r, wp_ret. simpl in HQ. rewrite app_nil_r in HQ. apply HQ; [lia|exact Hr]. }
  rewrite (at_rest_more _ _ _ _ _ Hr), andb_true_r. cbn [span_word] in HQ. destruct (blank_char c); cbn [negb].
  { rewrite wp_ret. simpl in HQ. rewrite app_nil_r in HQ. apply HQ; [lia|exact Hr]. }
  apply (IH (P ++ [c]) rest); [simpl in Hf; lia|by apply at_rest_next|]. destruct (span_word rest) as [w r]. cbn [fst snd] in *. intros pos' -> Hr'.
  rewrite <- app_assoc in Hr'. simpl in *. apply HQ; [lia|exact Hr'].
Qed.

Lemma span_string_other c t : c ≠ 34 -> (c = 92 -> match t with c' :: _ => c' ≠ 34 | [] => True end) ->
  span_string (c :: t) = let '(w, r) := span_string t in (c :: w, r).
Proof.
  intros H34 H92. destruct (decide (c = 92)) as [->|Hc].
  - destruct t as [|d t]; [done|]. specialize (H92 eq_refl). destruct d as [|d|d]; try done. do 6 (destruct d as [d|d|]; try done).
  - destruct c as [|c|c]; try done. do 7 (destruct c as [c|c|]; try done).
Qed.

(** Behind a string: its quote, or the end. *)
Definition at_quote (t : list Z) : list Z := match snd (span_string t) with Some r => 34 :: r | None => [] end.

Lemma wp_skip_string fuel P rest pos s (Q : Z -> finsh_shell -> Prop) : (List.length rest < fuel)%nat -> at_rest P rest post cmd pos length s ->
  (forall pos', at_rest (P ++ fst (span_string rest)) (at_quote rest) post cmd pos' length s -> Q pos' s) -> wp (skip_string fuel cmd pos length) Q s.
Proof.
  unfold at_quote. revert P rest pos. induction fuel as [|fuel IH]; intros P rest pos Hf Hr HQ; [lia|]. cbn [skip_string]. rewrite wp_bind. eapply wp_cmd_get; [exact Hr|].
  destruct rest as [|c rest]; simpl hd.
  { rewrite (proj1 (at_rest_end _ _ _ Hr)), andb_false_r, wp_ret. simpl in HQ. rewrite app_nil_r in HQ. apply HQ. exact Hr. }
  rewrite (at_rest_more _ _ _ _ _ Hr), andb_true_r. destruct (Z.eqb_spec c 34) as [->|H34]; cbn [negb].
  { rewrite wp_ret. simpl in HQ. rewrite app_nil_r in HQ. apply HQ. exact Hr. }
  pose proof (at_rest_next _ _ _ _ _ Hr) as Hr1. rewrite wp_bind.
  assert ((c = 92 -> match rest with c' :: _ => c' ≠ 34 | [] => True end) -> wp (skip_string fuel cmd (pos + 1) length) Q s) as Hone.
  { intros H92. rewrite span_string_other in HQ by done. apply (IH (P ++ [c]) rest); [simpl in Hf; lia|exact Hr1|].
    intros pos' Hr'. apply HQ. destruct (span_string rest) as [w r]. cbn [fst snd] in *. by rewrite <- app_assoc in Hr'. }
  destruct (Z.eqb_spec c 92) as [->|H92]; [|rewrite wp_ret; by apply Hone].
  rewrite wp_bind. eapply wp_cmd_get; [exact Hr1|]. rewrite wp_ret. destruct rest as [|d rest]; [by apply Hone|]. simpl hd.
  destruct (Z.eqb_spec d 34) as [->|Hd]; [|by apply Hone].
  pose proof (at_rest_next _ _ _ _ _ Hr1) as Hr2. apply (IH ((P ++ [92]) ++ [34]) rest); [simpl in Hf; lia|exact Hr2|].
  intros pos' Hr'. apply HQ. cbn [span_string]. destruct (span_string rest) as [w r]. cbn [fst snd] in *. by rewrite <- !app_assoc in Hr'.
Qed.
End loops.

(** ** Arguments *)

(** The argument [w] is in the line, with its NUL. *)
Definition arg_in (l : list Z) (a : Z) (w : list Z) : Prop := exists p x, l = p ++ w ++ 0 :: x /\ a = Z.of_nat (length p).

Lemma arg_in_app l y a w : arg_in l a w -> arg_in (l ++ y) a w.
Proof. intros (p & x & -> & ->). exists p, (x ++ y). split; [|done]. by rewrite <- !app_assoc. Qed.

Lemma args_in_app l y argv ws : Forall2 (arg_in l) argv ws -> Forall2 (arg_in (l ++ y)) argv ws.
Proof. intros H. eapply Forall2_impl; [exact H|]. intros. by apply arg_in_app. Qed.

Lemma wp_arg_string a w s (Q : list Z -> finsh_shell -> Prop) : arg_in (line s) a w -> forallb printable w = true -> Q w s -> wp (line_string a) Q s.
Proof.
  intros (p & x & Hl & ->) Hw HQ. apply (wp_line_string _ w); [|done]. rewrite Hl, drop_app_length. by apply c_string_end.
Qed.

Lemma wp_arg_strings argv ws s (Q : list (list Z) -> finsh_shell -> Prop) :
  Forall2 (arg_in (line s)) argv ws -> forallb (forallb printable) ws = true -> Q ws s -> wp (arg_strings argv) Q s.
Proof.
  intros Ha. revert Q. induction Ha as [|a w argv ws Haw Ha IH]; intros Q Hws HQ; cbn [arg_strings]; [by rewrite wp_ret|].
  cbn [forallb] in Hws. apply andb_true_iff in Hws as [Hw Hws]. rewrite wp_bind. eapply wp_arg_string; [exact Haw|done|].
  rewrite wp_bind. apply IH; [done|]. by rewrite wp_ret.
Qed.

Lemma wp_kprintf_any l s (Q : unit -> finsh_shell -> Prop) : (forall out, Q tt (set_console (console s ++ out) s)) -> wp (kprintf l) Q s.
Proof. intros HQ. unfold kprintf. rewrite wp_modify. apply HQ. Qed.

Lemma wp_print_args argv ws s (Q : unit -> finsh_shell -> Prop) : Forall2 (arg_in (line s)) argv ws -> forallb (forallb printable) ws = true ->
  (forall out, Q tt (set_console (console s ++ out) s)) -> wp (print_args argv) Q s.
Proof.
  intros Ha. assert (exists l, l = line s) as [l El] by eauto. rewrite <- El in Ha. revert s El Q. induction Ha as [|a w argv ws Haw Ha IH]; intros s El Q Hws HQ; cbn [print_args].
  { rewrite wp_ret. specialize (HQ []). rewrite app_nil_r in HQ. by destruct s. }
  cbn [forallb] in Hws. apply andb_true_iff in Hws as [Hw Hws]. rewrite wp_bind. eapply wp_arg_string; [rewrite <- El; exact Haw|done|].
  rewrite wp_bind. apply wp_kprintf_any. intros out. apply IH; [exact El|done|]. intros out'. cbn [console set_console]. rewrite <- app_assoc. apply HQ.
Qed.

(** *** The loop of [msh_split]

    The arguments so far are in the line up to the position; the last one may still have its blank instead of a NUL. *)
Definition args_so_far (P rest : list Z) (argv : list Z) (ws : list (list Z)) : Prop :=
  Forall2 (arg_in P) argv ws \/ Forall2 (arg_in (P ++ [0])) argv ws /\ stops rest.

Lemma args_so_far_in P rest y argv ws : args_so_far P rest argv ws -> Forall2 (arg_in ((P ++ [0]) ++ y)) argv ws.
Proof. intros [H|[H _]]; [rewrite <- app_assoc|]; by apply args_in_app. Qed.

Section split.
Context (post : list Z) (cmd length : Z).

(** Too many arguments are told, with a line of its own. *)
Definition complains (ws out : list (list Z)) : Prop := out = [] \/ (8 <= List.length ws)%nat /\ exists o, out = o ++ [[10]].

(** What a split leaves: the arguments are in the line. *)
Definition split_post (Q : list Z -> finsh_shell -> Prop) (ws : list (list Z)) (s : finsh_shell) : Prop :=
  forall argv l' out, Forall2 (arg_in l') argv (take 8 ws) -> complains ws out -> List.length l' = List.length (line s) ->
    Q argv (set_console (console s ++ out) (set_line l' s)).

Lemma split_post_set Q ws l s : List.length l = List.length (line s) -> split_post Q ws s -> split_post Q ws (set_line l s).
Proof. intros Hl HQ argv l' out Ha Ho Hlen. apply HQ; [done|done|by rewrite Hlen]. Qed.

Lemma split_post_now (Q : list Z -> finsh_shell -> Prop) ws argv s : split_post Q ws s -> Forall2 (arg_in (line s)) argv ws -> (List.length ws <= 8)%nat -> Q argv s.
Proof.
  intros HQ Ha Hn. specialize (HQ argv (line s) []). rewrite take_ge in HQ by done.
  assert (set_console (console s ++ []) (set_line (line s) s) = s) as E by (rewrite app_nil_r; by destruct s). rewrite E in HQ. apply HQ; [done|by left|done].
Qed.

Lemma args_snoc l argv ws a w : Forall2 (arg_in l) argv ws -> arg_in l a w -> Forall2 (arg_in l) (argv ++ [a]) (ws ++ [w]).
Proof. intros. apply Forall2_app; [done|by constructor]. Qed.

(** A new argument, with its NUL behind it. *)
Lemma args_new P w x argv ws a : Forall2 (arg_in P) argv ws -> a = Z.of_nat (List.length P) -> Forall2 (arg_in (P ++ w ++ 0 :: x)) (argv ++ [a]) (ws ++ [w]).
Proof. intros Ha ->. apply args_snoc; [by apply args_in_app|by exists P, x]. Qed.

(** The blanks in front of a word are the NUL of the one before. *)
Lemma args_stripped P rest P' argv ws : rest ≠ [] -> args_so_far P rest argv ws ->
  (P' = P /\ rest = skip_blanks rest \/ exists y, P' = (P ++ [0]) ++ y) -> Forall2 (arg_in P') argv ws.
Proof.
  intros Hne Ha [[-> E]|[y ->]]; [|by eapply args_so_far_in]. destruct Ha as [Ha|[_ Hs]]; [done|]. destruct rest as [|c r]; [done|].
  symmetry in E. apply skip_blanks_head in E. simpl in Hs. congruence.
Qed.

(** The rest of a round, behind the blanks. *)
Definition split_round (fuel : nat) (n : nat) (pos : Z) (argv : list Z) : SM (list Z) :=
  if FINSH_ARG_MAX <=? Z.of_nat (List.length argv) then
    kprintf TOO_MANY_ARGS;; print_args argv;; kprintf [10];; mret argv
  else if length <=? pos then mret argv
  else
    c ← cmd_get cmd pos;
    if c =? 34 then
      let argv := argv ++ [cmd + (pos + 1)] in
      pos ← skip_string n cmd (pos + 1) length;
      if length <=? pos then mret argv
      else line_put (cmd + pos) 0;; split_loop fuel cmd (pos + 1) length argv
    else
      let argv := argv ++ [cmd + pos] in
      pos ← skip_word n cmd pos length;
      if length <=? pos then mret argv else split_loop fuel cmd pos length argv.

Lemma split_loop_eq fuel pos argv : split_loop (S fuel) cmd pos length argv =
  (n ← gets (fun s => S (List.length (line s)));
   if pos <? length then pos ← strip_blanks n cmd pos length; split_round fuel n pos argv else mret argv).
Proof. reflexivity. Qed.

Definition loop_ok (fuel : nat) : Prop := forall P rest pos argv ws s Q,
  (List.length rest < fuel)%nat -> at_rest P rest post cmd pos length s -> forallb printable rest = true -> forallb (forallb printable) ws = true ->
  args_so_far P rest argv ws -> (List.length ws <= 8)%nat -> split_post Q (ws ++ msh_words rest) s -> wp (split_loop fuel cmd pos length argv) Q s.

Lemma too_many_args P rest pos argv ws s Q : at_rest P rest post cmd pos length s -> forallb (forallb printable) ws = true ->
  Forall2 (arg_in P) argv ws -> List.length ws = 8%nat -> split_post Q (ws ++ msh_words rest) s ->
  wp (kprintf TOO_MANY_ARGS;; print_args argv;; kprintf [10];; mret argv) Q s.
Proof.
  intros (Hl & _) Hws Ha Hn HQ. assert (Forall2 (arg_in (line s)) argv ws) as Ha' by (rewrite Hl; by apply args_in_app).
  rewrite wp_bind. apply wp_kprintf_any. intros o1. rewrite wp_bind. apply (wp_print_args argv ws); [exact Ha'|done|]. intros o2.
  rewrite wp_bind. apply wp_kprintf; [simpl; lia|]. rewrite wp_ret. cbn [console set_console]. rewrite <- !app_assoc.
  refine (HQ argv (line s) (o1 ++ o2 ++ [[10]]) _ _ eq_refl).
  - rewrite take_app_le by lia. by rewrite take_ge by lia.
  - right. split; [rewrite length_app; lia|]. exists (o1 ++ o2). by rewrite <- app_assoc.
Qed.

Lemma string_round fuel n P rest pos argv ws s Q : loop_ok fuel -> (List.length rest < n)%nat -> (List.length rest < fuel)%nat ->
  at_rest P (34 :: rest) post cmd pos length s -> forallb printable rest = true -> forallb (forallb printable) ws = true -> Forall2 (arg_in P) argv ws -> (List.length ws < 8)%nat ->
  split_post Q (ws ++ msh_words (34 :: rest)) s ->
  wp (let argv := argv ++ [cmd + (pos + 1)] in
      pos ← skip_string n cmd (pos + 1) length;
      if length <=? pos then mret argv else line_put (cmd + pos) 0;; split_loop fuel cmd (pos + 1) length argv) Q s.
Proof.
  intros IH Hn Hf Hr Hpr Hws Ha H8 HQ. cbv zeta. pose proof (at_rest_next _ _ _ _ _ _ _ _ Hr) as Hr1. rewrite wp_bind. eapply wp_skip_string; [exact Hn|exact Hr1|].
  intros pos' Hr2. rewrite msh_words_eq in HQ. change (skip_blanks (34 :: rest)) with (34 :: rest) in HQ. cbv iota in HQ. rewrite Z.eqb_refl in HQ.
  pose proof (span_string_length rest) as Hsl. pose proof (span_string_spec rest) as Hsp. unfold at_quote in Hr2. set (w := fst (span_string rest)) in *.
  rewrite Hsp, forallb_app in Hpr. apply andb_true_iff in Hpr as [Hpw Hpr].
  assert (forall x, Forall2 (arg_in ((P ++ [34]) ++ w ++ 0 :: x)) (argv ++ [cmd + (pos + 1)]) (ws ++ [w])) as Hnew.
  { intros x. apply args_new; [by apply args_in_app|]. destruct Hr1 as (_ & -> & _). done. }
  assert (forallb (forallb printable) (ws ++ [w]) = true) as Hws' by (rewrite forallb_app, Hws; simpl; by rewrite Hpw).
  assert (List.length (ws ++ [w]) <= 8)%nat as H8' by (rewrite length_app; simpl; lia).
  destruct (snd (span_string rest)) as [r|].
  - rewrite (proj2 (Z.leb_gt _ _)) by (apply Z.ltb_lt; by eapply at_rest_more). rewrite wp_bind. eapply wp_put_rest; [exact Hr2|]. intros s' -> Hr3.
    apply (IH (((P ++ [34]) ++ w) ++ [0]) r _ _ (ws ++ [w])); [specialize (Hsl _ eq_refl); lia|exact Hr3|simpl in Hpr; done|done| |done|].
    + left. rewrite <- !app_assoc. specialize (Hnew []). by rewrite <- !app_assoc in Hnew.
    + rewrite <- app_assoc. apply split_post_set; [|exact HQ]. destruct Hr2 as (-> & _). rewrite !length_app. simpl. by rewrite !length_app.
  - rewrite (proj2 (at_rest_end _ _ _ _ _ _ Hr2)), wp_ret. apply (split_post_now Q (ws ++ [w])); [exact HQ| |done].
    destruct Hr2 as (-> & _). rewrite <- app_assoc. apply Hnew.
Qed.

Lemma word_round fuel n P c rest pos argv ws s Q : loop_ok fuel -> (List.length (c :: rest) < n)%nat -> (List.length rest < fuel)%nat -> blank_char c = false -> c ≠ 34 ->
  at_rest P (c :: rest) post cmd pos length s -> forallb printable (c :: rest) = true -> forallb (forallb printable) ws = true -> Forall2 (arg_in P) argv ws ->
  (List.length ws < 8)%nat -> split_post Q (ws ++ msh_words (c :: rest)) s ->
  wp (let argv := argv ++ [cmd + pos] in
      pos ← skip_word n cmd pos length;
      if length <=? pos then mret argv else split_loop fuel cmd pos length argv) Q s.
Proof.
  intros IH Hn Hf Hc H34 Hr Hpr Hws Ha H8 HQ. cbv zeta. rewrite wp_bind. eapply wp_skip_word; [exact Hn|exact Hr|]. intros pos' _ Hr2.
  rewrite msh_words_eq in HQ. cbn [skip_blanks] in HQ. rewrite Hc, (proj2 (Z.eqb_neq _ _) H34) in HQ.
  pose proof (span_word_length c rest Hc) as Hsl. destruct (span_word_spec (c :: rest)) as (Hsp & Hstop & _). set (w := fst (span_word (c :: rest))) in *.
  rewrite Hsp, forallb_app in Hpr. apply andb_true_iff in Hpr as [Hpw Hpr].
  assert (forall x, Forall2 (arg_in (P ++ w ++ 0 :: x)) (argv ++ [cmd + pos]) (ws ++ [w])) as Hnew by (intros x; apply args_new; [done|by destruct Hr as (_ & -> & _)]).
  assert (forallb (forallb printable) (ws ++ [w]) = true) as Hws' by (rewrite forallb_app, Hws; simpl; by rewrite Hpw).
  assert (List.length (ws ++ [w]) <= 8)%nat as H8' by (rewrite length_app; simpl; lia).
  destruct (snd (span_word (c :: rest))) as [|d r].
  - rewrite (proj2 (at_rest_end _ _ _ _ _ _ Hr2)), wp_ret. apply (split_post_now Q (ws ++ [w])); [exact HQ| |done].
    destruct Hr2 as (-> & _). rewrite <- app_assoc. apply Hnew.
  - rewrite (proj2 (Z.leb_gt _ _)) by (apply Z.ltb_lt; by eapply at_rest_more).
    apply (IH (P ++ w) (d :: r) _ _ (ws ++ [w])); [lia|exact Hr2|done|done| |done|by rewrite <- app_assoc].
    right. split; [|exact Hstop]. rewrite <- app_assoc. apply Hnew.
Qed.

Lemma wp_split_loop fuel : loop_ok fuel.
Proof.
  induction fuel as [|fuel IH]; intros P rest pos argv ws s Q Hf Hr Hpr Hws Hargs Hn HQ; [lia|]. rewrite split_loop_eq, wp_bind, wp_gets.
  destruct (decide (rest = [])) as [->|Hne].
  { rewrite (proj1 (at_rest_end _ _ _ _ _ _ Hr)), wp_ret. rewrite app_nil_r in HQ. apply (split_post_now Q ws); [exact HQ| |done].
    destruct Hr as (-> & _). apply (args_so_far_in P [] post) in Hargs. by rewrite <- app_assoc in Hargs. }
  assert ((pos <? length) = true) as -> by (destruct rest; [done|by eapply at_rest_more]). rewrite wp_bind.
  assert (List.length rest < S (List.length (line s)))%nat as Hfuel by (destruct Hr as (-> & _); rewrite !length_app; lia).
  eapply wp_strip_blanks; [exact Hfuel|exact Hr|]. intros pos' P' l' Hr' HP Hlen. pose proof (args_stripped P rest P' argv ws Hne Hargs HP) as Ha.
  pose proof (split_post_set _ _ l' s Hlen HQ) as HQ'. apply forallb_skip in Hpr. pose proof (skip_blanks_length rest) as Hsk. pose proof (skip_blanks_head rest) as Hh.
  assert (msh_words rest = msh_words (skip_blanks rest)) as Ewords.
  { by rewrite (msh_words_eq rest), (msh_words_eq (skip_blanks rest)), skip_blanks_idem. }
  rewrite Ewords in HQ'. unfold split_round. rewrite (Forall2_length _ _ _ Ha). destruct (Z.leb_spec FINSH_ARG_MAX (Z.of_nat (List.length ws))) as [H8|H8].
  { eapply too_many_args; [exact Hr'|done|exact Ha|lia|exact HQ']. }
  destruct (skip_blanks rest) as [|c r].
  { rewrite (proj2 (at_rest_end _ _ _ _ _ _ Hr')), wp_ret. rewrite app_nil_r in HQ'. apply (split_post_now Q ws); [exact HQ'| |lia].
    destruct Hr' as (-> & _). by apply args_in_app. }
  rewrite (proj2 (Z.leb_gt _ _)) by (apply Z.ltb_lt; by eapply at_rest_more). rewrite wp_bind. eapply wp_cmd_get; [exact Hr'|]. simpl hd.
  destruct (Z.eqb_spec c 34) as [->|H34].
  - eapply string_round; [exact IH| | |exact Hr'| |done|exact Ha|lia|exact HQ']; [simpl in *; lia..|]. simpl in Hpr. done.
  - eapply word_round; [exact IH| | |by eapply Hh|done|exact Hr'|done|done|exact Ha|lia|exact HQ']; simpl in *; lia.
Qed.
End split.

Lemma wp_msh_split pre t post s Q : line s = pre ++ t ++ 0 :: post -> forallb printable t = true -> split_post Q (msh_words t) s ->
  wp (msh_split (Z.of_nat (length pre)) (Z.of_nat (length t))) Q s.
Proof.
  intros Hl Ht HQ. unfold msh_split. rewrite wp_bind, wp_gets. apply (wp_split_loop post _ _ _ pre t 0 [] []).
  - rewrite Hl, !length_app. lia.
  - split; [done|]. split; lia.
  - done.
  - done.
  - left. constructor.
  - simpl. lia.
  - exact HQ.
Qed.
