(* ===== verification/MshExec.v ===== *)
(** The module shell runs the command that a line names with the words of the line, and completes a name. *)

From S2P Require Import Prelude FinshDef FinshToken Shell ShellEdit Msh MshSpec.

(** ** The execution of a line *)

Lemma wp_strip_front fuel pre t post s (Q : Z * Z -> finsh_shell -> Prop) : (length t < fuel)%nat -> (length t < 80)%nat ->
  line s = pre ++ t ++ 0 :: post ->
  (forall pre', line s = pre' ++ skip_blanks t ++ 0 :: post -> Q (Z.of_nat (length pre'), Z.of_nat (length (skip_blanks t))) s) ->
  wp (strip_front fuel (Z.of_nat (length pre)) (Z.of_nat (length t))) Q s.
Proof.
  revert pre t. induction fuel as [|fuel IH]; intros pre t Hf Ht Hl HQ; [lia|]. cbn [strip_front]. rewrite wp_bind. unfold line_get. rewrite wp_getso.
  exists (List.hd 0 t). split.
  { rewrite (proj2 (Z.leb_le 0 _)) by lia. rewrite Nat2Z.id, Hl. destruct t as [|c t]; cbn [app]; by rewrite list_lookup_middle. }
  destruct t as [|c t]; cbn [hd skip_blanks] in *.
  { change (blank_char 0) with false. rewrite wp_ret. by apply HQ. }
  destruct (blank_char c); [|rewrite wp_ret; by apply HQ]. replace (Z.of_nat (length pre) + 1) with (Z.of_nat (length (pre ++ [c]))) by (rewrite length_app; simpl; lia).
  replace (u32 (Z.of_nat (length (c :: t)) - 1)) with (Z.of_nat (length t)) by (symmetry; rewrite u32_small; simpl in *; lia).
  apply IH; [simpl in *; lia..|by rewrite Hl, <- app_assoc|]. intros pre' Hl'. by apply HQ.
Qed.

Lemma wp_first_space fuel pre w r s (Q : Z -> finsh_shell -> Prop) : (length w < fuel)%nat -> forallb printable w = true ->
  forallb (fun c => negb (blank_char c)) w = true -> (List.hd 0 r = 32 \/ List.hd 0 r = 0) -> r ≠ [] -> line s = pre ++ w ++ r ->
  Q (Z.of_nat (length (pre ++ w))) s -> wp (first_space fuel (Z.of_nat (length pre))) Q s.
Proof.
  revert pre w. induction fuel as [|fuel IH]; intros pre w Hf Hw Hb Hr Hne Hl HQ; [lia|]. cbn [first_space]. rewrite wp_bind. unfold line_get. rewrite wp_getso.
  exists (List.hd 0 (w ++ r)). split.
  { rewrite (proj2 (Z.leb_le 0 _)) by lia. rewrite Nat2Z.id, Hl. destruct w; [destruct r; [done|]|]; cbn [app hd]; by rewrite list_lookup_middle. }
  destruct w as [|c w]; cbn [app hd].
  - assert (negb (hd 0 r =? 32) && negb (hd 0 r =? 0) = false) as -> by (by destruct Hr as [-> | ->]). rewrite wp_ret. by rewrite app_nil_r in HQ.
  - simpl in Hw, Hb. apply andb_true_iff in Hw as [Hc%printable_range Hw], Hb as [Hb1 Hb]. unfold blank_char in Hb1. rewrite (proj2 (Z.eqb_neq c 0)) by lia.
    destruct (c =? 32); [done|]. cbn [negb andb]. replace (Z.of_nat (length pre) + 1) with (Z.of_nat (length (pre ++ [c]))) by (rewrite length_app; simpl; lia).
    apply (IH _ w); [simpl in Hf; lia|done|done|done|done|by rewrite Hl, <- app_assoc|]. by rewrite <- app_assoc.
Qed.

Section exec.
Context (table : list msh_syscall) (cmd_call : Z -> list (list Z) -> SM Z) (msh_exec_script : Z -> Z -> SM Z).
Context (Hnames : names_ok table).
Notation name_of t := (fst (span_word (skip_blanks t))).

(** A command is called with the words of the line; what it does is what the line does. *)
Definition runs_command (t : list Z) (f : Z) (Q : Z -> finsh_shell -> Prop) (s : finsh_shell) : Prop :=
  forall l' out, length l' = length (line s) -> complains (msh_words t) out ->
    wp (cmd_call f (take 8 (msh_words t))) Q (set_console (console s ++ out) (set_line l' s)).

Lemma forallb_take {A} (p : A -> bool) n l : forallb p l = true -> forallb p (take n l) = true.
Proof. intros H. rewrite <- (take_drop n l), forallb_app in H. by apply andb_true_iff in H as [? _]. Qed.

Lemma wp_msh_exec_cmd pre t post s Q : line s = pre ++ t ++ 0 :: post -> forallb printable t = true -> t ≠ [] -> skip_blanks t = t ->
  match command_of table t with Some f => runs_command t f (fun r => Q (Some r)) s | None => Q None s end ->
  wp (_msh_exec_cmd table cmd_call (Z.of_nat (length pre)) (Z.of_nat (length t))) Q s.
Proof.
  intros Hl Ht Hne Hskip HQ. unfold _msh_exec_cmd. rewrite wp_bind, wp_gets, wp_bind.
  eapply (wp_skip_word post _ _ _ pre t); [rewrite Hl, !length_app; simpl; lia|split; [exact Hl|split; lia]|]. intros size -> _. rewrite Z.add_0_l.
  destruct (span_word_spec t) as (Hsp & _ & _). pose proof (span_word_length) as Hsl. unfold command_of in HQ. rewrite Hskip in HQ.
  assert (fst (span_word t) ≠ []) as Hw.
  { destruct t as [|c r]; [done|]. apply skip_blanks_head in Hskip. simpl. rewrite Hskip. by destruct (span_word r). }
  set (w := fst (span_word t)) in *. rewrite (proj2 (Z.eqb_neq _ _)) by (destruct w; [done|simpl; lia]).
  rewrite Hsp, forallb_app in Ht. apply andb_true_iff in Ht as [Hpw Hpr]. rewrite wp_bind. unfold msh_get_cmd. rewrite wp_getso.
  eexists. split; [rewrite Nat2Z.id, Hl, drop_app_length, Hsp, <- app_assoc; by apply get_cmd_spec|].
  assert (forallb printable t = true) as Ht by (by rewrite Hsp, forallb_app, Hpw).
  destruct (cmd_func <$> _) as [f|]; [|by rewrite wp_ret]. rewrite wp_bind. apply (wp_msh_split pre t post); [done|done|].
  intros argv l' out Ha Ho Hlen. assert (msh_words t ≠ []) as Hws.
  { rewrite msh_words_eq, Hskip. destruct t as [|c r]; [done|]. by destruct (c =? 34). }
  rewrite (proj2 (Z.eqb_neq _ _)) by (rewrite (Forall2_length _ _ _ Ha), length_take; destruct (msh_words t); [done|simpl; lia]).
  rewrite wp_bind. eapply wp_arg_strings; [exact Ha|by apply forallb_take, msh_words_printable|]. rewrite wp_bind.
  eapply wp_mono; [by apply HQ|]. intros r s' H. by rewrite wp_ret.
Qed.

(** A line of blanks is nothing; a line that names a command runs it; another line is a script, or it is told that there is no such command. *)
Definition executes (t : list Z) (Q : Z -> finsh_shell -> Prop) (s : finsh_shell) : Prop :=
  if bool_decide (skip_blanks t = []) then Q 0 s
  else match command_of table t with
  | Some f => runs_command t f Q s
  | None =>
      wp (msh_exec_script (Z.of_nat (length t - length (skip_blanks t))) (Z.of_nat (length (skip_blanks t)))) (fun r s1 =>
        if r =? 0 then Q 0 s1
        else line s1 = line s /\ forall l', Q (-1) (set_console (console s1 ++ [name_of t ++ NOT_FOUND]) (set_line l' s1))) s
  end.

Lemma wp_msh_exec t s Q : text_ok t -> line s = padded t -> executes t Q s -> wp (msh_exec table cmd_call msh_exec_script 0 (Z.of_nat (length t))) Q s.
Proof.
  intros [Hlen Ht] Hl HQ. unfold msh_exec. rewrite wp_bind, wp_gets, wp_bind. rewrite padded_room in Hl by done.
  apply (wp_strip_front _ [] t (replicate (79 - length t) 0)); [rewrite Hl, length_app; simpl; lia|done|done|]. intros pre Hl'.
  pose proof (skip_blanks_idem t) as Hidem. unfold executes in HQ. assert (command_of table (skip_blanks t) = command_of table t) as Ecmd by (unfold command_of; by rewrite Hidem).
  assert (msh_words (skip_blanks t) = msh_words t) as Ewords by (by rewrite (msh_words_eq t), (msh_words_eq (skip_blanks t)), Hidem).
  pose proof (forallb_skip _ _ Ht) as Ht'. assert (length pre = length t - length (skip_blanks t))%nat as Hpre.
  { rewrite Hl in Hl'. apply (f_equal length) in Hl'. rewrite !length_app in Hl'. simpl in Hl'. lia. }
  pose proof (skip_blanks_length t) as Hsl. set (post := replicate (79 - length t) 0) in *. case_bool_decide as Hb.
  { rewrite (proj2 (Z.eqb_eq _ 0)) by (by rewrite Hb). by rewrite wp_ret. }
  rewrite (proj2 (Z.eqb_neq _ _)) by (destruct (skip_blanks t); [done|simpl; lia]). rewrite wp_bind. apply (wp_msh_exec_cmd pre _ post); [done|done|done|done|].
  unfold runs_command in *. rewrite Ecmd, Ewords. destruct (command_of table t) as [f|].
  { intros l' out Hlen' Ho. eapply wp_mono; [by apply HQ|]. intros r s' H. by rewrite wp_ret. }
  rewrite wp_bind, Hpre. eapply wp_mono; [exact HQ|]. cbv beta. intros r s1 Hr. destruct (r =? 0); [by rewrite wp_ret|]. destruct Hr as [Hl1 Hr].
  rewrite <- Hl1 in Hl'. destruct (span_word_spec (skip_blanks t)) as (Hsp & Hstop & Hnb). set (w := name_of t) in *. set (r' := snd (span_word (skip_blanks t))) in *.
  rewrite Hsp in Ht'. rewrite forallb_app in Ht'. apply andb_true_iff in Ht' as [Hpw Hpr].
  assert (line s1 = pre ++ w ++ (r' ++ 0 :: post)) as Hl2 by (rewrite Hl', Hsp at 1; by rewrite <- app_assoc).
  rewrite wp_bind, <- Hpre. eapply (wp_first_space _ pre w (r' ++ 0 :: post)); [rewrite <- Hl1, Hl2, !length_app; simpl; lia|done|done| |by destruct r'|exact Hl2|].
  { destruct r' as [|c r']; [by right|]. left. simpl in *. apply andb_true_iff in Hpr as [Hc%printable_range _]. unfold blank_char in Hstop.
    destruct (Z.eqb_spec c 32); [done|]. destruct (Z.eqb_spec c 9); [lia|done]. }
  rewrite wp_bind. apply wp_line_put; [rewrite Hl2, !length_app; destruct r'; simpl; lia|]. rewrite wp_bind.
  apply (wp_line_string _ w).
  { cbn [line set_line]. rewrite Hl2, app_assoc. rewrite <- (Nat.add_0_r (length (pre ++ w))), insert_app_r, <- app_assoc, drop_app_length.
    destruct r' as [|c r']; simpl; by apply c_string_end. }
  rewrite wp_bind. apply wp_kprintf; [|rewrite wp_ret; apply Hr]. rewrite length_app. apply (f_equal length) in Hsp. rewrite length_app in Hsp. simpl. lia.
Qed.

(** C38: A line that names a command calls its function with the words of the line, at most eight of them. *)
Theorem msh_exec_words t f s Q : text_ok t -> line s = padded t -> skip_blanks t ≠ [] -> command_of table t = Some f ->
  (forall l' out, length l' = length (line s) -> complains (msh_words t) out ->
    wp (cmd_call f (take 8 (msh_words t))) Q (set_console (console s ++ out) (set_line l' s))) ->
  wp (msh_exec table cmd_call msh_exec_script 0 (Z.of_nat (length t))) Q s.
Proof. intros Ht Hl Hne Hf HQ. apply wp_msh_exec; [done|done|]. unfold executes. by rewrite bool_decide_eq_false_2, Hf. Qed.
End exec.

(** [ls], a string with a blank in it, and a word with quotes in it. *)
Definition words_line : list Z := [32; 108; 115; 32; 34; 97; 32; 98; 34; 32; 99; 34; 100; 34; 32].

Example example_words : msh_words words_line = [[108; 115]; [97; 32; 98]; [99; 34; 100; 34]].
Proof. reflexivity. Qed.

Lemma msh_exec_words_witness :
  let table := [mkCommand (CMD_PREFIX ++ [108]) 5 []; mkCommand (CMD_PREFIX ++ [108; 115]) 7 []] in
  let shell_call f args := if bool_decide ((f, args) = (7, [[108; 115]; [97; 32; 98]; [99; 34; 100; 34]])) then mret 1 else rt_panic in
  wp (msh_exec table shell_call (fun _ _ => mret (-1)) 0 (Z.of_nat (length words_line))) (fun r _ => r = 1)
    (mkShell WAIT_NORMAL true true 0 0 [] (padded words_line) 15 15 None true [47] []).
Proof.
  intros table shell_call. apply (msh_exec_words table shell_call (fun _ _ => mret (-1)) ltac:(repeat constructor) words_line 7).
  - split; [simpl; lia|reflexivity].
  - reflexivity.
  - done.
  - reflexivity.
  - intros l' out _ _. reflexivity.
Defined.

(** Eight arguments with a blank behind them are said to be too many. *)
Example eight_arguments :
  let t := flat_map (fun c => [c; 32]) [97; 98; 99; 100; 101; 102; 103; 104] in
  option_map (fun r => (length (fst r), console (snd r)))
    (msh_split 0 (Z.of_nat (length t)) (mkShell WAIT_NORMAL true true 0 0 [] (padded t) 16 16 None true [47] [])) =
  Some (8%nat, TOO_MANY_ARGS :: ((fun c => [c; 32]) <$> [97; 98; 99; 100; 101; 102; 103; 104]) ++ [[10]]).
Proof. vm_compute. reflexivity. Qed.

(** A line of blanks that was made empty at its 80th character is not followed by a NUL: [msh_exec] reads behind the array. *)
Example blanks_overrun : msh_exec [] (fun _ _ => mret 0) (fun _ _ => mret (-1)) 0 0 (mkShell WAIT_NORMAL true true 0 0 [] (replicate 80 32) 0 0 None true [47] []) = None.
Proof. vm_compute. reflexivity. Qed.
