(* ===== verification/MshComplete.v ===== *)
(** The tab key of the module shell completes the name of a command. *)

From S2P Require Import Prelude FinshDef FinshToken Shell ShellEdit Msh MshSpec MshExec.

(** ** Common prefixes *)

Lemma str_common_le a b : (str_common a b <= length a)%nat.
Proof. revert b. induction a as [|x a IH]; intros [|y b]; simpl; try lia. destruct (x =? y); [|lia]. specialize (IH b). lia. Qed.

Lemma str_common_prefix a b : take (str_common a b) a `prefix_of` b.
Proof.
  revert b. induction a as [|x a IH]; intros [|y b]; try apply prefix_nil. simpl. destruct (Z.eqb_spec x y) as [->|]; [|apply prefix_nil]. simpl. by apply prefix_cons.
Qed.

Lemma str_common_most v a b : v `prefix_of` a -> v `prefix_of` b -> (length v <= str_common a b)%nat.
Proof.
  revert a b. induction v as [|x v IH]; intros a b Ha Hb; simpl; [lia|]. destruct a as [|y a]; [by apply prefix_nil_not in Ha|].
  destruct b as [|z b]; [by apply prefix_nil_not in Hb|]. pose proof (prefix_cons_inv_1 _ _ _ _ Ha) as ->. pose proof (prefix_cons_inv_1 _ _ _ _ Hb) as ->.
  simpl. rewrite Z.eqb_refl. apply prefix_cons_inv_2 in Ha, Hb. specialize (IH _ _ Ha Hb). lia.
Qed.

Lemma str_common_refl a : str_common a a = length a.
Proof. induction a as [|x a IH]; [done|]. simpl. by rewrite Z.eqb_refl, IH. Qed.

Lemma take_prefix {A} n (l : list A) : take n l `prefix_of` l.
Proof. exists (drop n l). by rewrite take_drop. Qed.

Lemma prefix_take {A} (v l : list A) n : v `prefix_of` l -> (length v <= n)%nat -> v `prefix_of` take n l.
Proof. intros [z ->] Hn. rewrite take_app_ge by done. by eexists. Qed.

(** [u] is the longest common prefix of the names. *)
Definition longest_common (names : list (list Z)) (u : list Z) : Prop :=
  (forall n, n ∈ names -> u `prefix_of` n) /\ forall v, (forall n, n ∈ names -> v `prefix_of` n) -> v `prefix_of` u.

(** The names of the commands that begin with [t]. *)
Definition candidates (table : list msh_syscall) (t : list Z) : list (list Z) :=
  filter (fun name => t `prefix_of` name) ((fun sc => drop 6 (cmd_name sc)) <$> filter (fun sc => CMD_PREFIX `prefix_of` cmd_name sc) table).

(** The first name and the length found so far. *)
Definition found_ok (names : list (list Z)) (found : option (list Z * nat)) : Prop :=
  match found with None => names = [] | Some (p, n) => names ≠ [] /\ (n <= length p)%nat /\ p ∈ names /\ longest_common names (take n p) end.

(** One more name. *)
Definition more (found : option (list Z * nat)) (name : list Z) : list Z * nat :=
  let '(name_ptr, min_length) := match found with Some (p, S n) => (p, S n) | _ => (name, length name) end in (name_ptr, Nat.min (str_common name_ptr name) min_length).

Lemma found_more names found name t : t ≠ [] -> (forall n, n ∈ names ++ [name] -> t `prefix_of` n) -> found_ok names found ->
  found_ok (names ++ [name]) (Some (more found name)).
Proof.
  intros Ht Hpre Hf. destruct found as [[p n]|].
  - destruct Hf as (Hne & Hn & Hp & Hall & Hmax). assert (t `prefix_of` take n p) as Htp by (apply Hmax; intros m Hm; apply Hpre; set_solver).
    destruct n as [|n]; [by apply prefix_nil_inv in Htp|]. assert (more (Some (p, S n)) name = (p, Nat.min (str_common p name) (S n))) as -> by done.
    pose proof (str_common_le p name).
    remember (Nat.min (str_common p name) (S n)) as k eqn:Hk. unfold found_ok. split; [by destruct names|]. split; [lia|]. split; [set_solver|]. assert (take k p = take k (take (S n) p)) as Ek by (rewrite take_take; f_equal; lia).
    split.
    + intros m [Hm|Hm]%elem_of_app; [|apply list_elem_of_singleton in Hm as ->].
      * rewrite Ek. etransitivity; [apply take_prefix|by apply Hall].
      * etransitivity; [|apply (str_common_prefix p name)]. apply prefix_take; [apply take_prefix|]. rewrite length_take. lia.
    + intros v Hv. apply prefix_take; [apply Hv; set_solver|]. rewrite Hk. apply Nat.min_glb.
      * apply str_common_most; apply Hv; set_solver.
      * assert (v `prefix_of` take (S n) p) as Hvp by (apply Hmax; intros m Hm; apply Hv; set_solver). apply prefix_length in Hvp. rewrite length_take in Hvp. lia.
  - rewrite Hf in *. assert (more None name = (name, Nat.min (str_common name name) (length name))) as -> by done. rewrite str_common_refl, Nat.min_id. split; [done|]. split; [done|]. split; [set_solver|]. rewrite take_ge by done. split.
    + intros m Hm. apply list_elem_of_singleton in Hm as ->. done.
    + intros v Hv. apply Hv. set_solver.
Qed.

Section complete.
Context (table0 : list msh_syscall) (msh_auto_complete_path : Z -> SM unit).

Definition short_names (table : list msh_syscall) : Prop := Forall (fun sc => (length (cmd_name sc) < 80)%nat) table.

Lemma wp_complete_names table t names found s (Q : option (list Z * nat) -> finsh_shell -> Prop) :
  names_ok table -> short_names table -> forallb printable t = true -> t ≠ [] -> (forall n, n ∈ names -> t `prefix_of` n) -> found_ok names found ->
  (forall r, found_ok (names ++ candidates table t) r -> Q r (set_console (console s ++ ((fun n => n ++ [10]) <$> candidates table t)) s)) ->
  wp (complete_names table t found) Q s.
Proof.
  intros Hok. revert names found s. induction Hok as [|sc table Hsc Hok IH]; intros names found s Hshort Ht Hne Hnames Hf HQ; cbn [complete_names].
  { rewrite wp_ret. unfold candidates in HQ. simpl in HQ. rewrite !app_nil_r in HQ. specialize (HQ _ Hf). by destruct s. }
  apply Forall_cons in Hshort as [Hlen Hshort]. rewrite wp_bind, wp_getso. eexists. split; [apply is_command_spec|].
  unfold candidates in HQ. rewrite filter_cons in HQ. case_bool_decide as Hp.
  - rewrite decide_True in HQ by done. rewrite fmap_cons, filter_cons in HQ. rewrite wp_bind, wp_getso. eexists. split.
    { rewrite strncmp_same_sym. apply (strncmp_prefix t (drop 6 (cmd_name sc)) [0] Ht). }
    case_bool_decide as Htp.
    + rewrite decide_True in HQ by done. set (name := drop 6 (cmd_name sc)) in *. assert (length name < 80)%nat as Hl by (unfold name; rewrite length_drop; lia).
      pose proof (found_more names found name t Hne) as Hmore. unfold more in Hmore.
      destruct (match found with Some (p, S n) => (p, S n) | _ => (name, length name) end) as [p n]. rewrite wp_bind. apply wp_kprintf; [rewrite length_app; simpl; lia|].
      assert (forall n, n ∈ names ++ [name] -> t `prefix_of` n) as Hnames' by (intros m [Hm|Hm]%elem_of_app; [by apply Hnames|by apply list_elem_of_singleton in Hm as ->]).
      apply (IH (names ++ [name])); [done|done|done|done|by apply Hmore|]. intros r Hr. cbn [console set_console]. rewrite <- app_assoc in Hr.
      specialize (HQ r Hr). rewrite fmap_cons in HQ. by rewrite <- app_assoc.
    + rewrite decide_False in HQ by done. by apply (IH names).
  - rewrite decide_False in HQ by done. by apply (IH names).
Qed.

Lemma wp_complete_path n t post s Q : line s = t ++ 0 :: post -> (n <= length t)%nat -> 32 ∉ t -> Q tt s -> wp (complete_path msh_auto_complete_path n) Q s.
Proof.
  intros Hl Hn H32 HQ. induction n as [|n IH]; cbn [complete_path]; [by rewrite wp_ret|]. rewrite wp_bind. unfold line_get. rewrite wp_getso.
  rewrite (proj2 (Z.leb_le 0 _)) by lia. rewrite Nat2Z.id, Hl. destruct (decide (S n < length t)%nat) as [Hlt|Hge].
  - rewrite lookup_app_l by done. destruct (lookup_lt_is_Some_2 t (S n) Hlt) as [c Hc]. exists c. split; [done|]. destruct (Z.eqb_spec c 32) as [->|]; [|by apply IH; lia].
    exfalso. apply H32. by eapply list_elem_of_lookup_2.
  - replace (S n) with (length t) by lia. exists 0. rewrite list_lookup_middle by done. split; [done|]. apply IH. lia.
Qed.

(** The text behind the completion: the longest common prefix of the candidates, which are printed. *)
Lemma wp_auto_complete t s Q : text_ok t -> t ≠ [] -> 32 ∉ t -> names_ok table0 -> short_names table0 -> line s = padded t ->
  (forall u, text_ok u -> (if bool_decide (candidates table0 t = []) then u = t else longest_common (candidates table0 t) u) ->
    Q tt (set_line (padded u) (set_console (console s ++ ((fun n => n ++ [10]) <$> candidates table0 t)) s))) ->
  wp (msh_auto_complete table0 msh_auto_complete_path) Q s.
Proof.
  intros [Hlen Ht] Hne H32 Hok Hshort Hl HQ. unfold msh_auto_complete. rewrite wp_bind. apply (wp_line_string 0 t); [rewrite Hl; by apply c_string_padded|].
  destruct t as [|c0 t0] eqn:Et; [done|]. rewrite <- Et in *. rewrite wp_bind. apply (wp_complete_path _ t (replicate (79 - length t) 0)); [by rewrite Hl, padded_room|done|done|].
  rewrite wp_bind. apply (wp_line_string 0 t); [rewrite Hl; by apply c_string_padded|]. rewrite wp_bind.
  apply (wp_complete_names _ t [] None); [done|done|done|done|set_solver|done|]. intros r Hr. cbn [app] in Hr. set (ns := candidates table0 t) in *.
  destruct r as [[p n]|]; cbn [found_ok] in Hr.
  - destruct Hr as (Hns & Hn & Hp & Hall). rewrite bool_decide_eq_false_2 in HQ by done. unfold ns, candidates in Hp. apply list_elem_of_filter in Hp as [_ Hp].
    apply list_elem_of_fmap in Hp as (sc & -> & Hsc). apply list_elem_of_filter in Hsc as [Hpre Hsc]. set (p := drop 6 (cmd_name sc)) in *.
    assert (forallb printable p = true /\ (length p < 80)%nat) as [Hpp Hpl].
    { unfold names_ok, short_names in *. rewrite Forall_forall in Hok, Hshort. specialize (Hok _ Hsc). specialize (Hshort _ Hsc). rewrite (command_name sc Hpre), forallb_app in Hok.
      apply andb_true_iff in Hok as [_ Hok]. split; [exact Hok|]. unfold p. rewrite length_drop. simpl in *. lia. }
    set (u := take n p) in *. assert (text_ok u) as Hu by (split; [unfold u; rewrite length_take; lia|by apply forallb_take]).
    assert (t `prefix_of` u) as Htu by (apply Hall; intros m Hm; unfold ns, candidates in Hm; by apply list_elem_of_filter in Hm as [? _]).
    specialize (HQ u Hu Hall). unfold line_copy. rewrite wp_bind, wp_getso. cbn [line set_console]. exists tt.
    rewrite Hl, length_padded by done. destruct Hu as [Hul _]. rewrite (proj2 (Nat.leb_le _ _)) by lia. split; [done|]. rewrite wp_modify. cbn [line set_console]. rewrite Hl.
    assert (u ++ drop (length u) (padded t) = padded u) as ->; [|exact HQ]. unfold padded. f_equal. apply prefix_length in Htu.
    rewrite drop_app_ge, drop_replicate by done. f_equal. lia.
  - rewrite wp_ret. rewrite bool_decide_eq_true_2 in HQ by done. specialize (HQ t (conj Hlen Ht) eq_refl).
    assert (forall s', line s' = padded t -> set_line (padded t) s' = s') as E by (intros s' E; rewrite <- E; by destruct s'). rewrite E in HQ; [exact HQ|exact Hl].
Qed.
End complete.

(** ** The console *)

Lemma display_row l t : forallb printable l = true -> display (l ++ [10]) t = mkTerm [] 0.
Proof.
  revert t. induction l as [|c l IH]; intros t Hl; [done|]. simpl in Hl. apply andb_true_iff in Hl as [Hc%printable_range Hl]. cbn [app].
  rewrite display_cons by lia. by apply IH.
Qed.

Lemma screen_row c l : forallb printable l = true -> screen (c ++ [l ++ [10]]) = mkTerm [] 0.
Proof. intros Hl. rewrite screen_app. cbn [foldl]. by apply display_row. Qed.

Lemma screen_rows c ls : Forall (fun l => forallb printable l = true) ls -> screen c = mkTerm [] 0 -> screen (c ++ ((fun l => l ++ [10]) <$> ls)) = mkTerm [] 0.
Proof.
  intros Hls. revert c. induction Hls as [|l ls Hl Hls IH]; intros c Hc; [by rewrite app_nil_r|]. rewrite fmap_cons. change (?x :: ?y) with ([x] ++ y).
  rewrite app_assoc. apply IH. by apply screen_row.
Qed.

Lemma candidates_printable table t : names_ok table -> Forall (fun l => forallb printable l = true) (candidates table t).
Proof.
  intros Hok. rewrite Forall_forall. intros l Hl. unfold candidates in Hl. apply list_elem_of_filter in Hl as [_ Hl].
  apply list_elem_of_fmap in Hl as (sc & -> & Hsc). apply list_elem_of_filter in Hsc as [Hp Hsc]. unfold names_ok in Hok. rewrite Forall_forall in Hok. specialize (Hok _ Hsc).
  rewrite (command_name sc Hp), forallb_app in Hok. by apply andb_true_iff in Hok as [_ ?].
Qed.

Section tab.
Context (table : list msh_syscall) (msh_auto_complete_path : Z -> SM unit) (list_prefix : SM unit).
Notation auto_complete := (shell_auto_complete table msh_auto_complete_path list_prefix).

(** C39: The tab key puts the longest common prefix of the commands that begin with the text in its place, with the cursor behind it, and the console shows it. *)
Theorem msh_tab_completes p e s :
  names_ok table -> short_names table -> text_of e ≠ [] -> 32 ∉ text_of e -> shown p true e s ->
  wp (finsh_key auto_complete 9)
    (fun r s' => r = None /\ exists u,
      (if bool_decide (candidates table (text_of e) = []) then u = text_of e else longest_common (candidates table (text_of e)) u) /\
      shown p true (mkEditor u [] (history e) (recalled e)) s') s.
Proof.
  intros Hok Hshort Hne H32 (He & _ & Hp). pose proof He as [Hst Hecho Htext Hl Hpos Hcur ? ? ? ? ?]. unfold finsh_key. rewrite wp_bind, wp_gets, Hst.
  simpl (9 =? 27). cbv iota. unfold key_normal. simpl (9 =? _). cbn [orb]. cbv iota. rewrite wp_bind. unfold key_tab. rewrite wp_bind, wp_gets, Hcur, wp_bind, Nat2Z.id.
  apply wp_backspaces. rewrite wp_bind. unfold shell_auto_complete. rewrite wp_bind. apply wp_kprintf; [simpl; lia|]. rewrite wp_bind, wp_gets.
  destruct Hp as (Hp1 & Hp2 & Hp3 & Hp4 & Hm). assert (prompts p true s) as Hp by done. cbn [msh_state set_console console]. rewrite Hm, wp_bind.
  apply (wp_auto_complete _ _ (text_of e)); [done|done|done|done|done|exact Hl|]. intros u [Hul Hup] Hu. rewrite wp_bind. unfold finsh_get_prompt. rewrite wp_getso.
  exists p. split; [exact Hp1|]. rewrite wp_bind. apply (wp_line_string 0 u); [by apply c_string_padded|]. apply wp_kprintf; [rewrite length_app; lia|].
  rewrite wp_bind. apply (wp_line_string 0 u); [by apply c_string_padded|]. rewrite wp_modify, wp_ret. split; [done|]. exists u. split; [exact Hu|].
  rewrite !u8_nat by lia. cbn [console set_console set_line]. split; [|split; [|exact Hp]].
  - split; unfold text_of; cbn; rewrite ?app_nil_r; try done.
  - exists O. unfold text_of. cbn [before after console set_console set_line_curpos set_line_position set_line]. rewrite !app_nil_r, screen_app.
    rewrite screen_rows; [|by apply candidates_printable|by apply (screen_row _ [])]. cbn [foldl].
    pose proof (display_text (p ++ u) [] [] [] ltac:(by rewrite forallb_app, Hp2, Hup)) as E. cbn [app length] in E. rewrite <- (app_nil_r (p ++ u)), E.
    cbn [display]. by rewrite drop_nil, !app_nil_r, length_app.
Qed.
End tab.

(** [list], [ls] and a function that is no command; [l] is completed to [l], [li] to [list]. *)
Definition example_table : list msh_syscall :=
  [mkCommand (CMD_PREFIX ++ [108; 105; 115; 116]) 1 []; mkCommand [108; 105; 110; 101] 2 []; mkCommand (CMD_PREFIX ++ [108; 115]) 3 []].

Definition example_prompt : list Z := [109; 115; 104; 32; 47; 62].

(** The console shows a text behind the prompt. *)
Definition tab_state (t : list Z) : finsh_shell :=
  mkShell WAIT_NORMAL true true 0 0 (replicate 5 no_line) (padded t) (Z.of_nat (length t)) (Z.of_nat (length t)) None true [47] [example_prompt; t].

Lemma msh_tab_completes_witness :
  wp (finsh_key (shell_auto_complete example_table (fun _ => mret tt) (mret tt)) 9)
    (fun r s' => r = None /\ exists u,
      (if bool_decide (candidates example_table [108; 105] = []) then u = [108; 105] else longest_common (candidates example_table [108; 105]) u) /\
      shown example_prompt true (mkEditor u [] [] 0) s') (tab_state [108; 105]) /\
  candidates example_table [108; 105] = [[108; 105; 115; 116]] /\ candidates example_table [108] = [[108; 105; 115; 116]; [108; 115]].
Proof.
  split; [|split; vm_compute; reflexivity].
  apply (msh_tab_completes example_table (fun _ => mret tt) (mret tt) example_prompt (mkEditor [108; 105] [] [] 0)).
  - repeat constructor.
  - repeat (constructor; [simpl; lia|]). constructor.
  - done.
  - intros H. do 2 (apply elem_of_cons in H as [H|H]; [done|]). by apply elem_of_nil in H.
  - split; [|split].
    + split; try done; [split; [simpl; lia|done]|]. by exists (replicate 5 no_line).
    + by exists 0%nat.
    + repeat split. simpl. lia.
Defined.
