(* ===== verification/MshSession.v ===== *)
(** Sessions of the shell with its commands: the thread with [msh_exec] and the completion, for any commands. *)

From S2P Require Import Prelude FinshDef FinshToken Shell ShellEdit ShellSession Msh MshSpec MshExec MshComplete.

(** ** Sessions with commands *)

Section session.
Context (table : list msh_syscall) (cmd_call : Z -> list (list Z) -> SM Z) (msh_exec_script : Z -> Z -> SM Z) (finsh_run_line : list Z -> SM unit).

(** The calls of [finsh_thread_entry]. *)
Definition thread_call (c : shell_call) : SM unit :=
  match c with CallMsh _ n => msh_exec table cmd_call msh_exec_script 0 n;; mret tt | CallFinsh t => finsh_run_line t | CallNone => mret tt end.

Definition command_done {A} (m : bool) (R : A -> finsh_shell -> Prop) (s : finsh_shell) (r : A) (s' : finsh_shell) : Prop :=
  kept s s' /\ screen (console s') = mkTerm [] 0 /\ (exists p, prompts p m s') /\ R r s'.

(** A command, or a script, that begins on a new row ends on one, and keeps the mode; a script that there is not keeps the line. So does a line of finsh. *)
Definition commands_ok (m : bool) : Prop :=
  if m then
    (forall f args s, (exists p, prompts p m s) -> screen (console s) = mkTerm [] 0 -> wp (cmd_call f args) (command_done m (fun _ _ => True) s) s) /\
    (forall cmd n s, (exists p, prompts p m s) -> screen (console s) = mkTerm [] 0 ->
      wp (msh_exec_script cmd n) (command_done m (fun r s' => r ≠ 0 -> line s' = line s) s) s)
  else forall t s, (exists p, prompts p m s) -> wp (finsh_run_line t) (command_done m (fun _ _ => True) s) s.

Lemma complains_row ws out s l : complains ws out -> screen (console s) = mkTerm [] 0 -> screen (console (set_console (console s ++ out) (set_line l s))) = mkTerm [] 0.
Proof.
  intros [->|(_ & o & ->)] Hs; cbn [console set_console]; [by rewrite app_nil_r|]. rewrite app_assoc. by apply (screen_row _ []).
Qed.

Lemma not_found_row w : forallb printable w = true -> display (w ++ NOT_FOUND) (mkTerm [] 0) = mkTerm [] 0.
Proof.
  intros Hw. change NOT_FOUND with (removelast NOT_FOUND ++ [10]). rewrite app_assoc. apply display_row. by rewrite forallb_app, Hw.
Qed.

Lemma finsh_call_ok : commands_ok false -> exec_ok false thread_call.
Proof.
  intros Hrun c s Hp Hpre. destruct c as [cmd n|t|]; [by destruct Hpre| |].
  - eapply wp_mono; [by apply Hrun|]. by intros [] s' (K & Hs' & Hp' & _).
  - cbn [thread_call]. by rewrite wp_ret.
Qed.

Lemma msh_call_ok : names_ok table -> commands_ok true -> exec_ok true thread_call.
Proof.
  intros Hok [Hcmd Hscript] c s Hp Hpre. destruct c as [cmd n|t|]; [|done|cbn [thread_call]; by rewrite wp_ret]. cbn [thread_call].
  destruct Hpre as (_ & (t & Ht & -> & ->) & Hl & Hs). rewrite wp_bind. apply wp_msh_exec; [done|done|done|]. unfold executes. case_bool_decide as Hb.
  { rewrite wp_ret. done. }
  destruct (command_of table t) as [f|].
  - intros l' out Hlen Ho. eapply wp_mono; [apply Hcmd; [exact Hp|by eapply complains_row]|]. intros r s' (K & Hs' & Hp' & _). rewrite wp_ret. done.
  - eapply wp_mono; [by apply Hscript|]. intros r s1 (K & Hs1 & Hp1 & Hl1). destruct (Z.eqb_spec r 0) as [->|Hr]; [by rewrite wp_ret|].
    split; [by apply Hl1|]. intros l'. rewrite wp_ret. split; [exact K|]. split; [|exact Hp1]. cbn [console set_console]. rewrite screen_app, Hs1. cbn [foldl].
    apply not_found_row. destruct Ht as [_ Ht]. apply forallb_skip in Ht. rewrite (proj1 (span_word_spec (skip_blanks t))), forallb_app in Ht.
    by apply andb_true_iff in Ht as [? _].
Qed.

End session.

(** ** Examples *)

(** Every command prints an empty row; there are no scripts. *)
Definition row_command (f : Z) (args : list (list Z)) : SM Z := kprintf [10];; mret 0.
Definition no_script (cmd n : Z) : SM Z := mret (-1).
Definition row_line (t : list Z) : SM unit := kprintf [10].

Lemma example_commands_ok m : commands_ok row_command no_script row_line m.
Proof.
  assert (forall s, (exists p, prompts p m s) ->
    wp (kprintf [10]) (fun _ s' => kept s s' /\ screen (console s') = mkTerm [] 0 /\ (exists p, prompts p m s') /\ True) s) as Hrow.
  { intros s Hp. apply wp_kprintf; [simpl; lia|]. split; [by repeat split|]. split; [by apply (screen_row _ [])|done]. }
  destruct m; [split|].
  - intros f args s Hp _. unfold row_command. rewrite wp_bind. eapply wp_mono; [by apply Hrow|]. intros [] s' (K & Hs & Hp' & _). by rewrite wp_ret.
  - intros cmd n s Hp Hs. unfold no_script. rewrite wp_ret. by repeat split.
  - intros t s Hp. by apply Hrow.
Qed.

Lemma start_initial (m : bool) : initial (if m then example_prompt else [102; 105; 110; 115; 104; 32; 47; 62]) m (start m).
Proof. destruct m; by repeat split; simpl; lia. Qed.


(** The line [li] is completed to [list] by the tab key, and run; the console shows all of it. *)
Example complete_and_run :
  option_map (fun r => (fst r, console (snd r)))
    (finsh_thread_entry (shell_auto_complete example_table (fun _ => mret tt) (mret tt)) (thread_call example_table row_command no_script row_line)
      [108; 105; 9; 13] (start true)) =
  Some ([CallMsh (padded [108; 105; 115; 116]) 4],
    [example_prompt; [108]; [105]; [8]; [8]; [10]; [108; 105; 115; 116; 10]; example_prompt ++ [108; 105; 115; 116]; [10]; [10]; example_prompt]).
Proof. vm_compute. reflexivity. Qed.
