(* ===== verification/ShellAuth.v ===== *)
(** The password of the shell (components/finsh/shell.c with [FINSH_USING_AUTH]). *)

From S2P Require Import Prelude FinshDef FinshToken ShellEdit Msh.

Abbreviation FINSH_PASSWORD_MAX := 8.
Abbreviation FINSH_PASSWORD_MIN := 6.
Definition FINSH_DEFAULT_PASSWORD : list Z := [114; 116; 116; 104; 114; 101; 97; 100].

(** [rt_strncpy] of a string into an array *)
Definition pad_string (n : nat) (str : list Z) : list Z := take n str ++ replicate (n - length str) 0.

(** The result, and the array behind it. *)
Definition finsh_set_password (password : list Z) (array : list Z) : Z * list Z :=
  let pw_len := Z.of_nat (length password) in
  if (pw_len <? FINSH_PASSWORD_MIN) || (FINSH_PASSWORD_MAX <? pw_len) then (-1, array)
  else (0, pad_string (Z.to_nat FINSH_PASSWORD_MAX) password).

(** What the keys that come in lead to: the keys behind the login, or the thread waits for more of them. [None] is an access behind an array. *)
Fixpoint read_password (keys : list Z) (password : list Z) (cur_pos : nat) : option (option (list Z * list Z)) :=
  match keys with
  | [] => Some None
  | ch :: keys =>
      if (32 <=? ch) && (ch <=? 126) && (Z.of_nat cur_pos <? FINSH_PASSWORD_MAX) then read_password keys (<[cur_pos := ch]> password) (S cur_pos)
      else if (ch =? 8) && (0 <? cur_pos)%nat then
        if Z.of_nat cur_pos <? FINSH_PASSWORD_MAX then read_password keys (<[cur_pos := 0]> password) (cur_pos - 1) else None
      else if (ch =? 13) || (ch =? 10) then Some (Some (password, keys))
      else read_password keys password cur_pos
  end.

Definition no_password : list Z := replicate (Z.to_nat FINSH_PASSWORD_MAX) 0.

(** The outer loop; every round takes a key. *)
Fixpoint auth_loop (fuel : nat) (array keys : list Z) : option (option (list Z)) :=
  match fuel with
  | O => None
  | S fuel =>
      r ← read_password keys no_password 0;
      match r with
      | None => Some None
      | Some (password, keys) =>
          same ← strncmp_same (Z.to_nat FINSH_PASSWORD_MAX) array password;
          if (same : bool) then Some (Some keys) else auth_loop fuel array keys
      end
  end.

Definition finsh_wait_auth (array keys : list Z) : option (option (list Z)) :=
  str ← c_string array;
  if (length str =? 0)%nat then Some (Some keys) else auth_loop (S (length keys)) array keys.

(** The part of [finsh_thread_entry]. *)
Definition finsh_login (array keys : list Z) : option (option (list Z)) :=
  str ← c_string array;
  let array := if (length str =? 0)%nat then snd (finsh_set_password FINSH_DEFAULT_PASSWORD array) else array in
  finsh_wait_auth array keys.

(** ** Logins *)

(** The keys behind the first attempt that is the password; a longer attempt is cut. *)
Fixpoint first_login (password : list Z) (attempts : list (list Z)) : option (list Z) :=
  match attempts with
  | [] => None
  | a :: attempts => if bool_decide (take 8 a = password) then Some (flat_map (fun a => a ++ [13]) attempts) else first_login password attempts
  end.

Lemma pad_full str : length str = 8%nat -> pad_string 8 str = str.
Proof. intros Hl. unfold pad_string. by rewrite take_ge, Hl, app_nil_r by lia. Qed.

Lemma length_pad str : length (pad_string 8 str) = 8%nat.
Proof. unfold pad_string. rewrite length_app, length_take, length_replicate. lia. Qed.

Lemma read_ignores a keys password : forallb printable a = true -> read_password (a ++ 13 :: keys) password 8 = Some (Some (password, keys)).
Proof.
  induction a as [|c a IH]; [done|]. simpl. intros [Hc Ha]%andb_true_iff. apply printable_range in Hc. rewrite andb_false_r.
  rewrite (proj2 (Z.eqb_neq c 8)), (proj2 (Z.eqb_neq c 13)), (proj2 (Z.eqb_neq c 10)) by lia. by apply IH.
Qed.

Lemma read_attempt a keys w : forallb printable a = true -> (length w <= 8)%nat ->
  read_password (a ++ 13 :: keys) (pad_string 8 w) (length w) = Some (Some (pad_string 8 (take 8 (w ++ a)), keys)).
Proof.
  revert w. induction a as [|c a IH]; intros w Ha Hw.
  - rewrite app_nil_r, take_ge by done. simpl. by rewrite ?andb_false_r.
  - destruct (decide (length w = 8%nat)) as [E|E].
    { rewrite E, read_ignores by done. by rewrite take_app_le, take_ge by lia. }
    simpl in Ha. apply andb_true_iff in Ha as [Hc Ha]. cbn [app read_password]. unfold printable in Hc. rewrite Hc.
    rewrite (proj2 (Z.ltb_lt _ _)) by lia. cbn [andb]. assert (<[length w := c]> (pad_string 8 w) = pad_string 8 (w ++ [c])) as ->.
    { unfold pad_string. rewrite length_app, !take_ge by (rewrite ?length_app; simpl; lia). simpl. replace (8 - length w)%nat with (S (8 - (length w + 1))) by lia.
      rewrite <- (Nat.add_0_r (length w)) at 1. rewrite insert_app_r, <- app_assoc. done. }
    replace (S (length w)) with (length (w ++ [c])) by (rewrite length_app; simpl; lia). rewrite IH by (rewrite ?length_app; simpl; done || lia).
    by rewrite <- app_assoc.
Qed.

(** Two padded strings are the same. *)
Lemma strncmp_padded n a b : forallb printable a = true -> forallb printable b = true -> (length a <= n)%nat -> (length b <= n)%nat ->
  strncmp_same n (pad_string n a) (pad_string n b) = Some (bool_decide (b = a)).
Proof.
  revert a b. induction n as [|n IH]; intros a b Ha Hb Hla Hlb; [by destruct a, b; simpl in *; try lia|].
  unfold pad_string in *. destruct a as [|x a], b as [|y b]; cbn [length take Nat.sub replicate app strncmp_same forallb] in *.
  - by rewrite bool_decide_eq_true_2.
  - apply andb_true_iff in Hb as [Hy%printable_range Hb]. destruct (Z.eqb_spec 0 y); [lia|]. by rewrite bool_decide_eq_false_2.
  - apply andb_true_iff in Ha as [Hx%printable_range Ha]. destruct (Z.eqb_spec x 0); [lia|]. by rewrite bool_decide_eq_false_2.
  - apply andb_true_iff in Ha as [Hx%printable_range Ha], Hb as [Hy%printable_range Hb]. destruct (Z.eqb_spec x y) as [->|Hne].
    + destruct (Z.eqb_spec y 0); [lia|]. rewrite IH by (done || lia). f_equal. apply bool_decide_ext. split; [by intros ->|by intros [= ->]].
    + rewrite bool_decide_eq_false_2; [done|]. by intros [= ->].
Qed.

Lemma auth_loop_attempts attempts fuel password : Forall (fun a => forallb printable a = true) attempts -> forallb printable password = true -> (length password <= 8)%nat ->
  (length attempts < fuel)%nat ->
  auth_loop fuel (pad_string 8 password) (flat_map (fun a => a ++ [13]) attempts) = Some (first_login password attempts).
Proof.
  intros Hat Hp Hl. revert fuel. induction Hat as [|a attempts Ha Hat IH]; intros [|fuel] Hf; simpl in Hf; [lia|done|lia|].
  cbn [auth_loop flat_map first_login]. rewrite <- app_assoc. change no_password with (pad_string 8 []). change O with (length (@nil Z)) at 1. cbn [app].
  rewrite (read_attempt a _ []) by (done || simpl; lia). cbn [mbind option_bind app]. change (Z.to_nat FINSH_PASSWORD_MAX) with 8%nat.
  rewrite strncmp_padded; [|done| |done|rewrite length_take; lia].
  - cbn [mbind option_bind]. case_bool_decide; [done|]. apply IH. lia.
  - rewrite <- (take_drop 8 a), forallb_app in Ha. by apply andb_true_iff in Ha as [? _].
Qed.

(** The shell logs in with the first line that is the password, and with no line before it; lines are typed without the backspace key. *)
Theorem login_is_password password attempts array :
  forallb printable password = true -> (length password < 8)%nat -> finsh_set_password password array = (0, pad_string 8 password) ->
  Forall (fun a => forallb printable a = true) attempts ->
  finsh_wait_auth (pad_string 8 password) (flat_map (fun a => a ++ [13]) attempts) = Some (first_login password attempts).
Proof.
  intros Hp Hl Hset Hat. unfold finsh_wait_auth. assert (pad_string 8 password = password ++ 0 :: replicate (7 - length password) 0) as E.
  { unfold pad_string. rewrite take_ge by lia. by replace (8 - length password)%nat with (S (7 - length password)) by lia. }
  rewrite E at 1. rewrite c_string_end by done. cbn [mbind option_bind].
  assert ((length password =? 0)%nat = false) as ->.
  { apply Nat.eqb_neq. intros E0. destruct password; [|done]. by apply (f_equal fst) in Hset. }
  apply auth_loop_attempts; [done|done|lia|]. clear. induction attempts as [|a attempts IH]; simpl; [lia|]. rewrite !length_app. simpl. lia.
Qed.

Lemma login_is_password_witness :
  let password := [115; 101; 99; 114; 101; 116] in let attempts := [[115; 101]; password ++ [33]; password; [120]] in
  finsh_wait_auth (pad_string 8 password) (flat_map (fun a => a ++ [13]) attempts) = Some (first_login password attempts) /\
  first_login password attempts = Some [120; 13].
Proof.
  intros password attempts. split; [|reflexivity]. apply (login_is_password password attempts no_password); [reflexivity|simpl; lia|reflexivity|].
  repeat constructor.
Defined.

(** ** What the backspace does

    The cell behind the last character is cleared, not the character: the password logs in with its last character deleted. *)
Example login_with_deleted_character :
  finsh_wait_auth (pad_string 8 [115; 101; 99; 114; 101; 116]) [115; 101; 99; 114; 101; 116; 8; 13] = Some (Some []).
Proof. reflexivity. Qed.

(** A backspace behind eight characters writes behind the array. *)
Lemma backspace_overrun w keys : length w = 8%nat -> read_password (8 :: keys) (pad_string 8 w) (length w) = None.
Proof. intros ->. reflexivity. Qed.

(** The default password fills its array, and has no NUL there: [rt_strlen] reads behind it. *)
Example default_password_unterminated keys : finsh_login no_password keys = None.
Proof. reflexivity. Qed.
