(* ===== verification/Device.v ===== *)
(** Devices (src/device.c): they dispatch the calls of their users to the functions of a driver, in an order that a driver can rely on. *)

From S2P Require Import Prelude RtDef Object Scheduler Thread Kernel Ext.

Abbreviation RT_ENOSYS := 6.
Abbreviation RT_EBUSY := 7.
Abbreviation RT_DEVICE_FLAG_STANDALONE := 8.
Abbreviation RT_DEVICE_FLAG_ACTIVATED := 16.
Abbreviation RT_DEVICE_OFLAG_CLOSE := 0.
Abbreviation RT_DEVICE_OFLAG_OPEN := 8.
Abbreviation RT_DEVICE_OFLAG_MASK := 3855.

(** ** State *)

(** [struct rt_device] without the functions of its driver; the header of its object is inside. *)
Record rt_device := mkDevice {
  dv_name : string;
  dv_obj_type : Z;
  dv_type : Z;
  dv_flag : Z;
  dv_open_flag : Z;
  dv_ref_count : Z;
  dv_rx_indicate : option nat;
  dv_tx_complete : option nat }.

Inductive driver_op := DInit | DOpen (oflag : Z) | DClose | DRead (pos size : Z) | DWrite (pos size : Z) | DControl (cmd : Z).

(** What happens to a device: its registration, and the calls of its driver with their results. *)
Inductive device_event := ERegister (flags : Z) | ECall (op : driver_op) (result : Z).

(** The devices by address, the list of their class, the variable [__rt_errno], and the events so far. *)
Record devices := mkDevices { dev_map : gmap nat rt_device; dev_list : list nat; dev_errno : Z; dev_events : list (nat * device_event) }.

Abbreviation DM := (XM devices).

Definition set_dv_object (name : string) (type : Z) (d : rt_device) : rt_device :=
  mkDevice name type (dv_type d) (dv_flag d) (dv_open_flag d) (dv_ref_count d) (dv_rx_indicate d) (dv_tx_complete d).
Definition set_dv_flag (v : Z) (d : rt_device) : rt_device :=
  mkDevice (dv_name d) (dv_obj_type d) (dv_type d) v (dv_open_flag d) (dv_ref_count d) (dv_rx_indicate d) (dv_tx_complete d).
Definition set_dv_open_flag (v : Z) (d : rt_device) : rt_device :=
  mkDevice (dv_name d) (dv_obj_type d) (dv_type d) (dv_flag d) v (dv_ref_count d) (dv_rx_indicate d) (dv_tx_complete d).
Definition set_dv_ref_count (v : Z) (d : rt_device) : rt_device :=
  mkDevice (dv_name d) (dv_obj_type d) (dv_type d) (dv_flag d) (dv_open_flag d) v (dv_rx_indicate d) (dv_tx_complete d).
Definition set_dv_rx_indicate (v : option nat) (d : rt_device) : rt_device :=
  mkDevice (dv_name d) (dv_obj_type d) (dv_type d) (dv_flag d) (dv_open_flag d) (dv_ref_count d) v (dv_tx_complete d).
Definition set_dv_tx_complete (v : option nat) (d : rt_device) : rt_device :=
  mkDevice (dv_name d) (dv_obj_type d) (dv_type d) (dv_flag d) (dv_open_flag d) (dv_ref_count d) (dv_rx_indicate d) v.

Definition with_map (f : gmap nat rt_device -> gmap nat rt_device) (v : devices) : devices := mkDevices (f (dev_map v)) (dev_list v) (dev_errno v) (dev_events v).
Definition with_list (f : list nat -> list nat) (v : devices) : devices := mkDevices (dev_map v) (f (dev_list v)) (dev_errno v) (dev_events v).
Definition with_errno (e : Z) (v : devices) : devices := mkDevices (dev_map v) (dev_list v) e (dev_events v).
Definition with_event (d : nat) (e : device_event) (v : devices) : devices := mkDevices (dev_map v) (dev_list v) (dev_errno v) (dev_events v ++ [(d, e)]).

(** The functions of a device that its driver has set. *)
Record driver_ops := mkOps { has_init : bool; has_open : bool; has_close : bool; has_read : bool; has_write : bool; has_control : bool }.

(** The drivers: which functions a device has, and what a call returns, after what has happened, and leaves in the open flag of the device. *)
Class Drivers := {
  dev_ops : nat -> driver_ops;
  driver : nat -> driver_op -> list (nat * device_event) -> rt_device -> Z * Z;
}.

Definition val_mod (f : devices -> devices) : DM unit := modify (fun r => set_val (f (ext_val r)) r).
Definition dev_get (d : nat) : DM rt_device := getso (fun r => dev_map (ext_val r) !! d).
Definition dev_mod (d : nat) (f : rt_device -> rt_device) : DM unit := x ← dev_get d; val_mod (with_map (insert d (f x))).

(** ** Operations *)

Section device.
Context {drivers : Drivers}.

Definition call_driver (d : nat) (op : driver_op) : DM Z :=
  x ← dev_get d;
  events ← gets (fun r => dev_events (ext_val r));
  let '(result, open_flag) := driver d op events x in
  dev_mod d (set_dv_open_flag (u16 open_flag));;
  val_mod (with_event d (ECall op result));;
  mret result.

Definition dev_set_errno (error : Z) : DM unit :=
  nest ← xlift (gets rt_interrupt_nest);
  if negb (nest =? 0) then val_mod (with_errno error)
  else
    tid ← xlift rt_thread_self;
    match tid with None => val_mod (with_errno error) | Some t => xlift (upd_thread t (set_th_error error)) end.

Definition in_thread (m : M unit) : DM unit :=
  cur ← xlift rt_thread_self;
  when (bool_decide (cur ≠ None)) (xlift m).

(** The walk along the list of the class; [rt_strncmp] of [RT_NAME_MAX] characters. *)
Fixpoint find_loop (l : list nat) (name : string) : DM (option nat) :=
  match l with
  | [] => mret None
  | d :: l => x ← dev_get d; if bool_decide (object_name (dv_name x) = object_name name) then mret (Some d) else find_loop l name
  end.

Definition rt_device_find (name : string) : DM (option nat) :=
  in_thread rt_enter_critical;;
  l ← gets (fun r => dev_list (ext_val r));
  found ← find_loop l name;
  in_thread rt_exit_critical;;
  mret found.

(** [rt_object_init]; a device that is in the list would be linked into the ring twice. *)
Definition device_object_init (d : nat) (name : string) : DM unit :=
  getso (fun r => if bool_decide (d ∈ dev_list (ext_val r)) then None else Some tt);;
  dev_mod d (set_dv_object (object_name name) (RT_Object_Class_Device .| RT_Object_Class_Static));;
  val_mod (with_list (cons d)).

Definition rt_device_register (dev : option nat) (name : string) (flags : Z) : DM Z :=
  match dev with
  | None => mret (- RT_ERROR)
  | Some d =>
      found ← rt_device_find name;
      if bool_decide (found ≠ None) then mret (- RT_ERROR)
      else
        device_object_init d name;;
        dev_mod d (fun x => set_dv_open_flag 0 (set_dv_ref_count 0 (set_dv_flag (u16 flags) x)));;
        val_mod (with_event d (ERegister (u16 flags)));;
        mret RT_EOK
  end.

Definition assert_device (d : nat) : DM unit := x ← dev_get d; RT_ASSERT (dv_obj_type x .&~ RT_Object_Class_Static =? RT_Object_Class_Device).
Definition is_systemobject (d : nat) : DM bool := x ← dev_get d; mret (negb (dv_obj_type x .& RT_Object_Class_Static =? 0)).

(** [rt_object_detach] *)
Definition device_object_detach (d : nat) : DM unit :=
  dev_mod d (fun x => set_dv_object (dv_name x) 0 x);;
  val_mod (with_list (filter (fun d' => d' ≠ d))).

Definition rt_device_unregister (d : nat) : DM Z :=
  assert_device d;;
  b ← is_systemobject d;
  RT_ASSERT b;;
  device_object_detach d;;
  mret RT_EOK.

Definition rt_device_init_all : DM Z := mret RT_EOK.

(** [mem] is the address that [rt_malloc] returns, of memory that holds no device. *)
Definition rt_device_create (mem : option nat) (type : Z) : DM (option nat) :=
  match mem with
  | None => mret None
  | Some d =>
      getso (fun r => match dev_map (ext_val r) !! d with Some _ => None | None => Some tt end);;
      val_mod (with_map (insert d (mkDevice EmptyString 0 type 0 0 0 None None)));;
      mret (Some d)
  end.

Definition rt_device_destroy (d : nat) : DM unit :=
  assert_device d;;
  b ← is_systemobject d;
  RT_ASSERT (negb b);;
  device_object_detach d;;
  val_mod (with_map (delete d)).

Definition activated_dev (x : rt_device) : bool := negb (dv_flag x .& RT_DEVICE_FLAG_ACTIVATED =? 0).
Definition activate (d : nat) : DM unit := dev_mod d (fun x => set_dv_flag (dv_flag x .| RT_DEVICE_FLAG_ACTIVATED) x).

(** The call of [init] by [rt_device_init] and [rt_device_open]; the report of its failure is not modelled. *)
Definition init_driver (d : nat) : DM Z :=
  result ← call_driver d DInit;
  when (result =? RT_EOK) (activate d);;
  mret result.

Definition rt_device_init (d : nat) : DM Z :=
  x ← dev_get d;
  if has_init (dev_ops d) && negb (activated_dev x) then init_driver d else mret RT_EOK.

(** The part of [rt_device_open] behind the initialisation. *)
Definition device_open_rest (d : nat) (oflag : Z) : DM Z :=
  x ← dev_get d;
  if negb (dv_flag x .& RT_DEVICE_FLAG_STANDALONE =? 0) && negb (dv_open_flag x .& RT_DEVICE_OFLAG_OPEN =? 0) then mret (- RT_EBUSY)
  else
    result ← (if has_open (dev_ops d) then call_driver d (DOpen oflag)
              else dev_mod d (set_dv_open_flag (oflag .& RT_DEVICE_OFLAG_MASK));; mret RT_EOK);
    when ((result =? RT_EOK) || (result =? - RT_ENOSYS))
      (dev_mod d (fun x => set_dv_ref_count (u8 (dv_ref_count x + 1)) (set_dv_open_flag (dv_open_flag x .| RT_DEVICE_OFLAG_OPEN) x));;
       x ← dev_get d;
       RT_ASSERT (negb (dv_ref_count x =? 0)));;
    mret result.

Definition rt_device_open (d : nat) (oflag : Z) : DM Z :=
  assert_device d;;
  x ← dev_get d;
  result ← (if negb (activated_dev x) then
              if has_init (dev_ops d) then init_driver d else activate d;; mret RT_EOK
            else mret RT_EOK);
  if negb (result =? RT_EOK) then mret result else device_open_rest d oflag.

Definition rt_device_close (d : nat) : DM Z :=
  assert_device d;;
  x ← dev_get d;
  if dv_ref_count x =? 0 then mret (- RT_ERROR)
  else
    dev_mod d (set_dv_ref_count (u8 (dv_ref_count x - 1)));;
    if negb (u8 (dv_ref_count x - 1) =? 0) then mret RT_EOK
    else
      result ← (if has_close (dev_ops d) then call_driver d DClose else mret RT_EOK);
      when ((result =? RT_EOK) || (result =? - RT_ENOSYS)) (dev_mod d (set_dv_open_flag RT_DEVICE_OFLAG_CLOSE));;
      mret result.

(** [rt_device_read] and [rt_device_write] *)
Definition device_transfer (d : nat) (has : bool) (op : driver_op) : DM Z :=
  assert_device d;;
  x ← dev_get d;
  if dv_ref_count x =? 0 then dev_set_errno (- RT_ERROR);; mret 0
  else if has then call_driver d op
  else dev_set_errno (- RT_ENOSYS);; mret 0.

Definition rt_device_read (d : nat) (pos size : Z) : DM Z := device_transfer d (has_read (dev_ops d)) (DRead pos size).
Definition rt_device_write (d : nat) (pos size : Z) : DM Z := device_transfer d (has_write (dev_ops d)) (DWrite pos size).

Definition rt_device_control (d : nat) (cmd : Z) : DM Z :=
  assert_device d;;
  if has_control (dev_ops d) then call_driver d (DControl cmd) else mret (- RT_ENOSYS).

Definition rt_device_set_rx_indicate (d : nat) (rx_ind : option nat) : DM Z :=
  assert_device d;; dev_mod d (set_dv_rx_indicate rx_ind);; mret RT_EOK.
Definition rt_device_set_tx_complete (d : nat) (tx_done : option nat) : DM Z :=
  assert_device d;; dev_mod d (set_dv_tx_complete tx_done);; mret RT_EOK.

(** ** Users *)

Inductive device_call :=
  | CRegister (dev : option nat) (name : string) (flags : Z) | CUnregister (d : nat) | CFind (name : string) | CCreate (mem : option nat) (type : Z) | CDestroy (d : nat)
  | CInit (d : nat) | COpen (d : nat) (oflag : Z) | CClose (d : nat) | CRead (d : nat) (pos size : Z) | CWrite (d : nat) (pos size : Z) | CControl (d : nat) (cmd : Z)
  | CRxIndicate (d : nat) (f : option nat) | CTxComplete (d : nat) (f : option nat).

Definition run_device_call (c : device_call) : DM unit :=
  match c with
  | CRegister dev name flags => rt_device_register dev name flags;; mret tt
  | CUnregister d => rt_device_unregister d;; mret tt
  | CFind name => rt_device_find name;; mret tt
  | CCreate mem type => rt_device_create mem type;; mret tt
  | CDestroy d => rt_device_destroy d
  | CInit d => rt_device_init d;; mret tt
  | COpen d oflag => rt_device_open d oflag;; mret tt
  | CClose d => rt_device_close d;; mret tt
  | CRead d pos size => rt_device_read d pos size;; mret tt
  | CWrite d pos size => rt_device_write d pos size;; mret tt
  | CControl d cmd => rt_device_control d cmd;; mret tt
  | CRxIndicate d f => rt_device_set_rx_indicate d f;; mret tt
  | CTxComplete d f => rt_device_set_tx_complete d f;; mret tt
  end.

(** Calls that follow each other. *)
Fixpoint run_device_calls (l : list device_call) : DM unit := match l with [] => mret tt | c :: l => run_device_call c;; run_device_calls l end.

(** ** The protocol of a driver

    A driver is ready when it has been initialised, and in use from a successful [open] to the [close]. *)
Record phase := mkPhase { ready : bool; in_use : bool }.

Definition is_ready (ops : driver_ops) (p : phase) : bool := ready p || negb (has_init ops).
Definition is_open (ops : driver_ops) (p : phase) : bool := in_use p || negb (has_open ops).
Definition opened (result : Z) : bool := (result =? RT_EOK) || (result =? - RT_ENOSYS).

(** The initialisation is called until it succeeds, and then no more; [open] is called when it has succeeded; [close], [read] and [write] are called while
    the device is in use. *)
Definition protocol_step (ops : driver_ops) (p : phase) (e : device_event) : option phase :=
  match e with
  | ERegister flags => Some (mkPhase (negb (flags .& RT_DEVICE_FLAG_ACTIVATED =? 0)) false)
  | ECall DInit result => if ready p then None else Some (mkPhase (result =? RT_EOK) (in_use p))
  | ECall (DOpen _) result => if is_ready ops p then Some (mkPhase (ready p) (in_use p || opened result)) else None
  | ECall DClose _ => if is_ready ops p && is_open ops p then Some (mkPhase (ready p) false) else None
  | ECall (DRead _ _) _ | ECall (DWrite _ _) _ => if is_ready ops p && is_open ops p then Some p else None
  | ECall (DControl _) _ => Some p
  end.

Definition protocol (ops : driver_ops) (l : list device_event) : option phase :=
  foldl (fun p e => p ≫= fun p => protocol_step ops p e) (Some (mkPhase false false)) l.

Definition events_of (d : nat) (v : devices) : list device_event := snd <$> filter (fun x => fst x = d) (dev_events v).

Lemma protocol_snoc ops l e : protocol ops (l ++ [e]) = protocol ops l ≫= fun p => protocol_step ops p e.
Proof. unfold protocol. by rewrite foldl_app. Qed.

Lemma events_of_same d e v : events_of d (with_event d e v) = events_of d v ++ [e].
Proof. unfold events_of, with_event. cbn [dev_events]. by rewrite filter_app, fmap_app, filter_cons_True. Qed.
Lemma events_of_other d d' e v : d' ≠ d -> events_of d (with_event d' e v) = events_of d v.
Proof. intros Hd. unfold events_of, with_event. cbn [dev_events]. rewrite filter_app, fmap_app, filter_cons_False by done. by rewrite app_nil_r. Qed.

(** *** The invariant *)

Record device_ok (d : nat) (x : rt_device) (v : devices) (p : phase) : Prop := {
  do_protocol : protocol (dev_ops d) (events_of d v) = Some p;
  do_ready : has_init (dev_ops d) = true -> ready p = activated_dev x;
  do_users : dv_ref_count x ≠ 0 -> is_ready (dev_ops d) p = true /\ is_open (dev_ops d) p = true;
  do_object : dv_obj_type x = 0 \/ dv_obj_type x = RT_Object_Class_Device .| RT_Object_Class_Static;
}.

Definition devices_ok (v : devices) : Prop := forall d,
  match dev_map v !! d with Some x => exists p, device_ok d x v p | None => events_of d v = [] end.

Definition devices_initial (v : devices) : Prop :=
  dev_events v = [] /\ forall d x, dev_map v !! d = Some x -> dv_obj_type x = 0 /\ dv_flag x = 0 /\ dv_ref_count x = 0.

(** What holds behind a call that returns. *)
Definition post {A} (m : DM A) (Q : A -> devices -> Prop) (v : devices) : Prop := forall r a r', ext_val r = v -> m r = Some (a, r') -> Q a (ext_val r').

Lemma post_ret {A} (a : A) (Q : A -> devices -> Prop) v : Q a v -> post (mret a) Q v.
Proof. intros HQ r b r' <- [= <- <-]. done. Qed.

Lemma post_bind {A B} (m : DM A) (f : A -> DM B) Q v : post m (fun a => post (f a) Q) v -> post (m ≫= f) Q v.
Proof.
  intros H r b r' Hr E. unfold mbind, stM_bind in E. destruct (m r) as [[a r1]|] eqn:Em; [|done]. exact (H r a r1 Hr Em r1 b r' eq_refl E).
Qed.

Lemma post_val_mod f (Q : unit -> devices -> Prop) v : Q tt (f v) -> post (val_mod f) Q v.
Proof. intros HQ r [] r' <- [= <-]. done. Qed.

Lemma post_dev_get d (Q : rt_device -> devices -> Prop) v : (forall x, dev_map v !! d = Some x -> Q x v) -> post (dev_get d) Q v.
Proof. intros HQ r x r' <- E. unfold dev_get, getso in E. destruct (dev_map (ext_val r) !! d) eqn:Ed; [|done]. injection E as <- <-. by apply HQ. Qed.

Lemma post_gets {A} (f : ext devices -> A) (Q : A -> devices -> Prop) v : (forall r, ext_val r = v -> Q (f r) v) -> post (gets f) Q v.
Proof. intros HQ r a r' Hr [= <- <-]. rewrite Hr. by apply HQ. Qed.

Lemma post_getso {A} (f : ext devices -> option A) (Q : A -> devices -> Prop) v : (forall r a, ext_val r = v -> f r = Some a -> Q a v) -> post (getso f) Q v.
Proof. intros HQ r a r' Hr E. unfold getso in E. destruct (f r) eqn:Ef; [|done]. injection E as <- <-. rewrite Hr. by eapply HQ. Qed.

Lemma post_assert b (Q : unit -> devices -> Prop) v : (b = true -> Q tt v) -> post (RT_ASSERT b) Q v.
Proof. intros HQ r [] r' Hr E. unfold RT_ASSERT in E. destruct b; [|done]. injection E as <-. rewrite Hr. by apply HQ. Qed.

Lemma post_xlift {A} (m : M A) (Q : A -> devices -> Prop) v : (forall a, Q a v) -> post (xlift m) Q v.
Proof. intros HQ r a r' Hr E. unfold xlift in E. destruct (m (ext_kernel r)) as [[b s]|]; [|done]. injection E as <- <-. simpl. rewrite Hr. apply HQ. Qed.

Lemma post_when b m (Q : unit -> devices -> Prop) v : (b = true -> post m Q v) -> (b = false -> Q tt v) -> post (when b m) Q v.
Proof. intros H1 H2. destruct b; [by apply H1|]. apply post_ret. by apply H2. Qed.

Lemma post_mono {A} (m : DM A) (Q R : A -> devices -> Prop) v : post m Q v -> (forall a v', Q a v' -> R a v') -> post m R v.
Proof. intros H HQ r a r' Hr E. apply HQ. by eapply H. Qed.

Lemma post_dev_mod d f (Q : unit -> devices -> Prop) v : (forall x, dev_map v !! d = Some x -> Q tt (with_map (insert d (f x)) v)) -> post (dev_mod d f) Q v.
Proof. intros HQ. apply post_bind, post_dev_get. intros x Hx. apply post_val_mod. by apply HQ. Qed.

(** ** Every call keeps the invariant *)

Lemma device_ok_change d x x' v v' p : device_ok d x v p -> events_of d v' = events_of d v ->
  activated_dev x' = activated_dev x -> (dv_ref_count x' ≠ 0 -> dv_ref_count x ≠ 0) ->
  (dv_obj_type x' = dv_obj_type x \/ dv_obj_type x' = 0 \/ dv_obj_type x' = RT_Object_Class_Device .| RT_Object_Class_Static) -> device_ok d x' v' p.
Proof. intros [H1 H2 H3 H4] He Ha Hr Ho. split; [by rewrite He|by rewrite Ha|auto|]. destruct Ho as [-> | ?]; [done|tauto]. Qed.

(** A device is changed, and no event happens. *)
Lemma ok_insert d x x' v : devices_ok v -> dev_map v !! d = Some x -> (forall p, device_ok d x v p -> device_ok d x' v p) -> devices_ok (with_map (insert d x') v).
Proof.
  intros Hok Hx H d'. specialize (Hok d'). unfold with_map. cbn [dev_map]. destruct (decide (d' = d)) as [->|Hd].
  - rewrite lookup_insert_eq. rewrite Hx in Hok. destruct Hok as [p Hp]. exists p. destruct (H p Hp). by split.
  - rewrite lookup_insert_ne by done. destruct (dev_map v !! d') as [y|]; [|done]. destruct Hok as [p []]. exists p. by split.
Qed.

(** An event happens, and the device is changed. *)
Lemma ok_event d e x' v p' : devices_ok v -> dev_map v !! d ≠ None ->
  (protocol (dev_ops d) (events_of d v) ≫= fun p => protocol_step (dev_ops d) p e) = Some p' ->
  (has_init (dev_ops d) = true -> ready p' = activated_dev x') ->
  (dv_ref_count x' ≠ 0 -> is_ready (dev_ops d) p' = true /\ is_open (dev_ops d) p' = true) ->
  (dv_obj_type x' = 0 \/ dv_obj_type x' = RT_Object_Class_Device .| RT_Object_Class_Static) ->
  devices_ok (with_event d e (with_map (insert d x') v)).
Proof.
  intros Hok Hd Hp Hr Hu Ho d'. specialize (Hok d'). unfold with_map, with_event at 1. cbn [dev_map]. destruct (decide (d' = d)) as [->|Hne].
  - rewrite lookup_insert_eq. exists p'. split; [|done..]. by rewrite events_of_same, protocol_snoc.
  - rewrite lookup_insert_ne by done. rewrite events_of_other by done. destruct (dev_map v !! d') as [y|]; [|done]. destruct Hok as [p []]. exists p. split; try done.
    by rewrite events_of_other.
Qed.

Lemma ok_same v v' : dev_map v' = dev_map v -> dev_events v' = dev_events v -> devices_ok v -> devices_ok v'.
Proof.
  intros Hm He Hok d. specialize (Hok d). rewrite Hm. unfold events_of. rewrite He. destruct (dev_map v !! d); [|done].
  destruct Hok as [p []]. exists p. split; try done. unfold events_of. by rewrite He.
Qed.

Lemma ok_device d x v : devices_ok v -> dev_map v !! d = Some x -> exists p, device_ok d x v p.
Proof. intros Hok Hx. specialize (Hok d). by rewrite Hx in Hok. Qed.

Lemma with_event_map d e f v : with_event d e (with_map f v) = with_map f (with_event d e v).
Proof. done. Qed.

(** A call that the protocol allows. *)
Lemma post_call_driver d op x p v (Q : Z -> devices -> Prop) : devices_ok v -> dev_map v !! d = Some x -> protocol (dev_ops d) (events_of d v) = Some p ->
  (forall result, exists p', protocol_step (dev_ops d) p (ECall op result) = Some p' /\ (has_init (dev_ops d) = true -> ready p' = activated_dev x) /\
    (dv_ref_count x ≠ 0 -> is_ready (dev_ops d) p' = true /\ is_open (dev_ops d) p' = true)) ->
  (forall result x' v' p', devices_ok v' -> dev_map v' !! d = Some x' -> (exists o, x' = set_dv_open_flag o x) -> protocol_step (dev_ops d) p (ECall op result) = Some p' ->
    device_ok d x' v' p' -> Q result v') ->
  post (call_driver d op) Q v.
Proof.
  intros Hok Hx Hp Hstep HQ. unfold call_driver. apply post_bind, post_dev_get. intros x0 Hx0. assert (x0 = x) as -> by congruence.
  apply post_bind, post_gets. intros r Hr. destruct (driver d op (dev_events (ext_val r)) x) as [result o].
  apply post_bind, post_dev_mod. intros x1 Hx1. assert (x1 = x) as -> by congruence. apply post_bind, post_val_mod, post_ret.
  destruct (Hstep result) as (p' & Hp' & Hr' & Hu). destruct (ok_device d x v Hok Hx) as [p0 [_ _ _ Ho]]. set (x' := set_dv_open_flag (u16 o) x).
  assert (devices_ok (with_event d (ECall op result) (with_map (insert d x') v))) as Hok'.
  { apply (ok_event d _ x' v p'); [done|by rewrite Hx|by rewrite Hp|done..]. }
  apply (HQ result x' _ p' Hok').
  - cbn. by rewrite lookup_insert_eq.
  - by exists (u16 o).
  - done.
  - split; [|done..]. rewrite events_of_same, protocol_snoc. change (events_of d (with_map (insert d x') v)) with (events_of d v). by rewrite Hp.
Qed.

Lemma activated_or x : activated_dev (set_dv_flag (dv_flag x .| RT_DEVICE_FLAG_ACTIVATED) x) = true.
Proof.
  unfold activated_dev. cbn [dv_flag set_dv_flag]. rewrite Z.land_lor_distr_l. change (16 .& 16) with 16. destruct (Z.eqb_spec (dv_flag x .& 16 .| 16) 0) as [E|E]; [|done].
  apply Z.lor_eq_0_iff in E as [_ E]. done.
Qed.

(** [init] is called, and the device is activated if it succeeds. *)
Lemma post_init_driver d x v (Q : Z -> devices -> Prop) : devices_ok v -> dev_map v !! d = Some x -> has_init (dev_ops d) = true -> activated_dev x = false ->
  (forall result v', devices_ok v' -> (result = RT_EOK -> exists x', dev_map v' !! d = Some x' /\ activated_dev x' = true) -> Q result v') ->
  post (init_driver d) Q v.
Proof.
  intros Hok Hx Hi Ha HQ. destruct (ok_device d x v Hok Hx) as [p Hd]. pose proof (do_ready _ _ _ _ Hd Hi) as Hr. rewrite Ha in Hr.
  assert (dv_ref_count x = 0) as Href.
  { destruct (decide (dv_ref_count x = 0)) as [|Hne]; [done|]. apply (do_users _ _ _ _ Hd) in Hne as [Hrd _]. unfold is_ready in Hrd. by rewrite Hr, Hi in Hrd. }
  unfold init_driver, call_driver. apply post_bind, post_bind, post_dev_get. intros x0 Hx0. assert (x0 = x) as -> by congruence.
  apply post_bind, post_gets. intros r _. destruct (driver d DInit (dev_events (ext_val r)) x) as [result o].
  apply post_bind, post_dev_mod. intros x1 Hx1. assert (x1 = x) as -> by congruence. apply post_bind, post_val_mod, post_ret.
  assert (forall x', dv_ref_count x' = 0 -> dv_obj_type x' = dv_obj_type x -> activated_dev x' = (result =? RT_EOK) ->
    devices_ok (with_event d (ECall DInit result) (with_map (insert d x') v))) as Hev.
  { intros x' H1 H2 H3. apply (ok_event d _ x' v (mkPhase (result =? RT_EOK) (in_use p))); [done|by rewrite Hx| |done|done|].
    - rewrite (do_protocol _ _ _ _ Hd). simpl. by rewrite Hr.
    - rewrite H2. exact (do_object _ _ _ _ Hd). }
  apply post_bind, post_when; intros E.
  - apply post_dev_mod. intros x2 Hx2. cbn in Hx2. rewrite lookup_insert_eq in Hx2. injection Hx2 as <-. apply post_ret. apply HQ.
    + rewrite <- with_event_map. unfold with_map at 1. cbn [dev_map dev_list dev_errno dev_events with_map]. rewrite insert_insert_eq.
      apply (Hev (set_dv_flag _ _)); [done|done|]. rewrite E. exact (activated_or (set_dv_open_flag (u16 o) x)).
    + intros _. eexists. split; [cbn; apply lookup_insert_eq|exact (activated_or (set_dv_open_flag (u16 o) x))].
  - apply post_ret, HQ; [|intros ->; done]. apply Hev; [done|done|by rewrite E].
Qed.

Definition keeps {A} (m : DM A) : Prop := forall v, devices_ok v -> post m (fun _ => devices_ok) v.

Lemma keeps_bind {A B} (m : DM A) (f : A -> DM B) : keeps m -> (forall a, keeps (f a)) -> keeps (m ≫= f).
Proof. intros Hm Hf v Hv. apply post_bind. eapply post_mono; [by apply Hm|]. intros a v' Hv'. by apply Hf. Qed.

Lemma keeps_ret {A} (a : A) : keeps (mret a).
Proof. intros v Hv. by apply post_ret. Qed.

Lemma keeps_xlift {A} (m : M A) : keeps (xlift m).
Proof. intros v Hv. by apply post_xlift. Qed.

Lemma keeps_assert_device d : keeps (assert_device d).
Proof. intros v Hv. apply post_bind, post_dev_get. intros x _. by apply post_assert. Qed.

Lemma keeps_errno e : keeps (dev_set_errno e).
Proof.
  apply keeps_bind; [apply keeps_xlift|]. intros n. destruct (negb (n =? 0)); [intros v Hv; apply post_val_mod; by apply (ok_same v)|].
  apply keeps_bind; [apply keeps_xlift|]. intros [t|]; [apply keeps_xlift|intros v Hv; apply post_val_mod; by apply (ok_same v)].
Qed.

Lemma keeps_find name : keeps (rt_device_find name).
Proof.
  assert (forall m, keeps (in_thread m)) as Hin.
  { intros m. apply keeps_bind; [apply keeps_xlift|]. intros c v Hv. apply post_when; intros _; [by apply keeps_xlift|done]. }
  apply keeps_bind; [apply Hin|]. intros _. intros v Hv. apply post_bind, post_gets. intros r _.
  apply post_bind. apply post_mono with (fun _ => devices_ok).
  - generalize (dev_list (ext_val r)). intros l. induction l as [|d l IH]; cbn [find_loop]; [by apply post_ret|]. apply post_bind, post_dev_get. intros x _.
    case_bool_decide; [by apply post_ret|exact IH].
  - intros a v' Hv'. apply post_bind. eapply post_mono; [by apply Hin|]. intros [] v2 Hv2. by apply post_ret.
Qed.

(** The fields that the users of a device set. *)
Lemma keeps_dev_mod d f : (forall x, activated_dev (f x) = activated_dev x /\ dv_ref_count (f x) = dv_ref_count x /\ (dv_obj_type (f x) = dv_obj_type x \/ dv_obj_type (f x) = 0 \/
  dv_obj_type (f x) = RT_Object_Class_Device .| RT_Object_Class_Static)) -> keeps (dev_mod d f).
Proof.
  intros Hf v Hv. apply post_dev_mod. intros x Hx. destruct (Hf x) as (H1 & H2 & H3). apply (ok_insert d x); [done|done|]. intros p Hp.
  eapply device_ok_change; [exact Hp|done|done|by rewrite H2|done].
Qed.

Lemma keeps_list f : keeps (val_mod (with_list f)).
Proof. intros v Hv. apply post_val_mod. by apply (ok_same v). Qed.

Lemma keeps_detach d : keeps (device_object_detach d).
Proof. apply keeps_bind; [apply keeps_dev_mod; intros x; repeat split; auto|]. intros _. apply keeps_list. Qed.

Lemma keeps_register dev name flags : keeps (rt_device_register dev name flags).
Proof.
  destruct dev as [d|]; [|apply keeps_ret]. apply keeps_bind; [apply keeps_find|]. intros found. case_bool_decide; [apply keeps_ret|].
  apply keeps_bind; [apply keeps_bind; [|intros _; apply keeps_bind; [apply keeps_dev_mod; intros x; repeat split; auto|intros _; apply keeps_list]]|].
  - intros v Hv. by apply post_getso.
  - intros _ v Hv. apply post_bind, post_dev_mod. intros x Hx. apply post_bind, post_val_mod, post_ret.
    destruct (ok_device d x v Hv Hx) as [p Hp]. apply (ok_event d _ _ v (mkPhase (negb (u16 flags .& RT_DEVICE_FLAG_ACTIVATED =? 0)) false)); [done|by rewrite Hx| |done|done|].
    + by rewrite (do_protocol _ _ _ _ Hp).
    + exact (do_object _ _ _ _ Hp).
Qed.

Lemma keeps_create mem type : keeps (rt_device_create mem type).
Proof.
  destruct mem as [d|]; [|apply keeps_ret]. intros v Hv. apply post_bind, post_getso. intros r [] <- Hd. apply post_bind, post_val_mod, post_ret.
  destruct (dev_map (ext_val r) !! d) eqn:E; [done|]. intros d'. pose proof (Hv d') as Hd'. cbn [dev_map with_map]. destruct (decide (d' = d)) as [->|Hne].
  - rewrite lookup_insert_eq. rewrite E in Hd'. exists (mkPhase false false). split; [|done|done|by left]. change (protocol (dev_ops d) (events_of d (ext_val r)) = Some (mkPhase false false)).
    by rewrite Hd'.
  - rewrite lookup_insert_ne by done. destruct (dev_map (ext_val r) !! d') as [y|]; [|done]. destruct Hd' as [p []]. exists p. by split.
Qed.

(** A registered device is a static object: the assertions of [rt_device_destroy] fail for every device. *)
Lemma post_destroy d v Q : devices_ok v -> post (rt_device_destroy d) Q v.
Proof.
  intros Hv. unfold rt_device_destroy, assert_device, is_systemobject. apply post_bind, post_bind, post_dev_get. intros x Hx. apply post_assert. intros Hty%Z.eqb_eq.
  apply post_bind, post_bind, post_dev_get. intros x' Hx'. assert (x' = x) as -> by congruence. apply post_ret. apply post_bind, post_assert. intros Hs.
  destruct (ok_device d x v Hv Hx) as [p Hp]. destruct (do_object _ _ _ _ Hp) as [E|E]; by rewrite E in Hty, Hs.
Qed.

Lemma keeps_init d : keeps (rt_device_init d).
Proof.
  intros v Hv. apply post_bind, post_dev_get. intros x Hx. destruct (has_init (dev_ops d)) eqn:Hi; [|by apply post_ret]. destruct (activated_dev x) eqn:Ha; [by apply post_ret|].
  by apply (post_init_driver d x).
Qed.

Lemma keeps_open_rest d oflag x v : devices_ok v -> dev_map v !! d = Some x -> activated_dev x = true -> post (device_open_rest d oflag) (fun _ => devices_ok) v.
Proof.
  intros Hv Hx Ha. unfold device_open_rest. apply post_bind, post_dev_get. intros x0 Hx0. assert (x0 = x) as -> by congruence.
  destruct (negb (dv_flag x .& 8 =? 0) && negb (dv_open_flag x .& 8 =? 0)); [by apply post_ret|].
  destruct (ok_device d x v Hv Hx) as [p Hp]. assert (forall q, (has_init (dev_ops d) = true -> ready q = true) -> is_ready (dev_ops d) q = true) as Hrdy.
  { intros q Hq. unfold is_ready. destruct (has_init (dev_ops d)); [by rewrite Hq|by rewrite orb_true_r]. }
  pose proof (Hrdy p ltac:(intros Hi; by rewrite (do_ready _ _ _ _ Hp Hi))) as Hpr.
  assert (forall x' v' q, devices_ok v' -> dev_map v' !! d = Some x' -> device_ok d x' v' q -> is_ready (dev_ops d) q = true -> is_open (dev_ops d) q = true -> activated_dev x' = activated_dev x ->
    post (dev_mod d (fun x => set_dv_ref_count (u8 (dv_ref_count x + 1)) (set_dv_open_flag (dv_open_flag x .| RT_DEVICE_OFLAG_OPEN) x));;
       x ← dev_get d; RT_ASSERT (negb (dv_ref_count x =? 0))) (fun _ => devices_ok) v') as Hcount.
  { intros x' v' q Hv' Hx' Hq Hr Ho _. apply post_bind, post_dev_mod. intros x1 Hx1. assert (x1 = x') as -> by congruence. apply post_bind, post_dev_get. intros x2 _.
    apply post_assert. intros _. intros d'. specialize (Hv' d'). cbn [dev_map with_map]. destruct (decide (d' = d)) as [->|Hne].
    - rewrite lookup_insert_eq. exists q. destruct Hq. by split.
    - rewrite lookup_insert_ne by done. destruct (dev_map v' !! d') as [y|]; [|done]. destruct Hv' as [q' []]. exists q'. by split. }
  apply post_bind. destruct (has_open (dev_ops d)) eqn:Ho.
  - apply (post_call_driver d (DOpen oflag) x p); [done|done|exact (do_protocol _ _ _ _ Hp)| |].
    + intros result. simpl. rewrite Hpr. eexists. split; [done|]. split; [intros Hi; simpl; by apply (do_ready _ _ _ _ Hp)|]. intros Hu. destruct (do_users _ _ _ _ Hp Hu) as [Hu1 Hu2].
      split; [exact Hu1|]. unfold is_open in *. simpl. rewrite Ho in *. cbn [negb] in *. rewrite orb_false_r in *. by rewrite Hu2.
    + intros result x' v' p' Hv' Hx' [o ->] Hs Hp'. simpl in Hs. rewrite Hpr in Hs. injection Hs as <-. apply post_bind, post_when; [|by intros _; apply post_ret].
      intros Hres. eapply post_mono; [eapply (Hcount _ v' _ Hv' Hx' Hp')|]; [exact Hpr|unfold is_open, opened; simpl; by rewrite Hres, orb_true_r|done|].
      intros [] v2 Hv2. by apply post_ret.
  - apply post_bind. apply post_dev_mod. intros x1 Hx1. assert (x1 = x) as -> by congruence. apply post_ret. apply post_bind, post_when; [|done]. intros _.
    assert (device_ok d (set_dv_open_flag (oflag .& RT_DEVICE_OFLAG_MASK) x) (with_map (insert d (set_dv_open_flag (oflag .& RT_DEVICE_OFLAG_MASK) x)) v) p) as Hp'
      by (eapply device_ok_change; [exact Hp|done|done|done|by left]).
    eapply post_mono; [eapply (Hcount _ _ p); [|cbn; apply lookup_insert_eq|exact Hp'|exact Hpr|unfold is_open; by rewrite Ho, orb_true_r|done]|].
    + apply (ok_insert d x); [done|done|]. intros p0 Hp0. by eapply device_ok_change; [exact Hp0|..|left].
    + intros [] v2 Hv2. by apply post_ret.
Qed.

Lemma keeps_open d oflag : keeps (rt_device_open d oflag).
Proof.
  apply keeps_bind; [apply keeps_assert_device|]. intros _ v Hv. apply post_bind, post_dev_get. intros x Hx. apply post_bind.
  apply post_mono with (fun result v' => devices_ok v' /\ (result = RT_EOK -> exists x', dev_map v' !! d = Some x' /\ activated_dev x' = true)).
  - destruct (activated_dev x) eqn:Ha; cbn [negb]; [by apply post_ret; eauto|]. destruct (has_init (dev_ops d)) eqn:Hi.
    + by apply (post_init_driver d x).
    + apply post_bind, post_dev_mod. intros x1 Hx1. assert (x1 = x) as -> by congruence. apply post_ret. split.
      * apply (ok_insert d x); [done|done|]. intros p [H1 H2 H3 H4]. split; [done|by rewrite Hi|done|done].
      * intros _. eexists. split; [cbn; apply lookup_insert_eq|apply activated_or].
  - intros result v' [Hv' Hact]. destruct (Z.eqb_spec result RT_EOK) as [->|]; [|by apply post_ret]. destruct (Hact eq_refl) as (x' & Hx' & Ha). by eapply keeps_open_rest.
Qed.

Lemma keeps_close d : keeps (rt_device_close d).
Proof.
  apply keeps_bind; [apply keeps_assert_device|]. intros _ v Hv. apply post_bind, post_dev_get. intros x Hx.
  destruct (Z.eqb_spec (dv_ref_count x) 0) as [|Href]; [by apply post_ret|]. destruct (ok_device d x v Hv Hx) as [p Hp].
  destruct (do_users _ _ _ _ Hp Href) as [Hu1 Hu2]. apply post_bind, post_dev_mod. intros x1 Hx1. assert (x1 = x) as -> by congruence.
  set (x' := set_dv_ref_count (u8 (dv_ref_count x - 1)) x). set (v' := with_map (insert d x') v).
  assert (forall q, device_ok d x v q -> device_ok d x' v' q) as Hq by (intros q Hq; by eapply device_ok_change; [exact Hq|..|left]).
  assert (devices_ok v') as Hv' by (apply (ok_insert d x); [done|done|]; intros q Hq'; by eapply device_ok_change; [exact Hq'|..|left]). assert (dev_map v' !! d = Some x') as Hx' by (cbn; apply lookup_insert_eq).
  destruct (Z.eqb_spec (u8 (dv_ref_count x - 1)) 0) as [E0|E0]; cbn [negb]; [|by apply post_ret]. apply post_bind.
  apply post_mono with (fun _ => devices_ok).
  - destruct (has_close (dev_ops d)); [|by apply post_ret]. apply (post_call_driver d DClose x' p); [done|done|exact (do_protocol _ _ _ _ (Hq p Hp))| |by auto].
    intros result. simpl. rewrite Hu1, Hu2. eexists. split; [done|]. split; [exact (do_ready _ _ _ _ Hp)|]. unfold x'. cbn [dv_ref_count set_dv_ref_count]. by rewrite E0.
  - intros result v2 Hv2. apply post_bind, post_when; [|by intros _; apply post_ret]. intros _. eapply post_mono; [apply keeps_dev_mod; [|exact Hv2]; intros y; repeat split; auto|].
    intros [] v3 Hv3. by apply post_ret.
Qed.

Lemma keeps_transfer d has op : (exists pos size, op = DRead pos size \/ op = DWrite pos size) -> keeps (device_transfer d has op).
Proof.
  intros (pos & size & Hop). apply keeps_bind; [apply keeps_assert_device|]. intros _ v Hv. apply post_bind, post_dev_get. intros x Hx.
  destruct (Z.eqb_spec (dv_ref_count x) 0) as [|Href]; [by apply keeps_bind; [apply keeps_errno|intros; apply keeps_ret|]|].
  destruct has; [|by apply keeps_bind; [apply keeps_errno|intros; apply keeps_ret|]]. destruct (ok_device d x v Hv Hx) as [p Hp].
  destruct (do_users _ _ _ _ Hp Href) as [Hu1 Hu2]. apply (post_call_driver d op x p); [done|done|exact (do_protocol _ _ _ _ Hp)| |by auto].
  intros result. exists p. split; [by destruct Hop as [-> | ->]; simpl; rewrite Hu1, Hu2|]. split; [exact (do_ready _ _ _ _ Hp)|done].
Qed.

Lemma keeps_control d cmd : keeps (rt_device_control d cmd).
Proof.
  apply keeps_bind; [apply keeps_assert_device|]. intros _. destruct (has_control (dev_ops d)); [|apply keeps_ret]. intros v Hv.
  unfold keeps. destruct (dev_map v !! d) as [x|] eqn:Hx.
  - destruct (ok_device d x v Hv Hx) as [p Hp]. apply (post_call_driver d (DControl cmd) x p); [done|done|exact (do_protocol _ _ _ _ Hp)| |by auto].
    intros result. exists p. split; [done|]. split; [exact (do_ready _ _ _ _ Hp)|exact (do_users _ _ _ _ Hp)].
  - apply post_bind, post_dev_get. intros x Hx'. congruence.
Qed.

Lemma keeps_unregister d : keeps (rt_device_unregister d).
Proof.
  apply keeps_bind; [apply keeps_assert_device|]. intros _. apply keeps_bind; [intros v Hv; apply post_bind, post_dev_get; intros x _; by apply post_ret|].
  intros b. apply keeps_bind; [intros v Hv; by apply post_assert|]. intros _. apply keeps_bind; [apply keeps_detach|]. intros _. apply keeps_ret.
Qed.

Lemma keeps_set d f : (forall x, activated_dev (f x) = activated_dev x /\ dv_ref_count (f x) = dv_ref_count x /\ dv_obj_type (f x) = dv_obj_type x) ->
  keeps (assert_device d;; dev_mod d f;; mret RT_EOK).
Proof.
  intros Hf. apply keeps_bind; [apply keeps_assert_device|]. intros _. apply keeps_bind; [|intros _; apply keeps_ret]. apply keeps_dev_mod.
  intros x. destruct (Hf x) as (? & ? & ?). auto.
Qed.

Lemma keeps_call c : keeps (run_device_call c).
Proof.
  assert (forall A (m : DM A), keeps m -> keeps (m;; mret tt)) as Hret by (intros A m Hm; apply keeps_bind; [done|intros _; apply keeps_ret]).
  destruct c; cbn [run_device_call].
  - apply Hret, keeps_register.
  - apply Hret, keeps_unregister.
  - apply Hret, keeps_find.
  - apply Hret, keeps_create.
  - intros v Hv. by apply post_destroy.
  - apply Hret, keeps_init.
  - apply Hret, keeps_open.
  - apply Hret, keeps_close.
  - apply Hret, keeps_transfer. eauto.
  - apply Hret, keeps_transfer. eauto.
  - apply Hret, keeps_control.
  - apply Hret, keeps_set. done.
  - apply Hret, keeps_set. done.
Qed.

Lemma keeps_calls l : keeps (run_device_calls l).
Proof. induction l as [|c l IH]; [apply keeps_ret|]. apply keeps_bind; [apply keeps_call|]. by intros _. Qed.

Lemma initial_ok v : devices_initial v -> devices_ok v.
Proof.
  intros [He Hd] d. unfold events_of. rewrite He. destruct (dev_map v !! d) as [x|] eqn:Hx; [|done]. destruct (Hd _ _ Hx) as (H1 & H2 & H3).
  exists (mkPhase false false). split; [unfold events_of; by rewrite He| |done|by left]. intros _. unfold activated_dev. by rewrite H2.
Qed.

(** C40: A driver can rely on the order of the calls: whatever the users of the devices call, one after the other, a driver is initialised before anything else and
    only until that succeeds, it is opened when it is ready, and read, written and closed only between a successful [open] and the [close]. *)
Theorem device_protocol calls r r' d : devices_initial (ext_val r) -> run_device_calls calls r = Some (tt, r') ->
  exists p, protocol (dev_ops d) (events_of d (ext_val r')) = Some p /\
    forall x, dev_map (ext_val r') !! d = Some x -> dv_ref_count x ≠ 0 -> is_ready (dev_ops d) p = true /\ is_open (dev_ops d) p = true.
Proof.
  intros Hin Hrun. pose proof (keeps_calls calls (ext_val r) (initial_ok _ Hin) r tt r' eq_refl Hrun d) as Hd.
  destruct (dev_map (ext_val r') !! d) as [x|]; [|rewrite Hd; by eexists]. destruct Hd as [p [H1 _ H3 _]]. exists p. split; [done|]. by intros ? [= <-].
Qed.

(** No device that the users can make can be destroyed. *)
Theorem rt_device_destroy_never calls r r' d : devices_initial (ext_val r) -> run_device_calls calls r = Some (tt, r') -> rt_device_destroy d r' = None.
Proof.
  intros Hin Hrun. pose proof (keeps_calls calls (ext_val r) (initial_ok _ Hin) r tt r' eq_refl Hrun) as Hok.
  destruct (rt_device_destroy d r') as [[[] r2]|] eqn:E; [|done]. by destruct (post_destroy d (ext_val r') (fun _ _ => False) Hok r' tt r2 eq_refl E).
Qed.
End device.

(** ** Examples *)

(** All functions are there, and every call succeeds and leaves the open flag; but a close fails with -1 for the device 1, and the first initialisation of the
    device 2 fails with -1. *)
Definition demo_drivers : Drivers := {|
  dev_ops := fun _ => mkOps true true true true true true;
  driver := fun d op events x =>
    (match op with
     | DClose => if (d =? 1)%nat then -1 else 0
     | DInit => if (d =? 2)%nat && (length events =? 1)%nat then -1 else 0
     | DRead _ size | DWrite _ size => size
     | _ => 0
     end, dv_open_flag x) |}.

Definition raw_device : rt_device := mkDevice EmptyString 0 0 0 0 0 None None.
Definition demo_devices : ext devices := mkExt (mkDevices {[0%nat := raw_device; 1%nat := raw_device; 2%nat := raw_device]} [] 0 []) demo_kernel.

Lemma demo_devices_initial : devices_initial (ext_val demo_devices).
Proof.
  split; [done|]. intros d x Hx. cbn in Hx. apply lookup_insert_Some in Hx as [[_ <-]|[_ Hx]]; [done|]. apply lookup_insert_Some in Hx as [[_ <-]|[_ Hx]]; [done|].
  by apply lookup_singleton_Some in Hx as [_ <-].
Qed.

(** The device 2 is initialised at the second attempt, shared by two users, and closed by the last of them. *)
Definition demo_calls : list device_call :=
  [CRegister (Some 2%nat) "uart2" 0; COpen 2 3; COpen 2 3; COpen 2 3; CRead 2 0 8; CClose 2; CWrite 2 0 4; CClose 2; CRead 2 0 8].

Lemma device_protocol_witness :
  option_map (fun p => events_of 2 (ext_val p.2)) (run_device_calls (drivers := demo_drivers) demo_calls demo_devices) =
    Some [ERegister 0; ECall DInit (-1); ECall DInit 0; ECall (DOpen 3) 0; ECall (DOpen 3) 0; ECall (DRead 0 8) 8; ECall (DWrite 0 4) 4; ECall DClose 0] /\
  forall r', run_device_calls (drivers := demo_drivers) demo_calls demo_devices = Some (tt, r') ->
    exists p, protocol (dev_ops (Drivers := demo_drivers) 2) (events_of 2 (ext_val r')) = Some p /\
      forall x, dev_map (ext_val r') !! 2%nat = Some x -> dv_ref_count x ≠ 0 -> is_ready (dev_ops (Drivers := demo_drivers) 2) p = true /\ is_open (dev_ops (Drivers := demo_drivers) 2) p = true.
Proof.
  split; [vm_compute; reflexivity|]. intros r'. exact (device_protocol (drivers := demo_drivers) demo_calls demo_devices r' 2%nat demo_devices_initial).
Defined.

(** A stand-alone device whose driver could not close it stays open without a user: it can be neither opened nor closed again. *)
Example close_failure_locks :
  match run_device_calls (drivers := demo_drivers) [CRegister (Some 1%nat) "sd0" RT_DEVICE_FLAG_STANDALONE; COpen 1 3; CClose 1] demo_devices with
  | Some (tt, r') =>
      option_map fst (rt_device_open (drivers := demo_drivers) 1 3 r') = Some (- RT_EBUSY) /\
      option_map fst (rt_device_close (drivers := demo_drivers) 1 r') = Some (- RT_ERROR)
  | None => False
  end.
Proof. vm_compute. by split. Qed.

(** The 256th user fails the assertion on the counter. *)
Example too_many_users :
  option_map fst (run_device_calls (drivers := demo_drivers) (CRegister (Some 0%nat) "uart1" 0 :: replicate 255 (COpen 0 3)) demo_devices) = Some tt /\
  option_map fst (run_device_calls (drivers := demo_drivers) (CRegister (Some 0%nat) "uart1" 0 :: replicate 256 (COpen 0 3)) demo_devices) = None.
Proof. split; vm_compute; reflexivity. Qed.
